(* ===== verification/_CoqProject ===== *)
-Q . S2P
Prelude.v
Qlist.v
RbMap.v
RbTree.v
RbInsert.v
RbRemove.v
MapSpec.v
MapRemove.v
MapOps.v
QMap.v
FlexiMap.v
Timer.v
TimerSpec.v
TimerProps.v
Bytes.v
CommuDb.v
CommuNet.v
Pool.v
ObjPool.v
ObjList.v
ObjListProps.v
ObjMap.v
ObjMapSpec.v
ObjMapProps.v
ObjMapMerge.v
ObjMapDelta.v
Storage.v
FdbFilter.v
FdbLists.v
FdbFilterSpec.v
FdbFilterOps.v
UcDb.v
UcDbSpec.v
UcDbInit.v
FdbStorage.v
UcDbProps.v
Comp.v
CommuSess.v
CommuThread.v
CommuSessProps.v
CommuServer.v
CommuThreadProps.v
CommuEnds.v
CommuSystem.v
EventDisp.v
EventDispSpec.v
EventDispOps.v
EventDispProps.v
EventDispSafe.v
CtrlLearn.v
CtrlLearnApi.v
CtrlLearnThread.v
CtrlLearnSpec.v
CtrlLearnNotify.v
CtrlLearnEvents.v
CtrlLearnProps.v
CtrlLearnSet.v
CtrlLearnRead.v
CtrlLearnApiProps.v
CtrlLearnSafe.v
