(* ===== verification/Prelude.v ===== *)
(** * mlnx_lib: a verification of its containers, messages and databases

    The library serves a switch's control plane.  Its parts, from the bottom:
    - complib ([src/sx_complib]): containers whose items the caller embeds in its
      own structures and which link them in place (quick list, quick map, flexi
      map), pools of objects, and wrappers of system calls;
    - the communication library ([src/libcommu]): messages over UDP and TCP with
      a header of its own, and one database of all sessions and connections;
    - controlled learning ([src/libctrllearn]): the addresses the switch learns and
      ages are offered to a client, configured in the hardware and kept in a
      database of unicast MAC addresses, which is a quick map with entries from a
      pool, threaded through filtering lists by VLAN, port and both;
    - the event dispatcher ([src/libeventdisp]): events of one client delivered
      to others over datagram sockets, with a table of who gets what;
    - logging and remote calls.

    ** The files

    This file: addresses, integers of machine width, updates of memory, the
    automation and the lemmas on lists that all components share.

    - [Qlist.v]: [cl_qlist.h] and the quick-list part of [cl_list.c].  The state
      is the memory of links ([links]) and a list structure ([cl_qlist_t]); the
      abstract state is the sequence of items ([qlist_at]).
    - [RbMap.v]: the tree code of [cl_map.c] with [cl_qmap.h] and
      [cl_fleximap.h], written once over the comparison of keys.  [RbTree.v]: the
      trees in memory, zippers, rotations.  [RbInsert.v], [RbRemove.v]:
      rebalancing.  [MapSpec.v], [MapRemove.v], [MapOps.v]: the effect of each
      operation on the list of entries.  [QMap.v]: the quick map ([cl_qmap_*]),
      keys of 64 bits.  [FlexiMap.v]: the flexi map ([cl_fmap_*]), with its
      caller's comparison function.
    - [CommuDb.v]: [lib_commu_db.c].  The database is a record of tables; each
      function is a computation over it with [errno] results, and a lock.
    - [CommuNet.v]: the sending and receiving functions of [lib_commu.c] over
      sockets, which are a class of calls.
    - [CommuSess.v]: the rest of [lib_commu.c] but its threads: start and end,
      sessions, servers, clients and status, over a type of operating-system calls
      with what each returns and leaves.  [CommuThread.v]: the threads of servers and
      of connections, as turns of their loops.  [CommuSessProps.v]: the laws of
      descriptors, and sessions as sets of handles; [CommuServer.v],
      [CommuThreadProps.v], [CommuEnds.v]: servers, threads, connecting clients and
      the end; [CommuSystem.v]: a system that keeps the laws, and runs on it.
    - [Pool.v]: [cl_pool.c] with [cl_qcomppool.h], [cl_comppool.h], [cl_qpool.h]
      and [cl_pool.h], over an allocator, which is a class of calls with laws.
    - [ObjPool.v]: pools of items for containers.  [ObjList.v]: [cl_list.h] and the
      object part of [cl_list.c]; [ObjListProps.v]: its properties.  [ObjMap.v]:
      [cl_map.h] and the object part of [cl_map.c]; [ObjMapSpec.v]: what each
      operation does; [ObjMapProps.v]: one map; [ObjMapMerge.v] and
      [ObjMapDelta.v]: several maps in one memory, merging and difference.
    - [Timer.v]: [cl_timer.c], as a system of steps of the timer thread and of the
      threads that call it; [TimerSpec.v]: its invariant; [TimerProps.v]: its
      properties, and races.
    - [Storage.v]: what an ordered map and a pool promise to a client, as classes.
      [FdbStorage.v]: the quick map and the pool keep these promises.
    - [FdbFilter.v]: [lib_ctrl_learn_filters.c]; [UcDb.v]:
      [lib_ctrl_learn_uc_db.c], both against [Storage.v].  [FdbLists.v]: the
      lists in memory; [FdbFilterSpec.v], [FdbFilterOps.v]: what the filter
      operations do; [UcDbSpec.v]: the database implements a finite map;
      [UcDbInit.v]: its initialisation and end; [UcDbProps.v]: its properties.
    - [Bytes.v]: values of several bytes in buffers.  [Comp.v]: computations on a
      state, their triples, loops.
    - [EventDisp.v]: [lib_event_disp.c] over sockets, which are a class of calls.
      [EventDispSpec.v]: the table of registrations and its queues, and what the
      tables of the code mean; [EventDispOps.v]: what each call does;
      [EventDispProps.v], [EventDispSafe.v]: properties.
    - [CtrlLearn.v]: [lib_ctrl_learn.c] from the events of the switch to the
      database, with [lib_ctrl_learn.h] and the conversion of status codes;
      [CtrlLearnApi.v]: the calls of clients; [CtrlLearnThread.v]: start, end,
      the thread and test events.  The hardware layer, the switch and the heap are
      a class of calls, callbacks are functions.  [CtrlLearnSpec.v]: known
      addresses and flushes; [CtrlLearnNotify.v]: decisions;
      [CtrlLearnEvents.v], [CtrlLearnSet.v], [CtrlLearnRead.v]: handling events,
      setting and reading addresses; [CtrlLearnProps.v], [CtrlLearnApiProps.v],
      [CtrlLearnSafe.v]: properties.

    Definitions have the names of the code's functions, types and constants.

    ** What the theorems show

    - Containers: each list and map operation does to the abstract sequence or
      entry list what its name says, ends, keeps the structure well formed and
      writes nothing outside it; a search in a map takes logarithmically many
      steps; whole runs of the quick map agree with a sorted association list;
      merge and difference lose no item; pools never hand out an object twice and
      free each block once.
    - Lists and maps of objects: whole runs agree with a sequence of objects and a
      sorted list of objects by key, insertions without memory leaving them as they
      were; what is asked for at the start is there; merging says what it has not
      moved; a difference for which there is no memory is undone on all four maps.
    - Timers: in every state that can be reached the queue is ordered and a waiting
      provider waits for the first timer; what is due is called back once, in order;
      a timer fires too early, or is stopped too late, only in the races shown.
    - Messages: what TCP delivers is what was sent, message by message and in
      order, however the stream is cut; receivers stay inside their buffers
      whatever the peer sends (for UDP, as far as the caller offers at most one
      datagram); refused headers are reported.
    - Connection database: no access outside a table and no self-deadlock in any
      sequence of calls; counts and status agree with the tables; lookups are
      complete.
    - Sessions and threads: starts and stops of sessions agree with sets of handles,
      and a failed start leaves no descriptor open; starting a server reports success
      also where it has failed after taking the mutex, a server that is stopped has
      closed its clients; threads keep the tables whole and the mutexes free whatever
      connects; a connection beyond the sixteenth ends the thread of a server; the end
      of the library waits for connecting threads and closes its own socket.
    - MAC addresses: any sequence of calls on the database agrees with a finite
      map; a traversal by filter yields exactly the matching records; the
      database can be ended.
    - Event dispatcher: any sequence of calls answers as a table of registrations
      with a queue of messages per descriptor does; a client that registers gets
      the next event; whatever the arguments, calls stay inside the tables and
      leave the mutex free; ten openings exhaust the connections; the end closes
      what is open.
    - Controlled learning: handling a batch of events and setting addresses refine
      updates of a map of known addresses, under the decisions of the client and
      the answers of the hardware; without a callback no more is approved than
      there is room for; a flush deletes exactly what it says; pages of addresses
      show each once; any sequence of turns of the thread and calls of clients has
      results and leaves the lock free.
    - Errors: truncated counts, statuses lost on error paths, trust in claimed
      sizes, records that cannot be deleted, batches that mix learning with
      ageing or that the hardware refuses in part, and cookies shared by two
      records are stated as the code behaves.

    ** Choices

    Pointers are integers, memory is total functions from addresses to fields,
    and an update is written [f⟦a <~ v⟧].  Unsigned integers are wrapped where
    the code stores them ([wrap]).  A loop whose end is not evident has fuel; each
    function takes the fuel from a count the code keeps or from the length of the
    ring it walks, plus one, and the theorems show that a result is produced, so
    that the fuel suffices.  A computation without a result stands for an access
    outside an array or buffer, for waiting on a lock held by the caller, or for
    a loop that does not end; the theorems exclude it.

    Assumed of what is outside the library: the allocator returns memory not in
    use ([Pool.v]); [errno] values are positive; stream sockets neither lose nor
    reorder bytes ([CommuNet.v]); datagram sockets keep messages whole and in order
    ([EventDispSpec.v]); the hardware layer leaves its array as it is when it
    succeeds and otherwise puts the entries that failed first, an entry written in
    an event is read back as it was ([CtrlLearnSpec.v]), and the callback on
    notifications changes decisions only.  A turn of the learning thread and a
    call of a client run one after the other: the lock is taken where the code
    takes it, but steps are not interleaved.  The threads of the communication
    library likewise run a turn at a time; a system call that makes a descriptor
    makes a new one, a failing one sets [errno], and correct locks succeed
    ([CommuSessProps.v]).  The steps of timers are interleaved;
    a step is what runs while the mutex is held, and timers start out cleared.  The host is little-endian with 64-bit
    pointers, and the build is the release build, without the list pointers that
    a debug build keeps in items.  A map or pool in the MAC database comes with
    the memory it works on; that the memories of different structures do not
    overlap follows from the allocator's promise and from the layout of the
    static variables, which the theorem on initialisation takes as given
    ([UcDbInit.static_ok]).  The lists and maps of objects work in the memory of
    their pools and share it with other lists and maps; the tree fields of a new
    item are not cleared, since the map writes them before it reads them.  The
    theorems on merging and difference are about objects that are not null.

    ** Not modelled

    Log output, and functions that only print.  Threads and system calls:
    events, locks, channels and memory wrappers of complib and the server of
    [sx_rpc_common.c], of which little is left without the operating system, whose
    calls they order. *)

From stdpp Require Export base list numbers option sets gmap.
From Stdlib Require Export ZArith Lia.

Declare Scope c_scope.
Delimit Scope c_scope with c.

(** ** Addresses and C integers *)

(** A C pointer is the address it holds; [NULL] is address zero. *)
Abbreviation ptr := Z.
Abbreviation NULL := 0%Z.

(** [wrap w x] is the value a [w]-bit unsigned object holds after [x] is
    stored in it. *)
Definition wrap (w x : Z) : Z := (x mod 2 ^ w)%Z.

Abbreviation u8 := (wrap 8) (only parsing).
Abbreviation u16 := (wrap 16) (only parsing).
Abbreviation u32 := (wrap 32) (only parsing).
Abbreviation u64 := (wrap 64) (only parsing).

(** The status codes of [cl_types.h] that the modelled code returns. *)
Definition cl_status_t := Z.
Definition CL_SUCCESS : cl_status_t := 0%Z.
Definition CL_ERROR : cl_status_t := 1%Z.
Definition CL_INVALID_PARAMETER : cl_status_t := 5%Z.
Definition CL_INVALID_SETTING : cl_status_t := 4%Z.
Definition CL_INSUFFICIENT_MEMORY : cl_status_t := 7%Z.
Definition CL_NOT_FOUND : cl_status_t := 16%Z.

Inductive cl_state_t := CL_UNINITIALIZED | CL_INITIALIZED | CL_DESTROYING | CL_DESTROYED.

#[export] Instance cl_state_eq_dec : EqDecision cl_state_t.
Proof. solve_decision. Defined.

(** ** One field of a struct, as a function of the struct's address *)

Definition upd {A} (f : ptr -> A) (p : ptr) (v : A) : ptr -> A :=
  fun q => if decide (q = p) then v else f q.

Notation "f ⟦ p <~ v ⟧" := (upd f p v)
  (at level 1, left associativity, format "f ⟦ p  <~  v ⟧") : c_scope.
Open Scope c_scope.

Lemma upd_eq {A} (f : ptr -> A) p v : (f ⟦p <~ v⟧) p = v.
Proof. unfold upd. by rewrite decide_True. Qed.

Lemma upd_ne {A} (f : ptr -> A) p q v : q <> p -> (f ⟦p <~ v⟧) q = f q.
Proof. intros. unfold upd. by rewrite decide_False. Qed.

(** ** Machine integers *)

Lemma wrap_small w x : (0 <= x < 2 ^ w)%Z -> wrap w x = x.
Proof. apply Z.mod_small. Qed.

Lemma wrap_range w x : (0 <= w)%Z -> (0 <= wrap w x < 2 ^ w)%Z.
Proof. intros. apply Z.mod_pos_bound, Z.pow_pos_nonneg; lia. Qed.

Lemma wrap_add_wrap w x y : wrap w (wrap w x + y) = wrap w (x + y).
Proof. unfold wrap. apply Zplus_mod_idemp_l. Qed.

Lemma wrap_sub_wrap w x y : wrap w (wrap w x - y) = wrap w (x - y).
Proof. unfold wrap. apply Zminus_mod_idemp_l. Qed.

Lemma wrap_add_wrap_r w x y : wrap w (x + wrap w y) = wrap w (x + y).
Proof. unfold wrap. apply Zplus_mod_idemp_r. Qed.

Lemma wrap_wrap_le v w x : (0 <= v <= w)%Z -> wrap v (wrap w x) = wrap v x.
Proof.
  intros. unfold wrap. apply Z.mod_mod_divide.
  exists (2 ^ (w - v))%Z. rewrite <- Z.pow_add_r by lia. f_equal. lia.
Qed.

(** ** Automation *)

(** Two lists without a common element, by the shape of the first. *)
Lemma disjoint_app_l {A} (l1 l2 k : list A) :
  (forall x, x ∈ l1 ++ l2 -> x ∉ k) <->
  (forall x, x ∈ l1 -> x ∉ k) /\ (forall x, x ∈ l2 -> x ∉ k).
Proof. setoid_rewrite elem_of_app. naive_solver. Qed.

Lemma disjoint_cons_l {A} (a : A) (l k : list A) :
  (forall x, x ∈ a :: l -> x ∉ k) <-> a ∉ k /\ (forall x, x ∈ l -> x ∉ k).
Proof. setoid_rewrite elem_of_cons. naive_solver. Qed.

(** Membership of list literals and concatenations, spelled out. *)
Ltac elem_simpl :=
  repeat first
    [ progress rewrite ?elem_of_cons, ?elem_of_app, ?elem_of_nil in *
    | match goal with
      | H : _ /\ _ |- _ => destruct H
      | H : ~ (_ \/ _) |- _ => apply Decidable.not_or in H as [? ?]
      | H : ~ False |- _ => clear H
      end ].

(** Break [NoDup] hypotheses on concatenations into their parts. *)
Ltac nodup_simpl :=
  repeat match goal with
  | H : NoDup (_ :: _) |- _ => apply NoDup_cons in H as [? ?]
  | H : NoDup (_ ++ _) |- _ => apply NoDup_app in H as (? & ? & ?)
  | H : NoDup [] |- _ => clear H
  | H : forall x, x ∈ _ ++ _ -> x ∉ _ |- _ => apply disjoint_app_l in H
  | H : forall x, x ∈ _ :: _ -> x ∉ _ |- _ => apply disjoint_cons_l in H
  | H : forall x, x ∈ [] -> x ∉ _ |- _ => clear H
  | H : _ /\ _ |- _ => destruct H
  end.

(** Disequality of addresses (or non-membership) from the separation facts of
    the context. *)
Ltac ne_close :=
  elem_simpl;
  repeat match goal with
  | H : _ \/ _ |- _ => destruct H
  end; subst; try congruence;
  repeat match goal with
  | H : (forall x, x ∈ ?l -> x ∉ ?k), Hz : ?z ∈ ?l |- _ =>
      lazymatch goal with
      | _ : z ∉ k |- _ => fail
      | _ => pose proof (H z Hz)
      end
  end;
  elem_simpl; subst; intuition (congruence || eauto).
Ltac ne_solve := solve [ done | congruence | repeat intro; subst; nodup_simpl; ne_close ].

(** Evaluate field reads through field writes. *)
Ltac upd_step :=
  match goal with
  | |- context [upd ?f ?p ?v ?p] => rewrite (upd_eq f p v)
  | |- context [upd ?f ?p ?v ?q] => rewrite (upd_ne f p q v) by ne_solve
  end.
Ltac upd_simpl := repeat upd_step.

(** Decide a closed proposition by evaluation. *)
Ltac vm_decide := apply (bool_decide_unpack _); vm_compute; exact I.

Ltac split_and_all := repeat match goal with |- _ /\ _ => split end.

Create HintDb complib.
Create Rewrite HintDb wraps.
#[export] Hint Rewrite wrap_add_wrap wrap_sub_wrap wrap_add_wrap_r : wraps.

(** ** Lists *)

(** Every list is empty or has a last element. *)
Lemma list_snoc_case {A} (l : list A) : l = [] \/ exists l' x, l = l' ++ [x].
Proof. induction l as [|x l' _] using rev_ind; eauto. Qed.

(** The sublist of elements satisfying a boolean test, and the rest. *)
Definition filterb {A} (f : A -> bool) (l : list A) : list A :=
  base.filter (fun x => f x = true) l.

Arguments filterb : simpl never.

Lemma filterb_cons {A} (f : A -> bool) x l :
  filterb f (x :: l) = if f x then x :: filterb f l else filterb f l.
Proof. unfold filterb. rewrite filter_cons. destruct (f x); by case_decide. Qed.

Lemma filterb_app {A} (f : A -> bool) l1 l2 :
  filterb f (l1 ++ l2) = filterb f l1 ++ filterb f l2.
Proof. apply filter_app. Qed.

Lemma elem_of_filterb {A} (f : A -> bool) x l :
  x ∈ filterb f l <-> f x = true /\ x ∈ l.
Proof. unfold filterb. by rewrite list_elem_of_filter. Qed.

Lemma filterb_ext {A} (f g : A -> bool) l :
  (forall x, x ∈ l -> f x = g x) -> filterb f l = filterb g l.
Proof.
  induction l as [|x l IH]; intros H; [done|]. rewrite !filterb_cons, (H x) by set_solver.
  rewrite IH by set_solver. done.
Qed.
