(* ===== verification/Qlist.v ===== *)
(** * Quick list: the circular doubly linked list of complib

    Models [cl_qlist.h] and the quick-list part of [cl_list.c]: the list items
    are caller storage linked in place through [p_next]/[p_prev], with the
    [end] item of the list structure closing the ring.  The operations are
    written as field updates on the shared memory of links; [qlist_at] says
    which sequence of items a ring holds, and every operation is proved to
    refine the corresponding operation on sequences. *)

From S2P Require Import Prelude.

(** ** Data *)

(** [cl_list_item_t]: the two link fields, as functions of the item address. *)
Record links := Links { p_next : ptr -> ptr; p_prev : ptr -> ptr }.

Definition set_next (lk : links) (p v : ptr) : links :=
  Links ((p_next lk)⟦p <~ v⟧) (p_prev lk).
Definition set_prev (lk : links) (p v : ptr) : links :=
  Links (p_next lk) ((p_prev lk)⟦p <~ v⟧).

(** [cl_qlist_t]: the address of the [end] item, the count and the state. *)
Record cl_qlist_t := QList {
  ql_end : ptr;
  ql_count : Z;
  ql_state : cl_state_t }.

Definition ql_set_count (q : cl_qlist_t) (c : Z) : cl_qlist_t :=
  QList (ql_end q) (u64 c) (ql_state q).

(** ** Operations *)

Definition __cl_primitive_insert (lk : links) (p_list_item p_new_item : ptr) : links :=
  let lk := set_next lk p_new_item p_list_item in
  let lk := set_prev lk p_new_item (p_prev lk p_list_item) in
  let lk := set_prev lk p_list_item p_new_item in
  set_next lk (p_prev lk p_new_item) p_new_item.

Definition __cl_primitive_remove (lk : links) (p_list_item : ptr) : links :=
  let lk := set_prev lk (p_next lk p_list_item) (p_prev lk p_list_item) in
  set_next lk (p_prev lk p_list_item) (p_next lk p_list_item).

Definition __cl_qlist_reset (lk : links) (q : cl_qlist_t) : links * cl_qlist_t :=
  let lk := set_next lk (ql_end q) (ql_end q) in
  let lk := set_prev lk (ql_end q) (ql_end q) in
  (lk, QList (ql_end q) 0 (ql_state q)).

Definition cl_qlist_init (lk : links) (q : cl_qlist_t) : links * cl_qlist_t :=
  __cl_qlist_reset lk (QList (ql_end q) (ql_count q) CL_INITIALIZED).

Definition cl_qlist_count (q : cl_qlist_t) : Z := u32 (ql_count q).
Definition cl_is_qlist_empty (q : cl_qlist_t) : bool := bool_decide (cl_qlist_count q = 0%Z).
Definition cl_qlist_next (lk : links) (p : ptr) : ptr := p_next lk p.
Definition cl_qlist_prev (lk : links) (p : ptr) : ptr := p_prev lk p.
Definition cl_qlist_head (lk : links) (q : cl_qlist_t) : ptr := cl_qlist_next lk (ql_end q).
Definition cl_qlist_tail (lk : links) (q : cl_qlist_t) : ptr := cl_qlist_prev lk (ql_end q).
Definition cl_qlist_end (q : cl_qlist_t) : ptr := ql_end q.

Definition cl_qlist_insert_head (lk : links) (q : cl_qlist_t) (p : ptr) : links * cl_qlist_t :=
  (__cl_primitive_insert lk (cl_qlist_head lk q) p, ql_set_count q (ql_count q + 1)).

Definition cl_qlist_insert_tail (lk : links) (q : cl_qlist_t) (p : ptr) : links * cl_qlist_t :=
  (__cl_primitive_insert lk (cl_qlist_end q) p, ql_set_count q (ql_count q + 1)).

Definition cl_qlist_insert_prev (lk : links) (q : cl_qlist_t) (p_list_item p_new_item : ptr)
    : links * cl_qlist_t :=
  (__cl_primitive_insert lk p_list_item p_new_item, ql_set_count q (ql_count q + 1)).

Definition cl_qlist_insert_next (lk : links) (q : cl_qlist_t) (p_list_item p_new_item : ptr)
    : links * cl_qlist_t :=
  (__cl_primitive_insert lk (cl_qlist_next lk p_list_item) p_new_item,
   ql_set_count q (ql_count q + 1)).

(** The item removed, or the end of the list when it was empty. *)
Definition cl_qlist_remove_head (lk : links) (q : cl_qlist_t) : ptr * links * cl_qlist_t :=
  let p_item := cl_qlist_head lk q in
  if decide (p_item = cl_qlist_end q) then (p_item, lk, q)
  else (p_item, __cl_primitive_remove lk p_item, ql_set_count q (ql_count q - 1)).

Definition cl_qlist_remove_tail (lk : links) (q : cl_qlist_t) : ptr * links * cl_qlist_t :=
  let p_item := cl_qlist_tail lk q in
  if decide (p_item = cl_qlist_end q) then (p_item, lk, q)
  else (p_item, __cl_primitive_remove lk p_item, ql_set_count q (ql_count q - 1)).

Definition cl_qlist_remove_item (lk : links) (q : cl_qlist_t) (p : ptr) : links * cl_qlist_t :=
  if decide (p = cl_qlist_end q) then (lk, q)
  else (__cl_primitive_remove lk p, ql_set_count q (ql_count q - 1)).

Definition cl_qlist_remove_all (lk : links) (q : cl_qlist_t) : links * cl_qlist_t :=
  __cl_qlist_reset lk q.

(** [while (item_count--)] inserting at the head, the array walked backwards. *)
Fixpoint insert_array_head_loop (lk : links) (q : cl_qlist_t) (p_item item_size : Z)
    (item_count : nat) : links * cl_qlist_t :=
  match item_count with
  | O => (lk, q)
  | S n =>
      let '(lk, q) := cl_qlist_insert_head lk q p_item in
      insert_array_head_loop lk q (p_item - item_size)%Z item_size n
  end.

(** [item_size * (item_count - 1)] is computed on [uint32_t]. *)
Definition cl_qlist_insert_array_head (lk : links) (q : cl_qlist_t) (p_array : ptr)
    (item_count item_size : Z) : links * cl_qlist_t :=
  insert_array_head_loop lk q (p_array + u32 (item_size * u32 (item_count - 1)))%Z item_size
    (Z.to_nat item_count).

Fixpoint insert_array_tail_loop (lk : links) (q : cl_qlist_t) (p_item item_size : Z)
    (item_count : nat) : links * cl_qlist_t :=
  match item_count with
  | O => (lk, q)
  | S n =>
      let '(lk, q) := cl_qlist_insert_tail lk q p_item in
      insert_array_tail_loop lk q (p_item + item_size)%Z item_size n
  end.

Definition cl_qlist_insert_array_tail (lk : links) (q : cl_qlist_t) (p_array : ptr)
    (item_count item_size : Z) : links * cl_qlist_t :=
  insert_array_tail_loop lk q p_array item_size (Z.to_nat item_count).

Definition cl_qlist_insert_list_head (lk : links) (dest src : cl_qlist_t)
    : links * cl_qlist_t * cl_qlist_t :=
  if cl_is_qlist_empty src then (lk, dest, src) else
  let lk := set_next lk (cl_qlist_tail lk src) (cl_qlist_head lk dest) in
  let lk := set_prev lk (cl_qlist_head lk dest) (cl_qlist_tail lk src) in
  let lk := set_next lk (ql_end dest) (cl_qlist_head lk src) in
  let lk := set_prev lk (cl_qlist_head lk src) (ql_end dest) in
  let dest := ql_set_count dest (ql_count dest + ql_count src) in
  let '(lk, src) := __cl_qlist_reset lk src in
  (lk, dest, src).

Definition cl_qlist_insert_list_tail (lk : links) (dest src : cl_qlist_t)
    : links * cl_qlist_t * cl_qlist_t :=
  if cl_is_qlist_empty src then (lk, dest, src) else
  let lk := set_next lk (cl_qlist_tail lk dest) (cl_qlist_head lk src) in
  let lk := set_prev lk (cl_qlist_head lk src) (cl_qlist_tail lk dest) in
  let lk := set_prev lk (ql_end dest) (cl_qlist_tail lk src) in
  let lk := set_next lk (cl_qlist_tail lk src) (ql_end dest) in
  let dest := ql_set_count dest (ql_count dest + ql_count src) in
  let '(lk, src) := __cl_qlist_reset lk src in
  (lk, dest, src).

(** The traversal loops.  Each iteration moves one link along the ring, so
    [S count] iterations reach the end; the fuel is that number, and [None]
    (the loop has not ended) is proved not to occur on a well-formed list. *)
Definition ring_fuel (q : cl_qlist_t) : nat := S (Z.to_nat (ql_count q)).

Fixpoint in_qlist_loop (fuel : nat) (lk : links) (q : cl_qlist_t) (p_temp p_list_item : ptr)
    : option bool :=
  match fuel with
  | O => None
  | S n =>
      if decide (p_temp = cl_qlist_end q) then Some false
      else if decide (p_temp = p_list_item) then Some true
      else in_qlist_loop n lk q (cl_qlist_next lk p_temp) p_list_item
  end.

Definition cl_is_item_in_qlist (lk : links) (q : cl_qlist_t) (p_list_item : ptr) : option bool :=
  in_qlist_loop (ring_fuel q) lk q (cl_qlist_head lk q) p_list_item.

(** [step] is [cl_qlist_next] or [cl_qlist_prev]; [pfn_func] returns the status
    of the user's match function on an item. *)
Fixpoint find_loop (fuel : nat) (step : ptr -> ptr) (q : cl_qlist_t)
    (pfn_func : ptr -> cl_status_t) (p_found_item : ptr) : option ptr :=
  match fuel with
  | O => None
  | S n =>
      if decide (p_found_item = cl_qlist_end q) then Some p_found_item
      else if decide (pfn_func p_found_item = CL_SUCCESS) then Some p_found_item
      else find_loop n step q pfn_func (step p_found_item)
  end.

Definition cl_qlist_find_next (lk : links) (q : cl_qlist_t) (p_list_item : ptr)
    (pfn_func : ptr -> cl_status_t) : option ptr :=
  find_loop (ring_fuel q) (cl_qlist_next lk) q pfn_func (cl_qlist_next lk p_list_item).

Definition cl_qlist_find_prev (lk : links) (q : cl_qlist_t) (p_list_item : ptr)
    (pfn_func : ptr -> cl_status_t) : option ptr :=
  find_loop (ring_fuel q) (cl_qlist_prev lk) q pfn_func (cl_qlist_prev lk p_list_item).

Definition cl_qlist_find_from_head (lk : links) (q : cl_qlist_t)
    (pfn_func : ptr -> cl_status_t) : option ptr :=
  cl_qlist_find_next lk q (cl_qlist_end q) pfn_func.

Definition cl_qlist_find_from_tail (lk : links) (q : cl_qlist_t)
    (pfn_func : ptr -> cl_status_t) : option ptr :=
  cl_qlist_find_prev lk q (cl_qlist_end q) pfn_func.

(** [pfn_func] is the user's function: it works on the user's own state [A] and,
    by its contract, performs no list operation. *)
Fixpoint apply_loop {A} (fuel : nat) (lk : links) (q : cl_qlist_t)
    (pfn_func : ptr -> A -> A) (p : ptr) (ctx : A) : option A :=
  match fuel with
  | O => None
  | S n =>
      if decide (p = cl_qlist_end q) then Some ctx
      else apply_loop n lk q pfn_func (cl_qlist_next lk p) (pfn_func p ctx)
  end.

Definition cl_qlist_apply_func {A} (lk : links) (q : cl_qlist_t)
    (pfn_func : ptr -> A -> A) (ctx : A) : option A :=
  apply_loop (ring_fuel q) lk q pfn_func (cl_qlist_head lk q) ctx.

Fixpoint move_loop (fuel : nat) (lk : links) (src dest : cl_qlist_t)
    (pfn_func : ptr -> cl_status_t) (p : ptr) : option (links * cl_qlist_t * cl_qlist_t) :=
  match fuel with
  | O => None
  | S n =>
      if decide (p = cl_qlist_end src) then Some (lk, src, dest)
      else
        let nxt := cl_qlist_next lk p in
        if decide (pfn_func p = CL_SUCCESS) then
          let '(lk, src) := cl_qlist_remove_item lk src p in
          let '(lk, dest) := cl_qlist_insert_tail lk dest p in
          move_loop n lk src dest pfn_func nxt
        else move_loop n lk src dest pfn_func nxt
  end.

Definition cl_qlist_move_items (lk : links) (src dest : cl_qlist_t)
    (pfn_func : ptr -> cl_status_t) : option (links * cl_qlist_t * cl_qlist_t) :=
  move_loop (ring_fuel src) lk src dest pfn_func (cl_qlist_head lk src).

(** ** The sequence a ring holds *)

(** [seg lk x l y]: starting at [x], following [p_next] visits exactly [l] and
    then [y], and [p_prev] leads back. *)
Fixpoint seg (lk : links) (x : ptr) (l : list ptr) (y : ptr) : Prop :=
  match l with
  | [] => p_next lk x = y /\ p_prev lk y = x
  | a :: l => p_next lk x = a /\ p_prev lk a = x /\ seg lk a l y
  end.

(** The ring closed by the item [e] holds the items [l]. *)
Definition ring (lk : links) (e : ptr) (l : list ptr) : Prop :=
  seg lk e l e /\ NoDup (e :: l).

Definition qlist_at (lk : links) (q : cl_qlist_t) (l : list ptr) : Prop :=
  ring lk (ql_end q) l /\ ql_count q = u64 (Z.of_nat (length l)).

(** [lk'] differs from [lk] only on the links of the items in [S]. *)
Definition same_off (S : list ptr) (lk lk' : links) : Prop :=
  forall x, x ∉ S -> p_next lk' x = p_next lk x /\ p_prev lk' x = p_prev lk x.

Section Segments.
Implicit Types (lk : links) (l : list ptr).

Lemma seg_app lk x l1 a l2 y :
  seg lk x (l1 ++ a :: l2) y <-> seg lk x l1 a /\ seg lk a l2 y.
Proof. revert x. induction l1 as [|b l1 IH]; intros x; simpl; [tauto|]. rewrite IH. tauto. Qed.

Lemma seg_frame lk lk' x l y :
  (forall z, z ∈ x :: l -> p_next lk' z = p_next lk z) ->
  (forall z, z ∈ y :: l -> p_prev lk' z = p_prev lk z) ->
  seg lk x l y -> seg lk' x l y.
Proof.
  revert x. induction l as [|a l IH]; intros x Hn Hp; simpl.
  - rewrite Hn, Hp by constructor. done.
  - rewrite Hn, Hp by set_solver. intros (-> & -> & H). split_and!; [done..|].
    apply IH; [set_solver..|done].
Qed.

Lemma ring_frame S lk lk' e l :
  same_off S lk lk' -> (forall z, z ∈ e :: l -> z ∉ S) -> ring lk e l -> ring lk' e l.
Proof.
  intros Hs Hd [H ?]. split; [|done].
  eapply seg_frame; [..|exact H]; intros z Hz; by apply Hs, Hd.
Qed.

Lemma seg_next lk x l y : seg lk x l y -> p_next lk x = default y (head l).
Proof. destruct l; simpl; tauto. Qed.

Lemma seg_prev lk x l y : seg lk x l y -> p_prev lk y = default x (last l).
Proof.
  intros H. destruct (list_snoc_case l) as [->|(l' & a & ->)]; [apply H|].
  apply seg_app in H as [_ [_ H]]. by rewrite last_snoc.
Qed.

Lemma primitive_insert_next lk y n z :
  n <> y ->
  p_next (__cl_primitive_insert lk y n) z =
  if decide (z = p_prev lk y) then n else if decide (z = n) then y else p_next lk z.
Proof.
  intros. cbn. rewrite (upd_ne _ y n) by done. rewrite (upd_eq _ n). done.
Qed.

Lemma primitive_insert_prev lk y n z :
  p_prev (__cl_primitive_insert lk y n) z =
  if decide (z = y) then n else if decide (z = n) then p_prev lk y else p_prev lk z.
Proof. done. Qed.

Lemma primitive_insert_frame lk y n :
  n <> y -> same_off [n; y; p_prev lk y] lk (__cl_primitive_insert lk y n).
Proof.
  intros ? x Hx. rewrite primitive_insert_next, primitive_insert_prev by done.
  elem_simpl. by rewrite !decide_False.
Qed.

(** Linking a new item in front of [y], the item that follows [x], [l]. *)
Lemma seg_insert lk x l y n :
  seg lk x l y -> NoDup (x :: l) -> y ∉ l -> n ∉ x :: y :: l ->
  seg (__cl_primitive_insert lk y n) x (l ++ [n]) y.
Proof.
  intros Hseg Hnd Hy Hn. apply seg_app. pose proof (seg_prev _ _ _ _ Hseg) as Hlast.
  assert (n <> y) as Hny by ne_solve.
  destruct (list_snoc_case l) as [->|(l' & a & ->)]; cbn in Hlast.
  - cbn [seg]. rewrite !primitive_insert_next, !primitive_insert_prev, Hlast by done.
    elem_simpl. by repeat (case_decide; try congruence).
  - rewrite last_snoc in Hlast. cbn in Hlast. nodup_simpl.
    apply seg_app in Hseg as [Hs1 Hs2]. rewrite seg_app. cbn [seg] in *. elem_simpl.
    rewrite !primitive_insert_next, !primitive_insert_prev, Hlast by done.
    split_and!; try by repeat (case_decide; try congruence).
    eapply seg_frame; [..|exact Hs1]; intros z Hz;
      rewrite ?primitive_insert_next, ?primitive_insert_prev, ?Hlast by done;
      rewrite !decide_False; try done; ne_solve.
Qed.

Lemma primitive_remove_next lk p z :
  p_next (__cl_primitive_remove lk p) z =
  if decide (z = p_prev lk p) then p_next lk p else p_next lk z.
Proof. cbn. unfold upd at 2. by destruct (decide (p = p_next lk p)). Qed.

Lemma primitive_remove_prev lk p z :
  p_prev (__cl_primitive_remove lk p) z =
  if decide (z = p_next lk p) then p_prev lk p else p_prev lk z.
Proof. done. Qed.

Lemma primitive_remove_frame lk p :
  same_off [p_prev lk p; p_next lk p] lk (__cl_primitive_remove lk p).
Proof.
  intros x Hx. rewrite primitive_remove_next, primitive_remove_prev.
  elem_simpl. by rewrite !decide_False.
Qed.

(** Unlinking an item joins the segments on its two sides. *)
Lemma seg_remove lk x l1 p l2 y :
  seg lk x l1 p -> seg lk p l2 y -> NoDup (x :: l1 ++ p :: l2) -> y ∉ l1 ++ p :: l2 ->
  seg (__cl_primitive_remove lk p) x (l1 ++ l2) y.
Proof.
  intros H1 H2 Hnd Hy.
  pose proof (seg_prev _ _ _ _ H1) as Hp. pose proof (seg_next _ _ _ _ H2) as Hn.
  assert (forall a l b, seg lk a l b ->
    (forall z, z ∈ a :: l -> z <> default x (last l1)) ->
    (forall z, z ∈ b :: l -> z <> default y (head l2)) ->
    seg (__cl_primitive_remove lk p) a l b) as Hfr.
  { intros a l b Hs Ha Hb. eapply seg_frame; [..|exact Hs]; intros z' Hz';
      rewrite ?primitive_remove_next, ?primitive_remove_prev, ?Hp, ?Hn;
      rewrite decide_False; auto. }
  destruct (list_snoc_case l1) as [->|(l1' & q & ->)], l2 as [|r l2]; cbn [app] in *;
    rewrite ?last_snoc in *; cbn [default last head] in *; nodup_simpl.
  - cbn [seg]. rewrite primitive_remove_next, primitive_remove_prev, Hp, Hn.
    by rewrite !decide_True.
  - cbn [seg] in *. rewrite primitive_remove_next, primitive_remove_prev, Hp, Hn.
    rewrite !decide_True by done. split_and!; [done..|].
    apply Hfr; [tauto|ne_solve..].
  - rewrite app_nil_r. apply seg_app in H1 as [H1 [? ?]]. apply seg_app. cbn [seg].
    rewrite primitive_remove_next, primitive_remove_prev, Hp, Hn, !decide_True by done.
    split_and!; [|done..]. apply Hfr; [done|ne_solve..].
  - apply seg_app in H1 as [H1 [? ?]]. rewrite <- app_assoc. apply seg_app. cbn [app seg] in *.
    rewrite primitive_remove_next, primitive_remove_prev, Hp, Hn, !decide_True by done.
    split_and!; [|done..|]; apply Hfr; try tauto; ne_solve.
Qed.
End Segments.

(** ** Rings *)

Section Rings.
Implicit Types (lk : links) (l : list ptr).

(** Inserting in front of the item that follows [l1]. *)
Lemma ring_insert lk e l1 l2 n :
  ring lk e (l1 ++ l2) -> n ∉ e :: l1 ++ l2 ->
  ring (__cl_primitive_insert lk (default e (head l2)) n) e (l1 ++ n :: l2).
Proof.
  intros [Hseg Hnd] Hn. split.
  2: { rewrite <- (Permutation_middle l1 l2 n). rewrite Permutation_swap.
       apply NoDup_cons. split; done. }
  destruct l2 as [|a l2]; cbn [default head].
  - rewrite app_nil_r in *. apply seg_insert; [done..|nodup_simpl; done|set_solver].
  - apply seg_app in Hseg as [H1 H2]. pose proof (seg_prev _ _ _ _ H1) as Hp.
    assert (seg (__cl_primitive_insert lk a n) e (l1 ++ [n]) a) as H3.
    { apply seg_insert; nodup_simpl; [done|apply NoDup_cons; split; ne_solve || done|set_solver..]. }
    apply seg_app in H3 as [H3 H4]. apply seg_app. split; [done|].
    cbn [seg] in *. destruct H4. split_and!; [done..|].
    assert (default e (last l1) ∈ e :: l1) as Hin.
    { destruct (list_snoc_case l1) as [->|(?&?&->)]; rewrite ?last_snoc; set_solver. }
    revert Hp Hin. generalize (default e (last l1)) as w. intros w Hp Hin.
    nodup_simpl. eapply seg_frame; [..|exact H2]; intros z Hz;
      rewrite ?primitive_insert_next, ?primitive_insert_prev, ?Hp by ne_solve;
      rewrite !decide_False; try done; ne_solve.
Qed.

Lemma ring_remove lk e l1 p l2 :
  ring lk e (l1 ++ p :: l2) -> ring (__cl_primitive_remove lk p) e (l1 ++ l2).
Proof.
  intros [Hseg Hnd]. apply seg_app in Hseg as [H1 H2]. split.
  - apply seg_remove; try done. by apply NoDup_cons in Hnd as [? _].
  - rewrite <- Permutation_middle, Permutation_swap in Hnd. by apply NoDup_cons in Hnd as [_ ?].
Qed.

(** The neighbours of an item of the ring. *)
Lemma ring_next lk e l1 p l2 : ring lk e (l1 ++ p :: l2) -> p_next lk p = default e (head l2).
Proof. intros [Hseg _]. apply seg_app in Hseg as [_ Hs]. by eapply seg_next. Qed.

Lemma ring_prev lk e l1 p l2 : ring lk e (l1 ++ p :: l2) -> p_prev lk p = default e (last l1).
Proof. intros [Hseg _]. apply seg_app in Hseg as [Hs _]. by eapply seg_prev. Qed.

Lemma ring_head lk e l : ring lk e l -> p_next lk e = default e (head l).
Proof. intros [Hseg _]. by eapply seg_next. Qed.

Lemma ring_tail lk e l : ring lk e l -> p_prev lk e = default e (last l).
Proof. intros [Hseg _]. by eapply seg_prev. Qed.

Lemma ring_insert_frame lk e l1 l2 n :
  ring lk e (l1 ++ l2) -> n ∉ e :: l1 ++ l2 ->
  same_off (n :: e :: l1 ++ l2) lk (__cl_primitive_insert lk (default e (head l2)) n).
Proof.
  intros Hr Hn x Hx. apply primitive_insert_frame; [destruct l2; set_solver|].
  assert (p_prev lk (default e (head l2)) = default e (last l1)) as ->.
  { destruct l2 as [|a l2]; cbn; [|by eapply ring_prev].
    rewrite app_nil_r in Hr. by apply ring_tail. }
  destruct (list_snoc_case l1) as [->|(?&?&->)], l2; rewrite ?last_snoc; cbn in *; set_solver.
Qed.

Lemma ring_remove_frame lk e l1 p l2 :
  ring lk e (l1 ++ p :: l2) -> same_off (e :: l1 ++ l2) lk (__cl_primitive_remove lk p).
Proof.
  intros Hr x Hx. apply primitive_remove_frame.
  rewrite (ring_next _ _ _ _ _ Hr), (ring_prev _ _ _ _ _ Hr).
  destruct (list_snoc_case l1) as [->|(?&?&->)], l2; rewrite ?last_snoc; cbn in *; set_solver.
Qed.

Lemma ring_reset lk e : ring (set_prev (set_next lk e e) e e) e [].
Proof. split; [|apply NoDup_singleton]. cbn. by upd_simpl. Qed.
End Rings.

(** ** Chains: the links inside a sequence of items, without its two ends *)

Fixpoint chain (lk : links) (l : list ptr) : Prop :=
  match l with
  | x :: (y :: _) as t => p_next lk x = y /\ p_prev lk y = x /\ chain lk t
  | _ => True
  end.

Section Chains.
Implicit Types (lk : links) (l : list ptr).

Lemma chain_cons lk x l :
  chain lk (x :: l) <->
  (forall y, head l = Some y -> p_next lk x = y /\ p_prev lk y = x) /\ chain lk l.
Proof. destruct l as [|y l]; simpl; naive_solver. Qed.

Lemma seg_chain lk x l y : seg lk x l y <-> chain lk (x :: l ++ [y]).
Proof.
  revert x. induction l as [|a l IH]; intros x.
  - simpl. tauto.
  - cbn [seg]. rewrite IH, <- app_comm_cons, (chain_cons lk x). cbn [head]. split.
    + intros (? & ? & ?). split; [by intros ? [= <-]|done].
    + intros [H ?]. by destruct (H a eq_refl).
Qed.

Lemma chain_app lk l1 l2 :
  chain lk (l1 ++ l2) <->
  chain lk l1 /\ chain lk l2 /\
  (forall x y, last l1 = Some x -> head l2 = Some y -> p_next lk x = y /\ p_prev lk y = x).
Proof.
  induction l1 as [|a l1 IH]; [simpl; naive_solver|].
  rewrite <- app_comm_cons, !chain_cons, IH, head_app, last_cons.
  destruct l1 as [|b l1]; cbn; [naive_solver|].
  destruct (last (b :: l1)) eqn:E; [naive_solver|]. by apply last_None in E.
Qed.

(** The inner links do not depend on the [p_next] of the last item nor on the
    [p_prev] of the first one. *)
Lemma chain_frame lk lk' l :
  (forall z, z ∈ l -> last l <> Some z -> p_next lk' z = p_next lk z) ->
  (forall z, z ∈ l -> head l <> Some z -> p_prev lk' z = p_prev lk z) ->
  NoDup l -> chain lk l -> chain lk' l.
Proof.
  induction l as [|x l IH]; [done|]. intros Hn Hp Hnd Hc. apply chain_cons in Hc as [H1 H2].
  apply NoDup_cons in Hnd as [Hx Hnd]. apply chain_cons. split.
  - intros y Hy. destruct l as [|? l]; [done|]. simplify_eq/=. destruct (H1 y eq_refl).
    rewrite Hn, Hp; [done|set_solver|cbn; intros [= ->]; set_solver|constructor|].
    intros Hl. by apply last_Some_elem_of in Hl.
  - apply IH; [| |done..]; intros z Hz Hne; [apply Hn|apply Hp]; [set_solver| |set_solver|].
    + destruct l; [set_solver|]. by rewrite last_cons_cons.
    + cbn. intros [= ->]. done.
Qed.

Lemma chain_weak_frame lk lk' l :
  (forall z, z ∈ l -> p_next lk' z = p_next lk z /\ p_prev lk' z = p_prev lk z) ->
  NoDup l -> chain lk l -> chain lk' l.
Proof. intros H. apply chain_frame; intros; by apply H. Qed.
End Chains.

(** ** What each operation does to the sequence *)

Section Operations.
Implicit Types (lk : links) (q : cl_qlist_t) (l : list ptr).

Lemma ql_count_S q l :
  ql_count q = u64 (Z.of_nat (length l)) ->
  u64 (ql_count q + 1) = u64 (Z.of_nat (S (length l))).
Proof. intros ->. autorewrite with wraps. f_equal. lia. Qed.

Lemma ql_count_pred q l :
  ql_count q = u64 (Z.of_nat (S (length l))) ->
  u64 (ql_count q - 1) = u64 (Z.of_nat (length l)).
Proof. intros ->. autorewrite with wraps. f_equal. lia. Qed.

(** All four insertions link the new item between two neighbours. *)
Lemma qlist_insert_at lk q l1 l2 p :
  qlist_at lk q (l1 ++ l2) -> p ∉ ql_end q :: l1 ++ l2 ->
  let lk' := __cl_primitive_insert lk (default (ql_end q) (head l2)) p in
  qlist_at lk' (ql_set_count q (ql_count q + 1)) (l1 ++ p :: l2) /\
  same_off (p :: ql_end q :: l1 ++ l2) lk lk'.
Proof.
  intros [Hr Hc] Hp. split; [|by apply ring_insert_frame]. split; cbn.
  - by apply ring_insert.
  - rewrite (ql_count_S _ _ Hc). do 2 f_equal. rewrite !length_app. cbn. lia.
Qed.

(** All removals unlink one item. *)
Lemma qlist_remove_at lk q l1 p l2 :
  qlist_at lk q (l1 ++ p :: l2) ->
  let lk' := __cl_primitive_remove lk p in
  qlist_at lk' (ql_set_count q (ql_count q - 1)) (l1 ++ l2) /\
  same_off (ql_end q :: l1 ++ l2) lk lk'.
Proof.
  intros [Hr Hc]. split; [|by eapply ring_remove_frame]. split; cbn.
  - by apply ring_remove.
  - apply ql_count_pred. rewrite Hc, !length_app. cbn. do 2 f_equal. lia.
Qed.

Lemma qlist_end_notin lk q l : qlist_at lk q l -> ql_end q ∉ l.
Proof. intros [[_ Hnd] _]. by apply NoDup_cons in Hnd as [? _]. Qed.

Lemma qlist_frame S lk lk' q l :
  same_off S lk lk' -> (forall z, z ∈ ql_end q :: l -> z ∉ S) ->
  qlist_at lk q l -> qlist_at lk' q l.
Proof. intros ?? [? ?]. split; [|done]. by eapply ring_frame. Qed.

Lemma qlist_same lk lk' q l :
  (forall z, z ∈ ql_end q :: l -> p_next lk' z = p_next lk z /\ p_prev lk' z = p_prev lk z) ->
  qlist_at lk q l -> qlist_at lk' q l.
Proof. intros Hs [[H ?] ?]. split; [|done]. split; [|done]. eapply seg_frame; [..|exact H]; intros z Hz; by apply Hs. Qed.

(** Enough fuel for a traversal, for a list whose length fits [size_t]. *)
Definition short (l : list ptr) : Prop := (Z.of_nat (length l) < 2 ^ 64)%Z.

Lemma ring_fuel_enough lk q l : qlist_at lk q l -> short l -> length l < ring_fuel q.
Proof.
  intros [_ Hc] Hs. unfold ring_fuel. rewrite Hc, wrap_small; unfold short in Hs; lia.
Qed.

(** A traversal of the ring is a traversal of the sequence. *)
Lemma find_loop_spec lk (step : ptr -> ptr) q pfn l fuel x :
  length l < fuel -> ql_end q ∉ l ->
  x = default (ql_end q) (head l) ->
  (forall l1 a l2, l = l1 ++ a :: l2 -> step a = default (ql_end q) (head l2)) ->
  find_loop fuel step q pfn x =
  Some (default (ql_end q) (head (filterb (fun p => bool_decide (pfn p = CL_SUCCESS)) l))).
Proof.
  revert fuel x. induction l as [|a l IH]; intros [|fuel] x Hf He -> Hstep; cbn in *; try lia.
  - by rewrite decide_True.
  - rewrite decide_False by set_solver. rewrite filterb_cons.
    destruct (decide (pfn a = CL_SUCCESS)) as [E|E].
    + by rewrite bool_decide_true.
    + rewrite bool_decide_false by done. apply IH; [lia|set_solver| |].
      * by apply (Hstep []).
      * intros l1 b l2 ->. by apply (Hstep (a :: l1)).
Qed.
End Operations.

(** ** Theorems: the ring refines the sequence *)

(** Inserting at the head puts the item first, at the tail last, and neither
    touches the links of any item outside the list. *)
Theorem qlist_insert_head_spec lk q l p :
  qlist_at lk q l -> p ∉ ql_end q :: l ->
  let '(lk', q') := cl_qlist_insert_head lk q p in
  qlist_at lk' q' (p :: l) /\ same_off (p :: ql_end q :: l) lk lk'.
Proof.
  intros Hq Hp. unfold cl_qlist_insert_head, cl_qlist_head, cl_qlist_next.
  rewrite (ring_head _ _ l) by apply Hq. by apply (qlist_insert_at lk q []).
Qed.

Theorem qlist_insert_tail_spec lk q l p :
  qlist_at lk q l -> p ∉ ql_end q :: l ->
  let '(lk', q') := cl_qlist_insert_tail lk q p in
  qlist_at lk' q' (l ++ [p]) /\ same_off (p :: ql_end q :: l) lk lk'.
Proof.
  intros Hq Hp. pose proof (qlist_insert_at lk q l [] p) as H.
  rewrite app_nil_r in H. by apply H.
Qed.

Theorem qlist_insert_prev_spec lk q l1 a l2 p :
  qlist_at lk q (l1 ++ a :: l2) -> p ∉ ql_end q :: l1 ++ a :: l2 ->
  let '(lk', q') := cl_qlist_insert_prev lk q a p in
  qlist_at lk' q' (l1 ++ p :: a :: l2) /\ same_off (p :: ql_end q :: l1 ++ a :: l2) lk lk'.
Proof. apply (qlist_insert_at lk q l1 (a :: l2)). Qed.

Theorem qlist_insert_next_spec lk q l1 a l2 p :
  qlist_at lk q (l1 ++ a :: l2) -> p ∉ ql_end q :: l1 ++ a :: l2 ->
  let '(lk', q') := cl_qlist_insert_next lk q a p in
  qlist_at lk' q' (l1 ++ a :: p :: l2) /\ same_off (p :: ql_end q :: l1 ++ a :: l2) lk lk'.
Proof.
  intros Hq Hp. unfold cl_qlist_insert_next, cl_qlist_next.
  rewrite (ring_next _ _ l1 a l2) by apply Hq.
  pose proof (qlist_insert_at lk q (l1 ++ [a]) l2 p) as H. rewrite <- !app_assoc in H. by apply H.
Qed.

Theorem qlist_remove_head_spec lk q l :
  qlist_at lk q l ->
  let '(p, lk', q') := cl_qlist_remove_head lk q in
  p = default (ql_end q) (head l) /\ qlist_at lk' q' (tail l) /\ same_off (ql_end q :: l) lk lk'.
Proof.
  intros Hq. unfold cl_qlist_remove_head, cl_qlist_head, cl_qlist_next, cl_qlist_end.
  rewrite (ring_head _ _ l) by apply Hq. pose proof (qlist_end_notin _ _ _ Hq).
  destruct l as [|a l]; cbn.
  - by rewrite decide_True.
  - rewrite decide_False by set_solver. pose proof (qlist_remove_at lk q [] a l Hq) as [? Hf].
    split_and!; [done..|]. intros x Hx. apply Hf. set_solver.
Qed.

Theorem qlist_remove_tail_spec lk q l :
  qlist_at lk q l ->
  let '(p, lk', q') := cl_qlist_remove_tail lk q in
  p = default (ql_end q) (last l) /\
  qlist_at lk' q' (take (length l - 1) l) /\ same_off (ql_end q :: l) lk lk'.
Proof.
  intros Hq. unfold cl_qlist_remove_tail, cl_qlist_tail, cl_qlist_prev, cl_qlist_end.
  rewrite (ring_tail _ _ l) by apply Hq. pose proof (qlist_end_notin _ _ _ Hq).
  destruct (list_snoc_case l) as [->|(l' & a & ->)]; cbn.
  - by rewrite decide_True.
  - rewrite last_snoc. cbn. rewrite decide_False by set_solver.
    pose proof (qlist_remove_at lk q l' a [] Hq) as [? Hf].
    replace (take (length (l' ++ [a]) - 1) (l' ++ [a])) with (l' ++ [] : list ptr).
    + split_and!; [done..|]. intros x Hx. apply Hf. set_solver.
    + rewrite app_nil_r, length_app. cbn. rewrite take_app_le by lia.
      rewrite firstn_all2; [done|lia].
Qed.

Theorem qlist_remove_item_spec lk q l1 p l2 :
  qlist_at lk q (l1 ++ p :: l2) ->
  let '(lk', q') := cl_qlist_remove_item lk q p in
  qlist_at lk' q' (l1 ++ l2) /\ same_off (ql_end q :: l1 ++ l2) lk lk'.
Proof.
  intros Hq. unfold cl_qlist_remove_item, cl_qlist_end. pose proof (qlist_end_notin _ _ _ Hq).
  rewrite decide_False by set_solver. by apply qlist_remove_at.
Qed.

Theorem qlist_init_spec lk q :
  let '(lk', q') := cl_qlist_init lk q in
  qlist_at lk' q' [] /\ ql_state q' = CL_INITIALIZED /\ same_off [ql_end q] lk lk'.
Proof.
  cbn. split_and!; [|done|].
  - split; [apply ring_reset|done].
  - intros x Hx. cbn. by rewrite !upd_ne by set_solver.
Qed.

(** An item removed from the head of the list is the item last pushed there:
    insertion and removal at the head are inverse. *)
Theorem qlist_push_pop lk q l p :
  qlist_at lk q l -> p ∉ ql_end q :: l ->
  let '(lk1, q1) := cl_qlist_insert_head lk q p in
  let '(p', lk2, q2) := cl_qlist_remove_head lk1 q1 in
  p' = p /\ qlist_at lk2 q2 l.
Proof.
  intros Hq Hp. pose proof (qlist_insert_head_spec _ _ _ _ Hq Hp) as H1.
  destruct (cl_qlist_insert_head lk q p) as [lk1 q1]. destruct H1 as [H1 _].
  pose proof (qlist_remove_head_spec _ _ _ H1) as H2.
  destruct (cl_qlist_remove_head lk1 q1) as [[p' lk2] q2]. tauto.
Qed.

(** ** Whole-list operations *)

Section WholeList.
Implicit Types (lk : links) (q : cl_qlist_t) (l : list ptr).

(** The emptiness test reads the low 32 bits of the count. *)
Lemma qlist_empty_spec lk q l :
  qlist_at lk q l -> (Z.of_nat (length l) < 2 ^ 32)%Z ->
  cl_is_qlist_empty q = bool_decide (l = []).
Proof.
  intros [_ Hc] Hl. unfold cl_is_qlist_empty, cl_qlist_count.
  rewrite Hc, wrap_wrap_le, wrap_small by lia.
  apply bool_decide_ext. destruct l; cbn; split; intros; (done || lia).
Qed.

(** A non-empty segment: its inner links and the links of its two ends. *)
Lemma seg_nonempty lk x l y a b :
  head l = Some a -> last l = Some b ->
  seg lk x l y <->
  p_next lk x = a /\ p_prev lk a = x /\ chain lk l /\ p_next lk b = y /\ p_prev lk y = b.
Proof.
  intros Ha Hb. rewrite seg_chain, chain_cons, chain_app, head_app, Ha, Hb. cbn. naive_solver.
Qed.

Lemma same_reset lk e : same_off [e] lk (set_prev (set_next lk e e) e e).
Proof. intros x Hx. cbn. by rewrite !upd_ne by set_solver. Qed.

(** The four link writes of [cl_qlist_insert_list_head] and of
    [cl_qlist_insert_list_tail] place the items from [a] to [b] of one ring
    between the neighbours [x] and [y] of the other. *)
Definition splice lk (x y a b : ptr) : links :=
  set_prev (set_next (set_prev (set_next lk b y) y b) x a) a x.

Lemma splice_seg lk x y e2 l a b :
  seg lk e2 l e2 -> head l = Some a -> last l = Some b -> NoDup l -> x ∉ l -> y ∉ l ->
  seg (splice lk x y a b) x l y.
Proof.
  intros Hs Ha Hb Hnd Hx Hy. rewrite seg_nonempty in Hs |- * by done.
  assert (a ∈ l) by (destruct l; simplify_eq/=; set_solver).
  assert (b ∈ l) by by apply last_Some_elem_of.
  cbn. unfold upd. split_and!; try (repeat case_decide; (done || congruence)).
  destruct Hs as (_ & _ & Hc & _). eapply chain_frame; [..|exact Hc]; [| |done]; intros z ? ?;
    cbn; unfold upd; repeat case_decide; congruence.
Qed.

Lemma splice_frame lk x y a b : same_off [x; y; a; b] lk (splice lk x y a b).
Proof. intros z Hz. elem_simpl. cbn. by rewrite !upd_ne by done. Qed.

Lemma splice_ring_head lk e l1 e2 l a b :
  ring lk e l1 -> ring lk e2 l -> NoDup (e :: l ++ l1) -> head l = Some a -> last l = Some b ->
  ring (splice lk e (default e (head l1)) a b) e (l ++ l1).
Proof.
  intros [H1 ?] [H2 ?] Hnd Ha Hb. split; [|done].
  assert (a ∈ l) by (destruct l; simplify_eq/=; set_solver).
  assert (b ∈ l) by by apply last_Some_elem_of.
  destruct l1 as [|c l1]; cbn [default head] in *.
  - rewrite app_nil_r in *. nodup_simpl. by eapply splice_seg.
  - apply seg_app. nodup_simpl. split; [eapply splice_seg; try done; ne_solve|].
    destruct H1 as (_ & _ & H1). eapply seg_frame; [..|exact H1]; intros z Hz; cbn;
      rewrite !upd_ne; try done; ne_solve.
Qed.

Lemma splice_ring_tail lk e l1 e2 l a b :
  ring lk e l1 -> ring lk e2 l -> NoDup (e :: l1 ++ l) -> head l = Some a -> last l = Some b ->
  ring (splice lk (default e (last l1)) e a b) e (l1 ++ l).
Proof.
  intros [H1 ?] [H2 ?] Hnd Ha Hb. split; [|done].
  assert (a ∈ l) by (destruct l; simplify_eq/=; set_solver).
  assert (b ∈ l) by by apply last_Some_elem_of.
  destruct (list_snoc_case l1) as [->|(l1' & c & ->)]; rewrite ?last_snoc; cbn [default last] in *.
  - cbn in *. nodup_simpl. by eapply splice_seg.
  - rewrite <- app_assoc. cbn. apply seg_app in H1 as [H1 _]. apply seg_app. nodup_simpl. split.
    + eapply seg_frame; [..|exact H1]; intros z Hz; cbn; rewrite !upd_ne; try done; ne_solve.
    + eapply splice_seg; try done; ne_solve.
Qed.
End WholeList.

Section Splices.
Implicit Types (lk : links) (dest src : cl_qlist_t) (l : list ptr).

(** Two lists side by side in memory. *)
Definition two_lists lk dest l1 src l2 : Prop :=
  qlist_at lk dest l1 /\ qlist_at lk src l2 /\
  NoDup (ql_end dest :: l1 ++ ql_end src :: l2).

Lemma two_lists_ends lk dest l1 src l2 a b :
  two_lists lk dest l1 src l2 -> head l2 = Some a -> last l2 = Some b ->
  a ∈ l2 /\ b ∈ l2 /\ p_next lk (ql_end src) = a /\ p_prev lk (ql_end src) = b.
Proof.
  intros (_ & [H2 _] & _) Ha Hb. rewrite (ring_head _ _ _ H2), (ring_tail _ _ _ H2), Ha, Hb.
  split_and!; [|by apply last_Some_elem_of|done..]. destruct l2; simplify_eq/=; set_solver.
Qed.

Lemma two_lists_count lk dest l1 src l2 :
  two_lists lk dest l1 src l2 ->
  u64 (ql_count dest + ql_count src) = u64 (Z.of_nat (length l1 + length l2)).
Proof.
  intros ([_ ->] & [_ ->] & _). autorewrite with wraps. f_equal. lia.
Qed.

(** Both list insertions, on a source list whose length fits the 32-bit
    emptiness test. *)
Lemma qlist_insert_list_head_spec lk dest l1 src l2 :
  two_lists lk dest l1 src l2 -> (Z.of_nat (length l2) < 2 ^ 32)%Z ->
  let '(lk', dest', src') := cl_qlist_insert_list_head lk dest src in
  two_lists lk' dest' (l2 ++ l1) src' [].
Proof.
  intros H2 Hlen. pose proof H2 as (Hd & Hs & Hnd). unfold cl_qlist_insert_list_head.
  rewrite (qlist_empty_spec lk src l2) by done. case_bool_decide as He; [subst; cbn; done|].
  destruct (head l2) as [a|] eqn:Ha; [|by destruct l2].
  destruct (last l2) as [b|] eqn:Hb; [|by apply last_None in Hb].
  destruct (two_lists_ends _ _ _ _ _ _ _ H2 Ha Hb) as (Ia & Ib & Na & Pb).
  pose proof (ring_head _ _ _ (proj1 Hd)) as Nd.
  assert (NoDup (ql_end dest :: l2 ++ l1)) as Hnd'.
  { rewrite (Permutation_app_comm l2). nodup_simpl. apply NoDup_cons. split; [ne_solve|].
    apply NoDup_app. split_and!; [done|ne_solve|done]. }
  pose proof (splice_ring_head _ _ _ _ _ _ _ (proj1 Hd) (proj1 Hs) Hnd' Ha Hb) as HR.
  set (y := default (ql_end dest) (head l1)) in *.
  assert (y ∈ ql_end dest :: l1) as Iy by (destruct l1; cbn; set_solver).
  unfold cl_qlist_tail, cl_qlist_head, cl_qlist_next, cl_qlist_prev. cbn -[upd].
  rewrite Nd, Pb. fold y. rewrite (upd_ne _ b (ql_end dest)), Nd by (nodup_simpl; ne_solve).
  fold y. rewrite (upd_ne _ b (ql_end src)), Na by (nodup_simpl; ne_solve).
  rewrite (upd_ne _ (ql_end dest) (ql_end src)), (upd_ne _ b (ql_end src)), Na
    by (nodup_simpl; ne_solve).
  change (Links _ _) with
    (set_prev (set_next (splice lk (ql_end dest) y a b) (ql_end src) (ql_end src))
       (ql_end src) (ql_end src)).
  split_and!; [split| |].
  - cbn. eapply ring_frame; [apply same_reset| |exact HR]. nodup_simpl. ne_solve.
  - cbn. rewrite (two_lists_count _ _ _ _ _ H2), length_app. do 2 f_equal. lia.
  - split; [apply ring_reset|done].
  - cbn. rewrite app_comm_cons. apply NoDup_app. split_and!; [done| |apply NoDup_singleton].
    nodup_simpl. ne_solve.
Qed.

Lemma qlist_insert_list_tail_spec lk dest l1 src l2 :
  two_lists lk dest l1 src l2 -> (Z.of_nat (length l2) < 2 ^ 32)%Z ->
  let '(lk', dest', src') := cl_qlist_insert_list_tail lk dest src in
  two_lists lk' dest' (l1 ++ l2) src' [].
Proof.
  intros H2 Hlen. pose proof H2 as (Hd & Hs & Hnd). unfold cl_qlist_insert_list_tail.
  rewrite (qlist_empty_spec lk src l2) by done. case_bool_decide as He.
  { subst. cbn. by rewrite app_nil_r. }
  destruct (head l2) as [a|] eqn:Ha; [|by destruct l2].
  destruct (last l2) as [b|] eqn:Hb; [|by apply last_None in Hb].
  destruct (two_lists_ends _ _ _ _ _ _ _ H2 Ha Hb) as (Ia & Ib & Na & Pb).
  pose proof (ring_tail _ _ _ (proj1 Hd)) as Pd.
  assert (NoDup (ql_end dest :: l1 ++ l2)) as Hnd'.
  { nodup_simpl. apply NoDup_cons. split; [ne_solve|].
    apply NoDup_app. split_and!; [done|ne_solve|done]. }
  pose proof (splice_ring_tail _ _ _ _ _ _ _ (proj1 Hd) (proj1 Hs) Hnd' Ha Hb) as HR.
  set (x := default (ql_end dest) (last l1)) in *.
  assert (x ∈ ql_end dest :: l1) as Ix.
  { unfold x. destruct (last l1) eqn:E; cbn; [right; by apply last_Some_elem_of|left]. }
  unfold cl_qlist_tail, cl_qlist_head, cl_qlist_next, cl_qlist_prev. cbn -[upd].
  rewrite Pd, Na. rewrite (upd_ne _ x (ql_end src)), Na by (nodup_simpl; ne_solve).
  rewrite (upd_ne _ a (ql_end src)), Pb by (nodup_simpl; ne_solve).
  rewrite (upd_ne _ (ql_end dest) (ql_end src)), (upd_ne _ a (ql_end src)), Pb
    by (nodup_simpl; ne_solve).
  set (lk1 := set_next _ b (ql_end dest)).
  assert (same_off [] (splice lk x (ql_end dest) a b) lk1) as Hs1.
  { intros z _. cbn. unfold upd. nodup_simpl.
    split; repeat case_decide; subst; (done || exfalso; ne_close). }
  split_and!; [split| |].
  - cbn. eapply ring_frame; [apply same_reset| |].
    2: eapply ring_frame; [exact Hs1| |exact HR].
    + nodup_simpl. ne_solve.
    + intros. apply not_elem_of_nil.
  - cbn. by rewrite (two_lists_count _ _ _ _ _ H2), length_app.
  - split; [apply ring_reset|done].
  - cbn. rewrite app_comm_cons. apply NoDup_app. split_and!; [done| |apply NoDup_singleton].
    nodup_simpl. ne_solve.
Qed.
End Splices.

(** ** Traversals *)

Section Traversals.
Implicit Types (lk : links) (q src dest : cl_qlist_t) (l : list ptr).

Lemma in_qlist_loop_spec lk q p l fuel x :
  length l < fuel -> ql_end q ∉ l -> x = default (ql_end q) (head l) ->
  (forall l1 a l2, l = l1 ++ a :: l2 -> p_next lk a = default (ql_end q) (head l2)) ->
  in_qlist_loop fuel lk q x p = Some (bool_decide (p ∈ l)).
Proof.
  revert fuel x. induction l as [|a l IH]; intros [|fuel] x Hf He -> Hn; cbn in *; try lia.
  - rewrite decide_True by done. by rewrite bool_decide_false by set_solver.
  - rewrite decide_False by set_solver. destruct (decide (a = p)) as [->|Ha].
    + by rewrite bool_decide_true by set_solver.
    + rewrite (IH fuel); [|lia|set_solver|by apply (Hn [])|].
      * f_equal. apply bool_decide_ext. set_solver.
      * intros l1 b l2 ->. by apply (Hn (a :: l1)).
Qed.

Lemma apply_loop_spec {A} lk q (f : ptr -> A -> A) l fuel x c :
  length l < fuel -> ql_end q ∉ l -> x = default (ql_end q) (head l) ->
  (forall l1 a l2, l = l1 ++ a :: l2 -> p_next lk a = default (ql_end q) (head l2)) ->
  apply_loop fuel lk q f x c = Some (foldl (fun c p => f p c) c l).
Proof.
  revert fuel x c. induction l as [|a l IH]; intros [|fuel] x c Hf He -> Hn; cbn in *; try lia.
  - by rewrite decide_True.
  - rewrite decide_False by set_solver.
    apply IH; [lia|set_solver|by apply (Hn [])|intros l1 b l2 ->; by apply (Hn (a :: l1))].
Qed.

(** The loop of [cl_qlist_move_items]: [done] has been kept, [l] is left. *)
Lemma move_loop_spec pfn l : forall lk src dest kept ld fuel x,
  length l < fuel -> x = default (ql_end src) (head l) ->
  two_lists lk dest ld src (kept ++ l) ->
  let f p := bool_decide (pfn p = CL_SUCCESS) in
  exists lk' src' dest',
    move_loop fuel lk src dest pfn x = Some (lk', src', dest') /\
    two_lists lk' dest' (ld ++ filterb f l) src' (kept ++ filterb (fun p => negb (f p)) l).
Proof.
  induction l as [|a l IH]; intros lk src dest kept ld [|fuel] x Hf -> H2 f; cbn in Hf; try lia.
  - cbn. rewrite decide_True by done. rewrite !app_nil_r in *. eauto 10.
  - pose proof H2 as (Hd & Hs & Hnd). cbn [move_loop from_option head id].
    pose proof (qlist_end_notin _ _ _ Hs) as He.
    rewrite decide_False by (unfold cl_qlist_end; set_solver).
    unfold cl_qlist_next. rewrite (ring_next _ _ _ _ _ (proj1 Hs)).
    rewrite !filterb_cons. destruct (decide (pfn a = CL_SUCCESS)) as [E|E].
    + assert (f a = true) as -> by by apply bool_decide_true. cbn [negb].
      pose proof (qlist_remove_item_spec lk src kept a l Hs) as Hr.
      destruct (cl_qlist_remove_item lk src a) as [lk1 src1] eqn:Er.
      assert (ql_end src1 = ql_end src) as Hse.
      { unfold cl_qlist_remove_item in Er. case_decide; by simplify_eq/=. }
      destruct Hr as [Hr1 Hr2].
      assert (qlist_at lk1 dest ld) as Hd1.
      { eapply qlist_frame; [exact Hr2| |exact Hd]. nodup_simpl. ne_solve. }
      pose proof (qlist_insert_tail_spec lk1 dest ld a Hd1) as Hi.
      destruct (cl_qlist_insert_tail lk1 dest a) as [lk2 dest2] eqn:Ei.
      assert (ql_end dest2 = ql_end dest) as Hde by (unfold cl_qlist_insert_tail in Ei; by simplify_eq/=).
      destruct Hi as [Hi1 Hi2]; [nodup_simpl; ne_solve|].
      rewrite <- Hse. edestruct (IH lk2 src1 dest2 kept (ld ++ [a]) fuel) as (lk'&src'&dest'&Hm&Hm2);
        [lia|done| |].
      * split_and!; [done| |].
        -- eapply qlist_frame; [exact Hi2| |exact Hr1]. rewrite Hse. nodup_simpl. ne_solve.
        -- rewrite Hse, Hde. revert Hnd. rewrite <- !(assoc_L (++)). cbn.
           intros Hnd. eapply NoDup_Permutation_proper; [|exact Hnd].
           apply Permutation_cons, Permutation_app; [done..|].
           rewrite <- Permutation_middle. apply Permutation_swap.
      * exists lk', src', dest'. rewrite <- (assoc_L (++)) in Hm2. split; [exact Hm|exact Hm2].
    + assert (f a = false) as -> by by apply bool_decide_false. cbn [negb].
      edestruct (IH lk src dest (kept ++ [a]) ld fuel) as (lk'&src'&dest'&Hm&Hm2); [lia|done| |].
      * by rewrite <- (assoc_L (++)).
      * exists lk', src', dest'. rewrite <- (assoc_L (++)) in Hm2. split; [exact Hm|exact Hm2].
Qed.
End Traversals.

(** ** Arrays of items *)

(** The addresses of the [n] items of an array. *)
Definition array_items (base size : Z) (n : nat) : list ptr :=
  (fun i => (base + Z.of_nat i * size)%Z) <$> seq 0 n.

Section Arrays.
Implicit Types (lk : links) (q : cl_qlist_t) (l : list ptr).

Lemma array_items_S base size n :
  array_items base size (S n) = base :: array_items (base + size) size n.
Proof.
  unfold array_items. cbn [seq fmap list_fmap]. f_equal; [lia|].
  rewrite <- fmap_S_seq, <- list_fmap_compose. apply list_fmap_ext.
  intros i x _. unfold compose. lia.
Qed.

Lemma array_items_snoc base size n :
  array_items base size (S n) = array_items base size n ++ [(base + Z.of_nat n * size)%Z].
Proof. unfold array_items. by rewrite seq_S, fmap_app. Qed.

Lemma insert_array_tail_loop_spec size n : forall lk q l base,
  qlist_at lk q l -> NoDup (ql_end q :: l ++ array_items base size n) ->
  let '(lk', q') := insert_array_tail_loop lk q base size n in
  qlist_at lk' q' (l ++ array_items base size n).
Proof.
  induction n as [|n IH]; intros lk q l base Hq Hnd.
  - cbn. by rewrite app_nil_r.
  - rewrite array_items_S in *. cbn [insert_array_tail_loop].
    assert (base ∉ ql_end q :: l) as Hb by (nodup_simpl; ne_solve).
    pose proof (qlist_insert_tail_spec lk q l base Hq Hb) as Hi.
    destruct (cl_qlist_insert_tail lk q base) as [lk1 q1] eqn:E. destruct Hi as [Hi _].
    assert (ql_end q1 = ql_end q) as He by (unfold cl_qlist_insert_tail in E; by simplify_eq/=).
    specialize (IH lk1 q1 (l ++ [base]) (base + size)%Z Hi).
    rewrite <- (assoc_L (++)), He in IH. by apply IH.
Qed.

Lemma insert_array_head_loop_spec size n : forall lk q l base,
  qlist_at lk q l -> NoDup (ql_end q :: array_items base size n ++ l) ->
  let '(lk', q') := insert_array_head_loop lk q (base + (Z.of_nat n - 1) * size) size n in
  qlist_at lk' q' (array_items base size n ++ l).
Proof.
  induction n as [|n IH]; intros lk q l base Hq Hnd; [done|].
  rewrite array_items_snoc, <- (assoc_L (++)) in *. cbn [insert_array_head_loop app] in *.
  replace (base + (Z.of_nat (S n) - 1) * size)%Z with (base + Z.of_nat n * size)%Z by lia.
  set (p := (base + Z.of_nat n * size)%Z) in *.
  assert (p ∉ ql_end q :: l) as Hb by (nodup_simpl; ne_solve).
  pose proof (qlist_insert_head_spec lk q l p Hq Hb) as Hi.
  destruct (cl_qlist_insert_head lk q p) as [lk1 q1] eqn:E. destruct Hi as [Hi _].
  assert (ql_end q1 = ql_end q) as He by (unfold cl_qlist_insert_head in E; by simplify_eq/=).
  specialize (IH lk1 q1 (p :: l) base Hi). rewrite He in IH.
  replace (p - size)%Z with (base + (Z.of_nat n - 1) * size)%Z by lia. by apply IH.
Qed.
End Arrays.

(** ** Properties *)

(** A list returned by an operation holds [l], and only the items in [S] have
    had their links changed. *)
Definition result_holds (lk : links) (S : list ptr) (r : links * cl_qlist_t) (l : list ptr) : Prop :=
  qlist_at (fst r) (snd r) l /\ same_off S lk (fst r).

(** C38. every insertion puts the new item exactly at its place in the sequence
    (first, last, after or before the given item), keeps every other item in
    order, maintains the ring invariant and the count, and changes no link of
    an item outside the list. *)
Theorem qlist_insert_refines lk q l1 l2 p :
  qlist_at lk q (l1 ++ l2) -> p ∉ ql_end q :: l1 ++ l2 ->
  let S := p :: ql_end q :: l1 ++ l2 in
  (l1 = [] -> result_holds lk S (cl_qlist_insert_head lk q p) (p :: l2)) /\
  (l2 = [] -> result_holds lk S (cl_qlist_insert_tail lk q p) (l1 ++ [p])) /\
  (forall l a, l1 = l ++ [a] ->
     result_holds lk S (cl_qlist_insert_next lk q a p) (l ++ a :: p :: l2)) /\
  (forall l a, l2 = a :: l ->
     result_holds lk S (cl_qlist_insert_prev lk q a p) (l1 ++ p :: a :: l)).
Proof.
  intros Hq Hp S. unfold result_holds. split_and!.
  - intros ->. by apply qlist_insert_head_spec.
  - intros ->. unfold S. rewrite app_nil_r in *. by apply qlist_insert_tail_spec.
  - intros l a ->. unfold S. rewrite <- (assoc_L (++)) in *. by apply qlist_insert_next_spec.
  - intros l a ->. by apply qlist_insert_prev_spec.
Qed.

(** C39. the three removals take away the first, the last or the given item and
    nothing else; on an empty list the ends return the end item and change
    nothing in the sequence. *)
Theorem qlist_remove_refines lk q l :
  qlist_at lk q l ->
  (let '(p, lk', q') := cl_qlist_remove_head lk q in
   p = default (cl_qlist_end q) (head l) /\
   result_holds lk (ql_end q :: l) (lk', q') (tail l)) /\
  (let '(p, lk', q') := cl_qlist_remove_tail lk q in
   p = default (cl_qlist_end q) (last l) /\
   result_holds lk (ql_end q :: l) (lk', q') (take (length l - 1) l)) /\
  (forall l1 p l2, l = l1 ++ p :: l2 ->
   result_holds lk (ql_end q :: l1 ++ l2) (cl_qlist_remove_item lk q p) (l1 ++ l2)).
Proof.
  intros Hq. split_and!.
  - by apply qlist_remove_head_spec.
  - by apply qlist_remove_tail_spec.
  - intros l1 p l2 ->. pose proof (qlist_remove_item_spec lk q l1 p l2 Hq) as H.
    unfold result_holds. by destruct (cl_qlist_remove_item lk q p).
Qed.

(** moving a whole list to the head or to the tail of another one
    concatenates the two sequences, empties the source, and leaves both lists
    well formed, for a source of fewer than [2^32] items. *)
Theorem qlist_insert_list_refines lk dest l1 src l2 :
  two_lists lk dest l1 src l2 -> (Z.of_nat (length l2) < 2 ^ 32)%Z ->
  (let '(lk', dest', src') := cl_qlist_insert_list_head lk dest src in
   two_lists lk' dest' (l2 ++ l1) src' []) /\
  (let '(lk', dest', src') := cl_qlist_insert_list_tail lk dest src in
   two_lists lk' dest' (l1 ++ l2) src' []).
Proof.
  intros. split; [by apply qlist_insert_list_head_spec|by apply qlist_insert_list_tail_spec].
Qed.

(** The emptiness test looks at the low 32 bits of the count, so a source list
    whose count is a multiple of [2^32] is taken for empty and is not moved. *)
Lemma qlist_insert_list_truncation lk dest e st k :
  let src := QList e (k * 2 ^ 32) st in
  cl_qlist_insert_list_tail lk dest src = (lk, dest, src) /\
  cl_qlist_insert_list_head lk dest src = (lk, dest, src).
Proof.
  assert (cl_is_qlist_empty (QList e (k * 2 ^ 32) st) = true) as He.
  { unfold cl_is_qlist_empty, cl_qlist_count, wrap. cbn. by rewrite Z.mod_mul. }
  cbn zeta. unfold cl_qlist_insert_list_tail, cl_qlist_insert_list_head. by rewrite He.
Qed.

(** searching forwards (backwards) from an item returns the first item after
    (before) it that the match function accepts, and the end of the list, not
    the starting item, when there is none; searching from the end item searches
    the whole list.  Both always return. *)
Theorem qlist_find_correct lk q l1 p l2 pfn :
  qlist_at lk q (l1 ++ p :: l2) -> short (l1 ++ p :: l2) ->
  let f x := bool_decide (pfn x = CL_SUCCESS) in
  cl_qlist_find_next lk q p pfn = Some (default (cl_qlist_end q) (head (filterb f l2))) /\
  cl_qlist_find_prev lk q p pfn = Some (default (cl_qlist_end q) (head (filterb f (reverse l1)))) /\
  cl_qlist_find_from_head lk q pfn =
    Some (default (cl_qlist_end q) (head (filterb f (l1 ++ p :: l2)))).
Proof.
  intros Hq Hs f. pose proof (ring_fuel_enough _ _ _ Hq Hs) as Hf.
  pose proof (qlist_end_notin _ _ _ Hq) as He. rewrite length_app in Hf. cbn in Hf.
  pose proof Hq as [Hr _]. split_and!.
  - apply (find_loop_spec lk); [lia|set_solver|by eapply ring_next|].
    intros k1 a k2 ->. eapply (ring_next _ _ (l1 ++ p :: k1)). by rewrite <- (assoc_L (++)).
  - apply (find_loop_spec lk); [rewrite length_reverse; lia|rewrite elem_of_reverse; set_solver| |].
    + rewrite <- last_reverse, reverse_involutive. by eapply ring_prev.
    + intros k1 a k2 Hk. apply (f_equal reverse) in Hk.
      rewrite reverse_involutive, reverse_app, reverse_cons, <- (assoc_L (++)) in Hk. subst.
      rewrite <- last_reverse. rewrite <- (assoc_L (++)) in Hr.
      by apply (ring_prev lk (ql_end q) (reverse k2) a (reverse k1 ++ p :: l2)).
  - apply (find_loop_spec lk); [rewrite length_app; cbn; lia|done|by eapply ring_head|].
    intros k1 a k2 Hk. rewrite Hk in Hr. by eapply ring_next.
Qed.

(** the membership test and the apply function visit each item of the list
    once, in order, and always return. *)
Theorem qlist_traversal_correct {A} lk q l p (pfn : ptr -> A -> A) c :
  qlist_at lk q l -> short l ->
  cl_is_item_in_qlist lk q p = Some (bool_decide (p ∈ l)) /\
  cl_qlist_apply_func lk q pfn c = Some (foldl (fun c x => pfn x c) c l).
Proof.
  intros Hq Hs. pose proof (ring_fuel_enough _ _ _ Hq Hs) as Hf.
  pose proof (qlist_end_notin _ _ _ Hq) as He. pose proof Hq as [Hr _].
  split; [apply in_qlist_loop_spec|apply apply_loop_spec]; try done;
    try (by eapply ring_head); intros k1 a k2 Hk; rewrite Hk in Hr; by eapply ring_next.
Qed.

(** moving items appends to the destination, in order, exactly the items the
    match function accepts, and leaves the others, in order, in the source. *)
Theorem qlist_move_items_correct lk src l dest ld pfn :
  two_lists lk dest ld src l -> short l ->
  let f x := bool_decide (pfn x = CL_SUCCESS) in
  exists lk' src' dest',
    cl_qlist_move_items lk src dest pfn = Some (lk', src', dest') /\
    two_lists lk' dest' (ld ++ filterb f l) src' (filterb (fun x => negb (f x)) l).
Proof.
  intros H2 Hs f. pose proof H2 as (_ & Hq & _). apply (move_loop_spec pfn l _ _ _ []); [|..|done].
  - by eapply ring_fuel_enough.
  - by eapply ring_head, Hq.
Qed.

(** inserting an array of items at the head or at the tail adds all of them
    in the order of the array, provided the byte offset of the last item fits
    the 32-bit product the head insertion computes. *)
Theorem qlist_insert_array_refines lk q l base size n :
  qlist_at lk q l -> NoDup (ql_end q :: array_items base size n ++ l) ->
  (0 < Z.of_nat n < 2 ^ 32)%Z -> (0 <= size * (Z.of_nat n - 1) < 2 ^ 32)%Z ->
  (let '(lk', q') := cl_qlist_insert_array_head lk q base (Z.of_nat n) size in
   qlist_at lk' q' (array_items base size n ++ l)) /\
  (let '(lk', q') := cl_qlist_insert_array_tail lk q base (Z.of_nat n) size in
   qlist_at lk' q' (l ++ array_items base size n)).
Proof.
  intros Hq Hnd Hn Hm. unfold cl_qlist_insert_array_head, cl_qlist_insert_array_tail.
  rewrite Nat2Z.id, !wrap_small by (rewrite ?wrap_small; lia). split.
  - rewrite (Z.mul_comm size). by apply insert_array_head_loop_spec.
  - apply insert_array_tail_loop_spec; [done|]. by rewrite (Permutation_app_comm l).
Qed.

(** ** Concrete lists *)

#[export] Instance seg_dec lk l y : forall x, Decision (seg lk x l y).
Proof. induction l as [|a l IH]; intros x; cbn; apply _. Defined.
#[export] Instance ring_dec lk e l : Decision (ring lk e l).
Proof. unfold ring. apply _. Defined.
#[export] Instance qlist_at_dec lk q l : Decision (qlist_at lk q l).
Proof. unfold qlist_at. apply _. Defined.
#[export] Instance two_lists_dec lk dest l1 src l2 : Decision (two_lists lk dest l1 src l2).
Proof. unfold two_lists. apply _. Defined.

(** A list with end item [e], built by the code from the given items. *)
Definition build_list (lk : links) (e : ptr) (l : list ptr) : links * cl_qlist_t :=
  foldl (fun r p => cl_qlist_insert_tail r.1 r.2 p)
    (cl_qlist_init lk (QList e 0 CL_UNINITIALIZED)) l.

Definition links0 : links := Links (fun _ => NULL) (fun _ => NULL).
Definition demo1 := build_list links0 100 [1; 2; 3]%Z.
Definition demo2 := build_list demo1.1 200 [4; 5]%Z.

Lemma qlist_insert_witness :
  qlist_at demo1.1 demo1.2 ([1; 2] ++ [3])%Z /\
  result_holds demo1.1 (9 :: 100 :: [1; 2; 3])%Z (cl_qlist_insert_next demo1.1 demo1.2 2 9) [1; 2; 9; 3]%Z.
Proof.
  assert (qlist_at demo1.1 demo1.2 ([1; 2] ++ [3])%Z) as H by (vm_decide).
  split; [exact H|]. 
  exact (proj1 (proj2 (proj2 (qlist_insert_refines demo1.1 demo1.2 [1; 2]%Z [3]%Z 9 H ltac:(vm_decide)))) [1]%Z 2%Z eq_refl).
Defined.

Lemma qlist_remove_witness :
  qlist_at demo1.1 demo1.2 [1; 2; 3]%Z /\
  result_holds demo1.1 [100; 1; 3]%Z (cl_qlist_remove_item demo1.1 demo1.2 2) [1; 3]%Z.
Proof.
  assert (qlist_at demo1.1 demo1.2 [1; 2; 3]%Z) as H by vm_decide.
  split; [exact H|]. exact (proj2 (proj2 (qlist_remove_refines demo1.1 demo1.2 [1; 2; 3]%Z H)) [1]%Z 2%Z [3]%Z eq_refl).
Defined.

Lemma qlist_insert_list_witness :
  two_lists demo2.1 demo1.2 [1; 2; 3]%Z demo2.2 [4; 5]%Z /\
  (let '(lk', dest', src') := cl_qlist_insert_list_tail demo2.1 demo1.2 demo2.2 in
   two_lists lk' dest' [1; 2; 3; 4; 5]%Z src' []).
Proof.
  assert (two_lists demo2.1 demo1.2 [1; 2; 3]%Z demo2.2 [4; 5]%Z) as H by vm_decide.
  split; [exact H|]. exact (proj2 (qlist_insert_list_refines _ _ _ _ _ H ltac:(vm_decide))).
Defined.

Lemma qlist_find_witness :
  qlist_at demo1.1 demo1.2 ([1] ++ 2 :: [3])%Z /\
  cl_qlist_find_next demo1.1 demo1.2 2 (fun x => if decide (x = 1)%Z then CL_SUCCESS else CL_NOT_FOUND) = Some 100%Z.
Proof.
  assert (qlist_at demo1.1 demo1.2 ([1] ++ 2 :: [3])%Z) as H by vm_decide.
  split; [exact H|]. exact (proj1 (qlist_find_correct _ _ [1]%Z 2 [3]%Z _ H ltac:(vm_compute; reflexivity))).
Defined.

Lemma qlist_traversal_witness :
  qlist_at demo1.1 demo1.2 [1; 2; 3]%Z /\
  cl_qlist_apply_func demo1.1 demo1.2 (fun x c => (10 * c + x)%Z) 0%Z = Some 123%Z.
Proof.
  assert (qlist_at demo1.1 demo1.2 [1; 2; 3]%Z) as H by vm_decide.
  split; [exact H|].
  exact (proj2 (qlist_traversal_correct _ _ _ 2 (fun x c => (10 * c + x)%Z) 0%Z H ltac:(vm_compute; reflexivity))).
Defined.

Lemma qlist_move_items_witness :
  two_lists demo2.1 demo2.2 [4; 5]%Z demo1.2 [1; 2; 3]%Z /\
  exists lk' src' dest',
    cl_qlist_move_items demo2.1 demo1.2 demo2.2 (fun x => if Z.odd x then CL_SUCCESS else CL_NOT_FOUND) =
      Some (lk', src', dest') /\ two_lists lk' dest' [4; 5; 1; 3]%Z src' [2]%Z.
Proof.
  assert (two_lists demo2.1 demo2.2 [4; 5]%Z demo1.2 [1; 2; 3]%Z) as H by vm_decide.
  split; [exact H|].
  exact (qlist_move_items_correct _ _ _ _ _ (fun x => if Z.odd x then CL_SUCCESS else CL_NOT_FOUND) H
           ltac:(vm_compute; reflexivity)).
Defined.

Lemma qlist_insert_array_witness :
  qlist_at demo1.1 demo1.2 [1; 2; 3]%Z /\
  (let '(lk', q') := cl_qlist_insert_array_head demo1.1 demo1.2 16 3 8 in
   qlist_at lk' q' [16; 24; 32; 1; 2; 3]%Z).
Proof.
  assert (qlist_at demo1.1 demo1.2 [1; 2; 3]%Z) as H by vm_decide.
  split; [exact H|]. exact (proj1 (qlist_insert_array_refines _ _ _ 16 8 3 H ltac:(vm_decide) ltac:(lia) ltac:(lia))).
Defined.
