(* ===== verification/RbMap.v ===== *)
(** * Map: the red-black tree of [cl_map.c], as written

    The quick map ([cl_qmap_*], 64-bit keys) and the flexi map ([cl_fmap_*], user
    keys and a user comparison) are the same code up to the comparison of keys.
    This file holds that code once, over a key type and a comparison; [QMap.v]
    and [FlexiMap.v] instantiate it.

    Items are caller storage linked in place: [p_left], [p_right] and [p_up] form
    the tree, the links of the embedded list item ([pool_item.list_item]) keep
    the items in key order for traversal.  A map structure embeds two sentinel
    items, [root] and [nil]; they are represented by their addresses. *)

From S2P Require Import Prelude Qlist.

(** ** Data *)

Inductive cl_map_color_t := CL_MAP_RED | CL_MAP_BLACK.

#[export] Instance cl_map_color_eq_dec : EqDecision cl_map_color_t.
Proof. solve_decision. Defined.

(** [cl_map_item_t] (and [cl_fmap_item_t]): one function per field. *)
Record mem (K : Type) := Mem {
  m_links : links;
  p_left : ptr -> ptr;
  p_right : ptr -> ptr;
  p_up : ptr -> ptr;
  color : ptr -> cl_map_color_t;
  key : ptr -> K }.
Arguments Mem {K}.
Arguments m_links {K}.
Arguments p_left {K}.
Arguments p_right {K}.
Arguments p_up {K}.
Arguments color {K}.
Arguments key {K}.

(** [cl_qmap_t] (and [cl_fmap_t]): the addresses of its two sentinels, the state
    and the count. *)
Record cl_qmap_t := QMap {
  qm_root : ptr;
  qm_nil : ptr;
  qm_state : cl_state_t;
  qm_count : Z }.

Section Map.
Context {K : Type}.
(** [key < item->key], [key == item->key], [key > item->key] of the quick map;
    the sign of [pfn_compare] for the flexi map. *)
Variable cmp : K -> K -> comparison.

Abbreviation mem := (mem K).
Implicit Types (m : mem) (map : cl_qmap_t) (p p_item : ptr).

Definition set_left m p v : mem :=
  Mem (m_links m) ((p_left m)⟦p <~ v⟧) (p_right m) (p_up m) (color m) (key m).
Definition set_right m p v : mem :=
  Mem (m_links m) (p_left m) ((p_right m)⟦p <~ v⟧) (p_up m) (color m) (key m).
Definition set_up m p v : mem :=
  Mem (m_links m) (p_left m) (p_right m) ((p_up m)⟦p <~ v⟧) (color m) (key m).
Definition set_color m p c : mem :=
  Mem (m_links m) (p_left m) (p_right m) (p_up m) ((color m)⟦p <~ c⟧) (key m).
Definition set_key m p k : mem :=
  Mem (m_links m) (p_left m) (p_right m) (p_up m) (color m) ((key m)⟦p <~ k⟧).
Definition set_links m lk : mem :=
  Mem lk (p_left m) (p_right m) (p_up m) (color m) (key m).

Definition qm_set_count map (c : Z) : cl_qmap_t :=
  QMap (qm_root map) (qm_nil map) (qm_state map) (u64 c).

(** ** Tree navigation *)

Definition __cl_map_root m map : ptr := p_left m (qm_root map).

Definition __cl_map_is_left_child m p_item : bool :=
  bool_decide (p_left m (p_up m p_item) = p_item).

(** A pointer to a child field: [&p->p_left] or [&p->p_right]. *)
Inductive child_ptr := AtLeft (p : ptr) | AtRight (p : ptr).

Definition child_get m (c : child_ptr) : ptr :=
  match c with AtLeft p => p_left m p | AtRight p => p_right m p end.
Definition child_set m (c : child_ptr) (v : ptr) : mem :=
  match c with AtLeft p => set_left m p v | AtRight p => set_right m p v end.

Definition __cl_map_get_parent_ptr_to_item m p_item : child_ptr :=
  if __cl_map_is_left_child m p_item then AtLeft (p_up m p_item) else AtRight (p_up m p_item).

(** ** Rotations *)

Definition __cl_map_rot_left m map p_item : mem :=
  let pp_root := __cl_map_get_parent_ptr_to_item m p_item in
  let m := child_set m pp_root (p_right m p_item) in
  let m := set_up m (child_get m pp_root) (p_up m p_item) in
  let m := set_right m p_item (p_left m (child_get m pp_root)) in
  let m :=
    if decide (p_left m (child_get m pp_root) = qm_nil map) then m
    else set_up m (p_left m (child_get m pp_root)) p_item in
  let m := set_left m (child_get m pp_root) p_item in
  set_up m p_item (child_get m pp_root).

Definition __cl_map_rot_right m map p_item : mem :=
  let pp_root := __cl_map_get_parent_ptr_to_item m p_item in
  let m := child_set m pp_root (p_left m p_item) in
  let m := set_up m (child_get m pp_root) (p_up m p_item) in
  let m := set_left m p_item (p_right m (child_get m pp_root)) in
  let m :=
    if decide (p_right m (child_get m pp_root) = qm_nil map) then m
    else set_up m (p_right m (child_get m pp_root)) p_item in
  let m := set_right m (child_get m pp_root) p_item in
  set_up m p_item (child_get m pp_root).

(** ** Initialisation and traversal *)

Definition cl_qmap_remove_all m map : mem * cl_qmap_t :=
  let m := set_left m (qm_root map) (qm_nil map) in
  let lk := set_next (m_links m) (qm_nil map) (qm_nil map) in
  let lk := set_prev lk (qm_nil map) (qm_nil map) in
  (set_links m lk, QMap (qm_root map) (qm_nil map) (qm_state map) 0).

(** The [memset] clears the map structure; every field the map reads is set by
    the assignments that follow it. *)
Definition cl_qmap_init m map : mem * cl_qmap_t :=
  let m := set_up m (qm_root map) (qm_root map) in
  let m := set_left m (qm_root map) (qm_nil map) in
  let m := set_right m (qm_root map) (qm_nil map) in
  let m := set_color m (qm_root map) CL_MAP_BLACK in
  let m := set_up m (qm_nil map) (qm_nil map) in
  let m := set_left m (qm_nil map) (qm_nil map) in
  let m := set_right m (qm_nil map) (qm_nil map) in
  let m := set_color m (qm_nil map) CL_MAP_BLACK in
  cl_qmap_remove_all m (QMap (qm_root map) (qm_nil map) CL_INITIALIZED 0).

Definition cl_qmap_count map : Z := u32 (qm_count map).
Definition cl_is_qmap_empty map : bool := bool_decide (qm_count map = 0%Z).
Definition cl_qmap_end map : ptr := qm_nil map.
Definition cl_qmap_head m map : ptr := p_next (m_links m) (qm_nil map).
Definition cl_qmap_tail m map : ptr := p_prev (m_links m) (qm_nil map).
Definition cl_qmap_next m p_item : ptr := p_next (m_links m) p_item.
Definition cl_qmap_prev m p_item : ptr := p_prev (m_links m) p_item.
Definition cl_qmap_key m p_item : K := key m p_item.

(** Loops go down or up one path of the tree, or along the list: [S count]
    iterations are enough, and [None] (not yet ended) is proved impossible on
    a well-formed map. *)
Definition map_fuel map : nat := S (Z.to_nat (qm_count map)).

(** ** Search *)

Fixpoint get_loop (fuel : nat) m map (k : K) p_item : option ptr :=
  match fuel with
  | O => None
  | S n =>
      if decide (p_item = qm_nil map) then Some p_item
      else
        match cmp k (key m p_item) with
        | Eq => Some p_item
        | Lt => get_loop n m map k (p_left m p_item)
        | Gt => get_loop n m map k (p_right m p_item)
        end
  end.

Definition cl_qmap_get m map (k : K) : option ptr :=
  get_loop (map_fuel map) m map k (__cl_map_root m map).

Fixpoint get_next_loop (fuel : nat) m map (k : K) p_item (p_item_found : ptr) : option ptr :=
  match fuel with
  | O => None
  | S n =>
      if decide (p_item = qm_nil map) then Some p_item_found
      else
        match cmp k (key m p_item) with
        | Lt => get_next_loop n m map k (p_left m p_item) p_item
        | _ => get_next_loop n m map k (p_right m p_item) p_item_found
        end
  end.

Definition cl_qmap_get_next m map (k : K) : option ptr :=
  get_next_loop (map_fuel map) m map k (__cl_map_root m map) (qm_nil map).

(** The user's function works on the user's state and performs no map
    operation. *)
Fixpoint qmap_apply_loop {A} (fuel : nat) m map (pfn_func : ptr -> A -> A) p (ctx : A)
    : option A :=
  match fuel with
  | O => None
  | S n =>
      if decide (p = cl_qmap_end map) then Some ctx
      else qmap_apply_loop n m map pfn_func (cl_qmap_next m p) (pfn_func p ctx)
  end.

Definition cl_qmap_apply_func {A} m map (pfn_func : ptr -> A -> A) (ctx : A) : option A :=
  qmap_apply_loop (map_fuel map) m map pfn_func (cl_qmap_head m map) ctx.

(** ** Insertion *)

(** The red-uncle branch of an iteration: recolour, the grandparent turning red. *)
Definition ins_recolor m p_item (p_grand_uncle : ptr) : mem :=
  let m := set_color m p_grand_uncle CL_MAP_BLACK in
  let m := set_color m (p_up m p_item) CL_MAP_BLACK in
  set_color m (p_up m (p_up m p_item)) CL_MAP_RED.

(** The black-uncle branch when the parent is a left child. *)
Definition ins_rotate_left m map p_item : mem * ptr :=
  let '(m, p_item) :=
    if negb (__cl_map_is_left_child m p_item) then
      let p_item := p_up m p_item in (__cl_map_rot_left m map p_item, p_item)
    else (m, p_item) in
  let m := set_color m (p_up m p_item) CL_MAP_BLACK in
  let m := set_color m (p_up m (p_up m p_item)) CL_MAP_RED in
  (__cl_map_rot_right m map (p_up m (p_up m p_item)), p_item).

(** The black-uncle branch when the parent is a right child. *)
Definition ins_rotate_right m map p_item : mem * ptr :=
  let '(m, p_item) :=
    if __cl_map_is_left_child m p_item then
      let p_item := p_up m p_item in (__cl_map_rot_right m map p_item, p_item)
    else (m, p_item) in
  let m := set_color m (p_up m p_item) CL_MAP_BLACK in
  let m := set_color m (p_up m (p_up m p_item)) CL_MAP_RED in
  (__cl_map_rot_left m map (p_up m (p_up m p_item)), p_item).

Fixpoint __cl_map_ins_bal (fuel : nat) m map p_item : option mem :=
  match fuel with
  | O => None
  | S n =>
      if decide (color m (p_up m p_item) = CL_MAP_RED) then
        if __cl_map_is_left_child m (p_up m p_item) then
          let p_grand_uncle := p_right m (p_up m (p_up m p_item)) in
          if decide (color m p_grand_uncle = CL_MAP_RED) then
            let m := ins_recolor m p_item p_grand_uncle in
            __cl_map_ins_bal n m map (p_up m (p_up m p_item))
          else
            let '(m, p_item) := ins_rotate_left m map p_item in
            __cl_map_ins_bal n m map p_item
        else
          let p_grand_uncle := p_left m (p_up m (p_up m p_item)) in
          if decide (color m p_grand_uncle = CL_MAP_RED) then
            let m := ins_recolor m p_item p_grand_uncle in
            __cl_map_ins_bal n m map (p_up m (p_up m p_item))
          else
            let '(m, p_item) := ins_rotate_right m map p_item in
            __cl_map_ins_bal n m map p_item
      else Some m
  end.

(** The search for the insertion point: an item with the same key, or the item
    under which the new one goes. *)
Inductive ins_point := Exists_ (p : ptr) | Under (p : ptr).

Fixpoint ins_search (fuel : nat) m map (k : K) (p_insert_at p_comp_item : ptr)
    : option ins_point :=
  match fuel with
  | O => None
  | S n =>
      if decide (p_comp_item = qm_nil map) then Some (Under p_insert_at)
      else
        let p_insert_at := p_comp_item in
        match cmp k (key m p_insert_at) with
        | Eq => Some (Exists_ p_insert_at)
        | Lt => ins_search n m map k p_insert_at (p_left m p_insert_at)
        | Gt => ins_search n m map k p_insert_at (p_right m p_insert_at)
        end
  end.

(** Link the new item under [p_insert_at], in the tree and in the list. *)
Definition ins_link m map (k : K) (p_insert_at p_item : ptr) : mem :=
  if decide (p_insert_at = qm_root map) then
    let m := set_left m p_insert_at p_item in
    set_links m (__cl_primitive_insert (m_links m) (qm_nil map) p_item)
  else
    match cmp k (key m p_insert_at) with
    | Lt =>
        let m := set_left m p_insert_at p_item in
        set_links m (__cl_primitive_insert (m_links m) p_insert_at p_item)
    | _ =>
        let m := set_right m p_insert_at p_item in
        set_links m
          (__cl_primitive_insert (m_links m) (p_next (m_links m) p_insert_at) p_item)
    end.

(** The item in the map with the key, the memory and the map. *)
Definition cl_qmap_insert m map (k : K) p_item : option (ptr * mem * cl_qmap_t) :=
  let m := set_left m p_item (qm_nil map) in
  let m := set_right m p_item (qm_nil map) in
  let m := set_key m p_item k in
  let m := set_color m p_item CL_MAP_RED in
  pt ← ins_search (map_fuel map) m map k (qm_root map) (__cl_map_root m map);
  match pt with
  | Exists_ p => Some (p, m, map)
  | Under p_insert_at =>
      let m := ins_link m map k p_insert_at p_item in
      let map := qm_set_count map (qm_count map + 1) in
      let m := set_up m p_item p_insert_at in
      m ← __cl_map_ins_bal (map_fuel map) m map p_item;
      let m := set_color m (__cl_map_root m map) CL_MAP_BLACK in
      Some (p_item, m, map)
  end.

(** ** Removal *)

(** [p_item] is a left child: its parent's right child after the red-uncle case. *)
Definition del_uncle_left m map p_item : mem * ptr :=
  let p_uncle := p_right m (p_up m p_item) in
  if decide (color m p_uncle = CL_MAP_RED) then
    let m := set_color m p_uncle CL_MAP_BLACK in
    let m := set_color m (p_up m p_item) CL_MAP_RED in
    let m := __cl_map_rot_left m map (p_up m p_item) in
    (m, p_right m (p_up m p_item))
  else (m, p_uncle).

(** The uncle's only red child is the left one: it takes the uncle's place. *)
Definition del_inner_left m map p_item (p_uncle : ptr) : mem * ptr :=
  let m := set_color m (p_left m p_uncle) CL_MAP_BLACK in
  let m := set_color m p_uncle CL_MAP_RED in
  let m := __cl_map_rot_right m map p_uncle in
  (m, p_right m (p_up m p_item)).

(** The assignments before the [break]. *)
Definition del_outer_left m map p_item (p_uncle : ptr) : mem :=
  let m := set_color m p_uncle (color m (p_up m p_item)) in
  let m := set_color m (p_up m p_item) CL_MAP_BLACK in
  let m := set_color m (p_right m p_uncle) CL_MAP_BLACK in
  __cl_map_rot_left m map (p_up m p_item).

(** [p_item] is a right child: its parent's left child after the red-uncle case. *)
Definition del_uncle_right m map p_item : mem * ptr :=
  let p_uncle := p_left m (p_up m p_item) in
  if decide (color m p_uncle = CL_MAP_RED) then
    let m := set_color m p_uncle CL_MAP_BLACK in
    let m := set_color m (p_up m p_item) CL_MAP_RED in
    let m := __cl_map_rot_right m map (p_up m p_item) in
    (m, p_left m (p_up m p_item))
  else (m, p_uncle).

(** The uncle's only red child is the right one: it takes the uncle's place. *)
Definition del_inner_right m map p_item (p_uncle : ptr) : mem * ptr :=
  let m := set_color m (p_right m p_uncle) CL_MAP_BLACK in
  let m := set_color m p_uncle CL_MAP_RED in
  let m := __cl_map_rot_left m map p_uncle in
  (m, p_left m (p_up m p_item)).

(** The assignments before the [break]. *)
Definition del_outer_right m map p_item (p_uncle : ptr) : mem :=
  let m := set_color m p_uncle (color m (p_up m p_item)) in
  let m := set_color m (p_up m p_item) CL_MAP_BLACK in
  let m := set_color m (p_left m p_uncle) CL_MAP_BLACK in
  __cl_map_rot_right m map (p_up m p_item).

Fixpoint __cl_map_del_bal (fuel : nat) m map p_item : option mem :=
  match fuel with
  | O => None
  | S n =>
      if decide (color m p_item <> CL_MAP_RED /\ p_up m p_item <> qm_root map) then
        if __cl_map_is_left_child m p_item then
          let '(m, p_uncle) := del_uncle_left m map p_item in
          if decide (color m (p_right m p_uncle) <> CL_MAP_RED) then
            if decide (color m (p_left m p_uncle) <> CL_MAP_RED) then
              let m := set_color m p_uncle CL_MAP_RED in
              __cl_map_del_bal n m map (p_up m p_item)
            else
              let '(m, p_uncle) := del_inner_left m map p_item p_uncle in
              Some (set_color (del_outer_left m map p_item p_uncle) p_item CL_MAP_BLACK)
          else Some (set_color (del_outer_left m map p_item p_uncle) p_item CL_MAP_BLACK)
        else
          let '(m, p_uncle) := del_uncle_right m map p_item in
          if decide (color m (p_left m p_uncle) <> CL_MAP_RED) then
            if decide (color m (p_right m p_uncle) <> CL_MAP_RED) then
              let m := set_color m p_uncle CL_MAP_RED in
              __cl_map_del_bal n m map (p_up m p_item)
            else
              let '(m, p_uncle) := del_inner_right m map p_item p_uncle in
              Some (set_color (del_outer_right m map p_item p_uncle) p_item CL_MAP_BLACK)
          else Some (set_color (del_outer_right m map p_item p_uncle) p_item CL_MAP_BLACK)
      else Some (set_color m p_item CL_MAP_BLACK)
  end.

(** Give [p_del_item] the place of [p_item] in the tree. *)
Definition del_exchange m (p_item p_del_item : ptr) : mem :=
  let m := set_up m p_del_item (p_up m p_item) in
  let m := set_left m p_del_item (p_left m p_item) in
  let m := set_right m p_del_item (p_right m p_item) in
  let m := child_set m (__cl_map_get_parent_ptr_to_item m p_item) p_del_item in
  let m := set_up m (p_right m p_item) p_del_item in
  let m := set_up m (p_left m p_item) p_del_item in
  set_color m p_del_item (color m p_item).

(** Take [p_del_item], which has at most one child, out of the tree, rebalance,
    and exchange it with [p_item] if they differ. *)
Definition del_unlink m map (p_item p_del_item : ptr) : option mem :=
  let p_child :=
    if decide (p_left m p_del_item <> qm_nil map) then p_left m p_del_item
    else p_right m p_del_item in
  let m := set_up m p_child (p_up m p_del_item) in
  let m := child_set m (__cl_map_get_parent_ptr_to_item m p_del_item) p_child in
  m ← (if decide (color m p_del_item <> CL_MAP_RED)
       then __cl_map_del_bal (map_fuel map) m map p_child else Some m);
  Some (if decide (p_del_item <> p_item) then del_exchange m p_item p_del_item else m).

Definition cl_qmap_remove_item m map p_item : option (mem * cl_qmap_t) :=
  if decide (p_item = cl_qmap_end map) then Some (m, map) else
  let p_del_item :=
    if decide (p_right m p_item = qm_nil map \/ p_left m p_item = qm_nil map) then p_item
    else cl_qmap_next m p_item in
  let m := set_links m (__cl_primitive_remove (m_links m) p_item) in
  let map := qm_set_count map (qm_count map - 1) in
  m ← del_unlink m map p_item p_del_item;
  Some (m, map).

Definition cl_qmap_remove m map (k : K) : option (ptr * mem * cl_qmap_t) :=
  p_item ← cl_qmap_get m map k;
  '(m, map) ← cl_qmap_remove_item m map p_item;
  Some (p_item, m, map).

(** ** Operations on several maps in the same memory *)

Fixpoint merge_loop (fuel : nat) m (dest src : cl_qmap_t) p_item
    : option (mem * cl_qmap_t * cl_qmap_t) :=
  match fuel with
  | O => None
  | S n =>
      if decide (p_item = cl_qmap_end src) then Some (m, dest, src)
      else
        let nxt := cl_qmap_next m p_item in
        '(m, src) ← cl_qmap_remove_item m src p_item;
        '(p_item2, m, dest) ← cl_qmap_insert m dest (cl_qmap_key m p_item) p_item;
        if decide (p_item2 <> p_item) then
          '(_, m, src) ← cl_qmap_insert m src (cl_qmap_key m p_item) p_item;
          merge_loop n m dest src nxt
        else merge_loop n m dest src nxt
  end.

Definition cl_qmap_merge m (dest src : cl_qmap_t) : option (mem * cl_qmap_t * cl_qmap_t) :=
  merge_loop (map_fuel src) m dest src (cl_qmap_head m src).

(** The new value of [*pp_item], the memory and the two maps. *)
Definition __cl_qmap_delta_move m (dest src : cl_qmap_t) p_item
    : option (ptr * mem * cl_qmap_t * cl_qmap_t) :=
  let nxt := cl_qmap_next m p_item in
  '(m, src) ← cl_qmap_remove_item m src p_item;
  '(_, m, dest) ← cl_qmap_insert m dest (cl_qmap_key m p_item) p_item;
  Some (nxt, m, dest, src).

(** The loops that move the rest of one map once the other is exhausted. *)
Fixpoint delta_rest (fuel : nat) m (dest src : cl_qmap_t) p_item
    : option (mem * cl_qmap_t * cl_qmap_t) :=
  match fuel with
  | O => None
  | S n =>
      if decide (p_item = cl_qmap_end src) then Some (m, dest, src)
      else
        '(p_item, m, dest, src) ← __cl_qmap_delta_move m dest src p_item;
        delta_rest n m dest src p_item
  end.

Fixpoint delta_loop (fuel : nat) m (map1 map2 new old : cl_qmap_t) (p_item1 p_item2 : ptr)
    : option (ptr * ptr * mem * cl_qmap_t * cl_qmap_t * cl_qmap_t * cl_qmap_t) :=
  match fuel with
  | O => None
  | S n =>
      if decide (p_item1 <> cl_qmap_end map1 /\ p_item2 <> cl_qmap_end map2) then
        match cmp (cl_qmap_key m p_item1) (cl_qmap_key m p_item2) with
        | Lt =>
            '(p_item1, m, old, map1) ← __cl_qmap_delta_move m old map1 p_item1;
            delta_loop n m map1 map2 new old p_item1 p_item2
        | Gt =>
            '(p_item2, m, new, map2) ← __cl_qmap_delta_move m new map2 p_item2;
            delta_loop n m map1 map2 new old p_item1 p_item2
        | Eq =>
            delta_loop n m map1 map2 new old (cl_qmap_next m p_item1) (cl_qmap_next m p_item2)
        end
      else Some (p_item1, p_item2, m, map1, map2, new, old)
  end.

(** The memory and the maps [map1], [map2], [new], [old]. *)
Definition cl_qmap_delta m (map1 map2 new old : cl_qmap_t)
    : option (mem * cl_qmap_t * cl_qmap_t * cl_qmap_t * cl_qmap_t) :=
  '(p_item1, p_item2, m, map1, map2, new, old) ←
    delta_loop (map_fuel map1 + map_fuel map2) m map1 map2 new old
      (cl_qmap_head m map1) (cl_qmap_head m map2);
  '(m, new, map2) ← delta_rest (map_fuel map2) m new map2 p_item2;
  '(m, old, map1) ← delta_rest (map_fuel map1) m old map1 p_item1;
  Some (m, map1, map2, new, old).
End Map.

Arguments cl_qmap_init {K}.
