(* ===== verification/RbTree.v ===== *)
(** * Trees in memory: representation, separation and rotations

    The invariant of the map code and the effect of its pointer surgery.  A
    position inside a tree is a zipper (a context and a subtree); the code's
    moves [p_item = p_item->p_up] are moves of the zipper, its rotations are
    proved to rotate the subtree under any context. *)

From S2P Require Import Prelude Qlist RbMap.

Section Trees.
Context {K : Type}.

(** ** Trees and contexts *)

Inductive tree :=
| Leaf
| Node (c : cl_map_color_t) (l : tree) (p : ptr) (k : K) (r : tree).

(** The path from a position to the top: one frame per ancestor, the nearest
    first; [InLeft] when the position is in the left subtree of the ancestor. *)
Inductive zframe :=
| InLeft (c : cl_map_color_t) (p : ptr) (k : K) (r : tree)
| InRight (c : cl_map_color_t) (l : tree) (p : ptr) (k : K).

Definition fill (f : zframe) (t : tree) : tree :=
  match f with
  | InLeft c p k r => Node c t p k r
  | InRight c l p k => Node c l p k t
  end.

Fixpoint plug (z : list zframe) (t : tree) : tree :=
  match z with [] => t | f :: z => plug z (fill f t) end.

(** In-order entries and addresses. *)
Fixpoint elems (t : tree) : list (ptr * K) :=
  match t with Leaf => [] | Node _ l p k r => elems l ++ (p, k) :: elems r end.
Fixpoint tptrs (t : tree) : list ptr :=
  match t with Leaf => [] | Node _ l p _ r => tptrs l ++ p :: tptrs r end.

(** The entries before and after a position. *)
Fixpoint zle (z : list zframe) : list (ptr * K) :=
  match z with
  | [] => []
  | InLeft _ _ _ _ :: z => zle z
  | InRight _ l p k :: z => zle z ++ elems l ++ [(p, k)]
  end.
Fixpoint zre (z : list zframe) : list (ptr * K) :=
  match z with
  | [] => []
  | InLeft _ p k r :: z => (p, k) :: elems r ++ zre z
  | InRight _ _ _ _ :: z => zre z
  end.
Fixpoint zlp (z : list zframe) : list ptr :=
  match z with
  | [] => []
  | InLeft _ _ _ _ :: z => zlp z
  | InRight _ l p _ :: z => zlp z ++ tptrs l ++ [p]
  end.
Fixpoint zrp (z : list zframe) : list ptr :=
  match z with
  | [] => []
  | InLeft _ p _ r :: z => p :: tptrs r ++ zrp z
  | InRight _ _ _ _ :: z => zrp z
  end.

Definition zelems (z : list zframe) (t : tree) : list (ptr * K) := zle z ++ elems t ++ zre z.

Definition tcolor (t : tree) : cl_map_color_t :=
  match t with Leaf => CL_MAP_BLACK | Node c _ _ _ _ => c end.

Lemma elems_fst t : (elems t).*1 = tptrs t.
Proof. induction t; cbn; [done|]. rewrite fmap_app. cbn. congruence. Qed.

Lemma zle_fst z : (zle z).*1 = zlp z.
Proof. induction z as [|[]]; cbn; rewrite ?fmap_app, ?elems_fst; cbn; congruence. Qed.

Lemma zre_fst z : (zre z).*1 = zrp z.
Proof. induction z as [|[]]; cbn; rewrite ?fmap_app, ?elems_fst; cbn; congruence. Qed.

Lemma zelems_fst z t : (zelems z t).*1 = zlp z ++ tptrs t ++ zrp z.
Proof. unfold zelems. by rewrite !fmap_app, elems_fst, zle_fst, zre_fst. Qed.

Lemma zelems_fill f z t : zelems (f :: z) t = zelems z (fill f t).
Proof. unfold zelems. destruct f; cbn; by rewrite <- ?(assoc_L (++)). Qed.

Lemma zelems_plug z t : zelems z t = elems (plug z t).
Proof.
  revert t. induction z as [|f z IH]; intros t.
  - unfold zelems. cbn. by rewrite app_nil_r.
  - by rewrite zelems_fill, IH.
Qed.

Lemma zelems_cong z t t' : elems t = elems t' -> zelems z t = zelems z t'.
Proof. unfold zelems. by intros ->. Qed.

Lemma plug_app z1 z2 t : plug (z1 ++ z2) t = plug z2 (plug z1 t).
Proof. revert t. induction z1; intros t; cbn; auto. Qed.
End Trees.

Arguments tree : clear implicits.
Arguments zframe : clear implicits.

Section Representation.
Context {K : Type}.
Implicit Types (m : mem K) (t l r : tree K) (z : list (zframe K)) (map : cl_qmap_t).

(** ** Representation in memory *)

Section Sentinels.
Variables root nil : ptr.

Definition tptr t : ptr := match t with Leaf => nil | Node _ _ p _ _ => p end.
Definition zptr z : ptr :=
match z with [] => root | InLeft _ p _ _ :: _ => p | InRight _ _ p _ :: _ => p end.
Definition zslot z : child_ptr :=
match z with
| [] => AtLeft root
| InLeft _ p _ _ :: _ => AtLeft p
| InRight _ _ p _ :: _ => AtRight p
end.

(** [t] is stored in [m], hanging from [up]. *)
Fixpoint rep m t (up : ptr) : Prop :=
match t with
| Leaf => True
| Node c l p k r =>
    p_left m p = tptr l /\ p_right m p = tptr r /\ p_up m p = up /\
    color m p = c /\ key m p = k /\ rep m l p /\ rep m r p
end.

(** [z] is stored in [m], with [h] at its hole. *)
Fixpoint repz m z (h : ptr) : Prop :=
match z with
| [] => p_left m root = h
| InLeft c p k r :: z =>
    p_left m p = h /\ p_right m p = tptr r /\ p_up m p = zptr z /\
    color m p = c /\ key m p = k /\ rep m r p /\ repz m z p
| InRight c l p k :: z =>
    p_left m p = tptr l /\ p_right m p = h /\ p_up m p = zptr z /\
    color m p = c /\ key m p = k /\ rep m l p /\ repz m z p
end.

Definition at_ m z t : Prop := repz m z (tptr t) /\ rep m t (zptr z).

(** All the items are distinct, and distinct from the sentinels. *)
Definition sep z t : Prop := NoDup (root :: nil :: zlp z ++ tptrs t ++ zrp z).

(** The five tree fields of an item agree. *)
Definition same_item m m' (x : ptr) : Prop :=
p_left m' x = p_left m x /\ p_right m' x = p_right m x /\ p_up m' x = p_up m x /\
color m' x = color m x /\ key m' x = key m x.

(** Only the items in [S] have changed, and no list link and no key. *)
Definition keeps (S : list ptr) m m' : Prop :=
m_links m' = m_links m /\ key m' = key m /\ forall x, x ∉ S -> same_item m m' x.

Lemma sep_cong z t z' t' : zelems z t = zelems z' t' -> sep z t -> sep z' t'.
Proof.
unfold sep. intros H. apply (f_equal (fmap fst)) in H. rewrite !zelems_fst in H. by rewrite H.
Qed.

Lemma keeps_refl S m : keeps S m m.
Proof. split_and!; [done..|]. by intros x _. Qed.

Lemma keeps_trans S m1 m2 m3 : keeps S m1 m2 -> keeps S m2 m3 -> keeps S m1 m3.
Proof.
intros (H1 & ? & H2) (H3 & ? & H4). split_and!; [congruence..|]. intros x Hx.
destruct (H2 x Hx) as (?&?&?&?&?), (H4 x Hx) as (?&?&?&?&?). split_and!; congruence.
Qed.

Lemma keeps_mono (S S' : list ptr) m m' : (forall x, x ∈ S -> x ∈ S') -> keeps S m m' -> keeps S' m m'.
Proof. intros Hs (? & ? & H2). split_and!; [done..|]. intros x Hx. apply H2. auto. Qed.

Lemma same_item_sym m m' x : same_item m m' x -> same_item m' m x.
Proof. intros (?&?&?&?&?). split_and!; congruence. Qed.

Lemma tptr_in t : t <> Leaf -> tptr t ∈ tptrs t.
Proof. destruct t; [done|]. cbn. set_solver. Qed.

Lemma zptr_in z : zptr z ∈ root :: zlp z ++ zrp z.
Proof. destruct z as [|[]]; cbn; set_solver. Qed.

(** ** Frame rules *)

Lemma rep_frame m m' t up :
(forall x, x ∈ tptrs t -> same_item m m' x) -> rep m t up -> rep m' t up.
Proof.
revert up. induction t as [|c l IHl p k r IHr]; intros up Hs; [done|]. cbn in *.
destruct (Hs p) as (-> & -> & -> & -> & ->); [set_solver|].
intros (?&?&?&?&?&?&?). split_and!; try done; [apply IHl|apply IHr]; try done; set_solver.
Qed.

(** Hanging a subtree from another item changes the [p_up] of its top only. *)
Lemma rep_reparent m m' t up up' :
(forall x, x ∈ tptrs t -> x <> tptr t -> same_item m m' x) ->
(t <> Leaf -> same_item (set_up m (tptr t) up') m' (tptr t)) -> NoDup (tptrs t) ->
rep m t up -> rep m' t up'.
Proof.
destruct t as [|c l p k r]; [done|]. cbn [tptrs tptr]. intros Hs Hp Hnd.
destruct Hp as (E1 & E2 & E3 & E4 & E5); [done|]. cbn in *. rewrite upd_eq in E3.
rewrite E1, E2, E3, E4, E5. intros (?&?&?&?&?&?&?). nodup_simpl.
split_and!; try done; (eapply rep_frame; [|done]); intros x Hx; apply Hs; (set_solver || ne_solve).
Qed.

Lemma repz_frame m m' z h :
(forall x, x ∈ root :: zlp z ++ zrp z -> same_item m m' x) -> repz m z h -> repz m' z h.
Proof.
revert h. induction z as [|f z IH]; intros h Hs.
- cbn. destruct (Hs root) as (-> & _); [set_solver|done].
- destruct f as [c p k r|c l p k]; cbn [repz zlp zrp] in *;
    (destruct (Hs p) as (-> & -> & -> & -> & ->); [set_solver|]);
    intros (?&?&?&?&?&?&?); split_and!; try done;
    [eapply rep_frame; [|done]|apply IH; [|done]|eapply rep_frame; [|done]|apply IH; [|done]];
    intros x Hx; apply Hs; set_solver.
Qed.

(** Storing a pointer in the hole of a context. *)
Lemma repz_set_hole m z h h' :
NoDup (root :: zlp z ++ zrp z) -> repz m z h -> repz (child_set m (zslot z) h') z h'.
Proof.
intros Hnd. destruct z as [|[c p k r|c l p k] z]; cbn [zslot child_set repz zlp zrp] in *.
- intros _. cbn. by rewrite upd_eq.
- nodup_simpl. intros (?&?&?&?&?&?&?). cbn. rewrite upd_eq. split_and!; try done.
  + eapply rep_frame; [|done]. intros x Hx. repeat split; cbn. rewrite upd_ne; [done|ne_solve].
  + eapply repz_frame; [|done]. intros x Hx. repeat split; cbn. rewrite upd_ne; [done|ne_solve].
- nodup_simpl. intros (?&?&?&?&?&?&?). cbn. rewrite upd_eq. split_and!; try done.
  + eapply rep_frame; [|done]. intros x Hx. repeat split; cbn. rewrite upd_ne; [done|ne_solve].
  + eapply repz_frame; [|done]. intros x Hx. repeat split; cbn. rewrite upd_ne; [done|ne_solve].
Qed.

(** ** Moving the position *)

Lemma at_fill m f z t : at_ m (f :: z) t <-> at_ m z (fill f t).
Proof. unfold at_. destruct f; cbn; tauto. Qed.

Lemma at_plug m z t : at_ m z t <-> at_ m [] (plug z t).
Proof. revert t. induction z as [|f z IH]; intros t; [done|]. by rewrite at_fill, IH. Qed.

Lemma sep_fill f z t : sep (f :: z) t <-> sep z (fill f t).
Proof. split; apply sep_cong; by rewrite zelems_fill. Qed.
End Sentinels.
End Representation.

(** ** Pointers to child fields, and rotations *)

Section Rotations.
Context {K : Type}.
Variable map : cl_qmap_t.
Implicit Types (m : mem K) (t l r : tree K) (z : list (zframe K)).
Abbreviation root := (qm_root map).
Abbreviation nil := (qm_nil map).
Abbreviation tptr := (tptr nil).
Abbreviation zptr := (zptr root).
Abbreviation zslot := (zslot root).
Abbreviation rep := (rep nil).
Abbreviation repz := (repz root nil).
Abbreviation at_ := (at_ root nil).
Abbreviation sep := (sep root nil).

(** The items of a position, with the root sentinel: what the tree surgery may
    write. *)
Definition dom_of z t : list ptr := root :: zlp z ++ tptrs t ++ zrp z.

Lemma dom_of_cong z t z' t' : zelems z t = zelems z' t' -> dom_of z t = dom_of z' t'.
Proof.
  unfold dom_of. intros H. apply (f_equal (fmap fst)) in H. rewrite !zelems_fst in H. by rewrite H.
Qed.

Lemma child_get_set m s (v : ptr) : child_get (child_set m s v) s = v.
Proof. destruct s; cbn; by rewrite upd_eq. Qed.

(** The item at a position is the left child of its parent exactly when the
    position is in the left subtree (or at the top). *)
Lemma is_left_child_at m z t :
  at_ m z t -> sep z t -> p_up m (tptr t) = zptr z ->
  (t = Leaf -> match z with InRight _ l _ _ :: _ => l <> Leaf | _ => True end) ->
  __cl_map_is_left_child m (tptr t) =
  match z with InRight _ _ _ _ :: _ => false | _ => true end.
Proof.
  intros [Hz Ht] Hsep Hup Hl. unfold __cl_map_is_left_child. rewrite Hup.
  destruct z as [|[c p k r|c l p k] z]; cbn in *.
  - by rewrite bool_decide_true.
  - apply bool_decide_true, Hz.
  - apply bool_decide_false. destruct Hz as [-> _]. unfold RbTree.sep in Hsep. cbn in Hsep.
    destruct l as [|lc ll lp lk lr], t as [|tc tl tp tk tr]; cbn in *; try (by destruct Hl);
      nodup_simpl; ne_solve.
Qed.

Lemma parent_ptr_at m z t :
  at_ m z t -> sep z t -> t <> Leaf ->
  __cl_map_get_parent_ptr_to_item m (tptr t) = zslot z /\ p_up m (tptr t) = zptr z.
Proof.
  intros Hat Hsep Hne. assert (p_up m (tptr t) = zptr z) as Hup.
  { destruct t; [done|]. by destruct Hat as [_ (_ & _ & ? & _)]. }
  split; [|done]. unfold __cl_map_get_parent_ptr_to_item.
  rewrite (is_left_child_at m z t) by (done || by intros ->).
  rewrite Hup. by destruct z as [|[] z].
Qed.

(** The memory a left rotation leaves, with the intermediate reads resolved. *)
Definition rotated_left m z (a c b : ptr) : mem K :=
  let m1 := set_right (set_up (child_set m (zslot z) c) c (zptr z)) a b in
  let m2 := if decide (b = nil) then m1 else set_up m1 b a in
  set_up (set_left m2 c a) a c.

Definition rotated_right m z (a c b : ptr) : mem K :=
  let m1 := set_left (set_up (child_set m (zslot z) c) c (zptr z)) a b in
  let m2 := if decide (b = nil) then m1 else set_up m1 b a in
  set_up (set_right m2 c a) a c.

Lemma rot_left_eq m z (a c b : ptr) :
  __cl_map_get_parent_ptr_to_item m a = zslot z -> p_up m a = zptr z ->
  p_right m a = c -> p_left m c = b -> zptr z <> a -> zptr z <> c -> a <> c ->
  __cl_map_rot_left m map a = rotated_left m z a c b.
Proof.
  intros Hs Hu Hr Hl N1 N2 N3. unfold __cl_map_rot_left, rotated_left. rewrite Hs, Hr.
  destruct z as [|[c' p k r|c' l p k] z]; cbn in *; upd_simpl; rewrite ?Hu, ?Hl;
    case_decide; cbn; by upd_simpl.
Qed.

Lemma rot_right_eq m z (a c b : ptr) :
  __cl_map_get_parent_ptr_to_item m a = zslot z -> p_up m a = zptr z ->
  p_left m a = c -> p_right m c = b -> zptr z <> a -> zptr z <> c -> a <> c ->
  __cl_map_rot_right m map a = rotated_right m z a c b.
Proof.
  intros Hs Hu Hr Hl N1 N2 N3. unfold __cl_map_rot_right, rotated_right. rewrite Hs, Hr.
  destruct z as [|[c' p k r|c' l p k] z]; cbn in *; upd_simpl; rewrite ?Hu, ?Hl;
    case_decide; cbn; by upd_simpl.
Qed.

Lemma child_set_off m z (v x : ptr) :
  x <> zptr z -> same_item m (child_set m (zslot z) v) x.
Proof. intros. destruct z as [|[]]; cbn in *; repeat split; cbn; by rewrite ?upd_ne. Qed.

Lemma rotated_left_off m z (a c b x : ptr) :
  x <> a -> x <> c -> (x = b -> x = nil) ->
  same_item (child_set m (zslot z) c) (rotated_left m z a c b) x.
Proof.
  intros ? ? Hb. unfold rotated_left. destruct (decide (b = nil)); repeat split; cbn;
    rewrite ?upd_ne by (done || naive_solver); done.
Qed.

Lemma rotated_right_off m z (a c b x : ptr) :
  x <> a -> x <> c -> (x = b -> x = nil) ->
  same_item (child_set m (zslot z) c) (rotated_right m z a c b) x.
Proof.
  intros ? ? Hb. unfold rotated_right. destruct (decide (b = nil)); repeat split; cbn;
    rewrite ?upd_ne by (done || naive_solver); done.
Qed.

Lemma same_item_trans m1 m2 m3 x :
  same_item m1 m2 x -> same_item m2 m3 x -> same_item m1 m3 x.
Proof. intros (?&?&?&?&?) (?&?&?&?&?). split_and!; congruence. Qed.

(** What [sep] says, in the form the rotations use. *)
Lemma sep_facts z t :
  sep z t ->
  (forall x, x ∈ nil :: tptrs t -> x <> zptr z) /\
  (forall x, x ∈ root :: zlp z ++ zrp z -> x ∉ nil :: tptrs t) /\
  NoDup (nil :: tptrs t) /\ NoDup (root :: zlp z ++ zrp z).
Proof.
  unfold RbTree.sep. intros H. split_and!.
  - intros x Hx. pose proof (zptr_in root z) as Hz. revert Hz. generalize (zptr z).
    intros y Hy. nodup_simpl. ne_solve.
  - intros x Hx Hx'. nodup_simpl. ne_close.
  - nodup_simpl. apply NoDup_cons. split; [ne_solve|done].
  - nodup_simpl. apply NoDup_cons. split; [ne_solve|].
    apply NoDup_app. split_and!; [done|ne_solve|done].
Qed.

Lemma tptr_in_nil t : tptr t ∈ nil :: tptrs t.
Proof. destruct t; cbn; set_solver. Qed.

(** Only the items of the position change in a rotation. *)
Lemma rotated_left_keeps m z t (a c b : ptr) :
  a ∈ tptrs t -> c ∈ tptrs t -> b ∈ nil :: tptrs t ->
  keeps (dom_of z t) m (rotated_left m z a c b).
Proof.
  intros Ha Hc Hb. split_and!.
  1,2: unfold rotated_left; destruct z as [|[]], (decide (b = nil)); done.
  - intros x Hx. unfold dom_of in Hx. pose proof (zptr_in root z).
    eapply same_item_trans; [apply (child_set_off m z c); ne_solve|].
    apply rotated_left_off; [ne_solve..|]. intros ->. apply elem_of_cons in Hb as [?|?]; [done|ne_solve].
Qed.

Lemma rotated_right_keeps m z t (a c b : ptr) :
  a ∈ tptrs t -> c ∈ tptrs t -> b ∈ nil :: tptrs t ->
  keeps (dom_of z t) m (rotated_right m z a c b).
Proof.
  intros Ha Hc Hb. split_and!.
  1,2: unfold rotated_right; destruct z as [|[]], (decide (b = nil)); done.
  - intros x Hx. unfold dom_of in Hx. pose proof (zptr_in root z).
    eapply same_item_trans; [apply (child_set_off m z c); ne_solve|].
    apply rotated_right_off; [ne_solve..|]. intros ->. apply elem_of_cons in Hb as [?|?]; [done|ne_solve].
Qed.

(** The subtrees [W], [B], [Z] and the context around a rotation of [a] and
    [c]: all stay where they are, except that [B] changes parent. *)
Lemma rotation_frames m m' z W B Z (a c h u2 : ptr) :
  (forall x, x ∈ root :: zlp z ++ zrp z ->
     x ∉ nil :: tptrs W ++ a :: tptrs B ++ c :: tptrs Z) ->
  NoDup (nil :: tptrs W ++ a :: tptrs B ++ c :: tptrs Z) -> NoDup (root :: zlp z ++ zrp z) ->
  (forall x, x <> a -> x <> c -> (x = tptr B -> x = nil) ->
     same_item (child_set m (zslot z) h) m' x) ->
  (B <> Leaf -> same_item (set_up m (tptr B) u2) m' (tptr B)) ->
  (forall h0, repz m z h0 -> repz m' z h) /\
  (forall t u, t = W \/ t = Z -> rep m t u -> rep m' t u) /\
  (forall u, rep m B u -> rep m' B u2).
Proof.
  intros Hd Hnd Hnz Hoff HB. pose proof (tptr_in_nil B) as HBin.
  assert (forall x, x ∈ tptrs W ++ tptrs B ++ tptrs Z -> x <> tptr B -> same_item m m' x) as Hoff2.
  { intros x Hx Hxb. eapply same_item_trans; [apply (child_set_off m z h)|].
    - intros ->. apply (Hd (zptr z)); [apply zptr_in|set_solver].
    - apply Hoff; [nodup_simpl; ne_solve..|done]. }
  split_and!.
  - intros h0 Hz. eapply repz_frame; [|by eapply repz_set_hole]. intros x Hx.
    specialize (Hd x Hx). apply Hoff; [ne_solve..|]. intros ->. exfalso. apply Hd. set_solver.
  - intros t u Ht. apply rep_frame. intros x Hx. apply Hoff2; [destruct Ht; subst; set_solver|].
    revert HBin. generalize (tptr B). intros y Hy. destruct Ht; subst; nodup_simpl; ne_solve.
  - intros u. apply rep_reparent; [|done|nodup_simpl; done]. intros x Hx. apply Hoff2. set_solver.
Qed.

Lemma rotated_left_fields m z (a c b : ptr) :
  c <> a -> c <> b -> a <> b -> a <> zptr z -> c <> zptr z ->
  let m' := rotated_left m z a c b in
  (p_left m' c = a /\ p_right m' c = p_right m c /\ p_up m' c = zptr z /\
   color m' c = color m c /\ key m' c = key m c) /\
  (p_left m' a = p_left m a /\ p_right m' a = b /\ p_up m' a = c /\
   color m' a = color m a /\ key m' a = key m a) /\
  (b <> nil -> b <> zptr z -> same_item (set_up m b a) m' b) /\
  color m' = color m.
Proof.
  intros ? ? ? Na Nc m'. subst m'.
  destruct (child_set_off m z c a Na) as (?&?&?&?&?), (child_set_off m z c c Nc) as (?&?&?&?&?).
  unfold rotated_left. split_and!.
  1-10: destruct (decide (b = nil)); cbn; unfold upd; repeat case_decide; congruence.
  - intros ? Nb. destruct (child_set_off m z c b Nb) as (?&?&?&?&?). rewrite decide_False by done.
    repeat split; cbn; unfold upd; repeat case_decide; congruence.
  - by destruct z as [|[]], (decide (b = nil)).
Qed.

Lemma rotated_right_fields m z (a c b : ptr) :
  c <> a -> c <> b -> a <> b -> a <> zptr z -> c <> zptr z ->
  let m' := rotated_right m z a c b in
  (p_right m' c = a /\ p_left m' c = p_left m c /\ p_up m' c = zptr z /\
   color m' c = color m c /\ key m' c = key m c) /\
  (p_right m' a = p_right m a /\ p_left m' a = b /\ p_up m' a = c /\
   color m' a = color m a /\ key m' a = key m a) /\
  (b <> nil -> b <> zptr z -> same_item (set_up m b a) m' b) /\
  color m' = color m.
Proof.
  intros ? ? ? Na Nc m'. subst m'.
  destruct (child_set_off m z c a Na) as (?&?&?&?&?), (child_set_off m z c c Nc) as (?&?&?&?&?).
  unfold rotated_right. split_and!.
  1-10: destruct (decide (b = nil)); cbn; unfold upd; repeat case_decide; congruence.
  - intros ? Nb. destruct (child_set_off m z c b Nb) as (?&?&?&?&?). rewrite decide_False by done.
    repeat split; cbn; unfold upd; repeat case_decide; congruence.
  - by destruct z as [|[]], (decide (b = nil)).
Qed.

(** Rotating to the left: the item [a] goes down to the left of its right
    child [c]. *)
Lemma rot_left_spec m z ca W a ka cc B c kc Z :
  let t := Node ca W a ka (Node cc B c kc Z) in
  let t' := Node cc (Node ca W a ka B) c kc Z in
  at_ m z t -> sep z t ->
  at_ (__cl_map_rot_left m map a) z t' /\ sep z t' /\
  keeps (dom_of z t) m (__cl_map_rot_left m map a) /\
  color (__cl_map_rot_left m map a) = color m.
Proof.
  intros t t' Hat Hsep. destruct (parent_ptr_at m z t Hat Hsep ltac:(done)) as [Hpp Hup].
  destruct (sep_facts z t Hsep) as (Hzn & Hzd & Hnt & Hnz). destruct Hat as [Hz Ht].
  assert (sep z t') as Hsep'.
  { revert Hsep. apply sep_cong, zelems_cong. cbn. by rewrite <- (assoc_L (++)). }
  cbn in Ht, Hnt, Hzn, Hzd, Hz. rewrite <- ?(assoc_L (++)) in Hnt, Hzn, Hzd. cbn in Hnt, Hzn, Hzd.
  destruct Ht as (Wl & Wr & _ & Wc & Wk & HW & Bl & Br & Bu & Bc & Bk & HB & HZ).
  assert (c <> a /\ c <> tptr B /\ a <> tptr B /\ (B <> Leaf -> tptr B <> nil))
    as (N1 & N2 & N3 & N4).
  { pose proof (tptr_in_nil B) as HBin. pose proof (tptr_in nil B) as HBt. revert HBin HBt.
    generalize (tptr B). intros y Hy1 Hy2. nodup_simpl. split_and!; [ne_solve..|].
    intros Hl. specialize (Hy2 Hl). ne_solve. }
  rewrite (rot_left_eq m z a c (tptr B)); try done; [|apply not_eq_sym, Hzn; set_solver..].
  pose proof (tptr_in_nil B) as HBin.
  destruct (rotated_left_fields m z a c (tptr B)) as (FU & FD & FB & FC);
    [done..|apply Hzn; set_solver|apply Hzn; set_solver|].
  destruct (rotation_frames m (rotated_left m z a c (tptr B)) z W B Z a c c a)
    as (F1 & F2 & F3); try done.
  { intros x ???. by apply rotated_left_off. }
  { intros HBL. apply FB; [auto|apply Hzn; set_solver]. }
  split_and!; [split; [by eapply F1|]|done|apply rotated_left_keeps; cbn; set_solver|done].
  subst t'. cbn [RbTree.rep RbTree.tptr].
  destruct FU as (->&->&->&->&->), FD as (D1&D2&D3&D4&D5).
  rewrite D1, D2, D3, D4, D5. split_and!; try done; [apply (F2 W); [tauto|done]|by eapply F3|apply (F2 Z); [tauto|done]].
Qed.

(** Rotating to the right: the item [c] goes down to the right of its left
    child [a]. *)
Lemma rot_right_spec m z ca W a ka cc B c kc Z :
  let t := Node cc (Node ca W a ka B) c kc Z in
  let t' := Node ca W a ka (Node cc B c kc Z) in
  at_ m z t -> sep z t ->
  at_ (__cl_map_rot_right m map c) z t' /\ sep z t' /\
  keeps (dom_of z t) m (__cl_map_rot_right m map c) /\
  color (__cl_map_rot_right m map c) = color m.
Proof.
  intros t t' Hat Hsep. destruct (parent_ptr_at m z t Hat Hsep ltac:(done)) as [Hpp Hup].
  destruct (sep_facts z t Hsep) as (Hzn & Hzd & Hnt & Hnz). destruct Hat as [Hz Ht].
  assert (sep z t') as Hsep'.
  { revert Hsep. apply sep_cong, zelems_cong. cbn. by rewrite <- (assoc_L (++)). }
  cbn in Ht, Hnt, Hzn, Hzd, Hz. rewrite <- ?(assoc_L (++)) in Hnt, Hzn, Hzd. cbn in Hnt, Hzn, Hzd.
  destruct Ht as (Wl & Wr & _ & Wc & Wk & (Bl & Br & Bu & Bc & Bk & HW & HB) & HZ).
  assert (a <> c /\ a <> tptr B /\ c <> tptr B /\ (B <> Leaf -> tptr B <> nil))
    as (N1 & N2 & N3 & N4).
  { pose proof (tptr_in_nil B) as HBin. pose proof (tptr_in nil B) as HBt. revert HBin HBt.
    generalize (tptr B). intros y Hy1 Hy2. nodup_simpl. split_and!; [ne_solve..|].
    intros Hl. specialize (Hy2 Hl). ne_solve. }
  rewrite (rot_right_eq m z c a (tptr B)); try done; [|apply not_eq_sym, Hzn; set_solver..].
  pose proof (tptr_in_nil B) as HBin.
  destruct (rotated_right_fields m z c a (tptr B)) as (FU & FD & FB & FC);
    [done..|apply Hzn; set_solver|apply Hzn; set_solver|].
  destruct (rotation_frames m (rotated_right m z c a (tptr B)) z W B Z a c a c)
    as (F1 & F2 & F3); try done.
  { intros x ???. by apply rotated_right_off. }
  { intros HBL. apply FB; [auto|apply Hzn; set_solver]. }
  split_and!; [split; [by eapply F1|]|done|apply rotated_right_keeps; cbn; set_solver|done].
  subst t'. cbn [RbTree.rep RbTree.tptr].
  destruct FU as (->&->&->&->&->), FD as (D1&D2&D3&D4&D5).
  rewrite D1, D2, D3, D4, D5. split_and!; try done; [apply (F2 W); [tauto|done]|by eapply F3|apply (F2 Z); [tauto|done]].
Qed.

End Rotations.
