(* ===== verification/RbInsert.v ===== *)
(** * Red-black balance, and rebalancing after an insertion

    The balance condition on trees and on contexts, and the proof that
    [__cl_map_ins_bal] terminates, restores the condition, keeps the order of the
    items and touches no memory outside the tree. *)

From S2P Require Import Prelude Qlist RbMap RbTree.

(** ** Balance *)

Section Balance.
Context {K : Type}.
Implicit Types (t l r : tree K) (z : list (zframe K)).

(** [rbt c n t]: no red item has a red child, every path from the top to a leaf
    has [n] black items, and the top has colour [c]. *)
Inductive rbt : cl_map_color_t -> nat -> tree K -> Prop :=
| rbt_leaf : rbt CL_MAP_BLACK 0 Leaf
| rbt_red n l p k r :
    rbt CL_MAP_BLACK n l -> rbt CL_MAP_BLACK n r -> rbt CL_MAP_RED n (Node CL_MAP_RED l p k r)
| rbt_black n cl cr l p k r :
    rbt cl n l -> rbt cr n r -> rbt CL_MAP_BLACK (S n) (Node CL_MAP_BLACK l p k r).

(** [rbz pc n z]: a tree of black height [n] fits at the hole of [z], under a
    parent of colour [pc]; the top of the whole tree is black. *)
Inductive rbz : cl_map_color_t -> nat -> list (zframe K) -> Prop :=
| rbz_top n : rbz CL_MAP_BLACK n []
| rbz_red_l n p k r z :
    rbt CL_MAP_BLACK n r -> z <> [] -> rbz CL_MAP_BLACK n z ->
    rbz CL_MAP_RED n (InLeft CL_MAP_RED p k r :: z)
| rbz_red_r n p k l z :
    rbt CL_MAP_BLACK n l -> z <> [] -> rbz CL_MAP_BLACK n z ->
    rbz CL_MAP_RED n (InRight CL_MAP_RED l p k :: z)
| rbz_black_l n c pc p k r z :
    rbt c n r -> rbz pc (S n) z -> rbz CL_MAP_BLACK n (InLeft CL_MAP_BLACK p k r :: z)
| rbz_black_r n c pc p k l z :
    rbt c n l -> rbz pc (S n) z -> rbz CL_MAP_BLACK n (InRight CL_MAP_BLACK l p k :: z).

Definition balanced t : Prop := exists c n, rbt c n t.

Lemma rbt_tcolor c n t : rbt c n t -> tcolor t = c.
Proof. by destruct 1. Qed.

Lemma rb_plug c pc n z t :
  rbt c n t -> rbz pc n z -> c = CL_MAP_BLACK \/ pc = CL_MAP_BLACK ->
  exists c' n', rbt c' n' (plug z t) /\ (z = [] /\ c' = c \/ c' = CL_MAP_BLACK).
Proof.
  revert c pc n t. induction z as [|f z IH]; intros c pc n t Ht Hz Hc; [by eauto 10|].
  inversion Hz; subst; cbn [plug fill].
  1,2: (assert (c = CL_MAP_BLACK) as -> by naive_solver);
    match goal with H : rbz _ ?n ?z |- context [plug ?z ?T] =>
      destruct (IH CL_MAP_RED CL_MAP_BLACK n T) as (c' & n' & ? & Hr);
        [by constructor|done|by right|] end; exists c', n'; naive_solver.
  all: match goal with H : rbz ?pc (S ?n) ?z |- context [plug ?z ?T] =>
      destruct (IH CL_MAP_BLACK pc (S n) T) as (c' & n' & ? & Hr);
        [by econstructor|done|by left|] end; exists c', n'; naive_solver.
Qed.

Lemma rb_unplug N z t :
  rbt CL_MAP_BLACK N (plug z t) ->
  exists c pc n, rbt c n t /\ rbz pc n z /\
    (c = CL_MAP_RED -> pc = CL_MAP_BLACK /\ z <> []).
Proof.
  revert t. induction z as [|f z IH]; intros t Ht.
  - eexists _, _, _. split; [done|]. split; [constructor|done].
  - cbn in Ht. destruct (IH _ Ht) as (c & pc & n & Hf & Hz & Hc).
    destruct f as [fc p k r|fc l p k]; cbn in Hf; inversion Hf; subst.
    1,3: destruct Hc as [-> ?]; [done|]; eexists CL_MAP_BLACK, CL_MAP_RED, n;
         split; [done|]; split; [by constructor|done].
    all: eexists _, CL_MAP_BLACK, _; split; [done|]; split; [by econstructor|done].
Qed.
End Balance.

(** ** Positions: a subtree and its context, stored in memory *)

Section Positions.
Context {K : Type}.
Variable map : cl_qmap_t.
Implicit Types (m : mem K) (t l r : tree K) (z : list (zframe K)).
Abbreviation root := (qm_root map).
Abbreviation nil := (qm_nil map).
Abbreviation tptr := (tptr nil).
Abbreviation zptr := (zptr root).
Abbreviation rep := (rep nil).

Definition pos m z t : Prop :=
  at_ root nil m z t /\ sep root nil z t /\
  color m nil = CL_MAP_BLACK /\ color m root = CL_MAP_BLACK.

Lemma pos_fill m f z t : pos m (f :: z) t <-> pos m z (fill f t).
Proof. unfold pos. by rewrite at_fill, sep_fill. Qed.

Lemma dom_of_fill f z t : dom_of map (f :: z) t = dom_of map z (fill f t).
Proof. apply dom_of_cong, zelems_fill. Qed.

Lemma color_tptr m t up : rep m t up -> color m nil = CL_MAP_BLACK -> color m (tptr t) = tcolor t.
Proof. destruct t; cbn; naive_solver. Qed.

(** Recolouring the item at a position. *)
Lemma set_color_pos m z c c' l p k r :
  pos m z (Node c l p k r) ->
  pos (set_color m p c') z (Node c' l p k r) /\
  keeps (dom_of map z (Node c l p k r)) m (set_color m p c').
Proof.
  intros ([Hz Ht] & Hsep & Hn & Hr). destruct (sep_facts map _ _ Hsep) as (Hzn & Hzd & Hnt & Hnz).
  cbn in *. assert (forall x, x <> p -> same_item m (set_color m p c') x) as Hoff.
  { intros x Hx. repeat split; cbn. by rewrite upd_ne. }
  destruct Ht as (?&?&?&?&?&?&?). unfold pos. split_and!.
  - split; [eapply repz_frame; [|done]; intros x Hx; apply Hoff; specialize (Hzd x Hx); ne_solve|].
    cbn. rewrite upd_eq. split_and!; try done; (eapply rep_frame; [|done]); intros x Hx;
      apply Hoff; nodup_simpl; ne_solve.
  - revert Hsep. by apply sep_cong.
  - cbn. rewrite upd_ne; [done|]. nodup_simpl. ne_solve.
  - cbn. rewrite upd_ne; [done|]. specialize (Hzd root). ne_solve.
  - split_and!; [done..|]. intros x Hx. apply Hoff. unfold dom_of in Hx. cbn in Hx. ne_solve.
Qed.

(** Rotations of a position. *)
Lemma rot_left_pos m z ca W a ka cc B c kc Z :
  pos m z (Node ca W a ka (Node cc B c kc Z)) ->
  pos (__cl_map_rot_left m map a) z (Node cc (Node ca W a ka B) c kc Z) /\
  keeps (dom_of map z (Node ca W a ka (Node cc B c kc Z))) m (__cl_map_rot_left m map a).
Proof.
  intros (Hat & Hsep & Hn & Hr). destruct (rot_left_spec map _ _ _ _ _ _ _ _ _ _ _ Hat Hsep) as (?&?&?&Hc).
  unfold pos. by rewrite Hc.
Qed.

Lemma rot_right_pos m z ca W a ka cc B c kc Z :
  pos m z (Node cc (Node ca W a ka B) c kc Z) ->
  pos (__cl_map_rot_right m map c) z (Node ca W a ka (Node cc B c kc Z)) /\
  keeps (dom_of map z (Node cc (Node ca W a ka B) c kc Z)) m (__cl_map_rot_right m map c).
Proof.
  intros (Hat & Hsep & Hn & Hr). destruct (rot_right_spec map _ _ _ _ _ _ _ _ _ _ _ Hat Hsep) as (?&?&?&Hc).
  unfold pos. by rewrite Hc.
Qed.

(** Whether the item at a position is a left child. *)
Lemma is_left_child_pos m z t :
  pos m z t -> t <> Leaf ->
  __cl_map_is_left_child m (tptr t) =
  match z with InRight _ _ _ _ :: _ => false | _ => true end.
Proof.
  intros (Hat & Hsep & _ & _) Ht. apply (is_left_child_at map); try done.
  by destruct (parent_ptr_at map m z t Hat Hsep Ht).
Qed.
End Positions.

(** ** Rebalancing after an insertion *)

Section InsBal.
Context {K : Type}.
Variable map : cl_qmap_t.
Implicit Types (m : mem K) (t l r : tree K) (z : list (zframe K)).
Abbreviation root := (qm_root map).
Abbreviation nil := (qm_nil map).
Abbreviation tptr := (tptr nil).
Abbreviation zptr := (zptr root).
Abbreviation pos := (pos map).

(** From [m], the position [z], [t] has been reworked into [z'], [t']. *)
Definition step_to m z t m' z' t' : Prop :=
  pos m' z' t' /\ zelems z' t' = zelems z t /\ keeps (dom_of map z t) m m'.

Lemma step_to_trans m1 z1 t1 m2 z2 t2 m3 z3 t3 :
  step_to m1 z1 t1 m2 z2 t2 -> step_to m2 z2 t2 m3 z3 t3 -> step_to m1 z1 t1 m3 z3 t3.
Proof.
  intros (_ & E1 & H1) (? & E2 & H2). split_and!; [done|congruence|].
  eapply keeps_trans; [done|]. by rewrite <- (dom_of_cong map z2 t2 z1 t1).
Qed.

Lemma step_to_refl m z t : pos m z t -> step_to m z t m z t.
Proof. intros. split_and!; [done..|apply keeps_refl]. Qed.

Lemma step_to_up m f z t : pos m (f :: z) t -> step_to m (f :: z) t m z (fill f t).
Proof. intros H. rewrite pos_fill in H. split_and!; [done|by rewrite zelems_fill|apply keeps_refl]. Qed.

Lemma step_to_down m f z t : pos m z (fill f t) -> step_to m z (fill f t) m (f :: z) t.
Proof. intros H. split_and!; [by rewrite pos_fill|by rewrite zelems_fill|apply keeps_refl]. Qed.

Lemma step_to_color m z c c' l p k r :
  pos m z (Node c l p k r) ->
  step_to m z (Node c l p k r) (set_color m p c') z (Node c' l p k r).
Proof. intros H. destruct (set_color_pos map m z c c' l p k r H). by split_and!. Qed.

Lemma step_to_rot_left m z ca W a ka cc B c kc Z :
  pos m z (Node ca W a ka (Node cc B c kc Z)) ->
  step_to m z (Node ca W a ka (Node cc B c kc Z))
    (__cl_map_rot_left m map a) z (Node cc (Node ca W a ka B) c kc Z).
Proof.
  intros H. destruct (rot_left_pos map _ _ _ _ _ _ _ _ _ _ _ H). split_and!; [done| |done].
  apply zelems_cong. cbn. by rewrite <- (assoc_L (++)).
Qed.

Lemma step_to_rot_right m z ca W a ka cc B c kc Z :
  pos m z (Node cc (Node ca W a ka B) c kc Z) ->
  step_to m z (Node cc (Node ca W a ka B) c kc Z)
    (__cl_map_rot_right m map c) z (Node ca W a ka (Node cc B c kc Z)).
Proof.
  intros H. destruct (rot_right_pos map _ _ _ _ _ _ _ _ _ _ _ H). split_and!; [done| |done].
  apply zelems_cong. cbn. by rewrite <- (assoc_L (++)).
Qed.

(** One more step of a chain. *)
Section Chain.
Context {m z t m' z'} {t' : tree K}.
Lemma next_up f : step_to m z t m' (f :: z') t' -> step_to m z t m' z' (fill f t').
Proof. intros H. eapply step_to_trans; [exact H|]. apply step_to_up, H. Qed.
Lemma next_down f : step_to m z t m' z' (fill f t') -> step_to m z t m' (f :: z') t'.
Proof. intros H. eapply step_to_trans; [exact H|]. apply step_to_down, H. Qed.
End Chain.

Lemma next_color m z t m' z' c c' l p k r :
  step_to m z t m' z' (Node c l p k r) ->
  step_to m z t (set_color m' p c') z' (Node c' l p k r).
Proof. intros H. eapply step_to_trans; [exact H|]. apply step_to_color, H. Qed.
Lemma next_rot_left m z t m' z' ca W a ka cc B c kc Z :
  step_to m z t m' z' (Node ca W a ka (Node cc B c kc Z)) ->
  step_to m z t (__cl_map_rot_left m' map a) z' (Node cc (Node ca W a ka B) c kc Z).
Proof. intros H. eapply step_to_trans; [exact H|]. apply step_to_rot_left, H. Qed.
Lemma next_rot_right m z t m' z' ca W a ka cc B c kc Z :
  step_to m z t m' z' (Node cc (Node ca W a ka B) c kc Z) ->
  step_to m z t (__cl_map_rot_right m' map c) z' (Node ca W a ka (Node cc B c kc Z)).
Proof. intros H. eapply step_to_trans; [exact H|]. apply step_to_rot_right, H. Qed.

(** Reading the links around a position. *)
Lemma pos_up m z t : pos m z t -> t <> Leaf -> p_up m (tptr t) = zptr z.
Proof. intros ([_ Ht] & _) Hne. destruct t; [done|]. apply Ht. Qed.

Lemma pos_frame_l m c p k r z t :
  pos m (InLeft c p k r :: z) t ->
  p_left m p = tptr t /\ p_right m p = tptr r /\ p_up m p = zptr z /\ color m p = c /\
  color m (tptr r) = tcolor r.
Proof.
  intros ([Hz _] & _ & Hn & _). cbn in Hz. destruct Hz as (?&?&?&?&?&Hr&?).
  split_and!; try done. by eapply color_tptr.
Qed.

Lemma pos_frame_r m c l p k z t :
  pos m (InRight c l p k :: z) t ->
  p_left m p = tptr l /\ p_right m p = tptr t /\ p_up m p = zptr z /\ color m p = c /\
  color m (tptr l) = tcolor l.
Proof.
  intros ([Hz _] & _ & Hn & _). cbn in Hz. destruct Hz as (?&?&?&?&?&Hr&?).
  split_and!; try done. by eapply color_tptr.
Qed.

(** The outcome of a rebalancing: it returns, with a tree of the same items in
    the same order, which satisfies [Q]. *)
Definition rebalanced (Q : tree K -> Prop) m z t (o : option (mem K)) : Prop :=
  exists m' T, o = Some m' /\ step_to m z t m' [] T /\ Q T.

Lemma step_to_top m z t m' z' t' : step_to m z t m' z' t' -> step_to m z t m' [] (plug z' t').
Proof.
  revert t'. induction z' as [|f z' IH]; intros t' H; [done|]. apply IH. by apply next_up.
Qed.

Lemma ins_bal_black m z t n :
  pos m z t -> t <> Leaf -> color m (zptr z) = CL_MAP_BLACK ->
  __cl_map_ins_bal (S n) m map (tptr t) = Some m.
Proof. intros H Ht Hc. cbn. rewrite (pos_up m z t H Ht), Hc. by rewrite decide_False. Qed.

(** The end of an iteration with a black uncle on the right: parent and
    grandparent change colours and the grandparent goes down to the right. *)
Lemma ins_tail_left m p kp u g kg U z t n pc fuel :
  pos m (InLeft CL_MAP_RED p kp u :: InLeft CL_MAP_BLACK g kg U :: z) t -> t <> Leaf ->
  rbt CL_MAP_RED n t -> rbt CL_MAP_BLACK n u -> rbt CL_MAP_BLACK n U -> rbz pc (S n) z ->
  let m1 := set_color m p CL_MAP_BLACK in
  let m2 := set_color m1 g CL_MAP_RED in
  rebalanced balanced m (InLeft CL_MAP_RED p kp u :: InLeft CL_MAP_BLACK g kg U :: z) t
    (__cl_map_ins_bal (S fuel) (__cl_map_rot_right m2 map g) map (tptr t)).
Proof.
  intros H Ht Rt Ru RU Rz m1 m2. pose proof (step_to_refl _ _ _ H) as St.
  apply next_up in St. cbn in St. apply (next_color _ _ _ _ _ _ CL_MAP_BLACK) in St.
  apply next_up in St. cbn in St. apply (next_color _ _ _ _ _ _ CL_MAP_RED) in St.
  apply next_rot_right in St.
  pose proof (next_down (InLeft CL_MAP_BLACK p kp (Node CL_MAP_RED u g kg U)) St) as St'.
  pose proof St' as [Hp _]. rewrite (ins_bal_black _ _ _ _ Hp Ht) by apply (pos_frame_l _ _ _ _ _ _ _ Hp).
  eexists _, _. split; [done|]. split; [by apply step_to_top in St|].
  edestruct (rb_plug CL_MAP_BLACK pc (S n) z) as (c' & n' & Hb & _); [|exact Rz|by left|by exists c', n'].
  econstructor; [done|by constructor].
Qed.

Lemma ins_tail_right m p kp u g kg U z t n pc fuel :
  pos m (InRight CL_MAP_RED u p kp :: InRight CL_MAP_BLACK U g kg :: z) t -> t <> Leaf ->
  rbt CL_MAP_RED n t -> rbt CL_MAP_BLACK n u -> rbt CL_MAP_BLACK n U -> rbz pc (S n) z ->
  let m1 := set_color m p CL_MAP_BLACK in
  let m2 := set_color m1 g CL_MAP_RED in
  rebalanced balanced m (InRight CL_MAP_RED u p kp :: InRight CL_MAP_BLACK U g kg :: z) t
    (__cl_map_ins_bal (S fuel) (__cl_map_rot_left m2 map g) map (tptr t)).
Proof.
  intros H Ht Rt Ru RU Rz m1 m2. pose proof (step_to_refl _ _ _ H) as St.
  apply next_up in St. cbn in St. apply (next_color _ _ _ _ _ _ CL_MAP_BLACK) in St.
  apply next_up in St. cbn in St. apply (next_color _ _ _ _ _ _ CL_MAP_RED) in St.
  apply next_rot_left in St.
  pose proof (next_down (InRight CL_MAP_BLACK (Node CL_MAP_RED U g kg u) p kp) St) as St'.
  pose proof St' as [Hp _]. rewrite (ins_bal_black _ _ _ _ Hp Ht) by apply (pos_frame_r _ _ _ _ _ _ _ Hp).
  eexists _, _. split; [done|]. split; [by apply step_to_top in St|].
  edestruct (rb_plug CL_MAP_BLACK pc (S n) z) as (c' & n' & Hb & _); [|exact Rz|by left|by exists c', n'].
  econstructor; [by constructor|done].
Qed.

Definition fcolor (f : zframe K) : cl_map_color_t :=
  match f with InLeft c _ _ _ => c | InRight c _ _ _ => c end.
Definition fset (f : zframe K) (c : cl_map_color_t) : zframe K :=
  match f with InLeft _ p k r => InLeft c p k r | InRight _ l p k => InRight c l p k end.
Definition fptr (f : zframe K) : ptr :=
  match f with InLeft _ p _ _ => p | InRight _ _ p _ => p end.

(** An iteration with a red uncle: both children of the grandparent turn black
    and the grandparent red. *)
Lemma ins_recolor_left m f g kg cU Ul pU kU Ur z t :
  let z0 := f :: InLeft CL_MAP_BLACK g kg (Node cU Ul pU kU Ur) :: z in
  pos m z0 t ->
  step_to m z0 t
    (set_color (set_color (set_color m pU CL_MAP_BLACK) (fptr f) CL_MAP_BLACK) g CL_MAP_RED)
    z (Node CL_MAP_RED (fill (fset f CL_MAP_BLACK) t) g kg (Node CL_MAP_BLACK Ul pU kU Ur)).
Proof.
  intros z0 H. pose proof (step_to_refl _ _ _ H) as St. subst z0.
  do 2 apply next_up in St. cbn [fill] in St.
  apply (next_down (InRight CL_MAP_BLACK (fill f t) g kg)) in St.
  apply (next_color _ _ _ _ _ _ CL_MAP_BLACK) in St. apply next_up in St. cbn [fill] in St.
  apply (next_down (InLeft CL_MAP_BLACK g kg (Node CL_MAP_BLACK Ul pU kU Ur))) in St.
  destruct f as [fc p k r|fc l p k]; cbn [fill fset fptr] in *;
    apply (next_color _ _ _ _ _ _ CL_MAP_BLACK) in St; apply next_up in St; cbn [fill] in St;
    by apply (next_color _ _ _ _ _ _ CL_MAP_RED) in St.
Qed.

Lemma ins_recolor_right m f g kg cU Ul pU kU Ur z t :
  let z0 := f :: InRight CL_MAP_BLACK (Node cU Ul pU kU Ur) g kg :: z in
  pos m z0 t ->
  step_to m z0 t
    (set_color (set_color (set_color m pU CL_MAP_BLACK) (fptr f) CL_MAP_BLACK) g CL_MAP_RED)
    z (Node CL_MAP_RED (Node CL_MAP_BLACK Ul pU kU Ur) g kg (fill (fset f CL_MAP_BLACK) t)).
Proof.
  intros z0 H. pose proof (step_to_refl _ _ _ H) as St. subst z0.
  do 2 apply next_up in St. cbn [fill] in St.
  apply (next_down (InLeft CL_MAP_BLACK g kg (fill f t))) in St.
  apply (next_color _ _ _ _ _ _ CL_MAP_BLACK) in St. apply next_up in St. cbn [fill] in St.
  apply (next_down (InRight CL_MAP_BLACK (Node CL_MAP_BLACK Ul pU kU Ur) g kg)) in St.
  destruct f as [fc p k r|fc l p k]; cbn [fill fset fptr] in *;
    apply (next_color _ _ _ _ _ _ CL_MAP_BLACK) in St; apply next_up in St; cbn [fill] in St;
    by apply (next_color _ _ _ _ _ _ CL_MAP_RED) in St.
Qed.

Lemma rebalanced_trans Q m z t m1 z1 t1 o :
  step_to m z t m1 z1 t1 -> rebalanced Q m1 z1 t1 o -> rebalanced Q m z t o.
Proof. intros S1 (m' & T & ? & S2 & ?). exists m', T. split_and!; [done| |done]. by eapply step_to_trans. Qed.

(** The frames above a red item under a red parent. *)
Lemma rbz_red_inv n z :
  rbz CL_MAP_RED n z ->
  exists f g z' pc cU, z = f :: g :: z' /\ fcolor f = CL_MAP_RED /\
    (forall t, rbt CL_MAP_RED n t -> rbt CL_MAP_BLACK (S n) (fill (fset f CL_MAP_BLACK) t)) /\
    match f with InLeft _ _ _ u => rbt CL_MAP_BLACK n u | InRight _ u _ _ => rbt CL_MAP_BLACK n u end /\
    fcolor g = CL_MAP_BLACK /\ rbz pc (S n) z' /\
    match g with InLeft _ _ _ U => rbt cU n U | InRight _ U _ _ => rbt cU n U end.
Proof.
  intros H. inversion H as [|? ? ? ? z1 Hu Hne Hz1|? ? ? ? z1 Hu Hne Hz1| |]; subst;
    inversion Hz1; subst; try done;
    (do 5 eexists; split; [reflexivity|]; split; [reflexivity|];
     split; [intros; econstructor; eassumption|]; split; [eassumption|];
     split; [reflexivity|]; split; eassumption).
Qed.

Lemma up_set_color m p c x : p_up (set_color m p c) x = p_up m x.
Proof. done. Qed.

(** What the code reads above a red item whose parent is red. *)
Lemma ins_reads m f g z t :
  pos m (f :: g :: z) t -> t <> Leaf ->
  p_up m (tptr t) = fptr f /\ p_up m (fptr f) = fptr g /\ color m (fptr f) = fcolor f /\
  __cl_map_is_left_child m (fptr f) = match g with InLeft _ _ _ _ => true | _ => false end /\
  __cl_map_is_left_child m (tptr t) = match f with InLeft _ _ _ _ => true | _ => false end.
Proof.
  intros Hpos Hne. pose proof (pos_up _ _ _ Hpos Hne) as Hup.
  pose proof (is_left_child_pos map _ _ _ Hpos Hne) as Hleft.
  pose proof Hpos as Hpos1. rewrite pos_fill in Hpos1.
  assert (fill f t <> Leaf) as Hne1 by by destruct f.
  pose proof (pos_up _ _ _ Hpos1 Hne1) as Hup1.
  pose proof (is_left_child_pos map _ _ _ Hpos1 Hne1) as Hleft1.
  destruct f; cbn [fill RbTree.tptr fptr] in *; split_and!; try done;
    try (by destruct g); [eapply pos_frame_l, Hpos|eapply pos_frame_r, Hpos].
Qed.

(** One iteration when the parent is a left child. *)
Lemma ins_iter_left fuel m f g kg U z t n pc cU :
  (forall m z t n pc, length z < S fuel -> pos m z t -> rbt CL_MAP_RED n t -> rbz pc n z ->
     rebalanced balanced m z t (__cl_map_ins_bal (S fuel) m map (tptr t))) ->
  length z < S fuel -> fcolor f = CL_MAP_RED ->
  pos m (f :: InLeft CL_MAP_BLACK g kg U :: z) t -> rbt CL_MAP_RED n t ->
  (forall t, rbt CL_MAP_RED n t -> rbt CL_MAP_BLACK (S n) (fill (fset f CL_MAP_BLACK) t)) ->
  match f with InLeft _ _ _ u => rbt CL_MAP_BLACK n u | InRight _ u _ _ => rbt CL_MAP_BLACK n u end ->
  rbz pc (S n) z -> rbt cU n U ->
  rebalanced balanced m (f :: InLeft CL_MAP_BLACK g kg U :: z) t
    (__cl_map_ins_bal (S (S fuel)) m map (tptr t)).
Proof.
  intros IH Hf Hfc Hpos Rt Hff Hfu Rz RU. assert (t <> Leaf) as Hne by by inversion Rt.
  destruct (ins_reads _ _ _ _ _ Hpos Hne) as (Hup & Hup1 & Hc1 & Hl1 & Hl).
  pose proof Hpos as Hpos1. rewrite pos_fill in Hpos1.
  destruct (pos_frame_l _ _ _ _ _ _ _ Hpos1) as (_ & HgU & _ & _ & HcU). cbn [fptr] in Hup1.
  remember (S fuel) as n1 eqn:En. cbn [__cl_map_ins_bal].
  rewrite Hup, Hc1, decide_True, Hl1, Hup1, HgU, HcU, (rbt_tcolor _ _ _ RU) by done.
  destruct cU.
  - rewrite decide_True by done. unfold ins_recolor. rewrite !up_set_color, !Hup, !Hup1.
    inversion RU; subst U. cbn [RbTree.tptr].
    pose proof (ins_recolor_left _ _ _ _ _ _ _ _ _ _ _ Hpos) as St.
    eapply rebalanced_trans; [exact St|]. rewrite En in *.
    apply (IH _ _ (Node _ _ g kg _) (S n) pc); [done|apply St|constructor; [auto|by econstructor]|done].
  - rewrite decide_False by done. unfold ins_rotate_left. rewrite Hl.
    destruct f as [fc p k u|fc u p k]; cbn [fcolor fptr negb] in *; subst fc.
    + rewrite !up_set_color, !Hup, !Hup1, En. by eapply ins_tail_left.
    + rewrite !Hup. pose proof (step_to_refl _ _ _ Hpos) as St. apply next_up in St. cbn [fill] in St.
      inversion Rt; subst t. apply next_rot_left in St.
      apply (next_down (InLeft CL_MAP_RED _ _ _)) in St.
      eapply rebalanced_trans; [exact St|]. pose proof St as (Hp & _ & _).
      destruct (ins_reads _ _ _ _ _ Hp ltac:(done)) as (Hu2 & Hu3 & _).
      cbn [RbTree.tptr fptr] in Hu2, Hu3. rewrite !up_set_color, !Hu2, !Hu3, En.
      eapply ins_tail_left; [exact Hp|done|by constructor|done..].
Qed.

Lemma ins_iter_right fuel m f g kg U z t n pc cU :
  (forall m z t n pc, length z < S fuel -> pos m z t -> rbt CL_MAP_RED n t -> rbz pc n z ->
     rebalanced balanced m z t (__cl_map_ins_bal (S fuel) m map (tptr t))) ->
  length z < S fuel -> fcolor f = CL_MAP_RED ->
  pos m (f :: InRight CL_MAP_BLACK U g kg :: z) t -> rbt CL_MAP_RED n t ->
  (forall t, rbt CL_MAP_RED n t -> rbt CL_MAP_BLACK (S n) (fill (fset f CL_MAP_BLACK) t)) ->
  match f with InLeft _ _ _ u => rbt CL_MAP_BLACK n u | InRight _ u _ _ => rbt CL_MAP_BLACK n u end ->
  rbz pc (S n) z -> rbt cU n U ->
  rebalanced balanced m (f :: InRight CL_MAP_BLACK U g kg :: z) t
    (__cl_map_ins_bal (S (S fuel)) m map (tptr t)).
Proof.
  intros IH Hf Hfc Hpos Rt Hff Hfu Rz RU. assert (t <> Leaf) as Hne by by inversion Rt.
  destruct (ins_reads _ _ _ _ _ Hpos Hne) as (Hup & Hup1 & Hc1 & Hl1 & Hl).
  pose proof Hpos as Hpos1. rewrite pos_fill in Hpos1.
  destruct (pos_frame_r _ _ _ _ _ _ _ Hpos1) as (HgU & _ & _ & _ & HcU). cbn [fptr] in Hup1.
  remember (S fuel) as n1 eqn:En. cbn [__cl_map_ins_bal].
  rewrite Hup, Hc1, decide_True, Hl1, Hup1, HgU, HcU, (rbt_tcolor _ _ _ RU) by done.
  destruct cU.
  - rewrite decide_True by done. unfold ins_recolor. rewrite !up_set_color, !Hup, !Hup1.
    inversion RU; subst U. cbn [RbTree.tptr].
    pose proof (ins_recolor_right _ _ _ _ _ _ _ _ _ _ _ Hpos) as St.
    eapply rebalanced_trans; [exact St|]. rewrite En in *.
    apply (IH _ _ (Node _ _ g kg _) (S n) pc); [done|apply St|constructor; [by econstructor|auto]|done].
  - rewrite decide_False by done. unfold ins_rotate_right. rewrite Hl.
    destruct f as [fc p k u|fc u p k]; cbn [fcolor fptr negb] in *; subst fc.
    + rewrite !Hup. pose proof (step_to_refl _ _ _ Hpos) as St. apply next_up in St. cbn [fill] in St.
      inversion Rt; subst t. apply next_rot_right in St.
      apply (next_down (InRight CL_MAP_RED _ _ _)) in St.
      eapply rebalanced_trans; [exact St|]. pose proof St as (Hp & _ & _).
      destruct (ins_reads _ _ _ _ _ Hp ltac:(done)) as (Hu2 & Hu3 & _).
      cbn [RbTree.tptr fptr] in Hu2, Hu3. rewrite !up_set_color, !Hu2, !Hu3, En.
      eapply ins_tail_right; [exact Hp|done|by constructor|done..].
    + rewrite !up_set_color, !Hup, !Hup1, En. by eapply ins_tail_right.
Qed.

(** The loop returns within [S (length z)] iterations. *)
Lemma ins_bal_spec fuel : forall m z t n pc,
  length z < fuel -> pos m z t -> rbt CL_MAP_RED n t -> rbz pc n z ->
  rebalanced balanced m z t (__cl_map_ins_bal fuel m map (tptr t)).
Proof.
  induction fuel as [|fuel IH]; intros m z t n pc Hf Hpos Rt Rz; [lia|].
  assert (t <> Leaf) as Hne by by inversion Rt. destruct pc.
  - destruct (rbz_red_inv _ _ Rz) as (f & g & z' & pc & cU & -> & Hfc & Hff & Hfu & Hgc & Rz' & HU).
    cbn in Hf. destruct fuel as [|fuel]; [lia|].
    destruct g as [cg g kg U|cg U g kg]; cbn [fcolor] in Hgc; subst cg;
      [eapply ins_iter_left|eapply ins_iter_right]; done || lia.
  - exists m, (plug z t). split; [|split].
    + apply (ins_bal_black _ z); [done..|].
      inversion Rz; subst; [apply Hpos|eapply pos_frame_l, Hpos|eapply pos_frame_r, Hpos].
    + by apply step_to_top, step_to_refl.
    + destruct (rb_plug CL_MAP_RED CL_MAP_BLACK n z t) as (c'&n'&?&_); [done..|by right|].
      by exists c', n'.
Qed.
End InsBal.
