(* ===== verification/RbRemove.v ===== *)
(** * Rebalancing after a removal

    [__cl_map_del_bal] starts at a subtree that is one black item short.  It is
    proved to terminate, to restore the balance, to keep the order of the items
    and to touch no memory outside the tree. *)

From S2P Require Import Prelude Qlist RbMap RbTree RbInsert.

Section DelBal.
Context {K : Type}.
Variable map : cl_qmap_t.
Implicit Types (m : mem K) (t l r : tree K) (z : list (zframe K)).
Abbreviation root := (qm_root map).
Abbreviation nil := (qm_nil map).
Abbreviation tptr := (tptr nil).
Abbreviation zptr := (zptr root).
Abbreviation pos := (pos map).
Abbreviation step_to := (step_to map).
(** Balanced, with a black top. *)
Definition black_balanced (T : tree K) : Prop := exists n, rbt CL_MAP_BLACK n T.

Abbreviation rebalanced := (rebalanced map black_balanced).

(** A position whose [p_up] is right even at a leaf: the removal stores the
    parent in the nil item before it starts to rebalance there. *)
Definition hang m z t : Prop := pos m z t /\ p_up m (tptr t) = zptr z.

Lemma hang_node m z t : pos m z t -> t <> Leaf -> hang m z t.
Proof. intros H Ht. split; [done|]. by apply pos_up. Qed.

Lemma nil_notin_dom m z t : pos m z t -> nil ∉ dom_of map z t.
Proof. intros (_ & Hsep & _). unfold sep in Hsep. unfold dom_of. nodup_simpl. ne_solve. Qed.

Lemma hang_step m z t m' z' :
  hang m z t -> step_to m z t m' z' t -> zptr z' = zptr z -> hang m' z' t.
Proof.
  intros [H Hu] (H' & _ & (_ & _ & Hk)) Hz. destruct t as [|c l p k r]; [|by apply hang_node].
  split; [done|]. cbn in *. rewrite Hz, <- Hu.
  destruct (Hk nil) as (_ & _ & ? & _); [by apply nil_notin_dom in H|done].
Qed.

Definition blacken t : tree K :=
  match t with Leaf => Leaf | Node _ l p k r => Node CL_MAP_BLACK l p k r end.

Lemma rbt_blacken c n t : rbt c n t -> exists n', rbt CL_MAP_BLACK n' (blacken t) /\
  (c = CL_MAP_RED -> n' = S n) /\ (c = CL_MAP_BLACK -> n' = n).
Proof.
  intros H. inversion H; subst; cbn; eexists; split; try (by econstructor); naive_solver.
Qed.

(** The last assignment of the loop, also when it writes the nil item, which is
    black already. *)
Lemma step_to_blacken m z t :
  pos m z t -> step_to m z t (set_color m (tptr t) CL_MAP_BLACK) z (blacken t).
Proof.
  intros H. destruct t as [|c l p k r]; [|by apply step_to_color]. cbn.
  destruct H as ([Hz _] & Hsep & Hn & Hr).
  assert (forall x, same_item m (set_color m nil CL_MAP_BLACK) x) as Hs.
  { intros x. repeat split; cbn. unfold upd. case_decide; congruence. }
  split_and!; [split_and!; [split; [|done]|done|..]|done|].
  - eapply repz_frame; [|done]. intros; apply Hs.
  - cbn. by rewrite upd_eq.
  - cbn. unfold upd. by case_decide.
  - split_and!; [done..|]. intros; apply Hs.
Qed.

Lemma next_blacken m z t m' z' t' :
  step_to m z t m' z' t' -> step_to m z t (set_color m' (tptr t') CL_MAP_BLACK) z' (blacken t').
Proof. intros H. eapply step_to_trans; [exact H|]. apply step_to_blacken, H. Qed.

(** Leaving the loop: at the top or at a red item. *)
Lemma del_bal_exit m z t n fuel :
  hang m z t -> z = [] \/ tcolor t = CL_MAP_RED ->
  (exists c pc, rbt c n (blacken t) /\ rbz pc n z /\ c = CL_MAP_BLACK) ->
  rebalanced m z t (__cl_map_del_bal (S fuel) m map (tptr t)).
Proof.
  intros [H Hu] Hex (c & pc & Rt & Rz & ->). cbn [__cl_map_del_bal].
  assert (color m (tptr t) = tcolor t) as Hc.
  { destruct H as ([_ Ht] & _ & Hn & _). by eapply color_tptr. }
  rewrite decide_False.
  - eexists _, _. split; [done|].
    split; [by apply step_to_top, next_blacken, step_to_refl|].
    destruct (rb_plug CL_MAP_BLACK pc n z (blacken t)) as (c'&n'&?&Hc'); [done..|by left|].
    exists n'. naive_solver.
  - rewrite Hc, Hu. intros [? Hne]. destruct Hex as [->|?]; done.
Qed.

(** Inside the loop the parent is not the root sentinel. *)
Lemma zptr_not_root m f z t : pos m (f :: z) t -> zptr (f :: z) <> root.
Proof.
  intros (_ & Hsep & _). unfold sep in Hsep. destruct f; cbn in *; nodup_simpl; ne_solve.
Qed.

(** Inversions of the balance condition. *)
Lemma rbz_frame_inv pc n f z :
  rbz pc n (f :: z) ->
  let U := match f with InLeft _ _ _ r => r | InRight _ l _ _ => l end in
  (fcolor f = CL_MAP_RED /\ rbt CL_MAP_BLACK n U /\ z <> [] /\ rbz CL_MAP_BLACK n z) \/
  (fcolor f = CL_MAP_BLACK /\ exists cU pc', rbt cU n U /\ rbz pc' (S n) z).
Proof. intros H. inversion H; subst; cbn; [left|left|right|right]; eauto 10. Qed.

Lemma rbt_black_inv c n l p k r :
  rbt c (S n) (Node CL_MAP_BLACK l p k r) ->
  c = CL_MAP_BLACK /\ exists cl cr, rbt cl n l /\ rbt cr n r.
Proof. intros H. inversion H; subst. eauto. Qed.

(** *** [p_item] is a left child *)

(** What the code reads around the position. *)
Lemma del_reads_left m cp p kp cu Ul u ku Ur z t :
  pos m (InLeft cp p kp (Node cu Ul u ku Ur) :: z) t ->
  p_right m p = u /\ color m p = cp /\ color m u = cu /\ p_left m u = tptr Ul /\ p_right m u = tptr Ur /\
  color m (tptr Ul) = tcolor Ul /\ color m (tptr Ur) = tcolor Ur.
Proof.
  intros ([Hz _] & _ & Hn & _). cbn in Hz.
  destruct Hz as (?&?&_&?&_&(?&?&_&?&_&?&?)&_). split_and!; try done; by eapply color_tptr.
Qed.

(** The uncle is made black. *)
Lemma del_uncle_left_spec m cp p kp U z t n pc :
  hang m (InLeft cp p kp U :: z) t -> rbt CL_MAP_BLACK n t -> rbz pc (S n) (InLeft cp p kp U :: z) ->
  exists m1 cp1 U1 z1,
    del_uncle_left m map (tptr t) = (m1, tptr U1) /\
    step_to m (InLeft cp p kp U :: z) t m1 (InLeft cp1 p kp U1 :: z1) t /\ hang m1 (InLeft cp1 p kp U1 :: z1) t /\
    rbt CL_MAP_BLACK (S n) U1 /\ rbz cp1 (S n) (InLeft cp1 p kp U1 :: z1) /\
    (length z1 = length z \/ cp1 = CL_MAP_RED).
Proof.
  intros Hh Rt Rz. pose proof Hh as [Hpos Hu]. cbn in Hu. unfold del_uncle_left.
  destruct (pos_frame_l map _ _ _ _ _ _ _ Hpos) as (HL & HR & _ & _ & HcU).
  rewrite Hu, HR, HcU.
  pose proof (rbz_frame_inv _ _ _ _ Rz) as Hz. cbn in Hz.
  assert (exists cU, rbt cU (S n) U) as [cU RU] by naive_solver.
  rewrite (rbt_tcolor _ _ _ RU). destruct cU.
  - rewrite decide_True by done. inversion RU as [|? Ul u ku Ur RUl RUr|]; subst U.
    assert (exists pc', cp = CL_MAP_BLACK /\ rbz pc' (S (S n)) z) as (pc' & -> & Rz').
    { destruct Hz as [(_ & Hr & _)|(? & ? & ? & _ & ?)]; [inversion Hr|eauto]. }
    rewrite !up_set_color, !Hu. pose proof (step_to_refl map _ _ _ Hpos) as St.
    apply next_up in St. cbn [fill] in St.
    apply (next_down map (InRight CL_MAP_BLACK t p kp)) in St.
    apply (next_color map _ _ _ _ _ _ CL_MAP_BLACK) in St. apply next_up in St. cbn [fill] in St.
    apply (next_color map _ _ _ _ _ _ CL_MAP_RED) in St. apply next_rot_left in St.
    apply (next_down map (InLeft CL_MAP_BLACK u ku Ur)) in St.
    apply (next_down map (InLeft CL_MAP_RED p kp Ul)) in St.
    pose proof (hang_step _ _ _ _ _ Hh St ltac:(done)) as Hh'. pose proof Hh' as [Hp' Hu'].
    cbn [RbTree.zptr] in Hu'. cbn [RbTree.tptr].
    destruct (pos_frame_l map _ _ _ _ _ _ _ Hp') as (HL' & HR' & _).
    eexists _, CL_MAP_RED, _, _. rewrite Hu', HR'.
    split; [done|]. split_and!; [done..| |by right].
    constructor; [done..|]. by econstructor.
  - rewrite decide_False by done. exists m, cp, U, z. split_and!; [done|by apply step_to_refl|done..| |by left].
    inversion Rz; naive_solver.
Qed.

(** The last rotation: the far nephew is red. *)
Lemma del_outer_left_spec m cp p kp Ul u ku Ur z t n :
  let z0 := InLeft cp p kp (Node CL_MAP_BLACK Ul u ku Ur) :: z in
  hang m z0 t -> rbt CL_MAP_BLACK n t -> rbz cp (S n) z0 -> rbt CL_MAP_RED n Ur ->
  rebalanced m z0 t
    (Some (set_color (del_outer_left m map (tptr t) u) (tptr t) CL_MAP_BLACK)).
Proof.
  intros z0 Hh Rt Rz RUr. pose proof Hh as [Hpos Hu]. cbn in Hu.
  pose proof (rbz_frame_inv _ _ _ _ Rz) as Hz. cbn in Hz.
  assert (exists cl, rbt cl n Ul) as [cl RUl].
  { destruct Hz as [(_ & Hr & _)|(_ & ? & ? & Hr & _)]; apply rbt_black_inv in Hr; naive_solver. }
  destruct (del_reads_left _ _ _ _ _ _ _ _ _ _ _ Hpos) as (HR & Hcp & _ & _ & HuR & _ & _).
  unfold del_outer_left. rewrite !up_set_color, !Hu, Hcp.
  inversion RUr as [|? A w kw Bt RA RB|]; subst Ur.
  pose proof (step_to_refl map _ _ _ Hpos) as St. unfold z0 in *.
  apply next_up in St. cbn [fill] in St.
  apply (next_down map (InRight cp t p kp)) in St.
  apply (next_color map _ _ _ _ _ _ cp) in St. apply next_up in St. cbn [fill] in St.
  apply (next_color map _ _ _ _ _ _ CL_MAP_BLACK) in St.
  apply (next_down map (InRight CL_MAP_BLACK t p kp)) in St.
  apply (next_down map (InRight cp Ul u ku)) in St.
  apply (next_color map _ _ _ _ _ _ CL_MAP_BLACK) in St. do 2 (apply next_up in St; cbn [fill] in St).
  apply next_rot_left in St.
  apply (next_down map (InLeft cp u ku (Node CL_MAP_BLACK A w kw Bt))) in St.
  apply (next_down map (InLeft CL_MAP_BLACK p kp Ul)) in St. apply next_blacken in St.
  cbn [p_right set_color] in *. rewrite HuR. cbn [RbTree.tptr].
  eexists _, _. split; [done|]. split; [by apply step_to_top in St|].
  assert (blacken t = t) as -> by by inversion Rt. cbn [plug fill].
  destruct Hz as [(-> & _ & Hzne & Rz')|(-> & _ & pc & _ & Rz')].
  - edestruct (rb_plug CL_MAP_RED CL_MAP_BLACK (S n) z) as (c'&n'&?&Hc'); [|done|by right|exists n'; naive_solver].
    constructor; econstructor; done.
  - edestruct (rb_plug CL_MAP_BLACK pc (S (S n)) z) as (c'&n'&?&Hc'); [|done|by left|exists n'; naive_solver].
    apply (rbt_black (S n) CL_MAP_BLACK CL_MAP_BLACK); econstructor; done.
Qed.

(** The near nephew is the red one: it takes the uncle's place. *)
Lemma del_inner_left_spec m cp p kp A w kw Bt u ku Ur z t :
  let z0 := InLeft cp p kp (Node CL_MAP_BLACK (Node CL_MAP_RED A w kw Bt) u ku Ur) :: z in
  let z1 := InLeft cp p kp (Node CL_MAP_BLACK A w kw (Node CL_MAP_RED Bt u ku Ur)) :: z in
  hang m z0 t ->
  exists m1, del_inner_left m map (tptr t) u = (m1, w) /\ step_to m z0 t m1 z1 t /\ hang m1 z1 t.
Proof.
  intros z0 z1 Hh. pose proof Hh as [Hpos Hu]. cbn in Hu. unfold z0, z1 in *.
  destruct (del_reads_left _ _ _ _ _ _ _ _ _ _ _ Hpos) as (_ & _ & _ & HuL & _ & _ & _).
  unfold del_inner_left. rewrite HuL. cbn [RbTree.tptr].
  pose proof (step_to_refl map _ _ _ Hpos) as St. apply next_up in St. cbn [fill] in St.
  apply (next_down map (InRight cp t p kp)) in St.
  apply (next_down map (InLeft CL_MAP_BLACK u ku Ur)) in St.
  apply (next_color map _ _ _ _ _ _ CL_MAP_BLACK) in St. apply next_up in St. cbn [fill] in St.
  apply (next_color map _ _ _ _ _ _ CL_MAP_RED) in St. apply next_rot_right in St.
  apply next_up in St. cbn [fill] in St. apply (next_down map (InLeft cp p kp _)) in St.
  pose proof (hang_step _ _ _ _ _ Hh St ltac:(done)) as Hh'. pose proof Hh' as [Hp' Hu'].
  cbn [RbTree.zptr] in Hu'. eexists. rewrite Hu'.
  destruct (del_reads_left _ _ _ _ _ _ _ _ _ _ _ Hp') as (-> & _). by split_and!.
Qed.

(** One iteration. *)
Lemma del_iter_left fuel m cp p kp U z t n pc :
  (forall m z t n c pc, length z < S fuel -> hang m z t -> rbt c n t -> rbz pc (S n) z ->
     rebalanced m z t (__cl_map_del_bal (S fuel) m map (tptr t))) ->
  length z < S fuel ->
  hang m (InLeft cp p kp U :: z) t -> rbt CL_MAP_BLACK n t -> rbz pc (S n) (InLeft cp p kp U :: z) ->
  rebalanced m (InLeft cp p kp U :: z) t (__cl_map_del_bal (S (S fuel)) m map (tptr t)).
Proof.
  intros IH Hf Hh Rt Rz. pose proof Hh as [Hpos Hu].
  destruct (del_uncle_left_spec _ _ _ _ _ _ _ _ _ Hh Rt Rz)
    as (m1 & cp1 & U1 & z1 & E1 & S1 & Hh1 & RU1 & Rz1 & Hlen).
  assert (color m (tptr t) = CL_MAP_BLACK) as Hct.
  { destruct Hpos as ([_ Ht] & _ & Hn & _). rewrite <- (rbt_tcolor _ _ _ Rt). by eapply color_tptr. }
  assert (__cl_map_is_left_child m (tptr t) = true) as Hl.
  { destruct Hpos as (Hat & Hsep & _). rewrite (is_left_child_at map _ _ _ Hat Hsep Hu); [done|].
    intros _. done. }
  remember (S fuel) as n1 eqn:En. cbn [__cl_map_del_bal].
  rewrite decide_True by (rewrite Hct, Hu; split; [done|by eapply zptr_not_root]).
  rewrite Hl, E1. clear Hl E1 Hct. eapply rebalanced_trans; [exact S1|]. clear S1 Hh Hpos Hu Rz.
  inversion RU1 as [| |? cl cr Ul u ku Ur RUl RUr]; subst U1.
  pose proof Hh1 as [Hpos Hu]. cbn in Hu. cbn [RbTree.tptr].
  destruct (del_reads_left _ _ _ _ _ _ _ _ _ _ _ Hpos) as (HR & _ & _ & HuL & HuR & HcL & HcR).
  rewrite HuR, HuL, HcL, HcR. rewrite (rbt_tcolor _ _ _ RUl), (rbt_tcolor _ _ _ RUr).
  destruct cr; [|destruct cl].
  - rewrite decide_False by tauto. by eapply del_outer_left_spec.
  - rewrite decide_True by done. rewrite decide_False by tauto.
    inversion RUl as [|? A w kw Bt RA RB|]; subst Ul.
    destruct (del_inner_left_spec _ _ _ _ _ _ _ _ _ _ _ _ _ Hh1) as (m2 & -> & S2 & Hh2).
    eapply rebalanced_trans; [exact S2|]. eapply del_outer_left_spec; [exact Hh2|done| |by constructor].
    apply rbz_frame_inv in Rz1. cbn in Rz1. destruct Rz1 as [(-> & _ & ? & ?)|(-> & ? & ? & _ & ?)];
      econstructor; try done; econstructor; try done; by constructor.
  - rewrite !decide_True by done. rewrite up_set_color, Hu.
    pose proof (step_to_refl map _ _ _ Hpos) as St. apply next_up in St. cbn [fill] in St.
    apply (next_down map (InRight cp1 t p kp)) in St.
    apply (next_color map _ _ _ _ _ _ CL_MAP_RED) in St. apply next_up in St. cbn [fill] in St.
    eapply rebalanced_trans; [exact St|]. pose proof St as (Hp2 & _ & _).
    pose proof (hang_node _ _ _ Hp2 ltac:(done)) as Hh2.
    apply rbz_frame_inv in Rz1. cbn in Rz1. destruct Rz1 as [(-> & _ & ? & Rz1)|(-> & ? & pc1 & _ & Rz1)].
    + rewrite En. apply (del_bal_exit _ _ (Node _ _ p kp _) (S n) _ Hh2); [by right|]. eexists _, _.
      split_and!; [|exact Rz1|done]. econstructor; [done|by constructor].
    + rewrite En in *. destruct Hlen as [Hlen|?]; [|done].
      apply (IH _ _ (Node _ _ p kp _) (S n) CL_MAP_BLACK pc1); [lia|done| |done]. econstructor; [done|by constructor].
Qed.

(** *** [p_item] is a right child *)

(** What the code reads around the position. *)
Lemma del_reads_right m cp p kp cu Ul u ku Ur z t :
  pos m (InRight cp (Node cu Ur u ku Ul) p kp :: z) t ->
  p_left m p = u /\ color m p = cp /\ color m u = cu /\ p_right m u = tptr Ul /\ p_left m u = tptr Ur /\
  color m (tptr Ul) = tcolor Ul /\ color m (tptr Ur) = tcolor Ur.
Proof.
  intros ([Hz _] & _ & Hn & _). cbn in Hz.
  destruct Hz as (?&?&_&?&_&(?&?&_&?&_&?&?)&_). split_and!; try done; by eapply color_tptr.
Qed.

(** The uncle is made black. *)
Lemma del_uncle_right_spec m cp p kp U z t n pc :
  hang m (InRight cp U p kp :: z) t -> rbt CL_MAP_BLACK n t -> rbz pc (S n) (InRight cp U p kp :: z) ->
  exists m1 cp1 U1 z1,
    del_uncle_right m map (tptr t) = (m1, tptr U1) /\
    step_to m (InRight cp U p kp :: z) t m1 (InRight cp1 U1 p kp :: z1) t /\ hang m1 (InRight cp1 U1 p kp :: z1) t /\
    rbt CL_MAP_BLACK (S n) U1 /\ rbz cp1 (S n) (InRight cp1 U1 p kp :: z1) /\
    (length z1 = length z \/ cp1 = CL_MAP_RED).
Proof.
  intros Hh Rt Rz. pose proof Hh as [Hpos Hu]. cbn in Hu. unfold del_uncle_right.
  destruct (pos_frame_r map _ _ _ _ _ _ _ Hpos) as (HL & HR & _ & _ & HcU).
  rewrite Hu, HL, HcU.
  pose proof (rbz_frame_inv _ _ _ _ Rz) as Hz. cbn in Hz.
  assert (exists cU, rbt cU (S n) U) as [cU RU] by naive_solver.
  rewrite (rbt_tcolor _ _ _ RU). destruct cU.
  - rewrite decide_True by done. inversion RU as [|? Ul u ku Ur RUl RUr|]; subst U.
    assert (exists pc', cp = CL_MAP_BLACK /\ rbz pc' (S (S n)) z) as (pc' & -> & Rz').
    { destruct Hz as [(_ & Hr & _)|(? & ? & ? & _ & ?)]; [inversion Hr|eauto]. }
    rewrite !up_set_color, !Hu. pose proof (step_to_refl map _ _ _ Hpos) as St.
    apply next_up in St. cbn [fill] in St.
    apply (next_down map (InLeft CL_MAP_BLACK p kp t)) in St.
    apply (next_color map _ _ _ _ _ _ CL_MAP_BLACK) in St. apply next_up in St. cbn [fill] in St.
    apply (next_color map _ _ _ _ _ _ CL_MAP_RED) in St. apply next_rot_right in St.
    apply (next_down map (InRight CL_MAP_BLACK Ul u ku)) in St.
    apply (next_down map (InRight CL_MAP_RED Ur p kp)) in St.
    pose proof (hang_step _ _ _ _ _ Hh St ltac:(done)) as Hh'. pose proof Hh' as [Hp' Hu'].
    cbn [RbTree.zptr] in Hu'. cbn [RbTree.tptr].
    destruct (pos_frame_r map _ _ _ _ _ _ _ Hp') as (HL' & HR' & _).
    eexists _, CL_MAP_RED, _, _. rewrite Hu', HL'.
    split; [done|]. split_and!; [done..| |by right].
    constructor; [done..|]. by econstructor.
  - rewrite decide_False by done. exists m, cp, U, z. split_and!; [done|by apply step_to_refl|done..| |by left].
    inversion Rz; naive_solver.
Qed.

(** The last rotation: the far nephew is red. *)
Lemma del_outer_right_spec m cp p kp Ul u ku Ur z t n :
  let z0 := InRight cp (Node CL_MAP_BLACK Ur u ku Ul) p kp :: z in
  hang m z0 t -> rbt CL_MAP_BLACK n t -> rbz cp (S n) z0 -> rbt CL_MAP_RED n Ur ->
  rebalanced m z0 t
    (Some (set_color (del_outer_right m map (tptr t) u) (tptr t) CL_MAP_BLACK)).
Proof.
  intros z0 Hh Rt Rz RUr. pose proof Hh as [Hpos Hu]. cbn in Hu.
  pose proof (rbz_frame_inv _ _ _ _ Rz) as Hz. cbn in Hz.
  assert (exists cl, rbt cl n Ul) as [cl RUl].
  { destruct Hz as [(_ & Hr & _)|(_ & ? & ? & Hr & _)]; apply rbt_black_inv in Hr; naive_solver. }
  destruct (del_reads_right _ _ _ _ _ _ _ _ _ _ _ Hpos) as (HR & Hcp & _ & _ & HuR & _ & _).
  unfold del_outer_right. rewrite !up_set_color, !Hu, Hcp.
  inversion RUr as [|? A w kw Bt RA RB|]; subst Ur.
  pose proof (step_to_refl map _ _ _ Hpos) as St. unfold z0 in *.
  apply next_up in St. cbn [fill] in St.
  apply (next_down map (InLeft cp p kp t)) in St.
  apply (next_color map _ _ _ _ _ _ cp) in St. apply next_up in St. cbn [fill] in St.
  apply (next_color map _ _ _ _ _ _ CL_MAP_BLACK) in St.
  apply (next_down map (InLeft CL_MAP_BLACK p kp t)) in St.
  apply (next_down map (InLeft cp u ku Ul)) in St.
  apply (next_color map _ _ _ _ _ _ CL_MAP_BLACK) in St. do 2 (apply next_up in St; cbn [fill] in St).
  apply next_rot_right in St.
  apply (next_down map (InRight cp (Node CL_MAP_BLACK A w kw Bt) u ku)) in St.
  apply (next_down map (InRight CL_MAP_BLACK Ul p kp)) in St. apply next_blacken in St.
  cbn [p_left set_color] in *. rewrite HuR. cbn [RbTree.tptr].
  eexists _, _. split; [done|]. split; [by apply step_to_top in St|].
  assert (blacken t = t) as -> by by inversion Rt. cbn [plug fill].
  destruct Hz as [(-> & _ & Hzne & Rz')|(-> & _ & pc & _ & Rz')].
  - edestruct (rb_plug CL_MAP_RED CL_MAP_BLACK (S n) z) as (c'&n'&?&Hc'); [|done|by right|exists n'; naive_solver].
    constructor; econstructor; done.
  - edestruct (rb_plug CL_MAP_BLACK pc (S (S n)) z) as (c'&n'&?&Hc'); [|done|by left|exists n'; naive_solver].
    apply (rbt_black (S n) CL_MAP_BLACK CL_MAP_BLACK); econstructor; done.
Qed.

(** The near nephew is the red one: it takes the uncle's place. *)
Lemma del_inner_right_spec m cp p kp A w kw Bt u ku Ur z t :
  let z0 := InRight cp (Node CL_MAP_BLACK Ur u ku (Node CL_MAP_RED Bt w kw A)) p kp :: z in
  let z1 := InRight cp (Node CL_MAP_BLACK (Node CL_MAP_RED Ur u ku Bt) w kw A) p kp :: z in
  hang m z0 t ->
  exists m1, del_inner_right m map (tptr t) u = (m1, w) /\ step_to m z0 t m1 z1 t /\ hang m1 z1 t.
Proof.
  intros z0 z1 Hh. pose proof Hh as [Hpos Hu]. cbn in Hu. unfold z0, z1 in *.
  destruct (del_reads_right _ _ _ _ _ _ _ _ _ _ _ Hpos) as (_ & _ & _ & HuL & _ & _ & _).
  unfold del_inner_right. rewrite HuL. cbn [RbTree.tptr].
  pose proof (step_to_refl map _ _ _ Hpos) as St. apply next_up in St. cbn [fill] in St.
  apply (next_down map (InLeft cp p kp t)) in St.
  apply (next_down map (InRight CL_MAP_BLACK Ur u ku)) in St.
  apply (next_color map _ _ _ _ _ _ CL_MAP_BLACK) in St. apply next_up in St. cbn [fill] in St.
  apply (next_color map _ _ _ _ _ _ CL_MAP_RED) in St. apply next_rot_left in St.
  apply next_up in St. cbn [fill] in St. apply (next_down map (InRight cp _ p kp)) in St.
  pose proof (hang_step _ _ _ _ _ Hh St ltac:(done)) as Hh'. pose proof Hh' as [Hp' Hu'].
  cbn [RbTree.zptr] in Hu'. eexists. rewrite Hu'.
  destruct (del_reads_right _ _ _ _ _ _ _ _ _ _ _ Hp') as (-> & _). by split_and!.
Qed.

(** One iteration. *)
Lemma del_iter_right fuel m cp p kp U z t n pc :
  (forall m z t n c pc, length z < S fuel -> hang m z t -> rbt c n t -> rbz pc (S n) z ->
     rebalanced m z t (__cl_map_del_bal (S fuel) m map (tptr t))) ->
  length z < S fuel ->
  hang m (InRight cp U p kp :: z) t -> rbt CL_MAP_BLACK n t -> rbz pc (S n) (InRight cp U p kp :: z) ->
  rebalanced m (InRight cp U p kp :: z) t (__cl_map_del_bal (S (S fuel)) m map (tptr t)).
Proof.
  intros IH Hf Hh Rt Rz. pose proof Hh as [Hpos Hu].
  destruct (del_uncle_right_spec _ _ _ _ _ _ _ _ _ Hh Rt Rz)
    as (m1 & cp1 & U1 & z1 & E1 & S1 & Hh1 & RU1 & Rz1 & Hlen).
  assert (color m (tptr t) = CL_MAP_BLACK) as Hct.
  { destruct Hpos as ([_ Ht] & _ & Hn & _). rewrite <- (rbt_tcolor _ _ _ Rt). by eapply color_tptr. }
  assert (__cl_map_is_left_child m (tptr t) = false) as Hl.
  { destruct Hpos as (Hat & Hsep & _). rewrite (is_left_child_at map _ _ _ Hat Hsep Hu); [done|].
    intros _. pose proof (rbz_frame_inv _ _ _ _ Rz) as Hz. cbn in Hz. destruct Hz as [(_ & Hr & _)|(_ & ? & ? & Hr & _)]; by inversion Hr. }
  remember (S fuel) as n1 eqn:En. cbn [__cl_map_del_bal].
  rewrite decide_True by (rewrite Hct, Hu; split; [done|by eapply zptr_not_root]).
  rewrite Hl, E1. clear Hl E1 Hct. eapply rebalanced_trans; [exact S1|]. clear S1 Hh Hpos Hu Rz.
  inversion RU1 as [| |? cl cr Ul u ku Ur RUl RUr]; subst U1.
  pose proof Hh1 as [Hpos Hu]. cbn in Hu. cbn [RbTree.tptr].
  destruct (del_reads_right _ _ _ _ _ _ _ _ _ _ _ Hpos) as (HR & _ & _ & HuL & HuR & HcL & HcR).
  rewrite HuR, HuL, HcL, HcR. rewrite (rbt_tcolor _ _ _ RUl), (rbt_tcolor _ _ _ RUr).
  destruct cl; [|destruct cr].
  - rewrite decide_False by tauto. by eapply del_outer_right_spec.
  - rewrite decide_True by done. rewrite decide_False by tauto.
    inversion RUr as [|? A w kw Bt RA RB|]; subst Ur.
    destruct (del_inner_right_spec _ _ _ _ _ _ _ _ _ _ _ _ _ Hh1) as (m2 & -> & S2 & Hh2).
    eapply rebalanced_trans; [exact S2|]. eapply del_outer_right_spec; [exact Hh2|done| |by constructor].
    apply rbz_frame_inv in Rz1. cbn in Rz1. destruct Rz1 as [(-> & _ & ? & ?)|(-> & ? & ? & _ & ?)];
      econstructor; try done; econstructor; try done; by constructor.
  - rewrite !decide_True by done. rewrite up_set_color, Hu.
    pose proof (step_to_refl map _ _ _ Hpos) as St. apply next_up in St. cbn [fill] in St.
    apply (next_down map (InLeft cp1 p kp t)) in St.
    apply (next_color map _ _ _ _ _ _ CL_MAP_RED) in St. apply next_up in St. cbn [fill] in St.
    eapply rebalanced_trans; [exact St|]. pose proof St as (Hp2 & _ & _).
    pose proof (hang_node _ _ _ Hp2 ltac:(done)) as Hh2.
    apply rbz_frame_inv in Rz1. cbn in Rz1. destruct Rz1 as [(-> & _ & ? & Rz1)|(-> & ? & pc1 & _ & Rz1)].
    + rewrite En. apply (del_bal_exit _ _ (Node _ _ p kp _) (S n) _ Hh2); [by right|]. eexists _, _.
      split_and!; [|exact Rz1|done]. econstructor; [by constructor|done].
    + rewrite En in *. destruct Hlen as [Hlen|?]; [|done].
      apply (IH _ _ (Node _ _ p kp _) (S n) CL_MAP_BLACK pc1); [lia|done| |done]. econstructor; [by constructor|done].
Qed.

(** The loop returns within [S (length z)] iterations. *)
Lemma del_bal_spec fuel : forall m z t n c pc,
  length z < fuel -> hang m z t -> rbt c n t -> rbz pc (S n) z ->
  rebalanced m z t (__cl_map_del_bal fuel m map (tptr t)).
Proof.
  induction fuel as [|fuel IH]; intros m z t n c pc Hf Hh Rt Rz; [lia|].
  destruct c.
  - apply (del_bal_exit _ _ _ (S n)); [done|right; by apply (rbt_tcolor _ _ _ Rt)|].
    destruct (rbt_blacken _ _ _ Rt) as (n' & Hb & Hn & _).
    rewrite (Hn eq_refl) in Hb. by exists CL_MAP_BLACK, pc.
  - destruct z as [|f z].
    + apply (del_bal_exit _ _ _ n); [done|by left|].
      destruct (rbt_blacken _ _ _ Rt) as (n' & Hb & _ & Hn).
      rewrite (Hn eq_refl) in Hb. exists CL_MAP_BLACK, CL_MAP_BLACK. split_and!; [done|constructor|done].
    + cbn in Hf. destruct fuel as [|fuel]; [lia|].
      destruct f as [cp p kp U|cp U p kp]; [eapply del_iter_left|eapply del_iter_right]; done || lia.
Qed.
End DelBal.
