(* ===== verification/MapSpec.v ===== *)
(** * What a map holds, and what its operations do to it

    The abstract state of a map is its list of entries (item address and key) in
    strictly increasing key order.  [map_at] relates it to memory: a balanced
    tree with those entries in order, the list of items in the same order, and
    the count.  The lemmas here give each operation's effect on the entries; the
    properties of the quick map and of the flexi map instantiate them. *)

From S2P Require Import Prelude Qlist RbMap RbTree RbInsert RbRemove.

(** The laws a comparison of keys must satisfy: it is a strict weak order. *)
Class KeyOrder {K} (cmp : K -> K -> comparison) := {
  cmp_sym x y : cmp y x = CompOpp (cmp x y);
  cmp_lt_trans x y z : cmp x y = Lt -> cmp y z = Lt -> cmp x z = Lt;
  cmp_eq_l x y z : cmp x y = Eq -> cmp x z = cmp y z }.

#[export] Instance Z_KeyOrder : KeyOrder Z.compare.
Proof.
  split.
  - intros. apply Z.compare_antisym.
  - intros x y z. rewrite !Z.compare_lt_iff. lia.
  - intros x y z. rewrite Z.compare_eq_iff. by intros ->.
Qed.

Section Spec.
Context {K : Type} (cmp : K -> K -> comparison) `{!KeyOrder cmp}.
Implicit Types (m : mem K) (t l r : tree K) (z : list (zframe K)) (map : cl_qmap_t).
Implicit Types (E : list (ptr * K)) (k : K).

Abbreviation csym := (cmp_sym (cmp := cmp)).
Abbreviation ceq := (cmp_eq_l (cmp := cmp)).

Lemma cmp_refl k : cmp k k = Eq.
Proof. pose proof (csym k k). by destruct (cmp k k). Qed.

Lemma cmp_gt_lt x y : cmp x y = Gt <-> cmp y x = Lt.
Proof. rewrite (csym x y). destruct (cmp x y); split; by intros. Qed.

(** ** Entries in order *)

Definition key_lt (a b : ptr * K) : Prop := cmp a.2 b.2 = Lt.

Fixpoint sorted E : Prop :=
  match E with [] => True | e :: E => (forall x, x ∈ E -> key_lt e x) /\ sorted E end.

Lemma sorted_app E1 E2 :
  sorted (E1 ++ E2) <->
  sorted E1 /\ sorted E2 /\ (forall x y, x ∈ E1 -> y ∈ E2 -> key_lt x y).
Proof.
  induction E1 as [|e E1 IH]; cbn; [set_solver|]. rewrite IH. set_solver.
Qed.

Lemma sorted_insert E1 E2 p k :
  sorted (E1 ++ E2) -> (forall e, e ∈ E1 -> cmp k e.2 = Gt) -> (forall e, e ∈ E2 -> cmp k e.2 = Lt) ->
  sorted (E1 ++ (p, k) :: E2).
Proof.
  rewrite !sorted_app. cbn. intros (H1 & H2 & H3) HG HL. split_and!; [done|exact HL|done|].
  intros x y Hx [->|Hy]%elem_of_cons; [|by apply H3]. unfold key_lt. cbn. by apply cmp_gt_lt, HG.
Qed.

(** The entry with a given key, and the first entry above a key. *)
Definition lookup_key k E : option ptr :=
  fst <$> head (filterb (fun e => bool_decide (cmp k e.2 = Eq)) E).
Definition lookup_above k E : option ptr :=
  fst <$> head (filterb (fun e => bool_decide (cmp k e.2 = Lt)) E).

Lemma filterb_none (f : ptr * K -> bool) E : (forall e, e ∈ E -> f e = false) -> filterb f E = [].
Proof.
  induction E as [|e E IH]; intros H; [done|]. rewrite filterb_cons, (H e), IH; set_solver.
Qed.

Lemma lookup_key_split k E1 p k' E2 :
  sorted (E1 ++ (p, k') :: E2) ->
  lookup_key k (E1 ++ (p, k') :: E2) =
  match cmp k k' with Eq => Some p | Lt => lookup_key k E1 | Gt => lookup_key k E2 end.
Proof.
  rewrite sorted_app. cbn. intros (_ & (H2 & _) & H1). unfold lookup_key.
  rewrite filterb_app, filterb_cons. cbn [snd].
  assert (forall e, e ∈ E1 -> cmp k k' <> Lt -> bool_decide (cmp k e.2 = Eq) = false) as HA.
  { intros e He Hk. apply bool_decide_false. intros Heq.
    specialize (H1 e (p, k') He ltac:(set_solver)). unfold key_lt in H1. cbn in H1.
    by rewrite (ceq k e.2 k' Heq) in Hk. }
  assert (forall e, e ∈ E2 -> cmp k k' <> Gt -> bool_decide (cmp k e.2 = Eq) = false) as HB.
  { intros e He Hk. apply bool_decide_false. intros Heq.
    specialize (H2 e He). unfold key_lt in H2. cbn in H2. apply Hk.
    rewrite (ceq k e.2 k' Heq). by apply cmp_gt_lt. }
  destruct (cmp k k') eqn:Ec; first [rewrite bool_decide_true by done|rewrite bool_decide_false by done].
  - by rewrite (filterb_none _ E1) by auto.
  - rewrite (filterb_none _ E2) by auto. by rewrite app_nil_r.
  - by rewrite (filterb_none _ E1) by auto.
Qed.

Lemma lookup_above_split k E1 p k' E2 :
  sorted (E1 ++ (p, k') :: E2) ->
  lookup_above k (E1 ++ (p, k') :: E2) =
  match cmp k k' with
  | Lt => Some (default p (lookup_above k E1))
  | _ => lookup_above k E2
  end.
Proof.
  rewrite sorted_app. cbn. intros (_ & (H2 & _) & H1). unfold lookup_above.
  rewrite filterb_app, filterb_cons. cbn [snd].
  assert (forall e, e ∈ E1 -> cmp k k' <> Lt -> bool_decide (cmp k e.2 = Lt) = false) as HA.
  { intros e He Hk. apply bool_decide_false. intros Heq. apply Hk.
    eapply (cmp_lt_trans (cmp:=cmp)); [exact Heq|]. apply (H1 e (p, k') He). set_solver. }
  destruct (cmp k k') eqn:Ec; first [rewrite bool_decide_true by done|rewrite bool_decide_false by done].
  - by rewrite (filterb_none _ E1) by auto.
  - rewrite head_app. by destruct (head (filterb _ E1)).
  - by rewrite (filterb_none _ E1) by auto.
Qed.

(** ** The state of a map in memory *)

Definition map_at m map E : Prop :=
  exists T n,
    pos map m [] T /\ elems T = E /\ rbt CL_MAP_BLACK n T /\ sorted E /\
    ring (m_links m) (qm_nil map) E.*1 /\
    qm_count map = Z.of_nat (length E) /\ (Z.of_nat (length E) < 2 ^ 64)%Z.

(** The addresses a map owns. *)
Definition owned map E : list ptr := qm_root map :: qm_nil map :: E.*1.

(** Only the items in [S] have changed, their links included. *)
Definition mkeeps (S : list ptr) m m' : Prop :=
  (forall x, x ∉ S -> same_item m m' x) /\ same_off S (m_links m) (m_links m').

Lemma mkeeps_trans S m1 m2 m3 : mkeeps S m1 m2 -> mkeeps S m2 m3 -> mkeeps S m1 m3.
Proof.
  intros [H1 H2] [H3 H4]. split; intros x Hx.
  - eapply same_item_trans; auto.
  - destruct (H2 x Hx), (H4 x Hx). split; congruence.
Qed.

Lemma mkeeps_mono (S S' : list ptr) m m' :
  (forall x, x ∈ S -> x ∈ S') -> mkeeps S m m' -> mkeeps S' m m'.
Proof. intros Hs [H1 H2]. split; intros x Hx; [apply H1|apply H2]; auto. Qed.

Lemma mkeeps_keeps S m m' : keeps S m m' -> mkeeps S m m'.
Proof. intros (Hl & _ & H). split; [done|]. by rewrite Hl. Qed.

Lemma mkeeps_refl S m : mkeeps S m m.
Proof. apply mkeeps_keeps, keeps_refl. Qed.

Lemma pos_owned map m T : pos map m [] T -> NoDup (owned map (elems T)).
Proof. intros (_ & Hsep & _). unfold sep in Hsep. cbn in Hsep. rewrite app_nil_r in Hsep.
  unfold owned. by rewrite elems_fst. Qed.

Lemma map_at_NoDup m map E : map_at m map E -> NoDup (owned map E).
Proof. intros (T & n & Hp & <- & _). by eapply pos_owned. Qed.

(** A position depends only on the items of the map. *)
Lemma pos_frame map m m' z t :
  (forall x, x ∈ qm_root map :: qm_nil map :: (zelems z t).*1 -> same_item m m' x) ->
  pos map m z t -> pos map m' z t.
Proof.
  intros Hs ([Hz Ht] & Hsep & Hn & Hr). rewrite zelems_fst in Hs. split_and!; [split|done|..].
  - eapply repz_frame; [|done]. intros x Hx. apply Hs. set_solver.
  - eapply rep_frame; [|done]. intros x Hx. apply Hs. set_solver.
  - destruct (Hs (qm_nil map)) as (_&_&_&->&_); [set_solver|done].
  - destruct (Hs (qm_root map)) as (_&_&_&->&_); [set_solver|done].
Qed.

Lemma map_frame S m m' map E :
  mkeeps S m m' -> (forall x, x ∈ owned map E -> x ∉ S) -> map_at m map E -> map_at m' map E.
Proof.
  intros [H1 H2] Hd (T & n & Hp & HE & Hrb & Hso & Hri & Hc).
  exists T, n. split_and!; try done.
  - eapply pos_frame; [|done]. intros x Hx. apply H1, Hd.
    rewrite zelems_plug in Hx. cbn in Hx. by rewrite HE in Hx.
  - eapply ring_frame; [exact H2| |done]. intros x Hx. apply Hd. unfold owned. set_solver.
  - apply Hc.
  - apply Hc.
Qed.

Lemma map_fuel_enough m map E : map_at m map E -> map_fuel map = S (length E).
Proof. intros (T & n & _ & _ & _ & _ & _ & Hc & _). unfold map_fuel. rewrite Hc. lia. Qed.

Lemma elems_length_split t l p k r :
  elems t = elems l ++ (p, k) :: elems r -> length (elems l) < length (elems t) /\ length (elems r) < length (elems t).
Proof. intros ->. rewrite length_app. cbn. lia. Qed.

(** ** Search *)

Lemma tptr_not_nil map m z t : pos map m z t -> t <> Leaf -> tptr (qm_nil map) t <> qm_nil map.
Proof.
  intros (_ & Hsep & _) Ht. pose proof (tptr_in (qm_nil map) t Ht) as Hin. unfold sep in Hsep.
  revert Hin. generalize (tptr (qm_nil map) t). intros y Hy. nodup_simpl. ne_solve.
Qed.

Fixpoint height t : nat :=
  match t with Leaf => 0 | Node _ l _ _ r => S (max (height l) (height r)) end.

Lemma height_length t : height t <= length (elems t).
Proof. induction t as [|c l IHl p k r IHr]; cbn; [lia|]. rewrite length_app. cbn. lia. Qed.

Lemma get_loop_height map k : forall t m z fuel,
  height t < fuel -> pos map m z t -> sorted (elems t) ->
  get_loop cmp fuel m map k (tptr (qm_nil map) t) =
  Some (default (qm_nil map) (lookup_key k (elems t))).
Proof.
  induction t as [|c l IHl p k' r IHr]; intros m z [|fuel] Hf Hp Hs; try (cbn in Hf; lia).
  - cbn. by rewrite decide_True.
  - pose proof (tptr_not_nil _ _ _ _ Hp ltac:(done)) as Hne.
    cbn [get_loop elems tptr height] in *. rewrite decide_False by done.
    pose proof Hp as ([_ (Hl & Hr & _ & _ & Hk & _)] & _). rewrite Hk, Hl, Hr.
    rewrite (lookup_key_split k _ p k' _ Hs). rewrite sorted_app in Hs. cbn in Hs.
    destruct Hs as (? & (_ & ?) & _). destruct (cmp k k'); [done|..].
    + eapply (IHl _ (InLeft c p k' r :: z)); [lia|by rewrite pos_fill|done].
    + eapply (IHr _ (InRight c l p k' :: z)); [lia|by rewrite pos_fill|done].
Qed.

(** Balance bounds the height by twice the logarithm of the size. *)
Lemma rbt_size c n t : rbt c n t -> 2 ^ n <= S (length (elems t)).
Proof.
  induction 1 as [|n l p k r Hl IHl Hr IHr|n cl cr l p k r Hl IHl Hr IHr]; cbn; [done|..];
    rewrite length_app; cbn; lia.
Qed.

Lemma rbt_height c n t :
  rbt c n t -> height t <= 2 * n + match c with CL_MAP_RED => 1 | CL_MAP_BLACK => 0 end.
Proof.
  induction 1 as [|n l p k r Hl IHl Hr IHr|n cl cr l p k r Hl IHl Hr IHr]; cbn [height] in *; [lia..|].
  destruct cl, cr; cbn in *; lia.
Qed.

Lemma height_log n t : rbt CL_MAP_BLACK n t -> height t <= 2 * Nat.log2 (S (length (elems t))).
Proof.
  intros H. pose proof (rbt_height _ _ _ H) as Hh. cbn -[Nat.mul] in Hh. apply rbt_size in H.
  apply Nat.log2_le_mono in H. rewrite Nat.log2_pow2 in H by lia. lia.
Qed.

Lemma get_next_loop_spec map k : forall t m z fuel d,
  length (elems t) < fuel -> pos map m z t -> sorted (elems t) ->
  get_next_loop cmp fuel m map k (tptr (qm_nil map) t) d =
  Some (default d (lookup_above k (elems t))).
Proof.
  induction t as [|c l IHl p k' r IHr]; intros m z [|fuel] d Hf Hp Hs; try (cbn in Hf; lia).
  - cbn. by rewrite decide_True.
  - destruct (elems_length_split (Node c l p k' r) l p k' r eq_refl).
    pose proof (tptr_not_nil _ _ _ _ Hp ltac:(done)) as Hne.
    cbn [get_next_loop elems tptr] in *. rewrite decide_False by done.
    pose proof Hp as ([_ (Hl & Hr & _ & _ & Hk & _)] & _). rewrite Hk, Hl, Hr.
    rewrite (lookup_above_split k _ p k' _ Hs). rewrite sorted_app in Hs. cbn in Hs.
    destruct Hs as (? & (_ & ?) & _). destruct (cmp k k').
    + eapply (IHr _ (InRight c l p k' :: z)); [lia|by rewrite pos_fill|done].
    + cbn. eapply (IHl _ (InLeft c p k' r :: z)); [lia|by rewrite pos_fill|done].
    + eapply (IHr _ (InRight c l p k' :: z)); [lia|by rewrite pos_fill|done].
Qed.

Lemma map_get_spec m map E k :
  map_at m map E -> cl_qmap_get cmp m map k = Some (default (qm_nil map) (lookup_key k E)).
Proof.
  intros Hm. unfold cl_qmap_get, __cl_map_root. rewrite (map_fuel_enough _ _ _ Hm).
  destruct Hm as (T & n & Hp & <- & _ & Hs & _). pose proof Hp as ([Hz _] & _). cbn in Hz.
  rewrite Hz. pose proof (height_length T). eapply get_loop_height; [lia|done..].
Qed.

Lemma map_get_next_spec m map E k :
  map_at m map E -> cl_qmap_get_next cmp m map k = Some (default (qm_nil map) (lookup_above k E)).
Proof.
  intros Hm. unfold cl_qmap_get_next, __cl_map_root. rewrite (map_fuel_enough _ _ _ Hm).
  destruct Hm as (T & n & Hp & <- & _ & Hs & _). pose proof Hp as ([Hz _] & _). cbn in Hz.
  rewrite Hz. eapply get_next_loop_spec; [lia|done..].
Qed.

(** ** Insertion *)

Definition below k E : Prop := forall e, e ∈ E -> cmp k e.2 = Gt.
Definition above k E : Prop := forall e, e ∈ E -> cmp k e.2 = Lt.

Lemma ins_search_spec map k : forall t m z fuel,
  length (elems t) < fuel -> pos map m z t -> sorted (elems t) ->
  below k (zle z) -> above k (zre z) ->
  let res := ins_search cmp fuel m map k (zptr (qm_root map) z) (tptr (qm_nil map) t) in
  (exists p k', (p, k') ∈ elems t /\ cmp k k' = Eq /\ res = Some (Exists_ p)) \/
  (exists z', plug z' Leaf = plug z t /\ res = Some (Under (zptr (qm_root map) z')) /\
     below k (zle z') /\ above k (zre z')).
Proof.
  induction t as [|c l IHl p k' r IHr]; intros m z [|fuel] Hf Hp Hs Hb Ha res; try (cbn in Hf; lia).
  - right. exists z. subst res. cbn. by rewrite decide_True.
  - subst res. destruct (elems_length_split (Node c l p k' r) l p k' r eq_refl).
    pose proof (tptr_not_nil _ _ _ _ Hp ltac:(done)) as Hne.
    cbn [ins_search elems tptr] in *. rewrite decide_False by done.
    pose proof Hp as ([_ (Hl & Hr & _ & _ & Hk & _)] & _). rewrite Hk, Hl, Hr.
    rewrite sorted_app in Hs. cbn in Hs. destruct Hs as (Hs1 & (Hs2 & Hs3) & Hs4).
    destruct (cmp k k') eqn:Ec.
    + left. exists p, k'. split_and!; [set_solver|done..].
    + destruct (IHl m (InLeft c p k' r :: z) fuel) as [(p'&k''&?&?&?)|(z'&?&?&?&?)];
        [lia|by rewrite pos_fill|done|done| | |].
      * intros e He. cbn in He. apply elem_of_cons in He as [->|[He|He]%elem_of_app]; [done| |by apply Ha].
        eapply (cmp_lt_trans (cmp:=cmp)); [exact Ec|]. by apply (Hs2 e).
      * left. exists p', k''. split_and!; [set_solver|done..].
      * right. by exists z'.
    + destruct (IHr m (InRight c l p k' :: z) fuel) as [(p'&k''&?&?&?)|(z'&?&?&?&?)];
        [lia|by rewrite pos_fill|done| |done| |].
      * intros e He. cbn in He. apply elem_of_app in He as [He|[He|He]%elem_of_app]; [by apply Hb| |].
        -- apply cmp_gt_lt. eapply (cmp_lt_trans (cmp:=cmp)); [apply (Hs4 e (p, k') He); set_solver|].
           by apply cmp_gt_lt.
        -- apply list_elem_of_singleton in He as ->. done.
      * left. exists p', k''. split_and!; [set_solver|done..].
      * right. by exists z'.
Qed.

(** Writing the fields of an item outside the map does not change the map. *)
Lemma map_at_fresh_fields m map E p m' :
  map_at m map E -> p ∉ owned map E -> m_links m' = m_links m ->
  (forall x, x <> p -> same_item m m' x) -> map_at m' map E /\ mkeeps [p] m m'.
Proof.
  intros Hm Hp Hl Hs. assert (mkeeps [p] m m') as Hk.
  { split; [|by rewrite Hl]. intros x Hx. apply Hs. set_solver. }
  split; [|done]. eapply map_frame; [exact Hk| |done]. set_solver.
Qed.

(** The links set by [ins_link], seen from the hole of the search path. *)
Lemma ins_link_eq map m z p k :
  pos map m z Leaf -> below k (zle z) -> above k (zre z) ->
  ring (m_links m) (qm_nil map) (zlp z ++ zrp z) ->
  ins_link cmp m map k (zptr (qm_root map) z) p =
  let m := child_set m (zslot (qm_root map) z) p in
  set_links m (__cl_primitive_insert (m_links m) (default (qm_nil map) (head (zrp z))) p).
Proof.
  intros Hp Hb Ha Hr. unfold ins_link. destruct z as [|[c q k' r|c l q k'] z].
  - cbn. by rewrite decide_True.
  - rewrite decide_False by (by eapply zptr_not_root). cbn [zptr zslot zrp].
    pose proof Hp as ([(_ & _ & _ & _ & -> & _) _] & _).
    pose proof (Ha (q, k') ltac:(cbn; set_solver)) as E. cbn in E. by rewrite E.
  - rewrite decide_False by (by eapply zptr_not_root). cbn [zptr zslot zrp].
    pose proof Hp as ([(_ & _ & _ & _ & -> & _) _] & _).
    pose proof (Hb (q, k') ltac:(cbn; set_solver)) as E. cbn in E. rewrite E.
    replace (p_next (m_links (set_right m q p)) q) with (default (qm_nil map) (head (zrp z))); [done|].
    cbn. symmetry. cbn in Hr. rewrite <- !(assoc_L (++)) in Hr. cbn in Hr.
    apply (ring_next _ _ (zlp z ++ tptrs l) q (zrp z)). by rewrite <- (assoc_L (++)).
Qed.

Lemma links_child_set m s v : m_links (child_set m s v) = m_links m.
Proof. by destruct s. Qed.

Lemma key_child_set m s v : key (child_set m s v) = key m.
Proof. by destruct s. Qed.

(** Hanging a fresh red item at the hole. *)
Lemma ins_link_pos map m z p k lk :
  pos map m z Leaf -> p ∉ qm_root map :: qm_nil map :: zlp z ++ zrp z ->
  p_left m p = qm_nil map -> p_right m p = qm_nil map -> key m p = k -> color m p = CL_MAP_RED ->
  pos map (set_up (set_links (child_set m (zslot (qm_root map) z) p) lk) p (zptr (qm_root map) z))
    z (Node CL_MAP_RED Leaf p k Leaf).
Proof.
  intros ([Hz _] & Hsep & Hn & Hr) Hp Hl Hrt Hk Hc. cbn in Hz.
  destruct (sep_facts map z Leaf Hsep) as (_ & _ & _ & Hnz).
  assert (p <> zptr (qm_root map) z) as Npz.
  { pose proof (zptr_in (qm_root map) z) as Hin. revert Hin. generalize (zptr (qm_root map) z).
    intros y Hy. ne_solve. }
  destruct (child_set_off map m z p p Npz) as (?&?&?&?&?).
  split_and!; [split| | |].
  - eapply repz_frame; [|eapply repz_set_hole; [exact Hnz|exact Hz]]. intros x Hx.
    repeat split; cbn. rewrite upd_ne; [done|]. ne_solve.
  - cbn. rewrite upd_eq. split_and!; (done || congruence).
  - unfold sep in *. cbn in *. nodup_simpl. rewrite !NoDup_cons, NoDup_app, NoDup_cons.
    split_and!; try done; ne_solve.
  - cbn. by destruct z as [|[]].
  - cbn. by destruct z as [|[]].
Qed.

Lemma mkeeps_insert_mem map m z p lk E :
  E.*1 = zlp z ++ zrp z -> same_off (p :: qm_nil map :: zlp z ++ zrp z) (m_links m) lk ->
  mkeeps (p :: owned map E) m
    (set_up (set_links (child_set m (zslot (qm_root map) z) p) lk) p (zptr (qm_root map) z)).
Proof.
  intros HE Hlk. unfold owned. rewrite HE. pose proof (zptr_in (qm_root map) z) as Hin. split; intros x Hx.
  - eapply same_item_trans; [apply (child_set_off map m z p); intros ->; set_solver|].
    repeat split; cbn. rewrite upd_ne; [done|set_solver].
  - apply Hlk. set_solver.
Qed.

(** Rebalancing the map after the new item has been hung. *)
Lemma ins_finish map m z p k E :
  pos map m z (Node CL_MAP_RED Leaf p k Leaf) -> (exists pc, rbz pc 0 z) ->
  E = zle z ++ (p, k) :: zre z -> sorted E -> ring (m_links m) (qm_nil map) E.*1 ->
  qm_count map = Z.of_nat (length E) -> (Z.of_nat (length E) < 2 ^ 64)%Z -> length z < length E ->
  exists m1, __cl_map_ins_bal (map_fuel map) m map p = Some m1 /\
    let m' := set_color m1 (__cl_map_root m1 map) CL_MAP_BLACK in
    map_at m' map E /\ mkeeps (owned map E) m m' /\ key m' = key m.
Proof.
  intros Hpos (pc & Hz) HE Hs Hr Hc Hlt Hlen.
  destruct (ins_bal_spec map (map_fuel map) m z (Node CL_MAP_RED Leaf p k Leaf) 0 pc)
    as (m1 & T & Hb & St & (cT & nT & HT)); [unfold map_fuel; lia|done|by repeat constructor|done|].
  exists m1. split; [done|].
  assert (elems T = E) as HTE.
  { destruct St as (_ & Hel & _). rewrite zelems_plug in Hel. cbn in Hel. rewrite Hel, HE. done. }
  pose proof St as (Hp1 & _). pose proof Hp1 as ([Hroot _] & _). cbn in Hroot.
  unfold __cl_map_root. rewrite Hroot. apply (next_blacken map) in St.
  destruct St as (Hp2 & Hel2 & Hk). destruct (rbt_blacken _ _ _ HT) as (n' & HT' & _).
  assert (mkeeps (owned map E) m (set_color m1 (tptr (qm_nil map) T) CL_MAP_BLACK)) as Hmk.
  { eapply mkeeps_mono; [|by apply mkeeps_keeps]. intros x. unfold dom_of, owned.
    rewrite HE, fmap_app, fmap_cons, zle_fst, zre_fst. cbn. set_solver. }
  split_and!; [|done|by destruct Hk as (_ & ? & _)]. exists (blacken T), n'. split_and!; try done.
  - rewrite <- HTE. by destruct T.
  - destruct Hk as (-> & _). done.
Qed.

Lemma lookup_key_none_split k E1 E2 : below k E1 -> above k E2 -> lookup_key k (E1 ++ E2) = None.
Proof.
  intros Hb Ha. unfold lookup_key. rewrite filterb_none; [done|]. intros e He.
  apply bool_decide_false. apply elem_of_app in He as [He|He]; [rewrite (Hb e He)|rewrite (Ha e He)]; done.
Qed.

Lemma lookup_key_in k E p k' : sorted E -> (p, k') ∈ E -> cmp k k' = Eq -> lookup_key k E = Some p.
Proof.
  intros Hs Hin Heq. apply list_elem_of_split in Hin as (E1 & E2 & ->).
  by rewrite lookup_key_split, Heq.
Qed.

Lemma length_plug z t : length (elems t) + length z <= length (elems (plug z t)).
Proof.
  revert t. induction z as [|f z IH]; intros t; cbn; [lia|].
  destruct f as [c p k r|c l p k]; [specialize (IH (Node c t p k r))|specialize (IH (Node c l p k t))];
    cbn in *; rewrite length_app in IH; cbn in IH; lia.
Qed.

(** The effect of an insertion on the entries of the map. *)
Definition inserted m map E k p (p' : ptr) m' map' : Prop :=
  qm_root map' = qm_root map /\ qm_nil map' = qm_nil map /\ key m' p = k /\
  mkeeps (p :: owned map E) m m' /\
  match lookup_key k E with
  | Some q => p' = q /\ map' = map /\ map_at m' map' E
  | None => p' = p /\ exists E1 E2, E = E1 ++ E2 /\ below k E1 /\ above k E2 /\
              map_at m' map' (E1 ++ (p, k) :: E2)
  end.

Lemma map_insert_spec m map E k p :
  map_at m map E -> p ∉ owned map E -> (Z.of_nat (length E) + 1 < 2 ^ 64)%Z ->
  exists p' m' map', cl_qmap_insert cmp m map k p = Some (p', m', map') /\
    inserted m map E k p p' m' map'.
Proof.
  intros Hm0 Hp Hlen. unfold cl_qmap_insert.
  set (m1 := set_color (set_key (set_right (set_left m p (qm_nil map)) p (qm_nil map)) p k) p CL_MAP_RED).
  destruct (map_at_fresh_fields m map E p m1 Hm0 Hp) as [Hm Hk1]; [done| |].
  { intros x Hx. repeat split; cbn; by rewrite upd_ne. }
  rewrite (map_fuel_enough _ _ _ Hm). unfold __cl_map_root.
  pose proof Hm as (T & n & Hpos & HE & Hrb & Hs & Hri & Hc & Hlt).
  assert (p_left m1 (qm_root map) = tptr (qm_nil map) T) as -> by (destruct Hpos as ([Hz _] & _); exact Hz).
  assert (key m1 p = k) as Hkey by (cbn; by rewrite upd_eq).
  destruct (ins_search_spec map k T m1 [] (S (length E))) as
    [(q & k' & Hin & Heq & Hres)|(z & HT & Hres & Hb & Ha)]; [rewrite HE; lia|done|by rewrite HE|set_solver..| |];
    cbn [zptr] in Hres; rewrite Hres; cbn [mbind option_bind].
  { exists q, m1, map. split; [done|]. unfold inserted. rewrite HE in Hin.
    rewrite (lookup_key_in k E q k') by done. split_and!; try done.
    eapply mkeeps_mono; [|exact Hk1]. set_solver. }
  cbn in HT. assert (zelems z Leaf = E) as Hze by by rewrite zelems_plug, HT.
  assert (E = zle z ++ zre z) as HEz by by rewrite <- Hze.
  assert (E.*1 = zlp z ++ zrp z) as HEp by by rewrite HEz, fmap_app, zle_fst, zre_fst.
  assert (pos map m1 z Leaf) as Hposz.
  { unfold pos. rewrite at_plug, HT. split_and!; try apply Hpos.
    destruct Hpos as (_ & Hsep & _). revert Hsep. apply sep_cong. rewrite Hze. unfold zelems. cbn.
    by rewrite app_nil_r. }
  rewrite HEp in Hri. unfold owned in Hp. rewrite HEp in Hp.
  rewrite (ins_link_eq map m1 z p k) by done. cbn zeta.
  rewrite links_child_set. set (lk := __cl_primitive_insert _ _ _).
  set (map' := qm_set_count map (qm_count map + 1)).
  assert (ring lk (qm_nil map) (zlp z ++ p :: zrp z)) as Hri' by (apply ring_insert; [done|set_solver]).
  destruct (ins_finish map' (set_up (set_links (child_set m1 (zslot (qm_root map) z) p) lk) p
    (zptr (qm_root map) z)) z p k (zle z ++ (p, k) :: zre z)) as (m2 & Hbal & Hm2 & Hk2 & Hky); try done.
  - apply (ins_link_pos map m1); try done; cbn; by rewrite upd_eq.
  - destruct (rb_unplug n z Leaf) as (c & pc & n' & Hl & Hz & _); [by rewrite HT|].
    assert (n' = 0) as -> by by inversion Hl. eauto.
  - apply sorted_insert; [by rewrite <- HEz|done..].
  - by rewrite fmap_app, fmap_cons, zle_fst, zre_fst.
  - cbn. rewrite Hc, wrap_small by lia. rewrite HEz, !length_app. cbn. lia.
  - rewrite HEz in Hlen. rewrite length_app in *. cbn. lia.
  - pose proof (length_plug z Leaf) as Hlp. cbn in Hlp. rewrite HT, HE, HEz in Hlp.
    rewrite length_app in *. cbn. lia.
  - unfold __cl_map_root in Hm2, Hk2, Hky. rewrite Hbal. cbn [mbind option_bind]. eexists _, _, _. split; [done|].
    unfold inserted. rewrite HEz, lookup_key_none_split by done. split_and!; [done..| | |done|].
    + rewrite Hky. cbn [key set_up set_links]. by rewrite key_child_set.
    + eapply mkeeps_trans; [eapply mkeeps_mono; [|exact Hk1]; set_solver|].
      eapply mkeeps_trans; [apply (mkeeps_insert_mem map m1 z p lk); [by rewrite <- HEz|]|].
      * eapply (ring_insert_frame _ _ (zlp z) (zrp z)); [done|set_solver].
      * eapply mkeeps_mono; [|exact Hk2]. unfold owned. cbn. rewrite !fmap_app. cbn. set_solver.
    + eauto 10.
Qed.
End Spec.
