(* ===== verification/MapRemove.v ===== *)
(** * Removal from a map

    The effect of [cl_qmap_remove_item] on the entries: the item is unlinked from
    the tree (or replaced by its successor) and from the list, and the tree is
    rebalanced. *)

From S2P Require Import Prelude Qlist RbMap RbTree RbInsert RbRemove MapSpec.

Section Shapes.
Context {K : Type}.
Implicit Types (t l r : tree K) (z : list (zframe K)) (E : list (ptr * K)).

Lemma zle_app z1 z2 : zle (z1 ++ z2) = zle z2 ++ zle z1.
Proof.
  induction z1 as [|[c p k r|c l p k] z1 IH]; cbn; [by rewrite app_nil_r|done|].
  by rewrite IH, <- (assoc_L (++)).
Qed.

Lemma zre_app z1 z2 : zre (z1 ++ z2) = zre z1 ++ zre z2.
Proof.
  induction z1 as [|[c p k r|c l p k] z1 IH]; cbn; [done| |done].
  by rewrite IH, <- (assoc_L (++)).
Qed.

(** Every entry of a tree is at the top of a subtree of it. *)
Lemma tree_split t : forall E1 p k E2,
  elems t = E1 ++ (p, k) :: E2 ->
  exists z c l r, t = plug z (Node c l p k r) /\ zle z ++ elems l = E1 /\ elems r ++ zre z = E2.
Proof.
  induction t as [|c l IHl q kq r IHr]; intros E1 p k E2 H; cbn in H; [by destruct E1|].
  apply app_eq_inv in H as [(E & H1 & H2)|(E & H1 & H2)].
  - destruct E as [|[p' k'] E]; cbn in H2.
    + rewrite app_nil_r in H1. injection H2 as <- <- ->. subst E1.
      exists [], c, l, r. cbn. by rewrite app_nil_r.
    + injection H2 as <- <- ->. destruct (IHl E1 p k E H1) as (z & c' & l' & r' & -> & Hl & Hr).
      exists (z ++ [InLeft c q kq r]), c', l', r'. rewrite plug_app, zle_app, zre_app. cbn.
      split_and!; [done|exact Hl|]. by rewrite app_nil_r, (assoc_L (++)), Hr.
  - destruct E as [|[p' k'] E]; cbn in H2.
    + rewrite app_nil_r in H1. injection H2 as <- <- <-. subst E1.
      exists [], c, l, r. cbn. by rewrite app_nil_r.
    + injection H2 as <- <- H2. destruct (IHr E p k E2 H2) as (z & c' & l' & r' & -> & Hl & Hr).
      exists (z ++ [InRight c l q kq]), c', l', r'. rewrite plug_app, zle_app, zre_app. cbn.
      split_and!; [done| |by rewrite app_nil_r]. rewrite <- !(assoc_L (++)), H1. cbn. by rewrite Hl.
Qed.

(** The first entry of a tree has no left subtree. *)
Lemma tree_leftmost t :
  t <> Leaf ->
  exists z c p k r, t = plug z (Node c Leaf p k r) /\ zle z = [] /\ elems t = (p, k) :: elems r ++ zre z.
Proof.
  induction t as [|c l IHl q kq r IHr]; [done|]. intros _. destruct l as [|lc ll lp lk lr].
  - exists [], c, q, kq, r. cbn. by rewrite app_nil_r.
  - destruct IHl as (z & c' & p & k & r' & Hl & Hz & Hel); [done|].
    exists (z ++ [InLeft c q kq r]), c', p, k, r'. rewrite plug_app, zle_app, zre_app, Hz, Hl.
    split_and!; [done..|]. rewrite Hl in Hel. cbn [plug fill elems zre]. rewrite Hel. cbn.
    by rewrite app_nil_r, <- (assoc_L (++)).
Qed.

(** Balance does not look at addresses and keys. *)
Lemma rbt_plug_cong t t' z : (forall c n, rbt c n t -> rbt c n t') ->
  forall c n, rbt c n (plug z t) -> rbt c n (plug z t').
Proof.
  revert t t'. induction z as [|f z IH]; intros t t' H c n; [apply H|]. cbn. apply IH.
  intros c' n' Hr. destruct f; cbn in *; inversion Hr; subst; econstructor; eauto.
Qed.
End Shapes.

Section Surgery.
Context {K : Type}.
Variable map : cl_qmap_t.
Implicit Types (m : mem K) (t l r : tree K) (z : list (zframe K)).
Abbreviation root := (qm_root map).
Abbreviation nil := (qm_nil map).
Abbreviation tptr := (tptr nil).
Abbreviation zptr := (zptr root).
Abbreviation pos := (pos map).
Abbreviation step_to := (step_to map).

Definition only_child l r : tree K := match l with Leaf => r | _ => l end.

Lemma elems_only_child l r : l = Leaf \/ r = Leaf -> elems (only_child l r) = elems l ++ elems r.
Proof. intros [->| ->]; cbn; [done|]. rewrite app_nil_r. by destruct l. Qed.

Lemma tptrs_only_child l r x : x ∈ tptrs (only_child l r) -> x ∈ tptrs l ++ tptrs r.
Proof. destruct l; cbn [only_child]; set_solver. Qed.

Lemma up_child_set m s v : p_up (child_set m s v) = p_up m.
Proof. by destruct s. Qed.
Lemma color_child_set m s v : color (child_set m s v) = color m.
Proof. by destruct s. Qed.

(** The address of a child, by the test of the code. *)
Lemma only_child_ptr m z c l p k r :
  pos m z (Node c l p k r) ->
  (if decide (p_left m p <> nil) then p_left m p else p_right m p) = tptr (only_child l r).
Proof.
  intros Hp. pose proof Hp as ([_ (Hl & Hr & _)] & _). rewrite Hl, Hr.
  destruct l as [|lc ll lp lk lr]; cbn [RbTree.tptr only_child].
  - by rewrite decide_False by tauto.
  - rewrite decide_True; [done|]. apply (tptr_not_nil map m (InLeft c p k r :: z) (Node lc ll lp lk lr)); [|done].
    by rewrite pos_fill.
Qed.

(** Separation survives the loss of the item. *)
Lemma sep_only_child z c l p k r :
  l = Leaf \/ r = Leaf -> sep root nil z (Node c l p k r) -> sep root nil z (only_child l r).
Proof.
  intros H Hs. unfold sep in *. cbn in Hs.
  assert (tptrs (only_child l r) = tptrs l ++ tptrs r) as ->.
  { rewrite <- !elems_fst, <- fmap_app. by rewrite elems_only_child. }
  nodup_simpl. rewrite !NoDup_cons, !NoDup_app. split_and!; try done; ne_solve.
Qed.

(** Unlinking an item with at most one child hangs that child in its place. *)
Lemma splice_hang m z c l p k r :
  pos m z (Node c l p k r) -> l = Leaf \/ r = Leaf ->
  let ch := only_child l r in
  let m1 := set_up m (tptr ch) (p_up m p) in
  let m2 := child_set m1 (__cl_map_get_parent_ptr_to_item m1 p) (tptr ch) in
  hang map m2 z ch /\ keeps (nil :: dom_of map z (Node c l p k r)) m m2 /\ color m2 = color m.
Proof.
  intros Hp Hlr ch m1 m2. pose proof Hp as (Hat & Hsep & Hn & Hr).
  destruct (parent_ptr_at map m z _ Hat Hsep ltac:(done)) as [Hpp Hup]. cbn [RbTree.tptr] in Hpp, Hup.
  destruct (sep_facts map _ _ Hsep) as (Hzn & Hzd & Hnt & Hnz). cbn in Hzn, Hzd, Hnt.
  destruct Hat as [Hz (Hl & Hrt & _ & _ & _ & Rl & Rr)].
  assert (tptr ch ∈ nil :: tptrs l ++ tptrs r) as Hch.
  { pose proof (tptr_in_nil map ch) as H. apply elem_of_cons in H as [->|H]; [set_solver|].
    right. by apply tptrs_only_child. }
  assert (p <> tptr ch /\ tptr ch <> zptr z) as [Npc Ncz].
  { split; [revert Hch; generalize (tptr ch); intros y Hy; nodup_simpl; ne_solve|].
    apply Hzn. set_solver. }
  assert (__cl_map_get_parent_ptr_to_item m1 p = zslot root z) as Hpp1.
  { rewrite <- Hpp. unfold __cl_map_get_parent_ptr_to_item, __cl_map_is_left_child. cbn.
    by rewrite (upd_ne _ (tptr ch) p) by done. }
  unfold m2. rewrite Hpp1. assert (forall x, x <> tptr ch -> same_item m m1 x) as Hoff.
  { intros x Hx. repeat split; cbn. by rewrite upd_ne. }
  assert (forall x, x <> tptr ch -> x <> zptr z ->
    same_item m (child_set m1 (zslot root z) (tptr ch)) x) as Hoff2.
  { intros x ??. eapply same_item_trans; [by apply Hoff|by apply child_set_off]. }
  split_and!; [split; [split_and!; [split| | |]|]| |..].
  - eapply repz_set_hole; [done|]. eapply repz_frame; [|exact Hz]. intros x Hx. apply Hoff.
    specialize (Hzd x Hx). revert Hch. generalize (tptr ch). intros y Hy. ne_solve.
  - assert (exists u, rep nil m ch u) as [u Hu] by (unfold ch; destruct l; eexists; done).
    eapply rep_reparent; [| | |exact Hu].
    + intros x Hx Hne. apply Hoff2; [done|]. apply Hzn.
      apply tptrs_only_child in Hx. set_solver.
    + intros _. cbn. rewrite <- Hup. by apply child_set_off.
    + assert (NoDup (tptrs l) /\ NoDup (tptrs r)) as [??] by (nodup_simpl; done).
      unfold ch. by destruct l.
  - by eapply sep_only_child.
  - by rewrite color_child_set.
  - by rewrite color_child_set.
  - rewrite up_child_set. cbn. by rewrite upd_eq.
  - split_and!; [by rewrite links_child_set|by rewrite key_child_set|].
    intros x Hx. unfold dom_of in Hx. cbn in Hx. pose proof (zptr_in root z).
    apply Hoff2; [revert Hch; generalize (tptr ch); intros y Hy; ne_solve|].
    revert H. generalize (zptr z). intros y Hy. ne_solve.
  - by rewrite color_child_set.
Qed.

(** The balance of what is left when a red or a black item is unlinked. *)
Lemma only_child_balance c n l p k r :
  rbt c n (Node c l p k r) -> l = Leaf \/ r = Leaf ->
  exists c' n', rbt c' n' (only_child l r) /\
    (c = CL_MAP_RED -> c' = CL_MAP_BLACK /\ n' = n) /\ (c = CL_MAP_BLACK -> n = S n').
Proof.
  intros Hb Hlr. inversion Hb as [|? ? ? ? ? Hl Hr|? ? ? ? ? ? ? Hl Hr]; subst;
    (destruct l as [|lc ll lp lk lr]; cbn [only_child]; [do 2 eexists; by split|]);
    destruct Hlr as [?| ->]; try done; do 2 eexists; by split.
Qed.

Lemma splice_spec fuel map' m z c l p k r N :
  qm_root map' = root -> qm_nil map' = nil ->
  pos m z (Node c l p k r) -> l = Leaf \/ r = Leaf ->
  rbt CL_MAP_BLACK N (plug z (Node c l p k r)) -> length z < fuel ->
  let ch := tptr (only_child l r) in
  let m1 := set_up m ch (p_up m p) in
  let m2 := child_set m1 (__cl_map_get_parent_ptr_to_item m1 p) ch in
  exists m' T,
    (if decide (color m2 p <> CL_MAP_RED) then __cl_map_del_bal fuel m2 map' ch else Some m2) = Some m' /\
    pos m' [] T /\ elems T = zle z ++ elems l ++ elems r ++ zre z /\ black_balanced T /\
    keeps (nil :: dom_of map z (Node c l p k r)) m m'.
Proof.
  intros Er En Hp Hlr Hb Hf ch m1 m2.
  destruct (splice_hang m z c l p k r Hp Hlr) as (Hh & Hk & Hc). fold ch m1 m2 in Hh, Hk, Hc.
  destruct (rb_unplug N z _ Hb) as (c0 & pc & n & Ht & Hz & Hred).
  assert (c0 = c) as -> by (by inversion Ht). rewrite Hc.
  assert (color m p = c) as -> by (by destruct Hp as ([_ (_ & _ & _ & ? & _)] & _)).
  destruct (only_child_balance c n l p k r Ht Hlr) as (c' & n' & Hch & H1 & H2).
  assert (zelems z (only_child l r) = zle z ++ elems l ++ elems r ++ zre z) as Hel.
  { unfold zelems. by rewrite elems_only_child, <- (assoc_L (++)). }
  destruct Hh as [Hh1 Hh2]. destruct c.
  - rewrite decide_False by tauto. destruct (H1 eq_refl) as [-> ->].
    exists m2, (plug z (only_child l r)). split_and!; [done| |by rewrite <- zelems_plug| |done].
    + apply (step_to_top map m2 z (only_child l r) m2 z (only_child l r)).
      split_and!; [done..|apply keeps_refl].
    + destruct (rb_plug _ _ _ _ _ Hch Hz) as (c1 & n1 & Hpl & [[-> ->]| ->]); [by left|by exists n1..].
  - rewrite decide_True by done. rewrite (H2 eq_refl) in Hz.
    destruct (del_bal_spec map' fuel m2 z (only_child l r) n' c' pc) as (m' & T & Hd & St & HT);
      [done|unfold hang, RbInsert.pos; rewrite Er, En; by split|done|done|].
    rewrite En in Hd. destruct St as (Hp' & Hel' & Hk').
    exists m', T. split_and!; [done| | |done|].
    + unfold RbInsert.pos in *. by rewrite <- Er, <- En.
    + rewrite <- Hel, <- Hel'. unfold zelems. cbn. by rewrite app_nil_r.
    + eapply keeps_trans; [exact Hk|]. eapply keeps_mono; [|exact Hk']. intros x.
      unfold dom_of. rewrite Er. intros Hx. apply elem_of_cons in Hx as [->|Hx]; [set_solver|].
      assert (tptrs (only_child l r) = tptrs l ++ tptrs r) as E.
      { rewrite <- !elems_fst, <- fmap_app. by rewrite elems_only_child. }
      rewrite E in Hx. cbn. set_solver.
Qed.

(** The memory after [d] has been put in the place of an item. *)
Definition exchanged m z l r (d : ptr) (c : cl_map_color_t) : mem K :=
  let m3 := set_right (set_left (set_up m d (zptr z)) d (tptr l)) d (tptr r) in
  set_color (set_up (set_up (child_set m3 (zslot root z) d) (tptr r) d) (tptr l) d) d c.

Lemma exchange_eq m z c l p k r d :
  pos m z (Node c l p k r) -> d ∉ nil :: dom_of map z (Node c l p k r) ->
  del_exchange m p d = exchanged m z l r d c.
Proof.
  intros Hp Hd. pose proof Hp as (Hat & Hsep & Hn & Hr).
  destruct (parent_ptr_at map m z _ Hat Hsep ltac:(done)) as [Hpp Hup]. cbn [RbTree.tptr] in Hpp, Hup.
  destruct (sep_facts map _ _ Hsep) as (Hzn & _ & Hnt & _). cbn in Hzn, Hnt.
  destruct Hat as [_ (Hl & Hrt & _ & Hc & _)]. unfold dom_of in Hd. cbn in Hd.
  pose proof (zptr_in root z) as Hzi.
  assert (p <> d /\ zptr z <> d /\ p <> zptr z) as (Npd & Nzd & Npz).
  { split_and!; [ne_solve|revert Hzi; generalize (zptr z); intros; ne_solve|apply Hzn; set_solver]. }
  pose proof (tptr_in_nil map r) as Hri.
  assert (p <> tptr r) as Npr by (revert Hri; generalize (tptr r); intros; ne_solve).
  unfold del_exchange, exchanged. rewrite Hup.
  set (m1 := set_up m d (zptr z)). assert (p_left m1 p = tptr l) as -> by exact Hl.
  set (m2 := set_left m1 d (tptr l)). assert (p_right m2 p = tptr r) as -> by exact Hrt.
  set (m3 := set_right m2 d (tptr r)).
  assert (__cl_map_get_parent_ptr_to_item m3 p = zslot root z) as ->.
  { rewrite <- Hpp. unfold __cl_map_get_parent_ptr_to_item, __cl_map_is_left_child. cbn.
    rewrite (upd_ne _ d p) by done. rewrite Hup. by rewrite (upd_ne _ d (zptr z)) by done. }
  destruct (child_set_off map m3 z d p Npz) as (E1 & E2 & E3 & E4 & _).
  assert (p_right (child_set m3 (zslot root z) d) p = tptr r) as ->.
  { rewrite E2. cbn. by rewrite upd_ne by done. }
  set (m4 := set_up _ (tptr r) d). assert (p_left m4 p = tptr l) as ->.
  { cbn. rewrite E1. cbn. by rewrite upd_ne by done. }
  set (m5 := set_up m4 (tptr l) d). assert (color m5 p = c) as ->; [|done].
  cbn. rewrite E4. cbn. done.
Qed.

Lemma exchanged_off m z l r d c x :
  x <> d -> x <> zptr z -> x <> tptr l -> x <> tptr r -> same_item m (exchanged m z l r d c) x.
Proof.
  intros. eapply same_item_trans; [|eapply same_item_trans; [by apply (child_set_off map _ z d)|]];
    [instantiate (1 := set_right (set_left (set_up m d (zptr z)) d (tptr l)) d (tptr r))|];
    repeat split; cbn; by rewrite ?upd_ne.
Qed.

Lemma exchanged_child m z l r d c x :
  x <> d -> x <> zptr z -> x = tptr l \/ x = tptr r ->
  same_item (set_up m x d) (exchanged m z l r d c) x.
Proof.
  intros Hd Hz Hx.
  destruct (child_set_off map (set_right (set_left (set_up m d (zptr z)) d (tptr l)) d (tptr r)) z d x Hz)
    as (E1 & E2 & E3 & E4 & E5). cbn in E1, E2, E3, E4, E5.
  unfold exchanged. repeat split; cbn.
  - by rewrite E1, upd_ne.
  - by rewrite E2, upd_ne.
  - rewrite upd_eq. unfold upd. repeat case_decide; naive_solver.
  - by rewrite upd_ne, E4.
  - by rewrite E5.
Qed.

(** Putting [d] in the place of [p]. *)
Lemma exchange_spec m z c l p k r d :
  pos m z (Node c l p k r) -> d ∉ nil :: dom_of map z (Node c l p k r) ->
  pos (del_exchange m p d) z (Node c l d (key m d) r) /\
  keeps (d :: nil :: dom_of map z (Node c l p k r)) m (del_exchange m p d).
Proof.
  intros Hp Hd. rewrite (exchange_eq m z c l p k r d) by done. pose proof Hp as (Hat & Hsep & Hn & Hr).
  destruct (sep_facts map _ _ Hsep) as (Hzn & Hzd & Hnt & Hnz). cbn in Hzn, Hzd, Hnt.
  destruct Hat as [Hz (_ & _ & _ & _ & _ & Rl & Rr)]. unfold dom_of in Hd. cbn in Hd.
  pose proof (zptr_in root z) as Hzi. pose proof (tptr_in_nil map l) as Hli. pose proof (tptr_in_nil map r) as Hri.
  assert (d <> zptr z /\ d <> tptr l /\ d <> tptr r) as (Ndz & Ndl & Ndr).
  { revert Hzi Hli Hri. generalize (zptr z), (tptr l), (tptr r). intros. split_and!; ne_solve. }
  set (m3 := set_right (set_left (set_up m d (zptr z)) d (tptr l)) d (tptr r)).
  destruct (child_set_off map m3 z d d Ndz) as (E1 & E2 & E3 & E4 & E5).
  split; [split_and!; [split|..]|split_and!].
  - eapply repz_frame; [|eapply (repz_set_hole root nil m3); [exact Hnz|eapply repz_frame; [|exact Hz]]].
    + intros x Hx. assert (x <> d /\ x <> tptr l /\ x <> tptr r) as (?&?&?).
      { specialize (Hzd x Hx). revert Hli Hri. generalize (tptr l), (tptr r). intros. split_and!; ne_solve. }
      unfold exchanged. repeat split; cbn; by rewrite ?upd_ne.
    + intros x Hx. assert (x <> d) by ne_solve. repeat split; cbn; by rewrite ?upd_ne.
  - unfold exchanged. fold m3. cbn. rewrite !upd_ne, upd_eq, E1, E2, E3, E5 by done. cbn. rewrite !upd_eq.
    split_and!; try done; (eapply rep_reparent; [| | |eassumption]).
    1, 4: intros x Hx Hne; apply exchanged_off; [ne_solve|apply Hzn; set_solver|..];
      revert Hli Hri Hne; generalize (tptr l), (tptr r); intros; ne_solve.
    1, 3: intros Ht; apply (tptr_in nil) in Ht; apply exchanged_child; [done|apply Hzn; set_solver|by auto].
    all: nodup_simpl; done.
  - unfold sep in *. cbn in *. nodup_simpl. rewrite !NoDup_cons, !NoDup_app, !NoDup_cons.
    split_and!; try done; ne_solve.
  - unfold exchanged. cbn. rewrite upd_ne by ne_solve. by rewrite color_child_set.
  - unfold exchanged. cbn. rewrite upd_ne by ne_solve. by rewrite color_child_set.
  - unfold exchanged. cbn. by rewrite links_child_set.
  - unfold exchanged. cbn. by rewrite key_child_set.
  - intros x Hx. unfold dom_of in Hx. cbn in Hx. revert Hzi Hli Hri. intros.
    apply exchanged_off; revert Hzi Hli Hri; generalize (zptr z), (tptr l), (tptr r); intros; ne_solve.
Qed.
End Surgery.

(** ** The effect of a removal on the entries *)

Section Remove.
Context {K : Type} (cmp : K -> K -> comparison) `{!KeyOrder cmp}.
Implicit Types (m : mem K) (t l r T : tree K) (z : list (zframe K)) (map : cl_qmap_t).
Implicit Types (E : list (ptr * K)) (k : K).

Lemma pos_plug map m z t : pos map m z t <-> pos map m [] (plug z t).
Proof. revert t. induction z as [|f z IH]; intros t; cbn; [done|]. by rewrite pos_fill, IH. Qed.

Lemma dom_of_plug map z t : dom_of map z t = dom_of map [] (plug z t).
Proof. apply dom_of_cong. rewrite zelems_plug. unfold zelems. cbn. by rewrite app_nil_r. Qed.

Lemma dom_of_elems map T : dom_of map [] T = qm_root map :: (elems T).*1.
Proof. unfold dom_of. cbn. by rewrite app_nil_r, elems_fst. Qed.

(** Unlinking an item that has at most one child. *)
Lemma unlink_direct map m z c l p k r N :
  pos map m z (Node c l p k r) -> l = Leaf \/ r = Leaf ->
  rbt CL_MAP_BLACK N (plug z (Node c l p k r)) -> length z < map_fuel map ->
  exists m' T, del_unlink m map p p = Some m' /\ pos map m' [] T /\
    elems T = zle z ++ elems l ++ elems r ++ zre z /\ black_balanced T /\
    keeps (qm_nil map :: dom_of map z (Node c l p k r)) m m'.
Proof.
  intros Hp Hlr Hb Hf. unfold del_unlink. rewrite (only_child_ptr map m z c l p k r) by done.
  destruct (splice_spec map (map_fuel map) map m z c l p k r N) as (m' & T & -> & H); try done.
  cbn [mbind option_bind]. rewrite decide_False by tauto. eauto.
Qed.

(** Unlinking the successor of an item and giving it the item's place. *)
Lemma unlink_successor map m z c l p k zl cd d kd rd N :
  let r := plug zl (Node cd Leaf d kd rd) in
  zle zl = [] -> pos map m z (Node c l p k r) ->
  rbt CL_MAP_BLACK N (plug z (Node c l p k r)) -> length z + length zl + 1 < map_fuel map ->
  exists m' T, del_unlink m map p d = Some m' /\ pos map m' [] T /\
    elems T = zle z ++ elems l ++ elems r ++ zre z /\ black_balanced T /\
    keeps (qm_nil map :: dom_of map z (Node c l p k r)) m m'.
Proof.
  intros r Hzl Hp Hb Hf. set (z' := zl ++ InRight c l p k :: z).
  assert (plug z' (Node cd Leaf d kd rd) = plug z (Node c l p k r)) as Hpl.
  { unfold z'. by rewrite plug_app. }
  assert (elems r = (d, kd) :: elems rd ++ zre zl) as Her.
  { unfold r. rewrite <- zelems_plug. unfold zelems. by rewrite Hzl. }
  assert (pos map m z' (Node cd Leaf d kd rd)) as Hp' by by rewrite pos_plug, Hpl, <- pos_plug.
  assert (key m d = kd) as Hkd by (by destruct Hp' as ([_ (_&_&_&_&?&_)] & _)).
  pose proof Hp' as (_ & Hsep & _). unfold del_unlink.
  rewrite (only_child_ptr map m z' cd Leaf d kd rd) by done.
  destruct (splice_spec map (map_fuel map) map m z' cd Leaf d kd rd N) as (m1 & T & -> & Hp1 & HT & Hb1 & Hk1);
    [done|done|done|by left|by rewrite Hpl|unfold z'; rewrite length_app; cbn; lia|].
  assert (d ∉ qm_nil map :: qm_root map :: (elems T).*1) as Hd.
  { unfold sep in Hsep. cbn in Hsep. rewrite HT, !fmap_app, zle_fst, zre_fst, (elems_fst rd). cbn.
    generalize dependent (zlp z'). generalize (zrp z'), (tptrs rd). intros l1 l2 l3 Hs.
    nodup_simpl. ne_solve. }
  cbn [mbind option_bind]. unfold z' in HT. rewrite zle_app, zre_app, Hzl in HT. cbn in HT.
  assert (elems T = (zle z ++ elems l) ++ (p, k) :: (elems rd ++ zre zl ++ zre z)) as HT'.
  { rewrite HT, app_nil_r, <- !(assoc_L (++)). done. }
  destruct (tree_split T _ p k _ HT') as (z2 & c2 & l2 & r2 & -> & HE1 & HE2).
  rewrite decide_True.
  2:{ intros ->. apply Hd. rewrite HT', fmap_app. set_solver. }
  apply pos_plug in Hp1. destruct (exchange_spec map m1 z2 c2 l2 p k r2 d) as [Hp2 Hk2]; [done| |].
  { by rewrite dom_of_plug, dom_of_elems. }
  exists (del_exchange m1 p d), (plug z2 (Node c2 l2 d (key m1 d) r2)). split_and!; [done|by rewrite <- pos_plug| | |].
  - rewrite <- zelems_plug. unfold zelems. cbn. rewrite (proj1 (proj2 Hk1)), Hkd.
    rewrite <- !(assoc_L (++)), Her. cbn. rewrite (assoc_L (++) (zle z2)), HE1, HE2.
    by rewrite <- !(assoc_L (++)).
  - destruct Hb1 as [n Hn]. exists n. revert Hn. apply rbt_plug_cong. intros c0 n0 Ht. inversion Ht; subst; by econstructor.
  - rewrite (dom_of_plug map z). rewrite (dom_of_plug map z'), Hpl in Hk1.
    eapply keeps_trans; [exact Hk1|eapply keeps_mono; [|exact Hk2]]. intros x.
    rewrite (dom_of_plug map z2), !dom_of_elems, HT', <- (zelems_plug z). unfold zelems. cbn [elems]. rewrite Her, !fmap_app, !fmap_cons, !fmap_app.
    cbn. generalize (zle z).*1, (elems l).*1, (elems rd).*1, (zre zl).*1, (zre z).*1. clear. set_solver.
Qed.

(** The tree after the removal, whichever item is unlinked. *)
Lemma remove_tree map m T N E1 p k E2 :
  pos map m [] T -> rbt CL_MAP_BLACK N T -> elems T = E1 ++ (p, k) :: E2 ->
  length (elems T) <= map_fuel map ->
  exists m' T',
    del_unlink m map p
      (if decide (p_right m p = qm_nil map \/ p_left m p = qm_nil map) then p
       else default (qm_nil map) (head E2.*1)) = Some m' /\
    pos map m' [] T' /\ elems T' = E1 ++ E2 /\ black_balanced T' /\
    keeps (qm_nil map :: dom_of map [] T) m m'.
Proof.
  intros Hp Hb HE Hf. destruct (tree_split T E1 p k E2 HE) as (z & c & l & r & -> & <- & <-).
  pose proof (length_plug z (Node c l p k r)) as Hlen. cbn in Hlen. rewrite length_app in Hlen. cbn in Hlen.
  apply pos_plug in Hp. pose proof Hp as ([_ (Hl & Hr & _)] & _). rewrite Hl, Hr.
  rewrite <- dom_of_plug, <- (assoc_L (++)). assert (l = Leaf \/ r = Leaf \/ l <> Leaf /\ r <> Leaf) as Hlr by (destruct l, r; auto).
  apply or_assoc in Hlr. destruct Hlr as [Hlr|[Hl0 Hr0]].
  - rewrite decide_True by (destruct Hlr as [->| ->]; auto). eapply unlink_direct; [done|done|done|lia].
  - assert (tptr (qm_nil map) r <> qm_nil map).
    { apply (tptr_not_nil map m (InRight c l p k :: z)); [by rewrite pos_fill|done]. }
    assert (tptr (qm_nil map) l <> qm_nil map).
    { apply (tptr_not_nil map m (InLeft c p k r :: z)); [by rewrite pos_fill|done]. }
    rewrite decide_False by tauto.
    destruct (tree_leftmost r Hr0) as (zl & cd & d & kd & rd & -> & Hzl & Her).
    assert (default (qm_nil map) (head (elems (plug zl (Node cd Leaf d kd rd)) ++ zre z).*1) = d) as ->.
    { by rewrite Her. }
    pose proof (length_plug zl (Node cd Leaf d kd rd)) as Hlen'. cbn in Hlen'.
    eapply unlink_successor; [done|done|done|lia].
Qed.

(** The effect of [cl_qmap_remove_item] on an item of the map. *)
Definition removed m map E E' m' map' : Prop :=
  qm_root map' = qm_root map /\ qm_nil map' = qm_nil map /\ qm_state map' = qm_state map /\
  map_at cmp m' map' E' /\ mkeeps (owned map E) m m' /\ key m' = key m.

Lemma map_remove_item_spec m map E1 p k E2 :
  map_at cmp m map (E1 ++ (p, k) :: E2) ->
  exists m' map', cl_qmap_remove_item m map p = Some (m', map') /\
    removed m map (E1 ++ (p, k) :: E2) (E1 ++ E2) m' map'.
Proof.
  intros Hm. pose proof (map_at_NoDup _ _ _ _ Hm) as Hnd.
  destruct Hm as (T & N & Hp & HE & Hb & Hs & Hri & Hc & Hlt). unfold cl_qmap_remove_item.
  assert (p <> qm_nil map) as Hpn.
  { unfold owned in Hnd. rewrite fmap_app in Hnd. cbn in Hnd. nodup_simpl. ne_solve. }
  rewrite decide_False by done. rewrite fmap_app, fmap_cons in Hri. cbn [fst] in Hri.
  unfold cl_qmap_next. rewrite (ring_next _ _ _ _ _ Hri).
  set (m1 := set_links m _). set (map1 := qm_set_count _ _).
  rewrite length_app in Hc, Hlt. cbn in Hc, Hlt.
  assert (qm_count map1 = Z.of_nat (length (E1 ++ E2))) as Hc1.
  { cbn. rewrite wrap_small; rewrite ?length_app; lia. }
  destruct (remove_tree map1 m1 T N E1 p k E2) as (m' & T' & Hd & Hp' & HT' & Hb' & Hk); [apply (pos_frame cmp map m); [by repeat split|done]|done|done| |].
  { unfold map_fuel. rewrite Hc1, HE, !length_app. cbn. lia. }
  change (p_right m1 p) with (p_right m p) in Hd. change (p_left m1 p) with (p_left m p) in Hd.
  change (qm_nil map1) with (qm_nil map) in Hd.
  rewrite Hd. cbn [mbind option_bind]. eexists _, _. split; [done|].
  destruct Hk as (Hlk & Hky & Hoff). destruct Hb' as [n Hb']. unfold removed. split_and!; [done..| | |exact Hky].
  - exists T', n. split_and!; try done.
    + rewrite (sorted_app cmp) in Hs |- *. cbn in Hs. destruct Hs as (?&(_&?)&?). split_and!; [done..|]. set_solver.
    + rewrite Hlk. cbn. rewrite fmap_app. by apply ring_remove.
    + rewrite length_app. lia.
  - split; intros x Hx.
    + apply Hoff. rewrite dom_of_elems, HE. unfold owned in Hx. cbn. rewrite !not_elem_of_cons in *. tauto.
    + rewrite Hlk. cbn. eapply ring_remove_frame; [exact Hri|]. unfold owned in Hx.
      rewrite fmap_app, fmap_cons in Hx. cbn [fst] in Hx. generalize dependent E1.*1. generalize E2.*1. intros l1 l2 _ Hx.
      rewrite !not_elem_of_cons, !not_elem_of_app, !not_elem_of_cons in *. tauto.
Qed.
End Remove.
