(* ===== verification/MapOps.v ===== *)
(** * The remaining operations of a map

    Initialisation, traversal, and the operations that move items between maps,
    against functions on entry lists: [entry_insert], [has_key] and filters. *)

From S2P Require Import Prelude Qlist RbMap RbTree RbInsert RbRemove MapSpec MapRemove.

Section Entries.
Context {K : Type} (cmp : K -> K -> comparison) `{!KeyOrder cmp}.
Implicit Types (E : list (ptr * K)) (k : K) (e : ptr * K).

(** Insertion at the place of the key; an entry with the key is left alone. *)
Fixpoint entry_insert e E : list (ptr * K) :=
  match E with
  | [] => [e]
  | x :: E' =>
      match cmp e.2 x.2 with
      | Lt => e :: x :: E'
      | Eq => x :: E'
      | Gt => x :: entry_insert e E'
      end
  end.

Definition has_key k E : bool := existsb (fun e => bool_decide (cmp k e.2 = Eq)) E.

Lemma has_key_lookup k E : has_key k E = bool_decide (is_Some (lookup_key cmp k E)).
Proof.
  induction E as [|e E IH]; [done|]. unfold lookup_key in *. rewrite filterb_cons.
  unfold has_key in *. cbn [existsb]. rewrite IH.
  destruct (bool_decide (cmp k e.2 = Eq)); cbn [orb]; [|done]. symmetry. apply bool_decide_true. cbn. eauto.
Qed.

Lemma has_key_false k E : has_key k E = false <-> lookup_key cmp k E = None.
Proof. rewrite has_key_lookup, bool_decide_eq_false, <- eq_None_not_Some. done. Qed.

Lemma has_key_app k E1 E2 : has_key k (E1 ++ E2) = has_key k E1 || has_key k E2.
Proof. apply existsb_app. Qed.

Lemma has_key_in k E : has_key k E = true <-> exists e, e ∈ E /\ cmp k e.2 = Eq.
Proof.
  unfold has_key. rewrite existsb_exists. setoid_rewrite bool_decide_eq_true.
  by setoid_rewrite list_elem_of_In.
Qed.

Lemma has_key_none k E : (forall e, e ∈ E -> cmp k e.2 <> Eq) -> has_key k E = false.
Proof.
  intros H. destruct (has_key k E) eqn:Ek; [|done].
  apply has_key_in in Ek as (e & He & Hk). by destruct (H e He).
Qed.

Lemma entry_insert_split k p E1 E2 :
  below cmp k E1 -> above cmp k E2 -> entry_insert (p, k) (E1 ++ E2) = E1 ++ (p, k) :: E2.
Proof.
  intros Hb Ha. induction E1 as [|e E1 IH]; cbn.
  - destruct E2 as [|x E2]; [done|]. cbn. rewrite (Ha x); [done|set_solver].
  - rewrite (Hb e) by set_solver. f_equal. apply IH. intros x Hx. apply Hb. set_solver.
Qed.

Lemma entry_insert_old k p E : sorted cmp E -> has_key k E = true -> entry_insert (p, k) E = E.
Proof.
  induction E as [|x E IH]; [done|]. cbn. intros [Hx Hs] Hk. destruct (cmp k x.2) eqn:Ec; [done| |].
  - apply orb_true_iff in Hk as [Hk|Hk]; [by apply bool_decide_eq_true in Hk|].
    apply has_key_in in Hk as (e & He & Heq). specialize (Hx e He). unfold key_lt in Hx.
    rewrite (cmp_eq_l (cmp:=cmp) _ _ x.2 Heq) in Ec. apply (cmp_gt_lt cmp) in Hx. congruence.
  - f_equal. apply IH; [done|]. rewrite bool_decide_false in Hk; [exact Hk|congruence].
Qed.

Lemma entry_insert_last k p E : below cmp k E -> entry_insert (p, k) E = E ++ [(p, k)].
Proof. intros. rewrite <- (app_nil_r E) at 1. apply entry_insert_split; [done|set_solver]. Qed.

(** Deletion of the entry with the key, if any. *)
Definition entry_delete k E : list (ptr * K) := filterb (fun e => negb (bool_decide (cmp k e.2 = Eq))) E.

Lemma entry_delete_other k E : (forall e, e ∈ E -> cmp k e.2 <> Eq) -> entry_delete k E = E.
Proof.
  unfold entry_delete. induction E as [|e E IH]; intros H; [done|].
  rewrite filterb_cons, bool_decide_false by (apply H; set_solver). cbn [negb]. rewrite IH by set_solver. done.
Qed.

Lemma entry_delete_none k E : lookup_key cmp k E = None -> entry_delete k E = E.
Proof.
  intros Hn. apply entry_delete_other. intros e He Hk. apply has_key_false in Hn.
  enough (has_key k E = true) by congruence. apply has_key_in. eauto.
Qed.

Lemma entry_delete_split k E1 p k' E2 :
  sorted cmp (E1 ++ (p, k') :: E2) -> cmp k k' = Eq -> entry_delete k (E1 ++ (p, k') :: E2) = E1 ++ E2.
Proof.
  rewrite (sorted_app cmp). cbn. intros (_ & (H2 & _) & H3) Hk. unfold entry_delete.
  rewrite filterb_app, filterb_cons. cbn [snd]. rewrite bool_decide_true by done. cbn [negb].
  fold (entry_delete k E1) (entry_delete k E2).
  rewrite !entry_delete_other; [done|..]; intros e He; rewrite (cmp_eq_l (cmp:=cmp) _ _ _ Hk).
  - specialize (H2 e He). unfold key_lt in H2. cbn in H2. congruence.
  - specialize (H3 e (p, k') He ltac:(set_solver)). unfold key_lt in H3. cbn in H3.
    apply (cmp_gt_lt cmp) in H3. congruence.
Qed.
End Entries.

(** The set of changed items matters up to order. *)
#[export] Instance mkeeps_proper {K} : Proper ((≡ₚ) ==> eq ==> eq ==> iff) (mkeeps (K:=K)).
Proof.
  intros S S' HS m _ <- m' _ <-. unfold mkeeps, same_off.
  split; (intros [H1 H2]; split; intros x Hx; [apply H1|apply H2]; by rewrite HS in * || by rewrite <- HS in *).
Qed.

(** Membership goals on the addresses owned by maps: the address lists of the
    entries are abstracted first. *)
Ltac owned_simpl :=
  unfold owned in *;
  repeat match goal with
  | H : context [(_ ++ _).*1] |- _ => rewrite fmap_app in H
  | |- context [(_ ++ _).*1] => rewrite fmap_app
  | H : context [(_ :: _).*1] |- _ => rewrite fmap_cons in H; cbn [fst] in H
  | |- context [(_ :: _).*1] => rewrite fmap_cons; cbn [fst]
  | H : context [[].*1] |- _ => rewrite fmap_nil in H
  | |- context [[].*1] => rewrite fmap_nil
  end.
Ltac owned_solve :=
  owned_simpl;
  repeat match goal with
  | H : context [fmap fst ?E] |- _ => let l := fresh "l" in set (l := fmap fst E) in *; clearbody l
  | |- context [fmap fst ?E] => let l := fresh "l" in set (l := fmap fst E) in *; clearbody l
  end; set_solver.

Section Operations.
Context {K : Type} (cmp : K -> K -> comparison) `{!KeyOrder cmp}.
Implicit Types (m : mem K) (map : cl_qmap_t) (E : list (ptr * K)) (k : K).

Abbreviation map_at := (map_at cmp).
Abbreviation removed := (removed cmp).
Abbreviation entry_insert := (entry_insert cmp).
Abbreviation has_key := (has_key cmp).

(** ** Insertion and removal, on entry lists *)

Lemma map_insert_entries m map E k p :
  map_at m map E -> p ∉ owned map E -> (Z.of_nat (length E) + 1 < 2 ^ 64)%Z ->
  exists m' map',
    cl_qmap_insert cmp m map k p = Some (default p (lookup_key cmp k E), m', map') /\
    map_at m' map' (entry_insert (p, k) E) /\ mkeeps (p :: owned map E) m m' /\ key m' p = k /\
    qm_root map' = qm_root map /\ qm_nil map' = qm_nil map.
Proof.
  intros Hm Hp Hl. pose proof Hm as (_ & _ & _ & _ & _ & Hs & _).
  destruct (map_insert_spec cmp m map E k p) as (p' & m' & map' & -> & (Hr & Hn & Hk & Hkeep & H)); try done.
  exists m', map'. destruct (lookup_key cmp k E) as [q|] eqn:El.
  - destruct H as (-> & -> & Hm'). rewrite entry_insert_old; [done..|].
    rewrite has_key_lookup, El. by apply bool_decide_true; eauto.
  - destruct H as (-> & E1 & E2 & -> & Hb & Ha & Hm'). rewrite entry_insert_split; done.
Qed.

(** Addresses are owned once. *)
Lemma map_at_split m map E p k E1 E2 :
  map_at m map E -> E = E1 ++ (p, k) :: E2 -> p ∉ owned map (E1 ++ E2) /\ key m p = k.
Proof.
  intros Hm ->. pose proof (map_at_NoDup _ _ _ _ Hm) as Hnd. split.
  - unfold owned in *. rewrite fmap_app, fmap_cons in Hnd. rewrite fmap_app. cbn [fst] in Hnd.
    generalize dependent E1.*1. generalize E2.*1. intros l1 l2 Hnd. nodup_simpl. ne_solve.
  - destruct Hm as (T & n & Hp & HE & _). destruct (tree_split T _ _ _ _ HE) as (z & c & l & r & -> & _).
    apply pos_plug in Hp. by destruct Hp as ([_ (_&_&_&_&?&_)] & _).
Qed.

(** ** Initialisation *)

Lemma map_init_spec m map :
  qm_root map <> qm_nil map ->
  let '(m', map') := cl_qmap_init m map in
  map_at m' map' [] /\ mkeeps [qm_root map; qm_nil map] m m' /\
  qm_root map' = qm_root map /\ qm_nil map' = qm_nil map /\ qm_state map' = CL_INITIALIZED.
Proof.
  intros Hne. cbn. split_and!; [|split|done..].
  - exists Leaf, 0. split_and!; [|done|constructor|done|apply ring_reset|done|done].
    split_and!; [split; cbn; upd_simpl; done|..].
    + unfold sep. cbn. rewrite !NoDup_cons. split_and!; [set_solver..|apply NoDup_nil_2].
    + cbn. by upd_simpl.
    + cbn. by upd_simpl.
  - intros x Hx. repeat split; cbn; by rewrite !upd_ne by set_solver.
  - intros x Hx. cbn. by rewrite !upd_ne by set_solver.
Qed.

Lemma map_remove_all_spec m map E :
  map_at m map E ->
  let '(m', map') := cl_qmap_remove_all m map in
  map_at m' map' [] /\ mkeeps [qm_root map; qm_nil map] m m' /\
  qm_root map' = qm_root map /\ qm_nil map' = qm_nil map /\ qm_state map' = qm_state map.
Proof.
  intros Hm. pose proof (map_at_NoDup _ _ _ _ Hm) as Hnd. cbn. split_and!; [|split|done..].
  - exists Leaf, 0. destruct Hm as (T & n & (_ & _ & Hn & Hr) & _).
    split_and!; [|done|constructor|done|apply ring_reset|done|done].
    split_and!; [split; cbn; upd_simpl; done| |done|done].
    unfold sep, owned in *. cbn. rewrite !NoDup_cons in *. split_and!; [set_solver..|apply NoDup_nil_2].
  - intros x Hx. repeat split; cbn; by rewrite ?upd_ne by set_solver.
  - intros x Hx. cbn. by rewrite !upd_ne by set_solver.
Qed.

(** ** Removal by key *)

Lemma lookup_key_some k E p : lookup_key cmp k E = Some p -> exists k', (p, k') ∈ E /\ cmp k k' = Eq.
Proof.
  unfold lookup_key. intros H. apply fmap_Some in H as ((q & k') & H & ->). exists k'.
  assert ((q, k') ∈ filterb (fun e => bool_decide (cmp k e.2 = Eq)) E) as Hin.
  { destruct (filterb _ E); [done|]. cbn in H. injection H as ->. set_solver. }
  apply elem_of_filterb in Hin as [Hk Hin]. apply bool_decide_eq_true in Hk. done.
Qed.

Lemma map_remove_spec m map E k :
  map_at m map E ->
  exists m' map',
    cl_qmap_remove cmp m map k = Some (default (qm_nil map) (lookup_key cmp k E), m', map') /\
    removed m map E (entry_delete cmp k E) m' map' /\ (lookup_key cmp k E = None -> m' = m /\ map' = map).
Proof.
  intros Hm. pose proof Hm as (_ & _ & _ & _ & _ & Hs & _).
  unfold cl_qmap_remove. rewrite (map_get_spec cmp _ _ _ _ Hm). cbn [mbind option_bind].
  destruct (lookup_key cmp k E) as [p|] eqn:El.
  - apply lookup_key_some in El as (k' & Hin & Hk). apply list_elem_of_split in Hin as (E1 & E2 & ->).
    destruct (map_remove_item_spec cmp _ _ _ _ _ _ Hm) as (m' & map' & Hr & H).
    change (default (qm_nil map) (Some p)) with p. rewrite Hr. exists m', map'. by rewrite (entry_delete_split cmp).
  - unfold cl_qmap_remove_item. rewrite decide_True by done. cbn. rewrite entry_delete_none by done.
    exists m, map. split_and!; try done.
Qed.

(** ** Traversal *)

Lemma map_next_spec m map E1 p k E2 :
  map_at m map (E1 ++ (p, k) :: E2) ->
  cl_qmap_next m p = default (qm_nil map) (head E2.*1) /\
  cl_qmap_prev m p = default (qm_nil map) (last E1.*1).
Proof.
  intros (_ & _ & _ & _ & _ & _ & Hr & _). rewrite fmap_app in Hr. cbn in Hr.
  split; [by eapply ring_next|by eapply ring_prev].
Qed.

Lemma map_ends_spec m map E :
  map_at m map E ->
  cl_qmap_head m map = default (qm_nil map) (head E.*1) /\
  cl_qmap_tail m map = default (qm_nil map) (last E.*1).
Proof.
  intros (_ & _ & _ & _ & _ & _ & Hr & _). split; [by apply ring_head|by apply ring_tail].
Qed.

Lemma qmap_apply_loop_spec {A} m map (f : ptr -> A -> A) : forall E2 E1 fuel ctx,
  map_at m map (E1 ++ E2) -> length E2 < fuel ->
  qmap_apply_loop fuel m map f (default (qm_nil map) (head E2.*1)) ctx =
  Some (foldl (fun c e => f e.1 c) ctx E2).
Proof.
  induction E2 as [|[p k] E2 IH]; intros E1 [|fuel] ctx Hm Hf; try (cbn in Hf; lia); cbn.
  - by rewrite decide_True.
  - unfold cl_qmap_end. rewrite decide_False.
    + rewrite (proj1 (map_next_spec _ _ _ _ _ _ Hm)). apply (IH (E1 ++ [(p, k)])); [|cbn in Hf; lia].
      by rewrite <- (assoc_L (++)).
    + destruct (map_at_split _ _ _ _ _ _ _ Hm eq_refl) as [Hp _]. unfold owned in Hp. set_solver.
Qed.

Lemma map_apply_spec {A} m map E (f : ptr -> A -> A) ctx :
  map_at m map E -> cl_qmap_apply_func m map f ctx = Some (foldl (fun c e => f e.1 c) ctx E).
Proof.
  intros Hm. unfold cl_qmap_apply_func. rewrite (proj1 (map_ends_spec _ _ _ Hm)).
  apply (qmap_apply_loop_spec m map f E []); [done|]. rewrite (map_fuel_enough cmp _ _ _ Hm). lia.
Qed.

(** ** Moving items between maps *)

(** The sentinels of a map structure do not move. *)
Definition same_map map map' : Prop := qm_root map' = qm_root map /\ qm_nil map' = qm_nil map.

(** Two maps have no address in common. *)
Definition apart map1 E1 map2 E2 : Prop := forall x, x ∈ owned map1 E1 -> x ∉ owned map2 E2.

Lemma owned_same map map' E : same_map map map' -> owned map' E = owned map E.
Proof. intros [H1 H2]. unfold owned. by rewrite H1, H2. Qed.

Lemma sorted_mid E1 p k E2 : sorted cmp (E1 ++ (p, k) :: E2) -> below cmp k E1 /\ above cmp k E2.
Proof.
  rewrite (sorted_app cmp). cbn. intros (_ & (H2 & _) & H3). split; intros e He; [|by apply (H2 e)].
  apply (cmp_gt_lt cmp), (H3 e (p, k)); set_solver.
Qed.

Lemma map_at_sorted m map E : map_at m map E -> sorted cmp E.
Proof. by intros (_ & _ & _ & _ & _ & ? & _). Qed.

Lemma map_at_length m map E : map_at m map E -> (Z.of_nat (length E) < 2 ^ 64)%Z.
Proof. by intros (_ & _ & _ & _ & _ & _ & _ & _ & ?). Qed.

Lemma owned_insert map p k E x : x ∈ owned map (entry_insert (p, k) E) -> x = p \/ x ∈ owned map E.
Proof.
  unfold owned. assert (x ∈ (entry_insert (p, k) E).*1 -> x = p \/ x ∈ E.*1) as H; [|set_solver].
  induction E as [|e E IH]; cbn; [set_solver|]. destruct (cmp k e.2); cbn; set_solver.
Qed.

Lemma has_key_insert k' p k E : cmp k' k <> Eq -> has_key k' (entry_insert (p, k) E) = has_key k' E.
Proof.
  intros Hk. assert (bool_decide (cmp k' k = Eq) = false) as Hb by by apply bool_decide_false.
  unfold MapOps.has_key. induction E as [|e E IH]; cbn; [by rewrite Hb|].
  destruct (cmp k e.2); cbn; [done|by rewrite Hb|by rewrite IH].
Qed.

(** An item leaves one map and is offered to another. *)
Lemma move_spec m dest Ed src E1 p k E2 :
  map_at m src (E1 ++ (p, k) :: E2) -> map_at m dest Ed -> apart src (E1 ++ (p, k) :: E2) dest Ed ->
  (Z.of_nat (length Ed) + 1 < 2 ^ 64)%Z ->
  exists m1 src1 m2 dest2,
    cl_qmap_remove_item m src p = Some (m1, src1) /\ cl_qmap_key m1 p = k /\
    cl_qmap_insert cmp m1 dest k p = Some (default p (lookup_key cmp k Ed), m2, dest2) /\
    map_at m2 src1 (E1 ++ E2) /\ map_at m2 dest2 (entry_insert (p, k) Ed) /\ cl_qmap_key m2 p = k /\
    mkeeps (owned src (E1 ++ (p, k) :: E2) ++ owned dest Ed) m m2 /\
    same_map src src1 /\ same_map dest dest2.
Proof.
  intros Hs Hd Ha Hl. destruct (map_at_split _ _ _ _ _ _ _ Hs eq_refl) as [Hp Hk].
  destruct (map_remove_item_spec cmp _ _ _ _ _ _ Hs) as (m1 & src1 & Hrm & (Hr & Hn & _ & Hs1 & Hk1 & Hky)).
  assert (p ∉ owned dest Ed) as Hpd by (apply Ha; owned_solve).
  assert (map_at m1 dest Ed) as Hd1.
  { eapply map_frame; [done|exact Hk1| |done]. intros x Hx Hx'. by destruct (Ha x Hx'). }
  destruct (map_insert_entries m1 dest Ed k p Hd1 Hpd Hl) as (m2 & dest2 & Hin & Hd2 & Hk2 & Hkp & Hr2 & Hn2).
  exists m1, src1, m2, dest2. split_and!; try done.
  - unfold cl_qmap_key. by rewrite Hky.
  - eapply map_frame; [done|exact Hk2| |done]. intros x. rewrite (owned_same src src1) by done. intros Hx.
    rewrite not_elem_of_cons. split; [intros ->; done|]. apply Ha. owned_solve.
  - eapply mkeeps_trans; eapply mkeeps_mono; [|exact Hk1| |exact Hk2]; clear; intros x; owned_solve.
Qed.

Lemma same_map_trans map1 map2 map3 : same_map map1 map2 -> same_map map2 map3 -> same_map map1 map3.
Proof. intros [] []. split; congruence. Qed.

Lemma cmp_lt_neq k1 k2 : cmp k1 k2 = Lt -> cmp k2 k1 <> Eq.
Proof. intros H. rewrite (cmp_sym (cmp:=cmp) k1 k2), H. done. Qed.

(** ** Merging *)

Definition merged Ed E : list (ptr * K) := foldl (fun D e => entry_insert e D) Ed E.
Definition not_merged Ed E : list (ptr * K) := filterb (fun e => has_key e.2 Ed) E.

Lemma not_merged_step p k E Ed :
  sorted cmp ((p, k) :: E) -> not_merged (entry_insert (p, k) Ed) E = not_merged Ed E.
Proof.
  intros [Hs _]. apply filterb_ext. intros e He. apply has_key_insert.
  apply cmp_lt_neq. by apply (Hs e).
Qed.

(** One iteration of the loop of [cl_qmap_merge]. *)
Lemma merge_step fuel m dest Ed src kept p k rest :
  map_at m src (kept ++ (p, k) :: rest) -> map_at m dest Ed -> apart src (kept ++ (p, k) :: rest) dest Ed ->
  (Z.of_nat (length Ed) + 1 < 2 ^ 64)%Z ->
  exists m' dest' src',
    merge_loop cmp (S fuel) m dest src p =
    merge_loop cmp fuel m' dest' src' (default (qm_nil src) (head rest.*1)) /\
    map_at m' dest' (entry_insert (p, k) Ed) /\
    map_at m' src' ((if has_key k Ed then kept ++ [(p, k)] else kept) ++ rest) /\
    mkeeps (owned src (kept ++ (p, k) :: rest) ++ owned dest Ed) m m' /\
    same_map src src' /\ same_map dest dest'.
Proof.
  intros Hs Hd Ha Hl. destruct (map_at_split _ _ _ _ _ _ _ Hs eq_refl) as [Hp Hk]. cbn [merge_loop].
  unfold cl_qmap_end. rewrite decide_False by (owned_solve).
  rewrite (proj1 (map_next_spec _ _ _ _ _ _ Hs)). pose proof (map_at_sorted _ _ _ Hs) as Hso.
  pose proof (map_at_length _ _ _ Hs) as Hls. rewrite length_app in Hls. cbn in Hls.
  destruct (move_spec m dest Ed src kept p k rest) as
    (m1 & src1 & m2 & dest2 & -> & Hk1 & Hin & Hs2 & Hd2 & Hk2 & Hkeep & Hss & Hsd); [done..|].
  cbn [mbind option_bind]. rewrite Hk1, Hin, has_key_lookup. cbn [mbind option_bind].
  destruct (lookup_key cmp k Ed) as [q|] eqn:El.
  2:{ rewrite decide_False by (cbn; tauto). rewrite bool_decide_false by (intros []; done).
      by exists m2, dest2, src1. }
  apply lookup_key_some in El as (k' & Hq & Hkq). apply (list_elem_of_fmap_2 fst) in Hq as Hq'.
  assert (p ∉ owned dest Ed) as Hpd by (apply Ha; owned_solve).
  rewrite decide_True by (cbn; intros ->; unfold owned in Hpd; set_solver). rewrite bool_decide_true by eauto.
  destruct (map_insert_entries m2 src1 (kept ++ rest) k p) as (m3 & src3 & Hin3 & Hs3 & Hk3 & _ & Hr3 & Hn3);
    [done|by rewrite (owned_same src src1)|rewrite length_app; lia|].
  rewrite Hk2, Hin3. cbn [mbind option_bind].
  destruct (sorted_mid _ _ _ _ Hso) as [Hb Hab]. rewrite entry_insert_split in Hs3 by done.
  rewrite (owned_same src src1) in Hk3 by done.
  exists m3, dest2, src3. split_and!; try done.
  - eapply map_frame; [done|exact Hk3| |done]. rewrite (owned_same dest dest2) by done. intros x Hx Hx'.
    rewrite entry_insert_old in Hx; [|done|by eapply map_at_sorted|apply has_key_in; eauto].
    apply (Ha x); [|done]. clear -Hx'. owned_solve.
  - by rewrite <- (assoc_L (++)).
  - eapply mkeeps_trans; eapply mkeeps_mono; [|exact Hkeep| |exact Hk3]; clear; intros x; owned_solve.
  - eapply same_map_trans; done.
Qed.

Lemma merge_apart src dest kept p k rest Ed :
  apart src (kept ++ (p, k) :: rest) dest Ed -> NoDup (owned src (kept ++ (p, k) :: rest)) -> sorted cmp Ed ->
  apart src ((if has_key k Ed then kept ++ [(p, k)] else kept) ++ rest) dest (entry_insert (p, k) Ed).
Proof.
  intros Ha Hnd Hs x. destruct (has_key k Ed) eqn:Ek.
  - rewrite entry_insert_old, <- (assoc_L (++)) by done. apply Ha.
  - intros Hx [->|Hx']%owned_insert.
    + clear -Hx Hnd. owned_simpl. revert Hx Hnd. generalize kept.*1, rest.*1. intros. nodup_simpl. ne_solve.
    + apply (Ha x); [|done]. clear -Hx. owned_solve.
Qed.

Lemma merge_loop_spec : forall rest kept m dest Ed src fuel,
  map_at m src (kept ++ rest) -> map_at m dest Ed -> apart src (kept ++ rest) dest Ed ->
  (Z.of_nat (length Ed) + Z.of_nat (length rest) < 2 ^ 64)%Z -> length rest < fuel ->
  exists m' dest' src',
    merge_loop cmp fuel m dest src (default (qm_nil src) (head rest.*1)) = Some (m', dest', src') /\
    map_at m' dest' (merged Ed rest) /\ map_at m' src' (kept ++ not_merged Ed rest) /\
    mkeeps (owned src (kept ++ rest) ++ owned dest Ed) m m' /\ same_map src src' /\ same_map dest dest'.
Proof.
  induction rest as [|[p k] rest IH]; intros kept m dest Ed src [|fuel] Hs Hd Ha Hl Hf; try (cbn in Hf; lia).
  - cbn. rewrite decide_True by done. exists m, dest, src. by split_and!.
  - cbn in Hl, Hf. destruct (merge_step fuel m dest Ed src kept p k rest) as
      (m1 & dest1 & src1 & Hst & Hd1 & Hs1 & Hk1 & Hss & Hsd); [done..|lia|].
    change (default (qm_nil src) (head ((p, k) :: rest).*1)) with p. rewrite Hst.
    pose proof (map_at_sorted _ _ _ Hs) as Hso. rewrite (sorted_app cmp) in Hso. destruct Hso as (_ & Hso & _).
    set (kept1 := if has_key k Ed then kept ++ [(p, k)] else kept) in *.
    assert (forall x, x ∈ kept1.*1 -> x ∈ (kept ++ (p, k) :: rest).*1) as Hkept.
    { intros x. unfold kept1. destruct (has_key k Ed); clear; owned_solve. }
    assert (kept1 ++ not_merged Ed rest = kept ++ not_merged Ed ((p, k) :: rest)) as Hkm.
    { unfold not_merged, kept1. rewrite filterb_cons. cbn. destruct (has_key k Ed); [|done].
      by rewrite <- (assoc_L (++)). }
    assert (length (entry_insert (p, k) Ed) <= S (length Ed)) as Hlen.
    { clear. induction Ed as [|e Ed IH]; cbn; [lia|]. destruct (cmp k e.2); cbn; lia. }
    destruct (IH kept1 m1 dest1 (entry_insert (p, k) Ed) src1 fuel) as (m' & dest' & src' & Hl' & Hd' & Hs' & Hk' & Hs1' & Hd1');
      [done|done| |lia|lia|].
    + intros x. rewrite (owned_same src src1), (owned_same dest dest1) by done. intros Hx Hx'.
      apply (merge_apart src dest kept p k rest Ed) with x; try done. by eapply map_at_NoDup. by eapply map_at_sorted.
    + rewrite not_merged_step, Hkm in Hs' by done. destruct Hss as [Hss1 Hss2]. rewrite Hss2 in Hl'.
      exists m', dest', src'. split_and!; try done.
      * eapply mkeeps_trans; [exact Hk1|eapply mkeeps_mono; [|exact Hk']]. intros x.
        rewrite (owned_same src src1), (owned_same dest dest1), elem_of_app by done.
        intros [Hx|[->|Hx]%owned_insert]; owned_solve.
      * by eapply same_map_trans.
      * by eapply same_map_trans.
Qed.

Lemma map_merge_spec m dest Ed src Es :
  map_at m src Es -> map_at m dest Ed -> apart src Es dest Ed ->
  (Z.of_nat (length Ed) + Z.of_nat (length Es) < 2 ^ 64)%Z ->
  exists m' dest' src',
    cl_qmap_merge cmp m dest src = Some (m', dest', src') /\
    map_at m' dest' (merged Ed Es) /\ map_at m' src' (not_merged Ed Es) /\
    mkeeps (owned src Es ++ owned dest Ed) m m' /\ same_map src src' /\ same_map dest dest'.
Proof.
  intros Hs Hd Ha Hl. unfold cl_qmap_merge. rewrite (proj1 (map_ends_spec _ _ _ Hs)).
  rewrite (map_fuel_enough cmp _ _ _ Hs). apply (merge_loop_spec Es []); try done. lia.
Qed.

(** ** Several maps in one memory *)

Abbreviation maps := (list (cl_qmap_t * list (ptr * K))).

Definition addrs (L : maps) : list ptr := L ≫= (fun x => owned x.1 x.2).

Definition maps_at m (L : maps) : Prop := Forall (fun x => map_at m x.1 x.2) L /\ NoDup (addrs L).

Lemma addrs_perm (L L' : maps) : L ≡ₚ L' -> addrs L ≡ₚ addrs L'.
Proof. intros H. unfold addrs. by rewrite H. Qed.

Lemma maps_at_perm m (L L' : maps) : L ≡ₚ L' -> maps_at m L -> maps_at m L'.
Proof. intros Hp [H1 H2]. split; [by rewrite <- Hp|]. by rewrite <- (addrs_perm _ _ Hp). Qed.

Lemma maps_at_apart m map E map' E' L : maps_at m ((map, E) :: (map', E') :: L) -> apart map E map' E'.
Proof.
  intros [_ H] x Hx Hx'. unfold addrs in H. cbn -[owned] in H. apply NoDup_app in H as (_ & H & _).
  apply (H x Hx). set_solver.
Qed.

(** Two maps change and keep their addresses between them; the others stay. *)
Lemma maps_step m m' a A b B a' A' b' B' L :
  maps_at m ((a, A) :: (b, B) :: L) -> map_at m' a' A' -> map_at m' b' B' ->
  mkeeps (owned a A ++ owned b B) m m' -> owned a' A' ++ owned b' B' ≡ₚ owned a A ++ owned b B ->
  maps_at m' ((a', A') :: (b', B') :: L) /\ mkeeps (addrs ((a, A) :: (b, B) :: L)) m m' /\
  addrs ((a', A') :: (b', B') :: L) ≡ₚ addrs ((a, A) :: (b, B) :: L).
Proof.
  intros [HF Hnd] Ha Hb Hk Hp. assert (addrs ((a', A') :: (b', B') :: L) ≡ₚ addrs ((a, A) :: (b, B) :: L)) as Hpp.
  { unfold addrs. cbn -[owned]. by rewrite !(assoc_L (++)), Hp. }
  split_and!; [split|..|done].
  - constructor; [done|]. constructor; [done|]. inversion HF as [|?? _ HF']; subst.
    inversion HF' as [|?? _ HF'']; subst. rewrite Forall_forall in *. intros [c C] Hc.
    eapply map_frame; [done|exact Hk| |by apply (HF'' (c, C))]. intros x Hx Hx'.
    unfold addrs in Hnd. cbn -[owned] in Hnd. rewrite (assoc_L (++)) in Hnd. apply NoDup_app in Hnd as (_ & Hd & _).
    apply (Hd x); [exact Hx'|]. apply list_elem_of_bind. by exists (c, C).
  - by rewrite Hpp.
  - eapply mkeeps_mono; [|exact Hk]. intros x Hx. unfold addrs. cbn -[owned]. set_solver.
Qed.

Lemma delta_move_spec m dest D src E1 p k E2 L :
  maps_at m ((src, E1 ++ (p, k) :: E2) :: (dest, D) :: L) -> below cmp k D ->
  (Z.of_nat (length D) + 1 < 2 ^ 64)%Z ->
  exists m' dest' src',
    __cl_qmap_delta_move cmp m dest src p = Some (default (qm_nil src) (head E2.*1), m', dest', src') /\
    maps_at m' ((src', E1 ++ E2) :: (dest', D ++ [(p, k)]) :: L) /\
    mkeeps (addrs ((src, E1 ++ (p, k) :: E2) :: (dest, D) :: L)) m m' /\
    addrs ((src', E1 ++ E2) :: (dest', D ++ [(p, k)]) :: L) ≡ₚ
      addrs ((src, E1 ++ (p, k) :: E2) :: (dest, D) :: L) /\
    same_map src src' /\ same_map dest dest'.
Proof.
  intros Hms Hb Hl. pose proof (maps_at_apart _ _ _ _ _ _ Hms) as Ha. pose proof Hms as [HF _].
  rewrite !Forall_cons in HF. destruct HF as (Hs & Hd & _). cbn in Hs, Hd.
  destruct (move_spec m dest D src E1 p k E2) as
    (m1 & src1 & m2 & dest2 & Hrm & Hk1 & Hin & Hs2 & Hd2 & Hk2 & Hkeep & Hss & Hsd); [done..|].
  unfold __cl_qmap_delta_move. rewrite (proj1 (map_next_spec _ _ _ _ _ _ Hs)), Hrm.
  cbn [mbind option_bind]. rewrite Hk1, Hin. cbn [mbind option_bind].
  rewrite entry_insert_last in Hd2 by done. exists m2, dest2, src1. split; [done|].
  destruct (maps_step m m2 _ _ _ _ src1 (E1 ++ E2) dest2 (D ++ [(p, k)]) L Hms) as (H1 & H2 & H3); try done.
  rewrite (owned_same src src1), (owned_same dest dest2) by done. owned_simpl. cbn. clear.
  generalize E1.*1, E2.*1, D.*1. intros l1 l2 l3. solve_Permutation.
Qed.

(** ** Difference *)

Definition all_below E D : Prop := forall e, e ∈ E -> below cmp e.2 D.

Lemma all_below_step p k E D :
  sorted cmp ((p, k) :: E) -> all_below ((p, k) :: E) D -> all_below E (D ++ [(p, k)]).
Proof.
  intros [Hs _] Hb e He x [Hx|Hx]%elem_of_app; [apply (Hb e); set_solver|].
  apply list_elem_of_singleton in Hx as ->. by apply (cmp_gt_lt cmp), (Hs e).
Qed.

Lemma sorted_suffix E1 E2 : sorted cmp (E1 ++ E2) -> sorted cmp E2.
Proof. rewrite (sorted_app cmp). tauto. Qed.

Lemma maps_at_head m map E L : maps_at m ((map, E) :: L) -> map_at m map E.
Proof. intros [H _]. by inversion H. Qed.

Lemma maps_at_end m map E1 p k E2 L : maps_at m ((map, E1 ++ (p, k) :: E2) :: L) -> p <> cl_qmap_end map.
Proof.
  intros Hm. apply maps_at_head, map_at_NoDup in Hm. unfold cl_qmap_end. owned_simpl.
  generalize dependent E1.*1. intros. nodup_simpl. ne_solve.
Qed.

(** A loop that moves what is left of one map to the end of another. *)
Lemma delta_rest_spec : forall rest kept m dest D src fuel L,
  maps_at m ((src, kept ++ rest) :: (dest, D) :: L) -> all_below rest D ->
  (Z.of_nat (length D) + Z.of_nat (length rest) < 2 ^ 64)%Z -> length rest < fuel ->
  exists m' dest' src',
    delta_rest cmp fuel m dest src (default (qm_nil src) (head rest.*1)) = Some (m', dest', src') /\
    maps_at m' ((src', kept) :: (dest', D ++ rest) :: L) /\
    mkeeps (addrs ((src, kept ++ rest) :: (dest, D) :: L)) m m' /\
    addrs ((src', kept) :: (dest', D ++ rest) :: L) ≡ₚ addrs ((src, kept ++ rest) :: (dest, D) :: L) /\
    same_map src src' /\ same_map dest dest'.
Proof.
  induction rest as [|[p k] rest IH]; intros kept m dest D src [|fuel] L Hm Hb Hl Hf; try (cbn in Hf; lia).
  - cbn [delta_rest head fmap list_fmap]. rewrite decide_True by done. rewrite !app_nil_r in *.
    exists m, dest, src. by split_and!.
  - cbn in Hl, Hf. change (default (qm_nil src) (head ((p, k) :: rest).*1)) with p. cbn [delta_rest].
    rewrite decide_False by (by eapply maps_at_end).
    destruct (delta_move_spec m dest D src kept p k rest L) as (m1 & dest1 & src1 & -> & Hm1 & Hk1 & Hp1 & Hs1 & Hd1);
      [done|apply (Hb (p, k)); set_solver|lia|].
    cbn [mbind option_bind]. rewrite <- (proj2 Hs1).
    pose proof (sorted_suffix _ _ (map_at_sorted _ _ _ (maps_at_head _ _ _ _ Hm))) as Hso.
    destruct (IH kept m1 dest1 (D ++ [(p, k)]) src1 fuel L) as (m' & dest' & src' & -> & Hm' & Hk' & Hp' & Hs' & Hd');
      [done|by apply all_below_step|rewrite length_app; cbn; lia|lia|].
    rewrite <- (assoc_L (++)) in Hm', Hp'. exists m', dest', src'. split_and!; [done|done| |by rewrite Hp'| |].
    + eapply mkeeps_trans; [exact Hk1|eapply mkeeps_mono; [|exact Hk']]. intros x. by rewrite Hp1.
    + by eapply same_map_trans.
    + by eapply same_map_trans.
Qed.

(** What the four maps hold at the end, from any point of the main loop. *)
Definition common E E' := filterb (fun e => has_key e.2 E') E.
Definition only E E' := filterb (fun e => negb (has_key e.2 E')) E.
Definition outcome kept1 rest1 kept2 rest2 N O :=
  (kept1 ++ common rest1 rest2, kept2 ++ common rest2 rest1, N ++ only rest2 rest1, O ++ only rest1 rest2).

Lemma has_key_cons_ne k e E : cmp k e.2 <> Eq -> has_key k (e :: E) = has_key k E.
Proof. intros H. unfold MapOps.has_key. cbn. by rewrite bool_decide_false. Qed.

Lemma smaller_not_in (e : ptr * K) E e2 E2 : sorted cmp (e :: E) -> sorted cmp (e2 :: E2) -> cmp e.2 e2.2 = Lt ->
  has_key e.2 (e2 :: E2) = false /\ (forall x, x ∈ e2 :: E2 -> cmp x.2 e.2 <> Eq).
Proof.
  intros _ [Hs _] Hlt. assert (forall x, x ∈ e2 :: E2 -> cmp e.2 x.2 = Lt) as H.
  { intros x [->|Hx]%elem_of_cons; [done|]. eapply (cmp_lt_trans (cmp:=cmp)); [exact Hlt|]. by apply Hs. }
  split; [|intros x Hx; by apply cmp_lt_neq, H]. apply (has_key_none cmp). intros x Hx. by rewrite H.
Qed.

Lemma common_skip e E E' : (forall x, x ∈ E -> cmp x.2 e.2 <> Eq) ->
  common E (e :: E') = common E E' /\ only E (e :: E') = only E E'.
Proof.
  intros H. split; apply filterb_ext; intros x Hx; by rewrite has_key_cons_ne by by apply H.
Qed.

Lemma common_drop e E E' : has_key e.2 E' = false ->
  common (e :: E) E' = common E E' /\ only (e :: E) E' = e :: only E E'.
Proof. intros H. unfold common, only. rewrite !filterb_cons, H. done. Qed.

Lemma common_keep e E E' : has_key e.2 E' = true ->
  common (e :: E) E' = e :: common E E' /\ only (e :: E) E' = only E E'.
Proof. intros H. unfold common, only. rewrite !filterb_cons, H. done. Qed.

Lemma outcome_lt g1 e1 r1 g2 e2 r2 N O :
  sorted cmp (e1 :: r1) -> sorted cmp (e2 :: r2) -> cmp e1.2 e2.2 = Lt ->
  outcome g1 r1 g2 (e2 :: r2) N (O ++ [e1]) = outcome g1 (e1 :: r1) g2 (e2 :: r2) N O.
Proof.
  intros H1 H2 Hlt. destruct (smaller_not_in e1 r1 e2 r2 H1 H2 Hlt) as [Hn Hne].
  destruct (common_drop e1 r1 (e2 :: r2) Hn) as [E1 E2]. destruct (common_skip e1 (e2 :: r2) r1 Hne) as [E3 E4].
  unfold outcome. rewrite E1, E2, E3, E4, <- !(assoc_L (++)). done.
Qed.

Lemma outcome_gt g1 e1 r1 g2 e2 r2 N O :
  sorted cmp (e1 :: r1) -> sorted cmp (e2 :: r2) -> cmp e1.2 e2.2 = Gt ->
  outcome g1 (e1 :: r1) g2 r2 (N ++ [e2]) O = outcome g1 (e1 :: r1) g2 (e2 :: r2) N O.
Proof.
  intros H1 H2 Hlt%(cmp_gt_lt cmp). destruct (smaller_not_in e2 r2 e1 r1 H2 H1 Hlt) as [Hn Hne].
  destruct (common_drop e2 r2 (e1 :: r1) Hn) as [E1 E2]. destruct (common_skip e2 (e1 :: r1) r2 Hne) as [E3 E4].
  unfold outcome. rewrite E1, E2, E3, E4, <- !(assoc_L (++)). done.
Qed.

Lemma outcome_eq g1 e1 r1 g2 e2 r2 N O :
  sorted cmp (e1 :: r1) -> sorted cmp (e2 :: r2) -> cmp e1.2 e2.2 = Eq ->
  outcome (g1 ++ [e1]) r1 (g2 ++ [e2]) r2 N O = outcome g1 (e1 :: r1) g2 (e2 :: r2) N O.
Proof.
  intros [H1 _] [H2 _] Heq.
  assert (cmp e2.2 e1.2 = Eq) as Heq' by by rewrite (cmp_sym (cmp:=cmp) e1.2), Heq.
  assert (forall x, x ∈ r1 -> cmp x.2 e2.2 <> Eq) as N1.
  { intros x Hx. apply cmp_lt_neq. rewrite <- (cmp_eq_l (cmp:=cmp) _ _ x.2 Heq). by apply H1. }
  assert (forall x, x ∈ r2 -> cmp x.2 e1.2 <> Eq) as N2.
  { intros x Hx. apply cmp_lt_neq. rewrite <- (cmp_eq_l (cmp:=cmp) _ _ x.2 Heq'). by apply H2. }
  destruct (common_keep e1 r1 (e2 :: r2)) as [E1 E2]; [apply has_key_in; exists e2; set_solver|].
  destruct (common_keep e2 r2 (e1 :: r1)) as [E3 E4]; [apply has_key_in; exists e1; set_solver|].
  destruct (common_skip e2 r1 r2 N1) as [E5 E6]. destruct (common_skip e1 r2 r1 N2) as [E7 E8].
  unfold outcome. rewrite E1, E2, E3, E4, E5, E6, E7, E8, <- !(assoc_L (++)). done.
Qed.

(** The four maps in the main loop: both sources split at their cursors. *)
Definition delta_maps (a : cl_qmap_t) A (b : cl_qmap_t) B (n : cl_qmap_t) N (o : cl_qmap_t) O : maps :=
  [(a, A); (b, B); (n, N); (o, O)].

Definition delta_state m a g1 r1 b g2 r2 n N o O : Prop :=
  maps_at m (delta_maps a (g1 ++ r1) b (g2 ++ r2) n N o O) /\
  all_below r1 O /\ all_below r2 N /\
  (Z.of_nat (length O) + Z.of_nat (length r1) < 2 ^ 64)%Z /\
  (Z.of_nat (length N) + Z.of_nat (length r2) < 2 ^ 64)%Z.

Definition evolved m (L : maps) m' (L' : maps) : Prop :=
  mkeeps (addrs L) m m' /\ addrs L' ≡ₚ addrs L /\ Forall2 (fun x y => same_map x.1 y.1) L L'.

Lemma evolved_trans m1 L1 m2 L2 m3 L3 :
  evolved m1 L1 m2 L2 -> evolved m2 L2 m3 L3 -> evolved m1 L1 m3 L3.
Proof.
  intros (H1 & P1 & F1) (H2 & P2 & F2). split_and!; [|by rewrite P2|].
  - eapply mkeeps_trans; [exact H1|eapply mkeeps_mono; [|exact H2]]. intros x. by rewrite P1.
  - clear -F1 F2. revert L3 F2. induction F1 as [|x y L L' Hxy _ IH]; intros L3 F2.
    + by inversion F2; subst.
    + inversion F2; subst. constructor; [by eapply same_map_trans|by apply IH].
Qed.

Lemma evolved_refl m L : evolved m L m L.
Proof. split_and!; [apply mkeeps_refl|done|]. induction L; by repeat constructor. Qed.

Lemma delta_state_lt m a g1 p k r1 b g2 r2 n N o O :
  delta_state m a g1 ((p, k) :: r1) b g2 r2 n N o O ->
  exists m' o' a',
    __cl_qmap_delta_move cmp m o a p = Some (default (qm_nil a) (head r1.*1), m', o', a') /\
    delta_state m' a' g1 r1 b g2 r2 n N o' (O ++ [(p, k)]) /\
    evolved m (delta_maps a (g1 ++ (p, k) :: r1) b (g2 ++ r2) n N o O)
      m' (delta_maps a' (g1 ++ r1) b (g2 ++ r2) n N o' (O ++ [(p, k)])) /\ same_map a a'.
Proof.
  intros (Hm & B1 & B2 & L1 & L2). cbn in L1.
  pose proof (sorted_suffix _ _ (map_at_sorted _ _ _ (maps_at_head _ _ _ _ Hm))) as Hso.
  assert (forall (x y z w : cl_qmap_t * list (ptr * K)), [x; w; y; z] ≡ₚ [x; y; z; w]) as Hperm.
  { intros. solve_Permutation. }
  destruct (delta_move_spec m o O a g1 p k r1 [(b, g2 ++ r2); (n, N)]) as (m' & o' & a' & Hmv & Hm' & Hk & Hp & Hsa & Hso');
    [by eapply maps_at_perm; [|exact Hm]; rewrite Hperm|apply (B1 (p, k)); set_solver|lia|].
  exists m', o', a'. split_and!; [done|split_and!|split_and!|done].
  - by eapply maps_at_perm; [|exact Hm']; rewrite Hperm.
  - by apply all_below_step.
  - done.
  - rewrite length_app. cbn. lia.
  - lia.
  - eapply mkeeps_mono; [|exact Hk]. intros x Hx. unfold delta_maps. by rewrite <- (addrs_perm _ _ (Hperm _ _ _ _)).
  - unfold delta_maps. by rewrite <- (addrs_perm _ _ (Hperm (a, _) _ _ _)), <- (addrs_perm _ _ (Hperm (a', _) _ _ _)).
  - repeat constructor; try done; apply Hsa || apply Hso'.
Qed.

Lemma delta_state_gt m a g1 r1 b g2 p k r2 n N o O :
  delta_state m a g1 r1 b g2 ((p, k) :: r2) n N o O ->
  exists m' n' b',
    __cl_qmap_delta_move cmp m n b p = Some (default (qm_nil b) (head r2.*1), m', n', b') /\
    delta_state m' a g1 r1 b' g2 r2 n' (N ++ [(p, k)]) o O /\
    evolved m (delta_maps a (g1 ++ r1) b (g2 ++ (p, k) :: r2) n N o O)
      m' (delta_maps a (g1 ++ r1) b' (g2 ++ r2) n' (N ++ [(p, k)]) o O) /\ same_map b b'.
Proof.
  intros (Hm & B1 & B2 & L1 & L2). cbn in L2.
  assert (forall (x y z w : cl_qmap_t * list (ptr * K)), [y; z; x; w] ≡ₚ [x; y; z; w]) as Hperm.
  { intros. solve_Permutation. }
  apply (maps_at_perm _ _ _ (symmetry (Hperm _ _ _ _))) in Hm as Hm0.
  pose proof (sorted_suffix _ _ (map_at_sorted _ _ _ (maps_at_head _ _ _ _ Hm0))) as Hso.
  destruct (delta_move_spec m n N b g2 p k r2 [(a, g1 ++ r1); (o, O)]) as (m' & n' & b' & Hmv & Hm' & Hk & Hp & Hsb & Hsn);
    [done|apply (B2 (p, k)); set_solver|lia|].
  exists m', n', b'. split_and!; [done|split_and!|split_and!|done].
  - by eapply maps_at_perm; [|exact Hm']; rewrite Hperm.
  - done.
  - by apply all_below_step.
  - lia.
  - rewrite length_app. cbn. lia.
  - eapply mkeeps_mono; [|exact Hk]. intros x Hx. unfold delta_maps. by rewrite <- (addrs_perm _ _ (Hperm _ _ _ _)).
  - unfold delta_maps. by rewrite <- (addrs_perm _ _ (Hperm _ (b, _) _ _)), <- (addrs_perm _ _ (Hperm _ (b', _) _ _)).
  - repeat constructor; try done; apply Hsb || apply Hsn.
Qed.

Lemma delta_state_eq m a g1 e1 r1 b g2 e2 r2 n N o O :
  delta_state m a g1 (e1 :: r1) b g2 (e2 :: r2) n N o O ->
  delta_state m a (g1 ++ [e1]) r1 b (g2 ++ [e2]) r2 n N o O.
Proof.
  intros (Hm & B1 & B2 & L1 & L2). cbn in L1, L2. unfold delta_state. rewrite <- !(assoc_L (++)).
  split_and!; [done| | |lia..]; intros e He; [apply B1|apply B2]; set_solver.
Qed.

Lemma delta_state_ends m a g1 r1 b g2 r2 n N o O :
  delta_state m a g1 r1 b g2 r2 n N o O ->
  map_at m a (g1 ++ r1) /\ map_at m b (g2 ++ r2).
Proof. intros ([HF _] & _). unfold delta_maps in HF. rewrite !Forall_cons in HF. naive_solver. Qed.

(** The cursor of a source map. *)
Definition cursor map E : ptr := default (qm_nil map) (head E.*1).

Lemma cursor_end m map g r : map_at m map (g ++ r) -> cursor map r <> cl_qmap_end map <-> r <> [].
Proof.
  intros Hm. destruct r as [|[p k] r]; [by split|]. split; [done|]. intros _. unfold cursor, cl_qmap_end. cbn.
  destruct (map_at_split _ _ _ _ _ _ _ Hm eq_refl) as [Hp _]. unfold owned in Hp. set_solver.
Qed.

Lemma delta_loop_spec : forall fuel m a g1 r1 b g2 r2 n N o O,
  delta_state m a g1 r1 b g2 r2 n N o O -> length r1 + length r2 < fuel ->
  exists m' a' h1 s1 b' h2 s2 n' N' o' O',
    delta_loop cmp fuel m a b n o (cursor a r1) (cursor b r2) =
      Some (cursor a' s1, cursor b' s2, m', a', b', n', o') /\
    delta_state m' a' h1 s1 b' h2 s2 n' N' o' O' /\ (s1 = [] \/ s2 = []) /\
    outcome h1 s1 h2 s2 N' O' = outcome g1 r1 g2 r2 N O /\
    evolved m (delta_maps a (g1 ++ r1) b (g2 ++ r2) n N o O)
      m' (delta_maps a' (h1 ++ s1) b' (h2 ++ s2) n' N' o' O').
Proof.
  induction fuel as [|fuel IH]; intros m a g1 r1 b g2 r2 n N o O Hst Hf; [lia|].
  destruct (delta_state_ends _ _ _ _ _ _ _ _ _ _ _ Hst) as [Ha Hb]. cbn [delta_loop].
  pose proof (cursor_end _ _ _ _ Ha) as Ca. pose proof (cursor_end _ _ _ _ Hb) as Cb.
  destruct (decide _) as [Hd|Hd].
  2:{ exists m, a, g1, r1, b, g2, r2, n, N, o, O. split_and!; try done; [|apply evolved_refl].
      destruct r1 as [|]; [by left|]. destruct r2 as [|]; [by right|]. destruct Hd.
      by rewrite Ca, Cb. }
  rewrite Ca, Cb in Hd. destruct Hd as [H1 H2]. destruct r1 as [|[p1 k1] r1], r2 as [|[p2 k2] r2]; try done.
  cbn in Hf. clear Ca Cb H1 H2. pose proof (sorted_suffix _ _ (map_at_sorted _ _ _ Ha)) as S1.
  pose proof (sorted_suffix _ _ (map_at_sorted _ _ _ Hb)) as S2.
  change (cursor a ((p1, k1) :: r1)) with p1. change (cursor b ((p2, k2) :: r2)) with p2. unfold cl_qmap_key.
  rewrite (proj2 (map_at_split _ _ _ _ _ _ _ Ha eq_refl)), (proj2 (map_at_split _ _ _ _ _ _ _ Hb eq_refl)).
  destruct (cmp k1 k2) eqn:Ec.
  - rewrite (proj1 (map_next_spec _ _ _ _ _ _ Ha)), (proj1 (map_next_spec _ _ _ _ _ _ Hb)).
    destruct (IH m a (g1 ++ [(p1, k1)]) r1 b (g2 ++ [(p2, k2)]) r2 n N o O) as
      (m' & a' & h1 & s1 & b' & h2 & s2 & n' & N' & o' & O' & Hl & H1 & H2 & H3 & H4);
      [by apply delta_state_eq|lia|].
    rewrite outcome_eq in H3 by done. rewrite <- !(assoc_L (++)) in H4. eauto 20.
  - destruct (delta_state_lt _ _ _ _ _ _ _ _ _ _ _ _ _ Hst) as (m1 & o1 & a1 & -> & Hst1 & Hev & Hs).
    cbn [mbind option_bind]. destruct (IH _ _ _ _ _ _ _ _ _ _ _ Hst1) as
      (m' & a' & h1 & s1 & b' & h2 & s2 & n' & N' & o' & O' & Hl & H1 & H2 & H3 & H4); [cbn; lia|].
    rewrite outcome_lt in H3 by done. unfold cursor in Hl at 1. rewrite (proj2 Hs) in Hl.
    do 11 eexists. split_and!; [exact Hl|done|done|done|by eapply evolved_trans].
  - destruct (delta_state_gt _ _ _ _ _ _ _ _ _ _ _ _ _ Hst) as (m1 & n1 & b1 & -> & Hst1 & Hev & Hs).
    cbn [mbind option_bind]. destruct (IH _ _ _ _ _ _ _ _ _ _ _ Hst1) as
      (m' & a' & h1 & s1 & b' & h2 & s2 & n' & N' & o' & O' & Hl & H1 & H2 & H3 & H4); [cbn; lia|].
    rewrite outcome_gt in H3 by done. unfold cursor in Hl at 2. rewrite (proj2 Hs) in Hl.
    do 11 eexists. split_and!; [exact Hl|done|done|done|by eapply evolved_trans].
Qed.

Lemma outcome_end h1 s1 h2 s2 N O :
  s1 = [] \/ s2 = [] -> outcome h1 s1 h2 s2 N O = (h1, h2, N ++ s2, O ++ s1).
Proof.
  assert (forall E, common E [] = [] /\ only E [] = E) as Hn.
  { intros E. unfold common, only. induction E as [|e E [I1 I2]]; [done|].
    rewrite !filterb_cons. change (has_key e.2 []) with false. cbn [negb]. by rewrite I1, I2. }
  assert (forall E, common [] E = [] /\ only [] E = []) as Hn' by done.
  unfold outcome. intros [->| ->].
  - destruct (Hn s2) as [-> ->], (Hn' s2) as [-> ->]. by rewrite !app_nil_r.
  - destruct (Hn s1) as [-> ->], (Hn' s1) as [-> ->]. by rewrite !app_nil_r.
Qed.

Lemma delta_rests m a h1 s1 b h2 s2 n N o O :
  delta_state m a h1 s1 b h2 s2 n N o O ->
  exists m1 n1 b1 m2 o2 a2,
    delta_rest cmp (map_fuel b) m n b (cursor b s2) = Some (m1, n1, b1) /\
    delta_rest cmp (map_fuel a) m1 o a (cursor a s1) = Some (m2, o2, a2) /\
    maps_at m2 (delta_maps a2 h1 b1 h2 n1 (N ++ s2) o2 (O ++ s1)) /\
    evolved m (delta_maps a (h1 ++ s1) b (h2 ++ s2) n N o O)
      m2 (delta_maps a2 h1 b1 h2 n1 (N ++ s2) o2 (O ++ s1)).
Proof.
  intros Hst. destruct (delta_state_ends _ _ _ _ _ _ _ _ _ _ _ Hst) as [Ha Hb].
  destruct Hst as (Hm & B1 & B2 & L1 & L2).
  rewrite (map_fuel_enough cmp _ _ _ Ha), (map_fuel_enough cmp _ _ _ Hb), !length_app.
  assert (forall (x y z w : cl_qmap_t * list (ptr * K)), [y; z; x; w] ≡ₚ [x; y; z; w]) as P1.
  { intros. solve_Permutation. }
  assert (forall (x y z w : cl_qmap_t * list (ptr * K)), [x; w; y; z] ≡ₚ [x; y; z; w]) as P2.
  { intros. solve_Permutation. }
  assert (forall (x y z w : cl_qmap_t * list (ptr * K)), [x; w; y; z] ≡ₚ [y; z; x; w]) as P3.
  { intros. solve_Permutation. }
  destruct (delta_rest_spec s2 h2 m n N b (S (length h2 + length s2)) [(a, h1 ++ s1); (o, O)])
    as (m1 & n1 & b1 & Hr1 & Hm1 & Hk1 & Hp1 & Hs1 & Hd1);
    [by eapply maps_at_perm; [|exact Hm]; rewrite P1|done|lia|lia|].
  destruct (delta_rest_spec s1 h1 m1 o O a (S (length h1 + length s1)) [(b1, h2); (n1, N ++ s2)])
    as (m2 & o2 & a2 & Hr2 & Hm2 & Hk2 & Hp2 & Hs2 & Hd2);
    [by eapply maps_at_perm; [|exact Hm1]; rewrite P3|done|lia|lia|].
  exists m1, n1, b1, m2, o2, a2. split_and!; [done|done|by eapply maps_at_perm; [|exact Hm2]; rewrite P2|].
  unfold delta_maps. split_and!.
  - rewrite <- (addrs_perm _ _ (P1 _ (b, _) _ _)). eapply mkeeps_trans; [exact Hk1|].
    eapply mkeeps_mono; [|exact Hk2]. intros x. by rewrite <- Hp1, (addrs_perm _ _ (P3 (a, _) (b1, _) _ _)).
  - rewrite <- (addrs_perm _ _ (P2 (a2, _) _ _ _)), Hp2, (addrs_perm _ _ (P3 (a, _) _ _ _)), Hp1.
    by rewrite (addrs_perm _ _ (P1 _ (b, _) _ _)).
  - by repeat constructor; first [apply Hs1|apply Hs2|apply Hd1|apply Hd2].
Qed.

Lemma map_delta_spec m a A b B n o :
  maps_at m (delta_maps a A b B n [] o []) ->
  exists m' a' b' n' o',
    cl_qmap_delta cmp m a b n o = Some (m', a', b', n', o') /\
    maps_at m' (delta_maps a' (common A B) b' (common B A) n' (only B A) o' (only A B)) /\
    evolved m (delta_maps a A b B n [] o [])
      m' (delta_maps a' (common A B) b' (common B A) n' (only B A) o' (only A B)).
Proof.
  intros Hm. assert (map_at m a A /\ map_at m b B) as [Ha Hb].
  { destruct Hm as [HF _]. unfold delta_maps in HF. rewrite !Forall_cons in HF. naive_solver. }
  assert (delta_state m a [] A b [] B n [] o []) as Hst.
  { split_and!; [done|by intros e He x ?%elem_of_nil..|cbn; by eapply map_at_length| cbn; by eapply map_at_length]. }
  unfold cl_qmap_delta. rewrite (proj1 (map_ends_spec _ _ _ Ha)), (proj1 (map_ends_spec _ _ _ Hb)).
  destruct (delta_loop_spec (map_fuel a + map_fuel b) _ _ _ _ _ _ _ _ _ _ _ Hst) as
    (m1 & a1 & h1 & s1 & b1 & h2 & s2 & n1 & N1 & o1 & O1 & Hl & Hst1 & Hend & Hout & Hev).
  { rewrite (map_fuel_enough cmp _ _ _ Ha), (map_fuel_enough cmp _ _ _ Hb). lia. }
  unfold cursor in Hl at 1 2. rewrite Hl. cbn [mbind option_bind].
  destruct (delta_rests _ _ _ _ _ _ _ _ _ _ _ Hst1) as (m2 & n2 & b2 & m3 & o3 & a3 & Hr1 & Hr2 & Hm3 & Hev3).
  rewrite Hr1. cbn [mbind option_bind]. rewrite Hr2. cbn [mbind option_bind].
  rewrite (outcome_end _ _ _ _ _ _ Hend) in Hout. unfold outcome in Hout. cbn in Hout.
  injection Hout as <- <- <- <-. do 5 eexists. split_and!; [done|done|by eapply evolved_trans].
Qed.
End Operations.
