(* ===== verification/QMap.v ===== *)
(** * Quick map: [cl_qmap_*] on 64-bit keys

    The code of [RbMap.v] at the comparison of integers, and what each operation
    does to the map's entries: address and key of every item, in increasing key
    order.  The last section runs whole sequences of operations against a map on
    lists. *)

From S2P Require Import Prelude Qlist RbMap RbTree RbInsert RbRemove MapSpec MapRemove MapOps.

Abbreviation qmem := (mem Z).
Abbreviation qmap_at := (map_at Z.compare).

Implicit Types (m : qmem) (map : cl_qmap_t) (E : list (ptr * Z)).

(** ** The abstract map: association lists in key order *)

Definition entry_find (k : Z) E : option ptr := lookup_key Z.compare k E.
Definition entry_find_above (k : Z) E : option ptr := lookup_above Z.compare k E.
Definition entry_add (p : ptr) (k : Z) E : list (ptr * Z) := entry_insert Z.compare (p, k) E.
Definition entry_remove (k : Z) E : list (ptr * Z) := entry_delete Z.compare k E.

Lemma entry_find_split k p E1 E2 :
  sorted Z.compare (E1 ++ (p, k) :: E2) -> entry_find k (E1 ++ (p, k) :: E2) = Some p.
Proof. intros Hs. apply (lookup_key_in Z.compare k _ p k); [done|set_solver|apply Z.compare_refl]. Qed.

Lemma entry_find_some k E p : entry_find k E = Some p -> exists E1 E2, E = E1 ++ (p, k) :: E2.
Proof.
  intros (k' & Hin & Heq)%(lookup_key_some Z.compare). apply Z.compare_eq in Heq as <-.
  by apply list_elem_of_split in Hin.
Qed.

(** ** Properties *)

(** C2. Insertion implements insertion in the sorted association list: it ends,
    returns the item that has the key (the new one or the one already there),
    keeps the tree balanced, the list ordered and the count exact, stores the key
    in the new item, and touches nothing outside the map and the new item. *)
Theorem qmap_insert_refines m map E k p :
  qmap_at m map E -> p ∉ owned map E -> (Z.of_nat (length E) + 1 < 2 ^ 64)%Z ->
  exists m' map',
    cl_qmap_insert Z.compare m map k p = Some (default p (entry_find k E), m', map') /\
    qmap_at m' map' (entry_add p k E) /\ cl_qmap_key m' p = k /\ mkeeps (p :: owned map E) m m'.
Proof.
  intros Hm Hp Hl. destruct (map_insert_entries Z.compare m map E k p Hm Hp Hl) as (m' & map' & H).
  exists m', map'. tauto.
Qed.

(** C3. Removal of an item of the map, by address or by key, takes exactly that
    item out, keeps the rest in order and balanced, and touches nothing outside
    the map; a key that is not in the map and the end item leave everything as
    it is. *)
Theorem qmap_remove_refines m map E1 p k E2 k' :
  qmap_at m map (E1 ++ (p, k) :: E2) -> entry_find k' (E1 ++ (p, k) :: E2) = None ->
  exists m' map',
    cl_qmap_remove_item m map p = Some (m', map') /\
    cl_qmap_remove Z.compare m map k = Some (p, m', map') /\
    qmap_at m' map' (E1 ++ E2) /\ entry_remove k (E1 ++ (p, k) :: E2) = E1 ++ E2 /\
    mkeeps (owned map (E1 ++ (p, k) :: E2)) m m' /\ cl_qmap_key m' p = k /\
    cl_qmap_remove Z.compare m map k' = Some (cl_qmap_end map, m, map) /\
    cl_qmap_remove_item m map (cl_qmap_end map) = Some (m, map).
Proof.
  intros Hm Hk'. pose proof (map_at_sorted Z.compare _ _ _ Hm) as Hs.
  destruct (map_remove_item_spec Z.compare m map E1 p k E2 Hm) as (m' & map' & Hr & (_ & _ & _ & Hm' & Hk & Hky)).
  exists m', map'. split_and!; try done.
  - unfold cl_qmap_remove. rewrite (map_get_spec Z.compare _ _ _ _ Hm).
    fold (entry_find k (E1 ++ (p, k) :: E2)). rewrite entry_find_split by done. cbn -[cl_qmap_remove_item]. by rewrite Hr.
  - apply (entry_delete_split Z.compare); [done|apply Z.compare_refl].
  - unfold cl_qmap_key. rewrite Hky. by eapply (map_at_split Z.compare).
  - destruct (map_remove_spec Z.compare m map _ k' Hm) as (m2 & map2 & H).
    unfold entry_find in Hk'. rewrite Hk' in H. destruct H as (-> & _ & H). by destruct (H eq_refl) as [-> ->].
  - unfold cl_qmap_remove_item. by rewrite decide_True.
Qed.

(** Both searches end and are exact: [cl_qmap_get] returns the item with the
    key, [cl_qmap_get_next] the item with the least key above it, and either
    returns the end item when there is none. *)
Theorem qmap_search_correct m map E k :
  qmap_at m map E ->
  cl_qmap_get Z.compare m map k = Some (default (cl_qmap_end map) (entry_find k E)) /\
  cl_qmap_get_next Z.compare m map k = Some (default (cl_qmap_end map) (entry_find_above k E)).
Proof.
  intros Hm. split; [by apply (map_get_spec Z.compare)|by apply (map_get_next_spec Z.compare)].
Qed.

(** C19. The tree stays shallow: in a map of [n] items the loop of [cl_qmap_get], for
    any key, has ended within [2 log2 (n + 1) + 1] iterations, and its result is the
    item with the key, or the end item when there is none. *)
Theorem qmap_search_logarithmic m map E k fuel :
  qmap_at m map E -> 2 * Nat.log2 (S (length E)) < fuel ->
  get_loop Z.compare fuel m map k (__cl_map_root m map) = Some (default (cl_qmap_end map) (entry_find k E)) /\
  cl_qmap_get Z.compare m map k = Some (default (cl_qmap_end map) (entry_find k E)).
Proof.
  intros Hm Hf. split; [|by apply (map_get_spec Z.compare)].
  destruct Hm as (T & n & Hp & <- & Hb & Hs & _). pose proof Hp as ([Hz _] & _). cbn in Hz.
  pose proof (height_log n T Hb). unfold __cl_map_root. rewrite Hz.
  apply (get_loop_height Z.compare map k T m []); [lia|done|done].
Qed.

(** Initialising a map structure, or removing all items, leaves an empty map
    whatever was there before, writing only the structure itself. *)
Theorem qmap_init_correct m map E :
  qm_root map <> qm_nil map ->
  (let '(m', map') := cl_qmap_init m map in
   qmap_at m' map' [] /\ qm_state map' = CL_INITIALIZED /\ cl_is_qmap_empty map' = true /\
   mkeeps [qm_root map; qm_nil map] m m') /\
  (qmap_at m map E ->
   let '(m', map') := cl_qmap_remove_all m map in
   qmap_at m' map' [] /\ cl_is_qmap_empty map' = true /\ mkeeps [qm_root map; qm_nil map] m m').
Proof.
  intros Hne. split.
  - pose proof (map_init_spec Z.compare m map Hne) as H. destruct (cl_qmap_init m map) as [m' map'] eqn:Ei.
    destruct H as (H1 & H2 & _ & _ & H3). injection Ei as <- <-. done.
  - intros Hm. pose proof (map_remove_all_spec Z.compare m map E Hm) as H.
    destruct (cl_qmap_remove_all m map) as [m' map'] eqn:Ei. destruct H as (H1 & H2 & _).
    injection Ei as <- <-. done.
Qed.

(** The list threaded through the items enumerates them by increasing key:
    the head is the least, next and previous are the neighbours, and
    [cl_qmap_apply_func] visits each item once in that order and ends. *)
Theorem qmap_traversal_sorted {A} m map E1 p k E2 (f : ptr -> A -> A) ctx :
  qmap_at m map (E1 ++ (p, k) :: E2) ->
  cl_qmap_head m map = default p (head E1.*1) /\
  cl_qmap_next m p = default (cl_qmap_end map) (head E2.*1) /\
  cl_qmap_prev m p = default (cl_qmap_end map) (last E1.*1) /\
  (forall e, e ∈ E1 -> (e.2 < k)%Z) /\ (forall e, e ∈ E2 -> (k < e.2)%Z) /\
  cl_qmap_apply_func m map f ctx = Some (foldl (fun c e => f e.1 c) ctx (E1 ++ (p, k) :: E2)).
Proof.
  intros Hm. destruct (map_next_spec Z.compare _ _ _ _ _ _ Hm) as [Hn Hp].
  destruct (sorted_mid Z.compare _ _ _ _ (map_at_sorted Z.compare _ _ _ Hm)) as [Hb Ha].
  split_and!; [|done|done|..|by apply (map_apply_spec Z.compare)].
  - rewrite (proj1 (map_ends_spec Z.compare _ _ _ Hm)). by destruct E1.
  - intros e He. specialize (Hb e He). by apply Z.compare_gt_iff in Hb.
  - intros e He. specialize (Ha e He). by apply Z.compare_lt_iff in Ha.
Qed.

(** Merging adds to the destination, one by one, the items of the source whose
    keys it lacks; the items whose keys it has stay in the source.  Both maps
    stay well-formed and the loop ends. *)
Theorem qmap_merge_correct m dest Ed src Es :
  qmap_at m src Es -> qmap_at m dest Ed -> apart src Es dest Ed ->
  (Z.of_nat (length Ed) + Z.of_nat (length Es) < 2 ^ 64)%Z ->
  exists m' dest' src',
    cl_qmap_merge Z.compare m dest src = Some (m', dest', src') /\
    qmap_at m' dest' (foldl (fun D e => entry_add e.1 e.2 D) Ed Es) /\
    qmap_at m' src' (filterb (fun e => bool_decide (is_Some (entry_find e.2 Ed))) Es) /\
    mkeeps (owned src Es ++ owned dest Ed) m m'.
Proof.
  intros Hs Hd Ha Hl. destruct (map_merge_spec Z.compare m dest Ed src Es Hs Hd Ha Hl) as
    (m' & dest' & src' & He & Hd' & Hs' & Hk & _). exists m', dest', src'. split_and!; [done| | |done].
  - enough (forall E D, foldl (fun D e => entry_add e.1 e.2 D) D E = merged Z.compare D E) as -> by done.
    unfold merged, entry_add. induction E as [|[p k] E IH]; intros D; cbn; [done|apply IH].
  - unfold not_merged in Hs'. erewrite filterb_ext; [exact Hs'|]. intros e _. cbn. symmetry. apply has_key_lookup.
Qed.

(** C20. [cl_qmap_delta] splits two maps by key: items whose key is in both stay
    where they are, the others move to the two result maps, nothing is lost, all
    four maps are well-formed and no address belongs to two of them. *)
Theorem qmap_delta_correct m map1 A map2 B new old :
  maps_at Z.compare m (delta_maps map1 A map2 B new [] old []) ->
  let both E E' := filterb (fun e => has_key Z.compare e.2 E') E in
  let missing E E' := filterb (fun e => negb (has_key Z.compare e.2 E')) E in
  exists m' map1' map2' new' old',
    cl_qmap_delta Z.compare m map1 map2 new old = Some (m', map1', map2', new', old') /\
    maps_at Z.compare m'
      (delta_maps map1' (both A B) map2' (both B A) new' (missing B A) old' (missing A B)) /\
    mkeeps (addrs (delta_maps map1 A map2 B new [] old [])) m m'.
Proof.
  intros Hm both missing. destruct (map_delta_spec Z.compare m map1 A map2 B new old Hm) as
    (m' & a' & b' & n' & o' & He & Hm' & (Hk & _)). exists m', a', b', n', o'. done.
Qed.

(** ** Sequences of operations *)

(** The operations a client issues on one map. *)
Inductive qmap_op :=
| OpInsert (k : Z) (p : ptr)
| OpRemove (k : Z)
| OpRemoveItem (p : ptr)
| OpGet (k : Z)
| OpGetNext (k : Z)
| OpRemoveAll.

(** What the code does: the returned item (the end item for the operations that
    return nothing), the memory and the map. *)
Definition qmap_exec m map (op : qmap_op) : option (ptr * qmem * cl_qmap_t) :=
  match op with
  | OpInsert k p => cl_qmap_insert Z.compare m map k p
  | OpRemove k => cl_qmap_remove Z.compare m map k
  | OpRemoveItem p => '(m, map) ← cl_qmap_remove_item m map p; Some (cl_qmap_end map, m, map)
  | OpGet k => p ← cl_qmap_get Z.compare m map k; Some (p, m, map)
  | OpGetNext k => p ← cl_qmap_get_next Z.compare m map k; Some (p, m, map)
  | OpRemoveAll => let '(m, map) := cl_qmap_remove_all m map in Some (cl_qmap_end map, m, map)
  end.

Fixpoint qmap_run m map (ops : list qmap_op) : option (list ptr * qmem * cl_qmap_t) :=
  match ops with
  | [] => Some ([], m, map)
  | op :: ops =>
      '(r, m, map) ← qmap_exec m map op;
      '(rs, m, map) ← qmap_run m map ops;
      Some (r :: rs, m, map)
  end.

(** What it should do, on the list of entries. *)
Definition entries_exec (nil : ptr) E (op : qmap_op) : ptr * list (ptr * Z) :=
  match op with
  | OpInsert k p => (default p (entry_find k E), entry_add p k E)
  | OpRemove k => (default nil (entry_find k E), entry_remove k E)
  | OpRemoveItem p => (nil, filterb (fun e => negb (p =? e.1)%Z) E)
  | OpGet k => (default nil (entry_find k E), E)
  | OpGetNext k => (default nil (entry_find_above k E), E)
  | OpRemoveAll => (nil, [])
  end.

Fixpoint entries_run (nil : ptr) E (ops : list qmap_op) : list ptr * list (ptr * Z) :=
  match ops with
  | [] => ([], E)
  | op :: ops =>
      let '(r, E) := entries_exec nil E op in
      let '(rs, E) := entries_run nil E ops in
      (r :: rs, E)
  end.

(** The caller's obligations: a new item is not in the map already, a removed
    item is (or is the end item), and the count does not overflow. *)
Definition op_ok map E (op : qmap_op) : Prop :=
  match op with
  | OpInsert _ p => p ∉ owned map E /\ (Z.of_nat (length E) + 1 < 2 ^ 64)%Z
  | OpRemoveItem p => p = qm_nil map \/ p ∈ E.*1
  | _ => True
  end.

#[export] Instance op_ok_dec map E op : Decision (op_ok map E op).
Proof. destruct op; cbn; apply _. Defined.

Fixpoint ops_ok map E (ops : list qmap_op) : Prop :=
  match ops with
  | [] => True
  | op :: ops => op_ok map E op /\ ops_ok map (entries_exec (qm_nil map) E op).2 ops
  end.

#[export] Instance ops_ok_dec map ops : forall E, Decision (ops_ok map E ops).
Proof. induction ops as [|op ops IH]; intros E; cbn; apply _. Defined.

Lemma remove_addr_split p k E1 E2 :
  NoDup (E1 ++ (p, k) :: E2).*1 ->
  filterb (fun e => negb (p =? e.1)%Z) (E1 ++ (p, k) :: E2) = E1 ++ E2.
Proof.
  rewrite fmap_app, fmap_cons, NoDup_app, NoDup_cons. cbn [fst]. intros (_ & H1 & H2 & _).
  rewrite filterb_app, filterb_cons. cbn [fst]. rewrite Z.eqb_refl. cbn [negb].
  assert (forall E, p ∉ E.*1 -> filterb (fun e => negb (p =? e.1)%Z) E = E) as H.
  { induction E as [|e E IH]; intros HE; [done|]. rewrite fmap_cons, not_elem_of_cons in HE.
    rewrite filterb_cons, IH by tauto. by rewrite (proj2 (Z.eqb_neq p e.1)) by tauto. }
  rewrite !H; [done|done|]. intros Hp. apply (H1 p Hp). set_solver.
Qed.

Lemma qmap_exec_spec m map E op :
  qmap_at m map E -> op_ok map E op ->
  let '(r, E') := entries_exec (qm_nil map) E op in
  exists m' map', qmap_exec m map op = Some (r, m', map') /\ qmap_at m' map' E' /\ same_map map map'.
Proof.
  intros Hm Hok. pose proof (map_at_sorted Z.compare _ _ _ Hm) as Hs. destruct op as [k p|k|p|k|k|];
    cbn [qmap_exec entries_exec op_ok] in *.
  - destruct (map_insert_entries Z.compare m map E k p Hm) as (m' & map' & H1 & H2 & _ & _ & H3); [tauto..|].
    by exists m', map'.
  - destruct (map_remove_spec Z.compare m map E k Hm) as (m' & map' & -> & (Hr & Hn & _ & Hm' & _) & _).
    by exists m', map'.
  - destruct Hok as [->|Hin].
    + unfold cl_qmap_remove_item. rewrite decide_True by done. cbn. exists m, map. split_and!; try done.
      assert (filterb (fun e => negb (qm_nil map =? e.1)%Z) E = E) as ->; [|done].
      pose proof (map_at_NoDup Z.compare _ _ _ Hm) as Hnd. unfold owned in Hnd. nodup_simpl.
      rewrite <- (filterb_ext (fun _ => true)); [|intros e He; symmetry].
      * unfold filterb. clear. induction E as [|e E IH]; [done|]. rewrite filter_cons_True by done. by rewrite IH.
      * apply negb_true_iff, Z.eqb_neq. intros Heq. apply (list_elem_of_fmap_2 fst) in He. congruence.
    + apply list_elem_of_fmap in Hin as ([q k] & -> & Hin). apply list_elem_of_split in Hin as (E1 & E2 & ->). cbn [fst].
      destruct (map_remove_item_spec Z.compare m map E1 q k E2 Hm) as (m' & map' & -> & (Hr & Hn & _ & Hm' & _)).
      cbn [fst mbind option_bind]. exists m', map'. unfold cl_qmap_end. rewrite Hn, remove_addr_split; [done|].
      pose proof (map_at_NoDup Z.compare _ _ _ Hm) as Hnd. unfold owned in Hnd. by nodup_simpl.
  - rewrite (map_get_spec Z.compare _ _ _ _ Hm). by exists m, map.
  - rewrite (map_get_next_spec Z.compare _ _ _ _ Hm). by exists m, map.
  - pose proof (map_remove_all_spec Z.compare m map E Hm) as H. cbn in H. do 2 eexists.
    split; [done|]. split; [apply H|done].
Qed.

Lemma op_ok_same map map' E op : same_map map map' -> op_ok map E op <-> op_ok map' E op.
Proof. intros [H1 H2]. destruct op; cbn; unfold owned; by rewrite ?H1, ?H2. Qed.

Lemma ops_ok_same map map' ops : same_map map map' -> forall E, ops_ok map E ops <-> ops_ok map' E ops.
Proof.
  intros Hs. induction ops as [|op ops IH]; intros E; cbn; [done|].
  by rewrite (op_ok_same map map') by done; destruct Hs as [_ ->]; rewrite IH.
Qed.

Lemma qmap_run_spec : forall ops m map E,
  qmap_at m map E -> ops_ok map E ops ->
  let '(rs, E') := entries_run (qm_nil map) E ops in
  exists m' map', qmap_run m map ops = Some (rs, m', map') /\ qmap_at m' map' E' /\ same_map map map'.
Proof.
  induction ops as [|op ops IH]; intros m map E Hm Hok; cbn; [by exists m, map|]. destruct Hok as [H1 H2].
  pose proof (qmap_exec_spec m map E op Hm H1) as He.
  destruct (entries_exec (qm_nil map) E op) as [r E1]. destruct He as (m1 & map1 & -> & Hm1 & Hs).
  cbn in H2. rewrite (ops_ok_same map map1) in H2 by done.
  specialize (IH m1 map1 E1 Hm1 H2). rewrite (proj2 Hs) in IH.
  destruct (entries_run (qm_nil map) E1 ops) as [rs E2]. destruct IH as (m2 & map2 & Hr & Hm2 & Hs2).
  cbn. rewrite Hr. cbn. exists m2, map2. split; [done|]. split; [done|by eapply same_map_trans].
Qed.

(** C1. From initialisation on, any sequence of operations that respects the
    caller's obligations runs to its end, returns exactly the items the map on
    lists returns, and leaves a well-formed map with its entries. *)
Theorem qmap_run_refines m map ops :
  qm_root map <> qm_nil map -> ops_ok map [] ops ->
  let '(m0, map0) := cl_qmap_init m map in
  let '(rs, E) := entries_run (qm_nil map) [] ops in
  exists m' map', qmap_run m0 map0 ops = Some (rs, m', map') /\ qmap_at m' map' E.
Proof.
  intros Hne Hok. pose proof (map_init_spec Z.compare m map Hne) as Hi.
  destruct (cl_qmap_init m map) as [m0 map0]. destruct Hi as (Hm0 & _ & Hr & Hn & _).
  rewrite (ops_ok_same map map0) in Hok by done. pose proof (qmap_run_spec ops m0 map0 [] Hm0 Hok) as H.
  rewrite Hn in H. destruct (entries_run (qm_nil map) [] ops) as [rs E].
  destruct H as (m' & map' & H1 & H2 & _). eauto.
Qed.

(** ** Concrete maps *)

Definition qmem0 : qmem :=
  Mem links0 (fun _ => NULL) (fun _ => NULL) (fun _ => NULL) (fun _ => CL_MAP_BLACK) (fun _ => 0%Z).

(** A map built by the code from a sequence of operations. *)
Definition build_map m map (ops : list qmap_op) : qmem * cl_qmap_t :=
  let '(m0, map0) := cl_qmap_init m map in
  match qmap_run m0 map0 ops with Some (_, m, map) => (m, map) | None => (m0, map0) end.

Lemma build_map_at m map ops E :
  qm_root map <> qm_nil map -> ops_ok map [] ops -> (entries_run (qm_nil map) [] ops).2 = E ->
  qmap_at (build_map m map ops).1 (build_map m map ops).2 E.
Proof.
  intros Hne Hok <-. unfold build_map. pose proof (map_init_spec Z.compare m map Hne) as Hi.
  destruct (cl_qmap_init m map) as [m0 map0]. destruct Hi as (Hm0 & _ & Hr & Hn & _).
  rewrite (ops_ok_same map map0) in Hok by done. pose proof (qmap_run_spec ops m0 map0 [] Hm0 Hok) as H.
  rewrite Hn in H. destruct (entries_run (qm_nil map) [] ops) as [rs E].
  destruct H as (m' & map' & -> & H2 & _). done.
Qed.

(** A map depends only on the items it owns. *)
Definition same_at m m' (x : ptr) : Prop :=
  same_item m m' x /\ p_next (m_links m') x = p_next (m_links m) x /\ p_prev (m_links m') x = p_prev (m_links m) x.

#[export] Instance same_at_dec m m' x : Decision (same_at m m' x).
Proof. unfold same_at, same_item. apply _. Defined.

Lemma map_at_local m m' map E :
  Forall (same_at m m') (owned map E) -> qmap_at m map E -> qmap_at m' map E.
Proof.
  rewrite Forall_forall. intros H (T & n & Hp & HE & Hb & Hs & [Hri Hnd] & Hc). exists T, n. split_and!; try done.
  - eapply (pos_frame Z.compare); [|exact Hp]. intros x Hx. apply H. rewrite zelems_plug in Hx. cbn in Hx.
    by rewrite HE in Hx.
  - split; [|done]. eapply seg_frame; [..|exact Hri]; intros x Hx; apply H; unfold owned; by right.
  - apply Hc.
  - apply Hc.
Qed.

Definition demo_ops := [OpInsert 5 1; OpInsert 3 2; OpInsert 8 3; OpInsert 1 4; OpInsert 4 5]%Z.
Definition demo_map := QMap 1000 1001 CL_UNINITIALIZED 0.
Definition demo := build_map qmem0 demo_map demo_ops.
Definition demo_entries := [(4, 1); (2, 3); (5, 4); (1, 5); (3, 8)]%Z.

Lemma demo_at : qmap_at demo.1 demo.2 demo_entries.
Proof. apply build_map_at; [done|vm_decide|reflexivity]. Qed.

(** A second map, and two empty ones, in the same memory. *)
Definition demo_b := build_map demo.1 (QMap 2000 2001 CL_UNINITIALIZED 0) [OpInsert 3 11; OpInsert 9 12]%Z.
Definition demo_n := build_map demo_b.1 (QMap 3000 3001 CL_UNINITIALIZED 0) [].
Definition demo_o := build_map demo_n.1 (QMap 4000 4001 CL_UNINITIALIZED 0) [].

Lemma demo_maps_at :
  maps_at Z.compare demo_o.1
    (delta_maps demo.2 demo_entries demo_b.2 [(11, 3); (12, 9)]%Z demo_n.2 [] demo_o.2 []).
Proof.
  split; [|vm_decide]. unfold delta_maps. rewrite !Forall_cons, Forall_nil. split_and!; [..|done].
  - apply (map_at_local demo.1); [vm_decide|exact demo_at].
  - apply (map_at_local demo_b.1); [vm_decide|]. unfold demo_b. apply build_map_at; [done|vm_decide|reflexivity].
  - apply (map_at_local demo_n.1); [vm_decide|]. unfold demo_n. apply build_map_at; [done|vm_decide|reflexivity].
  - unfold demo_o at 1 2. apply build_map_at; [done|vm_decide|reflexivity].
Qed.

Lemma qmap_insert_witness :
  qmap_at demo.1 demo.2 demo_entries /\
  exists m' map',
    cl_qmap_insert Z.compare demo.1 demo.2 7%Z 6%Z = Some (6%Z, m', map') /\
    qmap_at m' map' [(4, 1); (2, 3); (5, 4); (1, 5); (6, 7); (3, 8)]%Z.
Proof.
  split; [exact demo_at|].
  destruct (qmap_insert_refines demo.1 demo.2 demo_entries 7%Z 6%Z demo_at ltac:(vm_decide) ltac:(vm_decide))
    as (m' & map' & H1 & H2 & _). exists m', map'. split; [exact H1|exact H2].
Defined.

Lemma qmap_remove_witness :
  entry_find 2%Z demo_entries = None /\
  exists m' map',
    cl_qmap_remove Z.compare demo.1 demo.2 5%Z = Some (1%Z, m', map') /\
    qmap_at m' map' [(4, 1); (2, 3); (5, 4); (3, 8)]%Z.
Proof.
  split; [reflexivity|].
  destruct (qmap_remove_refines demo.1 demo.2 [(4, 1); (2, 3); (5, 4)]%Z 1%Z 5%Z [(3, 8)]%Z 2%Z demo_at eq_refl)
    as (m' & map' & _ & H2 & H3 & _). exists m', map'. split; [exact H2|exact H3].
Defined.

Lemma qmap_search_witness :
  qmap_at demo.1 demo.2 demo_entries /\ cl_qmap_get_next Z.compare demo.1 demo.2 5%Z = Some 3%Z.
Proof. split; [exact demo_at|]. exact (proj2 (qmap_search_correct demo.1 demo.2 demo_entries 5%Z demo_at)). Defined.

(** Five entries: five iterations are enough to find one, and to miss another. *)
Lemma qmap_search_logarithmic_witness :
  qmap_at demo.1 demo.2 demo_entries /\
  get_loop Z.compare 5 demo.1 demo.2 8%Z (__cl_map_root demo.1 demo.2) = Some 3%Z /\
  get_loop Z.compare 5 demo.1 demo.2 7%Z (__cl_map_root demo.1 demo.2) = Some (cl_qmap_end demo.2).
Proof.
  split; [exact demo_at|]. split.
  - exact (proj1 (qmap_search_logarithmic demo.1 demo.2 demo_entries 8%Z 5 demo_at ltac:(vm_compute; lia))).
  - exact (proj1 (qmap_search_logarithmic demo.1 demo.2 demo_entries 7%Z 5 demo_at ltac:(vm_compute; lia))).
Defined.

Lemma qmap_init_witness :
  let '(m', map') := cl_qmap_remove_all demo.1 demo.2 in qmap_at m' map' [].
Proof.
  pose proof (proj2 (qmap_init_correct demo.1 demo.2 demo_entries ltac:(vm_compute; lia)) demo_at) as H.
  destruct (cl_qmap_remove_all demo.1 demo.2). apply H.
Defined.

Lemma qmap_traversal_witness :
  qmap_at demo.1 demo.2 demo_entries /\
  cl_qmap_apply_func demo.1 demo.2 (fun p c => (10 * c + p)%Z) 0%Z = Some 42513%Z.
Proof.
  split; [exact demo_at|].
  exact (proj2 (proj2 (proj2 (proj2 (proj2
    (qmap_traversal_sorted demo.1 demo.2 [(4, 1); (2, 3)]%Z 5%Z 4%Z [(1, 5); (3, 8)]%Z
       (fun p c => (10 * c + p)%Z) 0%Z demo_at)))))).
Defined.

Lemma qmap_merge_witness :
  exists m' dest' src',
    cl_qmap_merge Z.compare demo_o.1 demo.2 demo_b.2 = Some (m', dest', src') /\
    qmap_at m' dest' (demo_entries ++ [(12, 9)])%Z /\ qmap_at m' src' [(11, 3)]%Z.
Proof.
  destruct demo_maps_at as [HF _]. unfold delta_maps in HF. rewrite !Forall_cons in HF. destruct HF as (Ha & Hb & _).
  assert (apart demo_b.2 [(11, 3); (12, 9)]%Z demo.2 demo_entries) as Hap.
  { unfold apart. apply Forall_forall. vm_decide. }
  destruct (qmap_merge_correct demo_o.1 demo.2 demo_entries demo_b.2 [(11, 3); (12, 9)]%Z Hb Ha Hap ltac:(vm_decide))
    as (m' & dest' & src' & H1 & H2 & H3 & _). exists m', dest', src'. split_and!; [exact H1|exact H2|exact H3].
Defined.

Lemma qmap_delta_witness :
  exists m' map1' map2' new' old',
    cl_qmap_delta Z.compare demo_o.1 demo.2 demo_b.2 demo_n.2 demo_o.2 = Some (m', map1', map2', new', old') /\
    maps_at Z.compare m'
      (delta_maps map1' [(2, 3)] map2' [(11, 3)] new' [(12, 9)] old' [(4, 1); (5, 4); (1, 5); (3, 8)])%Z.
Proof.
  destruct (qmap_delta_correct demo_o.1 demo.2 demo_entries demo_b.2 [(11, 3); (12, 9)]%Z demo_n.2 demo_o.2 demo_maps_at)
    as (m' & a & b & n & o & H1 & H2 & _). exists m', a, b, n, o. split; [exact H1|exact H2].
Defined.

Lemma qmap_run_witness :
  let ops := (demo_ops ++ [OpGet 4; OpRemove 3; OpGetNext 2; OpRemoveItem 1; OpGet 5])%Z in
  ops_ok demo_map [] ops /\
  exists m' map',
    qmap_run (cl_qmap_init qmem0 demo_map).1 (cl_qmap_init qmem0 demo_map).2 ops =
      Some ([1; 2; 3; 4; 5; 5; 2; 5; 1001; 1001]%Z, m', map') /\
    qmap_at m' map' [(4, 1); (5, 4); (3, 8)]%Z.
Proof.
  split; [vm_decide|].
  exact (qmap_run_refines qmem0 demo_map (demo_ops ++ [OpGet 4; OpRemove 3; OpGetNext 2; OpRemoveItem 1; OpGet 5])%Z
           ltac:(done) ltac:(vm_decide)).
Defined.
