(* ===== verification/FlexiMap.v ===== *)
(** * Flexi map: [cl_fmap_*], the map ordered by a caller's function

    The flexi map is the tree of [RbMap.v] with items that hold a pointer to a
    key and a map that holds the comparison function; the tree code is the same
    text as the quick map's with the types changed.  A key pointer is represented
    by what it points to (the storage of a key is the caller's and does not
    change while the item is in a map). *)

From S2P Require Import Prelude Qlist RbMap RbTree RbInsert RbRemove MapSpec MapRemove MapOps QMap.

(** [cl_fmap_t]: the map of items and the comparison function, which returns a
    negative, zero or positive integer. *)
Record cl_fmap_t (K : Type) := FMap {
  fm_map : cl_qmap_t;
  pfn_compare : K -> K -> Z }.
Arguments FMap {K}.
Arguments fm_map {K}.
Arguments pfn_compare {K}.

Section FlexiMap.
Context {K : Type}.
Implicit Types (m : mem K) (map : cl_fmap_t K) (p_item : ptr) (k : K).

(** [cmp < 0], [cmp == 0], [cmp > 0] of the result of a comparison function. *)
Definition sign_of (pfn : K -> K -> Z) : K -> K -> comparison := fun a b => (pfn a b ?= 0)%Z.

Abbreviation order map := (sign_of (pfn_compare map)).
Definition with_map map (q : cl_qmap_t) : cl_fmap_t K := FMap q (pfn_compare map).

Definition __cl_fmap_root m map : ptr := __cl_map_root m (fm_map map).
Definition __cl_fmap_is_left_child m p_item : bool := __cl_map_is_left_child m p_item.
Definition __cl_fmap_get_parent_ptr_to_item m p_item : child_ptr := __cl_map_get_parent_ptr_to_item m p_item.
Definition __cl_fmap_rot_left m map p_item : mem K := __cl_map_rot_left m (fm_map map) p_item.
Definition __cl_fmap_rot_right m map p_item : mem K := __cl_map_rot_right m (fm_map map) p_item.

Definition cl_fmap_count map : Z := qm_count (fm_map map).
Definition cl_is_fmap_empty map : bool := bool_decide (qm_count (fm_map map) = 0%Z).
Definition cl_fmap_key m p_item : K := key m p_item.
Definition cl_fmap_end map : ptr := qm_nil (fm_map map).
Definition cl_fmap_head m map : ptr := cl_qmap_head m (fm_map map).
Definition cl_fmap_tail m map : ptr := cl_qmap_tail m (fm_map map).
Definition cl_fmap_next m p_item : ptr := cl_qmap_next m p_item.
Definition cl_fmap_prev m p_item : ptr := cl_qmap_prev m p_item.

Definition cl_fmap_remove_all m map : mem K * cl_fmap_t K :=
  let '(m, q) := cl_qmap_remove_all m (fm_map map) in (m, with_map map q).

Definition cl_fmap_init m map (pfn : K -> K -> Z) : mem K * cl_fmap_t K :=
  let '(m, q) := cl_qmap_init m (fm_map map) in (m, FMap q pfn).

(** A null comparison function stands for the map's own. *)
Definition cl_fmap_match m map k (pfn : option (K -> K -> Z)) : option ptr :=
  get_loop (sign_of (default (pfn_compare map) pfn)) (map_fuel (fm_map map)) m (fm_map map) k
    (__cl_fmap_root m map).

Definition cl_fmap_get m map k : option ptr := cl_fmap_match m map k (Some (pfn_compare map)).

Definition cl_fmap_get_next m map k : option ptr := cl_qmap_get_next (order map) m (fm_map map) k.

Definition cl_fmap_apply_func {A} m map (pfn_func : ptr -> A -> A) (ctx : A) : option A :=
  cl_qmap_apply_func m (fm_map map) pfn_func ctx.

Definition __cl_fmap_ins_bal fuel m map p_item : option (mem K) :=
  __cl_map_ins_bal fuel m (fm_map map) p_item.
Definition __cl_fmap_del_bal fuel m map p_item : option (mem K) :=
  __cl_map_del_bal fuel m (fm_map map) p_item.

Definition cl_fmap_insert m map k p_item : option (ptr * mem K * cl_fmap_t K) :=
  '(p, m, q) ← cl_qmap_insert (order map) m (fm_map map) k p_item;
  Some (p, m, with_map map q).

Definition cl_fmap_remove_item m map p_item : option (mem K * cl_fmap_t K) :=
  '(m, q) ← cl_qmap_remove_item m (fm_map map) p_item;
  Some (m, with_map map q).

Definition cl_fmap_remove m map k : option (ptr * mem K * cl_fmap_t K) :=
  p_item ← cl_fmap_get m map k;
  '(m, map) ← cl_fmap_remove_item m map p_item;
  Some (p_item, m, map).

(** ** Two maps, each with its own comparison function *)

Fixpoint fmerge_loop (fuel : nat) m (dest src : cl_fmap_t K) p_item
    : option (mem K * cl_fmap_t K * cl_fmap_t K) :=
  match fuel with
  | O => None
  | S n =>
      if decide (p_item = cl_fmap_end src) then Some (m, dest, src)
      else
        let nxt := cl_fmap_next m p_item in
        '(m, src) ← cl_fmap_remove_item m src p_item;
        '(p_item2, m, dest) ← cl_fmap_insert m dest (cl_fmap_key m p_item) p_item;
        if decide (p_item2 <> p_item) then
          '(_, m, src) ← cl_fmap_insert m src (cl_fmap_key m p_item) p_item;
          fmerge_loop n m dest src nxt
        else fmerge_loop n m dest src nxt
  end.

Definition cl_fmap_merge m (dest src : cl_fmap_t K) : option (mem K * cl_fmap_t K * cl_fmap_t K) :=
  fmerge_loop (map_fuel (fm_map src)) m dest src (cl_fmap_head m src).

Definition __cl_fmap_delta_move m (dest src : cl_fmap_t K) p_item
    : option (ptr * mem K * cl_fmap_t K * cl_fmap_t K) :=
  let nxt := cl_fmap_next m p_item in
  '(m, src) ← cl_fmap_remove_item m src p_item;
  '(_, m, dest) ← cl_fmap_insert m dest (cl_fmap_key m p_item) p_item;
  Some (nxt, m, dest, src).

Fixpoint fdelta_rest (fuel : nat) m (dest src : cl_fmap_t K) p_item
    : option (mem K * cl_fmap_t K * cl_fmap_t K) :=
  match fuel with
  | O => None
  | S n =>
      if decide (p_item = cl_fmap_end src) then Some (m, dest, src)
      else
        '(p_item, m, dest, src) ← __cl_fmap_delta_move m dest src p_item;
        fdelta_rest n m dest src p_item
  end.

(** The comparison is the first map's. *)
Fixpoint fdelta_loop (fuel : nat) m (map1 map2 new old : cl_fmap_t K) (p_item1 p_item2 : ptr)
    : option (ptr * ptr * mem K * cl_fmap_t K * cl_fmap_t K * cl_fmap_t K * cl_fmap_t K) :=
  match fuel with
  | O => None
  | S n =>
      if decide (p_item1 <> cl_fmap_end map1 /\ p_item2 <> cl_fmap_end map2) then
        match order map1 (cl_fmap_key m p_item1) (cl_fmap_key m p_item2) with
        | Lt =>
            '(p_item1, m, old, map1) ← __cl_fmap_delta_move m old map1 p_item1;
            fdelta_loop n m map1 map2 new old p_item1 p_item2
        | Gt =>
            '(p_item2, m, new, map2) ← __cl_fmap_delta_move m new map2 p_item2;
            fdelta_loop n m map1 map2 new old p_item1 p_item2
        | Eq =>
            fdelta_loop n m map1 map2 new old (cl_fmap_next m p_item1) (cl_fmap_next m p_item2)
        end
      else Some (p_item1, p_item2, m, map1, map2, new, old)
  end.

Definition cl_fmap_delta m (map1 map2 new old : cl_fmap_t K)
    : option (mem K * cl_fmap_t K * cl_fmap_t K * cl_fmap_t K * cl_fmap_t K) :=
  '(p_item1, p_item2, m, map1, map2, new, old) ←
    fdelta_loop (map_fuel (fm_map map1) + map_fuel (fm_map map2)) m map1 map2 new old
      (cl_fmap_head m map1) (cl_fmap_head m map2);
  '(m, new, map2) ← fdelta_rest (map_fuel (fm_map map2)) m new map2 p_item2;
  '(m, old, map1) ← fdelta_rest (map_fuel (fm_map map1)) m old map1 p_item1;
  Some (m, map1, map2, new, old).

(** ** With one comparison function, the loops are those of the quick map *)

Section OneOrder.
Variable pfn : K -> K -> Z.
Abbreviation cmp := (sign_of pfn).
Abbreviation F q := (FMap q pfn).

Lemma fmerge_loop_eq fuel : forall m d s p,
  fmerge_loop fuel m (F d) (F s) p =
  (fun '(m, d, s) => (m, F d, F s)) <$> merge_loop cmp fuel m d s p.
Proof.
  induction fuel as [|n IH]; intros m d s p; [done|]. cbn [fmerge_loop merge_loop].
  unfold cl_fmap_end, cl_qmap_end. cbn [fm_map]. destruct (decide (p = qm_nil s)); [done|].
  unfold cl_fmap_remove_item, cl_fmap_next. cbn [fm_map]. destruct (cl_qmap_remove_item m s p) as [[m1 s1]|]; [|done].
  cbn [mbind option_bind]. unfold cl_fmap_insert, cl_fmap_key, cl_qmap_key. cbn [fm_map pfn_compare with_map].
  destruct (cl_qmap_insert cmp m1 d (key m1 p) p) as [[[p2 m2] d2]|]; [|done]. cbn [mbind option_bind].
  destruct (decide (p2 <> p)); [|apply IH].
  destruct (cl_qmap_insert cmp m2 s1 (key m2 p) p) as [[[p3 m3] s3]|]; [|done]. apply IH.
Qed.

Lemma delta_move_eq m d s p :
  __cl_fmap_delta_move m (F d) (F s) p =
  (fun '(q, m, d, s) => (q, m, F d, F s)) <$> __cl_qmap_delta_move cmp m d s p.
Proof.
  unfold __cl_fmap_delta_move, __cl_qmap_delta_move, cl_fmap_remove_item. cbn [fm_map].
  destruct (cl_qmap_remove_item m s p) as [[m1 s1]|]; [|done]. cbn [mbind option_bind].
  unfold cl_fmap_insert, cl_fmap_key, cl_qmap_key. cbn [fm_map pfn_compare with_map].
  by destruct (cl_qmap_insert cmp m1 d (key m1 p) p) as [[[p2 m2] d2]|].
Qed.

Lemma fdelta_rest_eq fuel : forall m d s p,
  fdelta_rest fuel m (F d) (F s) p =
  (fun '(m, d, s) => (m, F d, F s)) <$> delta_rest cmp fuel m d s p.
Proof.
  induction fuel as [|n IH]; intros m d s p; [done|]. cbn [fdelta_rest delta_rest].
  unfold cl_fmap_end, cl_qmap_end. cbn [fm_map]. destruct (decide (p = qm_nil s)); [done|].
  rewrite delta_move_eq. destruct (__cl_qmap_delta_move cmp m d s p) as [[[[q m1] d1] s1]|]; [|done]. apply IH.
Qed.

Lemma fdelta_loop_eq fuel : forall m a b n o p1 p2,
  fdelta_loop fuel m (F a) (F b) (F n) (F o) p1 p2 =
  (fun '(p1, p2, m, a, b, n, o) => (p1, p2, m, F a, F b, F n, F o)) <$> delta_loop cmp fuel m a b n o p1 p2.
Proof.
  induction fuel as [|f IH]; intros m a b n o p1 p2; [done|]. cbn [fdelta_loop delta_loop].
  unfold cl_fmap_end, cl_qmap_end. cbn [fm_map pfn_compare].
  destruct (decide _); [|done]. unfold cl_fmap_key, cl_qmap_key. rewrite !delta_move_eq.
  destruct (cmp (key m p1) (key m p2)); [apply IH|..].
  - destruct (__cl_qmap_delta_move cmp m o a p1) as [[[[q m1] d1] s1]|]; [apply IH|done].
  - destruct (__cl_qmap_delta_move cmp m n b p2) as [[[[q m1] d1] s1]|]; [apply IH|done].
Qed.

Lemma fmap_merge_eq m d s :
  cl_fmap_merge m (F d) (F s) = (fun '(m, d, s) => (m, F d, F s)) <$> cl_qmap_merge cmp m d s.
Proof. apply fmerge_loop_eq. Qed.

Lemma fmap_delta_eq m a b n o :
  cl_fmap_delta m (F a) (F b) (F n) (F o) =
  (fun '(m, a, b, n, o) => (m, F a, F b, F n, F o)) <$> cl_qmap_delta cmp m a b n o.
Proof.
  unfold cl_fmap_delta, cl_qmap_delta. cbn [fm_map]. rewrite fdelta_loop_eq. unfold cl_fmap_head. cbn [fm_map].
  destruct (delta_loop _ _ _ _ _ _ _ _ _) as [[[[[[[p1 p2] m1] a1] b1] n1] o1]|]; [|done].
  cbn [mbind option_bind fmap option_fmap option_map fm_map]. rewrite fdelta_rest_eq.
  destruct (delta_rest cmp _ m1 n1 b1 p2) as [[[m2 n2] b2]|]; [|done].
  cbn [mbind option_bind fmap option_fmap option_map fm_map]. rewrite fdelta_rest_eq.
  by destruct (delta_rest cmp _ m2 o1 a1 p1) as [[[m3 o3] a3]|].
Qed.
End OneOrder.
End FlexiMap.

(** ** Properties *)

Section FlexiSpec.
Context {K : Type}.
Implicit Types (m : mem K) (map : cl_fmap_t K) (E : list (ptr * K)) (k : K).

(** A flexi map in memory: its entries are in the order of its function. *)
Definition fmap_at m map E : Prop := map_at (sign_of (pfn_compare map)) m (fm_map map) E.

(** The search with another function: [pfn] may look at less of the key, as
    long as what it calls too small comes before what it calls too big. *)
Definition consistent (pfn : K -> K -> Z) k E : Prop :=
  forall E1 e E2, E = E1 ++ e :: E2 ->
    (sign_of pfn k e.2 = Lt -> forall x, x ∈ E2 -> sign_of pfn k x.2 = Lt) /\
    (sign_of pfn k e.2 = Gt -> forall x, x ∈ E1 -> sign_of pfn k x.2 = Gt).

Lemma consistent_l pfn k E1 E2 : consistent pfn k (E1 ++ E2) -> consistent pfn k E1.
Proof.
  intros H F1 e F2 ->. destruct (H F1 e (F2 ++ E2)) as [H1 H2]; [by rewrite <- (assoc_L (++))|].
  split; [|done]. intros Hk x Hx. apply H1; set_solver.
Qed.

Lemma consistent_r pfn k E1 E2 : consistent pfn k (E1 ++ E2) -> consistent pfn k E2.
Proof.
  intros H F1 e F2 ->. destruct (H (E1 ++ F1) e F2) as [H1 H2]; [by rewrite <- (assoc_L (++))|].
  split; [done|]. intros Hk x Hx. apply H2; set_solver.
Qed.

Definition match_result (pfn : K -> K -> Z) k E (nil q : ptr) : Prop :=
  (exists k', (q, k') ∈ E /\ pfn k k' = 0%Z) \/ (q = nil /\ forall e, e ∈ E -> pfn k e.2 <> 0%Z).

Lemma match_loop_spec pfn (q0 : cl_qmap_t) k : forall t m z fuel,
  length (elems t) < fuel -> pos q0 m z t -> consistent pfn k (elems t) ->
  exists q, get_loop (sign_of pfn) fuel m q0 k (tptr (qm_nil q0) t) = Some q /\
    match_result pfn k (elems t) (qm_nil q0) q.
Proof.
  induction t as [|c l IHl p k' r IHr]; intros m z [|fuel] Hf Hp Hc; try (cbn in Hf; lia).
  - cbn. rewrite decide_True by done. eexists. split; [done|]. right. set_solver.
  - destruct (elems_length_split (Node c l p k' r) l p k' r eq_refl).
    pose proof (tptr_not_nil _ _ _ _ Hp ltac:(done)) as Hne.
    cbn [get_loop elems tptr] in *. rewrite decide_False by done.
    pose proof Hp as ([_ (Hl & Hr & _ & _ & Hk & _)] & _). rewrite Hk, Hl, Hr.
    destruct (Hc (elems l) (p, k') (elems r) eq_refl) as [HL HG]. cbn [snd] in HL, HG.
    apply consistent_r in Hc as Hcr. apply (consistent_r _ _ [(p, k')]) in Hcr. apply consistent_l in Hc.
    assert (forall a b, sign_of pfn a b <> Eq -> pfn a b <> 0%Z) as Hz.
    { unfold sign_of. intros a b Hab Heq. by rewrite Heq in Hab. }
    destruct (sign_of pfn k k') eqn:Es.
    + exists p. split; [done|]. left. exists k'. split; [set_solver|]. by apply Z.compare_eq in Es.
    + destruct (IHl m (InLeft c p k' r :: z) fuel) as (q & -> & Hq);
        [lia|by rewrite pos_fill|done|]. exists q. split; [done|].
      destruct Hq as [(kq & Hin & H0')|[-> Hn]]; [left; exists kq; split; [set_solver|done]|right].
      split; [done|]. intros e [He|[->|He]%elem_of_cons]%elem_of_app; [by apply Hn|..]; apply Hz; cbn;
        [by rewrite Es|by rewrite HL].
    + destruct (IHr m (InRight c l p k' :: z) fuel) as (q & -> & Hq);
        [lia|by rewrite pos_fill|done|]. exists q. split; [done|].
      destruct Hq as [(kq & Hin & H0')|[-> Hn]]; [left; exists kq; split; [set_solver|done]|right].
      split; [done|]. intros e [He|[->|He]%elem_of_cons]%elem_of_app; [..|by apply Hn]; apply Hz; cbn;
        [by rewrite HG|by rewrite Es].
Qed.
End FlexiSpec.

(** [cl_fmap_match] with another comparison function ends and returns an item
    the function calls equal, or the end item when the function calls no item
    equal, provided the function agrees with the order of the map. *)
Theorem fmap_match_correct {K} (m : mem K) map E k pfn :
  fmap_at m map E -> consistent pfn k E ->
  exists q, cl_fmap_match m map k (Some pfn) = Some q /\ match_result pfn k E (cl_fmap_end map) q.
Proof.
  intros Hm Hc. unfold cl_fmap_match, __cl_fmap_root, __cl_map_root. cbn [default].
  rewrite (map_fuel_enough (sign_of (pfn_compare map)) _ _ _ Hm).
  destruct Hm as (T & n & Hp & <- & _). pose proof Hp as ([Hz _] & _). cbn in Hz. rewrite Hz.
  apply (match_loop_spec pfn (fm_map map) k T m []); [cbn; lia|done|done].
Qed.

(** C29. With a comparison function that orders keys, the flexi map behaves as a
    sorted association list: searches, insertion, and removal by key agree with
    it, and every result is again a flexi map with the same function. *)
Theorem fmap_refines {K} (m : mem K) map E k p :
  KeyOrder (sign_of (pfn_compare map)) -> fmap_at m map E -> p ∉ owned (fm_map map) E ->
  (Z.of_nat (length E) + 1 < 2 ^ 64)%Z ->
  let cmp := sign_of (pfn_compare map) in
  cl_fmap_get m map k = Some (default (cl_fmap_end map) (lookup_key cmp k E)) /\
  cl_fmap_get_next m map k = Some (default (cl_fmap_end map) (lookup_above cmp k E)) /\
  (exists m' map',
    cl_fmap_insert m map k p = Some (default p (lookup_key cmp k E), m', map') /\
    fmap_at m' map' (entry_insert cmp (p, k) E) /\ pfn_compare map' = pfn_compare map) /\
  (exists m' map',
    cl_fmap_remove m map k = Some (default (cl_fmap_end map) (lookup_key cmp k E), m', map') /\
    fmap_at m' map' (entry_delete cmp k E) /\
    pfn_compare map' = pfn_compare map).
Proof.
  intros Ho Hm Hp Hl cmp. split_and!.
  - by apply (map_get_spec cmp).
  - by apply (map_get_next_spec cmp).
  - destruct (map_insert_entries cmp m (fm_map map) E k p Hm Hp Hl) as (m' & q & H1 & H2 & _).
    unfold cl_fmap_insert. fold cmp. rewrite H1. cbn. by exists m', (FMap q (pfn_compare map)).
  - destruct (map_remove_spec cmp m (fm_map map) E k Hm) as (m' & q & H1 & (_ & _ & _ & H2 & _) & _).
    exists m', (FMap q (pfn_compare map)). split_and!; [|done|done].
    unfold cl_fmap_remove, cl_fmap_remove_item. unfold cl_qmap_remove in H1.
    change (cl_fmap_get m map k) with (cl_qmap_get cmp m (fm_map map) k).
    destruct (cl_qmap_get cmp m (fm_map map) k) as [x|]; [|done]. cbn [mbind option_bind] in *.
    destruct (cl_qmap_remove_item m (fm_map map) x) as [[m1 q1]|]; [|done].
    cbn [mbind option_bind] in *. by injection H1 as -> -> ->.
Qed.

(** C30. Merge and difference of flexi maps that share a comparison function do
    what the quick map's do under that order: the destination gains the items
    whose keys it lacks, the difference keeps the common keys in place and moves
    the rest, and every map keeps its function. *)
Theorem fmap_merge_delta_correct {K} (pfn : K -> K -> Z) (m : mem K) a A b B n o :
  KeyOrder (sign_of pfn) -> maps_at (sign_of pfn) m (delta_maps a A b B n [] o []) ->
  (Z.of_nat (length A) + Z.of_nat (length B) < 2 ^ 64)%Z ->
  let cmp := sign_of pfn in
  (exists m' a' b',
    cl_fmap_merge m (FMap a pfn) (FMap b pfn) = Some (m', FMap a' pfn, FMap b' pfn) /\
    fmap_at m' (FMap a' pfn) (merged cmp A B) /\ fmap_at m' (FMap b' pfn) (not_merged cmp A B)) /\
  (exists m' a' b' n' o',
    cl_fmap_delta m (FMap a pfn) (FMap b pfn) (FMap n pfn) (FMap o pfn) =
      Some (m', FMap a' pfn, FMap b' pfn, FMap n' pfn, FMap o' pfn) /\
    maps_at cmp m' (delta_maps a' (common cmp A B) b' (common cmp B A) n' (only cmp B A) o' (only cmp A B))).
Proof.
  intros Ho Hm Hl cmp. split.
  - assert (maps_at cmp m [(b, B); (a, A); (n, []); (o, [])]) as Hm'.
    { eapply maps_at_perm; [|exact Hm]. unfold delta_maps. solve_Permutation. }
    pose proof (maps_at_apart cmp _ _ _ _ _ _ Hm') as Ha. destruct Hm' as [HF _].
    rewrite !Forall_cons in HF. destruct HF as (Hb & Ha' & _).
    destruct (map_merge_spec cmp m a A b B Hb Ha' Ha Hl) as (m' & a' & b' & H1 & H2 & H3 & _).
    exists m', a', b'. split_and!; [|exact H2|exact H3]. rewrite fmap_merge_eq. fold cmp. by rewrite H1.
  - destruct (map_delta_spec cmp m a A b B n o Hm) as (m' & a' & b' & n' & o' & H1 & H2 & _).
    exists m', a', b', n', o'. split; [|exact H2]. rewrite fmap_delta_eq. fold cmp. by rewrite H1.
Qed.

(** ** Concrete flexi maps: integer keys, compared by their difference *)

Definition int_cmp (a b : Z) : Z := (a - b)%Z.

#[export] Instance int_cmp_order : KeyOrder (sign_of int_cmp).
Proof.
  assert (forall x y, sign_of int_cmp x y = Z.compare x y) as H.
  { intros x y. unfold sign_of, int_cmp. by rewrite <- Z.compare_sub. }
  split; intros *; rewrite ?H; [apply Z.compare_antisym|..].
  - rewrite !Z.compare_lt_iff. lia.
  - rewrite Z.compare_eq_iff. by intros ->.
Qed.

Lemma int_cmp_map_at (m : mem Z) q E : qmap_at m q E -> fmap_at m (FMap q int_cmp) E.
Proof.
  intros (T & n & H1 & H2 & H3 & H4 & H5). exists T, n. split_and!; try done; [|apply H5..].
  clear -H4. induction E as [|e E IH]; [done|]. destruct H4 as [Hx Hs]. split; [|by apply IH].
  intros x Hin. specialize (Hx x Hin). unfold key_lt, sign_of, int_cmp in *. by rewrite <- Z.compare_sub.
Qed.

(** Compare the tens only. *)
Definition tens_cmp (a b : Z) : Z := (a / 10 - b / 10)%Z.
Definition demo_tens := build_map qmem0 demo_map [OpInsert 12 1; OpInsert 25 2; OpInsert 38 3]%Z.

Lemma demo_tens_at : qmap_at demo_tens.1 demo_tens.2 [(1, 12); (2, 25); (3, 38)]%Z.
Proof. unfold demo_tens. apply build_map_at; [done|vm_decide|reflexivity]. Qed.

Lemma tens_consistent : consistent tens_cmp 20%Z [(1, 12); (2, 25); (3, 38)]%Z.
Proof.
  intros E1 e E2 H. destruct E1 as [|? [|? [|? [|]]]]; simplify_eq/=; split; intros Hk; vm_compute in Hk;
    try discriminate Hk; apply Forall_forall; repeat constructor; reflexivity.
Qed.

Lemma fmap_match_witness :
  consistent tens_cmp 20%Z [(1, 12); (2, 25); (3, 38)]%Z /\
  exists q, cl_fmap_match demo_tens.1 (FMap demo_tens.2 int_cmp) 20%Z (Some tens_cmp) = Some q /\
    match_result tens_cmp 20%Z [(1, 12); (2, 25); (3, 38)]%Z 1001%Z q.
Proof.
  split; [exact tens_consistent|].
  exact (fmap_match_correct demo_tens.1 (FMap demo_tens.2 int_cmp) _ 20%Z tens_cmp
           (int_cmp_map_at _ _ _ demo_tens_at) tens_consistent).
Defined.

Lemma fmap_refines_witness :
  fmap_at demo.1 (FMap demo.2 int_cmp) demo_entries /\
  cl_fmap_get demo.1 (FMap demo.2 int_cmp) 4%Z = Some 5%Z.
Proof.
  split; [exact (int_cmp_map_at _ _ _ demo_at)|].
  exact (proj1 (fmap_refines demo.1 (FMap demo.2 int_cmp) demo_entries 4%Z 6%Z int_cmp_order
           (int_cmp_map_at _ _ _ demo_at) ltac:(vm_decide) ltac:(vm_decide))).
Defined.

Lemma fmap_merge_delta_witness :
  exists m' a' b',
    cl_fmap_merge demo_o.1 (FMap demo.2 int_cmp) (FMap demo_b.2 int_cmp) =
      Some (m', FMap a' int_cmp, FMap b' int_cmp) /\
    fmap_at m' (FMap a' int_cmp) (demo_entries ++ [(12, 9)])%Z.
Proof.
  assert (maps_at (sign_of int_cmp) demo_o.1
            (delta_maps demo.2 demo_entries demo_b.2 [(11, 3); (12, 9)]%Z demo_n.2 [] demo_o.2 [])) as Hm.
  { destruct demo_maps_at as [HF Hnd]. split; [|exact Hnd]. refine (Forall_impl _ _ _ HF _).
    intros [q E] Hq. exact (int_cmp_map_at _ _ _ Hq). }
  destruct (proj1 (fmap_merge_delta_correct int_cmp demo_o.1 _ _ _ _ _ _ int_cmp_order Hm ltac:(vm_decide)))
    as (m' & a' & b' & H1 & H2 & _). exists m', a', b'. split; [exact H1|exact H2].
Defined.
