(* ===== verification/Timer.v ===== *)
(** * Timers ([cl_timer.c])

    One thread, the timer provider, fires the timers of a process.  The timers that
    run are in a queue, ordered by the time they are due; the thread waits on a
    condition variable until the first one is due or the queue changes.  A mutex
    guards the queue and the states of the timers.

    The state of the system is the memory of the timers, the queue, what the
    provider and the other threads are doing, and the clock.  All code that holds
    the mutex runs in one step, up to the point where it releases the mutex or
    waits, which releases it; between these steps the threads run in any order.
    A thread waiting on a condition variable becomes ready by a signal, at its
    time, or, as POSIX permits, for no reason; it goes on in a later step, when it
    has the mutex again. *)

From S2P Require Import Prelude Qlist.

Local Open Scope Z_scope.
Local Open Scope list_scope.

Inductive cl_timer_state_t := CL_TIMER_IDLE | CL_TIMER_QUEUED | CL_TIMER_RUNNING.

#[export] Instance cl_timer_state_eq_dec : EqDecision cl_timer_state_t.
Proof. solve_decision. Defined.

(** ** Time *)

Record timeval := TimeVal { val_sec : Z; tv_usec : Z }.
Record timespec := TimeSpec { tv_sec : Z; tv_nsec : Z }.

Definition timeradd (a b : timeval) : timeval :=
  let sec := val_sec a + val_sec b in
  let usec := tv_usec a + tv_usec b in
  if decide (usec >= 1000000) then TimeVal (sec + 1) (usec - 1000000) else TimeVal sec usec.

Definition __cl_timer_is_earlier (p_timeout1 p_timeout2 : timespec) : bool :=
  bool_decide (tv_sec p_timeout1 < tv_sec p_timeout2 \/
    tv_sec p_timeout1 = tv_sec p_timeout2 /\ tv_nsec p_timeout1 < tv_nsec p_timeout2).

(** [curtime] is what [gettimeofday] gives. *)
Definition __cl_timer_calculate (time_ms : Z) (curtime : timeval) : timespec :=
  let deltatime := TimeVal (time_ms / 1000) ((time_ms mod 1000) * 1000) in
  let endtime := timeradd curtime deltatime in
  TimeSpec (val_sec endtime) (tv_usec endtime * 1000).

Definition cl_get_time_stamp (tv : timeval) : Z := u64 (u64 (u64 (val_sec tv) * 1000000) + u64 (tv_usec tv)).
Definition cl_get_time_stamp_sec (tv : timeval) : Z := u32 (val_sec tv).

(** ** Timers *)

(** The fields of all timers, by the address of the timer, which is also that of
    its list item. *)
Record timers := Timers {
  t_links : links;
  timer_state : ptr -> cl_timer_state_t;
  state : ptr -> cl_state_t;
  pfn_callback : ptr -> ptr;
  context : ptr -> ptr;
  timeout : ptr -> timespec }.

Definition set_timer_links (m : timers) (lk : links) : timers :=
  Timers lk (timer_state m) (state m) (pfn_callback m) (context m) (timeout m).
Definition set_timer_state (m : timers) (p : ptr) (v : cl_timer_state_t) : timers :=
  Timers (t_links m) (timer_state m)⟦p <~ v⟧ (state m) (pfn_callback m) (context m) (timeout m).
Definition set_state (m : timers) (p : ptr) (v : cl_state_t) : timers :=
  Timers (t_links m) (timer_state m) (state m)⟦p <~ v⟧ (pfn_callback m) (context m) (timeout m).
Definition set_timeout (m : timers) (p : ptr) (v : timespec) : timers :=
  Timers (t_links m) (timer_state m) (state m) (pfn_callback m) (context m) (timeout m)⟦p <~ v⟧.

Definition cl_timer_construct (m : timers) (p_timer : ptr) : timers :=
  Timers (set_prev (set_next (t_links m) p_timer NULL) p_timer NULL) (timer_state m)⟦p_timer <~ CL_TIMER_IDLE⟧
    (state m)⟦p_timer <~ CL_UNINITIALIZED⟧ (pfn_callback m)⟦p_timer <~ NULL⟧ (context m)⟦p_timer <~ NULL⟧
    (timeout m)⟦p_timer <~ TimeSpec 0 0⟧.

(** [created] tells whether there is a timer provider. *)
Definition cl_timer_init (created : bool) (m : timers) (p_timer f ctx : ptr) : cl_status_t * timers :=
  let m := cl_timer_construct m p_timer in
  if negb created then (CL_ERROR, m)
  else
    (CL_SUCCESS, Timers (t_links m) (timer_state m)⟦p_timer <~ CL_TIMER_IDLE⟧ (state m)⟦p_timer <~ CL_INITIALIZED⟧
      (pfn_callback m)⟦p_timer <~ f⟧ (context m)⟦p_timer <~ ctx⟧ (timeout m)).

Definition __cl_timer_find (m : timers) (p_new p_in_list : ptr) : cl_status_t :=
  if __cl_timer_is_earlier (timeout m p_in_list) (timeout m p_new) then CL_SUCCESS else CL_NOT_FOUND.

(** What [cl_timer_start] does under the mutex.  No result stands for a search
    that does not end. *)
Definition start_locked (m : timers) (queue : cl_qlist_t) (p_timer time_ms : Z) (curtime : timeval)
    : option (timers * cl_qlist_t) :=
  let '(lk, queue) :=
    if decide (timer_state m p_timer = CL_TIMER_QUEUED) then cl_qlist_remove_item (t_links m) queue p_timer
    else (t_links m, queue) in
  let m := set_timeout (set_timer_links m lk) p_timer (__cl_timer_calculate time_ms curtime) in
  '(lk, queue) ← (
    if cl_is_qlist_empty queue then Some (cl_qlist_insert_head lk queue p_timer)
    else
      p_list_item ← cl_qlist_find_from_tail lk queue (__cl_timer_find m p_timer);
      Some (cl_qlist_insert_next lk queue p_list_item p_timer));
  Some (set_timer_state (set_timer_links m lk) p_timer CL_TIMER_QUEUED, queue).

(** The case [CL_TIMER_QUEUED] of [cl_timer_stop]. *)
Definition stop_queued (m : timers) (queue : cl_qlist_t) (p_timer : ptr) : timers * cl_qlist_t :=
  let m := set_timer_state m p_timer CL_TIMER_IDLE in
  let '(lk, queue) := cl_qlist_remove_item (t_links m) queue p_timer in
  (set_timer_links m lk, queue).

(** ** Threads *)

(** The provider: it has been started or woken and will take the mutex; it waits
    for a timer to be queued; it waits for [p] until the time [d]; that time has
    passed, and it will take the mutex; it is in the callback of [p]; it has
    ended. *)
Inductive prov_pc :=
| ProvWoken
| ProvWait
| ProvTimed (p : ptr) (d : timespec)
| ProvTimedOut (p : ptr)
| ProvCallback (p : ptr)
| ProvExited.

(** The other threads: in no call; waiting in [cl_timer_stop], signalled or not,
    which [cl_timer_destroy] has called or not; in [cl_timer_trim], before it calls
    [cl_timer_start]; in [cl_timer_destroy], after [cl_timer_stop]. *)
Inductive client_pc :=
| Ready
| InStop (p : ptr) (woken destroy : bool)
| InTrim (p : ptr) (time_ms : Z)
| InDestroy (p : ptr).

#[export] Instance client_pc_eq_dec : EqDecision client_pc.
Proof. solve_decision. Defined.

(** The threads are numbered; thread 0 is the provider's as long as it runs a
    callback.  [fired] are the timers whose callback has been called. *)
Record system := System {
  mem : timers;
  queue : cl_qlist_t;
  exit : bool;
  prov : prov_pc;
  clients : list client_pc;
  clock : timeval;
  fired : list ptr }.

Definition set_prov (s : system) (pc : prov_pc) : system :=
  System (mem s) (queue s) (exit s) pc (clients s) (clock s) (fired s).
Definition set_client (s : system) (i : nat) (pc : client_pc) : system :=
  System (mem s) (queue s) (exit s) (prov s) (<[i := pc]> (clients s)) (clock s) (fired s).
Definition set_queue (s : system) (mq : timers * cl_qlist_t) : system :=
  System mq.1 mq.2 (exit s) (prov s) (clients s) (clock s) (fired s).

(** [pthread_cond_signal] on the condition variable of the provider. *)
Definition signal_prov (s : system) : system :=
  match prov s with ProvWait | ProvTimed _ _ => set_prov s ProvWoken | _ => s end.

(** *** The provider *)

(** From the head of the loop of [__cl_timer_prov_cb], with the mutex. *)
Definition prov_loop (s : system) : system :=
  if exit s then set_prov s ProvExited
  else if cl_is_qlist_empty (queue s) then set_prov s ProvWait
  else
    let p_timer := cl_qlist_head (t_links (mem s)) (queue s) in
    set_prov s (ProvTimed p_timer (timeout (mem s) p_timer)).

(** From the return of the timed wait with a timeout, with the mutex, to the call. *)
Definition prov_expired (s : system) (p_timer : ptr) : system :=
  if decide (timer_state (mem s) p_timer <> CL_TIMER_QUEUED) then prov_loop s
  else
    let m := set_timer_state (mem s) p_timer CL_TIMER_RUNNING in
    let '(lk, queue) := cl_qlist_remove_item (t_links m) (queue s) p_timer in
    System (set_timer_links m lk) queue (exit s) (ProvCallback p_timer) (clients s) (clock s) (fired s ++ [p_timer]).

(** From the return of the callback to the next wait; [w] is the thread that the
    signal wakes. *)
Definition prov_return (s : system) (p_timer : ptr) (w : option nat) : system :=
  let m := mem s in
  let m := if decide (timer_state m p_timer = CL_TIMER_RUNNING) then set_timer_state m p_timer CL_TIMER_IDLE else m in
  let s := set_queue s (m, queue s) in
  let s :=
    match w with
    | Some i => match clients s !! i with Some (InStop p _ d) => set_client s i (InStop p true d) | _ => s end
    | None => s
    end in
  prov_loop s.

(** *** The calls of the other threads *)

Definition cl_timer_start (s : system) (p_timer time_ms : Z) : option system :=
  mq ← start_locked (mem s) (queue s) p_timer time_ms (clock s);
  Some (set_queue (signal_prov s) mq).

Definition stop_finish (s : system) (p_timer : ptr) : system :=
  signal_prov (set_queue s (stop_queued (mem s) (queue s) p_timer)).

(** [cl_timer_stop] up to its end or to the wait for the callback; [destroy] when
    [cl_timer_destroy] calls it. *)
Definition cl_timer_stop (s : system) (i : nat) (p_timer : ptr) (destroy : bool) : system :=
  let next := if destroy then InDestroy p_timer else Ready in
  match timer_state (mem s) p_timer with
  | CL_TIMER_RUNNING => set_client s i (InStop p_timer false destroy)
  | CL_TIMER_QUEUED => set_client (stop_finish s p_timer) i next
  | CL_TIMER_IDLE => set_client s i next
  end.

(** After the wait: the timer may have been queued meanwhile. *)
Definition stop_resume (s : system) (i : nat) (p_timer : ptr) (destroy : bool) : system :=
  let next := if destroy then InDestroy p_timer else Ready in
  if decide (timer_state (mem s) p_timer <> CL_TIMER_QUEUED) then set_client s i next
  else set_client (stop_finish s p_timer) i next.

(** The first part of [cl_timer_trim]; the second one is [cl_timer_start]. *)
Definition cl_timer_trim (s : system) (i : nat) (p_timer time_ms : Z) : system :=
  let newtime := __cl_timer_calculate time_ms (clock s) in
  if decide (timer_state (mem s) p_timer = CL_TIMER_QUEUED) then
    if __cl_timer_is_earlier (timeout (mem s) p_timer) newtime then s
    else set_client s i (InTrim p_timer time_ms)
  else set_client s i (InTrim p_timer time_ms).

(** [cl_timer_destroy]: only a timer that is initialised is stopped. *)
Definition cl_timer_destroy (s : system) (i : nat) (p_timer : ptr) : system :=
  if decide (state (mem s) p_timer = CL_INITIALIZED) then cl_timer_stop s i p_timer true
  else set_client s i (InDestroy p_timer).

(** The end of [cl_timer_destroy]: all who wait for the timer are woken. *)
Definition destroy_finish (s : system) (i : nat) (p_timer : ptr) : system :=
  let s := set_queue s (set_state (mem s) p_timer CL_UNINITIALIZED, queue s) in
  let wake pc := match pc with InStop p w d => if decide (p = p_timer) then InStop p true d else pc | _ => pc end in
  set_client (System (mem s) (queue s) (exit s) (prov s) (wake <$> clients s) (clock s) (fired s)) i Ready.

(** *** Start and end of the provider *)

(** [n] is the number of the other threads, [q] the queue in the memory of the
    provider. *)
Definition prov_started (m : timers) (q : cl_qlist_t) (n : nat) (now : timeval) : system :=
  let '(lk, q) := cl_qlist_init (t_links m) q in
  System (set_timer_links m lk) q false ProvWoken (replicate (S n) Ready) now [].

(** No [q] when there is no memory; [created] tells whether the thread could be
    created.  If not, the provider is taken down again. *)
Definition __cl_timer_prov_create (m : timers) (q : option cl_qlist_t) (created : bool) (n : nat) (now : timeval)
    : cl_status_t * option system :=
  match q with
  | None => (CL_INSUFFICIENT_MEMORY, None)
  | Some q => if created then (CL_SUCCESS, Some (prov_started m q n now)) else (CL_ERROR, None)
  end.

(** Up to the wait for the end of the thread. *)
Definition __cl_timer_prov_destroy (s : system) : system :=
  signal_prov (System (mem s) (queue s) true (prov s) (clients s) (clock s) (fired s)).

(** ** Steps *)

Inductive event :=
| EvInit (p f ctx : ptr)
| EvStart (i : nat) (p : ptr) (time_ms : Z)
| EvStop (i : nat) (p : ptr)
| EvTrim (i : nat) (p : ptr) (time_ms : Z)
| EvDestroy (i : nat) (p : ptr)
| EvResume (i : nat)             (** a thread inside a call goes on *)
| EvProvDestroy
| EvTick (us : Z)                (** time passes *)
| EvTimeout                      (** the wait of the provider reaches its time *)
| EvRun                          (** the provider takes the mutex after a wait *)
| EvReturn (w : option nat)      (** the callback returns, thread [w] is woken *)
| EvSpurious (i : option nat).   (** a wait ends for no reason, the provider's or a thread's *)

Definition usec (tv : timeval) : Z := val_sec tv * 1000000 + tv_usec tv.
Definition nsec (ts : timespec) : Z := tv_sec ts * 1000000000 + tv_nsec ts.
Definition of_usec (us : Z) : timeval := TimeVal (us / 1000000) (us mod 1000000).
Definition valid_time (ts : timespec) : Prop := 0 <= tv_nsec ts < 1000000000.
#[export] Instance valid_time_dec ts : Decision (valid_time ts) := _.

(** The timed wait ends at its time; if the time is no valid one it ends at once. *)
Definition due (d : timespec) (now : timeval) : Prop := ~ valid_time d \/ nsec d <= usec now * 1000.
#[export] Instance due_dec d now : Decision (due d now) := _.

Definition calls_on (p : ptr) (pc : client_pc) : bool :=
  match pc with Ready => false | InStop q _ _ | InTrim q _ | InDestroy q => bool_decide (q = p) end.
Definition destroys (p : ptr) (pc : client_pc) : bool :=
  match pc with InStop q _ true | InDestroy q => bool_decide (q = p) | _ => false end.
Definition waits_for (p : ptr) (pc : client_pc) : bool :=
  match pc with InStop q false _ => bool_decide (q = p) | _ => false end.

(** What the library asks of its callers, and when each step can be taken.  [known]
    are the addresses of timers.  A call is on a timer that has been initialised
    and that nobody is destroying; a timer is destroyed when no other call on it is
    under way. *)
Section Steps.
Context (known : list ptr).

Definition may_call (s : system) (i : nat) (p : ptr) : bool :=
  bool_decide (p ∈ known) && bool_decide (state (mem s) p = CL_INITIALIZED) &&
  bool_decide (clients s !! i = Some Ready) && negb (existsb (destroys p) (clients s)) &&
  (negb (Nat.eqb i 0) || match prov s with ProvCallback _ => true | _ => false end).

Definition exec (e : event) (s : system) : option system :=
  match e with
  | EvInit p f ctx =>
      if bool_decide (p ∈ known) && negb (bool_decide (state (mem s) p = CL_INITIALIZED))
      then Some (set_queue s ((cl_timer_init true (mem s) p f ctx).2, queue s)) else None
  | EvStart i p time_ms => if may_call s i p && bool_decide (0 <= time_ms < 2 ^ 32) then cl_timer_start s p time_ms else None
  | EvStop i p => if may_call s i p then Some (cl_timer_stop s i p false) else None
  | EvTrim i p time_ms => if may_call s i p && bool_decide (0 <= time_ms < 2 ^ 32) then Some (cl_timer_trim s i p time_ms) else None
  | EvDestroy i p =>
      if may_call s i p && negb (existsb (calls_on p) (clients s)) then Some (cl_timer_destroy s i p) else None
  | EvResume i =>
      match clients s !! i with
      | Some (InStop p true destroy) => Some (stop_resume s i p destroy)
      | Some (InTrim p time_ms) => cl_timer_start (set_client s i Ready) p time_ms
      | Some (InDestroy p) => Some (destroy_finish s i p)
      | _ => None
      end
  | EvProvDestroy => Some (__cl_timer_prov_destroy s)
  | EvTick us =>
      if decide (0 <= us)
      then Some (System (mem s) (queue s) (exit s) (prov s) (clients s) (of_usec (usec (clock s) + us)) (fired s)) else None
  | EvTimeout =>
      match prov s with ProvTimed p d => if decide (due d (clock s)) then Some (set_prov s (ProvTimedOut p)) else None | _ => None end
  | EvRun =>
      match prov s with ProvWoken => Some (prov_loop s) | ProvTimedOut p => Some (prov_expired s p) | _ => None end
  | EvReturn w =>
      match prov s with
      | ProvCallback p =>
          if bool_decide (clients s !! 0%nat = Some Ready) &&
            match w with
            | Some i => match clients s !! i with Some pc => waits_for p pc | None => false end
            | None => negb (existsb (waits_for p) (clients s))
            end
          then Some (prov_return s p w) else None
      | _ => None
      end
  | EvSpurious None => match prov s with ProvWait | ProvTimed _ _ => Some (set_prov s ProvWoken) | _ => None end
  | EvSpurious (Some i) =>
      match clients s !! i with Some (InStop p _ d) => Some (set_client s i (InStop p true d)) | _ => None end
  end.

Fixpoint run (es : list event) (s : system) : option system :=
  match es with [] => Some s | e :: es => s ← exec e s; run es s end.

Inductive reachable (s0 : system) : system -> Prop :=
| reach_start : reachable s0 s0
| reach_step e s s' : reachable s0 s -> exec e s = Some s' -> reachable s0 s'.
End Steps.
