(* ===== verification/TimerSpec.v ===== *)
(** * Timers: the invariant

    The queue holds the timers that are queued, ordered by the time they are due;
    what the provider and the calls under way do fits it.  Every step keeps this. *)

From stdpp Require Import sorting.
From S2P Require Import Prelude Qlist Timer.

Local Open Scope Z_scope.
Local Open Scope list_scope.

(** ** Time *)

Lemma is_earlier_spec t1 t2 :
  valid_time t1 -> valid_time t2 -> __cl_timer_is_earlier t1 t2 = bool_decide (nsec t1 < nsec t2).
Proof. unfold valid_time, nsec, __cl_timer_is_earlier. intros H1 H2. apply bool_decide_ext. lia. Qed.

Definition valid_clock (tv : timeval) : Prop := 0 <= tv_usec tv < 1000000.

Lemma calculate_spec ms now :
  valid_clock now -> 0 <= ms ->
  valid_time (__cl_timer_calculate ms now) /\ nsec (__cl_timer_calculate ms now) = usec now * 1000 + ms * 1000000.
Proof.
  intros Hn Hms. unfold __cl_timer_calculate, timeradd, valid_clock, valid_time, nsec, usec in *. cbn.
  pose proof (Z.div_mod ms 1000 ltac:(lia)). pose proof (Z.mod_pos_bound ms 1000 ltac:(lia)).
  case_decide; cbn; lia.
Qed.

Lemma of_usec_spec us : valid_clock (of_usec us) /\ usec (of_usec us) = us.
Proof.
  unfold valid_clock, usec, of_usec. cbn. pose proof (Z.div_mod us 1000000 ltac:(lia)).
  pose proof (Z.mod_pos_bound us 1000000 ltac:(lia)). lia.
Qed.

(** ** The queue *)

Lemma filterb_all {A} (f : A -> bool) l : (forall x, x ∈ l -> f x = true) -> filterb f l = l.
Proof.
  induction l as [|a l IH]; intros H; [done|]. rewrite filterb_cons, H by (by left). f_equal. apply IH. intros x Hx. apply H. by right.
Qed.

Section Queue.
Context (known : list ptr) (Hfew : Z.of_nat (length known) < 2 ^ 32).
Implicit Types (m : timers) (q : cl_qlist_t) (l : list ptr) (s : system).

Definition not_later m (a b : ptr) : Prop := nsec (timeout m a) <= nsec (timeout m b).

(** The queue holds the timers [l]: those that are queued, in order. *)
Record queue_at m q l : Prop := QueueAt {
  qa_ring : qlist_at (t_links m) q l;
  qa_end : ql_end q ∉ known;
  qa_queued : forall p, p ∈ l <-> p ∈ known /\ timer_state m p = CL_TIMER_QUEUED;
  qa_ready : forall p, p ∈ l -> state m p = CL_INITIALIZED /\ valid_time (timeout m p);
  qa_order : StronglySorted (not_later m) l }.

Lemma queue_nodup m q l : queue_at m q l -> NoDup l.
Proof. intros [[[_ Hnd] _] _ _ _ _]. by apply NoDup_cons in Hnd as [_ ?]. Qed.

Lemma queue_few m q l : queue_at m q l -> Z.of_nat (length l) < 2 ^ 32.
Proof.
  intros Hq. assert (length l <= length known)%nat; [|lia]. apply submseteq_length, NoDup_submseteq; [by eapply queue_nodup|].
  intros p Hp. by apply (qa_queued _ _ _ Hq).
Qed.

Lemma queue_empty m q l : queue_at m q l -> cl_is_qlist_empty q = bool_decide (l = []).
Proof.
  intros Hq. pose proof (queue_few _ _ _ Hq) as Hl. destruct Hq as [[_ Hc] _ _ _ _]. unfold cl_is_qlist_empty, cl_qlist_count.
  rewrite Hc, (wrap_small 64), (wrap_small 32) by lia. apply bool_decide_ext. destruct l; [done|]. cbn. split; [lia|done].
Qed.

Lemma sorted_remove (R : ptr -> ptr -> Prop) l1 p l2 : StronglySorted R (l1 ++ p :: l2) -> StronglySorted R (l1 ++ l2).
Proof.
  rewrite !StronglySorted_app, StronglySorted_cons. intros (H1 & H2 & _ & H3). split_and!; try done.
  intros x y Hx Hy. apply H1; [done|by right].
Qed.

(** A timer leaves the queue and gets a state other than queued. *)
Lemma queue_remove m q l1 p l2 v :
  queue_at m q (l1 ++ p :: l2) -> v <> CL_TIMER_QUEUED ->
  let '(lk, q') := cl_qlist_remove_item (t_links m) q p in
  queue_at (set_timer_links (set_timer_state m p v) lk) q' (l1 ++ l2).
Proof.
  intros Hq Hv. pose proof (queue_nodup _ _ _ Hq) as Hnd. destruct Hq as [Hr He Hs Hi Ho].
  pose proof (qlist_remove_item_spec _ _ _ _ _ Hr) as H. assert (Hee : ql_end (cl_qlist_remove_item (t_links m) q p).2 = ql_end q).
  { unfold cl_qlist_remove_item. by case_decide. }
  destruct (cl_qlist_remove_item (t_links m) q p) as [lk q']. destruct H as [Hr' _]. cbn in Hee.
  apply NoDup_app in Hnd as (Hnd1 & Hdis & Hnd2). apply NoDup_cons in Hnd2 as [Hp Hnd2].
  constructor; cbn; try done; [by rewrite Hee| | |by eapply sorted_remove].
  - intros x. destruct (decide (x = p)) as [->|Hx].
    + rewrite upd_eq. split; [|by intros [_ ?]]. intros [Hin|Hin]%elem_of_app; [|done]. exfalso. apply (Hdis p Hin). by left.
    + rewrite upd_ne by done. rewrite <- Hs, !elem_of_app, elem_of_cons. tauto.
  - intros x Hx. apply Hi. rewrite elem_of_app, elem_of_cons in *. tauto.
Qed.

(** A change of what is no queued timer's. *)
Lemma queue_other m m' q l :
  queue_at m q l ->
  (forall x, x ∈ ql_end q :: l -> p_next (t_links m') x = p_next (t_links m) x /\ p_prev (t_links m') x = p_prev (t_links m) x) ->
  (forall x, x ∈ known -> timer_state m' x = CL_TIMER_QUEUED <-> timer_state m x = CL_TIMER_QUEUED) ->
  (forall x, x ∈ l -> state m' x = state m x /\ timeout m' x = timeout m x) -> queue_at m' q l.
Proof.
  intros [Hr He Hs Hi Ho] Hl Ht Hst. constructor; try done.
  - by eapply qlist_same.
  - intros p. rewrite Hs. split; intros [H1 H2]; (split; [done|]); by apply (Ht p).
  - intros p Hp. destruct (Hst p Hp) as [-> ->]. by apply Hi.
  - clear -Ho Hst. induction Ho as [|a l Ho IH HF]; constructor.
    + apply IH. intros x Hx. apply Hst. by right.
    + rewrite Forall_forall in *. intros x Hx. unfold not_later.
      destruct (Hst x) as [_ ->]; [by right|]. destruct (Hst a) as [_ ->]; [by left|]. by apply HF.
Qed.

(** *** Insertion by time *)

(** The timers due before [t] are the first ones. *)
Lemma sorted_split m l (t : Z) :
  StronglySorted (not_later m) l ->
  exists l1 l2, l = l1 ++ l2 /\ filterb (fun x => bool_decide (nsec (timeout m x) < t)) l = l1 /\
    (forall x, x ∈ l1 -> nsec (timeout m x) < t) /\ (forall x, x ∈ l2 -> t <= nsec (timeout m x)).
Proof.
  induction 1 as [|a l Ho (l1 & l2 & -> & Hf & H1 & H2) HF].
  { exists [], []. split_and!; try done; by intros x ?%elem_of_nil. }
  rewrite filterb_cons, Hf. destruct (decide (nsec (timeout m a) < t)) as [Ha|Ha].
  - rewrite bool_decide_true by done. exists (a :: l1), l2. split_and!; try done.
    intros x [->|Hx]%elem_of_cons; [done|by apply H1].
  - rewrite bool_decide_false by done. assert (l1 = []) as ->.
    { destruct l1 as [|b l1]; [done|]. exfalso. apply Ha. apply Forall_forall with (x := b) in HF; [|by left].
      eapply Z.le_lt_trans; [exact HF|]. apply H1. by left. }
    exists [], (a :: l2). split_and!; try done.
    intros x [->|Hx]%elem_of_cons; [lia|by apply H2].
Qed.

Lemma last_filter (f : ptr -> bool) l : head (filterb f (reverse l)) = last (filterb f l).
Proof.
  induction l as [|a l IH]; [done|]. rewrite reverse_cons, filterb_app, !filterb_cons. cbn.
  destruct (f a).
  - rewrite last_cons, <- IH. by destruct (filterb f (reverse l)).
  - by rewrite app_nil_r.
Qed.

(** The search from the tail for the place of a timer, and the insertion there. *)
Lemma insert_place lk q l1 l2 p (f : ptr -> bool) pfn :
  qlist_at lk q (l1 ++ l2) -> p ∉ ql_end q :: l1 ++ l2 -> Z.of_nat (length (l1 ++ l2)) < 2 ^ 32 ->
  filterb f (l1 ++ l2) = l1 -> (forall x, x ∈ l1 ++ l2 -> bool_decide (pfn x = CL_SUCCESS) = f x) ->
  exists x, cl_qlist_find_from_tail lk q pfn = Some x /\
    qlist_at (cl_qlist_insert_next lk q x p).1 (cl_qlist_insert_next lk q x p).2 (l1 ++ p :: l2).
Proof.
  intros Hq Hp Hshort Hf Hpfn. exists (default (ql_end q) (last l1)).
  pose proof (qlist_end_notin _ _ _ Hq) as Hend. pose proof Hq as [Hr _]. split.
  - assert (Hfl : filterb (fun x => bool_decide (pfn x = CL_SUCCESS)) (l1 ++ l2) = l1) by (rewrite <- Hf at 2; by apply filterb_ext).
    unfold cl_qlist_find_from_tail, cl_qlist_find_prev.
    rewrite <- Hfl at 1. rewrite <- last_filter. apply (find_loop_spec lk).
    + rewrite length_reverse. eapply ring_fuel_enough; [exact Hq|]. unfold short. lia.
    + by rewrite elem_of_reverse.
    + rewrite <- last_reverse, reverse_involutive. by eapply ring_tail.
    + intros k1 a k2 Hk. apply (f_equal reverse) in Hk.
      rewrite reverse_involutive, reverse_app, reverse_cons, <- (assoc_L (++)) in Hk. rewrite Hk in Hr.
      rewrite <- last_reverse. by apply (ring_prev lk (ql_end q) (reverse k2) a (reverse k1)).
  - destruct (list_snoc_case l1) as [->|(l1' & a & ->)].
    + unfold cl_qlist_insert_next, cl_qlist_next. cbn. rewrite (ring_head _ _ _ Hr). by apply (qlist_insert_at lk q [] l2).
    + rewrite last_snoc. cbn [default from_option id]. rewrite <- !(assoc_L (++)) in *. cbn [app] in *.
      pose proof (qlist_insert_next_spec lk q l1' a l2 p Hq Hp) as H. by destruct (cl_qlist_insert_next lk q a p) as [lk' q'], H.
Qed.

(** The queue without one timer, whatever its state is. *)
Lemma queue_without m q l p :
  queue_at m q l -> p ∈ known ->
  let '(lk, q') := if decide (timer_state m p = CL_TIMER_QUEUED) then cl_qlist_remove_item (t_links m) q p else (t_links m, q) in
  queue_at (set_timer_links (set_timer_state m p CL_TIMER_IDLE) lk) q' (filterb (fun x => bool_decide (x <> p)) l) /\
  ql_end q' = ql_end q.
Proof.
  intros Hq Hp. pose proof (queue_nodup _ _ _ Hq) as Hnd. destruct (decide _) as [Hs|Hs].
  - assert (Hin : p ∈ l) by (by apply (qa_queued _ _ _ Hq)). apply list_elem_of_split in Hin as (l1 & l2 & ->).
    pose proof (queue_remove m q l1 p l2 CL_TIMER_IDLE Hq) as H.
    assert (Hee : ql_end (cl_qlist_remove_item (t_links m) q p).2 = ql_end q) by (unfold cl_qlist_remove_item; by case_decide).
    destruct (cl_qlist_remove_item (t_links m) q p) as [lk q']. split; [|done].
    rewrite filterb_app, filterb_cons, bool_decide_false by (intros Hx; by apply Hx).
    apply NoDup_app in Hnd as (_ & Hd & Hnd2). apply NoDup_cons in Hnd2 as [Hn2 _].
    rewrite !filterb_all; [by apply H|..]; intros x Hx; apply bool_decide_true; intros ->; [done|]. apply (Hd p Hx). by left.
  - split; [|done]. assert (Hn : p ∉ l) by (intros Hin; by apply (qa_queued _ _ _ Hq) in Hin as [_ ?]).
    rewrite filterb_all by (intros x Hx; apply bool_decide_true; by intros ->).
    eapply queue_other; [exact Hq|done| |done]. intros x Hx. cbn. destruct (decide (x = p)) as [->|Hne]; [by rewrite upd_eq|by rewrite upd_ne].
Qed.

(** A timer that is not in the queue enters it before [l2] and behind [l1]. *)
Lemma queue_enter m m' q q' l1 p l2 :
  queue_at m q (l1 ++ l2) -> p ∈ known -> p ∉ l1 ++ l2 -> qlist_at (t_links m') q' (l1 ++ p :: l2) -> ql_end q' = ql_end q ->
  (forall x, timer_state m' x = (timer_state m)⟦p <~ CL_TIMER_QUEUED⟧ x) -> state m' = state m -> state m p = CL_INITIALIZED ->
  (forall x, x <> p -> timeout m' x = timeout m x) -> valid_time (timeout m' p) ->
  (forall x, x ∈ l1 -> nsec (timeout m x) < nsec (timeout m' p)) -> (forall x, x ∈ l2 -> nsec (timeout m' p) <= nsec (timeout m x)) ->
  queue_at m' q' (l1 ++ p :: l2).
Proof.
  intros [Hr He Hs Hi Ho] Hp Hn Hr' Ee Et Es Hsp Hto Hv H1 H2. constructor; [done|by rewrite Ee| | |].
  - intros x. rewrite Et. destruct (decide (x = p)) as [->|Hx].
    + rewrite upd_eq. split; [done|]. intros _. set_solver.
    + rewrite upd_ne by done. rewrite <- Hs. set_solver.
  - intros x Hx. rewrite Es. destruct (decide (x = p)) as [->|Hne]; [done|]. rewrite Hto by done. apply Hi. set_solver.
  - assert (Hn' : forall x, x ∈ l1 ++ l2 -> x <> p) by (intros x Hx ->; done).
    apply StronglySorted_app in Ho as (H3 & H4 & H5). unfold not_later in *.
    assert (Hss : forall l, StronglySorted (not_later m) l -> l ⊆ l1 ++ l2 -> StronglySorted (not_later m') l).
    { intros l Hl. induction Hl as [|a l Hl IH HF]; intros Hsub; constructor; [apply IH; set_solver|].
      rewrite Forall_forall in *. intros x Hx. unfold not_later. rewrite !Hto by (apply Hn'; set_solver). by apply HF. }
    apply StronglySorted_app. split_and!; [|by apply Hss; [|set_solver]|].
    + intros x y Hx [->|Hy]%elem_of_cons; rewrite ?(Hto x) by (apply Hn'; set_solver); [by apply Z.lt_le_incl, H1|].
      rewrite (Hto y) by (apply Hn'; set_solver). by apply H3.
    + constructor; [by apply Hss; [|set_solver]|]. apply Forall_forall. intros x Hx. unfold not_later.
      rewrite (Hto x) by (apply Hn'; set_solver). by apply H2.
Qed.

(** *** What the calls do to the queue *)

Lemma start_locked_spec m q l p ms now :
  queue_at m q l -> p ∈ known -> state m p = CL_INITIALIZED -> valid_clock now -> 0 <= ms ->
  exists m' q' l1 l2, start_locked m q p ms now = Some (m', q') /\ queue_at m' q' (l1 ++ p :: l2) /\
    filterb (fun x => bool_decide (x <> p)) l = l1 ++ l2 /\
    state m' = state m /\ timer_state m' = (timer_state m)⟦p <~ CL_TIMER_QUEUED⟧ /\
    timeout m' = (timeout m)⟦p <~ __cl_timer_calculate ms now⟧ /\
    (forall x, x ∈ l1 -> nsec (timeout m' x) < nsec (timeout m' p)) /\
    (forall x, x ∈ l2 -> nsec (timeout m' p) <= nsec (timeout m' x)).
Proof.
  intros Hq Hp Hsp Hnow Hms. pose proof (queue_without m q l p Hq Hp) as H. unfold start_locked.
  destruct (calculate_spec ms now Hnow Hms) as [Hv _]. set (d := __cl_timer_calculate ms now) in *.
  destruct (if decide (timer_state m p = CL_TIMER_QUEUED) then cl_qlist_remove_item (t_links m) q p else (t_links m, q)) as [lk q0].
  destruct H as [H Hend]. set (l0 := filterb (fun x => bool_decide (x <> p)) l) in *.
  set (m0 := set_timer_links (set_timer_state m p CL_TIMER_IDLE) lk) in *.
  assert (Hpl0 : p ∉ l0) by (unfold l0; rewrite elem_of_filterb; intros [Hx%bool_decide_eq_true _]; done).
  destruct (sorted_split m0 l0 (nsec d) (qa_order _ _ _ H)) as (l1 & l2 & E0 & Hf & H1 & H2). rewrite E0 in *.
  assert (Hplace : exists lk2 q2, (if cl_is_qlist_empty q0 then Some (cl_qlist_insert_head lk q0 p)
      else p_list_item ← cl_qlist_find_from_tail lk q0 (__cl_timer_find (set_timeout (set_timer_links m lk) p d) p);
           Some (cl_qlist_insert_next lk q0 p_list_item p)) = Some (lk2, q2) /\
    qlist_at lk2 q2 (l1 ++ p :: l2) /\ ql_end q2 = ql_end q0).
  { assert (Hpe : p ∉ ql_end q0 :: l1 ++ l2).
    { rewrite not_elem_of_cons. split; [|done]. intros ->. by apply (qa_end _ _ _ H). }
    rewrite (queue_empty _ _ _ H). destruct (bool_decide (l1 ++ l2 = [])) eqn:Hemp.
    - apply bool_decide_eq_true, app_eq_nil in Hemp as [-> ->].
      pose proof (qlist_insert_head_spec lk q0 [] p (qa_ring _ _ _ H) Hpe) as Hi. destruct (cl_qlist_insert_head lk q0 p) as [lk2 q2] eqn:Ei.
      exists lk2, q2. split; [done|]. split; [apply Hi|]. unfold cl_qlist_insert_head in Ei. by injection Ei as <- <-.
    - destruct (insert_place lk q0 l1 l2 p (fun x => bool_decide (nsec (timeout m0 x) < nsec d))
        (__cl_timer_find (set_timeout (set_timer_links m lk) p d) p)) as (x & -> & Hx); [apply H|done|by eapply queue_few|done| |].
      + intros x Hx. unfold __cl_timer_find. cbn. rewrite upd_eq, upd_ne by (intros ->; done).
        rewrite is_earlier_spec; [|by apply (qa_ready _ _ _ H)|done]. by destruct (bool_decide (nsec _ < nsec _)).
      + cbn [mbind option_bind]. by eexists _, _. }
  destruct Hplace as (lk2 & q2 & -> & Hr2 & Ee). cbn [mbind option_bind].
  eexists _, q2, l1, l2. split; [done|]. cbn -[filterb].
  assert (Hto : forall x, x ∈ l1 ++ l2 -> (timeout m)⟦p <~ d⟧ x = timeout m x) by (intros x Hx; rewrite upd_ne; [done|by intros ->]).
  split.
  - eapply (queue_enter m0); try done; cbn.
    + intros x. destruct (decide (x = p)) as [->|]; [by rewrite !upd_eq|by rewrite !upd_ne].
    + intros x Hx. by rewrite upd_ne.
    + by rewrite upd_eq.
    + intros x Hx. rewrite upd_eq. by apply H1.
    + intros x Hx. rewrite upd_eq. by apply H2.
  - split_and!; try done; intros x Hx; rewrite upd_eq, Hto by set_solver; first [by apply H1|by apply H2].
Qed.

(** ** The system *)

(** What the provider does fits the queue: it waits for nothing only if nothing is
    queued, and otherwise for the time of the first timer. *)
Definition prov_ok (pc : prov_pc) (ended : bool) m l : Prop :=
  match pc with
  | ProvWoken => True
  | ProvWait => l = [] /\ ended = false
  | ProvTimed p d => head l = Some p /\ d = timeout m p /\ ended = false
  | ProvTimedOut p | ProvCallback p => p ∈ known
  | ProvExited => ended = true
  end.

(** The calls that are under way. *)
Record clients_ok (cs : list client_pc) m : Prop := ClientsOk {
  co_call : forall i pc p, cs !! i = Some pc -> calls_on p pc = true -> p ∈ known /\ state m p = CL_INITIALIZED;
  co_destroy : forall i j pc pc' p, i <> j -> cs !! i = Some pc -> destroys p pc = true -> cs !! j = Some pc' -> calls_on p pc' = false;
  co_stopped : forall i p, cs !! i = Some (InDestroy p) -> timer_state m p <> CL_TIMER_QUEUED;
  co_trim : forall i p ms, cs !! i = Some (InTrim p ms) -> 0 <= ms < 2 ^ 32 }.

Record system_at s l : Prop := SystemAt {
  sy_queue : queue_at (mem s) (Timer.queue s) l;
  sy_prov : prov_ok (prov s) (exit s) (mem s) l;
  sy_running : forall p, p ∈ known -> timer_state (mem s) p = CL_TIMER_RUNNING -> prov s = ProvCallback p;
  sy_clients : clients_ok (clients s) (mem s);
  sy_clock : valid_clock (clock s) }.

Lemma clients_mem cs m m' :
  clients_ok cs m -> (forall p, state m p = CL_INITIALIZED -> state m' p = CL_INITIALIZED) ->
  (forall i p, cs !! i = Some (InDestroy p) -> timer_state m' p <> CL_TIMER_QUEUED) -> clients_ok cs m'.
Proof.
  intros [H1 H2 H3 H4] Hs Ht. constructor; [|done|done|done]. intros i pc p Hi Hc. destruct (H1 i pc p Hi Hc). eauto.
Qed.

Lemma destroys_calls p pc : destroys p pc = true -> calls_on p pc = true.
Proof. by destruct pc as [|? ? []| |]. Qed.

(** A thread goes on. *)
Lemma clients_set cs m i old new :
  clients_ok cs m -> cs !! i = Some old ->
  (forall p, calls_on p new = true -> calls_on p old = true \/
     p ∈ known /\ state m p = CL_INITIALIZED /\ (forall j pc, cs !! j = Some pc -> destroys p pc = false)) ->
  (forall p, destroys p new = true -> destroys p old = true \/ (forall j pc, cs !! j = Some pc -> calls_on p pc = false)) ->
  (forall p, new = InDestroy p -> timer_state m p <> CL_TIMER_QUEUED) ->
  (forall p ms, new = InTrim p ms -> 0 <= ms < 2 ^ 32) -> clients_ok (<[i := new]> cs) m.
Proof.
  intros [H1 H2 H3 H4] Hi Hc Hd Hs Ht.
  assert (Hlook : forall j pc, <[i := new]> cs !! j = Some pc -> j = i /\ pc = new \/ j <> i /\ cs !! j = Some pc).
  { intros j pc Hj. destruct (decide (j = i)) as [->|Hne].
    - rewrite list_lookup_insert_eq in Hj by (by eapply lookup_lt_Some). injection Hj as <-. by left.
    - rewrite list_lookup_insert_ne in Hj by done. by right. }
  constructor.
  - intros j pc p [[-> ->]|[_ Hj]]%Hlook Hp; [|by eapply H1]. destruct (Hc p Hp) as [Ho|(? & ? & _)]; [by eapply H1|done].
  - intros j k pc pc' p Hjk [[-> ->]|[_ Hj]]%Hlook Hp [[-> ->]|[_ Hk]]%Hlook; [done|..].
    + destruct (Hd p Hp) as [Ho|Ho]; [|by eapply Ho]. by eapply (H2 i k old).
    + apply not_true_iff_false. intros Hn. destruct (Hc p Hn) as [Ho|(_ & _ & Ho)].
      * by rewrite (H2 j i pc old p) in Ho.
      * by rewrite (Ho j pc Hj) in Hp.
    + by eapply (H2 j k).
  - intros j p [[-> E]|[_ Hj]]%Hlook; [by apply Hs|by eapply H3].
  - intros j p ms [[-> E]|[_ Hj]]%Hlook; [by eapply Ht|by eapply H4].
Qed.

Lemma clients_ready cs m i old : clients_ok cs m -> cs !! i = Some old -> clients_ok (<[i := Ready]> cs) m.
Proof. intros H Hi. by eapply clients_set. Qed.

(** *** The provider *)

Lemma prov_loop_ok s l :
  queue_at (mem s) (Timer.queue s) l -> (forall p, p ∈ known -> timer_state (mem s) p <> CL_TIMER_RUNNING) ->
  clients_ok (clients s) (mem s) -> valid_clock (clock s) -> system_at (prov_loop s) l.
Proof.
  intros Hq Hr Hc Hk. unfold prov_loop. destruct (exit s) eqn:Hx.
  - constructor; cbn; try done. intros p Hp HR. by destruct (Hr p Hp).
  - rewrite (queue_empty _ _ _ Hq). destruct (bool_decide (l = [])) eqn:Hl.
    + apply bool_decide_eq_true in Hl. constructor; cbn; try done. intros p Hp HR. by destruct (Hr p Hp).
    + apply bool_decide_eq_false in Hl. destruct l as [|p l]; [done|].
      assert (Hh : cl_qlist_head (t_links (mem s)) (Timer.queue s) = p) by (apply (ring_head _ _ _ (proj1 (qa_ring _ _ _ Hq)))).
      rewrite Hh. constructor; cbn; try done. intros p' Hp HR. by destruct (Hr p' Hp).
Qed.

Lemma no_running s l :
  system_at s l -> (forall p, prov s <> ProvCallback p) -> forall p, p ∈ known -> timer_state (mem s) p <> CL_TIMER_RUNNING.
Proof. intros Hs Hn p Hp HR. by apply (Hn p), (sy_running _ _ Hs). Qed.

Lemma prov_expired_ok s l p :
  system_at s l -> prov s = ProvTimedOut p -> exists l', system_at (prov_expired s p) l' /\
    (p ∈ l -> exists l1 l2, l = l1 ++ p :: l2 /\ l' = l1 ++ l2 /\ prov (prov_expired s p) = ProvCallback p).
Proof.
  intros Hs Hp. pose proof (no_running s l Hs ltac:(intros q; by rewrite Hp)) as Hno. pose proof (sy_prov _ _ Hs) as Hk. rewrite Hp in Hk.
  cbn in Hk. unfold prov_expired. destruct (decide _) as [Hd|Hd].
  - exists l. split; [by apply prov_loop_ok; [apply Hs|..|apply Hs|apply Hs]|]. intros Hin. by apply (qa_queued _ _ _ (sy_queue _ _ Hs)) in Hin as [_ ?].
  - apply dec_stable in Hd. assert (Hin : p ∈ l) by (by apply (qa_queued _ _ _ (sy_queue _ _ Hs))).
    apply list_elem_of_split in Hin as (l1 & l2 & ->).
    pose proof (queue_remove _ _ _ _ _ CL_TIMER_RUNNING (sy_queue _ _ Hs) ltac:(done)) as Hq. cbn [t_links set_timer_state].
    destruct (cl_qlist_remove_item (t_links (mem s)) (Timer.queue s) p) as [lk q']. exists (l1 ++ l2).
    split; [|intros _; by exists l1, l2]. constructor; cbn; try done; [| |by apply Hs].
    + intros x Hx. destruct (decide (x = p)) as [->|Hne]; [done|]. rewrite upd_ne by done. intros HR. by destruct (Hno x Hx).
    + eapply clients_mem; [by apply Hs|done|]. intros i x Hi. cbn. destruct (decide (x = p)) as [->|Hne]; [by rewrite upd_eq|].
      rewrite upd_ne by done. by eapply (co_stopped _ _ (sy_clients _ _ Hs)).
Qed.

(** A waiting thread is woken. *)
Lemma clients_woken cs m i p w d :
  clients_ok cs m -> cs !! i = Some (InStop p w d) -> clients_ok (<[i := InStop p true d]> cs) m.
Proof.
  intros H Hi. eapply clients_set; try done; [by intros q Hq; left|]. intros q Hq. left. by destruct d.
Qed.

Lemma prov_return_ok s l p w :
  system_at s l -> prov s = ProvCallback p -> system_at (prov_return s p w) l.
Proof.
  intros Hs Hp. unfold prov_return. set (m := if decide _ then _ else _).
  assert (Hm : queue_at m (Timer.queue s) l /\ clients_ok (clients s) m /\
    (forall x, x ∈ known -> timer_state m x <> CL_TIMER_RUNNING)).
  { unfold m. case_decide as Hd.
    - split; [|split].
      + eapply queue_other; [by apply Hs|done| |done]. intros x Hx. cbn. destruct (decide (x = p)) as [->|Hne]; [by rewrite upd_eq, Hd|by rewrite upd_ne].
      + eapply clients_mem; [by apply Hs|done|]. intros i x Hi. cbn. destruct (decide (x = p)) as [->|Hne]; [by rewrite upd_eq|].
        rewrite upd_ne by done. by eapply (co_stopped _ _ (sy_clients _ _ Hs)).
      + intros q Hq. cbn. destruct (decide (q = p)) as [->|Hne]; [by rewrite upd_eq|]. rewrite upd_ne by done. intros HR.
        apply (sy_running _ _ Hs) in HR; [|done]. rewrite Hp in HR. by injection HR as <-.
    - split; [by apply Hs|]. split; [by apply Hs|]. intros q Hq HR. pose proof (sy_running _ _ Hs q Hq HR) as E.
      rewrite Hp in E. by injection E as <-. }
  destruct Hm as (Hq & Hc & Hn). pose proof (sy_clock _ _ Hs) as Hk.
  apply prov_loop_ok.
  all: destruct w as [i|]; [destruct (clients s !! i) as [[|q w d| |]|] eqn:Hi|]; cbn; rewrite ?Hi; cbn; try done.
  by eapply clients_woken.
Qed.

(** *** Signals *)

Lemma prov_ok_signal s x m l m' l' :
  prov_ok (prov s) x m l -> prov_ok (prov (signal_prov s)) x m' l'.
Proof. unfold signal_prov. destruct (prov s) eqn:E; cbn; rewrite ?E; cbn; done. Qed.

Lemma signal_fields s :
  mem (signal_prov s) = mem s /\ Timer.queue (signal_prov s) = Timer.queue s /\ exit (signal_prov s) = exit s /\
  clients (signal_prov s) = clients s /\ clock (signal_prov s) = clock s /\ fired (signal_prov s) = fired s /\
  (forall p, prov s = ProvCallback p -> prov (signal_prov s) = ProvCallback p).
Proof. unfold signal_prov. destruct (prov s) eqn:E; cbn; rewrite ?E; split_and!; try done. Qed.

(** *** The calls *)

(** A started timer: queued behind those that are due before it, due as asked. *)
Definition started s l p ms s' l' : Prop :=
  exists l1 l2, l' = l1 ++ p :: l2 /\ filterb (fun x => bool_decide (x <> p)) l = l1 ++ l2 /\
    timer_state (mem s') p = CL_TIMER_QUEUED /\ nsec (timeout (mem s') p) = usec (clock s) * 1000 + ms * 1000000 /\
    (forall x, x <> p -> timer_state (mem s') x = timer_state (mem s) x /\ timeout (mem s') x = timeout (mem s) x) /\
    (forall x, x ∈ l1 -> nsec (timeout (mem s') x) < nsec (timeout (mem s') p)) /\
    (forall x, x ∈ l2 -> nsec (timeout (mem s') p) <= nsec (timeout (mem s') x)).

Lemma timer_start_ok s l p ms :
  system_at s l -> p ∈ known -> state (mem s) p = CL_INITIALIZED -> 0 <= ms ->
  (forall i, clients s !! i <> Some (InDestroy p)) ->
  exists s' l', cl_timer_start s p ms = Some s' /\ system_at s' l' /\ started s l p ms s' l' /\ clients s' = clients s /\
    prov s' = prov (signal_prov s).
Proof.
  intros Hs Hp Hsp Hms Hnd. unfold cl_timer_start.
  destruct (start_locked_spec (mem s) (Timer.queue s) l p ms (clock s)) as
    (m' & q' & l1 & l2 & Hrun & Hq & Hl & Es & Et & Eto & H1 & H2); [by apply Hs|done|done|by apply Hs|done|].
  rewrite Hrun. cbn [mbind option_bind]. destruct (signal_fields s) as (_ & _ & Ex & Ec & Ek & _ & Ecb).
  destruct (calculate_spec ms (clock s) (sy_clock _ _ Hs) Hms) as [_ Hns].
  eexists _, (l1 ++ p :: l2). split; [done|]. split; [|split; [|done]].
  - constructor; cbn; rewrite ?Ex, ?Ec, ?Ek; [done|eapply prov_ok_signal, Hs| | |by apply Hs].
    + intros x Hx. rewrite Et. destruct (decide (x = p)) as [->|Hne]; [by rewrite upd_eq|]. rewrite upd_ne by done.
      intros HR. by apply Ecb, (sy_running _ _ Hs).
    + eapply clients_mem; [by apply Hs|intros x; by rewrite Es|]. intros i x Hi. rewrite Et.
      rewrite upd_ne by (intros ->; by apply (Hnd i)). by eapply (co_stopped _ _ (sy_clients _ _ Hs)).
  - exists l1, l2. cbn. rewrite Et, upd_eq. do 3 (split; [done|]). split; [by rewrite Eto, upd_eq|]. split; [|done].
    intros x Hx. by rewrite Eto, !upd_ne.
Qed.

(** The queued timer is taken out. *)
Lemma stop_finish_ok s l p :
  system_at s l -> p ∈ l -> exists l1 l2, l = l1 ++ p :: l2 /\ system_at (stop_finish s p) (l1 ++ l2) /\
    clients (stop_finish s p) = clients s /\ timer_state (mem (stop_finish s p)) p = CL_TIMER_IDLE /\
    state (mem (stop_finish s p)) = state (mem s).
Proof.
  intros Hs Hin. apply list_elem_of_split in Hin as (l1 & l2 & ->). exists l1, l2. split; [done|].
  pose proof (queue_remove _ _ _ _ _ CL_TIMER_IDLE (sy_queue _ _ Hs) ltac:(done)) as Hq.
  unfold stop_finish, stop_queued. cbn [t_links set_timer_state].
  destruct (cl_qlist_remove_item (t_links (mem s)) (Timer.queue s) p) as [lk q'].
  destruct (signal_fields (set_queue s (set_timer_links (set_timer_state (mem s) p CL_TIMER_IDLE) lk, q'))) as (E1 & E2 & E3 & E4 & E5 & _ & E6).
  split; [|rewrite E1, E4; cbn; by rewrite upd_eq]. constructor; rewrite ?E1, ?E2, ?E3, ?E4, ?E5; cbn;
    [done|eapply prov_ok_signal; exact (sy_prov _ _ Hs)| | |by apply Hs].
  - intros x Hx. destruct (decide (x = p)) as [->|Hne]; [by rewrite upd_eq|]. rewrite upd_ne by done.
    intros HR. by apply E6, (sy_running _ _ Hs).
  - eapply clients_mem; [by apply Hs|done|]. intros i x Hi. cbn. destruct (decide (x = p)) as [->|Hne]; [by rewrite upd_eq|].
    rewrite upd_ne by done. by eapply (co_stopped _ _ (sy_clients _ _ Hs)).
Qed.

Lemma system_clients s l cs :
  system_at s l -> clients_ok cs (mem s) ->
  system_at (System (mem s) (Timer.queue s) (exit s) (prov s) cs (clock s) (fired s)) l.
Proof. intros [H1 H2 H3 H4 H5] Hc. by constructor. Qed.

(** A thread may begin, or go on with, a call on a timer. *)
Definition free_for (destroy : bool) s i p : Prop :=
  exists old, clients s !! i = Some old /\
    (calls_on p old = true \/ p ∈ known /\ state (mem s) p = CL_INITIALIZED /\ (forall j pc, clients s !! j = Some pc -> destroys p pc = false)) /\
    (destroy = true -> destroys p old = true \/ (forall j pc, clients s !! j = Some pc -> calls_on p pc = false)).

Lemma next_ok s m i p (destroy : bool) new :
  clients_ok (clients s) m -> state m = state (mem s) -> free_for destroy s i p ->
  (forall x, calls_on x new = true -> x = p) -> (forall x, destroys x new = true -> x = p /\ destroy = true) ->
  (forall x, new = InDestroy x -> timer_state m x <> CL_TIMER_QUEUED) -> (forall x ms, new = InTrim x ms -> 0 <= ms < 2 ^ 32) ->
  clients_ok (<[i := new]> (clients s)) m.
Proof.
  intros Hc Es (old & Hi & Hold & Hdes) Hn1 Hn2 Hn3 Hn4. eapply clients_set; try done.
  - intros x Hx. rewrite (Hn1 x Hx), Es. exact Hold.
  - intros x [-> Hd]%Hn2. by apply Hdes.
Qed.

Lemma calls_on_eq x p pc : calls_on x pc = true -> calls_on p pc = true -> x = p.
Proof. destruct pc; cbn; [done|..]; intros ->%bool_decide_eq_true ->%bool_decide_eq_true; done. Qed.

Lemma stopped_ok s l i p (destroy : bool) :
  system_at s l -> free_for destroy s i p -> timer_state (mem s) p <> CL_TIMER_QUEUED ->
  system_at (set_client s i (if destroy then InDestroy p else Ready)) l.
Proof.
  intros Hs Hf Ht. apply system_clients; [done|]. eapply next_ok; [by apply Hs|done|exact Hf|..]; destruct destroy; cbn; try done.
  - by intros x ->%bool_decide_eq_true.
  - by intros x ->%bool_decide_eq_true.
  - by intros x [= <-].
Qed.

Lemma stop_queued_ok s l i p (destroy : bool) :
  system_at s l -> free_for destroy s i p -> p ∈ l ->
  exists l', system_at (set_client (stop_finish s p) i (if destroy then InDestroy p else Ready)) l'.
Proof.
  intros Hs (old & Hi & H1 & H2) Hin. destruct (stop_finish_ok s l p Hs Hin) as (l1 & l2 & _ & Hs' & Ec & Et & Es).
  exists (l1 ++ l2). apply stopped_ok; [done| |by rewrite Et]. exists old. by rewrite Ec, Es.
Qed.

Lemma waiting_ok s l i p destroy :
  system_at s l -> free_for destroy s i p -> system_at (set_client s i (InStop p false destroy)) l.
Proof.
  intros Hs Hf. apply system_clients; [done|]. eapply next_ok; [by apply Hs|done|exact Hf|..]; cbn; try done.
  - by intros x ->%bool_decide_eq_true.
  - intros x. by destruct destroy; [intros ->%bool_decide_eq_true|].
Qed.

Lemma stop_ok s l i p destroy :
  system_at s l -> free_for destroy s i p -> p ∈ known -> exists l', system_at (cl_timer_stop s i p destroy) l'.
Proof.
  intros Hs Hf Hp. unfold cl_timer_stop. destruct (timer_state (mem s) p) eqn:Et.
  - exists l. by apply stopped_ok; [..|rewrite Et].
  - apply stop_queued_ok with l; [done|done|]. by apply (qa_queued _ _ _ (sy_queue _ _ Hs)).
  - exists l. by apply waiting_ok.
Qed.

Lemma stop_resume_ok s l i p w destroy :
  system_at s l -> clients s !! i = Some (InStop p w destroy) -> exists l', system_at (stop_resume s i p destroy) l'.
Proof.
  intros Hs Hi. assert (Hf : free_for destroy s i p).
  { eexists. split; [exact Hi|]. split; [left; cbn; by apply bool_decide_true|]. intros ->. left. cbn. by apply bool_decide_true. }
  destruct (co_call _ _ (sy_clients _ _ Hs) i _ p Hi) as [Hp _]; [cbn; by apply bool_decide_true|].
  unfold stop_resume. destruct (decide _) as [Ht|Ht].
  - exists l. by apply stopped_ok.
  - apply stop_queued_ok with l; [done|done|]. apply (qa_queued _ _ _ (sy_queue _ _ Hs)). split; [done|by apply dec_stable].
Qed.

Lemma trim_ok s l i p ms :
  system_at s l -> free_for false s i p -> 0 <= ms < 2 ^ 32 -> system_at (cl_timer_trim s i p ms) l.
Proof.
  intros Hs Hf Hms. assert (H : system_at (set_client s i (InTrim p ms)) l).
  { apply system_clients; [done|]. eapply next_ok; [by apply Hs|done|exact Hf|..]; cbn; try done.
    - by intros x ->%bool_decide_eq_true.
    - by intros x ms' [= <- <-]. }
  unfold cl_timer_trim. cbv zeta. case_decide; [|exact H]. by destruct (__cl_timer_is_earlier (timeout _ _) _).
Qed.

Lemma destroy_finish_ok s l i p :
  system_at s l -> clients s !! i = Some (InDestroy p) -> system_at (destroy_finish s i p) l.
Proof.
  intros Hs Hi. pose proof (sy_clients _ _ Hs) as Hc.
  assert (Hpl : p ∉ l).
  { intros Hin. apply (qa_queued _ _ _ (sy_queue _ _ Hs)) in Hin as [_ Ht]. by apply (co_stopped _ _ Hc i p Hi). }
  assert (Hoth : forall j pc, j <> i -> clients s !! j = Some pc -> calls_on p pc = false).
  { intros j pc Hj Hpc. eapply (co_destroy _ _ Hc i j); [done|exact Hi|cbn; by apply bool_decide_true|done]. }
  unfold destroy_finish. set (wake := fun pc => match pc with InStop _ _ _ => _ | _ => _ end).
  assert (Hwake : forall j pc, j <> i -> clients s !! j = Some pc -> wake pc = pc).
  { intros j pc Hj Hpc. pose proof (Hoth j pc Hj Hpc) as H. destruct pc as [|x w d| |]; cbn in *; try done.
    apply bool_decide_eq_false in H. by rewrite decide_False. }
  assert (Hcs : <[i := Ready]> (wake <$> clients s) = <[i := Ready]> (clients s)).
  { apply list_eq. intros j. destruct (decide (j = i)) as [->|Hj].
    - rewrite !list_lookup_insert_eq; [done|by eapply lookup_lt_Some|rewrite length_fmap; by eapply lookup_lt_Some].
    - rewrite !list_lookup_insert_ne, list_lookup_fmap by done. destruct (clients s !! j) as [pc|] eqn:Hpc; [|done].
      cbn. by rewrite (Hwake j pc). }
  unfold set_client. cbn. rewrite Hcs. constructor; cbn; [| | | |by apply Hs].
  - eapply queue_other; [by apply Hs|done|done|]. intros x Hx. cbn. rewrite upd_ne; [done|by intros ->].
  - pose proof (sy_prov _ _ Hs) as Hp. by destruct (prov s).
  - apply Hs.
  - pose proof (clients_ready _ _ i _ Hc Hi) as [H1 H2 H3 H4]. constructor; try done.
    intros j pc x Hj Hx. destruct (H1 j pc x Hj Hx) as [Hk Hst]. split; [done|]. cbn. rewrite upd_ne; [done|]. intros ->.
    destruct (decide (j = i)) as [->|Hne].
    + rewrite list_lookup_insert_eq in Hj by (by eapply lookup_lt_Some). by injection Hj as <-.
    + rewrite list_lookup_insert_ne in Hj by done. by rewrite (Hoth j pc Hne Hj) in Hx.
Qed.

Lemma init_ok s l p f ctx :
  system_at s l -> p ∈ known -> state (mem s) p <> CL_INITIALIZED ->
  system_at (set_queue s ((cl_timer_init true (mem s) p f ctx).2, Timer.queue s)) l.
Proof.
  intros Hs Hk Hp. assert (Hpl : p ∉ l) by (by intros [? _]%(qa_ready _ _ _ (sy_queue _ _ Hs))).
  assert (Hne : forall x, x ∈ l -> x <> p) by (by intros x Hx ->).
  constructor; cbn; [| | | |by apply Hs].
  - eapply queue_other; [by apply Hs|..]; cbn.
    + intros x Hx. assert (x <> p) by (apply elem_of_cons in Hx as [->|Hx]; [intros E; by apply (qa_end _ _ _ (sy_queue _ _ Hs)); rewrite E|by apply Hne]).
      by rewrite !upd_ne.
    + intros x Hx. destruct (decide (x = p)) as [->|Hx']; [|by rewrite !upd_ne]. rewrite upd_eq. split; [done|].
      intros Ht. destruct Hpl. by apply (qa_queued _ _ _ (sy_queue _ _ Hs)).
    + intros x Hx. by rewrite !upd_ne by (by apply Hne).
  - pose proof (sy_prov _ _ Hs) as Hpv. destruct (prov s); try done. cbn in *. destruct Hpv as (Hh & -> & Hx).
    rewrite upd_ne; [done|]. apply Hne. destruct l; [done|]. injection Hh as ->. by left.
  - intros x Hx. destruct (decide (x = p)) as [->|Hx']; [by rewrite upd_eq|]. rewrite !upd_ne by done. by apply Hs.
  - eapply clients_mem; [by apply Hs|..]; cbn.
    + intros x Hx. destruct (decide (x = p)) as [->|Hx']; [by rewrite upd_eq|]. by rewrite !upd_ne.
    + intros i x Hi. destruct (decide (x = p)) as [->|Hx']; [by rewrite upd_eq|]. rewrite !upd_ne by done.
      by eapply (co_stopped _ _ (sy_clients _ _ Hs)).
Qed.

(** *** Steps *)

Lemma existsb_lookup {A} (f : A -> bool) (L : list A) j x : existsb f L = false -> L !! j = Some x -> f x = false.
Proof.
  intros H Hj. apply not_true_iff_false. intros Hx. apply not_true_iff_false in H. apply H, existsb_exists.
  exists x. split; [|done]. by apply list_elem_of_In, list_elem_of_lookup_2 with j.
Qed.

Lemma may_call_spec s i p :
  may_call known s i p = true -> p ∈ known /\ state (mem s) p = CL_INITIALIZED /\ clients s !! i = Some Ready /\
    (forall j pc, clients s !! j = Some pc -> destroys p pc = false) /\ free_for false s i p.
Proof.
  unfold may_call. intros [[[[Hp%bool_decide_eq_true Hst%bool_decide_eq_true]%andb_true_iff Hi%bool_decide_eq_true]%andb_true_iff
    Hd%negb_true_iff]%andb_true_iff _]%andb_true_iff.
  assert (Hd' : forall j pc, clients s !! j = Some pc -> destroys p pc = false) by (intros j pc; by apply existsb_lookup).
  split_and!; try done. exists Ready. split; [done|]. split; [by right|done].
Qed.

(** A call of [cl_timer_start] by a thread that may make it. *)
Lemma exec_start s l i p ms :
  system_at s l -> may_call known s i p = true -> 0 <= ms < 2 ^ 32 ->
  exists s' l', exec known (EvStart i p ms) s = Some s' /\ system_at s' l' /\ started s l p ms s' l'.
Proof.
  intros Hs Hm Hms. destruct (may_call_spec s i p Hm) as (Hp & Hst & Hi & Hd & _).
  cbn [exec]. rewrite Hm, bool_decide_true by done. cbn [andb].
  destruct (timer_start_ok s l p ms Hs Hp Hst) as (s' & l' & H1 & H2 & H3 & _); [lia| |by exists s', l'].
  intros j Hj. specialize (Hd j _ Hj). cbn in Hd. by apply bool_decide_eq_false in Hd.
Qed.

(** A thread in the middle of [cl_timer_trim]. *)
Lemma exec_trim s l i p ms :
  system_at s l -> clients s !! i = Some (InTrim p ms) ->
  exists s' l', exec known (EvResume i) s = Some s' /\ system_at s' l' /\ started s l p ms s' l'.
Proof.
  intros Hs Hi. pose proof (sy_clients _ _ Hs) as Hc.
  destruct (co_call _ _ Hc i _ p Hi) as [Hp Hst]; [cbn; by apply bool_decide_true|]. destruct (co_trim _ _ Hc i p ms Hi) as [Hms _].
  cbn [exec]. rewrite Hi.
  destruct (timer_start_ok (set_client s i Ready) l p ms) as (s' & l' & H1 & H2 & H3 & _); [|done|done|done| |by exists s', l'].
  - apply system_clients; [done|]. by eapply clients_ready.
  - intros j Hj. cbn in Hj. destruct (decide (j = i)) as [->|Hne].
    + by rewrite list_lookup_insert_eq in Hj by (by eapply lookup_lt_Some).
    + rewrite list_lookup_insert_ne in Hj by done.
      assert (Hf : calls_on p (InTrim p ms) = false) by (eapply (co_destroy _ _ Hc j i); [done|exact Hj|cbn; by apply bool_decide_true|exact Hi]).
      cbn in Hf. by apply bool_decide_eq_false in Hf.
Qed.

Lemma signal_ok s l : system_at s l -> system_at (signal_prov s) l.
Proof.
  intros [H1 H2 H3 H4 H5]. destruct (signal_fields s) as (E1 & E2 & E3 & E4 & E5 & _ & E6).
  constructor; rewrite ?E1, ?E2, ?E3, ?E4, ?E5; try done; [by eapply prov_ok_signal|]. intros p Hp HR. by apply E6, H3.
Qed.

Lemma prov_destroy_ok s l : system_at s l -> system_at (__cl_timer_prov_destroy s) l.
Proof.
  intros [H1 H2 H3 H4 H5]. unfold __cl_timer_prov_destroy. set (s1 := System _ _ _ _ _ _ _).
  destruct (signal_fields s1) as (E1 & E2 & E3 & E4 & E5 & _ & E6).
  constructor; rewrite ?E1, ?E2, ?E3, ?E4, ?E5; try done.
  - unfold signal_prov. cbn. destruct (prov s) eqn:Hp; cbn; rewrite ?Hp; cbn; try done; by rewrite Hp in H2.
  - intros p Hp HR. by apply E6, H3.
Qed.

Lemma timed_out_ok s l p d : system_at s l -> prov s = ProvTimed p d -> system_at (set_prov s (ProvTimedOut p)) l.
Proof.
  intros [H1 H2 H3 H4 H5] Hp. rewrite Hp in H2. destruct H2 as (Hh & _). constructor; cbn; try done.
  - destruct l as [|p' l]; [done|]. injection Hh as ->. apply (qa_queued _ _ _ H1). by left.
  - intros x Hx HR. by specialize (H3 x Hx HR); rewrite Hp in H3.
Qed.

Lemma woken_ok s l : system_at s l -> (forall p, prov s <> ProvCallback p) -> system_at (set_prov s ProvWoken) l.
Proof. intros [H1 H2 H3 H4 H5] Hn. constructor; cbn; try done. intros x Hx HR. by destruct (Hn x), (H3 x Hx HR). Qed.

Lemma exec_ok e s l s' : system_at s l -> exec known e s = Some s' -> exists l', system_at s' l'.
Proof.
  intros Hs. destruct e as [p f ctx|i p ms|i p|i p ms|i p|i| |us| | |w|[i|]]; cbn [exec].
  - destruct (bool_decide (p ∈ known)) eqn:Hp; [|done]. destruct (bool_decide (state _ p = _)) eqn:Hst; [done|]. intros [= <-].
    apply bool_decide_eq_true in Hp. apply bool_decide_eq_false in Hst. exists l. by apply init_ok.
  - destruct (may_call known s i p) eqn:Hm; [|done]. destruct (bool_decide (0 <= ms < 2 ^ 32)) eqn:Hms; [|done]. apply bool_decide_eq_true in Hms.
    destruct (exec_start s l i p ms Hs Hm Hms) as (s1 & l1 & H1 & H2 & _). cbn [exec] in H1. rewrite Hm, bool_decide_true in H1 by done.
    cbn [andb] in *. rewrite H1. intros [= <-]. by exists l1.
  - destruct (may_call known s i p) eqn:Hm; [|done]. intros [= <-]. destruct (may_call_spec s i p Hm) as (Hp & _ & _ & _ & Hf). by apply stop_ok with l.
  - destruct (may_call known s i p) eqn:Hm; [|done]. destruct (bool_decide (0 <= ms < 2 ^ 32)) eqn:Hms; [|done]. apply bool_decide_eq_true in Hms.
    intros [= <-]. destruct (may_call_spec s i p Hm) as (_ & _ & _ & _ & Hf). exists l. by apply trim_ok.
  - destruct (may_call known s i p) eqn:Hm; [|done]. destruct (existsb (calls_on p) (clients s)) eqn:Hc; [done|]. intros [= <-].
    destruct (may_call_spec s i p Hm) as (Hp & Hst & Hi & Hd & _). unfold cl_timer_destroy. rewrite decide_True by done.
    apply stop_ok with l; [done| |done]. exists Ready. split; [done|]. split; [by right|]. intros _. right. intros j pc. by apply existsb_lookup.
  - destruct (clients s !! i) as [[|p [] d|p ms|p]|] eqn:Hi; try done.
    + intros [= <-]. by apply (stop_resume_ok s l i p true d).
    + intros Hst. destruct (exec_trim s l i p ms Hs Hi) as (s1 & l1 & H1 & H2 & _). cbn [exec] in H1. rewrite Hi, Hst in H1. injection H1 as <-. by exists l1.
    + intros [= <-]. exists l. by apply destroy_finish_ok.
  - intros [= <-]. exists l. by apply prov_destroy_ok.
  - case_decide; [|done]. intros [= <-]. exists l. destruct Hs. constructor; try done. apply of_usec_spec.
  - destruct (prov s) as [| |p d| | |] eqn:Hp; try done. case_decide; [|done]. intros [= <-]. exists l. by apply (timed_out_ok s l p d).
  - destruct (prov s) as [| |p d|p| |] eqn:Hp; try done; intros [= <-].
    + exists l. apply prov_loop_ok; [by apply Hs|apply (no_running s l Hs); by rewrite Hp|by apply Hs|by apply Hs].
    + destruct (prov_expired_ok s l p Hs Hp) as (l' & H & _). by exists l'.
  - destruct (prov s) as [| | | |p|] eqn:Hp; try done. destruct (bool_decide _ && _); [|done]. intros [= <-]. exists l. by apply prov_return_ok.
  - destruct (clients s !! i) as [[|p w d| |]|] eqn:Hi; try done. intros [= <-]. exists l. apply system_clients; [done|].
    eapply clients_woken; [by apply Hs|exact Hi].
  - destruct (prov s) eqn:Hp; try done; intros [= <-]; exists l; apply woken_ok; try done; by rewrite Hp.
Qed.

(** *** Left alone, the provider fires what is due *)

Definition prov_event (e : event) : bool := match e with EvTimeout | EvRun | EvReturn None => true | _ => false end.

Lemma run_app es1 es2 s : run known (es1 ++ es2) s = run known es1 s ≫= run known es2.
Proof. revert s. induction es1 as [|e es1 IH]; intros s; [done|]. cbn. destruct (exec known e s); [|done]. cbn. apply IH. Qed.

(** No thread is in a call, and the provider is to go on. *)
Definition quiet s : Prop := (forall i pc, clients s !! i = Some pc -> pc = Ready) /\ clients s !! 0%nat = Some Ready /\ exit s = false.

Lemma prov_loop_fields s :
  mem (prov_loop s) = mem s /\ clients (prov_loop s) = clients s /\ exit (prov_loop s) = exit s /\ clock (prov_loop s) = clock s /\
  fired (prov_loop s) = fired s /\
  (exit s = false -> match prov (prov_loop s) with ProvWait | ProvTimed _ _ => True | _ => False end).
Proof.
  unfold prov_loop. destruct (exit s) eqn:Hx; [by cbn; rewrite ?Hx|]. by destruct (cl_is_qlist_empty (Timer.queue s)); cbn; rewrite ?Hx.
Qed.

Lemma quiet_no_wait s p : quiet s -> existsb (waits_for p) (clients s) = false.
Proof.
  intros [H _]. apply not_true_iff_false. intros (pc & Hin & Hw)%existsb_exists.
  apply list_elem_of_In, list_elem_of_lookup in Hin as (i & Hi). by rewrite (H i pc Hi) in Hw.
Qed.

(** The callback returns. *)
Lemma quiet_return s l p :
  system_at s l -> quiet s -> prov s = ProvCallback p ->
  exists s', exec known (EvReturn None) s = Some s' /\ system_at s' l /\ quiet s' /\ clock s' = clock s /\
    fired s' = fired s /\ timeout (mem s') = timeout (mem s) /\ match prov s' with ProvWait | ProvTimed _ _ => True | _ => False end.
Proof.
  intros Hs Hq Hp. exists (prov_return s p None). pose proof (prov_return_ok s l p None Hs Hp) as Hs'.
  cbn [exec]. rewrite Hp, (quiet_no_wait s p Hq). destruct Hq as (H1 & H2 & H3). rewrite bool_decide_true by done.
  split; [done|]. split; [done|]. unfold prov_return in *. set (m := if decide _ then _ else _) in *.
  destruct (prov_loop_fields (set_queue s (m, Timer.queue s))) as (E1 & E2 & E3 & E4 & E5 & E6).
  unfold quiet. rewrite E1, E2, E3, E4, E5. cbn. split; [done|]. split; [done|]. split; [done|]. split; [|by apply E6].
  unfold m. by case_decide.
Qed.

(** The first timer is due: it is fired. *)
Lemma quiet_fire s p l d :
  system_at s (p :: l) -> quiet s -> prov s = ProvTimed p d -> nsec (timeout (mem s) p) <= usec (clock s) * 1000 ->
  exists s', run known [EvTimeout; EvRun; EvReturn None] s = Some s' /\ system_at s' l /\ quiet s' /\ clock s' = clock s /\
    fired s' = fired s ++ [p] /\ timeout (mem s') = timeout (mem s) /\ match prov s' with ProvWait | ProvTimed _ _ => True | _ => False end.
Proof.
  intros Hs Hq Hp Hdue. pose proof (timed_out_ok s _ p d Hs Hp) as Hs1. pose proof (sy_prov _ _ Hs) as Hd. rewrite Hp in Hd. destruct Hd as (_ & -> & _).
  cbn [run exec]. rewrite Hp, decide_True by (by right). cbn [mbind option_bind]. cbn [prov set_prov].
  destruct (prov_expired_ok _ _ p Hs1 eq_refl) as (l' & Hs2 & Hl'). destruct Hl' as (l1 & l2 & El & -> & Hp2); [by left|].
  assert (l1 = []) as ->.
  { destruct l1 as [|a l1]; [done|]. injection El as -> ->. pose proof (queue_nodup _ _ _ (sy_queue _ _ Hs)) as Hnd.
    apply NoDup_cons in Hnd as [Hn _]. exfalso. apply Hn. set_solver. }
  injection El as <-. cbn [app] in Hs2. set (s2 := prov_expired _ p) in *.
  assert (Hf : quiet s2 /\ clock s2 = clock s /\ fired s2 = fired s ++ [p] /\ timeout (mem s2) = timeout (mem s)).
  { unfold s2, prov_expired in *. case_decide as Ht.
    - exfalso. destruct (prov_loop_fields (set_prov s (ProvTimedOut p))) as (_ & _ & _ & _ & _ & E6).
      specialize (E6 (proj2 (proj2 Hq))). by rewrite Hp2 in E6.
    - cbn [t_links set_timer_state]. by destruct (cl_qlist_remove_item _ _ _). }
  destruct Hf as (Hq2 & Ek & Ef & Et). destruct (quiet_return s2 l p Hs2 Hq2 Hp2) as (s3 & H3 & Hs3 & Hq3 & Ek3 & Ef3 & Et3 & Hp3).
  cbn [exec] in H3. cbn [mbind option_bind]. rewrite H3. cbn [mbind option_bind]. exists s3. rewrite Ek3, Ef3, Et3, Ek, Ef, Et. by split_and!.
Qed.

Lemma quiet_drain l : forall s,
  system_at s l -> quiet s -> match prov s with ProvWait | ProvTimed _ _ => True | _ => False end ->
  (forall p, p ∈ l -> nsec (timeout (mem s) p) <= usec (clock s) * 1000) ->
  exists es s', forallb prov_event es = true /\ run known es s = Some s' /\ system_at s' [] /\ fired s' = fired s ++ l.
Proof.
  induction l as [|p l IH]; intros s Hs Hq Hp Hdue.
  - exists [], s. by rewrite app_nil_r.
  - pose proof (sy_prov _ _ Hs) as Hpo. destruct (prov s) as [| |p' d| | |] eqn:Ep; try done; [by destruct Hpo|].
    destruct Hpo as (Hh & _). injection Hh as <-.
    destruct (quiet_fire s p l d Hs Hq Ep) as (s1 & Hr1 & Hs1 & Hq1 & Ek1 & Ef1 & Et1 & Hp1); [apply Hdue; by left|].
    destruct (IH s1 Hs1 Hq1 Hp1) as (es & s2 & He & Hr2 & Hs2 & Ef2).
    { intros x Hx. rewrite Ek1, Et1. apply Hdue. by right. }
    exists ([EvTimeout; EvRun; EvReturn None] ++ es), s2. split; [done|]. rewrite run_app, Hr1. cbn [mbind option_bind].
    split; [done|]. split; [done|]. by rewrite Ef2, Ef1, <- (assoc_L (++)).
Qed.

End Queue.
