(* ===== verification/TimerProps.v ===== *)
(** * Timers: properties

    Whatever the threads do and in whatever order: the queue holds the timers that
    are queued, ordered by the time they are due; when the provider waits, it is
    for the first of them; calls have results; and, left alone, the provider fires
    all that is due, in order.  Three races show what does not hold. *)

From stdpp Require Import sorting.
From S2P Require Import Prelude Qlist Timer TimerSpec.

Local Open Scope Z_scope.
Local Open Scope list_scope.

(** ** Reachable states *)

(** Before the provider starts: the timers are constructed or in cleared memory, the
    end of the queue is none of them, there are less than 2^32. *)
Record fresh (known : list ptr) (m : timers) (q : cl_qlist_t) (now : timeval) : Prop := Fresh {
  fr_few : Z.of_nat (length known) < 2 ^ 32;
  fr_end : ql_end q ∉ known;
  fr_timers : forall p, p ∈ known -> state m p <> CL_INITIALIZED /\ timer_state m p = CL_TIMER_IDLE;
  fr_clock : valid_clock now }.

Section Reachable.
Context (known : list ptr) (m : timers) (q : cl_qlist_t) (n : nat) (now : timeval) (Hfresh : fresh known m q now).
Implicit Types (s : system) (l : list ptr).

Lemma create_ok : system_at known (prov_started m q n now) [].
Proof.
  destruct Hfresh as [_ He Ht Hk]. unfold prov_started. pose proof (qlist_init_spec (t_links m) q) as H.
  assert (Hend : ql_end (cl_qlist_init (t_links m) q).2 = ql_end q) by done.
  destruct (cl_qlist_init (t_links m) q) as [lk q']. destruct H as (Hr & _ & _). cbn in Hend.
  assert (Hready : forall i pc, replicate (S n) Ready !! i = Some pc -> pc = Ready) by (intros i pc [? _]%lookup_replicate; done).
  constructor; cbn; [|done| | |done].
  - constructor; [done|by rewrite Hend| | |constructor].
    + intros p. split; [by intros ?%elem_of_nil|]. intros [Hp Hst]. cbn in Hst. destruct (Ht p Hp) as [_ E]. by rewrite E in Hst.
    + by intros p ?%elem_of_nil.
  - intros p Hp HR. destruct (Ht p Hp) as [_ E]. by rewrite E in HR.
  - constructor.
    + by intros i pc p ->%Hready.
    + by intros i j pc pc' p _ ->%Hready.
    + by intros i p ?%Hready.
    + by intros i p ms ?%Hready.
Qed.

Lemma reachable_at s : reachable known (prov_started m q n now) s -> exists l, system_at known s l.
Proof.
  induction 1 as [|e s s' _ [l IH] He]; [exists []; apply create_ok|].
  eapply (exec_ok known (fr_few _ _ _ _ Hfresh)); [exact IH|exact He].
Qed.

(** C25. In every state that the timer thread and its callers can reach, in whatever
    order they run and whenever time passes: the queue is a well-formed list of
    exactly the timers that are queued, ordered by the time they are due; only the
    timer whose callback is running is marked as running; and a provider that waits
    is not late: it waits for a timer to be queued only if none is, and otherwise
    for the time at which the first timer is due now. *)
Theorem timer_queue_invariant s :
  reachable known (prov_started m q n now) s ->
  exists l, qlist_at (t_links (mem s)) (Timer.queue s) l /\
    (forall p, p ∈ l <-> p ∈ known /\ timer_state (mem s) p = CL_TIMER_QUEUED) /\
    StronglySorted (not_later (mem s)) l /\
    (forall p, p ∈ known -> timer_state (mem s) p = CL_TIMER_RUNNING -> prov s = ProvCallback p) /\
    match prov s with
    | ProvWait => l = []
    | ProvTimed p d => head l = Some p /\ d = timeout (mem s) p /\ (forall x, x ∈ l -> nsec d <= nsec (timeout (mem s) x))
    | _ => True
    end.
Proof.
  intros [l Hs]%reachable_at. pose proof Hs as [[Hr _ Hq _ Ho] Hp Hrun _ _]. exists l. do 4 (split; [done|]).
  destruct (prov s) as [| |p d| | |]; try done; [by destruct Hp|]. destruct Hp as (Hh & -> & _). split; [done|]. split; [done|].
  destruct l as [|p' l]; [done|]. injection Hh as ->. apply StronglySorted_cons in Ho as [HF _]. rewrite Forall_forall in HF.
  intros x [->|Hx]%elem_of_cons; [done|by apply HF].
Qed.

(** [cl_timer_stop], called for itself or by [cl_timer_destroy]. *)
Lemma stop_result s l i p (destroy : bool) pc :
  system_at known s l -> p ∈ known -> clients s !! i = Some pc ->
  let s' := cl_timer_stop s i p destroy in
  if decide (timer_state (mem s) p = CL_TIMER_RUNNING) then clients s' !! i = Some (InStop p false destroy) /\ mem s' = mem s
  else clients s' !! i = Some (if destroy then InDestroy p else Ready) /\ timer_state (mem s') p = CL_TIMER_IDLE.
Proof.
  intros Hs Hp Hi%lookup_lt_Some. cbv zeta. unfold cl_timer_stop. destruct (timer_state (mem s) p) eqn:Et; case_decide; try done.
  - cbn. by rewrite list_lookup_insert_eq.
  - destruct (stop_finish_ok known s l p Hs) as (l1 & l2 & _ & _ & Ec & Ei & _); [by apply (qa_queued _ _ _ _ (sy_queue _ _ _ Hs))|].
    cbn. by rewrite Ec, list_lookup_insert_eq.
  - cbn. by rewrite list_lookup_insert_eq.
Qed.

Lemma stop_resume_result s l i p d w :
  system_at known s l -> clients s !! i = Some (InStop p w d) ->
  let s' := stop_resume s i p d in
  clients s' !! i = Some (if d then InDestroy p else Ready) /\
  timer_state (mem s') p = if decide (timer_state (mem s) p = CL_TIMER_QUEUED) then CL_TIMER_IDLE else timer_state (mem s) p.
Proof.
  intros Hs Hi. pose proof (co_call _ _ _ (sy_clients _ _ _ Hs) i _ p Hi) as Hp. apply lookup_lt_Some in Hi.
  cbv zeta. unfold stop_resume. destruct (decide (timer_state (mem s) p = CL_TIMER_QUEUED)) as [Ht|Ht].
  - rewrite decide_False by (by intros ?). destruct (stop_finish_ok known s l p Hs) as (l1 & l2 & _ & _ & Ec & Ei & _).
    { apply (qa_queued _ _ _ _ (sy_queue _ _ _ Hs)). split; [|done]. apply Hp. cbn. by apply bool_decide_true. }
    cbn. by rewrite Ec, list_lookup_insert_eq, Ei.
  - rewrite decide_True by done. cbn. by rewrite list_lookup_insert_eq.
Qed.

Lemma trim_result s l i p ms pc :
  system_at known s l -> p ∈ known -> clients s !! i = Some pc -> 0 <= ms ->
  if decide (timer_state (mem s) p = CL_TIMER_QUEUED /\ nsec (timeout (mem s) p) < usec (clock s) * 1000 + ms * 1000000)
  then cl_timer_trim s i p ms = s
  else cl_timer_trim s i p ms = set_client s i (InTrim p ms).
Proof.
  intros Hs Hp _ Hms. destruct (calculate_spec ms (clock s) (sy_clock _ _ _ Hs) Hms) as [Hv Hn].
  unfold cl_timer_trim. cbv zeta. destruct (decide (timer_state (mem s) p = CL_TIMER_QUEUED)) as [Hq|Hq].
  - assert (Hin : p ∈ l) by (by apply (qa_queued _ _ _ _ (sy_queue _ _ _ Hs))).
    destruct (qa_ready _ _ _ _ (sy_queue _ _ _ Hs) p Hin) as [_ Hvp].
    rewrite is_earlier_spec, Hn by done. case_bool_decide; case_decide; tauto.
  - rewrite decide_False by tauto. done.
Qed.

(** C28. Every step of a call on a timer has a result, whatever else is under way.
    [cl_timer_start] queues the timer, due exactly [ms] milliseconds from now, and
    does not touch the others.  [cl_timer_stop] waits only for a timer whose
    callback is running; otherwise the timer is idle when it returns.  A stop that
    has waited takes a timer that has been queued meanwhile off the queue, and
    leaves one that runs anew as it is.  [cl_timer_trim] does nothing when the timer
    is due earlier than asked, and otherwise starts it, for [ms] milliseconds from
    the time it goes on.  [cl_timer_destroy] stops the timer in the same way, and
    then marks it as not initialised. *)
Theorem timer_calls_correct s :
  reachable known (prov_started m q n now) s ->
  (forall i p ms, may_call known s i p = true -> 0 <= ms < 2 ^ 32 ->
     exists s', exec known (EvStart i p ms) s = Some s' /\ timer_state (mem s') p = CL_TIMER_QUEUED /\
       nsec (timeout (mem s') p) = usec (clock s) * 1000 + ms * 1000000 /\
       (forall x, x <> p -> timer_state (mem s') x = timer_state (mem s) x /\ timeout (mem s') x = timeout (mem s) x)) /\
  (forall i p, may_call known s i p = true ->
     exists s', exec known (EvStop i p) s = Some s' /\
       if decide (timer_state (mem s) p = CL_TIMER_RUNNING) then clients s' !! i = Some (InStop p false false) /\ mem s' = mem s
       else clients s' !! i = Some Ready /\ timer_state (mem s') p = CL_TIMER_IDLE) /\
  (forall i p d, clients s !! i = Some (InStop p true d) ->
     exists s', exec known (EvResume i) s = Some s' /\ clients s' !! i = Some (if d then InDestroy p else Ready) /\
       timer_state (mem s') p = if decide (timer_state (mem s) p = CL_TIMER_QUEUED) then CL_TIMER_IDLE else timer_state (mem s) p) /\
  (forall i p ms, may_call known s i p = true -> 0 <= ms < 2 ^ 32 ->
     exists s', exec known (EvTrim i p ms) s = Some s' /\
       if decide (timer_state (mem s) p = CL_TIMER_QUEUED /\ nsec (timeout (mem s) p) < usec (clock s) * 1000 + ms * 1000000)
       then s' = s else s' = set_client s i (InTrim p ms)) /\
  (forall i p ms, clients s !! i = Some (InTrim p ms) ->
     exists s', exec known (EvResume i) s = Some s' /\ timer_state (mem s') p = CL_TIMER_QUEUED /\
       nsec (timeout (mem s') p) = usec (clock s) * 1000 + ms * 1000000) /\
  (forall i p, may_call known s i p = true -> existsb (calls_on p) (clients s) = false ->
     exists s', exec known (EvDestroy i p) s = Some s' /\
       if decide (timer_state (mem s) p = CL_TIMER_RUNNING) then clients s' !! i = Some (InStop p false true) /\ mem s' = mem s
       else clients s' !! i = Some (InDestroy p) /\ timer_state (mem s') p = CL_TIMER_IDLE) /\
  (forall i p, clients s !! i = Some (InDestroy p) ->
     exists s', exec known (EvResume i) s = Some s' /\ clients s' !! i = Some Ready /\ state (mem s') p = CL_UNINITIALIZED).
Proof.
  intros Hr. destruct (reachable_at s Hr) as [l Hs]. pose proof (fr_few _ _ _ _ Hfresh) as Hfew. split_and!.
  - intros i p ms Hm Hms. destruct (exec_start known Hfew s l i p ms Hs Hm Hms) as (s' & l' & H1 & _ & (l1 & l2 & _ & _ & H2 & H3 & H4 & _)).
    by exists s'.
  - intros i p Hm. destruct (may_call_spec known s i p Hm) as (Hp & _ & Hi & _ & _).
    exists (cl_timer_stop s i p false). cbn [exec]. rewrite Hm. split; [done|]. by apply (stop_result s l i p false Ready).
  - intros i p d Hi. exists (stop_resume s i p d). cbn [exec]. rewrite Hi. split; [done|]. by eapply stop_resume_result.
  - intros i p ms Hm Hms. destruct (may_call_spec known s i p Hm) as (Hp & _ & Hi & _ & _).
    exists (cl_timer_trim s i p ms). cbn [exec]. rewrite Hm, bool_decide_true by done. split; [done|].
    apply (trim_result s l i p ms Ready); [done..|lia].
  - intros i p ms Hi. destruct (exec_trim known Hfew s l i p ms Hs Hi) as (s' & l' & H1 & _ & (l1 & l2 & _ & _ & H2 & H3 & _)).
    by exists s'.
  - intros i p Hm Hno. destruct (may_call_spec known s i p Hm) as (Hp & Hst & Hi & _ & _).
    exists (cl_timer_destroy s i p). cbn [exec]. rewrite Hm, Hno. split; [done|]. unfold cl_timer_destroy.
    rewrite (decide_True (P := state (mem s) p = CL_INITIALIZED)) by done. by apply (stop_result s l i p true Ready).
  - intros i p Hi. exists (destroy_finish s i p). cbn [exec]. rewrite Hi. split; [done|]. apply lookup_lt_Some in Hi.
    unfold destroy_finish. cbn. rewrite list_lookup_insert_eq by (by rewrite length_fmap). by rewrite upd_eq.
Qed.

(** C26. When a wait of the provider has reached its time and no call comes between
    that and the provider, the timer that is fired is due, and no queued timer is
    due before it. *)
Theorem timer_fires_first_due s s1 s2 :
  reachable known (prov_started m q n now) s ->
  exec known EvTimeout s = Some s1 -> exec known EvRun s1 = Some s2 ->
  exists p, fired s2 = fired s ++ [p] /\ prov s2 = ProvCallback p /\
    timer_state (mem s) p = CL_TIMER_QUEUED /\ timer_state (mem s2) p = CL_TIMER_RUNNING /\
    nsec (timeout (mem s) p) <= usec (clock s) * 1000 /\
    (forall x, x ∈ known -> timer_state (mem s) x = CL_TIMER_QUEUED -> nsec (timeout (mem s) p) <= nsec (timeout (mem s) x)).
Proof.
  intros [l Hs]%reachable_at. cbn [exec]. pose proof (sy_prov _ _ _ Hs) as Hp. destruct (prov s) as [| |p d| | |] eqn:Ep; try done.
  destruct Hp as (Hh & -> & _). destruct l as [|p' l]; [done|]. injection Hh as ->. case_decide as Hdue; [|done]. intros [= <-].
  pose proof Hs as [[_ _ Hq Hrd Ho] _ _ _ _]. assert (Hpt : timer_state (mem s) p = CL_TIMER_QUEUED) by (apply Hq; by left).
  cbn [prov set_prov]. unfold prov_expired. cbn [mem set_prov]. rewrite decide_False by (intros H; by apply H).
  cbn [t_links set_timer_state]. destruct (cl_qlist_remove_item _ _ _) as [lk q']. intros [= <-]. exists p. cbn. rewrite upd_eq.
  do 4 (split; [done|]). split.
  - destruct Hdue as [Hn|Hd]; [|done]. destruct Hn. apply Hrd. by left.
  - intros x Hx Hxt. assert (Hin : x ∈ p :: l) by (by apply Hq). apply StronglySorted_cons in Ho as [HF _]. rewrite Forall_forall in HF.
    apply elem_of_cons in Hin as [->|Hin]; [done|by apply HF].
Qed.

(** C27. Once all that is queued is due, the provider, left alone, calls back every
    queued timer, each once and in the order in which they are due, and none is
    queued any more; it may be waiting, woken or in a callback at the start. *)
Theorem timer_drain s :
  reachable known (prov_started m q n now) s ->
  (forall i pc, clients s !! i = Some pc -> pc = Ready) -> clients s !! 0%nat = Some Ready -> exit s = false ->
  (forall p, prov s <> ProvTimedOut p) ->
  (forall p, p ∈ known -> timer_state (mem s) p = CL_TIMER_QUEUED -> nsec (timeout (mem s) p) <= usec (clock s) * 1000) ->
  exists l es s', (forall p, p ∈ l <-> p ∈ known /\ timer_state (mem s) p = CL_TIMER_QUEUED) /\
    NoDup l /\ StronglySorted (not_later (mem s)) l /\
    forallb prov_event es = true /\ run known es s = Some s' /\ fired s' = fired s ++ l /\
    (forall p, p ∈ known -> timer_state (mem s') p <> CL_TIMER_QUEUED).
Proof.
  intros [l Hs]%reachable_at H1 H2 H3 H4 Hdue. pose proof (fr_few _ _ _ _ Hfresh) as Hfew.
  assert (Hq : quiet s) by done.
  assert (Hfirst : exists es s1, forallb prov_event es = true /\ run known es s = Some s1 /\ system_at known s1 l /\ quiet s1 /\
    clock s1 = clock s /\ fired s1 = fired s /\ timeout (mem s1) = timeout (mem s) /\
    match prov s1 with ProvWait | ProvTimed _ _ => True | _ => False end).
  { destruct (prov s) as [| |p d|p|p|] eqn:Ep.
    - exists [EvRun], (prov_loop s). cbn [run exec forallb prov_event]. rewrite Ep. cbn [mbind option_bind].
      destruct (prov_loop_fields s) as (E1 & E2 & E3 & E4 & E5 & E6). unfold quiet. rewrite E1, E2, E3, E4, E5.
      split_and!; try done; [|by apply E6]. apply (prov_loop_ok known Hfew); try apply Hs.
      apply (no_running known s l Hs). by rewrite Ep.
    - exists [], s. by rewrite Ep.
    - exists [], s. by rewrite Ep.
    - by destruct (H4 p).
    - destruct (quiet_return known Hfew s l p Hs Hq Ep) as (s1 & Hr & Hs1 & Hq1 & E1 & E2 & E3 & Hp).
      exists [EvReturn None], s1. cbn [run forallb prov_event]. rewrite Hr. by split_and!.
    - pose proof (sy_prov _ _ _ Hs) as Hx. rewrite Ep in Hx. cbn in Hx. congruence. }
  destruct Hfirst as (es1 & s1 & He1 & Hr1 & Hs1 & Hq1 & Ek & Ef & Et & Hp).
  destruct (quiet_drain known Hfew l s1 Hs1 Hq1 Hp) as (es2 & s2 & He2 & Hr2 & Hs2 & Ef2).
  { intros p Hin. rewrite Ek, Et. apply (qa_queued _ _ _ _ (sy_queue _ _ _ Hs)) in Hin as [? ?]. by apply Hdue. }
  exists l, (es1 ++ es2), s2. split; [apply Hs|]. split; [by eapply queue_nodup, Hs|]. split; [apply Hs|].
  split; [by rewrite forallb_app, He1, He2|]. split; [by rewrite run_app, Hr1|]. split; [by rewrite Ef2, Ef|].
  intros p Hpk Hpt. destruct (elem_of_nil p) as [Hnil _]. apply Hnil, (qa_queued _ _ _ _ (sy_queue _ _ _ Hs2)). done.
Qed.
End Reachable.

(** ** Concrete timers *)

Lemma run_reachable known es : forall s0 s s', reachable known s0 s -> run known es s = Some s' -> reachable known s0 s'.
Proof.
  induction es as [|e es IH]; intros s0 s s' Hr; cbn [run]; [by intros [= <-]|].
  destruct (exec known e s) as [s1|] eqn:He; [|done]. cbn [mbind option_bind]. apply IH. by eapply reach_step.
Qed.

Definition demo_known : list ptr := [100; 200].
Definition demo_timers : timers :=
  Timers links0 (fun _ => CL_TIMER_IDLE) (fun _ => CL_UNINITIALIZED) (fun _ => NULL) (fun _ => NULL)
    (fun _ => TimeSpec 0 0).
Definition demo_queue : cl_qlist_t := QList 10 0 CL_UNINITIALIZED.
Definition demo_system : system := prov_started demo_timers demo_queue 2 (TimeVal 5 0).

Lemma demo_fresh : fresh demo_known demo_timers demo_queue (TimeVal 5 0).
Proof. split; [done|vm_decide|done|vm_decide]. Qed.

(** Two timers run, one for 30, one for 10 milliseconds, and the provider waits. *)
Definition two_timers : list event := [EvInit 100 1 1; EvInit 200 2 2; EvStart 1 100 30; EvStart 2 200 10; EvRun].

Definition after (es : list event) : system := default demo_system (run demo_known es demo_system).

Lemma after_reachable es :
  match run demo_known es demo_system with Some _ => true | None => false end = true -> reachable demo_known demo_system (after es).
Proof.
  unfold after. destruct (run demo_known es demo_system) as [s|] eqn:Hr; [|done]. intros _. cbn.
  eapply run_reachable; [apply reach_start|exact Hr].
Qed.

Lemma timer_queue_invariant_witness :
  prov (after two_timers) = ProvTimed 200 (TimeSpec 5 10000000) /\
  exists l, qlist_at (t_links (mem (after two_timers))) (Timer.queue (after two_timers)) l /\
    (forall p, p ∈ l <-> p ∈ demo_known /\ timer_state (mem (after two_timers)) p = CL_TIMER_QUEUED) /\
    StronglySorted (not_later (mem (after two_timers))) l.
Proof.
  split; [vm_compute; reflexivity|].
  destruct (timer_queue_invariant demo_known demo_timers demo_queue 2 (TimeVal 5 0) demo_fresh (after two_timers)) as (l & H1 & H2 & H3 & _).
  - apply after_reachable. vm_compute. reflexivity.
  - by exists l.
Defined.

(** A timer that is queued is started again, trimmed to an earlier time, and stopped. *)
Lemma timer_calls_correct_witness :
  may_call demo_known (after two_timers) 1 200 = true /\
  (exists s', exec demo_known (EvStart 1 200 50) (after two_timers) = Some s' /\ timer_state (mem s') 200 = CL_TIMER_QUEUED /\
    nsec (timeout (mem s') 200) = usec (clock (after two_timers)) * 1000 + 50 * 1000000) /\
  exec demo_known (EvTrim 1 200 50) (after two_timers) = Some (after two_timers) /\
  exec demo_known (EvTrim 1 200 5) (after two_timers) = Some (set_client (after two_timers) 1 (InTrim 200 5)) /\
  exists s', exec demo_known (EvDestroy 1 200) (after two_timers) = Some s' /\ clients s' !! 1%nat = Some (InDestroy 200) /\
    timer_state (mem s') 200 = CL_TIMER_IDLE.
Proof.
  assert (Hm : may_call demo_known (after two_timers) 1 200 = true) by (vm_compute; reflexivity). split; [exact Hm|].
  destruct (timer_calls_correct demo_known demo_timers demo_queue 2 (TimeVal 5 0) demo_fresh (after two_timers))
    as (Hstart & _ & _ & Htrim & _ & Hdestroy & _).
  { apply after_reachable. vm_compute. reflexivity. }
  split; [|split; [|split]].
  - destruct (Hstart 1%nat 200 50 Hm) as (s' & H1 & H2 & H3 & _); [lia|]. exists s'. split; [exact H1|]. split; [exact H2|exact H3].
  - destruct (Htrim 1%nat 200 50 Hm) as (s' & H1 & H2); [lia|].
    rewrite decide_True in H2 by (vm_compute; split; reflexivity). rewrite H1, H2. reflexivity.
  - destruct (Htrim 1%nat 200 5 Hm) as (s' & H1 & H2); [lia|].
    rewrite decide_False in H2 by (vm_compute; intros [_ Hlt]; discriminate). rewrite H1, H2. reflexivity.
  - destruct (Hdestroy 1%nat 200 Hm) as (s' & H1 & H2); [vm_compute; reflexivity|].
    rewrite decide_False in H2 by (vm_compute; discriminate). exists s'. split; [exact H1|exact H2].
Defined.

Definition ten_ms : list event := two_timers ++ [EvTick 10000].

Lemma timer_fires_first_due_witness :
  exists s1 s2, exec demo_known EvTimeout (after ten_ms) = Some s1 /\ exec demo_known EvRun s1 = Some s2 /\
  exists p, fired s2 = fired (after ten_ms) ++ [p] /\ prov s2 = ProvCallback p /\
    nsec (timeout (mem (after ten_ms)) p) <= usec (clock (after ten_ms)) * 1000.
Proof.
  assert (Hs : match run demo_known [EvTimeout; EvRun] (after ten_ms) with Some _ => true | None => false end = true) by (vm_compute; reflexivity).
  cbn [run] in Hs. destruct (exec demo_known EvTimeout (after ten_ms)) as [s1|] eqn:E1; [|discriminate]. cbn [mbind option_bind] in Hs.
  destruct (exec demo_known EvRun s1) as [s2|] eqn:E2; [|discriminate].
  exists s1, s2. split; [reflexivity|]. split; [exact E2|].
  destruct (timer_fires_first_due demo_known demo_timers demo_queue 2 (TimeVal 5 0) demo_fresh (after ten_ms) s1 s2)
    as (p & H1 & H2 & _ & _ & H3 & _); [|exact E1|exact E2|].
  - apply after_reachable. vm_compute. reflexivity.
  - exists p. split; [exact H1|]. split; [exact H2|exact H3].
Defined.

Definition sixty_ms : list event := two_timers ++ [EvTick 60000].

Lemma timer_drain_witness :
  fired <$> run demo_known [EvTimeout; EvRun; EvReturn None; EvTimeout; EvRun; EvReturn None] (after sixty_ms) = Some [200; 100] /\
  exists l es s', (forall p, p ∈ l <-> p ∈ demo_known /\ timer_state (mem (after sixty_ms)) p = CL_TIMER_QUEUED) /\
    forallb prov_event es = true /\ run demo_known es (after sixty_ms) = Some s' /\ fired s' = fired (after sixty_ms) ++ l.
Proof.
  split; [vm_compute; reflexivity|].
  assert (Hc : clients (after sixty_ms) = [Ready; Ready; Ready]) by (vm_compute; reflexivity).
  assert (Hp : prov (after sixty_ms) = ProvTimed 200 (TimeSpec 5 10000000)) by (vm_compute; reflexivity).
  destruct (timer_drain demo_known demo_timers demo_queue 2 (TimeVal 5 0) demo_fresh (after sixty_ms))
    as (l & es & s' & H1 & _ & _ & H2 & H3 & H4 & _).
  - apply after_reachable. vm_compute. reflexivity.
  - intros i pc. rewrite Hc. intros Hi. apply list_elem_of_lookup_2 in Hi. set_solver.
  - rewrite Hc. reflexivity.
  - vm_compute. reflexivity.
  - intros p. rewrite Hp. discriminate.
  - assert (Hall : Forall (fun p => nsec (timeout (mem (after sixty_ms)) p) <= usec (clock (after sixty_ms)) * 1000) demo_known) by vm_decide.
    rewrite Forall_forall in Hall. intros p Hin _. apply Hall. exact Hin.
  - exists l, es, s'. split; [exact H1|]. split; [exact H2|]. split; [exact H3|exact H4].
Defined.

(** *** Races *)

(** What does not hold.  A timer that is started anew while the provider, whose
    wait has just ended, has not got the mutex yet is fired at once, here a second
    too early.  [cl_timer_trim] computes the new time again after it has released
    the mutex, so that the timer can be due later than before, here half a second.
    [cl_timer_stop], and so [cl_timer_destroy], does not wait for the callback of
    a timer that has been started anew while it runs.  And of two threads that wait
    for a callback in [cl_timer_stop] only one is woken. *)
Theorem timer_races :
  (s ← run demo_known [EvInit 100 1 1; EvStart 1 100 10; EvRun; EvTick 10000; EvTimeout; EvStart 1 100 1000; EvRun] demo_system;
   Some (fired s, nsec (timeout (mem s) 100) - usec (clock s) * 1000)) = Some ([100], 1000000000) /\
  (s ← run demo_known [EvInit 100 1 1; EvStart 1 100 1000; EvTick 999000; EvTrim 1 100 1; EvTick 500000] demo_system;
   s' ← exec demo_known (EvResume 1) s;
   Some (nsec (timeout (mem s') 100) - nsec (timeout (mem s) 100))) = Some 500000000 /\
  (s ← run demo_known [EvInit 100 1 1; EvStart 1 100 10; EvRun; EvTick 10000; EvTimeout; EvRun; EvStart 0 100 10; EvStop 1 100] demo_system;
   Some (prov s, clients s !! 1%nat)) = Some (ProvCallback 100, Some Ready) /\
  (s ← run demo_known [EvInit 100 1 1; EvStart 1 100 10; EvRun; EvTick 10000; EvTimeout; EvRun; EvStop 1 100; EvStop 2 100;
     EvReturn (Some 1%nat); EvResume 1] demo_system;
   Some (prov s, timer_state (mem s) 100, clients s)) = Some (ProvWait, CL_TIMER_IDLE, [Ready; Ready; InStop 100 false false]).
Proof. split_and!; vm_compute; reflexivity. Qed.
