(* ===== verification/Bytes.v ===== *)
(** * Bytes and buffers

    Integers as the bytes of a little-endian host, network order, and reads and
    writes of buffers that stay inside them. *)

From S2P Require Import Prelude.

Local Open Scope Z_scope.
Local Open Scope list_scope.

Abbreviation bytes := (list Z).

(** The bytes of a 32-bit object on a little-endian host, and back. *)
Definition le32 (x : Z) : bytes :=
  [x mod 256; x / 2 ^ 8 mod 256; x / 2 ^ 16 mod 256; x / 2 ^ 24 mod 256].
Fixpoint of_le (bs : bytes) : Z :=
  match bs with [] => 0 | b :: bs => b + 256 * of_le bs end.

(** The bytes of a 16-bit object. *)
Definition le16 (x : Z) : bytes := [x mod 256; x / 2 ^ 8 mod 256].

(** A 32-bit two's complement integer. *)
Definition int32 (x : Z) : Z := (x + 2 ^ 31) mod 2 ^ 32 - 2 ^ 31.

(** Host to network order and back: the bytes reversed. *)
Definition htonl (x : Z) : Z := of_le (rev (le32 x)).
Definition ntohl (x : Z) : Z := htonl x.

(** Reading [n] bytes at an offset, and writing there: only inside the buffer. *)
Definition read_bytes (buf : bytes) (off n : Z) : option bytes :=
  if decide (0 <= off /\ 0 <= n /\ off + n <= Z.of_nat (length buf))
  then Some (take (Z.to_nat n) (drop (Z.to_nat off) buf)) else None.
Definition write_bytes (buf : bytes) (off : Z) (data : bytes) : option bytes :=
  if decide (0 <= off /\ off + Z.of_nat (length data) <= Z.of_nat (length buf))
  then Some (take (Z.to_nat off) buf ++ data ++ drop (Z.to_nat off + length data) buf) else None.

(** ** Lemmas *)

Definition byte_ok (b : Z) : Prop := 0 <= b < 256.

Lemma le32_ok x : Forall byte_ok (le32 x).
Proof. repeat constructor; apply Z.mod_pos_bound; lia. Qed.

Lemma of_le_le32 x : 0 <= x < 2 ^ 32 -> of_le (le32 x) = x.
Proof.
  intros Hx. cbn -[Z.pow Z.div Z.modulo]. change (2 ^ 8) with 256. change (2 ^ 16) with (256 * 256).
  change (2 ^ 24) with (256 * 256 * 256).
  rewrite <- !Z.div_div by lia. change (2 ^ 32) with (256 * 256 * 256 * 256) in Hx.
  assert (H3 : x / 256 / 256 / 256 < 256) by (repeat apply Z.div_lt_upper_bound; lia).
  assert (0 <= x / 256 / 256 / 256) by (repeat apply Z.div_pos; lia).
  rewrite (Z.mod_small (x / 256 / 256 / 256)) by lia.
  pose proof (Z.div_mod x 256). pose proof (Z.div_mod (x / 256) 256).
  pose proof (Z.div_mod (x / 256 / 256) 256). lia.
Qed.

Lemma le32_of_le a b c d :
  Forall byte_ok [a; b; c; d] -> le32 (of_le [a; b; c; d]) = [a; b; c; d].
Proof.
  rewrite !Forall_cons. unfold byte_ok. intros (Ha & Hb & Hc & Hd & _).
  cbn -[Z.pow Z.div Z.modulo Z.mul Z.add]. unfold le32.
  change (2 ^ 8) with 256. change (2 ^ 16) with (256 * 256). change (2 ^ 24) with (256 * 256 * 256).
  rewrite <- !Z.div_div by lia.
  assert (Hdiv : forall x y, 0 <= x < 256 -> (x + 256 * y) / 256 = y).
  { intros x y Hx. rewrite Z.mul_comm, Z.div_add, Z.div_small by lia. lia. }
  assert (Hmod : forall x y, 0 <= x < 256 -> (x + 256 * y) mod 256 = x).
  { intros x y Hx. rewrite Z.mul_comm, Z.mod_add, Z.mod_small by lia. lia. }
  rewrite !Hdiv by lia. rewrite !Hmod by lia. done.
Qed.

Lemma of_le_range bs : Forall byte_ok bs -> 0 <= of_le bs < 256 ^ Z.of_nat (length bs).
Proof.
  induction 1 as [|b bs Hb _ IH]; [cbn; lia|]. cbn [of_le length]. unfold byte_ok in Hb.
  rewrite Nat2Z.inj_succ, Z.pow_succ_r by lia. lia.
Qed.

Lemma htonl_range x : 0 <= htonl x < 2 ^ 32.
Proof. apply (of_le_range (rev (le32 x))). apply Forall_rev, le32_ok. Qed.

(** What is stored in memory for a value in network order: its bytes, the most
    significant first. *)
Lemma le32_htonl x : le32 (htonl x) = rev (le32 x).
Proof. apply le32_of_le. change (Forall byte_ok (rev (le32 x))). apply Forall_rev, le32_ok. Qed.

Lemma ntohl_htonl x : 0 <= x < 2 ^ 32 -> ntohl (htonl x) = x.
Proof. intros. unfold ntohl. unfold htonl at 1. rewrite le32_htonl, rev_involutive. by apply of_le_le32. Qed.

Lemma int32_small x : - 2 ^ 31 <= x < 2 ^ 31 -> int32 x = x.
Proof. intros. unfold int32. rewrite Z.mod_small by lia. lia. Qed.

Lemma of_le_le32_signed x : - 2 ^ 31 <= x < 2 ^ 31 -> int32 (of_le (le32 x)) = x.
Proof.
  intros Hx. assert (E : le32 x = le32 (x mod 2 ^ 32)).
  { unfold le32. change (2 ^ 32) with (256 * 256 * 256 * 256). change (2 ^ 24) with (256 * 256 * 256).
    change (2 ^ 16) with (256 * 256). change (2 ^ 8) with 256. pose proof (Z.div_mod x (256 * 256 * 256 * 256)) as Hd.
    set (q := x / (256 * 256 * 256 * 256)) in *. set (r := x mod (256 * 256 * 256 * 256)) in *.
    rewrite Hd by lia. clearbody q r. clear.
    repeat apply (f_equal2 cons); try done.
    - replace (256 * 256 * 256 * 256 * q + r) with (r + 256 * 256 * 256 * q * 256) by lia. by rewrite Z.mod_add by lia.
    - replace (256 * 256 * 256 * 256 * q + r) with (r + 256 * 256 * 256 * q * 256) by lia.
      rewrite Z.div_add by lia. replace (256 * 256 * 256 * q) with (256 * 256 * q * 256) by lia. by rewrite Z.mod_add by lia.
    - replace (256 * 256 * 256 * 256 * q + r) with (r + 256 * 256 * q * (256 * 256)) by lia.
      rewrite Z.div_add by lia. replace (256 * 256 * q) with (256 * q * 256) by lia. by rewrite Z.mod_add by lia.
    - replace (256 * 256 * 256 * 256 * q + r) with (r + 256 * q * (256 * 256 * 256)) by lia.
      rewrite Z.div_add by lia. replace (256 * q) with (q * 256) by lia. by rewrite Z.mod_add by lia. }
  rewrite E, of_le_le32 by (apply Z.mod_pos_bound; lia). unfold int32.
  rewrite Zplus_mod_idemp_l, Z.mod_small by lia. lia.
Qed.

(** ** Reading and writing buffers *)

Lemma read_bytes_eq buf off n :
  0 <= off -> 0 <= n -> off + n <= Z.of_nat (length buf) ->
  read_bytes buf off n = Some (take (Z.to_nat n) (drop (Z.to_nat off) buf)).
Proof. intros. unfold read_bytes. by rewrite decide_True. Qed.

Lemma write_bytes_eq buf off data :
  0 <= off -> off + Z.of_nat (length data) <= Z.of_nat (length buf) ->
  write_bytes buf off data
  = Some (take (Z.to_nat off) buf ++ data ++ drop (Z.to_nat off + length data) buf).
Proof. intros. unfold write_bytes. by rewrite decide_True. Qed.

Lemma take_plus {A} n m (l : list A) : take (n + m) l = take n l ++ take m (drop n l).
Proof.
  rewrite take_drop_commute. rewrite <- (take_drop n (take (n + m) l)) at 1.
  by rewrite take_take, Nat.min_l by lia.
Qed.

(** A buffer after a write, before and after the place written. *)
Lemma write_further {A} t n (ds buf : list A) :
  (t + length ds <= n)%nat -> (n <= length buf)%nat ->
  take (t + length ds) (take t buf ++ ds ++ drop (t + length ds) buf) = take t buf ++ ds /\
  drop n (take t buf ++ ds ++ drop (t + length ds) buf) = drop n buf.
Proof.
  intros H1 H2. rewrite (assoc_L (++)).
  assert (Hl : length (take t buf ++ ds) = (t + length ds)%nat) by (rewrite length_app, length_take; lia).
  split; [by rewrite take_app_length'|].
  rewrite drop_app_ge by lia. rewrite Hl, drop_drop. f_equal. lia.
Qed.

