(* ===== verification/CommuDb.v ===== *)
(** * Communication library: the connection database ([lib_commu_db.c])

    Fixed-size tables of open handles: UDP sessions, TCP connections opened as a
    client, TCP connections accepted by each server, the status of each server
    and its clients, and the listener threads.  One mutex protects some of the
    operations.  Every function is a computation over the whole database that
    yields an [errno] value (0 for success); a computation has no result when it
    would index a table out of its bounds or wait for the mutex it holds itself. *)

From S2P Require Import Prelude.
From stdpp Require Import strings.

Local Open Scope Z_scope.
Local Open Scope list_scope.

(** ** Data *)

Definition EPERM : Z := 1.
Definition EIO : Z := 5.
Definition EINVAL : Z := 22.
Definition EBADE : Z := 52.
Definition EOVERFLOW : Z := 75.
Definition ECONNRESET : Z := 104.
Definition ENOBUFS : Z := 105.
Definition ENOTCONN : Z := 107.
Definition ENOKEY : Z := 126.

Definition UDP_HANDLE_ARR_LENGTH : nat := 16.
Definition TCP_HANDLE_ARR_LENGTH : nat := 16.
Definition NUM_OF_LISTENER_THREADS : nat := 16.
Definition SERVER_STATUS_ARR_LENGTH : nat := NUM_OF_LISTENER_THREADS.
Definition MAX_CONNECTION_NUM : nat := 16.
Definition INVALID_HANDLE_ID : Z := -1.
Definition INVALID_MAGIC : Z := 2 ^ 32 - 1.
Definition INVALID_SERVER_ID : nat := SERVER_STATUS_ARR_LENGTH + 1.
Definition HANDLE_STATUS_DOWN : Z := 0.
Definition HANDLE_STATUS_UP : Z := 1.
Definition LCOMMU_VERBOSITY_LEVEL_MIN : Z := 0.
Definition LCOMMU_VERBOSITY_LEVEL_MAX : Z := 7.

Inductive db_type :=
| UDP_HANDLE_DB
| TCP_CLIENT_HANDLE_DB
| TCP_SERVER_HANDLE_DB
| TCP_SERVER_STATUS_HANDLE_DB
| LISTENER_THREAD_DB
| ANY_HANLDE_DB.

#[export] Instance db_type_eq_dec : EqDecision db_type.
Proof. solve_decision. Defined.

Record addr_info := AddrInfo { ipv4_addr : Z; port : Z }.

Record connection_info := ConnInfo {
  s_ipv4_addr : Z; s_port : Z; d_ipv4_addr : Z; d_port : Z; msg_type : Z }.

Record socket_connection_info := SockInfo {
  socket : Z; state : Z; is_single_peer : Z; local_magic : Z; peer_magic : Z;
  total_sum_bytes_rx : Z; total_sum_bytes_tx : Z }.

Record handle_info := HandleInfo {
  handle : Z; conn_info : connection_info; socekt_info : socket_connection_info }.

Record connection_status := ConnStatus {
  cs_handle : Z; handle_status : Z; local_ipv4_addr : Z; local_port : Z;
  peer_ipv4_addr : Z; peer_port : Z }.

Record server_status := ServerStatus {
  clients_num : Z; client_status : list connection_status;
  listener_handle : Z; listener_status : Z }.

Record session_params := SessionParams { sp_port : Z; sp_s_ipv4_addr : Z; sp_msg_type : Z }.
Record ip_udp_params := IpUdpParams {
  ip_session_params : session_params; connection_role : Z; ip_is_single_peer : Z }.

(** The static variables of the module, the listener thread table and the exit
    event table it shares with [lib_commu.c], and whether the mutex is held. *)
Record db := Db {
  udp_handle_info : list handle_info;
  client_tcp_handle_info : list handle_info;
  server_tcp_handle_info : list (list handle_info);
  server_status_st : list server_status;
  listener_threads : list Z;
  event_fd : list Z;
  event_socket_path : list string;
  db_locked : bool;
  db_verbosity : Z }.

#[export] Instance addr_info_eq_dec : EqDecision addr_info.
Proof. solve_decision. Defined.
#[export] Instance connection_info_eq_dec : EqDecision connection_info.
Proof. solve_decision. Defined.
#[export] Instance socket_connection_info_eq_dec : EqDecision socket_connection_info.
Proof. solve_decision. Defined.
#[export] Instance handle_info_eq_dec : EqDecision handle_info.
Proof. solve_decision. Defined.
#[export] Instance connection_status_eq_dec : EqDecision connection_status.
Proof. solve_decision. Defined.
#[export] Instance server_status_eq_dec : EqDecision server_status.
Proof. solve_decision. Defined.

Definition set_udp (d : db) v : db :=
  Db v (client_tcp_handle_info d) (server_tcp_handle_info d) (server_status_st d)
    (listener_threads d) (event_fd d) (event_socket_path d) (db_locked d) (db_verbosity d).
Definition set_client (d : db) v : db :=
  Db (udp_handle_info d) v (server_tcp_handle_info d) (server_status_st d)
    (listener_threads d) (event_fd d) (event_socket_path d) (db_locked d) (db_verbosity d).
Definition set_server (d : db) v : db :=
  Db (udp_handle_info d) (client_tcp_handle_info d) v (server_status_st d)
    (listener_threads d) (event_fd d) (event_socket_path d) (db_locked d) (db_verbosity d).
Definition set_status (d : db) v : db :=
  Db (udp_handle_info d) (client_tcp_handle_info d) (server_tcp_handle_info d) v
    (listener_threads d) (event_fd d) (event_socket_path d) (db_locked d) (db_verbosity d).
Definition set_exit_events (d : db) fds paths : db :=
  Db (udp_handle_info d) (client_tcp_handle_info d) (server_tcp_handle_info d) (server_status_st d)
    (listener_threads d) fds paths (db_locked d) (db_verbosity d).
Definition set_locked (d : db) b : db :=
  Db (udp_handle_info d) (client_tcp_handle_info d) (server_tcp_handle_info d) (server_status_st d)
    (listener_threads d) (event_fd d) (event_socket_path d) b (db_verbosity d).
Definition set_verbosity (d : db) v : db :=
  Db (udp_handle_info d) (client_tcp_handle_info d) (server_tcp_handle_info d) (server_status_st d)
    (listener_threads d) (event_fd d) (event_socket_path d) (db_locked d) v.

(** The contents of a cleared structure, and of one marked unused. *)
Definition handle_info0 : handle_info :=
  HandleInfo 0 (ConnInfo 0 0 0 0 0) (SockInfo 0 0 0 0 0 0 0).
Definition unused_handle_info : handle_info :=
  HandleInfo INVALID_HANDLE_ID (ConnInfo 0 0 0 0 0) (SockInfo 0 0 0 0 INVALID_MAGIC 0 0).
Definition unused_client : connection_status := ConnStatus INVALID_HANDLE_ID 0 0 0 0 0.
Definition unused_server : server_status :=
  ServerStatus 0 (replicate MAX_CONNECTION_NUM unused_client) INVALID_HANDLE_ID 0.

(** ** Computations on the database *)

Definition M (A : Type) : Type := db -> option (A * db).

#[export] Instance M_ret : MRet M := fun _ a d => Some (a, d).
#[export] Instance M_bind : MBind M := fun _ _ k c d =>
  match c d with Some (a, d) => k a d | None => None end.

Definition gets {A} (f : db -> A) : M A := fun d => Some (f d, d).
Definition modify (f : db -> db) : M unit := fun d => Some (tt, f d).
(** An array access: no result out of bounds. *)
Definition index {A} (l : list A) (i : nat) : M A :=
  fun d => match l !! i with Some x => Some (x, d) | None => None end.

(** [lib_commu_bail_error]: leave with the error unless it is 0. *)
Definition bail_error (c : M Z) (k : M Z) : M Z :=
  err ← c; if err =? 0 then k else mret err.
Notation "c '>>?' k" := (bail_error c k) (at level 100, k at level 200, right associativity) : c_scope.

(** The first position that satisfies a test: the search loops. *)
Fixpoint first_index {A} (f : A -> bool) (l : list A) : option nat :=
  match l with
  | [] => None
  | x :: l => if f x then Some 0%nat else S <$> first_index f l
  end.

Definition has_handle (h : Z) (x : handle_info) : bool := bool_decide (handle x = h).
Definition has_client (h : Z) (x : connection_status) : bool := bool_decide (cs_handle x = h).

Definition index_or (err : Z) (o : option nat) : Z + nat :=
  match o with Some i => inr i | None => inl err end.

Definition find_empty_slot (type : db_type) (server_idx : nat) : M (Z + nat) :=
  match type with
  | UDP_HANDLE_DB =>
      t ← gets udp_handle_info;
      mret (index_or ENOBUFS (first_index (has_handle INVALID_HANDLE_ID) t))
  | TCP_CLIENT_HANDLE_DB =>
      t ← gets client_tcp_handle_info;
      mret (index_or ENOBUFS (first_index (has_handle INVALID_HANDLE_ID) t))
  | TCP_SERVER_HANDLE_DB =>
      ts ← gets server_tcp_handle_info; t ← index ts server_idx;
      mret (index_or ENOBUFS (first_index (has_handle INVALID_HANDLE_ID) t))
  | TCP_SERVER_STATUS_HANDLE_DB =>
      ss ← gets server_status_st; s ← index ss server_idx;
      mret (index_or ENOBUFS (first_index (has_client INVALID_HANDLE_ID) (client_status s)))
  | LISTENER_THREAD_DB =>
      t ← gets listener_threads;
      mret (index_or ENOBUFS (first_index (fun x => bool_decide (x = 0)) t))
  | ANY_HANLDE_DB => mret (inl EINVAL)
  end.

Definition find_handle_idx (handle_type : db_type) (server_id : nat) (h : Z) : M (Z + nat) :=
  match handle_type with
  | UDP_HANDLE_DB =>
      t ← gets udp_handle_info; mret (index_or ENOKEY (first_index (has_handle h) t))
  | TCP_SERVER_STATUS_HANDLE_DB =>
      ss ← gets server_status_st; s ← index ss server_id;
      mret (index_or ENOKEY (first_index (has_client h) (client_status s)))
  | _ => mret (inl EPERM)
  end.

Definition reset_handle_db (handle_type : db_type) (server_id : nat) : M Z :=
  match handle_type with
  | UDP_HANDLE_DB =>
      modify (fun d => set_udp d (replicate UDP_HANDLE_ARR_LENGTH unused_handle_info));; mret 0
  | TCP_CLIENT_HANDLE_DB =>
      modify (fun d => set_client d (replicate TCP_HANDLE_ARR_LENGTH unused_handle_info));; mret 0
  | TCP_SERVER_HANDLE_DB =>
      ts ← gets server_tcp_handle_info; index ts server_id;;
      modify (fun d => set_server d
        (<[server_id := replicate TCP_HANDLE_ARR_LENGTH unused_handle_info]> ts));; mret 0
  | _ => mret EPERM
  end.

Definition reset_server_status (idx : nat) : M Z :=
  ss ← gets server_status_st; index ss idx;;
  modify (fun d => set_status d (<[idx := unused_server]> ss));; mret 0.

(** The loop over the servers, from the given one on. *)
Fixpoint reset_servers_loop (n i : nat) : M Z :=
  match n with
  | O => mret 0
  | S n =>
      reset_server_status i >>?
      reset_handle_db TCP_SERVER_HANDLE_DB i >>?
      reset_servers_loop n (S i)
  end.

Definition reset_all_tcp_servers_status_db : M Z := reset_servers_loop SERVER_STATUS_ARR_LENGTH 0.

Definition exit_listener_thread_socket_path : list string :=
  ["/tmp/lib_commu_sock_path_0"; "/tmp/lib_commu_sock_path_1"; "/tmp/lib_commu_sock_path_2";
   "/tmp/lib_commu_sock_path_3"; "/tmp/lib_commu_sock_path_4"; "/tmp/lib_commu_sock_path_5";
   "/tmp/lib_commu_sock_path_6"; "/tmp/lib_commu_sock_path_7"; "/tmp/lib_commu_sock_path_8";
   "/tmp/lib_commu_sock_path_9"; "/tmp/lib_commu_sock_path_10"; "/tmp/lib_commu_sock_path_11";
   "/tmp/lib_commu_sock_path_12"; "/tmp/lib_commu_sock_path_13"; "/tmp/lib_commu_sock_path_14";
   "/tmp/lib_commu_sock_path_15"]%string.

(** [memset] with the byte -1 makes every descriptor -1. *)
Definition init_listner_exit_event_info : M Z :=
  modify (fun d => set_exit_events d (replicate NUM_OF_LISTENER_THREADS INVALID_HANDLE_ID)
    exit_listener_thread_socket_path);;
  mret 0.

(** ** Initialisation *)

Definition lib_commu_db_udp_session_db_init : M Z :=
  reset_handle_db UDP_HANDLE_DB INVALID_SERVER_ID.
Definition lib_commu_db_udp_session_db_deinit : M Z :=
  reset_handle_db UDP_HANDLE_DB INVALID_SERVER_ID.

Definition lib_commu_db_tcp_all_session_db_init : M Z :=
  reset_all_tcp_servers_status_db >>?
  reset_handle_db TCP_CLIENT_HANDLE_DB INVALID_SERVER_ID >>?
  init_listner_exit_event_info.

Definition lib_commu_db_tcp_all_session_db_deinit : M Z :=
  reset_all_tcp_servers_status_db >>?
  reset_handle_db TCP_CLIENT_HANDLE_DB INVALID_SERVER_ID.

Definition lib_commu_db_tcp_session_db_deinit (server_id : nat) : M Z :=
  reset_server_status server_id >>?
  reset_handle_db TCP_SERVER_HANDLE_DB server_id.

(** The results of [pthread_mutex_init] and [pthread_mutex_destroy] are never
    negative, so their tests never succeed; a fresh mutex is free. *)
Definition lib_commu_db_mutex_init : M Z := modify (fun d => set_locked d false);; mret 0.
Definition lib_commu_db_mutex_deinit : M Z := mret 0.

Definition lib_commu_db_init : M Z :=
  lib_commu_db_udp_session_db_init >>?
  lib_commu_db_tcp_all_session_db_init >>?
  lib_commu_db_mutex_init.

Definition lib_commu_db_deinit : M Z :=
  lib_commu_db_udp_session_db_deinit >>?
  lib_commu_db_tcp_all_session_db_deinit >>?
  lib_commu_db_mutex_deinit.

Definition comm_lib_db_verbosity_level_set (verbosity : Z) : M Z :=
  if decide (LCOMMU_VERBOSITY_LEVEL_MIN < verbosity /\ verbosity <= LCOMMU_VERBOSITY_LEVEL_MAX)
  then modify (fun d => set_verbosity d verbosity);; mret 0
  else mret EINVAL.

(** ** Entries *)

(** The address of an entry of the handle tables. *)
Inductive slot := UdpSlot (i : nat) | ClientSlot (i : nat) | ServerSlot (j i : nat).

#[export] Instance slot_eq_dec : EqDecision slot.
Proof. solve_decision. Defined.

Definition slot_get (d : db) (s : slot) : option handle_info :=
  match s with
  | UdpSlot i => udp_handle_info d !! i
  | ClientSlot i => client_tcp_handle_info d !! i
  | ServerSlot j i => t ← server_tcp_handle_info d !! j; t !! i
  end.

Definition slot_set (d : db) (s : slot) (x : handle_info) : db :=
  match s with
  | UdpSlot i => set_udp d (<[i := x]> (udp_handle_info d))
  | ClientSlot i => set_client d (<[i := x]> (client_tcp_handle_info d))
  | ServerSlot j i => set_server d (alter <[i := x]> j (server_tcp_handle_info d))
  end.

Definition slot_load (s : slot) : M handle_info :=
  fun d => match slot_get d s with Some x => Some (x, d) | None => None end.
Definition slot_store (s : slot) (x : handle_info) : M unit := modify (fun d => slot_set d s x).

(** Where [lib_commu_db_hanlde_info_get] finds a handle: client connections, then
    the connections of the servers that have clients, then UDP sessions.  A
    search restricted to one table stops after it. *)
Fixpoint find_in_servers (h : Z) (j : nat) (ss : list server_status) (ts : list (list handle_info))
    : option slot :=
  match ss, ts with
  | s :: ss, t :: ts =>
      if decide (clients_num s > 0) then
        match first_index (has_handle h) t with
        | Some i => Some (ServerSlot j i)
        | None => find_in_servers h (S j) ss ts
        end
      else find_in_servers h (S j) ss ts
  | _, _ => None
  end.

Definition find_client (d : db) (h : Z) : option slot :=
  ClientSlot <$> first_index (has_handle h) (client_tcp_handle_info d).
Definition find_server (d : db) (h : Z) : option slot :=
  find_in_servers h 0 (server_status_st d) (server_tcp_handle_info d).
Definition find_udp (d : db) (h : Z) : option slot :=
  UdpSlot <$> first_index (has_handle h) (udp_handle_info d).

(** The error, or the entry and the table it was found in. *)
Definition lib_commu_db_hanlde_info_get (h : Z) (handle_db_type : db_type)
    : M (Z + slot * db_type) :=
  d ← gets id;
  mret match handle_db_type with
  | ANY_HANLDE_DB =>
      match find_client d h with
      | Some s => inr (s, TCP_CLIENT_HANDLE_DB)
      | None =>
          match find_server d h with
          | Some s => inr (s, TCP_SERVER_HANDLE_DB)
          | None =>
              match find_udp d h with
              | Some s => inr (s, UDP_HANDLE_DB)
              | None => inl EINVAL
              end
          end
      end
  | TCP_CLIENT_HANDLE_DB =>
      match find_client d h with Some s => inr (s, TCP_CLIENT_HANDLE_DB) | None => inl ENOKEY end
  | TCP_SERVER_HANDLE_DB =>
      match find_server d h with Some s => inr (s, TCP_SERVER_HANDLE_DB) | None => inl ENOKEY end
  | UDP_HANDLE_DB =>
      match find_udp d h with Some s => inr (s, UDP_HANDLE_DB) | None => inl ENOKEY end
  | TCP_SERVER_STATUS_HANDLE_DB | LISTENER_THREAD_DB => inl EINVAL
  end.

(** ** Operations under the mutex *)

Section Mutex.
(** What [pthread_mutex_lock] and [pthread_mutex_unlock] return: 0 or an error
    number, in which case the mutex is left as it is. *)
Variables lock_ret unlock_ret : Z.

(** Locking a mutex one holds never returns. *)
Definition mutex_lock : M Z := fun d =>
  if db_locked d then None
  else if lock_ret =? 0 then Some (0, set_locked d true) else Some (lock_ret, d).
Definition mutex_unlock : M Z := fun d =>
  if unlock_ret =? 0 then Some (0, set_locked d false) else Some (unlock_ret, d).

(** The end of a function that holds the mutex: [err] becomes the result of the
    unlock. *)
Definition unlock_and_return : M Z := mutex_unlock.

Definition handle_info_set (handle_type : db_type) (server_id : nat) (h : Z) (msg_type : Z)
    (local_info peer_info : addr_info) (is_single_peer local_magic : Z) : M Z :=
  mutex_lock >>?
  found ← find_empty_slot handle_type server_id;
  match found with
  | inl _ => unlock_and_return
  | inr idx =>
      let target :=
        match handle_type with
        | UDP_HANDLE_DB => Some (UdpSlot idx)
        | TCP_CLIENT_HANDLE_DB => Some (ClientSlot idx)
        | TCP_SERVER_HANDLE_DB => Some (ServerSlot server_id idx)
        | _ => None
        end in
      match target with
      | None => unlock_and_return
      | Some s =>
          old ← slot_load s;
          slot_store s (HandleInfo h
            (ConnInfo (ipv4_addr local_info) (port local_info) (ipv4_addr peer_info) (port peer_info)
               (u8 msg_type))
            (SockInfo h (state (socekt_info old)) (u8 is_single_peer) local_magic INVALID_MAGIC 0 0));;
          err ← mutex_unlock;
          if err =? 0 then mret 0 else unlock_and_return
      end
  end.

Definition lib_commu_db_udp_handle_info_set (h : Z) (params : ip_udp_params) (local_magic : Z) : M Z :=
  let local_info := AddrInfo (sp_port (ip_session_params params)) (sp_port (ip_session_params params)) in
  handle_info_set UDP_HANDLE_DB INVALID_SERVER_ID h (sp_msg_type (ip_session_params params))
    local_info (AddrInfo 0 0) (ip_is_single_peer params) local_magic.

Definition lib_commu_db_tcp_server_handle_info_set (server_id : nat) (h msg_type : Z)
    (local_info peer_info : addr_info) (local_magic : Z) : M Z :=
  handle_info_set TCP_SERVER_HANDLE_DB server_id h msg_type local_info peer_info 1 local_magic.

Definition lib_commu_db_tcp_client_handle_info_set (h msg_type : Z)
    (local_info peer_info : addr_info) (local_magic : Z) : M Z :=
  handle_info_set TCP_CLIENT_HANDLE_DB INVALID_SERVER_ID h msg_type local_info peer_info 1 local_magic.

Definition lib_commu_db_udp_handle_info_delete (h : Z) : M Z :=
  found ← find_handle_idx UDP_HANDLE_DB INVALID_SERVER_ID h;
  match found with
  | inl err => mret err
  | inr idx =>
      mutex_lock >>?
      slot_store (UdpSlot idx) unused_handle_info;;
      unlock_and_return
  end.

(** Forget a client of a server: the part of the deletion that updates the
    server's status.  Its error does not reach the caller. *)
Definition server_client_forget (server_id : nat) (h : Z) : M unit :=
  ss ← gets server_status_st; s ← index ss server_id;
  if decide (clients_num s > 0) then
    let s := ServerStatus (clients_num s - 1) (client_status s) (listener_handle s) (listener_status s) in
    modify (fun d => set_status d (<[server_id := s]> ss));;
    found ← find_handle_idx TCP_SERVER_STATUS_HANDLE_DB server_id h;
    match found with
    | inl _ => mret tt
    | inr idx =>
        let s := ServerStatus (clients_num s) (<[idx := unused_client]> (client_status s))
                   (listener_handle s) (listener_status s) in
        modify (fun d => set_status d (<[server_id := s]> ss))
    end
  else mret tt.

Definition lib_commu_db_tcp_handle_info_delete (h : Z) : M Z :=
  mutex_lock >>?
  found ← lib_commu_db_hanlde_info_get h ANY_HANLDE_DB;
  match found with
  | inl _ => unlock_and_return
  | inr (s, handle_db_type) =>
      match handle_db_type, s with
      | TCP_CLIENT_HANDLE_DB, _ =>
          slot_store s unused_handle_info;;
          unlock_and_return
      | TCP_SERVER_HANDLE_DB, ServerSlot server_id _ =>
          slot_store s unused_handle_info;;
          server_client_forget server_id h;;
          unlock_and_return
      | _, _ => unlock_and_return
      end
  end.

(** ** Operations without the mutex *)

Definition lib_commu_db_server_status_listener_set (server_id : nat) (lh is_enabled : Z) : M Z :=
  ss ← gets server_status_st; s ← index ss server_id;
  modify (fun d => set_status d
    (<[server_id := ServerStatus (clients_num s) (client_status s) lh (u8 is_enabled)]> ss));;
  mret 0.

(** [clientaddr] is given by its address and port. *)
Definition lib_cummo_db_server_status_client_set (h : Z) (clientaddr : addr_info)
    (s_ipv4 s_prt : Z) (server_idx : nat) : M Z :=
  found ← find_empty_slot TCP_SERVER_STATUS_HANDLE_DB server_idx;
  match found with
  | inl err => mret err
  | inr idx =>
      ss ← gets server_status_st; s ← index ss server_idx;
      let c := ConnStatus h HANDLE_STATUS_UP s_ipv4 s_prt (ipv4_addr clientaddr) (port clientaddr) in
      modify (fun d => set_status d
        (<[server_idx := ServerStatus (u32 (clients_num s + 1)) (<[idx := c]> (client_status s))
             (listener_handle s) (listener_status s)]> ss));;
      mret 0
  end.

(** How the listener thread of [lib_commu.c] enters an accepted connection: its
    local address is left with the port in place of the address. *)
Definition listener_register (server_id : nat) (new_sock : Z) (params : session_params)
    (client_addr : addr_info) (local_magic : Z) : M Z :=
  let local_addr_info := AddrInfo (sp_port params) 0 in
  lib_commu_db_tcp_server_handle_info_set server_id new_sock (sp_msg_type params)
    local_addr_info client_addr local_magic >>?
  lib_cummo_db_server_status_client_set new_sock client_addr (sp_s_ipv4_addr params)
    (sp_port params) server_id.

(** [getpeername] on a handle: its result and the [errno] it leaves. *)
Variable getpeername : Z -> Z * Z.

(** The status of the clients, up to the first unexpected error. *)
Fixpoint refresh_clients (cs : list connection_status) : Z * list connection_status :=
  match cs with
  | [] => (0, [])
  | c :: cs =>
      if decide (cs_handle c = INVALID_HANDLE_ID) then
        let '(err, cs) := refresh_clients cs in (err, c :: cs)
      else
        let '(peer_err, errno) := getpeername (cs_handle c) in
        let with_status st :=
          ConnStatus (cs_handle c) st (local_ipv4_addr c) (local_port c) (peer_ipv4_addr c) (peer_port c) in
        if decide (peer_err <> 0) then
          if decide (errno = ENOTCONN) then
            let '(err, cs) := refresh_clients cs in (err, with_status HANDLE_STATUS_DOWN :: cs)
          else (peer_err, c :: cs)
        else let '(err, cs) := refresh_clients cs in (err, with_status HANDLE_STATUS_UP :: cs)
  end.

(** The error, or the index of the server whose status is returned. *)
Definition lib_commu_db_tcp_server_status_get (out_is_null : bool) (server_idx : nat) : M (Z + nat) :=
  if out_is_null then mret (inl EINVAL)
  else if decide (SERVER_STATUS_ARR_LENGTH <= server_idx)%nat then mret (inl ENOKEY)
  else
    ss ← gets server_status_st; s ← index ss server_idx;
    let '(err, cs) := refresh_clients (client_status s) in
    modify (fun d => set_status d
      (<[server_idx := ServerStatus (clients_num s) cs (listener_handle s) (listener_status s)]> ss));;
    if err =? 0 then mret (inr server_idx) else mret (inl err).

Definition lib_commu_db_unoccupied_listener_thread_get (idx_is_null : bool) : M (Z + nat) :=
  if idx_is_null then mret (inl EINVAL)
  else find_empty_slot LISTENER_THREAD_DB INVALID_SERVER_ID.

(** [total += n] on [unsigned long long]. *)
Definition add_rx (x : handle_info) (n : Z) : handle_info :=
  let i := socekt_info x in
  HandleInfo (handle x) (conn_info x)
    (SockInfo (socket i) (state i) (is_single_peer i) (local_magic i) (peer_magic i)
       (u64 (total_sum_bytes_rx i + n)) (total_sum_bytes_tx i)).
Definition add_tx (x : handle_info) (n : Z) : handle_info :=
  let i := socekt_info x in
  HandleInfo (handle x) (conn_info x)
    (SockInfo (socket i) (state i) (is_single_peer i) (local_magic i) (peer_magic i)
       (total_sum_bytes_rx i) (u64 (total_sum_bytes_tx i + n))).

Definition handle_total_rx_update (h : Z) (handle_db_type : db_type) (rx_bytes : Z) : M Z :=
  found ← lib_commu_db_hanlde_info_get h handle_db_type;
  match found with
  | inl err => mret err
  | inr (s, _) => x ← slot_load s; slot_store s (add_rx x rx_bytes);; mret 0
  end.

Definition handle_total_tx_update (h : Z) (handle_db_type : db_type) (tx_bytes : Z) : M Z :=
  found ← lib_commu_db_hanlde_info_get h handle_db_type;
  match found with
  | inl err => mret err
  | inr (s, _) => x ← slot_load s; slot_store s (add_tx x tx_bytes);; mret 0
  end.
End Mutex.

(** ** Search lemmas *)

Section FirstIndex.
Context {A : Type}.
Implicit Types (f : A -> bool) (l : list A).

Lemma first_index_some f l i :
  first_index f l = Some i <->
  exists l1 x l2, l = l1 ++ x :: l2 /\ length l1 = i /\ f x = true /\ (forall y, y ∈ l1 -> f y = false).
Proof.
  revert i. induction l as [|a l IH]; intros i; cbn.
  - split; [done|]. intros (l1 & x & l2 & H & _). by destruct l1.
  - destruct (f a) eqn:Ea.
    + split.
      * intros [= <-]. exists [], a, l. split_and!; try done. set_solver.
      * intros (l1 & x & l2 & H & <- & Hx & Hb). destruct l1 as [|b l1]; [done|].
        injection H as -> ->. rewrite (Hb b) in Ea by set_solver. done.
    + rewrite fmap_Some. setoid_rewrite IH. split.
      * intros (k & (l1 & x & l2 & -> & <- & Hx & Hb) & ->). exists (a :: l1), x, l2. cbn. set_solver.
      * intros (l1 & x & l2 & H & <- & Hx & Hb). destruct l1 as [|b l1]; cbn in H.
        { injection H as -> ->. congruence. }
        injection H as -> ->. exists (length l1). split; [|done]. exists l1, x, l2. set_solver.
Qed.

Lemma first_index_none f l : first_index f l = None <-> forall x, x ∈ l -> f x = false.
Proof.
  induction l as [|a l IH]; cbn; [set_solver|]. destruct (f a) eqn:Ea.
  - split; [done|]. intros H. rewrite H in Ea by set_solver. done.
  - rewrite fmap_None, IH. set_solver.
Qed.

Lemma first_index_lookup f l i : first_index f l = Some i -> exists x, l !! i = Some x /\ f x = true.
Proof.
  rewrite first_index_some. intros (l1 & x & l2 & -> & <- & Hx & _). exists x.
  by rewrite list_lookup_middle.
Qed.

(** Overwriting the element found by one search, as seen by another. *)
Lemma first_index_insert f l i y :
  (i < length l)%nat -> f y = true -> (forall x, x ∈ l -> f x = false) ->
  first_index f (<[i := y]> l) = Some i.
Proof.
  intros Hi Hy Hn. apply first_index_some. exists (take i l), y, (drop (S i) l).
  rewrite length_take_le by lia. split_and!; [|done|done|].
  - by apply insert_take_drop.
  - intros x Hx. apply Hn. rewrite <- (take_drop i l). set_solver.
Qed.

Lemma first_index_insert_none f l i y :
  f y = false -> first_index f l = None -> first_index f (<[i := y]> l) = None.
Proof.
  rewrite !first_index_none. intros Hy Hn x Hx. apply list_elem_of_lookup in Hx as [k Hk].
  apply list_lookup_insert_Some in Hk as [(_ & <- & _)|(_ & Hk)]; [done|]. by eapply Hn, list_elem_of_lookup_2.
Qed.
End FirstIndex.

(** ** The results of the operations, when the mutex calls succeed *)

(** The handles in use among those of a table. *)
Definition used (ks : list Z) : list Z := filterb (fun k => negb (bool_decide (k = INVALID_HANDLE_ID))) ks.

(** The table a handle type names, and its entries' addresses. *)
Definition table (d : db) (ty : db_type) (j : nat) : option (list handle_info) :=
  match ty with
  | UDP_HANDLE_DB => Some (udp_handle_info d)
  | TCP_CLIENT_HANDLE_DB => Some (client_tcp_handle_info d)
  | TCP_SERVER_HANDLE_DB => server_tcp_handle_info d !! j
  | _ => None
  end.

Definition slot_of (ty : db_type) (j i : nat) : slot :=
  match ty with
  | UDP_HANDLE_DB => UdpSlot i
  | TCP_SERVER_HANDLE_DB => ServerSlot j i
  | _ => ClientSlot i
  end.

(** What a call stores about a new handle. *)
Definition new_entry (h mt : Z) (l p : addr_info) (single magic : Z) (st : Z) : handle_info :=
  HandleInfo h (ConnInfo (ipv4_addr l) (port l) (ipv4_addr p) (port p) (u8 mt))
    (SockInfo h st (u8 single) magic INVALID_MAGIC 0 0).

Lemma slot_get_table d ty j t i :
  table d ty j = Some t -> slot_get d (slot_of ty j i) = t !! i.
Proof. destruct ty; intros H; simplify_eq/=; try done. by rewrite H. Qed.

Lemma unlock_slot_set d s x :
  db_locked d = false -> set_locked (slot_set (set_locked d true) s x) false = slot_set d s x.
Proof. destruct d, s; cbn; by intros ->. Qed.

Lemma unlock_id d : db_locked d = false -> set_locked (set_locked d true) false = d.
Proof. destruct d; cbn; by intros ->. Qed.

(** Run a computation on a database given field by field, rewriting with the
    facts about its tables as they are reached. *)
Ltac mstep :=
  cbv [mbind M_bind mret M_ret gets modify index id bail_error index_or
       mutex_lock mutex_unlock unlock_and_return
       find_empty_slot find_handle_idx slot_load slot_store slot_get slot_set slot_of
       set_udp set_client set_server set_status set_locked
       udp_handle_info client_tcp_handle_info server_tcp_handle_info server_status_st
       listener_threads event_fd event_socket_path db_locked db_verbosity];
  cbn [Z.eqb option_bind].
Ltac mrewrite :=
  match goal with
  | H : _ !! _ = Some _ |- _ => progress rewrite H
  | H : first_index _ _ = _ |- _ => progress rewrite H
  end.
Ltac meval := repeat (progress mstep || mrewrite); try reflexivity.

Lemma handle_info_set_result d ty j t h mt l p single magic :
  db_locked d = false -> table d ty j = Some t ->
  handle_info_set 0 0 ty j h mt l p single magic d =
  Some (0, match first_index (has_handle INVALID_HANDLE_ID) t with
           | None => d
           | Some i => slot_set d (slot_of ty j i)
               (new_entry h mt l p single magic (from_option (state ∘ socekt_info) 0 (t !! i)))
           end).
Proof.
  intros Hl Ht. destruct d; cbn in Hl; subst. unfold handle_info_set.
  destruct (first_index (has_handle INVALID_HANDLE_ID) t) as [i|] eqn:Hi.
  - pose proof Hi as (x & Hx & _)%first_index_lookup. destruct ty; cbn in Ht; simplify_eq; meval.
  - destruct ty; cbn in Ht; simplify_eq; meval.
Qed.

Lemma udp_delete_result d h :
  db_locked d = false ->
  lib_commu_db_udp_handle_info_delete 0 0 h d =
  Some match first_index (has_handle h) (udp_handle_info d) with
       | None => (ENOKEY, d)
       | Some i => (0, slot_set d (UdpSlot i) unused_handle_info)
       end.
Proof.
  intros Hl. destruct d; cbn in Hl; subst. unfold lib_commu_db_udp_handle_info_delete. cbn [udp_handle_info].
  destruct (first_index (has_handle h) _) eqn:Hi; meval.
Qed.

Lemma list_alter_insert {A} (f : A -> A) (l : list A) x i :
  l !! i = Some x -> alter f i l = <[i := f x]> l.
Proof.
  revert i. induction l as [|y l IH]; intros [|i]; cbn; intros; simplify_eq; [done|].
  f_equal. by apply IH.
Qed.

(** The status of a server that loses a client. *)
Definition forget (h : Z) (s : server_status) : server_status :=
  ServerStatus (clients_num s - 1)
    match first_index (has_client h) (client_status s) with
    | Some i => <[i := unused_client]> (client_status s)
    | None => client_status s
    end (listener_handle s) (listener_status s).

Definition tcp_deleted (d : db) (h : Z) : db :=
  match find_client d h with
  | Some s => slot_set d s unused_handle_info
  | None =>
      match find_server d h with
      | Some (ServerSlot j i) =>
          set_status (slot_set d (ServerSlot j i) unused_handle_info)
            (alter (forget h) j (server_status_st d))
      | _ => d
      end
  end.

(** What the search over the servers finds: the first matching entry of a
    server with clients. *)
Lemma find_in_servers_some h j0 ss ts s :
  find_in_servers h j0 ss ts = Some s ->
  exists k i st t, s = ServerSlot (j0 + k) i /\ ss !! k = Some st /\ ts !! k = Some t /\
    clients_num st > 0 /\ first_index (has_handle h) t = Some i /\
    (forall k' st' t', (k' < k)%nat -> ss !! k' = Some st' -> ts !! k' = Some t' ->
      clients_num st' > 0 -> first_index (has_handle h) t' = None).
Proof.
  revert j0 ts. induction ss as [|st ss IH]; intros j0 [|t ts]; cbn; try done.
  assert (Hnext : find_in_servers h (S j0) ss ts = Some s ->
    (clients_num st > 0 -> first_index (has_handle h) t = None) ->
    exists k i st' t', s = ServerSlot (j0 + k) i /\ (st :: ss) !! k = Some st' /\
      (t :: ts) !! k = Some t' /\ clients_num st' > 0 /\ first_index (has_handle h) t' = Some i /\
      (forall k' st'' t'', (k' < k)%nat -> (st :: ss) !! k' = Some st'' -> (t :: ts) !! k' = Some t'' ->
        clients_num st'' > 0 -> first_index (has_handle h) t'' = None)).
  { intros (k & i & st' & t' & -> & ? & ? & ? & ? & Hb)%IH Hhd.
    exists (S k), i, st', t'. split_and!; try done; [f_equal; lia|].
    intros [|k'] st'' t'' Hk ?? ?; simplify_eq/=; [auto|]. eapply Hb; eauto. lia. }
  case_decide as Hc; [|intros; apply Hnext; [done|lia]].
  destruct (first_index _ t) as [i|] eqn:Hi; [|intros; by apply Hnext].
  intros [= <-]. exists 0%nat, i, st, t. rewrite Nat.add_0_r. split_and!; try done. intros; lia.
Qed.

Lemma find_in_servers_none h j0 ss ts k st t :
  find_in_servers h j0 ss ts = None -> ss !! k = Some st -> ts !! k = Some t ->
  clients_num st > 0 -> first_index (has_handle h) t = None.
Proof.
  revert j0 ts k. induction ss as [|st0 ss IH]; intros j0 [|t0 ts] [|k]; cbn; try done.
  - intros H ?? ?; simplify_eq. case_decide; [|done]. by destruct (first_index _ t).
  - case_decide; [destruct (first_index _ t0); [done|]|]; eauto.
Qed.

Lemma tcp_delete_result d h :
  db_locked d = false ->
  lib_commu_db_tcp_handle_info_delete 0 0 h d = Some (0, tcp_deleted d h).
Proof.
  intros Hl. destruct d as [? ? ts ss ? ? ? ? ?]; cbn in Hl; subst.
  unfold lib_commu_db_tcp_handle_info_delete, tcp_deleted, lib_commu_db_hanlde_info_get.
  mstep. unfold find_client, find_server; mstep.
  destruct (first_index (has_handle h) _) as [i|] eqn:Hi; [done|]. cbn [fmap option_fmap option_map].
  destruct (find_in_servers h 0 ss ts) as [s|] eqn:Hs.
  - pose proof Hs as (j & i & st & t & -> & Hst & Ht & Hn & Hj & _)%find_in_servers_some.
    cbn [Nat.add] in *. unfold server_client_forget. meval. rewrite decide_True by done.
    rewrite (list_alter_insert _ _ st) by done. unfold forget.
    cbn [clients_num client_status listener_handle listener_status].
    rewrite list_lookup_insert_eq by (by eapply lookup_lt_Some).
    cbn [clients_num client_status listener_handle listener_status].
    destruct (first_index (has_client h) _); meval.
  - destruct (find_udp _ h); meval.
Qed.

(** ** The invariant *)

(** A server's status and its table of accepted connections name the same
    handles, and the client count is their number. *)
Definition paired (st : server_status) (t : list handle_info) : Prop :=
  length (client_status st) = MAX_CONNECTION_NUM /\ length t = TCP_HANDLE_ARR_LENGTH /\
  clients_num st = Z.of_nat (length (used (cs_handle <$> client_status st))) /\
  used (handle <$> t) ≡ₚ used (cs_handle <$> client_status st).

Record db_ok (d : db) : Prop := DbOk {
  ok_unlocked : db_locked d = false;
  ok_udp : length (udp_handle_info d) = UDP_HANDLE_ARR_LENGTH;
  ok_client : length (client_tcp_handle_info d) = TCP_HANDLE_ARR_LENGTH;
  ok_servers : Forall2 paired (server_status_st d) (server_tcp_handle_info d);
  ok_nservers : length (server_status_st d) = SERVER_STATUS_ARR_LENGTH }.

Lemma used_insert ks i k k0 :
  ks !! i = Some k0 -> used [k0] ++ used (<[i := k]> ks) ≡ₚ used [k] ++ used ks.
Proof.
  intros H. rewrite insert_take_drop by (by eapply lookup_lt_Some).
  rewrite <- (take_drop_middle _ _ _ H) at 3.
  unfold used, filterb. rewrite <- !filter_app. f_equiv. cbn.
  rewrite <- !Permutation_middle. apply perm_swap.
Qed.

Lemma used_one k : k <> INVALID_HANDLE_ID -> used [k] = [k].
Proof. intros. unfold used. rewrite filterb_cons, bool_decide_false by done. done. Qed.

Lemma elem_of_used k ks : k ∈ used ks <-> k <> INVALID_HANDLE_ID /\ k ∈ ks.
Proof. unfold used. rewrite elem_of_filterb, negb_true_iff, bool_decide_eq_false. done. Qed.

Lemma used_replicate n : used (replicate n INVALID_HANDLE_ID) = [].
Proof. induction n as [|n IH]; [done|]. cbn. unfold used in *. by rewrite filterb_cons, IH. Qed.

(** The searches for a handle, as membership. *)
Lemma first_index_key {A} (g : A -> Z) h l :
  is_Some (first_index (fun x => bool_decide (g x = h)) l) <-> h ∈ g <$> l.
Proof.
  rewrite list_elem_of_fmap. split.
  - intros [i (x & Hx & E%bool_decide_eq_true)%first_index_lookup]. exists x.
    split; [done|]. by eapply list_elem_of_lookup_2.
  - intros (x & -> & Hx). destruct (first_index _ l) eqn:E; [done|].
    pose proof (proj1 (first_index_none _ _) E x Hx) as Hf. cbn in Hf.
    by rewrite bool_decide_true in Hf.
Qed.

Lemma has_handle_in h t : is_Some (first_index (has_handle h) t) <-> h ∈ handle <$> t.
Proof. apply (first_index_key handle). Qed.
Lemma has_client_in h cs : is_Some (first_index (has_client h) cs) <-> h ∈ cs_handle <$> cs.
Proof. apply (first_index_key cs_handle). Qed.

(** Changing one server keeps the invariant when the pair stays matched. *)
Lemma db_ok_server d j st t st' t' :
  db_ok d -> server_status_st d !! j = Some st -> server_tcp_handle_info d !! j = Some t ->
  paired st' t' ->
  db_ok (set_status (set_server d (<[j := t']> (server_tcp_handle_info d)))
           (<[j := st']> (server_status_st d))).
Proof.
  intros [? ? ? ? ?] Hst Ht Hp. constructor; cbn; try done.
  - by apply Forall2_insert.
  - by rewrite length_insert.
Qed.

Lemma db_ok_lookup d j :
  db_ok d -> (j < SERVER_STATUS_ARR_LENGTH)%nat ->
  exists st t, server_status_st d !! j = Some st /\ server_tcp_handle_info d !! j = Some t /\ paired st t.
Proof.
  intros [? ? ? H Hn] Hj. destruct (lookup_lt_is_Some_2 (server_status_st d) j) as [st Hst]; [lia|].
  destruct (Forall2_lookup_l _ _ _ _ _ H Hst) as (t & Ht & Hp). eauto.
Qed.

(** An entry may change as long as its handle does not; outside the server
    tables any entry may change. *)
Lemma db_ok_slot_set d s x y :
  db_ok d -> slot_get d s = Some x ->
  match s with ServerSlot _ _ => handle y = handle x | _ => True end ->
  db_ok (slot_set d s y).
Proof.
  intros Hd Hx Hy. destruct s as [i|i|j i]; cbn in Hx.
  1,2: destruct Hd; constructor; cbn; by rewrite ?length_insert.
  apply bind_Some in Hx as (t & Ht & Hx). cbn. rewrite (list_alter_insert _ _ _ _ Ht).
  assert (Hj : (j < SERVER_STATUS_ARR_LENGTH)%nat).
  { destruct Hd as [_ _ _ HF Hn]. rewrite <- Hn, (Forall2_length _ _ _ HF). by eapply lookup_lt_Some. }
  destruct (db_ok_lookup d j Hd Hj) as (st & t' & Hst & Ht' & Hp). simplify_eq.
  destruct Hd as [? ? ? HF ?]. constructor; cbn; try done.
  rewrite <- (list_insert_id _ _ _ Hst). apply Forall2_insert; [done|].
  destruct Hp as (? & ? & ? & ?). split_and!; rewrite ?length_insert; try done.
  rewrite list_fmap_insert, Hy, list_insert_id; [done|]. by rewrite list_lookup_fmap, Hx.
Qed.

Lemma used_fill ks i k :
  ks !! i = Some INVALID_HANDLE_ID -> k <> INVALID_HANDLE_ID ->
  used (<[i := k]> ks) ≡ₚ k :: used ks.
Proof. intros H Hk. pose proof (used_insert ks i k _ H) as HP. by rewrite (used_one k) in HP. Qed.

Lemma used_clear ks i k :
  ks !! i = Some k -> k <> INVALID_HANDLE_ID ->
  k :: used (<[i := INVALID_HANDLE_ID]> ks) ≡ₚ used ks.
Proof.
  intros H Hk. pose proof (used_insert ks i INVALID_HANDLE_ID _ H) as HP. by rewrite (used_one k) in HP.
Qed.

Lemma length_used ks : (length (used ks) <= length ks)%nat.
Proof. apply length_filter. Qed.

Lemma empty_slot_key {A} (g : A -> Z) h l i :
  first_index (fun x => bool_decide (g x = h)) l = Some i -> (g <$> l) !! i = Some h.
Proof.
  intros (x & Hx & E%bool_decide_eq_true)%first_index_lookup. by rewrite list_lookup_fmap, Hx, <- E.
Qed.

(** A connection is entered in a server's table and in its status together. *)
Lemma paired_add st t i k c x :
  paired st t ->
  first_index (has_handle INVALID_HANDLE_ID) t = Some i ->
  first_index (has_client INVALID_HANDLE_ID) (client_status st) = Some k ->
  cs_handle c = handle x -> handle x <> INVALID_HANDLE_ID ->
  paired (ServerStatus (u32 (clients_num st + 1)) (<[k := c]> (client_status st))
            (listener_handle st) (listener_status st)) (<[i := x]> t).
Proof.
  intros (Hc & Ht & Hn & HP) Hi%(empty_slot_key handle) Hk%(empty_slot_key cs_handle) Hh Hv.
  unfold paired; cbn. rewrite !length_insert, !list_fmap_insert, Hh.
  rewrite !used_fill by done. cbn [length]. split_and!; try done.
  - pose proof (length_used (cs_handle <$> client_status st)) as Hl.
    rewrite length_fmap, Hc in Hl. unfold MAX_CONNECTION_NUM in Hl.
    rewrite Hn, wrap_small by lia. lia.
  - by rewrite HP.
Qed.

Lemma used_full ks : INVALID_HANDLE_ID ∉ ks <-> length (used ks) = length ks.
Proof.
  split.
  - intros Hn. unfold used. f_equal. induction ks as [|k ks IH]; [done|].
    rewrite filterb_cons, bool_decide_false by set_solver. cbn. f_equal. apply IH. set_solver.
  - intros Hl Hin. apply list_elem_of_lookup in Hin as [i Hi].
    pose proof (used_fill ks i 0 Hi ltac:(done)) as HP'%Permutation_length.
    pose proof (length_used (<[i := 0]> ks)) as Hle. rewrite length_insert in Hle.
    rewrite HP' in Hle. cbn in Hle. lia.
Qed.

(** The two tables of a server are full together. *)
Lemma paired_full st t :
  paired st t ->
  first_index (has_handle INVALID_HANDLE_ID) t = None <->
  first_index (has_client INVALID_HANDLE_ID) (client_status st) = None.
Proof.
  intros (Hc & Ht & _ & HP).
  pose proof (has_handle_in INVALID_HANDLE_ID t) as H1.
  pose proof (has_client_in INVALID_HANDLE_ID (client_status st)) as H2.
  rewrite !eq_None_not_Some, H1, H2, !used_full, !length_fmap, Hc, Ht, (Permutation_length HP). done.
Qed.

(** A client is forgotten by a server's table and by its status together. *)
Lemma paired_forget st t h i :
  paired st t -> first_index (has_handle h) t = Some i -> h <> INVALID_HANDLE_ID ->
  paired (forget h st) (<[i := unused_handle_info]> t).
Proof.
  intros (Hc & Ht & Hn & HP) Hi Hv. unfold forget.
  assert (Hin : h ∈ used (cs_handle <$> client_status st)).
  { rewrite <- HP. apply elem_of_used. split; [done|]. apply has_handle_in. eauto. }
  apply elem_of_used in Hin as [_ [k Hk]%has_client_in]. rewrite Hk.
  apply (empty_slot_key handle) in Hi. apply (empty_slot_key cs_handle) in Hk.
  pose proof (used_clear _ _ _ Hi Hv) as P1. pose proof (used_clear _ _ _ Hk Hv) as P2.
  unfold paired; cbn. rewrite !length_insert, !list_fmap_insert. cbn.
  split_and!; try done.
  - rewrite Hn, <- P2. cbn [length]. lia.
  - apply (Permutation_cons_inv (a := h)). by rewrite P1, P2.
Qed.

Lemma client_set_result d h a ip prt j st :
  server_status_st d !! j = Some st ->
  lib_cummo_db_server_status_client_set h a ip prt j d =
  Some match first_index (has_client INVALID_HANDLE_ID) (client_status st) with
       | None => (ENOBUFS, d)
       | Some k => (0, set_status d (<[j := ServerStatus (u32 (clients_num st + 1))
             (<[k := ConnStatus h HANDLE_STATUS_UP ip prt (ipv4_addr a) (port a)]> (client_status st))
             (listener_handle st) (listener_status st)]> (server_status_st d)))
       end.
Proof.
  intros Hst. destruct d; cbn in Hst. unfold lib_cummo_db_server_status_client_set.
  destruct (first_index _ (client_status st)) eqn:Hi; meval.
Qed.

(** An accepted connection is entered in both tables, or in none. *)
Lemma listener_register_ok d j h params a magic :
  db_ok d -> (j < SERVER_STATUS_ARR_LENGTH)%nat -> h <> INVALID_HANDLE_ID ->
  exists ret d', listener_register 0 0 j h params a magic d = Some (ret, d') /\ db_ok d' /\
    (ret = 0 \/ ret = ENOBUFS /\ d' = d).
Proof.
  intros Hd Hj Hh. destruct (db_ok_lookup d j Hd Hj) as (st & t & Hst & Ht & Hp).
  unfold listener_register, lib_commu_db_tcp_server_handle_info_set, bail_error.
  cbv [mbind M_bind]. rewrite (handle_info_set_result d TCP_SERVER_HANDLE_DB j t) by (done || apply Hd).
  cbn [Z.eqb]. destruct (first_index (has_handle _) t) as [i|] eqn:Hi.
  - destruct (first_index (has_client INVALID_HANDLE_ID) (client_status st)) as [k|] eqn:Hk.
    2:{ apply (paired_full st t) in Hk; [congruence|done]. }
    erewrite client_set_result by done. rewrite Hk. do 2 eexists. split; [done|].
    split; [|by left]. cbn. rewrite (list_alter_insert _ _ _ _ Ht).
    eapply db_ok_server; [done..|]. by apply paired_add.
  - erewrite client_set_result by done. rewrite (proj1 (paired_full st t Hp) Hi). eauto 10.
Qed.

Lemma handle_set_ok d ty h mt l p single magic :
  db_ok d -> ty = UDP_HANDLE_DB \/ ty = TCP_CLIENT_HANDLE_DB ->
  exists d', handle_info_set 0 0 ty INVALID_SERVER_ID h mt l p single magic d = Some (0, d') /\ db_ok d'.
Proof.
  intros Hd Hty. assert (exists t, table d ty INVALID_SERVER_ID = Some t) as [t Ht].
  { destruct Hty as [-> | ->]; cbn; eauto. }
  erewrite handle_info_set_result by (done || apply Hd). eexists. split; [done|].
  destruct (first_index _ t) as [i|] eqn:Hi; [|done].
  pose proof Hi as (x & Hx & _)%first_index_lookup.
  eapply db_ok_slot_set; [done| by erewrite slot_get_table|]. by destruct Hty as [-> | ->].
Qed.

Lemma udp_delete_ok d h :
  db_ok d -> exists ret d', lib_commu_db_udp_handle_info_delete 0 0 h d = Some (ret, d') /\ db_ok d'.
Proof.
  intros Hd. rewrite udp_delete_result by apply Hd.
  destruct (first_index _ _) as [i|] eqn:Hi; [|by eauto].
  pose proof Hi as (x & Hx & _)%first_index_lookup.
  do 2 eexists. split; [done|]. by eapply (db_ok_slot_set d (UdpSlot i)).
Qed.

Lemma tcp_delete_ok d h :
  db_ok d -> h <> INVALID_HANDLE_ID -> db_ok (tcp_deleted d h).
Proof.
  intros Hd Hh. unfold tcp_deleted, find_client. destruct (first_index _ _) as [i|] eqn:Hi; cbn [fmap option_fmap option_map].
  - pose proof Hi as (x & Hx & _)%first_index_lookup. by eapply (db_ok_slot_set d (ClientSlot i)).
  - destruct (find_server d h) as [s|] eqn:Hs; [|done].
    apply find_in_servers_some in Hs as (j & i & st & t & -> & Hst & Ht & _ & Hj & _). cbn.
    rewrite (list_alter_insert _ _ _ _ Ht), (list_alter_insert _ _ _ _ Hst).
    eapply db_ok_server; [done..|]. apply paired_forget; [|done..].
    destruct Hd as [_ _ _ HF _]. by eapply Forall2_lookup_lr.
Qed.

(** An entry the search returns exists and holds the handle. *)
Lemma handle_get_sound d h ty s ty' :
  lib_commu_db_hanlde_info_get h ty d = Some (inr (s, ty'), d) ->
  exists x, slot_get d s = Some x /\ handle x = h.
Proof.
  unfold lib_commu_db_hanlde_info_get. cbv [mbind M_bind gets mret M_ret id].
  assert (Hc : forall s, find_client d h = Some s -> exists x, slot_get d s = Some x /\ handle x = h).
  { intros s0 (i & (x & Hx & E%bool_decide_eq_true)%first_index_lookup & ->)%fmap_Some. cbn. eauto. }
  assert (Hu : forall s, find_udp d h = Some s -> exists x, slot_get d s = Some x /\ handle x = h).
  { intros s0 (i & (x & Hx & E%bool_decide_eq_true)%first_index_lookup & ->)%fmap_Some. cbn. eauto. }
  assert (Hs : forall s, find_server d h = Some s -> exists x, slot_get d s = Some x /\ handle x = h).
  { intros s0 (j & i & st & t & -> & Hst & Ht & _ & (x & Hx & E%bool_decide_eq_true)%first_index_lookup & _)%find_in_servers_some.
    cbn. rewrite Ht. cbn. eauto. }
  destruct ty; destruct (find_client d h), (find_server d h), (find_udp d h); naive_solver.
Qed.

Lemma handle_get_pure d h ty :
  exists r, lib_commu_db_hanlde_info_get h ty d = Some (r, d).
Proof. unfold lib_commu_db_hanlde_info_get. cbv [mbind M_bind gets mret M_ret id]. eauto. Qed.

Lemma db_ok_touch d s x y :
  db_ok d -> slot_get d s = Some x -> handle y = handle x -> db_ok (slot_set d s y).
Proof. intros. eapply db_ok_slot_set; [done..|]. by destruct s. Qed.

Lemma rx_update_ok d h ty n :
  db_ok d -> exists ret d', handle_total_rx_update h ty n d = Some (ret, d') /\ db_ok d'.
Proof.
  intros Hd. destruct (handle_get_pure d h ty) as [[e|[s ty']] Hr];
    unfold handle_total_rx_update; cbv [mbind M_bind]; rewrite Hr; [by do 2 eexists|].
  destruct (handle_get_sound _ _ _ _ _ Hr) as (x & Hx & _).
  unfold slot_load. rewrite Hx. do 2 eexists. split; [done|]. by eapply db_ok_touch.
Qed.

Lemma tx_update_ok d h ty n :
  db_ok d -> exists ret d', handle_total_tx_update h ty n d = Some (ret, d') /\ db_ok d'.
Proof.
  intros Hd. destruct (handle_get_pure d h ty) as [[e|[s ty']] Hr];
    unfold handle_total_tx_update; cbv [mbind M_bind]; rewrite Hr; [by do 2 eexists|].
  destruct (handle_get_sound _ _ _ _ _ Hr) as (x & Hx & _).
  unfold slot_load. rewrite Hx. do 2 eexists. split; [done|]. by eapply db_ok_touch.
Qed.

(** Changing the status of a server without its clients' handles. *)
Lemma db_ok_status d j st st' :
  db_ok d -> server_status_st d !! j = Some st -> clients_num st' = clients_num st ->
  cs_handle <$> client_status st' = cs_handle <$> client_status st ->
  db_ok (set_status d (<[j := st']> (server_status_st d))).
Proof.
  intros Hd Hst Hn Hcs. pose proof Hst as Hj%lookup_lt_Some.
  destruct (db_ok_lookup d j Hd) as (st1 & t & ? & Ht & Hp); [by rewrite <- (ok_nservers d Hd)|]. simplify_eq.
  destruct Hp as (Hl & Hlt & Hp1 & Hp2). destruct Hd as [? ? ? HF ?]. constructor; cbn; try done.
  - rewrite <- (list_insert_id _ _ _ Ht). apply Forall2_insert; [done|].
    split_and!; try done; rewrite ?Hn, ?Hcs; try done.
    by rewrite <- Hl, <- (length_fmap cs_handle), Hcs, length_fmap.
  - by rewrite length_insert.
Qed.

Lemma refresh_clients_handles gp cs e cs' :
  refresh_clients gp cs = (e, cs') -> cs_handle <$> cs' = cs_handle <$> cs.
Proof.
  revert e cs'. induction cs as [|c cs IH]; cbn; intros e cs'; [by intros [= <- <-]|].
  destruct (refresh_clients gp cs) as [e0 cs0] eqn:E, (gp (cs_handle c)) as [pe en].
  repeat case_decide; intros [= <- <-]; cbn; try done; f_equal; eauto.
Qed.

Lemma status_get_ok gp d isnull j :
  db_ok d -> exists ret d', lib_commu_db_tcp_server_status_get gp isnull j d = Some (ret, d') /\ db_ok d'.
Proof.
  intros Hd. unfold lib_commu_db_tcp_server_status_get. destruct isnull; [by do 2 eexists|].
  case_decide as Hj; [by do 2 eexists|].
  destruct (db_ok_lookup d j Hd) as (st & t & Hst & _); [lia|].
  cbv [mbind M_bind gets index modify]. rewrite Hst.
  destruct (refresh_clients gp (client_status st)) as [e cs] eqn:Hr.
  assert (db_ok (set_status d (<[j := ServerStatus (clients_num st) cs (listener_handle st) (listener_status st)]> (server_status_st d)))).
  { eapply db_ok_status; [done..|]. by eapply refresh_clients_handles. }
  destruct (e =? 0); by do 2 eexists.
Qed.

Lemma listener_set_ok d j lh en :
  db_ok d -> (j < SERVER_STATUS_ARR_LENGTH)%nat ->
  exists d', lib_commu_db_server_status_listener_set j lh en d = Some (0, d') /\ db_ok d'.
Proof.
  intros Hd Hj. destruct (db_ok_lookup d j Hd) as (st & t & Hst & _); [lia|].
  unfold lib_commu_db_server_status_listener_set. cbv [mbind M_bind gets index modify]. rewrite Hst.
  eexists. split; [done|]. by eapply db_ok_status.
Qed.

Lemma paired_unused : paired unused_server (replicate TCP_HANDLE_ARR_LENGTH unused_handle_info).
Proof. vm_decide. Qed.

Lemma session_deinit_ok d j :
  db_ok d -> (j < SERVER_STATUS_ARR_LENGTH)%nat ->
  exists d', lib_commu_db_tcp_session_db_deinit j d = Some (0, d') /\ db_ok d'.
Proof.
  intros Hd Hj. destruct (db_ok_lookup d j Hd) as (st & t & Hst & Ht & _); [lia|].
  unfold lib_commu_db_tcp_session_db_deinit, reset_server_status, reset_handle_db, bail_error.
  cbv [mbind M_bind gets index modify mret M_ret]. rewrite Hst. cbn. rewrite Ht. eexists. split; [done|].
  eapply (db_ok_server d); [done..|]. apply paired_unused.
Qed.

(** ** Sequences of operations *)

(** The static tables as the program starts, cleared. *)
Definition start_db : db :=
  Db (replicate UDP_HANDLE_ARR_LENGTH handle_info0) (replicate TCP_HANDLE_ARR_LENGTH handle_info0)
    (replicate SERVER_STATUS_ARR_LENGTH (replicate TCP_HANDLE_ARR_LENGTH handle_info0))
    (replicate SERVER_STATUS_ARR_LENGTH
       (ServerStatus 0 (replicate MAX_CONNECTION_NUM (ConnStatus 0 0 0 0 0 0)) 0 0))
    (replicate NUM_OF_LISTENER_THREADS 0) (replicate NUM_OF_LISTENER_THREADS 0)
    (replicate NUM_OF_LISTENER_THREADS EmptyString) false 0.

Inductive db_op :=
| UdpSet (h : Z) (params : ip_udp_params) (magic : Z)
| UdpDelete (h : Z)
| ClientSet (h msg_type : Z) (local peer : addr_info) (magic : Z)
| Accept (server : nat) (h : Z) (params : session_params) (client : addr_info) (magic : Z)
| TcpDelete (h : Z)
| ListenerSet (server : nat) (lh is_enabled : Z)
| StatusGet (out_is_null : bool) (server : nat)
| SessionDeinit (server : nat)
| RxUpdate (h : Z) (type : db_type) (n : Z)
| TxUpdate (h : Z) (type : db_type) (n : Z)
| VerbositySet (v : Z)
| Deinit
| Init.

Section Run.
Context (getpeername : Z -> Z * Z).

Definition errno_of {A} (c : M (Z + A)) : M Z :=
  r ← c; mret match r with inl e => e | inr _ => 0 end.

Definition run_op (o : db_op) : M Z :=
  match o with
  | UdpSet h params magic => lib_commu_db_udp_handle_info_set 0 0 h params magic
  | UdpDelete h => lib_commu_db_udp_handle_info_delete 0 0 h
  | ClientSet h mt l p magic => lib_commu_db_tcp_client_handle_info_set 0 0 h mt l p magic
  | Accept j h params client magic => listener_register 0 0 j h params client magic
  | TcpDelete h => lib_commu_db_tcp_handle_info_delete 0 0 h
  | ListenerSet j lh en => lib_commu_db_server_status_listener_set j lh en
  | StatusGet isnull j => errno_of (lib_commu_db_tcp_server_status_get getpeername isnull j)
  | SessionDeinit j => lib_commu_db_tcp_session_db_deinit j
  | RxUpdate h ty n => handle_total_rx_update h ty n
  | TxUpdate h ty n => handle_total_tx_update h ty n
  | VerbositySet v => comm_lib_db_verbosity_level_set v
  | Deinit => lib_commu_db_deinit
  | Init => lib_commu_db_init
  end.

(** What the callers respect: a descriptor is not the invalid handle, and a server
    identifier is the index of a listener thread. *)
Definition op_ok (o : db_op) : bool :=
  match o with
  | TcpDelete h => bool_decide (h <> INVALID_HANDLE_ID)
  | Accept j h _ _ _ => bool_decide (h <> INVALID_HANDLE_ID) && bool_decide (j < SERVER_STATUS_ARR_LENGTH)%nat
  | ListenerSet j _ _ | SessionDeinit j => bool_decide (j < SERVER_STATUS_ARR_LENGTH)%nat
  | _ => true
  end.

Fixpoint run_ops (os : list db_op) : M (list Z) :=
  match os with
  | [] => mret []
  | o :: os => r ← run_op o; rs ← run_ops os; mret (r :: rs)
  end.

(** The state after initialisation, whatever the tables held. *)
Definition fresh_db (d : db) : db :=
  Db (replicate UDP_HANDLE_ARR_LENGTH unused_handle_info)
    (replicate TCP_HANDLE_ARR_LENGTH unused_handle_info)
    (replicate SERVER_STATUS_ARR_LENGTH (replicate TCP_HANDLE_ARR_LENGTH unused_handle_info))
    (replicate SERVER_STATUS_ARR_LENGTH unused_server)
    (listener_threads d) (replicate NUM_OF_LISTENER_THREADS INVALID_HANDLE_ID)
    exit_listener_thread_socket_path false (db_verbosity d).

Lemma list_of_length_16 {A} (l : list A) :
  length l = 16%nat -> exists a b c d e f g h i j k m n o p q, l = [a;b;c;d;e;f;g;h;i;j;k;m;n;o;p;q].
Proof. intros. do 17 (destruct l; try discriminate). repeat eexists. Qed.

Lemma reset_all_result d :
  length (server_status_st d) = SERVER_STATUS_ARR_LENGTH ->
  length (server_tcp_handle_info d) = SERVER_STATUS_ARR_LENGTH ->
  reset_all_tcp_servers_status_db d =
  Some (0, set_server (set_status d (replicate SERVER_STATUS_ARR_LENGTH unused_server))
             (replicate SERVER_STATUS_ARR_LENGTH (replicate TCP_HANDLE_ARR_LENGTH unused_handle_info))).
Proof.
  destruct d. cbn [server_status_st server_tcp_handle_info].
  intros (?&?&?&?&?&?&?&?&?&?&?&?&?&?&?&?&->)%list_of_length_16
    (?&?&?&?&?&?&?&?&?&?&?&?&?&?&?&?&->)%list_of_length_16.
  vm_compute. reflexivity.
Qed.

Lemma init_result d :
  length (server_status_st d) = SERVER_STATUS_ARR_LENGTH ->
  length (server_tcp_handle_info d) = SERVER_STATUS_ARR_LENGTH ->
  lib_commu_db_init d = Some (0, fresh_db d).
Proof.
  intros Hs Ht. unfold lib_commu_db_init, lib_commu_db_tcp_all_session_db_init, bail_error.
  cbv [mbind M_bind]. cbn [lib_commu_db_udp_session_db_init reset_handle_db].
  cbv [mbind M_bind modify mret M_ret]. cbn [Z.eqb]. by rewrite reset_all_result.
Qed.

Lemma fresh_db_ok d : db_ok (fresh_db d).
Proof. constructor; try done. cbn [fresh_db server_status_st]. apply Forall2_replicate, paired_unused. Qed.

Lemma deinit_ok d :
  db_ok d -> exists d', lib_commu_db_deinit d = Some (0, d') /\ db_ok d'.
Proof.
  intros Hd. unfold lib_commu_db_deinit, lib_commu_db_tcp_all_session_db_deinit, bail_error.
  cbv [mbind M_bind]. cbn [lib_commu_db_udp_session_db_deinit reset_handle_db].
  cbv [mbind M_bind modify mret M_ret]. cbn [Z.eqb].
  rewrite reset_all_result; [|apply Hd|].
  - eexists. split; [done|]. destruct Hd. constructor; try done. cbn -[replicate]. 
    apply Forall2_replicate, paired_unused.
  - cbn. rewrite <- (Forall2_length _ _ _ (ok_servers d Hd)). apply Hd.
Qed.

(** Every operation returns, and keeps the invariant. *)
Lemma run_op_ok o d :
  db_ok d -> op_ok o = true -> exists r d', run_op o d = Some (r, d') /\ db_ok d'.
Proof.
  intros Hd Ho.
  destruct o; cbn [run_op op_ok] in *; rewrite ?andb_true_iff, ?bool_decide_eq_true in Ho.
  - destruct (handle_set_ok d UDP_HANDLE_DB h (sp_msg_type (ip_session_params params))
      (AddrInfo (sp_port (ip_session_params params)) (sp_port (ip_session_params params)))
      (AddrInfo 0 0) (ip_is_single_peer params) magic) as (d' & H & ?); eauto.
  - by apply udp_delete_ok.
  - destruct (handle_set_ok d TCP_CLIENT_HANDLE_DB h msg_type0 local peer 1 magic) as (d' & H & ?); eauto.
  - destruct (listener_register_ok d server h params client magic) as (r & d' & ? & ? & _); naive_solver.
  - rewrite tcp_delete_result by apply Hd. eauto using tcp_delete_ok.
  - destruct (listener_set_ok d server lh is_enabled) as (d' & ? & ?); eauto.
  - destruct (status_get_ok getpeername d out_is_null server Hd) as (r & d' & H & ?).
    unfold errno_of. cbv [mbind M_bind]. rewrite H. by do 2 eexists.
  - destruct (session_deinit_ok d server) as (d' & ? & ?); eauto.
  - by apply rx_update_ok.
  - by apply tx_update_ok.
  - unfold comm_lib_db_verbosity_level_set. case_decide; do 2 eexists; (split; [done|]); [|done].
    destruct Hd; by constructor.
  - destruct (deinit_ok d Hd) as (d' & ? & ?); eauto.
  - rewrite init_result; [|apply Hd|].
    + eauto using fresh_db_ok.
    + rewrite <- (Forall2_length _ _ _ (ok_servers d Hd)). apply Hd.
Qed.
End Run.

(** ** Correctness of the database *)

(** Every handle the tables hold. *)
Definition server_handles (d : db) : list Z :=
  concat (map (fun t => handle <$> t) (server_tcp_handle_info d)).
Definition all_handles (d : db) : list Z :=
  (handle <$> client_tcp_handle_info d) ++ server_handles d ++ (handle <$> udp_handle_info d).

Lemma run_ops_ok gp os d :
  db_ok d -> forallb op_ok os = true ->
  exists rets d', run_ops gp os d = Some (rets, d') /\ length rets = length os /\ db_ok d'.
Proof.
  revert d. induction os as [|o os IH]; intros d Hd; cbn [forallb run_ops].
  - intros _. by exists [], d.
  - intros [Ho Hos]%andb_true_iff. destruct (run_op_ok gp o d Hd Ho) as (r & d1 & H1 & Hd1).
    destruct (IH d1 Hd1 Hos) as (rs & d2 & H2 & Hl & Hd2).
    cbv [mbind M_bind]. rewrite H1, H2. exists (r :: rs), d2. cbn. by rewrite Hl.
Qed.

(** Under the invariant the search over the servers misses no connection: a
    server with a connection has clients. *)
Lemma elem_of_server_handles d h :
  h ∈ server_handles d <-> exists j t, server_tcp_handle_info d !! j = Some t /\ h ∈ handle <$> t.
Proof.
  unfold server_handles. rewrite list_elem_of_In, in_concat. setoid_rewrite in_map_iff. split.
  - intros (? & (t & <- & Ht) & Hin). apply list_elem_of_In, list_elem_of_lookup in Ht as [j Ht].
    exists j, t. by rewrite list_elem_of_In.
  - intros (j & t & Ht & Hin). exists (handle <$> t). rewrite <- list_elem_of_In. split; [|done].
    exists t. split; [done|]. by eapply list_elem_of_In, list_elem_of_lookup_2.
Qed.

Lemma find_server_none d h :
  db_ok d -> h <> INVALID_HANDLE_ID -> find_server d h = None <-> h ∉ server_handles d.
Proof.
  intros Hd Hh. rewrite elem_of_server_handles. split.
  - intros Hn (j & t & Ht & Hin).
    destruct (Forall2_lookup_r _ _ _ _ _ (ok_servers d Hd) Ht) as (st & Hst & _ & _ & Hc & HP).
    assert (Hu : h ∈ used (cs_handle <$> client_status st)).
    { rewrite <- HP. by apply elem_of_used. }
    pose proof (find_in_servers_none _ _ _ _ _ _ _ Hn Hst Ht) as Hf.
    apply has_handle_in in Hin as [i Hi]. rewrite Hf in Hi; [done|].
    rewrite Hc. destruct (used _); [set_solver|]. cbn. lia.
  - intros Hn. destruct (find_server d h) as [s|] eqn:Hs; [|done]. exfalso. apply Hn.
    apply find_in_servers_some in Hs as (j & i & st & t & -> & Hst & Ht & _ & Hi & _).
    exists j, t. split; [done|]. apply has_handle_in. eauto.
Qed.

Lemma find_client_none d h : find_client d h = None <-> h ∉ handle <$> client_tcp_handle_info d.
Proof. unfold find_client. by rewrite fmap_None, eq_None_not_Some, has_handle_in. Qed.
Lemma find_udp_none d h : find_udp d h = None <-> h ∉ handle <$> udp_handle_info d.
Proof. unfold find_udp. by rewrite fmap_None, eq_None_not_Some, has_handle_in. Qed.

(** C33. After initialisation, any sequence of calls (accepted connections,
    sessions opened and closed, counters, status queries, deinitialisation and
    initialisation again) runs to its end without an access outside a table and
    without waiting for a mutex it holds, each call leaves the mutex free, and
    every server's status names exactly the handles of its table of accepted
    connections, with the client count equal to their number. *)
Theorem commu_db_run_invariant gp os :
  forallb op_ok os = true ->
  exists rets d',
    ('_ ← lib_commu_db_init; run_ops gp os) start_db = Some (rets, d') /\
    length rets = length os /\ db_ok d'.
Proof.
  intros Hos. cbv [mbind M_bind]. rewrite init_result by done. apply run_ops_ok; [apply fresh_db_ok|done].
Qed.

(** C34. The unrestricted lookup finds exactly the handles the tables hold: a
    hit names an entry with that handle, in the table of the kind it reports; a
    miss reports [EINVAL] and means that no table holds the handle.  It never
    changes the database. *)
Theorem commu_db_lookup_complete d h :
  db_ok d -> h <> INVALID_HANDLE_ID ->
  match lib_commu_db_hanlde_info_get h ANY_HANLDE_DB d with
  | Some (inr (s, ty), d') =>
      d' = d /\ (exists x, slot_get d s = Some x /\ handle x = h) /\
      match ty, s with
      | TCP_CLIENT_HANDLE_DB, ClientSlot _ => True
      | TCP_SERVER_HANDLE_DB, ServerSlot _ _ => h ∉ handle <$> client_tcp_handle_info d
      | UDP_HANDLE_DB, UdpSlot _ =>
          h ∉ handle <$> client_tcp_handle_info d /\
          h ∉ server_handles d
      | _, _ => False
      end
  | Some (inl e, d') => d' = d /\ e = EINVAL /\ h ∉ all_handles d
  | None => False
  end.
Proof.
  intros Hd Hh. destruct (lib_commu_db_hanlde_info_get h ANY_HANLDE_DB d) as [[[e|[s ty]] d']|] eqn:E.
  - revert E. unfold lib_commu_db_hanlde_info_get. cbv [mbind M_bind gets mret M_ret id].
    destruct (find_client d h) eqn:Hc; [done|]. destruct (find_server d h) eqn:Hs; [done|].
    destruct (find_udp d h) eqn:Hu; [done|]. intros [= <- <-].
    apply find_client_none in Hc. apply find_server_none in Hs; [|done..]. apply find_udp_none in Hu.
    unfold all_handles. set_solver.
  - destruct (handle_get_pure d h ANY_HANLDE_DB) as [r Hr]. rewrite E in Hr. simplify_eq.
    split; [done|]. split; [by eapply handle_get_sound|].
    revert E. unfold lib_commu_db_hanlde_info_get. cbv [mbind M_bind gets mret M_ret id].
    destruct (find_client d h) as [c|] eqn:Hc.
    { intros [= <- <-]. by apply fmap_Some in Hc as (? & _ & ->). }
    apply find_client_none in Hc. destruct (find_server d h) as [c|] eqn:Hs.
    { intros [= <- <-]. by apply find_in_servers_some in Hs as (? & ? & ? & ? & -> & _). }
    apply find_server_none in Hs; [|done..]. destruct (find_udp d h) as [c|] eqn:Hu; [|done].
    intros [= <- <-]. by apply fmap_Some in Hu as (? & _ & ->).
  - destruct (handle_get_pure d h ANY_HANLDE_DB) as [r Hr]. congruence.
Qed.

Lemma slot_get_set d s x y : slot_get d s = Some y -> slot_get (slot_set d s x) s = Some x.
Proof.
  destruct s as [i|i|j i]; cbn.
  1,2: intros H%lookup_lt_Some; by apply list_lookup_insert_eq.
  intros (t & Ht & H%lookup_lt_Some)%bind_Some. rewrite list_lookup_alter_eq, Ht. cbn.
  by apply list_lookup_insert_eq.
Qed.

Lemma slot_get_set_ne d s s' x : s' <> s -> slot_get (slot_set d s x) s' = slot_get d s'.
Proof.
  destruct s as [i|i|j i], s' as [i'|i'|j' i']; cbn; intros Hne; try done.
  1,2: apply list_lookup_insert_ne; congruence.
  destruct (decide (j' = j)) as [->|].
  - rewrite list_lookup_alter_eq. destruct (server_tcp_handle_info d !! j); [|done]. cbn.
    apply list_lookup_insert_ne. congruence.
  - by rewrite list_lookup_alter_ne.
Qed.

(** Storing an entry for a new handle where a search found a free place. *)
Lemma first_index_fill h t i x :
  first_index (has_handle INVALID_HANDLE_ID) t = Some i -> h ∉ handle <$> t -> handle x = h ->
  first_index (has_handle h) (<[i := x]> t) = Some i.
Proof.
  intros (y & Hy & _)%first_index_lookup Hn Hx. apply first_index_insert.
  - by eapply lookup_lt_Some.
  - unfold has_handle. by rewrite bool_decide_true.
  - intros z Hz. unfold has_handle. apply bool_decide_eq_false. intros <-. apply Hn. by apply list_elem_of_fmap_2.
Qed.

Lemma first_index_clear h t i x :
  h ∉ handle <$> t -> handle x <> h -> first_index (has_handle h) (<[i := x]> t) = None.
Proof.
  intros Hn Hx. apply first_index_insert_none; [by apply bool_decide_eq_false|].
  by rewrite eq_None_not_Some, has_handle_in.
Qed.

(** A UDP session that is entered in the database is found there with the
    data it was entered with, and not found after it is deleted; the other
    entries of all tables stay as they were throughout. *)
Theorem udp_session_round_trip d h params magic :
  db_ok d -> h <> INVALID_HANDLE_ID -> h ∉ handle <$> udp_handle_info d ->
  INVALID_HANDLE_ID ∈ handle <$> udp_handle_info d ->
  exists i d1 d2 x,
    lib_commu_db_udp_handle_info_set 0 0 h params magic d = Some (0, d1) /\
    lib_commu_db_hanlde_info_get h UDP_HANDLE_DB d1 = Some (inr (UdpSlot i, UDP_HANDLE_DB), d1) /\
    slot_get d1 (UdpSlot i) = Some x /\
    handle x = h /\ msg_type (conn_info x) = u8 (sp_msg_type (ip_session_params params)) /\
    local_magic (socekt_info x) = magic /\ peer_magic (socekt_info x) = INVALID_MAGIC /\
    total_sum_bytes_rx (socekt_info x) = 0 /\ total_sum_bytes_tx (socekt_info x) = 0 /\
    lib_commu_db_udp_handle_info_delete 0 0 h d1 = Some (0, d2) /\
    lib_commu_db_hanlde_info_get h UDP_HANDLE_DB d2 = Some (inl ENOKEY, d2) /\
    slot_get d2 (UdpSlot i) = Some unused_handle_info /\
    forall s, s <> UdpSlot i -> slot_get d1 s = slot_get d s /\ slot_get d2 s = slot_get d s.
Proof.
  intros Hd Hh Hn [i Hi]%has_handle_in. unfold lib_commu_db_udp_handle_info_set.
  rewrite (handle_info_set_result d UDP_HANDLE_DB INVALID_SERVER_ID (udp_handle_info d))
    by (done || apply Hd).
  rewrite Hi. cbn [slot_of].
  set (x := new_entry _ _ _ _ _ _ _). set (d1 := slot_set d _ x).
  pose proof Hi as (x0 & Hx0 & _)%first_index_lookup.
  assert (Hg1 : slot_get d1 (UdpSlot i) = Some x) by by eapply slot_get_set.
  assert (Hf : first_index (has_handle h) (udp_handle_info d1) = Some i) by by apply first_index_fill.
  exists i, d1, (slot_set d1 (UdpSlot i) unused_handle_info), x.
  rewrite udp_delete_result by apply Hd. rewrite Hf. split_and!; try done.
  - unfold lib_commu_db_hanlde_info_get, find_udp. cbv [mbind M_bind gets mret M_ret id]. by rewrite Hf.
  - unfold lib_commu_db_hanlde_info_get, find_udp. cbv [mbind M_bind gets mret M_ret id]. cbn -[first_index].
    rewrite list_insert_insert_eq, first_index_clear; done.
  - by eapply slot_get_set.
  - intros s Hs. unfold d1. split; by rewrite !slot_get_set_ne.
Qed.

(** A search sees only the handles of the entries. *)
Lemma first_index_fmap {A} (g : A -> Z) h l :
  first_index (fun x => bool_decide (g x = h)) l = first_index (fun k => bool_decide (k = h)) (g <$> l).
Proof. induction l as [|x l IH]; cbn; [done|]. by rewrite IH. Qed.

Lemma first_index_touch h t i x y :
  t !! i = Some x -> handle y = handle x ->
  first_index (has_handle h) (<[i := y]> t) = first_index (has_handle h) t.
Proof.
  intros Hx Hy. unfold has_handle. rewrite !(first_index_fmap handle), list_fmap_insert, Hy.
  by rewrite list_insert_id by (by rewrite list_lookup_fmap, Hx).
Qed.

Lemma find_in_servers_touch h j0 ss ts j t i x y :
  ts !! j = Some t -> t !! i = Some x -> handle y = handle x ->
  find_in_servers h j0 ss (<[j := <[i := y]> t]> ts) = find_in_servers h j0 ss ts.
Proof.
  intros Ht Hx Hy. revert j0 ts j Ht. induction ss as [|s ss IH]; intros j0 [|t' ts] [|j] Ht; cbn in *; try done.
  - simplify_eq. by rewrite (first_index_touch _ _ _ x y).
  - by rewrite IH.
Qed.

Lemma handle_get_touch d h ty s x y :
  slot_get d s = Some x -> handle y = handle x ->
  (fst <$> lib_commu_db_hanlde_info_get h ty (slot_set d s y)) =
  (fst <$> lib_commu_db_hanlde_info_get h ty d).
Proof.
  intros Hx Hy. unfold lib_commu_db_hanlde_info_get. cbv [mbind M_bind gets mret M_ret id]. cbn [fmap option_fmap option_map fst].
  assert (find_client (slot_set d s y) h = find_client d h /\ find_server (slot_set d s y) h = find_server d h /\
    find_udp (slot_set d s y) h = find_udp d h) as (-> & -> & ->); [|done].
  unfold find_client, find_server, find_udp. destruct s as [i|i|j i]; cbn -[first_index] in *.
  1,2: by rewrite (first_index_touch _ _ _ x y).
  apply bind_Some in Hx as (t & Ht & Hx). rewrite (list_alter_insert _ _ _ _ Ht).
  by rewrite (find_in_servers_touch _ _ _ _ _ _ _ x y).
Qed.

(** The sizes the receive counter of a handle is given add up modulo
    [2^64], whatever their number, and the send counter and every other entry
    stay as they were. *)
Theorem rx_counter_total gp d h ty ns s ty' x :
  lib_commu_db_hanlde_info_get h ty d = Some (inr (s, ty'), d) -> slot_get d s = Some x ->
  0 <= total_sum_bytes_rx (socekt_info x) < 2 ^ 64 ->
  exists d' x',
    run_ops gp (map (RxUpdate h ty) ns) d = Some (map (fun _ => 0) ns, d') /\ slot_get d' s = Some x' /\
    total_sum_bytes_rx (socekt_info x') = u64 (total_sum_bytes_rx (socekt_info x) + foldr Z.add 0 ns) /\
    total_sum_bytes_tx (socekt_info x') = total_sum_bytes_tx (socekt_info x) /\
    forall s', s' <> s -> slot_get d' s' = slot_get d s'.
Proof.
  revert d x. induction ns as [|n ns IH]; intros d x Hg Hx Hr; cbn [map run_ops].
  - exists d, x. rewrite Z.add_0_r, wrap_small by done. done.
  - cbn [run_op]. unfold handle_total_rx_update. cbv [mbind M_bind]. rewrite Hg. unfold slot_load. rewrite Hx.
    cbn [slot_store modify mret M_ret].
    destruct (IH (slot_set d s (add_rx x n)) (add_rx x n)) as (d' & x' & Hrun & Hx' & H1 & H2 & H3).
    + pose proof (handle_get_touch d h ty s x (add_rx x n) Hx eq_refl) as Ht. rewrite Hg in Ht. cbn in Ht.
      destruct (handle_get_pure (slot_set d s (add_rx x n)) h ty) as [r Hr']. rewrite Hr' in Ht |- *.
      cbn in Ht. congruence.
    + by eapply slot_get_set.
    + apply wrap_range. lia.
    + exists d', x'. cbv [slot_store modify mret M_ret]. rewrite Hrun. split_and!; try done.
      * rewrite H1. cbn. by autorewrite with wraps; rewrite Z.add_assoc.
      * intros s' Hs'. by rewrite H3, slot_get_set_ne.
Qed.

(** The state after an accepted connection is entered at given places. *)
Definition accepted (d : db) (j : nat) (st : server_status) (i k : nat) (x : handle_info)
    (c : connection_status) : db :=
  set_status (slot_set d (ServerSlot j i) x)
    (<[j := ServerStatus (u32 (clients_num st + 1)) (<[k := c]> (client_status st))
              (listener_handle st) (listener_status st)]> (server_status_st d)).

(** A connection accepted where a server has room. *)
Lemma listener_register_room d j st t h params a magic :
  db_ok d -> server_status_st d !! j = Some st -> server_tcp_handle_info d !! j = Some t ->
  clients_num st < Z.of_nat MAX_CONNECTION_NUM ->
  exists i k x,
    let c := ConnStatus h HANDLE_STATUS_UP (sp_s_ipv4_addr params) (sp_port params) (ipv4_addr a) (port a) in
    listener_register 0 0 j h params a magic d = Some (0, accepted d j st i k x c) /\ handle x = h /\
    first_index (has_handle INVALID_HANDLE_ID) t = Some i /\
    first_index (has_client INVALID_HANDLE_ID) (client_status st) = Some k.
Proof.
  intros Hd Hst Ht Hn.
  assert (Hp : paired st t) by (by eapply Forall2_lookup_lr; [apply Hd|..]).
  destruct (first_index (has_client INVALID_HANDLE_ID) (client_status st)) as [k|] eqn:Hk.
  2:{ exfalso. rewrite eq_None_not_Some, has_client_in, used_full, length_fmap in Hk.
      destruct Hp as (Hl & _ & Hc & _). lia. }
  destruct (first_index (has_handle INVALID_HANDLE_ID) t) as [i|] eqn:Hi.
  2:{ apply (paired_full st t Hp) in Hi. congruence. }
  unfold listener_register, lib_commu_db_tcp_server_handle_info_set, bail_error.
  cbv [mbind M_bind]. rewrite (handle_info_set_result d TCP_SERVER_HANDLE_DB j t) by (done || apply Hd).
  cbn [Z.eqb]. rewrite Hi. erewrite client_set_result by done. rewrite Hk. by do 3 eexists.
Qed.

Section Accepted.
Context (d : db) (j : nat) (st : server_status) (t : list handle_info) (i k : nat).
Context (h : Z) (x : handle_info) (c : connection_status).
Context (Hd : db_ok d) (Hh : h <> INVALID_HANDLE_ID) (Hn : h ∉ all_handles d).
Context (Hst : server_status_st d !! j = Some st) (Ht : server_tcp_handle_info d !! j = Some t).
Context (Hi : first_index (has_handle INVALID_HANDLE_ID) t = Some i).
Context (Hk : first_index (has_client INVALID_HANDLE_ID) (client_status st) = Some k).
Context (Hx : handle x = h) (Hc : cs_handle c = h).
Let d1 := accepted d j st i k x c.
Let st1 := ServerStatus (u32 (clients_num st + 1)) (<[k := c]> (client_status st))
             (listener_handle st) (listener_status st).

Lemma accepted_tables :
  server_tcp_handle_info d1 = <[j := <[i := x]> t]> (server_tcp_handle_info d) /\
  server_status_st d1 = <[j := st1]> (server_status_st d).
Proof. cbn. by rewrite (list_alter_insert _ _ _ _ Ht). Qed.

Lemma accepted_ok : db_ok d1.
Proof.
  unfold d1, accepted. cbn. rewrite (list_alter_insert _ _ _ _ Ht). eapply db_ok_server; [done..|].
  apply paired_add; try done; [|congruence..]. by eapply Forall2_lookup_lr; [apply Hd|..].
Qed.

Lemma accepted_elsewhere j' t' :
  server_tcp_handle_info d !! j' = Some t' -> h ∉ handle <$> t'.
Proof.
  intros Hj' Hin. apply Hn. unfold all_handles. rewrite !elem_of_app, elem_of_server_handles. eauto 10.
Qed.

Lemma accepted_found : find_client d1 h = None /\ find_server d1 h = Some (ServerSlot j i).
Proof.
  split; [apply find_client_none; cbn; unfold all_handles in Hn; set_solver|].
  assert (Hj : (j < length (server_tcp_handle_info d))%nat) by by eapply lookup_lt_Some.
  assert (Hi1 : first_index (has_handle h) (<[i := x]> t) = Some i)
    by (apply first_index_fill; eauto using accepted_elsewhere).
  destruct (find_server d1 h) as [s|] eqn:Hs.
  - apply find_in_servers_some in Hs as (j' & i' & st' & t' & -> & _ & Ht' & _ & Hi' & _).
    rewrite (proj1 accepted_tables) in Ht'. cbn. apply list_lookup_insert_Some in Ht' as [(<- & <- & _)|(_ & Ht')].
    + by rewrite Hi1 in Hi'; simplify_eq.
    + destruct (accepted_elsewhere _ _ Ht'). apply has_handle_in. eauto.
  - apply find_server_none in Hs; [|apply accepted_ok|done]. destruct Hs.
    apply elem_of_server_handles. rewrite (proj1 accepted_tables). exists j, (<[i := x]> t).
    rewrite list_lookup_insert_eq by done. split; [done|]. apply has_handle_in. eauto.
Qed.

(** Closing it. *)
Let d2 := tcp_deleted d1 h.

Lemma accepted_deleted :
  server_tcp_handle_info d2 = <[j := <[i := unused_handle_info]> t]> (server_tcp_handle_info d) /\
  server_status_st d2 = <[j := forget h st1]> (server_status_st d) /\
  client_tcp_handle_info d2 = client_tcp_handle_info d /\ udp_handle_info d2 = udp_handle_info d.
Proof.
  unfold d2, tcp_deleted. destruct accepted_found as [-> ->]. cbn.
  assert (Hj : (j < length (server_tcp_handle_info d))%nat) by by eapply lookup_lt_Some.
  assert (Hj' : (j < length (server_status_st d))%nat) by by eapply lookup_lt_Some.
  rewrite (list_alter_insert _ _ _ _ Ht).
  rewrite (list_alter_insert _ (<[j := <[i := x]> t]> (server_tcp_handle_info d)) (<[i := x]> t))
    by by apply list_lookup_insert_eq.
  rewrite (list_alter_insert _ _ st1) by by apply list_lookup_insert_eq.
  by rewrite !list_insert_insert_eq.
Qed.

Lemma accepted_deleted_get : lib_commu_db_hanlde_info_get h ANY_HANLDE_DB d2 = Some (inl EINVAL, d2).
Proof.
  destruct accepted_deleted as (E1 & _ & E2 & E3).
  assert (Hd2 : db_ok d2) by (apply tcp_delete_ok; [apply accepted_ok|done]).
  unfold lib_commu_db_hanlde_info_get. cbv [mbind M_bind gets mret M_ret id].
  rewrite (proj2 (find_client_none d2 h)), (proj2 (find_server_none d2 h Hd2 Hh)), (proj2 (find_udp_none d2 h)); try done.
  - rewrite E3. unfold all_handles in Hn. set_solver.
  - rewrite elem_of_server_handles, E1. intros (j' & t' & Ht' & Hin).
    apply list_lookup_insert_Some in Ht' as [(<- & <- & _)|(_ & Ht')].
    + apply has_handle_in in Hin as [? Hin]. rewrite first_index_clear in Hin; try done.
      by eapply accepted_elsewhere.
    + by apply (accepted_elsewhere j' t').
  - rewrite E2. unfold all_handles in Hn. set_solver.
Qed.

Lemma accepted_deleted_used :
  used (cs_handle <$> client_status (forget h st1)) ≡ₚ used (cs_handle <$> client_status st).
Proof.
  apply (empty_slot_key cs_handle) in Hk. apply (Permutation_cons_inv (a := h)).
  rewrite <- (used_fill _ _ _ Hk Hh). unfold forget. cbn [client_status st1].
  assert (is_Some (first_index (has_client h) (<[k := c]> (client_status st)))) as [k' Hk'].
  { apply has_client_in. rewrite list_fmap_insert, Hc. apply list_elem_of_insert.
    by eapply lookup_lt_Some. }
  rewrite Hk'. apply (empty_slot_key cs_handle) in Hk'. rewrite !list_fmap_insert in *. rewrite Hc in *.
  by apply used_clear.
Qed.
End Accepted.

(** A connection accepted by a server that has room for it is counted,
    found by the unrestricted lookup in that server's table, and entered as up
    in the server's status; closing it reports success, removes it from both
    tables and restores the count and the set of handles of the server. *)
Theorem accepted_connection_round_trip d j st h params a magic :
  db_ok d -> h <> INVALID_HANDLE_ID -> h ∉ all_handles d ->
  server_status_st d !! j = Some st -> clients_num st < Z.of_nat MAX_CONNECTION_NUM ->
  exists i d1 d2 st1 st2,
    listener_register 0 0 j h params a magic d = Some (0, d1) /\
    lib_commu_db_hanlde_info_get h ANY_HANLDE_DB d1
      = Some (inr (ServerSlot j i, TCP_SERVER_HANDLE_DB), d1) /\
    server_status_st d1 !! j = Some st1 /\ clients_num st1 = clients_num st + 1 /\
    ConnStatus h HANDLE_STATUS_UP (sp_s_ipv4_addr params) (sp_port params) (ipv4_addr a) (port a)
      ∈ client_status st1 /\
    lib_commu_db_tcp_handle_info_delete 0 0 h d1 = Some (0, d2) /\
    lib_commu_db_hanlde_info_get h ANY_HANLDE_DB d2 = Some (inl EINVAL, d2) /\
    server_status_st d2 !! j = Some st2 /\ clients_num st2 = clients_num st /\
    used (cs_handle <$> client_status st2) ≡ₚ used (cs_handle <$> client_status st).
Proof.
  intros Hd Hh Hn Hst Hr.
  destruct (Forall2_lookup_l _ _ _ _ _ (ok_servers d Hd) Hst) as (t & Ht & Hp).
  destruct (listener_register_room d j st t h params a magic Hd Hst Ht Hr) as (i & k & x & HR & Hx & Hi & Hk).
  set (c := ConnStatus _ _ _ _ _ _) in *. set (d1 := accepted d j st i k x c) in *.
  destruct (accepted_found d j st t i k h x c) as [F1 F2]; try done.
  destruct (accepted_deleted d j st t i k h x c) as (_ & E & _); try done.
  fold d1 in F1, F2, E.
  assert (Hj : (j < length (server_status_st d))%nat) by by eapply lookup_lt_Some.
  exists i, d1, (tcp_deleted d1 h). do 2 eexists. split; [done|]. split.
  { unfold lib_commu_db_hanlde_info_get. cbv [mbind M_bind gets mret M_ret id]. by rewrite F1, F2. }
  split; [by apply list_lookup_insert_eq|]. cbn [clients_num client_status].
  destruct Hp as (Hlc & _ & Hp & _).
  assert (Hnum : u32 (clients_num st + 1) = clients_num st + 1).
  { apply wrap_small. unfold MAX_CONNECTION_NUM in *. lia. }
  split; [done|]. split.
  { apply list_elem_of_insert. apply first_index_lookup in Hk as (? & Hk & _). by eapply lookup_lt_Some. }
  split; [by rewrite tcp_delete_result by apply Hd|]. split; [by eapply accepted_deleted_get|].
  rewrite E. split; [by apply list_lookup_insert_eq|]. split; [cbn [forget clients_num]; lia|].
  by apply accepted_deleted_used.
Qed.

(** C35. What the database does not report.  A full table makes the entry of a
    new handle a no-op that still returns 0, for every kind of table; closing an
    unknown TCP handle returns 0 as well, while closing an unknown UDP session
    returns [ENOKEY].  A failure to take the mutex is returned and changes nothing. *)
Theorem commu_db_error_results d h :
  db_ok d ->
  (forall ty j t mt l p single magic,
     table d ty j = Some t -> INVALID_HANDLE_ID ∉ handle <$> t ->
     handle_info_set 0 0 ty j h mt l p single magic d = Some (0, d)) /\
  (h ∉ all_handles d -> h <> INVALID_HANDLE_ID ->
     lib_commu_db_tcp_handle_info_delete 0 0 h d = Some (0, d) /\
     lib_commu_db_udp_handle_info_delete 0 0 h d = Some (ENOKEY, d)) /\
  (forall lr ur ty j mt l p single magic, lr <> 0 ->
     handle_info_set lr ur ty j h mt l p single magic d = Some (lr, d) /\
     lib_commu_db_tcp_handle_info_delete lr ur h d = Some (lr, d)).
Proof.
  intros Hd. split_and!.
  - intros ty j t mt l p single magic Ht Hn. erewrite handle_info_set_result by (done || apply Hd).
    by rewrite (proj2 (eq_None_not_Some (first_index _ t))) by (by rewrite has_handle_in).
  - intros Hn Hh. unfold all_handles in Hn. rewrite tcp_delete_result, udp_delete_result by apply Hd.
    unfold tcp_deleted. rewrite (proj2 (find_client_none d h)) by set_solver.
    rewrite (proj2 (find_server_none d h Hd Hh)) by set_solver. split; [done|].
    by rewrite (proj2 (eq_None_not_Some (first_index _ (udp_handle_info d)))) by (rewrite has_handle_in; set_solver).
  - intros lr ur ty j mt l p single magic Hlr%Z.eqb_neq.
    unfold handle_info_set, lib_commu_db_tcp_handle_info_delete, bail_error, mutex_lock.
    cbv [mbind M_bind]. by rewrite (ok_unlocked d Hd), !Hlr.
Qed.

(** ** Instances *)

Definition demo_params : ip_udp_params := IpUdpParams (SessionParams 4789 167772161 3) 0 1.
Definition demo_peer : addr_info := AddrInfo 167772162 40000.
Definition demo_ops : list db_op :=
  [ListenerSet 3 4 1; Accept 3 7 (ip_session_params demo_params) demo_peer 99; UdpSet 9 demo_params 5;
   RxUpdate 7 ANY_HANLDE_DB 100; StatusGet false 3; TcpDelete 7; TcpDelete 7; UdpDelete 8; SessionDeinit 3].

Lemma commu_db_run_invariant_witness :
  exists rets d',
    ('_ ← lib_commu_db_init; run_ops (fun _ => (0, 0)) demo_ops) start_db = Some (rets, d') /\
    length rets = length demo_ops /\ db_ok d'.
Proof. apply commu_db_run_invariant. reflexivity. Defined.

Lemma commu_db_lookup_complete_witness :
  match lib_commu_db_hanlde_info_get 7 ANY_HANLDE_DB (fresh_db start_db) with
  | Some (inl e, _) => e = EINVAL
  | _ => False
  end.
Proof.
  pose proof (commu_db_lookup_complete (fresh_db start_db) 7 (fresh_db_ok _) ltac:(done)) as H.
  vm_compute in H |- *. apply H.
Defined.

Lemma udp_session_round_trip_witness :
  exists i d1 d2,
    lib_commu_db_udp_handle_info_set 0 0 9 demo_params 5 (fresh_db start_db) = Some (0, d1) /\
    lib_commu_db_hanlde_info_get 9 UDP_HANDLE_DB d1 = Some (inr (UdpSlot i, UDP_HANDLE_DB), d1) /\
    lib_commu_db_udp_handle_info_delete 0 0 9 d1 = Some (0, d2) /\
    lib_commu_db_hanlde_info_get 9 UDP_HANDLE_DB d2 = Some (inl ENOKEY, d2).
Proof.
  destruct (udp_session_round_trip (fresh_db start_db) 9 demo_params 5 (fresh_db_ok _))
    as (i & d1 & d2 & x & H1 & H2 & _ & _ & _ & _ & _ & _ & _ & H3 & H4 & _); [vm_decide..|].
  eauto 10.
Defined.

(** A database with one client connection, received bytes close to the limit. *)
Definition demo_db : db :=
  slot_set (fresh_db start_db) (ClientSlot 2)
    (HandleInfo 7 (ConnInfo 0 0 0 0 0) (SockInfo 7 0 1 0 0 (2 ^ 64 - 10) 0)).

Lemma rx_counter_total_witness :
  exists d' x',
    run_ops (fun _ => (0, 0)) (map (RxUpdate 7 ANY_HANLDE_DB) [4; 16]) demo_db = Some ([0; 0], d') /\
    slot_get d' (ClientSlot 2) = Some x' /\ total_sum_bytes_rx (socekt_info x') = 10.
Proof.
  destruct (rx_counter_total (fun _ => (0, 0)) demo_db 7 ANY_HANLDE_DB [4; 16] (ClientSlot 2)
    TCP_CLIENT_HANDLE_DB (HandleInfo 7 (ConnInfo 0 0 0 0 0) (SockInfo 7 0 1 0 0 (2 ^ 64 - 10) 0)))
    as (d' & x' & H1 & H2 & H3 & _); [reflexivity|reflexivity|cbn; lia|]. eauto.
Defined.

Lemma accepted_connection_round_trip_witness :
  exists i d1 d2,
    listener_register 0 0 3 7 (ip_session_params demo_params) demo_peer 99 (fresh_db start_db) = Some (0, d1) /\
    lib_commu_db_hanlde_info_get 7 ANY_HANLDE_DB d1
      = Some (inr (ServerSlot 3 i, TCP_SERVER_HANDLE_DB), d1) /\
    lib_commu_db_tcp_handle_info_delete 0 0 7 d1 = Some (0, d2).
Proof.
  destruct (accepted_connection_round_trip (fresh_db start_db) 3 unused_server 7
    (ip_session_params demo_params) demo_peer 99 (fresh_db_ok _))
    as (i & d1 & d2 & st1 & st2 & H1 & H2 & _ & _ & _ & H3 & _); [vm_decide|vm_decide|reflexivity|vm_decide|].
  by exists i, d1, d2.
Defined.

Definition full_db : db :=
  set_udp (fresh_db start_db)
    (map (fun h => HandleInfo h (ConnInfo 0 0 0 0 0) (SockInfo 0 0 0 0 0 0 0)) (seqZ 3 16)).

Lemma commu_db_error_results_witness :
  handle_info_set 0 0 UDP_HANDLE_DB INVALID_SERVER_ID 50 1 demo_peer demo_peer 0 7 full_db = Some (0, full_db) /\
  lib_commu_db_tcp_handle_info_delete 0 0 50 full_db = Some (0, full_db).
Proof.
  assert (Hok : db_ok full_db).
  { constructor; try done. cbn [full_db set_udp server_status_st server_tcp_handle_info fresh_db].
    apply Forall2_replicate, paired_unused. }
  destruct (commu_db_error_results full_db 50 Hok) as (H1 & H2 & _). split.
  - eapply H1; [reflexivity|vm_decide].
  - apply H2; vm_decide.
Defined.
