(* ===== verification/CommuNet.v ===== *)
(** * Communication library: messages over sockets ([lib_commu.c])

    A message is a ten-byte packed header (payload size, the sender's magic
    number, version, message type; the first two in network order) followed by
    the payload.  Over UDP both go in one datagram; over TCP they go one after
    the other in the byte stream, each through a loop that repeats [send] or
    [recv] until all bytes are through.  The operating system's sockets are a
    parameter: a class of calls, and a class of what a connected stream socket
    promises.  Every function is a computation on the connection database and
    the state of the sockets; it has no result when it would access memory
    outside a buffer. *)

From S2P Require Import Prelude Bytes CommuDb.

Local Open Scope Z_scope.
Local Open Scope list_scope.

Definition MSG_VERSION : Z := 1.
Definition MAX_MTU : Z := 1500.
Definition MAX_IPV4_HEADER_SIZE : Z := 60.
Definition UDP_HEADER_SIZE : Z := 8.
Definition MAX_UDP_MSG_SIZE : Z := MAX_MTU - MAX_IPV4_HEADER_SIZE - UDP_HEADER_SIZE.
Definition SEND_REPEAT_NUM : nat := 500.
Definition RECV_REPEAT_NUM : nat := 500.
Definition MAX_TCP_PAYLOAD : Z := 4094.
Definition MAX_JUMBO_TCP_PAYLOAD : Z := 1024 * 1600.

(** ** Data *)

Record msg_metadata := Metadata {
  payload_size : Z; trailer : Z; version : Z; md_msg_type : Z }.

Definition metadata_sizeof : Z := 10.

(** The packed structure in memory. *)
Definition metadata_bytes (m : msg_metadata) : bytes :=
  le32 (payload_size m) ++ le32 (trailer m) ++ [version m; md_msg_type m].
Definition metadata_of_bytes (b : bytes) : msg_metadata :=
  Metadata (of_le (take 4 b)) (of_le (take 4 (drop 4 b))) (nth 8 b 0) (nth 9 b 0).

Record recv_payload_data := RecvData {
  msg_num_recv : Z; rd_msg_type : list Z; rd_payload : list bytes; rd_payload_len : list Z;
  jumbo_payload : bytes; jumbo_payload_len : Z; jumbo_msg_type : Z }.

(** ** The operating system *)

(** A call fails with a (positive) error number or succeeds. *)
Class Sockets (K : Type) := {
  sys_send : Z -> bytes -> K -> (positive + nat) * K;
  sys_recv : Z -> nat -> K -> (positive + bytes) * K;
  sys_sendto : Z -> addr_info -> bytes -> K -> (positive + nat) * K;
  sys_recvfrom : Z -> nat -> K -> (positive + bytes * addr_info) * K }.

(** The database, the operating system, and whether the library is initialised. *)
Record world (K : Type) := World { w_db : db; w_os : K; w_init : bool }.
Arguments World {K} _ _ _.
Arguments w_db {K} _.
Arguments w_os {K} _.
Arguments w_init {K} _.

Definition N (K A : Type) : Type := world K -> option (A * world K).

#[export] Instance N_ret K : MRet (N K) := fun _ a w => Some (a, w).
#[export] Instance N_bind K : MBind (N K) := fun _ _ k c w =>
  match c w with Some (a, w) => k a w | None => None end.

Definition on_db {K A} (c : M A) : N K A := fun w =>
  match c (w_db w) with Some (a, d) => Some (a, World d (w_os w) (w_init w)) | None => None end.
Definition on_os {K A} (c : K -> A * K) : N K A := fun w =>
  let '(a, k) := c (w_os w) in Some (a, World (w_db w) k (w_init w)).
Definition access {K A} (o : option A) : N K A := fun w =>
  match o with Some a => Some (a, w) | None => None end.
Definition init_done {K} : N K bool := fun w => Some (w_init w, w).

Section Messages.
Context {K : Type} {OS : Sockets K}.

(** The end of the low-level functions: bytes that went through are counted, and
    a failure to count them is reported when there is no other error. *)
Definition count_tx (h : Z) (ty : db_type) (n err : Z) : N K Z :=
  if decide (n > 0) then
    err_bail ← on_db (handle_total_tx_update h ty n);
    mret (if decide (err_bail <> 0 /\ err = 0) then err_bail else err)
  else mret err.
Definition count_rx (h : Z) (ty : db_type) (n err : Z) : N K Z :=
  if decide (n > 0) then
    err_bail ← on_db (handle_total_rx_update h ty n);
    mret (if decide (err_bail <> 0 /\ err = 0) then err_bail else err)
  else mret err.

(** ** Low-level transfers *)

(** Yields the error and what [*buffer_len] becomes. *)
Definition comm_lib_udp_ll_send (h : Z) (recipient_st : addr_info) (buffer : bytes) (buffer_len : Z)
    : N K (Z * Z) :=
  data ← access (read_bytes buffer 0 buffer_len);
  r ← on_os (sys_sendto h recipient_st data);
  match r with
  | inl e => mret (Zpos e, 0)
  | inr nb_sent =>
      let nb_sent := Z.of_nat nb_sent in
      if decide (nb_sent = buffer_len)
      then err ← count_tx h UDP_HANDLE_DB nb_sent 0; mret (err, buffer_len)
      else err ← count_tx h UDP_HANDLE_DB nb_sent EIO; mret (err, nb_sent)
  end.

(** Yields the error, the buffer, [*payload_size] and the sender. *)
Definition comm_lib_udp_ll_recv (h : Z) (payload : bytes) (payload_size : Z) (addresser_st : addr_info)
    : N K (Z * bytes * Z * addr_info) :=
  r ← on_os (sys_recvfrom h (Z.to_nat payload_size));
  match r with
  | inl e => mret (Zpos e, payload, 0, addresser_st)
  | inr (data, addresser) =>
      payload ← access (write_bytes payload 0 data);
      let nb_recvd := Z.of_nat (length data) in
      err ← count_rx h UDP_HANDLE_DB nb_recvd 0;
      mret (err, payload, nb_recvd, addresser)
  end.

(** The loop of the blocking send, with [repeat] calls left before the limit:
    the error, what [*buffer_len] becomes, and the bytes sent. *)
Fixpoint tcp_send_loop (repeat : nat) (h : Z) (buffer : bytes) (buffer_len total_bytes bytes_left : Z)
    : N K (Z * Z * Z) :=
  if decide (total_bytes < buffer_len) then
    match repeat with
    | O => mret (EIO, total_bytes, total_bytes)
    | S repeat =>
        data ← access (read_bytes buffer total_bytes bytes_left);
        r ← on_os (sys_send h data);
        match r with
        | inl e => mret (Zpos e, 0, total_bytes)
        | inr nb_sent =>
            tcp_send_loop repeat h buffer buffer_len (u32 (total_bytes + Z.of_nat nb_sent))
              (bytes_left - Z.of_nat nb_sent)
        end
    end
  else mret (0, total_bytes, total_bytes).

Definition comm_lib_tcp_ll_send_blocking (h : Z) (buffer : bytes) (buffer_len : Z)
    (handle_db_type : db_type) : N K (Z * Z) :=
  '(err, len, total) ← tcp_send_loop SEND_REPEAT_NUM h buffer buffer_len 0 buffer_len;
  err ← count_tx h handle_db_type total err;
  mret (err, len).

(** The loop of the blocking receive: the error, the buffer, what [*buffer_len]
    becomes, and the bytes received. *)
Fixpoint tcp_recv_loop (repeat : nat) (h : Z) (buffer : bytes) (buffer_len total_bytes : Z)
    : N K (Z * bytes * Z * Z) :=
  if decide (total_bytes <> buffer_len) then
    match repeat with
    | O => mret (EIO, buffer, total_bytes, total_bytes)
    | S repeat =>
        r ← on_os (sys_recv h (Z.to_nat (u32 (buffer_len - total_bytes))));
        match r with
        | inl e => mret (Zpos e, buffer, 0, total_bytes)
        | inr [] => mret (ECONNRESET, buffer, 0, total_bytes)
        | inr data =>
            buffer ← access (write_bytes buffer total_bytes data);
            tcp_recv_loop repeat h buffer buffer_len (u32 (total_bytes + Z.of_nat (length data)))
        end
    end
  else mret (0, buffer, total_bytes, total_bytes).

Definition comm_lib_tcp_ll_recv_blocking (h : Z) (buffer : bytes) (buffer_len : Z) : N K (Z * bytes * Z) :=
  '(err, buffer, len, total) ← tcp_recv_loop RECV_REPEAT_NUM h buffer buffer_len 0;
  err ← count_rx h ANY_HANLDE_DB total err;
  mret (err, buffer, len).

(** ** The message header *)

Definition parse_metadata_from_buffer (payload : bytes) : N K msg_metadata :=
  data ← access (read_bytes payload 0 metadata_sizeof);
  mret (metadata_of_bytes data).

Definition metadata_set (v payload_size : Z) (info : handle_info) : msg_metadata :=
  Metadata (htonl payload_size) (htonl (local_magic (socekt_info info))) v (u8 (msg_type (conn_info info))).

Definition with_peer_magic (x : handle_info) (m : Z) : handle_info :=
  let i := socekt_info x in
  HandleInfo (handle x) (conn_info x)
    (SockInfo (socket i) (state i) (is_single_peer i) (local_magic i) m
       (total_sum_bytes_rx i) (total_sum_bytes_tx i)).

(** Yields the error and the header in host order; the first accepted header of a
    connection fixes the peer's magic. *)
Definition validate_metadata_info (m : msg_metadata) (max_paylod_size : Z) (s : slot)
    : N K (Z * msg_metadata) :=
  let m := Metadata (ntohl (payload_size m)) (ntohl (trailer m)) (version m) (md_msg_type m) in
  if decide (version m <> MSG_VERSION) then mret (EIO, m)
  else if decide (max_paylod_size < payload_size m \/ payload_size m = 0) then mret (EOVERFLOW, m)
  else
    x ← on_db (slot_load s);
    bad ← (if decide (peer_magic (socekt_info x) = INVALID_MAGIC)
           then on_db (slot_store s (with_peer_magic x (trailer m)));; mret false
           else mret (bool_decide (is_single_peer (socekt_info x) <> 0 /\
                                   peer_magic (socekt_info x) <> trailer m)));
    if (bad : bool) then mret (EBADE, m)
    else
      x ← on_db (slot_load s);
      if decide (md_msg_type m <> msg_type (conn_info x)) then mret (EBADE, m) else mret (0, m).

(** ** UDP messages *)

Definition comm_lib_udp_send (h : Z) (recipient_st : addr_info) (payload : option bytes)
    (payload_len : option Z) : N K (Z * option Z) :=
  init ← init_done;
  if negb init then mret (- EPERM, payload_len)
  else
    match payload, payload_len with
    | None, _ | _, None => mret (- EINVAL, payload_len)
    | Some payload, Some len =>
        if decide (len > MAX_UDP_MSG_SIZE - metadata_sizeof) then mret (- EOVERFLOW, Some len)
        else
          found ← on_db (lib_commu_db_hanlde_info_get h UDP_HANDLE_DB);
          match found with
          | inl err => mret (- err, Some len)
          | inr (s, _) =>
              x ← on_db (slot_load s);
              data ← access (read_bytes payload 0 len);
              buffer ← access (write_bytes (replicate (Z.to_nat MAX_MTU) 0) 0
                                 (metadata_bytes (metadata_set MSG_VERSION len x)));
              buffer ← access (write_bytes buffer metadata_sizeof data);
              '(err, buffer_len) ← comm_lib_udp_ll_send h recipient_st buffer (metadata_sizeof + len);
              if decide (err <> 0) then
                mret (- EIO, Some (if decide (buffer_len > metadata_sizeof)
                                   then buffer_len - metadata_sizeof else 0))
              else mret (0, Some len)
          end
    end.

(** [payload] is the caller's buffer.  A null [payload_len] is written through on
    the way out. *)
Definition comm_lib_udp_recv (h : Z) (addresser_st : option addr_info) (payload : option bytes)
    (payload_len : option Z) : N K (Z * option addr_info * option bytes * Z) :=
  let bail err a :=
    match payload_len with
    | Some _ => mret (- err, a, payload, 0)
    | None => access None
    end in
  init ← init_done;
  if negb init then bail EPERM addresser_st
  else
    match payload, payload_len, addresser_st with
    | Some buf, Some len, Some a =>
        if decide (len = 0) then bail EINVAL addresser_st
        else
          found ← on_db (lib_commu_db_hanlde_info_get h UDP_HANDLE_DB);
          match found with
          | inl err => bail err addresser_st
          | inr (s, _) =>
              '(err, buffer, buffer_len, a) ←
                comm_lib_udp_ll_recv h (replicate (Z.to_nat MAX_MTU) 0) MAX_MTU a;
              if decide (err <> 0) then bail err (Some a)
              else if decide (buffer_len < metadata_sizeof) then bail EIO (Some a)
              else
                m ← parse_metadata_from_buffer buffer;
                '(err, m) ← validate_metadata_info m len s;
                if decide (err <> 0) then bail err (Some a)
                else
                  data ← access (read_bytes buffer metadata_sizeof (payload_size m));
                  buf ← access (write_bytes buf 0 data);
                  mret (0, Some a, Some buf, payload_size m)
          end
    | _, _, _ => bail EINVAL addresser_st
    end.

(** ** TCP messages *)

Definition comm_lib_tcp_send_blocking (h : Z) (payload : option bytes) (payload_len : option Z)
    : N K (Z * option Z) :=
  init ← init_done;
  if negb init then mret (- EPERM, payload_len)
  else
    match payload, payload_len with
    | None, _ | _, None => mret (- EINVAL, payload_len)
    | Some payload, Some len =>
        if decide (len > MAX_JUMBO_TCP_PAYLOAD - metadata_sizeof) then mret (- EOVERFLOW, Some len)
        else
          found ← on_db (lib_commu_db_hanlde_info_get h ANY_HANLDE_DB);
          match found with
          | inl err => mret (- err, Some len)
          | inr (s, ty) =>
              x ← on_db (slot_load s);
              '(err, _) ← comm_lib_tcp_ll_send_blocking h
                 (metadata_bytes (metadata_set MSG_VERSION len x)) metadata_sizeof ty;
              if decide (err <> 0) then mret (- err, Some len)
              else
                '(err, len) ← comm_lib_tcp_ll_send_blocking h payload len ty;
                mret (- err, Some len)
          end
    end.

(** The caller's structure with its counts cleared. *)
Definition clear_counts (p : recv_payload_data) : recv_payload_data :=
  RecvData 0 (rd_msg_type p) (rd_payload p) (replicate (length (rd_payload_len p)) 0)
    (jumbo_payload p) 0 (jumbo_msg_type p).

(** The last step of the receive: the payload goes to the first message buffer,
    or to the jumbo buffer when it is larger. *)
Definition recv_body (h : Z) (a : addr_info) (p : recv_payload_data) (m : msg_metadata)
    : N K (Z * option addr_info * option recv_payload_data) :=
  if decide (payload_size m <= MAX_TCP_PAYLOAD) then
    buf ← access (rd_payload p !! 0%nat);
    '(err, buf, len) ← comm_lib_tcp_ll_recv_blocking h buf (payload_size m);
    let p := RecvData (msg_num_recv p) (rd_msg_type p) (<[0%nat := buf]> (rd_payload p))
      (rd_payload_len p) (jumbo_payload p) (jumbo_payload_len p) (jumbo_msg_type p) in
    if decide (err <> 0) then mret (- err, Some a, Some p)
    else
      mret (0, Some a, Some
        (RecvData (u32 (msg_num_recv p + 1)) (<[0%nat := md_msg_type m]> (rd_msg_type p))
           (rd_payload p) (<[0%nat := len]> (rd_payload_len p))
           (jumbo_payload p) (jumbo_payload_len p) (jumbo_msg_type p)))
  else
    '(err, buf, len) ← comm_lib_tcp_ll_recv_blocking h (jumbo_payload p) (payload_size m);
    let p := RecvData (msg_num_recv p) (rd_msg_type p) (rd_payload p)
      (rd_payload_len p) buf (jumbo_payload_len p) (jumbo_msg_type p) in
    if decide (err <> 0) then mret (- err, Some a, Some p)
    else
      mret (0, Some a, Some
        (RecvData (u32 (msg_num_recv p + 1)) (rd_msg_type p) (rd_payload p)
           (rd_payload_len p) (jumbo_payload p) len (md_msg_type m))).

Definition comm_lib_tcp_recv_blocking (h : Z) (addresser_st : option addr_info)
    (payload_data : option recv_payload_data) (max_msgs_to_recv : Z)
    : N K (Z * option addr_info * option recv_payload_data) :=
  init ← init_done;
  if negb init then mret (- EPERM, addresser_st, payload_data)
  else
    match addresser_st, payload_data with
    | None, _ | _, None => mret (- EINVAL, addresser_st, payload_data)
    | Some a, Some p =>
        let p := clear_counts p in
        if decide (max_msgs_to_recv = 0) then mret (- EINVAL, Some a, Some p)
        else if decide (max_msgs_to_recv > 1) then mret (- EPERM, Some a, Some p)
        else
          found ← on_db (lib_commu_db_hanlde_info_get h ANY_HANLDE_DB);
          match found with
          | inl err => mret (- err, Some a, Some p)
          | inr (s, ty) =>
              if decide (ty <> TCP_CLIENT_HANDLE_DB /\ ty <> TCP_SERVER_HANDLE_DB)
              then mret (- EINVAL, Some a, Some p)
              else
                x ← on_db (slot_load s);
                let a := AddrInfo (d_ipv4_addr (conn_info x)) (d_port (conn_info x)) in
                '(err, header, metadata_len) ←
                  comm_lib_tcp_ll_recv_blocking h (replicate (Z.to_nat metadata_sizeof) 0) metadata_sizeof;
                if decide (err <> 0) then mret (- err, Some a, Some p)
                else if decide (metadata_len < metadata_sizeof) then mret (- EIO, Some a, Some p)
                else
                  '(err, m) ← validate_metadata_info (metadata_of_bytes header) MAX_JUMBO_TCP_PAYLOAD s;
                  if decide (err <> 0) then mret (- err, Some a, Some p)
                  else recv_body h a p m
          end
    end.
End Messages.

(** ** Bytes on the wire *)

Lemma metadata_of_metadata_bytes m :
  0 <= payload_size m < 2 ^ 32 -> 0 <= trailer m < 2 ^ 32 -> metadata_of_bytes (metadata_bytes m) = m.
Proof.
  intros H1 H2. destruct m as [p t v mt]. cbn [payload_size trailer] in *.
  unfold metadata_of_bytes, metadata_bytes. cbn [payload_size trailer version md_msg_type].
  f_equal; [by apply (of_le_le32 p)|by apply (of_le_le32 t)].
Qed.

Lemma length_metadata_bytes m : length (metadata_bytes m) = Z.to_nat metadata_sizeof.
Proof. done. Qed.

(** ** Connected stream sockets *)

(** What the messages rely on: a byte sent on a live connection is received at
    the other end once and in order, and each call moves at least [chunk] bytes or all that
    were asked for, where a receive asks for no more than has been sent. *)
Class StreamSockets (K : Type) {OS : Sockets K} := {
  live : Z -> K -> Prop;
  peer_of : Z -> Z;
  in_flight : Z -> K -> bytes;
  chunk : nat;
  chunk_pos : (0 < chunk)%nat;
  send_stream h d k :
    live h k -> d <> [] ->
    exists n k', sys_send h d k = (inr n, k') /\ (Nat.min chunk (length d) <= n <= length d)%nat /\
      in_flight (peer_of h) k' = in_flight (peer_of h) k ++ take n d /\
      (forall h', h' <> peer_of h -> in_flight h' k' = in_flight h' k) /\
      (forall h', live h' k -> live h' k');
  recv_stream h n k :
    live h k -> (0 < n <= length (in_flight h k))%nat ->
    exists data k', sys_recv h n k = (inr data, k') /\ (Nat.min chunk n <= length data <= n)%nat /\
      in_flight h k = data ++ in_flight h k' /\
      (forall h', h' <> h -> in_flight h' k' = in_flight h' k) /\
      (forall h', live h' k -> live h' k') }.

Section Streams.
Context {K : Type} {OS : Sockets K} {SS : StreamSockets K}.

(** What a transfer leaves of the sockets other than the stream it moves. *)
Definition others_kept (h : Z) (k k' : K) : Prop :=
  (forall h', h' <> h -> in_flight h' k' = in_flight h' k) /\ (forall h', live h' k -> live h' k').

Lemma others_kept_refl h k : others_kept h k k.
Proof. by split. Qed.
Lemma others_kept_trans h k1 k2 k3 : others_kept h k1 k2 -> others_kept h k2 k3 -> others_kept h k1 k3.
Proof. intros [A1 B1] [A2 B2]. split; [|by auto]. intros h' Hh. by rewrite A2, A1. Qed.

(** The send loop moves the rest of the buffer when the calls left suffice. *)
Lemma tcp_send_loop_spec repeat h buf len total (w : world K) :
  live h (w_os w) -> 0 <= total <= len -> len <= Z.of_nat (length buf) -> len < 2 ^ 32 ->
  len - total <= Z.of_nat (repeat * chunk) ->
  exists k', tcp_send_loop repeat h buf len total (len - total) w
      = Some (0, len, len, World (w_db w) k' (w_init w)) /\
    in_flight (peer_of h) k'
      = in_flight (peer_of h) (w_os w) ++ take (Z.to_nat (len - total)) (drop (Z.to_nat total) buf) /\
    others_kept (peer_of h) (w_os w) k'.
Proof.
  revert total w. induction repeat as [|repeat IH]; intros total w Hlive Ht Hb Hlen Hr; cbn [tcp_send_loop].
  - rewrite decide_False by lia. assert (total = len) as -> by lia. exists (w_os w). destruct w.
    rewrite Z.sub_diag. cbn. rewrite app_nil_r. auto using others_kept_refl.
  - case_decide as Hlt.
    2:{ assert (total = len) as -> by lia. exists (w_os w). destruct w.
        rewrite Z.sub_diag. cbn. rewrite app_nil_r. auto using others_kept_refl. }
    rewrite read_bytes_eq by lia. set (d := take _ _).
    assert (Hd : length d = Z.to_nat (len - total)).
    { unfold d. rewrite length_take, length_drop. lia. }
    destruct (send_stream h d (w_os w) Hlive) as (n & k1 & Hs & Hn & Hf & Ho & Hl).
    { intros E. rewrite E in Hd. cbn in Hd. lia. }
    cbv [mbind N_bind access on_os]. rewrite Hs. pose proof chunk_pos as Hc.
    rewrite wrap_small by lia.
    replace (len - total - Z.of_nat n) with (len - (total + Z.of_nat n)) by lia.
    destruct (IH (total + Z.of_nat n) (World (w_db w) k1 (w_init w))) as (k' & Hrun & Hf' & Ho'); cbn; auto; try lia.
    exists k'. split; [done|]. split; [|by eapply others_kept_trans; [|done]].
    rewrite Hf'. cbn [w_os]. rewrite Hf, <- (assoc_L (++)). f_equal.
    unfold d. rewrite take_take, Nat.min_l by lia.
    replace (Z.to_nat (total + Z.of_nat n)) with (Z.to_nat total + n)%nat by lia.
    rewrite <- drop_drop. set (e := drop (Z.to_nat total) buf).
    replace (Z.to_nat (len - total)) with (n + Z.to_nat (len - (total + Z.of_nat n)))%nat by lia.
    by rewrite take_plus.
Qed.

(** The receive loop fills the rest of the buffer when the calls left suffice. *)
Lemma tcp_recv_loop_spec repeat h buf len total data rest (w : world K) :
  live h (w_os w) -> 0 <= total <= len -> len <= Z.of_nat (length buf) -> len < 2 ^ 32 ->
  len - total <= Z.of_nat (repeat * chunk) ->
  in_flight h (w_os w) = data ++ rest -> Z.of_nat (length data) = len - total ->
  exists k', tcp_recv_loop repeat h buf len total w
      = Some (0, take (Z.to_nat total) buf ++ data ++ drop (Z.to_nat len) buf, len, len,
              World (w_db w) k' (w_init w)) /\
    in_flight h k' = rest /\ others_kept h (w_os w) k'.
Proof.
  revert total buf data w. induction repeat as [|repeat IH];
    intros total buf data w Hlive Ht Hb Hlen Hr Hf Hd; cbn [tcp_recv_loop].
  - rewrite decide_False by lia. assert (total = len) as -> by lia. exists (w_os w).
    destruct data; [|cbn in Hd; lia]. rewrite app_nil_l, take_drop. destruct w. auto using others_kept_refl.
  - case_decide as Hlt.
    2:{ exists (w_os w). assert (total = len) as -> by lia. 
        destruct data; [|cbn in Hd; lia]. rewrite app_nil_l, take_drop. destruct w. auto using others_kept_refl. }
    rewrite wrap_small by lia.
    destruct (recv_stream h (Z.to_nat (len - total)) (w_os w) Hlive) as (d & k1 & Hs & Hn & Hf1 & Ho & Hl).
    { rewrite Hf, length_app. lia. }
    cbv [mbind N_bind access on_os]. rewrite Hs. pose proof chunk_pos as Hc.
    rewrite Hf in Hf1. 
    assert (exists data', data = d ++ data' /\ data' ++ rest = in_flight h k1) as (data' & -> & Hf2).
    { exists (drop (length d) data). split.
      - rewrite <- (take_drop (length d) data) at 1. f_equal.
        assert (E : take (length d) (data ++ rest) = take (length d) (d ++ in_flight h k1)) by by rewrite Hf1.
        rewrite take_app_le, take_app_length in E by lia. done.
      - assert (E : drop (length d) (data ++ rest) = drop (length d) (d ++ in_flight h k1)) by by rewrite Hf1.
        rewrite drop_app_le, drop_app_length in E by lia. done. }
    rewrite length_app in Hd. destruct d as [|b0 d]; [cbn in Hn; lia|].
    rewrite write_bytes_eq by lia. rewrite wrap_small by lia. set (ds := b0 :: d) in *.
    destruct (IH (total + Z.of_nat (length ds)) (take (Z.to_nat total) buf ++ ds ++ drop (Z.to_nat total + length ds) buf)
      data' (World (w_db w) k1 (w_init w))) as (k' & Hrun & Hf' & Ho'); cbn [w_os]; auto; try lia.
    { rewrite !length_app, length_take, length_drop. lia. }
    exists k'. cbn [w_db w_init w_os] in *. rewrite Hrun. split; [|split; [done|]].
    + destruct (write_further (Z.to_nat total) (Z.to_nat len) ds buf) as [E1 E2]; [lia..|].
      replace (Z.to_nat (total + Z.of_nat (length ds))) with (Z.to_nat total + length ds)%nat by lia.
      by rewrite E1, E2, <- !(assoc_L (++)).
    + by eapply others_kept_trans; [|done].
Qed.
End Streams.

(** ** A handle's entry during a transfer *)

(** A lookup of the handle yields this entry. *)
Definition entry_at (d : db) (h : Z) (s : slot) (ty : db_type) (x : handle_info) : Prop :=
  lib_commu_db_hanlde_info_get h ANY_HANLDE_DB d = Some (inr (s, ty), d) /\
  lib_commu_db_hanlde_info_get h ty d = Some (inr (s, ty), d) /\ slot_get d s = Some x.

Lemma entry_at_any d h s ty :
  lib_commu_db_hanlde_info_get h ANY_HANLDE_DB d = Some (inr (s, ty), d) ->
  exists x, entry_at d h s ty x /\ handle x = h.
Proof.
  intros Hg. destruct (handle_get_sound _ _ _ _ _ Hg) as (x & Hx & Hh). exists x. split; [|done].
  split; [done|]. split; [|done]. revert Hg. unfold lib_commu_db_hanlde_info_get.
  cbv [mbind M_bind gets mret M_ret id].
  destruct (find_client d h) eqn:Hc, (find_server d h) eqn:Hs, (find_udp d h) eqn:Hu; intros [= <- <-];
    by rewrite ?Hc, ?Hs, ?Hu.
Qed.

Lemma get_touch d h ty ty' s x y :
  lib_commu_db_hanlde_info_get h ty d = Some (inr (s, ty'), d) ->
  slot_get d s = Some x -> handle y = handle x ->
  lib_commu_db_hanlde_info_get h ty (slot_set d s y) = Some (inr (s, ty'), slot_set d s y).
Proof.
  intros Hg Hx Hy. pose proof (handle_get_touch d h ty s x y Hx Hy) as Ht.
  destruct (handle_get_pure (slot_set d s y) h ty) as [r Hr]. rewrite Hr, Hg in Ht. cbn in Ht. congruence.
Qed.

Lemma entry_at_touch d h s ty x y :
  entry_at d h s ty x -> handle y = handle x -> entry_at (slot_set d s y) h s ty y.
Proof.
  intros (Ha & Ht & Hx) Hy. split_and!; [by eapply get_touch..|by eapply slot_get_set].
Qed.

(** The parts of an entry that counting bytes leaves. *)
Definition same_entry (x y : handle_info) : Prop :=
  handle y = handle x /\ conn_info y = conn_info x /\
  is_single_peer (socekt_info y) = is_single_peer (socekt_info x) /\
  local_magic (socekt_info y) = local_magic (socekt_info x) /\
  peer_magic (socekt_info y) = peer_magic (socekt_info x).

#[export] Instance same_entry_preorder : PreOrder same_entry.
Proof.
  split; [by intros x|]. intros x y z (? & ? & ? & ? & ?) (? & ? & ? & ? & ?). split_and!; congruence.
Qed.

Lemma same_entry_add_tx x n : same_entry x (add_tx x n).
Proof. by split_and!. Qed.
Lemma same_entry_add_rx x n : same_entry x (add_rx x n).
Proof. by split_and!. Qed.

Section Counting.
Context {K : Type}.
Implicit Types (w : world K).

Lemma count_tx_spec h ty s x n w :
  entry_at (w_db w) h s ty x ->
  exists d' x', count_tx h ty n 0 w = Some (0, World d' (w_os w) (w_init w)) /\
    entry_at d' h s ty x' /\ same_entry x x'.
Proof.
  intros He. unfold count_tx. case_decide; [|destruct w; by exists w_db0, x].
  pose proof He as (Ha & Ht & Hx).
  unfold handle_total_tx_update, on_db. cbv [mbind M_bind N_bind]. rewrite Ht. unfold slot_load. rewrite Hx.
  exists (slot_set (w_db w) s (add_tx x n)), (add_tx x n).
  split; [done|]. split; [by eapply entry_at_touch|apply same_entry_add_tx].
Qed.

Lemma count_rx_spec h ty s x n w :
  entry_at (w_db w) h s ty x ->
  exists d' x', count_rx h ANY_HANLDE_DB n 0 w = Some (0, World d' (w_os w) (w_init w)) /\
    entry_at d' h s ty x' /\ same_entry x x'.
Proof.
  intros He. unfold count_rx. case_decide; [|destruct w; by exists w_db0, x].
  pose proof He as (Ha & Ht & Hx).
  unfold handle_total_rx_update, on_db. cbv [mbind M_bind N_bind]. rewrite Ha. unfold slot_load. rewrite Hx.
  exists (slot_set (w_db w) s (add_rx x n)), (add_rx x n).
  split; [done|]. split; [by eapply entry_at_touch|apply same_entry_add_rx].
Qed.
End Counting.

Section TcpMessages.
Context {K : Type} {OS : Sockets K} {SS : StreamSockets K}.
Implicit Types (w : world K).

Lemma ll_send_spec h buf len ty s x w :
  live h (w_os w) -> entry_at (w_db w) h s ty x ->
  0 <= len <= Z.of_nat (length buf) -> len < 2 ^ 32 -> len <= Z.of_nat (SEND_REPEAT_NUM * chunk) ->
  exists d' k' x', comm_lib_tcp_ll_send_blocking h buf len ty w
      = Some (0, len, World d' k' (w_init w)) /\
    entry_at d' h s ty x' /\ same_entry x x' /\
    in_flight (peer_of h) k' = in_flight (peer_of h) (w_os w) ++ take (Z.to_nat len) buf /\
    others_kept (peer_of h) (w_os w) k'.
Proof.
  intros Hl He Hlen H32 Hr. unfold comm_lib_tcp_ll_send_blocking.
  destruct (tcp_send_loop_spec SEND_REPEAT_NUM h buf len 0 w) as (k' & Hrun & Hf & Ho); auto; try lia.
  rewrite Z.sub_0_r in Hrun, Hf. cbv [mbind N_bind]. rewrite Hrun.
  destruct (count_tx_spec h ty s x len (World (w_db w) k' (w_init w)) He) as (d' & x' & Hct & He' & Hsame).
  cbv [mbind N_bind] in *. rewrite Hct. exists d', k', x'. auto.
Qed.

Lemma ll_recv_spec h buf len ty s x data rest w :
  live h (w_os w) -> entry_at (w_db w) h s ty x ->
  0 <= len <= Z.of_nat (length buf) -> len < 2 ^ 32 -> len <= Z.of_nat (RECV_REPEAT_NUM * chunk) ->
  in_flight h (w_os w) = data ++ rest -> Z.of_nat (length data) = len ->
  exists d' k' x', comm_lib_tcp_ll_recv_blocking h buf len w
      = Some (0, data ++ drop (Z.to_nat len) buf, len, World d' k' (w_init w)) /\
    entry_at d' h s ty x' /\ same_entry x x' /\
    in_flight h k' = rest /\ others_kept h (w_os w) k'.
Proof.
  intros Hl He Hlen H32 Hr Hf Hd. unfold comm_lib_tcp_ll_recv_blocking.
  destruct (tcp_recv_loop_spec RECV_REPEAT_NUM h buf len 0 data rest w) as (k' & Hrun & Hf' & Ho); auto; try lia.
  cbv [mbind N_bind]. rewrite Hrun.
  destruct (count_rx_spec h ty s x len (World (w_db w) k' (w_init w)) He) as (d' & x' & Hct & He' & Hsame).
  cbv [mbind N_bind] in *. rewrite Hct. exists d', k', x'. auto.
Qed.

(** The bytes of a message sent through an entry. *)
Definition frame (x : handle_info) (p : bytes) : bytes :=
  metadata_bytes (metadata_set MSG_VERSION (Z.of_nat (length p)) x) ++ p.

Lemma frame_same x y p : same_entry x y -> frame y p = frame x p.
Proof. intros (_ & Hc & _ & Hm & _). unfold frame, metadata_set. by rewrite Hc, Hm. Qed.

(** The message sizes one call can move. *)
Definition sendable (p : bytes) : Prop :=
  0 < Z.of_nat (length p) <= MAX_JUMBO_TCP_PAYLOAD - metadata_sizeof /\
  (length p <= SEND_REPEAT_NUM * chunk)%nat.

Lemma tcp_send_spec h p ty s x w :
  w_init w = true -> live h (w_os w) -> entry_at (w_db w) h s ty x -> sendable p ->
  exists d' k' x', comm_lib_tcp_send_blocking h (Some p) (Some (Z.of_nat (length p))) w
      = Some (0, Some (Z.of_nat (length p)), World d' k' true) /\
    entry_at d' h s ty x' /\ same_entry x x' /\
    in_flight (peer_of h) k' = in_flight (peer_of h) (w_os w) ++ frame x p /\
    others_kept (peer_of h) (w_os w) k'.
Proof.
  intros Hi Hl He [Hp Hc]. pose proof He as (Ha & _ & Hx). pose proof (@chunk_pos K OS SS) as Hc0.
  unfold comm_lib_tcp_send_blocking. cbv [mbind N_bind]. unfold init_done. rewrite Hi. cbn [negb].
  rewrite decide_False by lia. unfold on_db at 1. rewrite Ha. unfold on_db at 1, slot_load. cbn [w_db w_os w_init].
  rewrite Hx. set (m := metadata_bytes _).
  destruct (ll_send_spec h m metadata_sizeof ty s x w) as (d1 & k1 & x1 & H1 & He1 & Hs1 & Hf1 & Ho1);
    [done|done|unfold m; rewrite length_metadata_bytes; unfold metadata_sizeof; lia
    |unfold metadata_sizeof; lia|unfold metadata_sizeof, SEND_REPEAT_NUM; lia|].
  destruct w as [d k i]. cbn [w_db w_os w_init] in *. rewrite H1. cbv beta iota. rewrite decide_False by lia.
  destruct (ll_send_spec h p (Z.of_nat (length p)) ty s x1 (World d1 k1 i)) as (d2 & k2 & x2 & H2 & He2 & Hs2 & Hf2 & Ho2);
    [by apply Ho1|done|lia|unfold MAX_JUMBO_TCP_PAYLOAD, metadata_sizeof in *; lia|lia|].
  rewrite H2. subst i. exists d2, k2, x2. split; [done|]. split; [done|]. split; [by etrans|].
  split; [|by eapply others_kept_trans]. cbn [w_os] in *. rewrite Hf2, Hf1, <- (assoc_L (++)). f_equal.
  unfold frame. fold m. rewrite Nat2Z.id, (take_ge p) by lia. done.
Qed.

(** A receiver's entry accepts the messages of a sender's. *)
Definition accepts (x y : handle_info) : Prop :=
  u8 (msg_type (conn_info y)) = msg_type (conn_info x) /\
  (peer_magic (socekt_info x) = INVALID_MAGIC \/ is_single_peer (socekt_info x) = 0 \/
   peer_magic (socekt_info x) = local_magic (socekt_info y)).

(** The receiver's entry after the header of an accepted message. *)
Definition learn_peer (x : handle_info) (magic : Z) : handle_info :=
  if decide (peer_magic (socekt_info x) = INVALID_MAGIC) then with_peer_magic x magic else x.

(** The database after it. *)
Definition learnt (d : db) (s : slot) (x : handle_info) (magic : Z) : db :=
  if decide (peer_magic (socekt_info x) = INVALID_MAGIC) then slot_set d s (with_peer_magic x magic) else d.

Lemma validate_accepts s x y len max w :
  slot_get (w_db w) s = Some x -> accepts x y ->
  0 < len <= max -> len < 2 ^ 32 -> 0 <= local_magic (socekt_info y) < 2 ^ 32 ->
  validate_metadata_info (metadata_set MSG_VERSION len y) max s w
  = Some (0, Metadata len (local_magic (socekt_info y)) MSG_VERSION (u8 (msg_type (conn_info y))),
          World (learnt (w_db w) s x (local_magic (socekt_info y))) (w_os w) (w_init w)).
Proof.
  intros Hx [Hty Hpm] Hlen H32 Hmag.
  unfold validate_metadata_info, metadata_set. cbn [payload_size trailer version md_msg_type].
  rewrite !ntohl_htonl by lia. rewrite decide_False by lia. rewrite decide_False by lia.
  cbv [mbind N_bind]. unfold on_db at 1, slot_load at 1. rewrite Hx.
  destruct w as [d k i]. cbn [w_db w_os w_init] in *. unfold learnt. case_decide as Hinv.
  - unfold on_db, slot_store, modify. cbn [w_db w_os w_init mret N_ret]. unfold slot_load.
    rewrite (slot_get_set _ _ _ _ Hx). cbn [w_db w_os w_init with_peer_magic conn_info].
    by rewrite decide_False by (rewrite Hty; lia).
  - unfold mret, N_ret. rewrite bool_decide_false by naive_solver.
    unfold on_db, slot_load. cbn [w_db w_os w_init]. rewrite Hx.
    by rewrite decide_False by (rewrite Hty; lia).
Qed.

Lemma entry_at_learnt d h s ty x magic :
  entry_at d h s ty x -> entry_at (learnt d s x magic) h s ty (learn_peer x magic).
Proof. intros He. unfold learnt, learn_peer. case_decide; [by eapply entry_at_touch|done]. Qed.

Lemma learn_peer_accepts x y :
  accepts x y -> accepts (learn_peer x (local_magic (socekt_info y))) y.
Proof.
  intros [Ht Hp]. unfold learn_peer. case_decide; [|by split]. split; [done|]. cbn. auto.
Qed.

Lemma accepts_same x x' y y' : same_entry x x' -> same_entry y y' -> accepts x y -> accepts x' y'.
Proof.
  intros (_ & C1 & S1 & _ & P1) (_ & C2 & _ & M2 & _) [A1 A2]. unfold accepts.
  by rewrite C1, S1, P1, C2, M2.
Qed.

(** A caller's structure with buffers of the declared sizes. *)
Definition pd_ok (p : recv_payload_data) : Prop :=
  (exists b, rd_payload p !! 0%nat = Some b /\ Z.of_nat (length b) = MAX_TCP_PAYLOAD) /\
  (0 < length (rd_payload_len p))%nat /\
  Z.of_nat (length (jumbo_payload p)) = MAX_JUMBO_TCP_PAYLOAD.

(** The message a caller finds in its structure. *)
Definition received (p : recv_payload_data) : option bytes :=
  if decide (msg_num_recv p <> 1) then None
  else if decide (jumbo_payload_len p > 0)
  then Some (take (Z.to_nat (jumbo_payload_len p)) (jumbo_payload p))
  else b ← rd_payload p !! 0%nat; l ← rd_payload_len p !! 0%nat; Some (take (Z.to_nat l) b).

Lemma recv_body_spec h a pd m data rest ty s x w :
  live h (w_os w) -> entry_at (w_db w) h s ty x -> pd_ok pd ->
  msg_num_recv pd = 0 -> jumbo_payload_len pd = 0 ->
  in_flight h (w_os w) = data ++ rest -> payload_size m = Z.of_nat (length data) -> sendable data ->
  exists d' k' x' pd', recv_body h a pd m w = Some (0, Some a, Some pd', World d' k' (w_init w)) /\
    received pd' = Some data /\ pd_ok pd' /\ entry_at d' h s ty x' /\ same_entry x x' /\
    in_flight h k' = rest /\ others_kept h (w_os w) k'.
Proof.
  intros Hl He ((b & Hb & Hlb) & Hlen & Hj) Hn Hjl Hf Hm [Hp Hc]. unfold recv_body.
  unfold MAX_TCP_PAYLOAD, MAX_JUMBO_TCP_PAYLOAD, metadata_sizeof, SEND_REPEAT_NUM, RECV_REPEAT_NUM in *.
  case_decide as Hsz; cbv [mbind N_bind access]; [rewrite Hb|].
  - destruct (ll_recv_spec h b (payload_size m) ty s x data rest w) as (d' & k' & x' & Hr & He' & Hs & Hf' & Ho);
      [done|done|lia|lia|unfold RECV_REPEAT_NUM; lia|done|lia|].
    rewrite Hr. cbv beta iota. rewrite decide_False by lia.
    eexists d', k', x', _. split; [done|]. split_and!; try done.
    + unfold received. cbn [msg_num_recv jumbo_payload_len rd_payload rd_payload_len]. rewrite Hn, Hjl.
      rewrite !decide_False by (try vm_compute; lia || congruence).
      rewrite !list_lookup_insert_eq by (done || by eapply lookup_lt_Some). cbn.
      by rewrite Hm, Nat2Z.id, take_app_length.
    + split_and!; cbn [rd_payload rd_payload_len jumbo_payload]; [|by rewrite length_insert|done].
      exists (data ++ drop (Z.to_nat (payload_size m)) b).
      apply lookup_lt_Some in Hb. rewrite list_lookup_insert_eq by done.
      split; [done|]. rewrite length_app, length_drop. unfold MAX_TCP_PAYLOAD. lia.
  - destruct (ll_recv_spec h (jumbo_payload pd) (payload_size m) ty s x data rest w)
      as (d' & k' & x' & Hr & He' & Hs & Hf' & Ho); [done|done|lia|lia|unfold RECV_REPEAT_NUM; lia|done|lia|].
    rewrite Hr. cbv beta iota. rewrite decide_False by lia.
    eexists d', k', x', _. split; [done|]. split_and!; try done.
    + unfold received. cbn [msg_num_recv jumbo_payload_len rd_payload rd_payload_len jumbo_payload]. rewrite Hn.
      rewrite decide_False by (vm_compute; congruence). rewrite decide_True by lia.
      by rewrite Hm, Nat2Z.id, take_app_length.
    + split_and!; cbn [rd_payload rd_payload_len jumbo_payload]; [by eauto|done|].
      rewrite length_app, length_drop. unfold MAX_JUMBO_TCP_PAYLOAD. lia.
Qed.

(** A receive up to the header: what is left to do with it. *)
Lemma tcp_recv_header h a pd m rest ty s x w :
  w_init w = true -> live h (w_os w) -> entry_at (w_db w) h s ty x ->
  ty = TCP_CLIENT_HANDLE_DB \/ ty = TCP_SERVER_HANDLE_DB ->
  0 <= payload_size m < 2 ^ 32 -> 0 <= trailer m < 2 ^ 32 ->
  in_flight h (w_os w) = metadata_bytes m ++ rest ->
  exists d1 k1 x1 a', comm_lib_tcp_recv_blocking h (Some a) (Some pd) 1 w
      = ('(err, m) ← validate_metadata_info m MAX_JUMBO_TCP_PAYLOAD s;
         if decide (err <> 0) then mret (- err, Some a', Some (clear_counts pd))
         else recv_body h a' (clear_counts pd) m) (World d1 k1 true) /\
    entry_at d1 h s ty x1 /\ same_entry x x1 /\ in_flight h k1 = rest /\ others_kept h (w_os w) k1.
Proof.
  intros Hi Hl He Hty Hm1 Hm2 Hf. destruct w as [d k i]. cbn [w_db w_os w_init] in *. subst i.
  pose proof He as (Ha & _ & Hx). pose proof (@chunk_pos K OS SS) as Hc0.
  unfold comm_lib_tcp_recv_blocking. cbv [mbind N_bind]. unfold init_done. cbn [negb w_init].
  rewrite decide_False by lia. rewrite decide_False by lia. unfold on_db at 1. cbn [w_db w_os w_init].
  rewrite Ha. cbv beta iota. rewrite decide_False by naive_solver.
  unfold on_db at 1, slot_load. cbn [w_db w_os w_init]. rewrite Hx.
  destruct (ll_recv_spec h (replicate (Z.to_nat metadata_sizeof) 0) metadata_sizeof ty s x (metadata_bytes m)
    rest (World d k true)) as (d1 & k1 & x1 & H1 & He1 & Hs1 & Hf1 & Ho1);
    [done|done|rewrite length_replicate; unfold metadata_sizeof; lia|done
    |unfold metadata_sizeof, RECV_REPEAT_NUM; lia|done|done|].
  rewrite H1. cbv beta iota. rewrite decide_False by lia. rewrite decide_False by lia.
  change (drop _ (replicate _ 0)) with (@nil Z). rewrite app_nil_r.
  rewrite metadata_of_metadata_bytes by done. eexists d1, k1, x1, _. done.
Qed.

Lemma pd_ok_clear pd : pd_ok pd -> pd_ok (clear_counts pd).
Proof. intros (? & ? & ?). split_and!; try done. cbn. by rewrite length_replicate. Qed.

Lemma tcp_recv_spec h a pd y data rest ty s x w :
  w_init w = true -> live h (w_os w) -> entry_at (w_db w) h s ty x ->
  ty = TCP_CLIENT_HANDLE_DB \/ ty = TCP_SERVER_HANDLE_DB ->
  accepts x y -> 0 <= local_magic (socekt_info y) < 2 ^ 32 -> pd_ok pd -> sendable data ->
  in_flight h (w_os w) = frame y data ++ rest ->
  exists d' k' x' pd' a', comm_lib_tcp_recv_blocking h (Some a) (Some pd) 1 w
      = Some (0, Some a', Some pd', World d' k' true) /\
    received pd' = Some data /\ pd_ok pd' /\ entry_at d' h s ty x' /\ accepts x' y /\
    in_flight h k' = rest /\ others_kept h (w_os w) k'.
Proof.
  intros Hi Hl He Hty Hacc Hmag Hpd Hsend Hf. pose proof Hsend as [Hlen Hchunk].
  unfold frame in Hf. rewrite <- (assoc_L (++)) in Hf.
  destruct (tcp_recv_header h a pd (metadata_set MSG_VERSION (Z.of_nat (length data)) y) _ ty s x w Hi Hl He Hty (htonl_range _) (htonl_range _) Hf)
    as (d1 & k1 & x1 & a' & -> & He1 & Hs1 & Hf1 & Ho1).
  cbv [mbind N_bind]. rewrite (validate_accepts s x1 y);
    [|apply He1|by eapply accepts_same|unfold metadata_sizeof in *; lia
     |unfold MAX_JUMBO_TCP_PAYLOAD, metadata_sizeof in *; lia|done].
  cbv beta iota. rewrite decide_False by lia. cbn [w_os w_init w_db].
  pose proof (entry_at_learnt d1 h s ty x1 (local_magic (socekt_info y)) He1) as He2.
  set (d2 := learnt _ _ _ _) in *. set (md := Metadata _ _ _ _).
  destruct (recv_body_spec h a' (clear_counts pd) md data rest ty s (learn_peer x1 (local_magic (socekt_info y)))
    (World d2 k1 true)) as (d3 & k3 & x3 & pd' & H3 & Hr & Hok & He3 & Hs3 & Hf3 & Ho3); try done.
  { by apply Ho1. }
  { by apply pd_ok_clear. }
  exists d3, k3, x3, pd', a'. split; [exact H3|]. split_and!; try done.
  - eapply accepts_same; [done|reflexivity|]. apply learn_peer_accepts. by eapply accepts_same.
  - by eapply others_kept_trans.
Qed.

(** C32. What the receiver rejects.  A message whose sender's magic is not the one
    the connection has learnt is refused with [EBADE], and an empty message
    (which the sender's side sends without complaint) with [EOVERFLOW]; nothing
    is delivered, and the header is consumed while the payload stays in the stream. *)
Theorem tcp_recv_rejects h a pd y data rest ty s x w :
  w_init w = true -> live h (w_os w) -> entry_at (w_db w) h s ty x ->
  ty = TCP_CLIENT_HANDLE_DB \/ ty = TCP_SERVER_HANDLE_DB ->
  Z.of_nat (length data) <= MAX_JUMBO_TCP_PAYLOAD - metadata_sizeof ->
  0 <= local_magic (socekt_info y) < 2 ^ 32 ->
  data = [] \/
  (is_single_peer (socekt_info x) <> 0 /\ peer_magic (socekt_info x) <> INVALID_MAGIC /\
   peer_magic (socekt_info x) <> local_magic (socekt_info y)) ->
  in_flight h (w_os w) = frame y data ++ rest ->
  exists d' k' x' pd' a', comm_lib_tcp_recv_blocking h (Some a) (Some pd) 1 w
      = Some (if decide (data = []) then - EOVERFLOW else - EBADE, Some a', Some pd', World d' k' true) /\
    received pd' = None /\ entry_at d' h s ty x' /\ same_entry x x' /\ in_flight h k' = data ++ rest.
Proof.
  intros Hi Hl He Hty Hlen Hmag Hrej Hf. unfold frame in Hf. rewrite <- (assoc_L (++)) in Hf.
  destruct (tcp_recv_header h a pd (metadata_set MSG_VERSION (Z.of_nat (length data)) y) _ ty s x w Hi Hl He Hty (htonl_range _) (htonl_range _) Hf)
    as (d1 & k1 & x1 & a' & -> & He1 & Hs1 & Hf1 & Ho1).
  exists d1, k1, x1, (clear_counts pd), a'.
  split; [|split; [unfold received; by rewrite decide_True by (cbn; lia)|done]].
  pose proof He1 as (_ & _ & Hx1). pose proof Hs1 as (_ & _ & Esp & _ & Epm).
  unfold MAX_JUMBO_TCP_PAYLOAD, metadata_sizeof in Hlen.
  unfold validate_metadata_info, metadata_set. cbn [payload_size trailer version md_msg_type].
  rewrite !ntohl_htonl by lia. cbv [mbind N_bind]. rewrite decide_False by lia.
  destruct data as [|b data].
  { rewrite decide_True by (right; done). done. }
  destruct Hrej as [|(R1 & R2 & R3)]; [done|]. set (ds := b :: data) in *.
  rewrite decide_False by (unfold MAX_JUMBO_TCP_PAYLOAD; cbn [length] in *; subst ds; cbn [length] in *; lia).
  unfold on_db at 1, slot_load at 1. cbn [w_db w_os w_init]. rewrite Hx1. cbn [w_db w_os w_init].
  rewrite decide_False by congruence. unfold mret, N_ret. rewrite bool_decide_true by (split; congruence).
  done.
Qed.
End TcpMessages.

(** ** A TCP connection as a queue of messages *)

Inductive action := Send (p : bytes) | Recv.

(** The specification: a first-in first-out queue.  No result when a receive would
    wait. *)
Fixpoint fifo (acts : list action) (q : list bytes) : option (list bytes * list bytes) :=
  match acts with
  | [] => Some ([], q)
  | Send p :: acts => fifo acts (q ++ [p])
  | Recv :: acts =>
      match q with
      | [] => None
      | p :: q => '(outs, q) ← fifo acts q; Some (p :: outs, q)
      end
  end.

(** The implementation: the two ends' databases and the sockets between them,
    with the structure the receiver reuses. *)
Record link (K : Type) := Link {
  l_snd : db; l_rcv : db; l_os : K; l_pd : recv_payload_data }.
Arguments Link {K} _ _ _ _.
Arguments l_snd {K} _.
Arguments l_rcv {K} _.
Arguments l_os {K} _.
Arguments l_pd {K} _.

Section Link.
Context {K : Type} {OS : Sockets K}.

(** The messages received, while every call succeeds. *)
Fixpoint run_link (hs hr : Z) (acts : list action) (l : link K) : option (list bytes * link K) :=
  match acts with
  | [] => Some ([], l)
  | Send p :: acts =>
      match comm_lib_tcp_send_blocking hs (Some p) (Some (Z.of_nat (length p)))
              (World (l_snd l) (l_os l) true) with
      | Some (ret, _, w) =>
          if decide (ret = 0) then run_link hs hr acts (Link (w_db w) (l_rcv l) (w_os w) (l_pd l)) else None
      | None => None
      end
  | Recv :: acts =>
      match comm_lib_tcp_recv_blocking hr (Some (AddrInfo 0 0)) (Some (l_pd l)) 1
              (World (l_rcv l) (l_os l) true) with
      | Some (ret, _, Some pd, w) =>
          if decide (ret = 0) then
            p ← received pd;
            '(outs, l) ← run_link hs hr acts (Link (l_snd l) (w_db w) (w_os w) pd);
            Some (p :: outs, l)
          else None
      | _ => None
      end
  end.

Context {SS : StreamSockets K}.

(** An established connection with messages on their way. *)
Record link_ok (hs hr : Z) (x y : handle_info) (l : link K) (q : list bytes) : Prop := LinkOk {
  lk_live : live hs (l_os l) /\ live hr (l_os l);
  lk_snd : exists s ty, entry_at (l_snd l) hs s ty y;
  lk_rcv : exists s ty, entry_at (l_rcv l) hr s ty x /\
             (ty = TCP_CLIENT_HANDLE_DB \/ ty = TCP_SERVER_HANDLE_DB);
  lk_accepts : accepts x y;
  lk_magic : 0 <= local_magic (socekt_info y) < 2 ^ 32;
  lk_pd : pd_ok (l_pd l);
  lk_queue : Forall sendable q;
  lk_stream : in_flight hr (l_os l) = concat (map (frame y) q) }.

Lemma link_send hs hr x y l q p :
  peer_of hs = hr -> link_ok hs hr x y l q -> sendable p ->
  exists l' y', 
    comm_lib_tcp_send_blocking hs (Some p) (Some (Z.of_nat (length p))) (World (l_snd l) (l_os l) true)
      = Some (0, Some (Z.of_nat (length p)), World (l_snd l') (l_os l') true) /\
    l_rcv l' = l_rcv l /\ l_pd l' = l_pd l /\ link_ok hs hr x y' l' (q ++ [p]).
Proof.
  intros Hpeer [[Hls Hlr] (s & ty & He) Hrcv Hacc Hmag Hpd Hq Hf] Hp.
  destruct (tcp_send_spec hs p ty s y (World (l_snd l) (l_os l) true)) as (d' & k' & y' & Hrun & He' & Hs & Hf' & Ho);
    try done.
  exists (Link d' (l_rcv l) k' (l_pd l)), y'. split; [done|]. split; [done|]. split; [done|].
  constructor; cbn [l_snd l_rcv l_os l_pd]; try done.
  - split; by apply Ho.
  - eauto.
  - by eapply accepts_same.
  - by rewrite (proj1 (proj2 (proj2 (proj2 Hs)))).
  - apply Forall_app. auto.
  - cbn [w_os] in Hf'. rewrite Hpeer in Hf'.
    rewrite Hf', Hf, (map_ext (frame y') (frame y)) by (intros; by apply frame_same).
    rewrite map_app, concat_app. cbn [map concat]. by rewrite app_nil_r.
Qed.

Lemma link_recv hs hr x y l q p :
  link_ok hs hr x y l (p :: q) ->
  exists l' x' a' pd',
    comm_lib_tcp_recv_blocking hr (Some (AddrInfo 0 0)) (Some (l_pd l)) 1 (World (l_rcv l) (l_os l) true)
      = Some (0, a', Some pd', World (l_rcv l') (l_os l') true) /\
    received pd' = Some p /\ l_snd l' = l_snd l /\ l_pd l' = pd' /\ link_ok hs hr x' y l' q.
Proof.
  intros [[Hls Hlr] Hsnd (s & ty & He & Hty) Hacc Hmag Hpd [Hp Hq]%Forall_cons Hf].
  destruct (tcp_recv_spec hr (AddrInfo 0 0) (l_pd l) y p (concat (map (frame y) q)) ty s x
    (World (l_rcv l) (l_os l) true)) as (d' & k' & x' & pd' & a' & Hrun & Hr & Hpd' & He' & Hacc' & Hf' & Ho); try done.
  exists (Link (l_snd l) d' k' pd'), x', (Some a'), pd'. do 4 (split; [done|]).
  constructor; cbn [l_snd l_rcv l_os l_pd]; try done; [split; by apply Ho|eauto].
Qed.

Lemma run_link_refines hs hr x y acts l q outs q' :
  peer_of hs = hr -> link_ok hs hr x y l q ->
  Forall (fun a => match a with Send p => sendable p | Recv => True end) acts ->
  fifo acts q = Some (outs, q') ->
  exists l' x' y', run_link hs hr acts l = Some (outs, l') /\ link_ok hs hr x' y' l' q'.
Proof.
  intros Hpeer. revert x y l q outs. induction acts as [|[p|] acts IH]; intros x y l q outs Hl Ha Hfifo;
    cbn [fifo run_link] in *; [|apply Forall_cons in Ha as [Hp Ha]..].
  - simplify_eq. by exists l, x, y.
  - destruct (link_send hs hr x y l q p) as (l' & y' & Hrun & E1 & E2 & Hl'); [done..|].
    rewrite Hrun. rewrite decide_True by done. cbn [w_db w_os].
    rewrite <- E1, <- E2. destruct l' as [a b c e]. by eapply IH.
  - destruct q as [|p q]; [done|]. destruct (fifo acts q) as [[outs1 q1]|] eqn:Hf1; [|done].
    cbn in Hfifo. injection Hfifo as <- <-. destruct (link_recv hs hr x y l q p Hl) as (l' & x' & a' & pd' & Hrun & Hr & E1 & E2 & Hl').
    rewrite Hrun. rewrite decide_True by done. rewrite Hr. cbn [option_bind mbind w_db w_os].
    rewrite <- E1, <- E2. destruct l' as [a b c e].
    destruct (IH x' y (Link a b c e) q outs1 Hl' Ha Hf1) as (l'' & x'' & y'' & Hrun' & Hl'').
    cbn in Hrun' |- *. rewrite Hrun'. eauto 10.
Qed.

(** C12. A TCP connection is a first-in first-out queue of whole messages: for
    any interleaving of sends and receives that the queue allows, every call
    succeeds and the receiver gets exactly the payloads sent, in order, whatever
    pieces the sockets cut the byte stream into, for payloads up to the jumbo
    size that the call limit of the loops can move. *)
Theorem tcp_fifo_refinement hs hr x y acts l outs q :
  peer_of hs = hr -> link_ok hs hr x y l [] ->
  Forall (fun a => match a with Send p => sendable p | Recv => True end) acts ->
  fifo acts [] = Some (outs, q) ->
  exists l' y', run_link hs hr acts l = Some (outs, l') /\
    in_flight hr (l_os l') = concat (map (frame y') q).
Proof.
  intros Hpeer Hl Ha Hf. destruct (run_link_refines hs hr x y acts l [] outs q) as (l' & x' & y' & Hr & Hl'); [done..|].
  exists l', y'. split; [done|]. apply Hl'.
Qed.
End Link.

(** ** Memory safety against any peer *)

(** All that is assumed of the sockets here: a receive returns no more bytes than
    were asked for. *)
Class BoundedSockets (K : Type) {OS : Sockets K} := {
  recv_bounded h n k data k' : sys_recv h n k = (inr data, k') -> (length data <= n)%nat;
  recvfrom_bounded h n k data a k' : sys_recvfrom h n k = (inr (data, a), k') -> (length data <= n)%nat }.

(** Every entry that could be accessed still can. *)
Definition slots_kept (d d' : db) : Prop := forall s, is_Some (slot_get d s) -> is_Some (slot_get d' s).

#[export] Instance slots_kept_preorder : PreOrder slots_kept.
Proof. split; [by intros d s|]. intros d1 d2 d3 H1 H2 s Hs. auto. Qed.

Lemma slots_kept_set d s x : slots_kept d (slot_set d s x).
Proof.
  intros s' Hs'. destruct (decide (s' = s)) as [->|Hne].
  - destruct Hs' as [y Hy]. rewrite (slot_get_set _ _ _ _ Hy). eauto.
  - by rewrite slot_get_set_ne.
Qed.

Lemma rx_update_total d h ty n :
  exists e d', handle_total_rx_update h ty n d = Some (e, d') /\ slots_kept d d'.
Proof.
  destruct (handle_get_pure d h ty) as [[e|[s ty']] Hr];
    unfold handle_total_rx_update; cbv [mbind M_bind]; rewrite Hr; [by exists e, d|].
  destruct (handle_get_sound _ _ _ _ _ Hr) as (x & Hx & _).
  unfold slot_load. rewrite Hx. do 2 eexists. split; [done|]. apply slots_kept_set.
Qed.

Section Safety.
Context {K : Type} {OS : Sockets K} {BS : BoundedSockets K}.
Implicit Types (w : world K).

Lemma count_rx_total h ty n err w :
  exists e d', count_rx h ty n err w = Some (e, World d' (w_os w) (w_init w)) /\
    slots_kept (w_db w) d' /\ (e = 0 -> err = 0).
Proof.
  unfold count_rx. case_decide; [|exists err, (w_db w); by destruct w].
  destruct (rx_update_total (w_db w) h ty n) as (e & d' & Hr & Hk).
  cbv [mbind N_bind]. unfold on_db. rewrite Hr. do 2 eexists. split; [done|]. split; [done|].
  case_decide; lia.
Qed.

Lemma tcp_recv_loop_total repeat h buf len total w :
  0 <= total <= len -> len <= Z.of_nat (length buf) -> len < 2 ^ 32 ->
  exists e buf' len' n k', tcp_recv_loop repeat h buf len total w
      = Some (e, buf', len', n, World (w_db w) k' (w_init w)) /\
    length buf' = length buf /\ (e = 0 -> len' = len).
Proof.
  revert buf total w. induction repeat as [|repeat IH]; intros buf total w Ht Hb Hl; cbn [tcp_recv_loop].
  { case_decide; destruct w as [d k i]; do 5 eexists; (split; [done|]); (split; [done|]); [done|lia]. }
  case_decide; [|destruct w as [d k i]; do 5 eexists; (split; [done|]); (split; [done|]); lia].
  cbv [mbind N_bind]. unfold on_os. destruct (sys_recv _ _ _) as [[e|data] k'] eqn:Hr.
  - do 5 eexists. split; [done|]. by split.
  - pose proof (recv_bounded _ _ _ _ _ Hr) as Hd. rewrite wrap_small in Hd by lia.
    destruct data as [|b data]; [do 5 eexists; split; [done|]; by split|].
    set (ds := b :: data) in *. unfold access. rewrite write_bytes_eq by lia. rewrite wrap_small by lia.
    set (buf1 := _ ++ _). assert (Hb1 : length buf1 = length buf).
    { unfold buf1. rewrite !length_app, length_take, length_drop. lia. }
    destruct (IH buf1 (total + Z.of_nat (length ds)) (World (w_db w) k' (w_init w)))
      as (e & buf' & len' & n & k2 & Hrun & Hbuf & He); [lia..|].
    rewrite Hrun. do 5 eexists. split; [done|]. split; [lia|done].
Qed.

Lemma ll_recv_total h buf len w :
  0 <= len <= Z.of_nat (length buf) -> len < 2 ^ 32 ->
  exists e buf' len' d' k', comm_lib_tcp_ll_recv_blocking h buf len w
      = Some (e, buf', len', World d' k' (w_init w)) /\
    length buf' = length buf /\ (e = 0 -> len' = len) /\ slots_kept (w_db w) d'.
Proof.
  intros Hlen H32. unfold comm_lib_tcp_ll_recv_blocking.
  destruct (tcp_recv_loop_total RECV_REPEAT_NUM h buf len 0 w) as (e & buf' & len' & n & k' & Hrun & Hb & He); [lia..|].
  cbv [mbind N_bind]. rewrite Hrun.
  destruct (count_rx_total h ANY_HANLDE_DB n e (World (w_db w) k' (w_init w))) as (e' & d' & Hc & Hk & Hee).
  cbv [mbind N_bind] in *. rewrite Hc. do 5 eexists. split; [done|]. split; [done|]. split; [by auto|done].
Qed.

Lemma validate_total m max s w :
  is_Some (slot_get (w_db w) s) ->
  exists e m' d', validate_metadata_info m max s w = Some (e, m', World d' (w_os w) (w_init w)) /\
    slots_kept (w_db w) d' /\ payload_size m' < 2 ^ 32 /\ (e = 0 -> 0 < payload_size m' <= max).
Proof.
  intros [x Hx]. unfold validate_metadata_info. cbn [payload_size trailer version md_msg_type].
  pose proof (htonl_range (payload_size m)) as Hr. unfold ntohl. set (n := htonl (payload_size m)) in *.
  destruct w as [d k i]. cbn [w_db w_os w_init] in *.
  case_decide; [do 3 eexists; split; [done|]; split; [done|]; split; [apply Hr|done]|].
  case_decide; [do 3 eexists; split; [done|]; split; [done|]; split; [apply Hr|done]|].
  cbv [mbind N_bind]. unfold on_db at 1, slot_load at 1. cbn [w_db w_os w_init]. rewrite Hx.
  case_decide.
  - unfold on_db, slot_store, modify, slot_load. cbn [w_db w_os w_init mret N_ret].
    rewrite (slot_get_set _ _ _ _ Hx). cbn [w_db w_os w_init].
    case_decide; do 3 eexists; (split; [done|]); (split; [apply slots_kept_set|]); (split; [apply Hr|]);
      [done|intros _; cbn [payload_size] in *; lia].
  - unfold mret, N_ret. case_bool_decide; [do 3 eexists; split; [done|]; split; [done|]; split; [apply Hr|done]|].
    unfold on_db, slot_load. cbn [w_db w_os w_init]. rewrite Hx. cbn [w_db w_os w_init].
    case_decide; do 3 eexists; (split; [done|]); (split; [done|]); (split; [apply Hr|]); [done|intros _; cbn [payload_size] in *; lia].
Qed.

Lemma recv_body_total h a pd m w :
  pd_ok pd -> 0 < payload_size m <= MAX_JUMBO_TCP_PAYLOAD ->
  exists ret pd' w', recv_body h a pd m w = Some (ret, Some a, Some pd', w') /\ pd_ok pd'.
Proof.
  intros ((b & Hb & Hlb) & Hl & Hj) Hm. unfold recv_body.
  unfold MAX_TCP_PAYLOAD, MAX_JUMBO_TCP_PAYLOAD in *. case_decide as Hsz; cbv [mbind N_bind access]; [rewrite Hb|].
  - destruct (ll_recv_total h b (payload_size m) w) as (e & b' & l' & d' & k' & Hr & Hb' & _); [lia..|].
    rewrite Hr. pose proof Hb as Hb0%lookup_lt_Some.
    case_decide; do 3 eexists; (split; [done|]); (split_and!; cbn [rd_payload rd_payload_len jumbo_payload];
      [exists b'; rewrite list_lookup_insert_eq by done; split; [done|unfold MAX_TCP_PAYLOAD; lia]
      |by rewrite ?length_insert|done]).
  - destruct (ll_recv_total h (jumbo_payload pd) (payload_size m) w) as (e & b' & l' & d' & k' & Hr & Hb' & _); [lia..|].
    rewrite Hr. case_decide; do 3 eexists; (split; [done|]); (split_and!; cbn [rd_payload rd_payload_len jumbo_payload];
      [by eauto|done|unfold MAX_JUMBO_TCP_PAYLOAD; lia]).
Qed.

(** C13. Receiving a TCP message accesses no memory outside the caller's buffers
    and ends, whatever bytes the peer sends, however the sockets cut or fail the
    stream, whatever the handle is and whether or not the library is
    initialised; the caller's structure keeps its shape. *)
Theorem tcp_recv_memory_safe h a pd max w :
  pd_ok pd ->
  exists ret a' pd' w',
    comm_lib_tcp_recv_blocking h (Some a) (Some pd) max w = Some (ret, a', Some pd', w') /\ pd_ok pd'.
Proof.
  intros Hpd. pose proof (pd_ok_clear pd Hpd) as Hpd0.
  unfold comm_lib_tcp_recv_blocking. cbv [mbind N_bind]. unfold init_done.
  destruct (w_init w); cbn [negb]; [|by do 4 eexists].
  case_decide; [by do 4 eexists|]. case_decide; [by do 4 eexists|].
  unfold on_db at 1. destruct (handle_get_pure (w_db w) h ANY_HANLDE_DB) as [[e|[s ty]] Hg]; rewrite Hg;
    [by do 4 eexists|].
  case_decide; [by do 4 eexists|].
  destruct (handle_get_sound _ _ _ _ _ Hg) as (x & Hx & _).
  unfold on_db at 1, slot_load. cbn [w_db w_os w_init]. rewrite Hx. destruct w as [d k i]. cbn [w_db w_os w_init] in *.
  destruct (ll_recv_total h (replicate (Z.to_nat metadata_sizeof) 0) metadata_sizeof (World d k i))
    as (e1 & hdr & l1 & d1 & k1 & Hrun1 & _ & He1 & Hk1); [rewrite length_replicate; unfold metadata_sizeof; lia|done|].
  rewrite Hrun1. case_decide; [by do 4 eexists|]. case_decide; [by do 4 eexists|]. cbn [w_init w_db] in *.
  destruct (validate_total (metadata_of_bytes hdr) MAX_JUMBO_TCP_PAYLOAD s (World d1 k1 i))
    as (e2 & m & d2 & Hrun2 & Hk2 & H32 & He2); [apply Hk1; eauto|].
  rewrite Hrun2. case_decide; [by do 4 eexists|]. 
  set (a' := AddrInfo _ _).
  destruct (recv_body_total h a' (clear_counts pd) m (World d2 k1 i)) as (ret & pd' & w' & Hrun3 & Hok); [done|lia|].
  cbn [w_os w_init]. rewrite Hrun3. eauto 10.
Qed.

(** Receiving a UDP message accesses no memory outside its buffers when the
    caller offers at most the payload of one MTU, whatever datagram arrives. *)
Theorem udp_recv_memory_safe h a buf len w :
  0 <= len <= Z.of_nat (length buf) -> len <= MAX_MTU - metadata_sizeof ->
  exists ret a' buf' len' w',
    comm_lib_udp_recv h (Some a) (Some buf) (Some len) w = Some (ret, a', Some buf', len', w') /\
    length buf' = length buf /\ 0 <= len' <= len.
Proof.
  intros Hlen Hmax. unfold comm_lib_udp_recv. cbv [mbind N_bind]. unfold init_done.
  assert (Hbail : forall e (a0 : option addr_info) w0, exists ret a' buf' len' w',
    (mret (- e, a0, Some buf, 0) : N K _) w0 = Some (ret, a', Some buf', len', w') /\
    length buf' = length buf /\ 0 <= len' <= len).
  { intros. do 5 eexists. split; [done|]. split; [done|lia]. }
  destruct (w_init w); cbn [negb]; [|apply Hbail]. case_decide; [apply Hbail|].
  unfold on_db at 1. destruct (handle_get_pure (w_db w) h UDP_HANDLE_DB) as [[e|[s ty]] Hg]; rewrite Hg;
    [apply Hbail|].
  destruct (handle_get_sound _ _ _ _ _ Hg) as (x & Hx & _). destruct w as [d k i]. cbn [w_db w_os w_init] in *.
  unfold comm_lib_udp_ll_recv. cbv [mbind N_bind]. unfold on_os. cbn [w_db w_os w_init].
  destruct (sys_recvfrom _ _ _) as [[e|[data from]] k1] eqn:Hr; [unfold mret, N_ret; cbv beta iota; rewrite decide_True by done; apply Hbail|].
  pose proof (recvfrom_bounded _ _ _ _ _ _ Hr) as Hd. unfold access at 1.
  rewrite write_bytes_eq by (rewrite ?length_replicate; lia). set (b1 := _ ++ _).
  assert (Hb1 : length b1 = Z.to_nat MAX_MTU).
  { unfold b1. rewrite !length_app, length_take, length_drop, length_replicate. lia. }
  destruct (count_rx_total h UDP_HANDLE_DB (Z.of_nat (length data)) 0 (World d k1 i)) as (e1 & d1 & Hrun1 & Hk1 & _).
  rewrite Hrun1. unfold mret, N_ret. case_decide; [apply Hbail|]. case_decide; [apply Hbail|].
  unfold parse_metadata_from_buffer. cbv [mbind N_bind]. unfold access at 1.
  assert (Hmtu : Z.of_nat (length b1) = 1500) by (rewrite Hb1; done).
  rewrite read_bytes_eq by (unfold metadata_sizeof; lia). unfold mret, N_ret. cbn [w_os w_init].
  match goal with |- context [validate_metadata_info ?m _ _ _] =>
    destruct (validate_total m len s (World d1 k1 i)) as (e2 & m2 & d2 & Hrun2 & Hk2 & H32 & He2); [apply Hk1; eauto|]
  end.
  rewrite Hrun2. case_decide; [apply Hbail|]. specialize (He2 ltac:(lia)).
  unfold MAX_MTU, metadata_sizeof in *. unfold access. rewrite read_bytes_eq by lia.
  rewrite write_bytes_eq by (rewrite ?length_take, ?length_drop; lia).
  do 5 eexists. split; [done|]. rewrite !length_app, !length_take, !length_drop. lia.
Qed.
End Safety.

(** ** UDP messages *)

Section UdpMessages.
Context {K : Type} {OS : Sockets K}.
Implicit Types (w : world K).

(** An entry of the UDP table, as the UDP calls look it up. *)
Definition udp_entry (d : db) (h : Z) (s : slot) (x : handle_info) : Prop :=
  lib_commu_db_hanlde_info_get h UDP_HANDLE_DB d = Some (inr (s, UDP_HANDLE_DB), d) /\
  slot_get d s = Some x.

Lemma udp_entry_touch d h s x y :
  udp_entry d h s x -> handle y = handle x -> udp_entry (slot_set d s y) h s y.
Proof. intros (Hg & Hx) Hy. split; [by eapply get_touch|by eapply slot_get_set]. Qed.

(** The buffer a message is put together in. *)
Lemma udp_buffer x p :
  (length p + 10 <= 1500)%nat ->
  exists b1 b2,
    write_bytes (replicate (Z.to_nat MAX_MTU) 0) 0
      (metadata_bytes (metadata_set MSG_VERSION (Z.of_nat (length p)) x)) = Some b1 /\
    write_bytes b1 metadata_sizeof p = Some b2 /\
    read_bytes b2 0 (metadata_sizeof + Z.of_nat (length p)) = Some (frame x p).
Proof.
  intros Hp. set (m := metadata_bytes _). assert (Hm : length m = 10%nat) by done.
  assert (Hz : length (replicate (Z.to_nat MAX_MTU) 0) = 1500%nat) by done.
  unfold metadata_sizeof. rewrite write_bytes_eq by lia. cbn [Z.to_nat take app Nat.add].
  set (b1 := m ++ _). exists b1. assert (Hb1 : length b1 = 1500%nat) by done.
  rewrite write_bytes_eq by lia. change (take (Z.to_nat 10) b1) with m.
  set (b2 := m ++ _). exists b2. split; [done|]. split; [done|].
  assert (Hb2 : length b2 = 1500%nat) by (unfold b2; rewrite !length_app, length_drop; lia).
  rewrite read_bytes_eq by lia. change (drop (Z.to_nat 0) b2) with b2. unfold b2, frame. fold m. rewrite (assoc_L (++)).
  replace (Z.to_nat (10 + Z.of_nat (length p))) with (length (m ++ p)) by (rewrite length_app; lia).
  by rewrite take_app_length.
Qed.

(** Sending one. *)
Lemma udp_send_spec h dest p s y k w :
  w_init w = true -> udp_entry (w_db w) h s y ->
  Z.of_nat (length p) <= MAX_UDP_MSG_SIZE - metadata_sizeof ->
  sys_sendto h dest (frame y p) (w_os w) = (inr (length (frame y p)), k) ->
  exists d', comm_lib_udp_send h dest (Some p) (Some (Z.of_nat (length p))) w
    = Some (0, Some (Z.of_nat (length p)), World d' k true).
Proof.
  intros Hi (Hg & Hy) Hp Hsend. destruct w as [d k0 i]. cbn [w_db w_os w_init] in *. subst i.
  unfold comm_lib_udp_send. cbv [mbind N_bind]. unfold init_done. cbn [negb w_init].
  rewrite decide_False by lia. unfold on_db at 1. cbn [w_db w_os w_init]. rewrite Hg. cbv beta iota.
  unfold on_db at 1, slot_load. cbn [w_db w_os w_init]. rewrite Hy.
  unfold access at 1. rewrite read_bytes_eq by lia. change (drop (Z.to_nat 0) p) with p. rewrite Nat2Z.id, take_ge by done.
  unfold MAX_UDP_MSG_SIZE, MAX_MTU, MAX_IPV4_HEADER_SIZE, UDP_HEADER_SIZE, metadata_sizeof in Hp.
  destruct (udp_buffer y p) as (b1 & b2 & Hb1 & Hb2 & Hrd); [lia|].
  unfold access at 1. rewrite Hb1. unfold access at 1. rewrite Hb2.
  unfold comm_lib_udp_ll_send. cbv [mbind N_bind]. unfold access at 1. rewrite Hrd. unfold on_os.
  cbn [w_db w_os w_init]. rewrite Hsend.
  assert (Hfl : Z.of_nat (length (frame y p)) = metadata_sizeof + Z.of_nat (length p)).
  { unfold frame, metadata_sizeof. rewrite length_app, length_metadata_bytes. unfold metadata_sizeof. lia. }
  rewrite decide_True by done. unfold count_tx. unfold metadata_sizeof in Hfl. rewrite decide_True by lia.
  cbv [mbind N_bind]. unfold on_db, handle_total_tx_update. cbv [mbind M_bind]. cbn [w_db w_os w_init]. rewrite Hg.
  unfold slot_load. rewrite Hy. eexists. reflexivity.
Qed.

(** Receiving one. *)
Lemma udp_recv_spec h from buf p r x y k w :
  w_init w = true -> udp_entry (w_db w) h r x -> accepts x y ->
  0 <= local_magic (socekt_info y) < 2 ^ 32 ->
  0 < Z.of_nat (length p) <= MAX_UDP_MSG_SIZE - metadata_sizeof -> (length p <= length buf)%nat ->
  sys_recvfrom h (Z.to_nat MAX_MTU) (w_os w) = (inr (frame y p, from), k) ->
  exists d' buf', comm_lib_udp_recv h (Some (AddrInfo 0 0)) (Some buf) (Some (Z.of_nat (length buf))) w
      = Some (0, Some from, Some buf', Z.of_nat (length p), World d' k true) /\
    take (length p) buf' = p /\ length buf' = length buf.
Proof.
  intros Hi (Hg & Hx) Hacc Hmag Hp Hbuf Hrecv. destruct w as [d k0 i]. cbn [w_db w_os w_init] in *. subst i.
  unfold MAX_UDP_MSG_SIZE, MAX_MTU, MAX_IPV4_HEADER_SIZE, UDP_HEADER_SIZE, metadata_sizeof in Hp.
  unfold comm_lib_udp_recv. cbv [mbind N_bind]. unfold init_done. cbn [negb w_init].
  rewrite decide_False by lia. unfold on_db at 1. cbn [w_db w_os w_init]. rewrite Hg. cbv beta iota.
  unfold comm_lib_udp_ll_recv. cbv [mbind N_bind]. unfold on_os. cbn [w_db w_os w_init]. rewrite Hrecv.
  set (m := metadata_set MSG_VERSION (Z.of_nat (length p)) y).
  assert (Hfl : length (frame y p) = (10 + length p)%nat) by (unfold frame; by rewrite length_app).
  assert (Hz : length (replicate (Z.to_nat MAX_MTU) 0) = 1500%nat) by done.
  unfold access at 1. rewrite write_bytes_eq by lia. change (take (Z.to_nat 0) _) with (@nil Z). rewrite app_nil_l.
  set (b1 := frame y p ++ _).
  assert (Hb1 : length b1 = 1500%nat) by (unfold b1; rewrite length_app, length_drop; lia).
  unfold count_rx. rewrite decide_True by lia. cbv [mbind N_bind]. unfold on_db at 1, handle_total_rx_update.
  cbv [mbind M_bind]. cbn [w_db w_os w_init]. rewrite Hg. unfold slot_load at 1. rewrite Hx.
  unfold slot_store, modify. cbv [mret M_ret N_ret]. cbn [w_db w_os w_init].
  rewrite (decide_False (P := 0 <> 0 /\ 0 = 0)) by lia. rewrite decide_False by lia.
  rewrite decide_False by (unfold metadata_sizeof; lia).
  unfold parse_metadata_from_buffer. cbv [mbind N_bind mret N_ret]. unfold access at 1.
  rewrite read_bytes_eq by (unfold metadata_sizeof; lia).
  change (take (Z.to_nat metadata_sizeof) (drop (Z.to_nat 0) b1)) with (metadata_bytes m).
  rewrite metadata_of_metadata_bytes by apply htonl_range. cbv beta iota.
  unfold m. rewrite (validate_accepts r (add_rx x (Z.of_nat (length (frame y p)))) y); cbn [w_db w_os w_init];
    [|by eapply slot_get_set|done|lia|lia|done].
  cbv beta iota. rewrite decide_False by lia. cbn [payload_size].
  unfold access. rewrite read_bytes_eq by (unfold metadata_sizeof; lia). rewrite Nat2Z.id.
  change (drop (Z.to_nat metadata_sizeof) b1) with (p ++ drop (Z.to_nat 0 + length (frame y p)) (replicate (Z.to_nat MAX_MTU) 0)).
  rewrite take_app_length. rewrite write_bytes_eq by lia. change (take (Z.to_nat 0) buf) with (@nil Z). rewrite app_nil_l.
  do 2 eexists. split; [done|]. rewrite take_app_length, length_app, length_drop. split; [done|lia].
Qed.

(** C31. A UDP message survives its journey: the datagram handed to [sendto] is
    the header followed by the payload, and a receiver that accepts the sender
    and offers room gets exactly that payload from it, its length and the
    sender's address. *)
Theorem udp_message_round_trip hs hr dest from p s y r x buf k1 k2 w v :
  w_init w = true -> w_init v = true -> udp_entry (w_db w) hs s y -> udp_entry (w_db v) hr r x ->
  accepts x y -> 0 <= local_magic (socekt_info y) < 2 ^ 32 ->
  0 < Z.of_nat (length p) <= MAX_UDP_MSG_SIZE - metadata_sizeof -> (length p <= length buf)%nat ->
  sys_sendto hs dest (frame y p) (w_os w) = (inr (length (frame y p)), k1) ->
  sys_recvfrom hr (Z.to_nat MAX_MTU) (w_os v) = (inr (frame y p, from), k2) ->
  exists w' v' buf',
    comm_lib_udp_send hs dest (Some p) (Some (Z.of_nat (length p))) w
      = Some (0, Some (Z.of_nat (length p)), w') /\ w_os w' = k1 /\
    comm_lib_udp_recv hr (Some (AddrInfo 0 0)) (Some buf) (Some (Z.of_nat (length buf))) v
      = Some (0, Some from, Some buf', Z.of_nat (length p), v') /\
    take (length p) buf' = p /\ length buf' = length buf.
Proof.
  intros Hi Hiv He Hx Hacc Hmag Hp Hbuf Hsend Hrecv.
  destruct (udp_send_spec hs dest p s y k1 w Hi He) as (d' & Hs); [lia|done|].
  destruct (udp_recv_spec hr from buf p r x y k2 v Hiv Hx Hacc Hmag Hp Hbuf Hrecv) as (d2 & buf' & Hr & Ht & Hl).
  eexists _, _, buf'. split; [exact Hs|]. split; [done|]. split; [exact Hr|]. done.
Qed.
End UdpMessages.

(** ** A concrete network *)

(** Handles 7 and 8 are the two ends; a stream moves at most three bytes a call. *)
Record net := Net { streams : Z -> bytes; dgrams : Z -> list (bytes * addr_info) }.

Definition other_end (h : Z) : Z := if decide (h = 7) then 8 else 7.

#[export] Instance net_sockets : Sockets net := {
  sys_send h d k :=
    let n := Nat.min 3 (length d) in
    (inr n, Net ((streams k) ⟦other_end h <~ streams k (other_end h) ++ take n d⟧) (dgrams k));
  sys_recv h n k :=
    match streams k h with
    | [] => (inl 11%positive, k)
    | _ => (inr (take (Nat.min 3 n) (streams k h)),
            Net ((streams k) ⟦h <~ drop (Nat.min 3 n) (streams k h)⟧) (dgrams k))
    end;
  sys_sendto h a d k :=
    (inr (length d), Net (streams k) ((dgrams k) ⟦other_end h <~ dgrams k (other_end h) ++ [(d, AddrInfo 0 h)]⟧));
  sys_recvfrom h n k :=
    match dgrams k h with
    | [] => (inl 11%positive, k)
    | (d, a) :: ds => (inr (take n d, a), Net (streams k) ((dgrams k) ⟦h <~ ds⟧))
    end }.

#[export] Instance net_stream : StreamSockets net.
Proof.
  refine {| live := fun _ _ => True; peer_of := other_end; in_flight := fun h k => streams k h; chunk := 3%nat |}.
  - lia.
  - intros h d k _ Hd. eexists _, _. split; [reflexivity|]. split; [lia|]. cbn [streams].
    split; [apply upd_eq|]. split; [|done]. intros. by apply upd_ne.
  - intros h n k _ Hn. cbn [sys_recv net_sockets]. destruct (streams k h) as [|b bs] eqn:E; [cbn in Hn; lia|].
    eexists _, _. split; [reflexivity|]. rewrite length_take. split; [lia|]. cbn [streams].
    rewrite upd_eq, take_drop. split; [done|]. split; [|done]. intros. by apply upd_ne.
Defined.

#[export] Instance net_bounded : BoundedSockets net.
Proof.
  split.
  - intros h n k data k'. cbn [sys_recv net_sockets]. destruct (streams k h) as [|b bs]; [done|].
    intros H. assert (data = take (Nat.min 3 n) (b :: bs)) as -> by congruence. rewrite length_take. lia.
  - intros h n k data a k'. cbn [sys_recvfrom net_sockets]. destruct (dgrams k h) as [|[d a'] ds]; [done|].
    intros H. assert (data = take n d) as -> by congruence. rewrite length_take. lia.
Qed.

(** The two ends of a TCP connection and of a UDP session. *)
Definition end_entry (h magic peer : Z) : handle_info :=
  HandleInfo h (ConnInfo 0 0 0 0 3) (SockInfo h 0 1 magic peer 0 0).
Definition end_db (h magic peer : Z) : db := slot_set (fresh_db start_db) (ClientSlot 0) (end_entry h magic peer).
Definition udp_end_db (h magic peer : Z) : db := slot_set (fresh_db start_db) (UdpSlot 0) (end_entry h magic peer).
Definition demo_pd : recv_payload_data :=
  RecvData 0 [0] [replicate (Z.to_nat MAX_TCP_PAYLOAD) 0] [0] (replicate (Z.to_nat MAX_JUMBO_TCP_PAYLOAD) 0) 0 0.
Definition quiet : net := Net (fun _ => []) (fun _ => []).

Lemma demo_pd_ok : pd_ok demo_pd.
Proof.
  split_and!; unfold demo_pd; cbn [rd_payload rd_payload_len jumbo_payload].
  - eexists. split; [reflexivity|]. rewrite length_replicate, Z2Nat.id; [done|unfold MAX_TCP_PAYLOAD; lia].
  - cbn [length]. lia.
  - rewrite length_replicate, Z2Nat.id; [done|unfold MAX_JUMBO_TCP_PAYLOAD; lia].
Qed.

Lemma end_entry_at h magic peer :
  h <> -1 -> entry_at (end_db h magic peer) h (ClientSlot 0) TCP_CLIENT_HANDLE_DB (end_entry h magic peer).
Proof.
  intros Hh. assert (find_client (end_db h magic peer) h = Some (ClientSlot 0)) as E.
  { unfold find_client. cbn -[fresh_db]. unfold has_handle at 1. cbn. by rewrite bool_decide_true. }
  unfold entry_at, lib_commu_db_hanlde_info_get. cbv [mbind M_bind gets mret M_ret id]. by rewrite !E.
Qed.

Lemma tcp_fifo_refinement_witness :
  exists l' y', run_link 7 8 [Send [1; 2; 3; 4]; Send [5]; Recv; Send [6; 7]; Recv]
      (Link (end_db 7 99 INVALID_MAGIC) (end_db 8 55 INVALID_MAGIC) quiet demo_pd)
    = Some ([[1; 2; 3; 4]; [5]], l') /\ in_flight 8 (l_os l') = concat (map (frame y') [[6; 7]]).
Proof.
  apply (tcp_fifo_refinement 7 8 (end_entry 8 55 INVALID_MAGIC) (end_entry 7 99 INVALID_MAGIC)).
  - reflexivity.
  - constructor; cbn [l_snd l_rcv l_os l_pd].
    + done.
    + eexists _, _. by apply end_entry_at.
    + eexists _, _. split; [by apply end_entry_at|by left].
    + split; [reflexivity|by left].
    + cbn. lia.
    + apply demo_pd_ok.
    + constructor.
    + reflexivity.
  - assert (forall p : bytes, (0 < length p <= 10)%nat -> sendable p) as Hs.
    { intros p Hp. unfold sendable, MAX_JUMBO_TCP_PAYLOAD, metadata_sizeof, SEND_REPEAT_NUM. cbn [chunk net_stream]. lia. }
    rewrite !Forall_cons. split_and!; try exact I; try (apply Hs; cbn [length]; lia). apply Forall_nil. exact I.
  - reflexivity.
Defined.

Lemma tcp_recv_memory_safe_witness :
  exists ret a' pd' w',
    comm_lib_tcp_recv_blocking 8 (Some (AddrInfo 0 0)) (Some demo_pd) 1
      (World (end_db 8 55 INVALID_MAGIC) (Net (fun _ => replicate 40 255) (fun _ => [])) true)
    = Some (ret, a', Some pd', w') /\ pd_ok pd'.
Proof. apply (tcp_recv_memory_safe 8 (AddrInfo 0 0) demo_pd 1). apply demo_pd_ok. Defined.

(** A datagram whose header claims more than was sent. *)
Definition lying_frame (claimed : Z) : bytes :=
  metadata_bytes (Metadata (htonl claimed) (htonl 1) MSG_VERSION 3).
Definition lying_net (claimed : Z) : net :=
  Net (fun _ => []) (fun _ => [(lying_frame claimed, AddrInfo 0 0)]).

Lemma udp_recv_memory_safe_witness :
  exists ret a' buf' len' w',
    comm_lib_udp_recv 8 (Some (AddrInfo 0 0)) (Some (replicate 100 0)) (Some 100)
      (World (udp_end_db 8 55 INVALID_MAGIC) (lying_net 90) true) = Some (ret, a', Some buf', len', w') /\
    length buf' = length (replicate 100 0) /\ 0 <= len' <= 100.
Proof. apply (udp_recv_memory_safe 8 (AddrInfo 0 0) (replicate 100 0) 100); vm_decide. Defined.

(** The claimed size of a UDP message is not compared with the bytes
    received.  A ten-byte datagram that claims 2000 bytes makes the library read
    outside its receive buffer when the caller offers 2000 bytes; one that
    claims 90 is delivered as 90 bytes that were never sent. *)
Theorem udp_recv_trusts_claimed_size :
  comm_lib_udp_recv 8 (Some (AddrInfo 0 0)) (Some (replicate 2000 7)) (Some 2000)
    (World (udp_end_db 8 55 INVALID_MAGIC) (lying_net 2000) true) = None /\
  (exists w', comm_lib_udp_recv 8 (Some (AddrInfo 0 0)) (Some (replicate 90 7)) (Some 90)
    (World (udp_end_db 8 55 INVALID_MAGIC) (lying_net 90) true)
    = Some (0, Some (AddrInfo 0 0), Some (replicate 90 0), 90, w')).
Proof. split; [vm_compute; reflexivity|eexists; vm_compute; reflexivity]. Qed.

Lemma udp_message_round_trip_witness :
  exists w' v' buf',
    comm_lib_udp_send 7 (AddrInfo 0 0) (Some [10; 20; 30]) (Some 3)
      (World (udp_end_db 7 99 INVALID_MAGIC) quiet true) = Some (0, Some 3, w') /\
    comm_lib_udp_recv 8 (Some (AddrInfo 0 0)) (Some (replicate 5 0)) (Some 5)
      (World (udp_end_db 8 55 INVALID_MAGIC)
         (Net (fun _ => []) (fun _ => [(frame (end_entry 7 99 INVALID_MAGIC) [10; 20; 30], AddrInfo 0 7)])) true)
      = Some (0, Some (AddrInfo 0 7), Some buf', 3, v') /\ take 3 buf' = [10; 20; 30].
Proof.
  destruct (udp_message_round_trip 7 8 (AddrInfo 0 0) (AddrInfo 0 7) [10; 20; 30] (UdpSlot 0)
    (end_entry 7 99 INVALID_MAGIC) (UdpSlot 0) (end_entry 8 55 INVALID_MAGIC) (replicate 5 0)
    (snd (sys_sendto 7 (AddrInfo 0 0) (frame (end_entry 7 99 INVALID_MAGIC) [10; 20; 30]) quiet))
    (Net (fun _ => []) ((fun _ => [(frame (end_entry 7 99 INVALID_MAGIC) [10; 20; 30], AddrInfo 0 7)]) ⟦8 <~ []⟧))
    (World (udp_end_db 7 99 INVALID_MAGIC) quiet true)
    (World (udp_end_db 8 55 INVALID_MAGIC)
         (Net (fun _ => []) (fun _ => [(frame (end_entry 7 99 INVALID_MAGIC) [10; 20; 30], AddrInfo 0 7)])) true))
    as (w' & v' & buf' & H1 & _ & H2 & H3 & _); try reflexivity.
  - split; vm_compute; reflexivity.
  - split; vm_compute; reflexivity.
  - split; [reflexivity|by left].
  - cbn. lia.
  - vm_decide.
  - cbn. lia.
  - exists w', v', buf'. exact (conj H1 (conj H2 H3)).
Defined.

Lemma tcp_recv_rejects_witness :
  exists d' k' pd' a', comm_lib_tcp_recv_blocking 8 (Some (AddrInfo 0 0)) (Some demo_pd) 1
      (World (end_db 8 55 42) (Net (fun _ => frame (end_entry 7 99 INVALID_MAGIC) [5; 6]) (fun _ => [])) true)
    = Some (- EBADE, Some a', Some pd', World d' k' true) /\ received pd' = None /\ in_flight 8 k' = [5; 6].
Proof.
  destruct (tcp_recv_rejects 8 (AddrInfo 0 0) demo_pd (end_entry 7 99 INVALID_MAGIC) [5; 6] [] TCP_CLIENT_HANDLE_DB
    (ClientSlot 0) (end_entry 8 55 42)
    (World (end_db 8 55 42) (Net (fun _ => frame (end_entry 7 99 INVALID_MAGIC) [5; 6]) (fun _ => [])) true))
    as (d' & k' & x' & pd' & a' & H1 & H2 & _ & _ & H3).
  - reflexivity.
  - exact I.
  - by apply end_entry_at.
  - by left.
  - vm_decide.
  - cbn. lia.
  - right. vm_decide.
  - reflexivity.
  - rewrite decide_False in H1 by done. exists d', k', pd', a'. exact (conj H1 (conj H2 H3)).
Defined.
