(* ===== verification/Pool.v ===== *)
(** * Pools of objects that grow on demand ([cl_pool.c])

    The quick composite pool ([cl_qcpool_*]) and the three front ends built on it
    ([cl_qpool_*], [cl_cpool_*], [cl_pool_*]).  A pool carves objects out of
    blocks it allocates, keeps the free ones in a quick list linked through the
    objects themselves, keeps the blocks in another, and hands objects out and
    takes them back at the head of the free list.  The memory is the links of
    all list items, the object pointer stored in front of an object of
    [cl_pool_t], what the caller's callbacks work on, and the allocator. *)

From S2P Require Import Prelude Qlist.

Local Open Scope Z_scope.
Local Open Scope list_scope.

(** Sizes on the 64-bit build without debug fields. *)
Definition sizeof_size_t : Z := 8.
Definition sizeof_ptr : Z := 8.
Definition sizeof_list_item : Z := 16.
Definition sizeof_pool_obj : Z := 24.
Definition SIZE_MAX : Z := 2 ^ 64 - 1.

Definition ROUNDUP (val align : Z) : Z :=
  u64 (val / align * align + (if decide (val mod align <> 0) then align else 0)).

(** ** The memory *)

Class Allocator (A : Type) := {
  cl_malloc : Z -> A -> ptr * A;
  cl_free : ptr -> A -> A }.

Record heap (A U : Type) := Heap {
  h_links : links; h_object : ptr -> ptr; h_user : U; h_alloc : A }.
Arguments Heap {A U} _ _ _ _.
Arguments h_links {A U} _.
Arguments h_object {A U} _.
Arguments h_user {A U} _.
Arguments h_alloc {A U} _.

Definition set_links {A U} (h : heap A U) (lk : links) : heap A U := Heap lk (h_object h) (h_user h) (h_alloc h).
Definition set_object {A U} (h : heap A U) (p v : ptr) : heap A U := Heap (h_links h) ((h_object h)⟦p <~ v⟧) (h_user h) (h_alloc h).
Definition set_user {A U} (h : heap A U) (u : U) : heap A U := Heap (h_links h) (h_object h) u (h_alloc h).
Definition set_alloc {A U} (h : heap A U) (a : A) : heap A U := Heap (h_links h) (h_object h) (h_user h) a.

(** [memset] to zero of a block of [n] bytes at [b]. *)
Definition zero_block {A U} (b : ptr) (n : Z) (h : heap A U) : heap A U :=
  let clear f q := if decide (b <= q < b + n) then NULL else f q in
  Heap (Links (clear (p_next (h_links h))) (clear (p_prev (h_links h)))) (clear (h_object h)) (h_user h) (h_alloc h).

Section Pool.
Context {A U : Type} {AL : Allocator A}.
Abbreviation heap := (heap A U).

(** A composite initialiser gets the component pointers and yields its status,
    the pool item, and the pointers as it leaves them; its context is part of it. *)
Definition qcpool_init_t : Type := list ptr -> heap -> cl_status_t * ptr * list ptr * heap.
Definition qcpool_dtor_t : Type := ptr -> heap -> heap.

(** The array of sizes and the array of pointers are one allocation, at
    [sizes_block]. *)
Record cl_qcpool_t := QCPool {
  num_components : Z; sizes_block : ptr; component_sizes : list Z; p_components : list ptr;
  num_objects : Z; max_objects : Z; grow_size : Z;
  pfn_init : option qcpool_init_t; pfn_dtor : option qcpool_dtor_t;
  free_list : cl_qlist_t; alloc_list : cl_qlist_t; state : cl_state_t }.

Definition set_lists (p : cl_qcpool_t) fl al : cl_qcpool_t :=
  QCPool (num_components p) (sizes_block p) (component_sizes p) (p_components p) (num_objects p)
    (max_objects p) (grow_size p) (pfn_init p) (pfn_dtor p) fl al (state p).
Definition set_objects (p : cl_qcpool_t) comps n : cl_qcpool_t :=
  QCPool (num_components p) (sizes_block p) (component_sizes p) comps n
    (max_objects p) (grow_size p) (pfn_init p) (pfn_dtor p) (free_list p) (alloc_list p) (state p).

(** ** The quick composite pool *)

(** The lists stay where they are in the structure; all else is cleared. *)
Definition cl_qcpool_construct (p : cl_qcpool_t) : cl_qcpool_t :=
  QCPool 0 NULL [] [] 0 0 0 None None
    (QList (ql_end (free_list p)) 0 CL_UNINITIALIZED) (QList (ql_end (alloc_list p)) 0 CL_UNINITIALIZED)
    CL_UNINITIALIZED.

Definition cl_is_qcpool_inited (p : cl_qcpool_t) : bool := bool_decide (state p = CL_INITIALIZED).
Definition cl_qcpool_count (p : cl_qcpool_t) : Z := cl_qlist_count (free_list p).

(** The pointers to the components of an object, one after the other. *)
Fixpoint component_ptrs (p_objects : ptr) (sizes : list Z) : list ptr :=
  match sizes with
  | [] => []
  | s :: sizes => p_objects :: component_ptrs (p_objects + s) sizes
  end.

Definition obj_size (p : cl_qcpool_t) : Z := foldr (fun s n => u64 (s + n)) 0 (component_sizes p).

(** One object: its initialiser, or the start of its first component. *)
Definition make_item (p : cl_qcpool_t) (comps : list ptr) (h : heap) : cl_status_t * ptr * list ptr * heap :=
  match pfn_init p with
  | Some f => f comps h
  | None => (CL_SUCCESS, hd NULL comps, comps, h)
  end.

Definition call_dtor (p : cl_qcpool_t) (item : ptr) (h : heap) : heap :=
  match pfn_dtor p with Some f => f item h | None => h end.

(** The loop that initialises new objects and puts them on the free list. *)
Fixpoint grow_loop (obj_count : nat) (p_objects size : Z) (p : cl_qcpool_t) (h : heap)
    : cl_status_t * cl_qcpool_t * heap :=
  match obj_count with
  | O => (CL_SUCCESS, p, h)
  | S obj_count =>
      let '(status, item, comps, h) := make_item p (component_ptrs p_objects (component_sizes p)) h in
      if decide (status <> CL_SUCCESS) then
        (status, set_objects p comps (num_objects p), call_dtor p item h)
      else
        let '(lk, fl) := cl_qlist_insert_head (h_links h) (free_list p) item in
        let p := set_objects (set_lists p fl (alloc_list p)) comps (u64 (num_objects p + 1)) in
        grow_loop obj_count (p_objects + size) size p (set_links h lk)
  end.

Definition cl_qcpool_grow (p : cl_qcpool_t) (obj_count : Z) (h : heap) : cl_status_t * cl_qcpool_t * heap :=
  if decide (num_objects p = max_objects p) then (CL_INSUFFICIENT_MEMORY, p, h)
  else
    let obj_count :=
      if decide (obj_count > u64 (max_objects p - num_objects p))
      then u64 (max_objects p - num_objects p) else obj_count in
    let size := obj_size p in
    let block_size := u64 (sizeof_list_item + u64 (size * obj_count)) in
    let '(p_objects, a) := cl_malloc block_size (h_alloc h) in
    let h := set_alloc h a in
    if decide (p_objects = NULL) then (CL_INSUFFICIENT_MEMORY, p, h)
    else
      let h := zero_block p_objects block_size h in
      let '(lk, al) := cl_qlist_insert_tail (h_links h) (alloc_list p) p_objects in
      grow_loop (Z.to_nat obj_count) (p_objects + sizeof_list_item) size
        (set_lists p (free_list p) al) (set_links h lk).

(** The objects on the free list are destroyed from the head; no result when the
    list does not get empty. *)
Fixpoint destroy_objects (fuel : nat) (f : qcpool_dtor_t) (p : cl_qcpool_t) (h : heap)
    : option (cl_qcpool_t * heap) :=
  if cl_is_qlist_empty (free_list p) then Some (p, h)
  else
    match fuel with
    | O => None
    | S fuel =>
        let '(item, lk, fl) := cl_qlist_remove_head (h_links h) (free_list p) in
        destroy_objects fuel f (set_lists p fl (alloc_list p)) (f item (set_links h lk))
    end.

Fixpoint free_blocks (fuel : nat) (p : cl_qcpool_t) (h : heap) : option (cl_qcpool_t * heap) :=
  if cl_is_qlist_empty (alloc_list p) then Some (p, h)
  else
    match fuel with
    | O => None
    | S fuel =>
        let '(block, lk, al) := cl_qlist_remove_head (h_links h) (alloc_list p) in
        let h := set_links h lk in
        free_blocks fuel (set_lists p (free_list p) al) (set_alloc h (cl_free block (h_alloc h)))
    end.

Definition cl_qcpool_destroy (p : cl_qcpool_t) (h : heap) : option (cl_qcpool_t * heap) :=
  let uninit p := QCPool (num_components p) (sizes_block p) (component_sizes p) (p_components p)
    (num_objects p) (max_objects p) (grow_size p) (pfn_init p) (pfn_dtor p)
    (free_list p) (alloc_list p) CL_UNINITIALIZED in
  if decide (state p = CL_INITIALIZED) then
    '(p, h) ←
      match pfn_dtor p with
      | Some f => destroy_objects (ring_fuel (free_list p)) f p h
      | None =>
          let '(lk, fl) := cl_qlist_remove_all (h_links h) (free_list p) in
          Some (set_lists p fl (alloc_list p), set_links h lk)
      end;
    '(p, h) ← free_blocks (ring_fuel (alloc_list p)) p h;
    if decide (sizes_block p <> NULL) then
      let p' := QCPool (num_components p) NULL (component_sizes p) (p_components p)
        (num_objects p) (max_objects p) (grow_size p) (pfn_init p) (pfn_dtor p)
        (free_list p) (alloc_list p) (state p) in
      Some (uninit p', set_alloc h (cl_free (sizes_block p) (h_alloc h)))
    else Some (uninit p, h)
  else Some (uninit p, h).

Definition cl_qcpool_init (p : cl_qcpool_t) (min_size max_size grow : Z) (sizes : list Z)
    (init : option qcpool_init_t) (dtor : option qcpool_dtor_t) (h : heap)
    : option (cl_status_t * cl_qcpool_t * heap) :=
  let p := cl_qcpool_construct p in
  let n := Z.of_nat (length sizes) in
  if bool_decide (n > 1) && match init with None => true | Some _ => false end then Some (CL_INVALID_SETTING, p, h)
  else if decide (max_size <> 0 /\ max_size < min_size) then Some (CL_INVALID_SETTING, p, h)
  else
    let '(block, a) := cl_malloc (u64 ((sizeof_size_t + sizeof_ptr) * n)) (h_alloc h) in
    let h := set_alloc h a in
    if decide (block = NULL) then Some (CL_INSUFFICIENT_MEMORY, p, h)
    else
      let '(lk, al) := cl_qlist_init (h_links h) (alloc_list p) in
      let '(lk, fl) := cl_qlist_init lk (free_list p) in
      let h := set_links h lk in
      let p := QCPool n block (map (fun s => ROUNDUP s sizeof_ptr) sizes)
        (replicate (length sizes) NULL) 0 (if decide (max_size = 0) then SIZE_MAX else max_size)
        grow init dtor fl al CL_INITIALIZED in
      if decide (min_size = 0) then Some (CL_SUCCESS, p, h)
      else
        let '(status, p, h) := cl_qcpool_grow p min_size h in
        if decide (status <> CL_SUCCESS) then
          '(p, h) ← cl_qcpool_destroy p h; Some (status, p, h)
        else Some (status, p, h).

(** What both ways to take an object do when the free list is empty: grow, unless
    that is turned off.  Yields whether there is an object now. *)
Definition refill (p : cl_qcpool_t) (h : heap) : bool * cl_qcpool_t * heap :=
  if cl_is_qlist_empty (free_list p) then
    if decide (grow_size p = 0) then (false, p, h)
    else
      let '(_, p, h) := cl_qcpool_grow p (grow_size p) h in
      (negb (cl_is_qlist_empty (free_list p)), p, h)
  else (true, p, h).

Definition cl_qcpool_get (p : cl_qcpool_t) (h : heap) : ptr * cl_qcpool_t * heap :=
  let '(ready, p, h) := refill p h in
  if (ready : bool) then
    let '(item, lk, fl) := cl_qlist_remove_head (h_links h) (free_list p) in
    (item, set_lists p fl (alloc_list p), set_links h lk)
  else (NULL, p, h).

Definition cl_qcpool_get_tail (p : cl_qcpool_t) (h : heap) : ptr * cl_qcpool_t * heap :=
  let '(ready, p, h) := refill p h in
  if (ready : bool) then
    let '(item, lk, fl) := cl_qlist_remove_tail (h_links h) (free_list p) in
    (item, set_lists p fl (alloc_list p), set_links h lk)
  else (NULL, p, h).

Definition cl_qcpool_put (p : cl_qcpool_t) (p_pool_item : ptr) (h : heap) : cl_qcpool_t * heap :=
  let '(lk, fl) := cl_qlist_insert_head (h_links h) (free_list p) p_pool_item in
  (set_lists p fl (alloc_list p), set_links h lk).

(** The list the objects come in is left empty. *)
Definition cl_qcpool_put_list (p : cl_qcpool_t) (p_list : cl_qlist_t) (h : heap)
    : cl_qlist_t * cl_qcpool_t * heap :=
  let '(lk, fl, l) := cl_qlist_insert_list_head (h_links h) (free_list p) p_list in
  (l, set_lists p fl (alloc_list p), set_links h lk).

(** ** The front ends *)

(** Each is a quick composite pool and the caller's callbacks with their context,
    which the callbacks it installs carry along. *)

(** *** Quick pool: one component, the caller's callbacks see the object *)

Definition qpool_init_t : Type := ptr -> heap -> cl_status_t * ptr * heap.

Definition __cl_qpool_init_cb (user : qpool_init_t) : qcpool_init_t := fun comps h =>
  let '(status, item, h) := user (hd NULL comps) h in (status, item, comps, h).

Definition __cl_qpool_dtor_cb (user : qcpool_dtor_t) : qcpool_dtor_t := user.

Definition cl_qpool_construct (p : cl_qcpool_t) : cl_qcpool_t := cl_qcpool_construct p.

Definition cl_qpool_init (p : cl_qcpool_t) (min_size max_size grow object_size : Z)
    (init : option qpool_init_t) (dtor : option qcpool_dtor_t) (h : heap)
    : option (cl_status_t * cl_qcpool_t * heap) :=
  cl_qcpool_init p min_size max_size grow [object_size]
    (__cl_qpool_init_cb <$> init) (__cl_qpool_dtor_cb <$> dtor) h.

Definition cl_is_qpool_inited (p : cl_qcpool_t) : bool := cl_is_qcpool_inited p.
Definition cl_qpool_destroy (p : cl_qcpool_t) (h : heap) := cl_qcpool_destroy p h.
Definition cl_qpool_count (p : cl_qcpool_t) : Z := cl_qcpool_count p.
Definition cl_qpool_get (p : cl_qcpool_t) (h : heap) := cl_qcpool_get p h.
Definition cl_qpool_put (p : cl_qcpool_t) (p_pool_item : ptr) (h : heap) := cl_qcpool_put p p_pool_item h.
Definition cl_qpool_put_list (p : cl_qcpool_t) (p_list : cl_qlist_t) (h : heap) := cl_qcpool_put_list p p_list h.
Definition cl_qpool_grow (p : cl_qcpool_t) (obj_count : Z) (h : heap) := cl_qcpool_grow p obj_count h.

(** *** Composite pool and pool: a [cl_pool_obj_t] in front of the first component
    holds the pool item and the pointer to the caller's object *)

(** The pool item and the component pointers, the first moved past the prefix. *)
Definition pool_obj_setup (comps : list ptr) (h : heap) : ptr * list ptr * heap :=
  match comps with
  | c :: comps => (c, (c + sizeof_pool_obj) :: comps, set_object h c (c + sizeof_pool_obj))
  | [] => (NULL, [], h)
  end.

Definition cpool_init_t : Type := list ptr -> heap -> cl_status_t * heap.

Definition __cl_cpool_init_cb (user : option cpool_init_t) : qcpool_init_t := fun comps h =>
  let '(item, comps, h) := pool_obj_setup comps h in
  let '(status, h) := match user with Some f => f comps h | None => (CL_SUCCESS, h) end in
  (status, item, comps, h).

Definition __cl_cpool_dtor_cb (user : ptr -> heap -> heap) : qcpool_dtor_t := fun item h =>
  user (h_object h item) h.

Definition cl_cpool_construct (p : cl_qcpool_t) : cl_qcpool_t := cl_qcpool_construct p.

(** The caller's array of sizes is enlarged for the call and restored after it. *)
Definition cl_cpool_init (p : cl_qcpool_t) (min_size max_size grow : Z) (sizes : list Z)
    (init : option cpool_init_t) (dtor : option (ptr -> heap -> heap)) (h : heap)
    : option (cl_status_t * cl_qcpool_t * heap) :=
  let sizes := match sizes with s :: sizes => u64 (s + sizeof_pool_obj) :: sizes | [] => [] end in
  cl_qcpool_init p min_size max_size grow sizes
    (Some (__cl_cpool_init_cb init)) (__cl_cpool_dtor_cb <$> dtor) h.

Definition cl_is_cpool_inited (p : cl_qcpool_t) : bool := cl_is_qcpool_inited p.
Definition cl_cpool_destroy (p : cl_qcpool_t) (h : heap) := cl_qcpool_destroy p h.
Definition cl_cpool_count (p : cl_qcpool_t) : Z := cl_qcpool_count p.

(** The count is 32 bits wide here. *)
Definition cl_cpool_grow (p : cl_qcpool_t) (obj_count : Z) (h : heap) := cl_qcpool_grow p (u32 obj_count) h.

Definition cl_cpool_get (p : cl_qcpool_t) (h : heap) : ptr * cl_qcpool_t * heap :=
  let '(p_pool_obj, p, h) := cl_qcpool_get p h in
  if decide (p_pool_obj = NULL) then (NULL, p, h) else (h_object h p_pool_obj, p, h).

Definition cl_cpool_put (p : cl_qcpool_t) (p_object : ptr) (h : heap) : cl_qcpool_t * heap :=
  cl_qcpool_put p (p_object - sizeof_pool_obj) h.

Definition pool_init_t : Type := ptr -> heap -> cl_status_t * heap.

Definition __cl_pool_init_cb (user : option pool_init_t) : qcpool_init_t := fun comps h =>
  let '(item, comps, h) := pool_obj_setup comps h in
  let '(status, h) := match user with Some f => f (hd NULL comps) h | None => (CL_SUCCESS, h) end in
  (status, item, comps, h).

Definition __cl_pool_dtor_cb (user : ptr -> heap -> heap) : qcpool_dtor_t := fun item h =>
  user (h_object h item) h.

Definition cl_pool_construct (p : cl_qcpool_t) : cl_qcpool_t := cl_qcpool_construct p.

Definition cl_pool_init (p : cl_qcpool_t) (min_size max_size grow object_size : Z)
    (init : option pool_init_t) (dtor : option (ptr -> heap -> heap)) (h : heap)
    : option (cl_status_t * cl_qcpool_t * heap) :=
  let total_size := u64 (object_size + sizeof_pool_obj) in
  cl_qcpool_init p min_size max_size grow [total_size]
    (Some (__cl_pool_init_cb init)) (__cl_pool_dtor_cb <$> dtor) h.

Definition cl_is_pool_inited (p : cl_qcpool_t) : bool := cl_is_qcpool_inited p.
Definition cl_pool_destroy (p : cl_qcpool_t) (h : heap) := cl_qcpool_destroy p h.
Definition cl_pool_count (p : cl_qcpool_t) : Z := cl_qcpool_count p.
Definition cl_pool_grow (p : cl_qcpool_t) (obj_count : Z) (h : heap) := cl_qcpool_grow p obj_count h.

Definition cl_pool_get (p : cl_qcpool_t) (h : heap) : ptr * cl_qcpool_t * heap :=
  let '(p_pool_obj, p, h) := cl_qcpool_get p h in
  if decide (p_pool_obj = NULL) then (NULL, p, h) else (h_object h p_pool_obj, p, h).

Definition cl_pool_put (p : cl_qcpool_t) (p_object : ptr) (h : heap) : cl_qcpool_t * heap :=
  cl_qcpool_put p (p_object - sizeof_pool_obj) h.
End Pool.
Arguments cl_qcpool_t : clear implicits.

(** ** The invariant *)

(** What is relied on of the allocator: a block that is handed out was not in use,
    and is from then on. *)
Class AllocatorLaws (A : Type) {AL : Allocator A} := {
  owned : A -> ptr -> Prop;
  malloc_fresh n a p a' :
    cl_malloc n a = (p, a') -> p <> NULL ->
    0 < p /\ (forall q, p <= q < p + n -> ~ owned a q) /\
    (forall q, owned a' q <-> owned a q \/ p <= q < p + n);
  malloc_failed n a a' : cl_malloc n a = (NULL, a') -> forall q, owned a' q <-> owned a q }.

(** [NoDup] of a concatenation from the separation facts of the context. *)
Ltac nodup_build :=
  repeat first
    [ assumption
    | apply NoDup_nil_2
    | apply NoDup_cons; split; [solve [ne_solve]|]
    | apply NoDup_app; split_and!; [|solve [ne_solve]|] ].

Section Invariant.
Context {A U : Type} {AL : Allocator A} {LA : AllocatorLaws A}.
Implicit Types (h : heap A U) (p : cl_qcpool_t A U) (F O B : list ptr).
(** What the prefix of an object says of the caller's object, where there is one. *)
Context (R : ptr -> ptr -> Prop).

(** The addresses of a pool with free objects [F], objects [O] in use, and blocks [B]. *)
Definition pool_addrs p F O B : list ptr := ql_end (free_list p) :: ql_end (alloc_list p) :: F ++ O ++ B.

Record pool_at h p F O B : Prop := PoolAt {
  pl_state : state p = CL_INITIALIZED;
  pl_free : qlist_at (h_links h) (free_list p) F;
  pl_alloc : qlist_at (h_links h) (alloc_list p) B;
  pl_nodup : NoDup (pool_addrs p F O B);
  pl_owned : forall q, q ∈ pool_addrs p F O B -> owned (h_alloc h) q;
  pl_null : NULL ∉ F ++ O;
  pl_obj : forall q, q ∈ F ++ O -> R q (h_object h q);
  pl_count : num_objects p = Z.of_nat (length F + length O);
  pl_max : num_objects p <= max_objects p <= SIZE_MAX;
  pl_small : num_objects p < 2 ^ 32 }.

(** The settings of a pool, which only initialisation changes. *)
Definition same_pool p p' : Prop :=
  component_sizes p' = component_sizes p /\ max_objects p' = max_objects p /\
  grow_size p' = grow_size p /\ pfn_init p' = pfn_init p /\ pfn_dtor p' = pfn_dtor p /\
  state p' = state p /\ sizes_block p' = sizes_block p /\
  ql_end (free_list p') = ql_end (free_list p) /\ ql_end (alloc_list p') = ql_end (alloc_list p).

Lemma same_pool_sym p p' : same_pool p p' -> same_pool p' p.
Proof. intros H. unfold same_pool in *. destruct_and! H. split_and!; congruence. Qed.

#[export] Instance same_pool_preorder : PreOrder same_pool.
Proof.
  split; [by intros p|]. intros p1 p2 p3. unfold same_pool. intros H1 H2.
  destruct_and! H1. destruct_and! H2. split_and!; congruence.
Qed.

(** What the callbacks keep: the links, the allocator, and the prefixes of other
    objects; an initialiser that succeeds returns an item inside its object. *)
Record callbacks_ok p : Prop := CallbacksOk {
  cb_init c h : forall st item comps' h',
    make_item p (component_ptrs c (component_sizes p)) h = (st, item, comps', h') ->
    h_links h' = h_links h /\ h_alloc h' = h_alloc h /\
    (forall q, ~ (c <= q < c + obj_size p) -> h_object h' q = h_object h q) /\
    (st = CL_SUCCESS -> c <= item < c + obj_size p /\ R item (h_object h' item));
  cb_dtor item h :
    h_links (call_dtor p item h) = h_links h /\ h_alloc (call_dtor p item h) = h_alloc h /\
    h_object (call_dtor p item h) = h_object h;
  cb_size : 0 < obj_size p }.

Lemma callbacks_fields p p' :
  component_sizes p' = component_sizes p -> pfn_init p' = pfn_init p -> pfn_dtor p' = pfn_dtor p ->
  callbacks_ok p -> callbacks_ok p'.
Proof.
  intros E1 E2 E3 [H1 H2 H3].
  assert (Hs : obj_size p' = obj_size p) by (unfold obj_size; by rewrite E1).
  split.
  - intros c h st item comps' h'. unfold make_item. rewrite E1, E2, Hs. apply H1.
  - intros item h. unfold call_dtor. rewrite E3. apply H2.
  - by rewrite Hs.
Qed.

Lemma callbacks_same p p' : same_pool p p' -> callbacks_ok p -> callbacks_ok p'.
Proof. intros (E1 & _ & _ & E2 & E3 & _). by apply callbacks_fields. Qed.

(** Memory a pool operation leaves alone: what was in use and is not the pool's
    own, [S] before and [S'] after. *)
Definition same_at h h' (q : ptr) : Prop :=
  p_next (h_links h') q = p_next (h_links h) q /\ p_prev (h_links h') q = p_prev (h_links h) q /\
  h_object h' q = h_object h q.

Definition kept h h' (S S' : list ptr) : Prop :=
  (forall q, owned (h_alloc h) q -> owned (h_alloc h') q) /\
  (forall q, owned (h_alloc h) q -> q ∉ S -> q ∉ S' /\ same_at h h' q).

Lemma same_at_trans h1 h2 h3 q : same_at h1 h2 q -> same_at h2 h3 q -> same_at h1 h3 q.
Proof. unfold same_at. intros (? & ? & ?) (? & ? & ?). split_and!; congruence. Qed.

Lemma kept_refl h S : kept h h S S.
Proof. by split. Qed.

Lemma kept_trans h1 h2 h3 S1 S2 S3 : kept h1 h2 S1 S2 -> kept h2 h3 S2 S3 -> kept h1 h3 S1 S3.
Proof.
  intros [Ho1 Hk1] [Ho2 Hk2]. split; [by auto|]. intros q Hq HS. destruct (Hk1 q Hq HS) as [HS2 H12].
  destruct (Hk2 q (Ho1 q Hq) HS2) as [HS3 H23]. split; [done|by eapply same_at_trans].
Qed.

(** Operations that only write links. *)
Lemma kept_links h lk (S S' W : list ptr) :
  same_off W (h_links h) lk -> W ⊆ S -> S' ⊆ S -> kept h (set_links h lk) S S'.
Proof.
  intros Hw HW HS. split; [done|]. intros q _ Hq. split; [by intros ?%HS|].
  destruct (Hw q) as [E1 E2]; [by intros ?%HW|]. by split_and!.
Qed.

(** The length of the free list fits the emptiness test. *)
Lemma pool_free_empty h p F O B :
  pool_at h p F O B -> cl_is_qlist_empty (free_list p) = bool_decide (F = []).
Proof. intros [_ Hf _ _ _ _ _ Hc _ Hs]. apply (qlist_empty_spec (h_links h)); [done|]. lia. Qed.

(** The items on the free list and in use. *)
Lemma pool_item h p F O B q : pool_at h p F O B -> q ∈ F ++ O -> owned (h_alloc h) q /\ q <> NULL.
Proof.
  intros Hp Hq. split.
  - apply (pl_owned _ _ _ _ _ Hp). unfold pool_addrs. set_solver.
  - intros ->. by apply (pl_null _ _ _ _ _ Hp).
Qed.

(** Pushing an item on the free list leaves the list of blocks alone. *)
Lemma free_push lk p F B q :
  qlist_at lk (free_list p) F -> qlist_at lk (alloc_list p) B ->
  NoDup (ql_end (free_list p) :: ql_end (alloc_list p) :: F ++ q :: B) ->
  let '(lk', fl) := cl_qlist_insert_head lk (free_list p) q in
  qlist_at lk' fl (q :: F) /\ qlist_at lk' (alloc_list p) B /\ ql_end fl = ql_end (free_list p) /\
  same_off (q :: ql_end (free_list p) :: F) lk lk'.
Proof.
  intros Hf Ha Hnd. pose proof (qlist_insert_head_spec lk (free_list p) F q Hf) as H.
  destruct (cl_qlist_insert_head lk (free_list p) q) as [lk' fl] eqn:E.
  destruct H as [H1 H2]; [nodup_simpl; ne_solve|]. split; [done|]. split.
  - eapply qlist_frame; [exact H2| |exact Ha]. nodup_simpl. ne_solve.
  - unfold cl_qlist_insert_head in E. by injection E as <- <-.
Qed.

(** Taking the first item off the free list likewise. *)
Lemma free_pop lk p x F B :
  qlist_at lk (free_list p) (x :: F) -> qlist_at lk (alloc_list p) B ->
  NoDup (ql_end (free_list p) :: ql_end (alloc_list p) :: (x :: F) ++ B) ->
  let '(item, lk', fl) := cl_qlist_remove_head lk (free_list p) in
  item = x /\ qlist_at lk' fl F /\ qlist_at lk' (alloc_list p) B /\ ql_end fl = ql_end (free_list p) /\
  same_off (ql_end (free_list p) :: x :: F) lk lk'.
Proof.
  intros Hf Ha Hnd. pose proof (qlist_remove_head_spec lk (free_list p) (x :: F) Hf) as H.
  destruct (cl_qlist_remove_head lk (free_list p)) as [[item lk'] fl] eqn:E.
  destruct H as (H1 & H2 & H3). cbn in H1, H2. split; [done|]. split; [done|]. split; [|split; [|done]].
  - eapply qlist_frame; [exact H3| |exact Ha]. nodup_simpl. ne_solve.
  - unfold cl_qlist_remove_head in E. case_decide; by injection E as <- <- <-.
Qed.

(** A new object on the free list. *)
Lemma pool_new h p F O B q comps :
  pool_at h p F O B -> q ∉ pool_addrs p F O B -> owned (h_alloc h) q -> q <> NULL ->
  R q (h_object h q) -> num_objects p + 1 <= max_objects p -> num_objects p + 1 < 2 ^ 32 ->
  let '(lk, fl) := cl_qlist_insert_head (h_links h) (free_list p) q in
  let p' := set_objects (set_lists p fl (alloc_list p)) comps (u64 (num_objects p + 1)) in
  pool_at (set_links h lk) p' (q :: F) O B /\ same_pool p p' /\ num_objects p' = num_objects p + 1 /\
  same_off (q :: ql_end (free_list p) :: F) (h_links h) lk.
Proof.
  intros [Hst Hf Ha Hnd Hown Hnull Hobj Hc Hm Hs] Hq Hqo Hq0 Hqr Hm1 Hs1. unfold pool_addrs in *.
  pose proof (free_push (h_links h) p F B q Hf Ha) as H.
  destruct (cl_qlist_insert_head (h_links h) (free_list p) q) as [lk fl].
  destruct H as (H1 & H2 & H3 & Hoff).
  { nodup_simpl. nodup_build. }
  assert (Hw : u64 (num_objects p + 1) = num_objects p + 1) by (apply wrap_small; lia).
  assert (HP : pool_addrs (set_objects (set_lists p fl (alloc_list p)) comps (u64 (num_objects p + 1))) (q :: F) O B
    ≡ₚ q :: ql_end (free_list p) :: ql_end (alloc_list p) :: F ++ O ++ B).
  { unfold pool_addrs. cbn. rewrite H3. solve_Permutation. }
  split; [|split; [by split_and!|done]]. constructor; cbn -[wrap pool_addrs]; try done.
  - rewrite HP. by apply NoDup_cons.
  - intros z. rewrite HP, elem_of_cons. intros [->|Hz]; auto.
  - set_solver.
  - intros z Hz. cbn in Hz. apply elem_of_cons in Hz as [->|Hz]; auto.
  - rewrite Hw. lia.
  - lia.
  - lia.
Qed.

(** An object in use comes back. *)
Lemma pool_put_spec h p F O1 q O2 B :
  pool_at h p F (O1 ++ q :: O2) B ->
  let '(p', h') := cl_qcpool_put p q h in
  pool_at h' p' (q :: F) (O1 ++ O2) B /\ same_pool p p' /\ num_objects p' = num_objects p /\
  h_alloc h' = h_alloc h /\ h_object h' = h_object h /\
  kept h h' (pool_addrs p F [q] B) (pool_addrs p' (q :: F) [] B).
Proof.
  intros [Hst Hf Ha Hnd Hown Hnull Hobj Hc Hm Hs]. unfold cl_qcpool_put.
  pose proof (free_push (h_links h) p F B q Hf Ha) as H.
  destruct (cl_qlist_insert_head (h_links h) (free_list p) q) as [lk fl].
  destruct H as (H1 & H2 & H3 & Hoff).
  { unfold pool_addrs in Hnd. nodup_simpl. nodup_build. }
  assert (HP : pool_addrs (set_lists p fl (alloc_list p)) (q :: F) (O1 ++ O2) B
    ≡ₚ pool_addrs p F (O1 ++ q :: O2) B).
  { unfold pool_addrs. cbn. rewrite H3. solve_Permutation. }
  split; [|split_and!; try done; apply (kept_links _ _ _ _ _ Hoff); unfold pool_addrs; cbn; rewrite ?H3; set_solver]. constructor; cbn -[pool_addrs]; try done.
  - by rewrite HP.
  - intros z. rewrite HP. apply Hown.
  - set_solver.
  - intros z Hz. apply Hobj. set_solver.
  - rewrite Hc, !length_app. cbn. lia.
Qed.

(** What splicing a list into another one writes. *)
Lemma insert_list_head_off lk dest l1 src l2 :
  two_lists lk dest l1 src l2 -> Z.of_nat (length l2) < 2 ^ 32 ->
  let '(lk', dest', src') := cl_qlist_insert_list_head lk dest src in
  same_off (ql_end dest :: l1 ++ ql_end src :: l2) lk lk' /\ ql_end dest' = ql_end dest /\ ql_end src' = ql_end src.
Proof.
  intros H2 Hlen. pose proof H2 as (Hd & Hs & Hnd). unfold cl_qlist_insert_list_head.
  rewrite (qlist_empty_spec lk src l2) by done. case_bool_decide as He; [done|].
  destruct (head l2) as [a|] eqn:Ha; [|by destruct l2].
  destruct (last l2) as [b|] eqn:Hb; [|by apply last_None in Hb].
  destruct (two_lists_ends _ _ _ _ _ _ _ H2 Ha Hb) as (Ia & Ib & Na & Pb).
  pose proof (ring_head _ _ _ (proj1 Hd)) as Nd. set (y := default (ql_end dest) (head l1)) in *.
  assert (y ∈ ql_end dest :: l1) as Iy by (destruct l1; cbn; set_solver).
  unfold cl_qlist_tail, cl_qlist_head, cl_qlist_next, cl_qlist_prev. cbn -[upd].
  rewrite Nd, Pb. fold y. rewrite (upd_ne _ b (ql_end dest)), Nd by (nodup_simpl; ne_solve).
  fold y. rewrite (upd_ne _ b (ql_end src)), Na by (nodup_simpl; ne_solve).
  rewrite (upd_ne _ (ql_end dest) (ql_end src)), (upd_ne _ b (ql_end src)), Na by (nodup_simpl; ne_solve).
  split; [|done]. intros x Hx. cbn. rewrite !upd_ne by set_solver. done.
Qed.

(** All objects of a list come back at once. *)
Lemma pool_put_list_spec h p F L O B l :
  pool_at h p F (L ++ O) B -> qlist_at (h_links h) l L -> ql_end l ∉ pool_addrs p F (L ++ O) B ->
  let '(l', p', h') := cl_qcpool_put_list p l h in
  pool_at h' p' (L ++ F) O B /\ qlist_at (h_links h') l' [] /\ same_pool p p' /\ num_objects p' = num_objects p /\
  h_alloc h' = h_alloc h /\ h_object h' = h_object h /\ ql_end l' = ql_end l /\
  kept h h' (ql_end l :: pool_addrs p F L B) (ql_end l :: pool_addrs p' (L ++ F) [] B).
Proof.
  intros [Hst Hf Ha Hnd Hown Hnull Hobj Hc Hm Hs] Hl Hle. unfold cl_qcpool_put_list, pool_addrs in *.
  assert (H2 : two_lists (h_links h) (free_list p) F l L).
  { split_and!; try done. nodup_simpl. nodup_build. }
  assert (Hlen : Z.of_nat (length L) < 2 ^ 32) by (rewrite length_app in Hc; lia).
  pose proof (qlist_insert_list_head_spec _ _ _ _ _ H2 Hlen) as H.
  pose proof (insert_list_head_off _ _ _ _ _ H2 Hlen) as Hk.
  destruct (cl_qlist_insert_list_head _ _ _) as [[lk fl] l']. destruct H as (H1 & H3 & _).
  destruct Hk as (Hoff & E1 & E2).
  assert (HP : forall O', pool_addrs (set_lists p fl (alloc_list p)) (L ++ F) O' B ≡ₚ pool_addrs p F (L ++ O') B).
  { intros O'. unfold pool_addrs. cbn. rewrite E1. solve_Permutation. }
  split; [constructor; cbn -[pool_addrs]; try done|split_and!; try done].
  - eapply qlist_frame; [exact Hoff| |exact Ha]. nodup_simpl. ne_solve.
  - by rewrite HP.
  - intros z. rewrite HP. apply Hown.
  - set_solver.
  - intros z Hz. apply Hobj. set_solver.
  - rewrite Hc, !length_app. lia.
  - apply (kept_links _ _ _ _ _ Hoff); [set_solver|]. cbn. rewrite E1. set_solver.
Qed.

(** The first free object goes into use. *)
Lemma pool_pop h p x F O B :
  pool_at h p (x :: F) O B ->
  let '(item, lk, fl) := cl_qlist_remove_head (h_links h) (free_list p) in
  let p' := set_lists p fl (alloc_list p) in
  item = x /\ pool_at (set_links h lk) p' F (x :: O) B /\ same_pool p p' /\
  kept h (set_links h lk) (pool_addrs p (x :: F) [] B) (pool_addrs p' F [x] B).
Proof.
  intros [Hst Hf Ha Hnd Hown Hnull Hobj Hc Hm Hs].
  pose proof (free_pop (h_links h) p x F B Hf Ha) as H.
  destruct (cl_qlist_remove_head (h_links h) (free_list p)) as [[item lk] fl].
  destruct H as (-> & H1 & H2 & H3 & Hoff).
  { unfold pool_addrs in Hnd. nodup_simpl. nodup_build. }
  assert (HP : pool_addrs (set_lists p fl (alloc_list p)) F (x :: O) B ≡ₚ pool_addrs p (x :: F) O B).
  { unfold pool_addrs. cbn. rewrite H3. solve_Permutation. }
  split; [done|].
  split; [|split; [done|apply (kept_links _ _ _ _ _ Hoff); unfold pool_addrs; cbn; rewrite ?H3; set_solver]]. constructor; cbn -[pool_addrs]; try done.
  - by rewrite HP.
  - intros z. rewrite HP. apply Hown.
  - set_solver.
  - intros z Hz. apply Hobj. set_solver.
  - rewrite Hc. cbn. lia.
Qed.

(** The last free object goes into use. *)
Lemma pool_pop_tail h p x F O B :
  pool_at h p (F ++ [x]) O B ->
  let '(item, lk, fl) := cl_qlist_remove_tail (h_links h) (free_list p) in
  let p' := set_lists p fl (alloc_list p) in
  item = x /\ pool_at (set_links h lk) p' F (x :: O) B /\ same_pool p p'.
Proof.
  intros [Hst Hf Ha Hnd Hown Hnull Hobj Hc Hm Hs].
  pose proof (qlist_remove_tail_spec (h_links h) (free_list p) (F ++ [x]) Hf) as H.
  destruct (cl_qlist_remove_tail (h_links h) (free_list p)) as [[item lk] fl] eqn:E.
  destruct H as (H1 & H2 & H3). rewrite last_snoc in H1. cbn in H1.
  rewrite length_app, Nat.add_sub, take_app_length in H2.
  assert (Efl : ql_end fl = ql_end (free_list p)).
  { unfold cl_qlist_remove_tail in E. case_decide; by injection E as <- <- <-. }
  assert (HP : pool_addrs (set_lists p fl (alloc_list p)) F (x :: O) B ≡ₚ pool_addrs p (F ++ [x]) O B).
  { unfold pool_addrs. cbn. rewrite Efl. solve_Permutation. }
  split; [done|]. split; [|by split_and!]. constructor; cbn -[pool_addrs]; try done.
  - eapply qlist_frame; [exact H3| |exact Ha]. unfold pool_addrs in Hnd. nodup_simpl. ne_solve.
  - by rewrite HP.
  - intros z. rewrite HP. apply Hown.
  - set_solver.
  - intros z Hz. apply Hobj. set_solver.
  - rewrite Hc, length_app. cbn. lia.
Qed.

(** The initialiser puts the pool item at the start of the object. *)
Definition starts p : Prop :=
  forall c h st item comps' h',
    make_item p (component_ptrs c (component_sizes p)) h = (st, item, comps', h') -> st = CL_SUCCESS -> item = c.

Lemma starts_same p p' : same_pool p p' -> starts p -> starts p'.
Proof.
  intros (E1 & _ & _ & E2 & _) Hs c h st item comps' h'. unfold make_item. rewrite E1, E2. apply Hs.
Qed.

(** The objects of a block, by their number. *)
Definition in_slots (c size n : Z) (news : list ptr) : Prop :=
  forall q, q ∈ news -> exists i, 0 <= i < n /\ q = c + i * size.

(** The loop makes objects one after the other in fresh memory, until it is done
    or an initialiser fails. *)
Lemma grow_loop_spec n c p h F O B :
  callbacks_ok p -> pool_at h p F O B -> 0 < c ->
  (forall q, c <= q < c + Z.of_nat n * obj_size p -> owned (h_alloc h) q /\ q ∉ pool_addrs p F O B) ->
  num_objects p + Z.of_nat n <= max_objects p -> num_objects p + Z.of_nat n < 2 ^ 32 ->
  exists st p' h' news, grow_loop n c (obj_size p) p h = (st, p', h') /\
    pool_at h' p' (news ++ F) O B /\ same_pool p p' /\ h_alloc h' = h_alloc h /\
    (length news <= n)%nat /\ (st = CL_SUCCESS <-> length news = n) /\
    num_objects p' = num_objects p + Z.of_nat (length news) /\
    (starts p -> in_slots c (obj_size p) (Z.of_nat n) news) /\
    (forall q, q ∉ pool_addrs p F [] B -> ~ (c <= q < c + Z.of_nat n * obj_size p) ->
       q ∉ pool_addrs p' (news ++ F) [] B /\ same_at h h' q).
Proof.
  revert c p h F. induction n as [|n IH]; intros c p h F Hcb Hp Hc Hfresh Hm Hs; cbn [grow_loop].
  { exists CL_SUCCESS, p, h, []. rewrite Z.add_0_r. split_and!; (done || set_solver). }
  destruct (make_item p (component_ptrs c (component_sizes p)) h) as [[[st item] comps] h1] eqn:Hmk.
  destruct (cb_init p Hcb c h _ _ _ _ Hmk) as (El & Ea & Eo & Hin). pose proof (cb_size p Hcb) as Hsz.
  assert (Hp1 : pool_at h1 p F O B).
  { destruct Hp. constructor; rewrite ?El, ?Ea; try done.
    intros q Hq. rewrite Eo; [by auto|]. intros Hr. destruct (Hfresh q) as [_ []]; [nia|].
    unfold pool_addrs. set_solver. }
  case_decide as Hst.
  { exists st, (set_objects p comps (num_objects p)), (call_dtor p item h1), [].
    destruct (cb_dtor p Hcb item h1) as (Dl & Da & Do).
    split; [done|]. split_and!; try done; cbn; try lia; [|by rewrite Da, Ea|set_solver|].
    - destruct Hp1. constructor; rewrite ?Dl, ?Da, ?Do; done.
    - intros q Hq Hout. split; [done|]. unfold same_at. rewrite Dl, Do, El, Eo by nia. done. }
  assert (st = CL_SUCCESS) as -> by (destruct (decide (st = CL_SUCCESS)); [done|by destruct Hst]).
  destruct (Hin eq_refl) as [Hir HiR]. destruct (Hfresh item) as [Hio Hia]; [nia|].
  pose proof (pool_new h1 p F O B item comps Hp1 Hia) as H.
  destruct (cl_qlist_insert_head (h_links h1) (free_list p) item) as [lk fl].
  destruct H as (Hp2 & Hsame & Hnum & Hoff); [by rewrite Ea|lia|done|lia..|].
  set (p2 := set_objects _ _ _) in *.
  assert (Hsz2 : obj_size p2 = obj_size p) by (unfold obj_size; by rewrite (proj1 Hsame)).
  pose proof Hsame as (_ & Hmax & _ & _ & _ & _ & _ & Ef & Eal).
  destruct (IH (c + obj_size p) p2 (set_links h1 lk) (item :: F)) as
    (st & p' & h' & news & Hrun & Hp' & Hs' & Ha' & Hl & Hst' & Hn' & Hreg & Hkeep); try done; try lia.
  - by eapply callbacks_same.
  - intros q Hq. rewrite Hsz2 in Hq. cbn [h_alloc set_links]. rewrite Ea.
    destruct (Hfresh q) as [? Hq']; [nia|]. split; [done|]. unfold pool_addrs in *. rewrite Ef, Eal.
    cbn. rewrite !elem_of_cons in *. intros [?|[?|[->|?]]]; [naive_solver..|nia|naive_solver].
  - rewrite Hsz2 in Hrun, Hreg, Hkeep. exists st, p', h', (news ++ [item]). rewrite Hrun. split; [done|].
    rewrite <- (assoc_L (++)), length_app. cbn [app length]. split_and!; try done; try lia.
    + by etrans.
    + by rewrite Ha'.
    + intros Hstarts q. rewrite elem_of_app, list_elem_of_singleton. intros [Hq| ->].
      * destruct (Hreg (starts_same _ _ Hsame Hstarts) q Hq) as (i & Hi & ->). exists (i + 1). split; [lia|ring].
      * exists 0. rewrite (Hstarts _ _ _ _ _ _ Hmk eq_refl). split; [lia|ring].
    + intros q Hq Hout. destruct (Hkeep q) as [Hq2 Hsq]; [|nia|].
      { unfold pool_addrs in *. rewrite Ef, Eal. cbn. rewrite !elem_of_cons in *.
        intros [?|[?|[->|?]]]; [naive_solver..|nia|naive_solver]. }
      split; [done|]. eapply same_at_trans; [|exact Hsq].
      unfold pool_addrs in Hq. destruct (Hoff q) as [E1 E2]; [set_unfold; intros [->|]; [nia|naive_solver]|].
      unfold same_at. cbn [h_links h_object set_links]. rewrite E1, E2, El, Eo by nia. done.
Qed.

(** Growing by [n] objects does not overflow a size or the 32-bit count. *)
Definition can_grow p (n : Z) : Prop :=
  0 < n /\ sizeof_list_item + obj_size p * n < 2 ^ 64 /\ max_objects p < 2 ^ 32.

Lemma can_grow_same p p' n : same_pool p p' -> can_grow p n -> can_grow p' n.
Proof. intros (E & Em & _). unfold can_grow, obj_size. by rewrite E, Em. Qed.

(** How many objects a request for [n] may add. *)
Definition growth p (n : Z) : Z := Z.min n (max_objects p - num_objects p).

(** There is room for one growth by [n] objects, also in a pool without a maximum. *)
Definition room p (n : Z) : Prop :=
  0 < n /\ sizeof_list_item + obj_size p * n < 2 ^ 64 /\ num_objects p + growth p n < 2 ^ 32.

Lemma can_grow_room p n : can_grow p n -> room p n.
Proof. intros (H1 & H2 & H3). split_and!; try done. unfold growth. lia. Qed.

Lemma pool_realloc h p F O B a :
  pool_at h p F O B -> (forall q, owned (h_alloc h) q -> owned a q) -> pool_at (set_alloc h a) p F O B.
Proof. intros [] Ho. constructor; cbn; auto. Qed.

(** Clearing memory outside a pool. *)
Lemma pool_zero h p F O B b n :
  (forall q, b <= q < b + n -> q ∉ pool_addrs p F O B) -> pool_at h p F O B -> pool_at (zero_block b n h) p F O B.
Proof.
  intros Hout []. unfold pool_addrs in Hout.
  assert (Hkeep : forall (f : ptr -> ptr) q, q ∈ pool_addrs p F O B -> (if decide (b <= q < b + n) then NULL else f q) = f q).
  { intros f q Hq. rewrite decide_False; [done|]. intros Hr. by apply (Hout q Hr). }
  unfold pool_addrs in Hkeep.
  constructor; try done; cbn.
  - eapply qlist_same; [|done]. intros q Hq. cbn. rewrite !Hkeep by set_solver. done.
  - eapply qlist_same; [|done]. intros q Hq. cbn. rewrite !Hkeep by set_solver. done.
  - intros q Hq. rewrite Hkeep by set_solver. auto.
Qed.

(** The block a growth allocates joins the list of blocks. *)
Lemma alloc_push lk p F B q :
  qlist_at lk (free_list p) F -> qlist_at lk (alloc_list p) B ->
  NoDup (ql_end (free_list p) :: ql_end (alloc_list p) :: F ++ q :: B) ->
  let '(lk', al) := cl_qlist_insert_tail lk (alloc_list p) q in
  qlist_at lk' al (B ++ [q]) /\ qlist_at lk' (free_list p) F /\ ql_end al = ql_end (alloc_list p) /\
  same_off (q :: ql_end (alloc_list p) :: B) lk lk'.
Proof.
  intros Hf Ha Hnd. pose proof (qlist_insert_tail_spec lk (alloc_list p) B q Ha) as H.
  destruct (cl_qlist_insert_tail lk (alloc_list p) q) as [lk' al] eqn:E.
  destruct H as [H1 H2]; [nodup_simpl; ne_solve|]. split; [done|]. split; [|split; [|done]].
  - eapply qlist_frame; [exact H2| |exact Hf]. nodup_simpl. ne_solve.
  - unfold cl_qlist_insert_tail in E. by injection E as <- <-.
Qed.

Lemma pool_block h p F O B q :
  pool_at h p F O B -> q ∉ pool_addrs p F O B -> owned (h_alloc h) q ->
  let '(lk, al) := cl_qlist_insert_tail (h_links h) (alloc_list p) q in
  let p' := set_lists p (free_list p) al in
  pool_at (set_links h lk) p' F O (B ++ [q]) /\ same_pool p p' /\
  pool_addrs p' F O (B ++ [q]) ≡ₚ q :: pool_addrs p F O B /\
  pool_addrs p' F [] (B ++ [q]) ≡ₚ q :: pool_addrs p F [] B /\
  kept h (set_links h lk) (q :: pool_addrs p F [] B) (pool_addrs p' F [] (B ++ [q])).
Proof.
  intros [Hst Hf Ha Hnd Hown Hnull Hobj Hc Hm Hs] Hq Hqo.
  pose proof (alloc_push (h_links h) p F B q Hf Ha) as H.
  destruct (cl_qlist_insert_tail (h_links h) (alloc_list p) q) as [lk al].
  destruct H as (H1 & H2 & H3 & Hoff).
  { unfold pool_addrs in *. nodup_simpl. nodup_build. }
  assert (HP : forall O, pool_addrs (set_lists p (free_list p) al) F O (B ++ [q]) ≡ₚ q :: pool_addrs p F O B).
  { intros O'. unfold pool_addrs. cbn. rewrite H3. solve_Permutation. }
  split; [|split_and!; try done; apply (kept_links _ _ _ _ _ Hoff); [unfold pool_addrs; set_solver|]; by rewrite HP].
  constructor; cbn -[pool_addrs]; try done.
  - rewrite HP. by apply NoDup_cons.
  - intros z. rewrite HP, elem_of_cons. intros [->|Hz]; auto.
Qed.

(** New objects are in memory that was not in use before and is now. *)
Definition fresh_objects h h' p news : Prop :=
  (forall q, owned (h_alloc h) q -> owned (h_alloc h') q) /\
  (starts p -> exists b n, 0 <= n /\ in_slots b (obj_size p) n news /\
     forall q, b <= q < b + obj_size p * n -> 0 < q /\ ~ owned (h_alloc h) q /\ owned (h_alloc h') q).

Lemma no_fresh_objects h h' p :
  (forall q, owned (h_alloc h) q -> owned (h_alloc h') q) -> fresh_objects h h' p [].
Proof.
  intros Ho. split; [done|]. intros _. exists 0, 0. split; [done|]. split; [by intros q ?%not_elem_of_nil|lia].
Qed.

(** Growth adds distinct new objects, at most as many as asked for and as the
    maximum allows: exactly that many when it reports success. *)
Lemma pool_grow_spec h p F O B n :
  callbacks_ok p -> pool_at h p F O B -> room p n ->
  exists st p' h' news B', cl_qcpool_grow p n h = (st, p', h') /\
    pool_at h' p' (news ++ F) O B' /\ same_pool p p' /\
    (B' = B /\ news = [] \/ exists b, B' = B ++ [b]) /\
    (st = CL_SUCCESS -> Z.of_nat (length news) = growth p n /\ num_objects p < max_objects p) /\
    (num_objects p = max_objects p -> st = CL_INSUFFICIENT_MEMORY /\ news = [] /\ h' = h) /\
    fresh_objects h h' p news /\ num_objects p <= num_objects p' <= num_objects p + n /\
    kept h h' (pool_addrs p F [] B) (pool_addrs p' (news ++ F) [] B').
Proof.
  intros Hcb Hp (Hn & Hfit & Hmax). pose proof (pl_max _ _ _ _ _ Hp) as Hm. pose proof (cb_size p Hcb) as Hsz.
  pose proof (pl_count _ _ _ _ _ Hp) as Hcount. unfold cl_qcpool_grow. case_decide as Hfull.
  { exists CL_INSUFFICIENT_MEMORY, p, h, [], B. split_and!; try done; [by left|by apply no_fresh_objects|lia]. }
  rewrite (wrap_small 64 (max_objects p - num_objects p)) by (unfold SIZE_MAX in Hm; lia).
  assert (Hcnt : (if decide (n > max_objects p - num_objects p) then max_objects p - num_objects p else n) = growth p n).
  { unfold growth. case_decide; lia. }
  rewrite Hcnt. clear Hcnt. set (cnt := growth p n) in *.
  assert (Hcr : 0 < cnt <= n /\ num_objects p + cnt <= max_objects p) by (unfold cnt, growth; lia).
  unfold sizeof_list_item in *.
  rewrite (wrap_small 64 (obj_size p * cnt)), wrap_small by nia.
  destruct (cl_malloc (16 + obj_size p * cnt) (h_alloc h)) as [b a] eqn:Hmal. case_decide as Hb.
  { subst b. exists CL_INSUFFICIENT_MEMORY, p, (set_alloc h a), [], B. split; [done|].
    assert (Hown : forall q, owned (h_alloc h) q -> owned a q) by (intros q; by rewrite (malloc_failed _ _ _ Hmal)).
    split; [by apply pool_realloc|split_and!; [done|by left|done|lia|by apply no_fresh_objects|lia|lia|by split]]. }
  destruct (malloc_fresh _ _ _ _ Hmal Hb) as (Hb0 & Hfresh & Hown).
  assert (Hp1 : pool_at (set_alloc h a) p F O B) by (apply pool_realloc; [done|]; intros; apply Hown; auto).
  assert (Hnew : forall q, b <= q < b + (16 + obj_size p * cnt) -> q ∉ pool_addrs p F O B).
  { intros q Hq Hin. apply (Hfresh q Hq). by apply (pl_owned _ _ _ _ _ Hp). }
  apply (pool_zero _ _ _ _ _ b (16 + obj_size p * cnt) Hnew) in Hp1.
  pose proof (pool_block (zero_block b (16 + obj_size p * cnt) (set_alloc h a)) p F O B b Hp1) as H.
  destruct (cl_qlist_insert_tail _ _ _) as [lk al].
  destruct H as (Hp2 & Hsame & HP & HP0 & _ & Hkb); [apply Hnew; nia|apply Hown; right; nia|].
  set (p2 := set_lists _ _ _) in *. set (h2 := set_links _ _) in *.
  assert (Hsz2 : obj_size p2 = obj_size p) by done.
  destruct (grow_loop_spec (Z.to_nat cnt) (b + 16) p2 h2 F O (B ++ [b])) as
    (st & p' & h' & news & Hrun & Hp' & Hs' & Ha' & Hl & Hst' & Hn' & Hreg & Hkeep);
    [by eapply callbacks_same|done|lia| |cbn; lia..|].
  { intros q Hq. rewrite Hsz2 in Hq. split; [apply Hown; right; nia|]. rewrite HP, elem_of_cons.
    intros [->|Hin]; [nia|]. apply (Hnew q); [nia|done]. }
  rewrite Hsz2 in Hrun. exists st, p', h', news, (B ++ [b]). split; [exact Hrun|]. split; [done|].
  split; [by etrans|]. split; [by eauto|]. split; [|split; [done|]]. { intros E. apply Hst' in E. lia. }
  rewrite Z2Nat.id in Hreg, Hkeep by lia. rewrite Hsz2 in Hkeep. unfold fresh_objects, kept. rewrite Ha'.
  cbn [h_alloc h2 set_links zero_block set_alloc].
  split; [|split; [cbn in Hn'; lia|split; [intros; apply Hown; by left|]]].
  2: { intros q Hq HqS. assert (Hout : ~ (b <= q < b + (16 + obj_size p * cnt))) by (intros Hr; by apply (Hfresh q Hr)).
    destruct (Hkeep q) as [Hq' Hsq]; [rewrite HP0, elem_of_cons; intros [->|]; [nia|done]|nia|].
    split; [done|]. eapply same_at_trans; [|exact Hsq].
    destruct (Hkb q) as [_ Hsb]; [cbn; apply Hown; by left|rewrite elem_of_cons; intros [->|]; [nia|done]|].
    eapply same_at_trans; [|exact Hsb]. unfold same_at. cbn. by rewrite !decide_False. }
  split; [intros; apply Hown; by left|]. intros Hstarts. exists (b + 16), cnt. split; [lia|]. rewrite Hsz2 in Hreg.
  split; [by apply Hreg, (starts_same p)|]. intros q Hq. split; [lia|]. split; [apply Hfresh; nia|apply Hown; right; nia].
Qed.

(** A pool that may grow by itself, or never does. *)
Definition auto_grow_ok p : Prop := grow_size p = 0 \/ can_grow p (grow_size p).

Lemma auto_grow_same p p' : same_pool p p' -> auto_grow_ok p -> auto_grow_ok p'.
Proof.
  intros Hs [H|H]; pose proof Hs as (_ & _ & Eg & _); unfold auto_grow_ok; rewrite Eg; [by left|].
  right. by eapply can_grow_same.
Qed.

(** A pool that has room for the next growth by itself, or never grows. *)
Definition auto_room p : Prop := grow_size p = 0 \/ room p (grow_size p).

Lemma auto_grow_room p : auto_grow_ok p -> auto_room p.
Proof. intros [H|H]; [by left|right; by apply can_grow_room]. Qed.

Lemma refill_spec h p F O B :
  callbacks_ok p -> (F = [] -> auto_room p) -> pool_at h p F O B ->
  exists ready p' h' F' B', refill p h = (ready, p', h') /\ pool_at h' p' F' O B' /\ same_pool p p' /\
    ready = negb (bool_decide (F' = [])) /\ (F <> [] -> F' = F /\ B' = B /\ p' = p /\ h' = h) /\
    (F = [] -> num_objects p <= num_objects p' <= num_objects p + grow_size p /\ (length B' <= S (length B))%nat) /\
    kept h h' (pool_addrs p F [] B) (pool_addrs p' F' [] B').
Proof.
  intros Hcb Hg Hp. unfold refill. rewrite (pool_free_empty h p F O B Hp). case_bool_decide as HF.
  - subst F. case_decide as Hg0.
    { exists false, p, h, [], B. split_and!; (done || lia). }
    destruct (Hg eq_refl) as [Hg'|Hg']; [done|].
    destruct (pool_grow_spec h p [] O B (grow_size p) Hcb Hp Hg') as
      (st & p' & h' & news & B' & Hrun & Hp' & Hs & HB & _ & _ & _ & Hn & Hk). rewrite app_nil_r in Hp', Hk.
    assert (length B' <= S (length B))%nat by (destruct HB as [[-> _]|[b ->]]; rewrite ?length_app; cbn; lia).
    rewrite Hrun. exists (negb (bool_decide (news = []))), p', h', news, B'.
    rewrite (pool_free_empty h' p' news O B' Hp'). split_and!; (done || lia).
  - exists true, p, h, F, B. rewrite bool_decide_false by done. by split_and!.
Qed.

(** Taking an object: the first free one, a new one when there is none and the
    pool can grow, or none; it was not in use. *)
Lemma pool_get_spec h p F O B :
  callbacks_ok p -> (F = [] -> auto_room p) -> pool_at h p F O B ->
  exists item p' h' F' B', cl_qcpool_get p h = (item, p', h') /\ same_pool p p' /\
    (item <> NULL /\ item ∉ O /\ pool_at h' p' F' (item :: O) B' /\
       kept h h' (pool_addrs p F [] B) (pool_addrs p' F' [item] B') \/
     item = NULL /\ F = [] /\ pool_at h' p' [] O B' /\ kept h h' (pool_addrs p F [] B) (pool_addrs p' [] [] B')) /\
    (forall x F0, F = x :: F0 -> item = x /\ F' = F0 /\ h_object h' = h_object h /\
       num_objects p' = num_objects p /\ B' = B) /\
    (F = [] -> num_objects p <= num_objects p' <= num_objects p + grow_size p /\ (length B' <= S (length B))%nat).
Proof.
  intros Hcb Hg Hp. unfold cl_qcpool_get.
  destruct (refill_spec h p F O B Hcb Hg Hp) as (ready & p1 & h1 & F1 & B1 & Hrun & Hp1 & Hs1 & Hready & Hsame & Hn1 & Hk1).
  rewrite Hrun. destruct F1 as [|x F1].
  - subst ready. exists NULL, p1, h1, [], B1. split; [done|]. split; [done|].
    assert (F = []) as ->. { destruct F; [done|]. by destruct (Hsame ltac:(done)) as [? _]. }
    split; [by right|by split].
  - rewrite bool_decide_false in Hready by done. subst ready. cbn [negb].
    pose proof (pool_pop h1 p1 x F1 O B1 Hp1) as H.
    destruct (cl_qlist_remove_head (h_links h1) (free_list p1)) as [[item lk] fl].
    destruct H as (-> & Hp2 & Hs2 & Hk2).
    eexists x, _, _, F1, B1. split; [done|]. split; [by etrans|]. split; [|split; [|exact Hn1]].
    + left. destruct (pool_item h1 p1 (x :: F1) O B1 x Hp1) as [_ Hx0]; [set_solver|].
      split; [done|]. split; [|split; [done|by eapply kept_trans]]. pose proof (pl_nodup _ _ _ _ _ Hp2) as Hnd. unfold pool_addrs in Hnd.
      nodup_simpl. ne_solve.
    + intros y F0 ->. destruct (Hsame ltac:(done)) as (E & -> & -> & ->). injection E as -> ->. done.
Qed.

(** Taking an object from the other end. *)
Lemma pool_get_tail_spec h p F O B :
  callbacks_ok p -> (F = [] -> auto_room p) -> pool_at h p F O B ->
  exists item p' h' F' B', cl_qcpool_get_tail p h = (item, p', h') /\ same_pool p p' /\
    (item <> NULL /\ pool_at h' p' F' (item :: O) B' \/ item = NULL /\ F = [] /\ pool_at h' p' [] O B') /\
    (forall x F0, F = F0 ++ [x] -> item = x).
Proof.
  intros Hcb Hg Hp. unfold cl_qcpool_get_tail.
  destruct (refill_spec h p F O B Hcb Hg Hp) as (ready & p1 & h1 & F1 & B1 & -> & Hp1 & Hs1 & -> & Hsame & _).
  destruct (list_snoc_case F1) as [->|(F2 & x & ->)].
  - exists NULL, p1, h1, [], B1. assert (F = []) as ->.
    { destruct F; [done|]. by destruct (Hsame ltac:(done)) as [? _]. }
    split_and!; try done; [by right|]. by intros x [].
  - rewrite bool_decide_false by (by destruct F2). cbn [negb].
    pose proof (pool_pop_tail h1 p1 x F2 O B1 Hp1) as H.
    destruct (cl_qlist_remove_tail (h_links h1) (free_list p1)) as [[item lk] fl].
    destruct H as (-> & Hp2 & Hs2). eexists x, _, _, F2, B1. split; [done|]. split; [by etrans|]. split.
    + left. split; [|done]. destruct (pool_item h1 p1 (F2 ++ [x]) O B1 x Hp1) as [_ Hx0]; [set_solver|done].
    + intros y F0 ->. destruct (Hsame ltac:(by destruct F0)) as (E & _). by apply app_inj_tail in E as [_ ->].
Qed.

(** ** Sequences of operations *)

Inductive pool_op :=
| Get
| GetTail
| Put (i : nat)    (** give back the object taken [i]-th last of those in use *)
| Grow (n : Z).

Fixpoint run_pool (ops : list pool_op) p h (O : list ptr) : cl_qcpool_t A U * heap A U * list ptr :=
  match ops with
  | [] => (p, h, O)
  | Get :: ops =>
      let '(item, p, h) := cl_qcpool_get p h in
      run_pool ops p h (if decide (item = NULL) then O else item :: O)
  | GetTail :: ops =>
      let '(item, p, h) := cl_qcpool_get_tail p h in
      run_pool ops p h (if decide (item = NULL) then O else item :: O)
  | Put i :: ops =>
      match O !! i with
      | Some q => let '(p, h) := cl_qcpool_put p q h in run_pool ops p h (delete i O)
      | None => run_pool ops p h O
      end
  | Grow n :: ops => let '(_, p, h) := cl_qcpool_grow p n h in run_pool ops p h O
  end.

Lemma run_pool_spec ops : forall h p F O B,
  callbacks_ok p -> auto_grow_ok p -> pool_at h p F O B ->
  Forall (fun o => match o with Grow n => can_grow p n | _ => True end) ops ->
  let '(p', h', O') := run_pool ops p h O in
  exists F' B', pool_at h' p' F' O' B' /\ same_pool p p'.
Proof.
  induction ops as [|o ops IH]; intros h p F O B Hcb Hg Hp Hops; cbn [run_pool]; [by exists F, B|].
  apply Forall_cons in Hops as [Ho Hops].
  assert (Hnext : forall p1 h1 O1 F1 B1, same_pool p p1 -> pool_at h1 p1 F1 O1 B1 ->
    let '(p', h', O') := run_pool ops p1 h1 O1 in exists F' B', pool_at h' p' F' O' B' /\ same_pool p p').
  { intros p1 h1 O1 F1 B1 Hs Hp1. pose proof (IH h1 p1 F1 O1 B1) as H.
    destruct (run_pool ops p1 h1 O1) as [[p' h'] O']. destruct H as (F' & B' & H1 & H2).
    - by eapply callbacks_same.
    - by eapply auto_grow_same.
    - done.
    - eapply Forall_impl; [exact Hops|]. intros [| | |n]; try done. by apply can_grow_same.
    - exists F', B'. split; [done|]. by etrans. }
  destruct o as [| |i|n].
  - destruct (pool_get_spec h p F O B Hcb (fun _ => auto_grow_room p Hg) Hp) as
      (item & p1 & h1 & F1 & B1 & -> & Hs & [(Hi & _ & H1 & _)|(-> & _ & H1 & _)] & _).
    + rewrite decide_False by done. by eapply Hnext.
    + rewrite decide_True by done. by eapply Hnext.
  - destruct (pool_get_tail_spec h p F O B Hcb (fun _ => auto_grow_room p Hg) Hp) as
      (item & p1 & h1 & F1 & B1 & -> & Hs & [(Hi & H1)|(-> & _ & H1)] & _).
    + rewrite decide_False by done. by eapply Hnext.
    + rewrite decide_True by done. by eapply Hnext.
  - destruct (O !! i) as [q|] eqn:Hq; [|by eapply Hnext].
    rewrite <- (take_drop_middle _ _ _ Hq) in Hp.
    pose proof (pool_put_spec h p F _ q _ B Hp) as H. destruct (cl_qcpool_put p q h) as [p1 h1].
    destruct H as (H1 & Hs & _). rewrite delete_take_drop. by eapply Hnext.
  - destruct (pool_grow_spec h p F O B n Hcb Hp (can_grow_room p n Ho)) as (st & p1 & h1 & news & B1 & -> & H1 & Hs & _).
    by eapply Hnext.
Qed.

(** ** Destruction *)

(** The caller's destructor, where there is one, works on the caller's part of
    the memory. *)
Definition dtor_is p (g : ptr -> U -> U) : Prop :=
  match pfn_dtor p with
  | Some f => forall item h, f item h = set_user h (g item (h_user h))
  | None => forall item u, g item u = u
  end.

Lemma destroy_objects_spec fuel f g : forall F p h B,
  (forall item h, f item h = set_user h (g item (h_user h))) ->
  (length F <= fuel)%nat -> Z.of_nat (length F) < 2 ^ 32 ->
  qlist_at (h_links h) (free_list p) F -> qlist_at (h_links h) (alloc_list p) B ->
  NoDup (ql_end (free_list p) :: ql_end (alloc_list p) :: F ++ B) ->
  exists fl lk, destroy_objects fuel f p h
      = Some (set_lists p fl (alloc_list p),
              Heap lk (h_object h) (foldl (fun u i => g i u) (h_user h) F) (h_alloc h)) /\
    qlist_at lk (alloc_list p) B.
Proof.
  induction fuel as [|fuel IH]; intros F p h B Hf Hlen Hsh Hfl Hal Hnd; cbn [destroy_objects];
    rewrite (qlist_empty_spec _ _ F Hfl Hsh); destruct F as [|x F]; cbn [length] in *; try lia;
    [| |rewrite bool_decide_false by done].
  1,2: exists (free_list p), (h_links h); destruct p, h; done.
  pose proof (free_pop (h_links h) p x F B Hfl Hal Hnd) as H.
  destruct (cl_qlist_remove_head (h_links h) (free_list p)) as [[item lk] fl].
  destruct H as (-> & H1 & H2 & H3 & _). rewrite Hf.
  destruct (IH F (set_lists p fl (alloc_list p)) (set_user (set_links h lk) (g x (h_user (set_links h lk)))) B)
    as (fl' & lk' & Hrun & Hal'); try done; try lia.
  - cbn. rewrite H3. nodup_simpl. nodup_build.
  - exists fl', lk'. split; [exact Hrun|done].
Qed.

Lemma free_blocks_spec fuel : forall B p h,
  (length B <= fuel)%nat -> Z.of_nat (length B) < 2 ^ 32 -> qlist_at (h_links h) (alloc_list p) B ->
  exists al lk, free_blocks fuel p h
    = Some (set_lists p (free_list p) al,
            Heap lk (h_object h) (h_user h) (foldl (fun a b => cl_free b a) (h_alloc h) B)).
Proof.
  induction fuel as [|fuel IH]; intros B p h Hlen Hsh Hal; cbn [free_blocks];
    rewrite (qlist_empty_spec _ _ B Hal Hsh); destruct B as [|b B]; cbn [length] in *; try lia;
    [| |rewrite bool_decide_false by done].
  1,2: exists (alloc_list p), (h_links h); destruct p, h; done.
  pose proof (qlist_remove_head_spec (h_links h) (alloc_list p) (b :: B) Hal) as H.
  destruct (cl_qlist_remove_head (h_links h) (alloc_list p)) as [[item lk] al].
  destruct H as (E & H1 & _). cbn in E, H1. subst item.
  destruct (IH B (set_lists p (free_list p) al)
    (set_alloc (set_links h lk) (cl_free b (h_alloc (set_links h lk))))) as (al' & lk' & Hrun); try done; try lia.
  exists al', lk'. exact Hrun.
Qed.

(** Destruction destroys the free objects once each, from the head of the list,
    and then frees every block and the array of sizes. *)
Lemma pool_destroy_spec h0 h p F O B g :
  pool_at h0 p F O B -> h_links h = h_links h0 -> dtor_is p g -> Z.of_nat (length B) < 2 ^ 32 ->
  exists p' h', cl_qcpool_destroy p h = Some (p', h') /\ state p' = CL_UNINITIALIZED /\
    h_user h' = foldl (fun u i => g i u) (h_user h) F /\
    h_alloc h' = foldl (fun a b => cl_free b a) (h_alloc h)
      (B ++ (if decide (sizes_block p <> NULL) then [sizes_block p] else [])).
Proof.
  intros [Hst Hf Ha Hnd Hown Hnull Hobj Hc Hm Hs] El Hd HB. rewrite <- El in Hf, Ha. unfold cl_qcpool_destroy. rewrite decide_True by done.
  assert (Hnd' : NoDup (ql_end (free_list p) :: ql_end (alloc_list p) :: F ++ B)).
  { unfold pool_addrs in Hnd. nodup_simpl. nodup_build. }
  assert (HF : Z.of_nat (length F) < 2 ^ 32) by lia.
  assert (exists fl lk, match pfn_dtor p with
      | Some f => destroy_objects (ring_fuel (free_list p)) f p h
      | None =>
          let '(lk, fl) := cl_qlist_remove_all (h_links h) (free_list p) in
          Some (set_lists p fl (alloc_list p), set_links h lk)
      end = Some (set_lists p fl (alloc_list p),
              Heap lk (h_object h) (foldl (fun u i => g i u) (h_user h) F) (h_alloc h)) /\
      qlist_at lk (alloc_list p) B) as (fl & lk & -> & Hal).
  { unfold dtor_is in Hd. destruct (pfn_dtor p) as [f|].
    - apply destroy_objects_spec; try done.
      pose proof (ring_fuel_enough _ _ _ Hf) as Hfuel. unfold short in Hfuel. lia.
    - eexists _, _. split.
      + cbn. unfold set_links. do 3 f_equal. clear -Hd. revert Hd. generalize (h_user h) as u.
        induction F as [|x F IH]; intros u Hd; cbn; [done|]. by rewrite Hd, <- IH.
      + eapply qlist_frame; [apply (same_reset (h_links h) (ql_end (free_list p)))| |exact Ha].
        nodup_simpl. ne_solve. }
  cbn [mbind option_bind].
  destruct (free_blocks_spec (ring_fuel (alloc_list p)) B (set_lists p fl (alloc_list p))
    (Heap lk (h_object h) (foldl (fun u i => g i u) (h_user h) F) (h_alloc h))) as (al & lk' & Hrun); try done.
  { pose proof (ring_fuel_enough _ _ _ Ha) as Hfuel. unfold short in Hfuel. lia. }
  cbn [alloc_list set_lists]. rewrite Hrun. cbn [mbind option_bind sizes_block set_lists free_list].
  rewrite foldl_app. case_decide; eexists _, _; (split; [done|]); done.
Qed.

(** ** Initialisation *)

(** The structure the caller provides: its two list ends, in memory in use. *)
Definition provided h p : Prop :=
  ql_end (free_list p) <> ql_end (alloc_list p) /\
  owned (h_alloc h) (ql_end (free_list p)) /\ owned (h_alloc h) (ql_end (alloc_list p)).

(** The settings initialisation stores. *)
Definition configured p (max_size grow : Z) (sizes : list Z) init dtor : Prop :=
  component_sizes p = map (fun s => ROUNDUP s sizeof_ptr) sizes /\
  max_objects p = (if decide (max_size = 0) then SIZE_MAX else max_size) /\ grow_size p = grow /\
  pfn_init p = init /\ pfn_dtor p = dtor /\ sizes_block p <> NULL.

Lemma configured_same p p' max_size grow sizes init dtor :
  same_pool p p' -> configured p max_size grow sizes init dtor -> configured p' max_size grow sizes init dtor.
Proof.
  intros (E1 & E2 & E3 & E4 & E5 & _ & E6 & _). unfold configured. by rewrite E1, E2, E3, E4, E5, E6.
Qed.

(** A successful initialisation leaves the minimum number of objects free, one
    that fails leaves no initialised pool. *)
Lemma pool_init_spec p h min_size max_size grow sizes init dtor g :
  provided h p -> 0 <= min_size < 2 ^ 32 -> 0 <= max_size < 2 ^ 32 ->
  (max_size = 0 \/ min_size <= max_size) ->
  ((length sizes <= 1)%nat \/ init <> None) ->
  (forall p', configured p' max_size grow sizes init dtor -> callbacks_ok p' /\ dtor_is p' g /\
     sizeof_list_item + obj_size p' * min_size < 2 ^ 64) ->
  exists st p' h', cl_qcpool_init p min_size max_size grow sizes init dtor h = Some (st, p', h') /\
    (st = CL_SUCCESS -> exists F B, pool_at h' p' F [] B /\ Z.of_nat (length F) = min_size /\
       configured p' max_size grow sizes init dtor /\ (length B <= 1)%nat /\ fresh_objects h h' p' F /\
       kept h h' [ql_end (free_list p); ql_end (alloc_list p)] (pool_addrs p' F [] B) /\
       num_objects p' <= min_size) /\
    (st <> CL_SUCCESS -> state p' = CL_UNINITIALIZED).
Proof.
  intros (Hne & Ho1 & Ho2) Hmin Hmax Hle Hn Hcfg. unfold cl_qcpool_init.
  assert (bool_decide (Z.of_nat (length sizes) > 1) && match init with None => true | Some _ => false end = false) as ->.
  { destruct Hn as [Hn|Hn]; [rewrite bool_decide_false by lia; done|]. destruct init; [|done]. apply andb_false_r. }
  rewrite decide_False by lia.
  destruct (cl_malloc _ (h_alloc h)) as [block a] eqn:Hmal. case_decide as Hb.
  { eexists _, _, _. split; [done|]. split; [done|by intros]. }
  destruct (malloc_fresh _ _ _ _ Hmal Hb) as (Hb0 & _ & Hown).
  pose proof (qlist_init_spec (h_links (set_alloc h a)) (alloc_list (cl_qcpool_construct p))) as H1.
  destruct (cl_qlist_init _ _) as [lk1 al] eqn:E1. destruct H1 as (Ha & _ & Hoff1).
  assert (Eal : ql_end al = ql_end (alloc_list p)) by (cbn in E1; by injection E1 as <- <-).
  pose proof (qlist_init_spec lk1 (free_list (cl_qcpool_construct p))) as H2.
  destruct (cl_qlist_init lk1 _) as [lk2 fl] eqn:E2. destruct H2 as (Hf & _ & Hoff).
  assert (Efl : ql_end fl = ql_end (free_list p)) by (cbn in E2; by injection E2 as <- <-).
  set (h1 := set_links _ lk2). set (p1 := QCPool _ _ _ _ _ _ _ _ _ _ _ _).
  assert (Hp1 : pool_at h1 p1 [] [] []).
  { assert (Hends : NoDup [ql_end fl; ql_end al]).
    { rewrite Efl, Eal. apply NoDup_cons. split; [set_solver|apply NoDup_singleton]. }
    constructor.
    - done.
    - exact Hf.
    - eapply qlist_frame; [exact Hoff| |exact Ha]. cbn. rewrite Eal. set_solver.
    - exact Hends.
    - unfold pool_addrs. cbn. rewrite Efl, Eal. intros q Hq. apply Hown. left. set_solver.
    - apply not_elem_of_nil.
    - intros q Hq. by apply not_elem_of_nil in Hq.
    - done.
    - cbn -[decide SIZE_MAX]. unfold SIZE_MAX. case_decide; lia.
    - cbn. lia. }
  assert (Hc1 : configured p1 max_size grow sizes init dtor) by (by split_and!).
  assert (Hk1 : kept h h1 [ql_end (free_list p); ql_end (alloc_list p)] (pool_addrs p1 [] [] [])).
  { unfold pool_addrs. cbn. rewrite Efl, Eal. split; [intros q Hq; apply Hown; by left|].
    intros q _ Hq. split; [done|]. destruct (Hoff1 q) as [E3 E4]; [set_solver|].
    destruct (Hoff q) as [E5 E6]; [set_solver|]. unfold same_at. cbn. by rewrite E5, E6, E3, E4. }
  destruct (Hcfg p1 Hc1) as (Hcb & _ & Hfit). case_decide as Hm0.
  { eexists _, _, _. split; [done|]. split; [|done]. intros _. exists [], []. split; [done|]. split; [cbn; lia|].
    split; [done|]. split; [cbn; lia|]. split; [|split; [done|cbn; lia]].
    apply no_fresh_objects. intros q Hq. apply Hown. by left. }
  assert (Hcg : room p1 min_size).
  { split; [lia|]. split; [done|]. unfold growth. cbn -[decide SIZE_MAX]. unfold SIZE_MAX. lia. }
  destruct (pool_grow_spec h1 p1 [] [] [] min_size Hcb Hp1 Hcg) as
    (st & p2 & h2 & news & B & Hrun & Hp2 & Hs & HB & Hok & _ & [Hmono Hstarts] & Hnum & Hk2).
  rewrite Hrun. pose proof (configured_same _ _ _ _ _ _ _ Hs Hc1) as Hc2. case_decide as Hst.
  - destruct (Hcfg p2 Hc2) as (_ & Hd & _).
    destruct (pool_destroy_spec h2 h2 p2 _ _ B g Hp2 eq_refl Hd) as (p3 & h3 & Hrun3 & Hst3 & _).
    { destruct HB as [(-> & _)|(b & ->)]; cbn; lia. }
    rewrite Hrun3. eexists _, _, _. split; [done|]. by split.
  - assert (st = CL_SUCCESS) as -> by (destruct (decide (st = CL_SUCCESS)); [done|by destruct Hst]).
    eexists _, _, _. split; [done|]. split; [|done]. intros _. exists news, B. rewrite app_nil_r in Hp2.
    split; [done|]. split; [|split; [done|]].
    + destruct (Hok eq_refl) as [-> _]. unfold growth. cbn -[decide SIZE_MAX]. unfold SIZE_MAX. case_decide; lia.
    + split; [destruct HB as [(-> & _)|(b & ->)]; cbn; lia|].
      split; [|split; [rewrite app_nil_r in Hk2; by eapply kept_trans|apply Hnum]].
      assert (Hown1 : forall q, owned (h_alloc h) q -> owned (h_alloc h1) q) by (intros q Hq; apply Hown; by left).
      split; [intros q Hq; by apply Hmono, Hown1|]. intros Hst2.
      destruct Hstarts as (b & n & Hn0 & Hsl & Hb2); [by apply (starts_same p2 p1); [apply same_pool_sym in Hs|]|].
      exists b, n. unfold obj_size in *. rewrite (proj1 Hs). split; [done|]. split; [done|].
      intros q Hq. destruct (Hb2 q Hq) as (? & Hno & ?). split; [done|]. split; [|done]. intros Hq'. by apply Hno, Hown1.
Qed.

(** ** Correctness *)

(** C36. Whatever sequence of takings, returns and growths a pool goes through,
    the objects in use and the free ones are all distinct and not null, their
    number is the count the pool keeps and never exceeds the maximum, and the
    free list is a well-formed list of the free ones. *)
Theorem pool_run_invariant ops h p F O B :
  callbacks_ok p -> auto_grow_ok p -> pool_at h p F O B ->
  Forall (fun o => match o with Grow n => can_grow p n | _ => True end) ops ->
  let '(p', h', O') := run_pool ops p h O in
  exists F', NoDup (F' ++ O') /\ NULL ∉ F' ++ O' /\
    num_objects p' = Z.of_nat (length F' + length O') /\ num_objects p' <= max_objects p /\
    qlist_at (h_links h') (free_list p') F' /\ cl_qcpool_count p' = Z.of_nat (length F').
Proof.
  intros Hcb Hg Hp Hops. pose proof (run_pool_spec ops h p F O B Hcb Hg Hp Hops) as H.
  destruct (run_pool ops p h O) as [[p' h'] O']. destruct H as (F' & B' & Hp' & Hs). exists F'.
  pose proof (pl_nodup _ _ _ _ _ Hp') as Hnd. unfold pool_addrs in Hnd. pose proof Hs as (_ & Em & _).
  destruct Hp' as [_ Hf _ _ _ Hnull _ Hc Hm Hsm]. split_and!; try done; try lia.
  - nodup_simpl. nodup_build.
  - unfold cl_qcpool_count, cl_qlist_count. rewrite (proj2 Hf), wrap_wrap_le, wrap_small by lia. done.
Qed.

(** Taking an object yields one that is not in use: the first free one when
    there is one, else a new one if the pool may grow; null means that none was
    free.  Returning it makes it the next one to be taken. *)
Theorem pool_get_put_round_trip h p F O B :
  callbacks_ok p -> auto_grow_ok p -> pool_at h p F O B ->
  let '(item, p1, h1) := cl_qcpool_get p h in
  (F <> [] -> Some item = head F) /\
  if decide (item = NULL) then F = []
  else
    item ∉ O /\
    let '(p2, h2) := cl_qcpool_put p1 item h1 in
    (exists F' B', pool_at h2 p2 (item :: F') O B') /\
    fst (fst (cl_qcpool_get p2 h2)) = item.
Proof.
  intros Hcb Hg Hp.
  destruct (pool_get_spec h p F O B Hcb (fun _ => auto_grow_room p Hg) Hp) as
    (item & p1 & h1 & F1 & B1 & -> & Hs & Hcase & Hhd & _).
  split. { destruct F as [|x F]; [done|]. intros _. by destruct (Hhd x F eq_refl) as [-> _]. }
  destruct Hcase as [(Hi & Hni & H1 & _)|(-> & -> & H1 & _)]; [|by rewrite decide_True].
  rewrite decide_False by done. split; [done|].
  pose proof (pool_put_spec h1 p1 F1 [] item O B1 H1) as H. destruct (cl_qcpool_put p1 item h1) as [p2 h2].
  destruct H as (H2 & Hs2 & _). split; [by eauto|].
  destruct (pool_get_spec h2 p2 (item :: F1) O B1) as (item2 & p3 & h3 & F3 & B3 & -> & _ & _ & Hhd2 & _); [| |done|].
  - eapply callbacks_same; [|exact Hcb]. by etrans.
  - intros _. apply auto_grow_room. eapply auto_grow_same; [|exact Hg]. by etrans.
  - cbn. by destruct (Hhd2 item F1 eq_refl).
Qed.

(** C37. Destroying a pool ends: it runs the destructor once on each object on the
    free list, from its head, and frees each block and the array of sizes once, and
    nothing else.  When all objects have been put back, as the caller is asked to
    do, these are all the objects of the pool; an object still in use has its memory
    freed without its destructor. *)
Theorem pool_destroy_frees h p F O B g :
  pool_at h p F O B -> dtor_is p g -> Z.of_nat (length B) < 2 ^ 32 ->
  exists p' h', cl_qcpool_destroy p h = Some (p', h') /\ state p' = CL_UNINITIALIZED /\
    h_user h' = foldl (fun u i => g i u) (h_user h) F /\
    h_alloc h' = foldl (fun a b => cl_free b a) (h_alloc h)
      (B ++ (if decide (sizes_block p <> NULL) then [sizes_block p] else [])) /\
    NoDup F /\ (O = [] -> Z.of_nat (length F) = num_objects p) /\ (forall q, q ∈ O -> q ∉ F).
Proof.
  intros Hp Hg HB. destruct (pool_destroy_spec h h p F O B g) as (p' & h' & E & Hs & Hu & Ha); [done..|].
  exists p', h'. do 4 (split; [done|]). pose proof (pl_nodup _ _ _ _ _ Hp) as Hn. unfold pool_addrs in Hn.
  split; [|split].
  - nodup_simpl. done.
  - intros ->. rewrite (pl_count _ _ _ _ _ Hp). cbn. lia.
  - intros q Hq HF. nodup_simpl. set_solver.
Qed.
End Invariant.

(** ** The front end [cl_pool_t] *)

Section FrontEnd.
Context {A U : Type} {AL : Allocator A} {LA : AllocatorLaws A}.
Implicit Types (h : heap A U) (p : cl_qcpool_t A U).

(** The caller's object follows the prefix that holds the pool item. *)
Definition prefixed (item obj : ptr) : Prop := obj = item + sizeof_pool_obj.

Definition keeps_pool (user : option (pool_init_t (A := A) (U := U))) : Prop :=
  match user with
  | None => True
  | Some f => forall obj h, h_links (snd (f obj h)) = h_links h /\
      h_alloc (snd (f obj h)) = h_alloc h /\ h_object (snd (f obj h)) = h_object h
  end.

Lemma roundup_small v :
  0 < v < 2 ^ 63 -> v <= ROUNDUP v sizeof_ptr < 2 ^ 64.
Proof.
  intros Hv. unfold ROUNDUP, sizeof_ptr. pose proof (Z.div_mod v 8). pose proof (Z.mod_pos_bound v 8).
  rewrite wrap_small; case_decide; lia.
Qed.

Lemma configured_obj_size p max_size grow total init dtor :
  configured p max_size grow [total] init dtor -> 0 < total < 2 ^ 63 -> obj_size p = ROUNDUP total sizeof_ptr.
Proof.
  intros (Es & _) Ht. unfold obj_size. rewrite Es. cbn [map foldr]. rewrite Z.add_0_r. apply wrap_small.
  pose proof (roundup_small total). lia.
Qed.

Lemma pool_callbacks p max_size grow total user :
  configured p max_size grow [total] (Some (__cl_pool_init_cb user)) None -> keeps_pool user ->
  0 < total < 2 ^ 63 -> callbacks_ok prefixed p.
Proof.
  intros Hcfg Hk Ht. pose proof Hcfg as (Es & _ & _ & Ei & Ed & _).
  pose proof (configured_obj_size _ _ _ _ _ _ Hcfg Ht) as Hsz.
  assert (Hpos : 0 < ROUNDUP total sizeof_ptr) by (pose proof (roundup_small total); lia).
  split.
  - intros c h st item comps' h'. unfold make_item. rewrite Ei, Es, Hsz. cbn [map component_ptrs].
    unfold __cl_pool_init_cb. cbn [pool_obj_setup hd]. unfold keeps_pool in Hk.
    assert (Hset : h_object (set_object h c (c + sizeof_pool_obj)) c = c + sizeof_pool_obj) by apply upd_eq.
    assert (Hother : forall q, q <> c -> h_object (set_object h c (c + sizeof_pool_obj)) q = h_object h q)
      by (intros; by apply upd_ne).
    destruct user as [f|].
    + destruct (f _ _) as [st0 h0] eqn:E. pose proof (Hk (c + sizeof_pool_obj) (set_object h c (c + sizeof_pool_obj))) as Hf.
      rewrite E in Hf. cbn [snd] in Hf. destruct Hf as (E1 & E2 & E3). intros [= <- <- <- <-]. rewrite E3.
      split_and!; try done; [intros q Hq; apply Hother; lia|]. intros _. split; [lia|done].
    + intros [= <- <- <- <-]. split_and!; try done; [intros q Hq; apply Hother; lia|].
      intros _. split; [lia|done].
  - intros item h. unfold call_dtor. by rewrite Ed.
  - lia.
Qed.

Lemma pool_count_spec h p F O B : pool_at prefixed h p F O B -> cl_pool_count p = Z.of_nat (length F).
Proof.
  intros [_ Hf _ _ _ _ _ Hc _ Hs]. unfold cl_pool_count, cl_qcpool_count, cl_qlist_count.
  rewrite (proj2 Hf), wrap_wrap_le, wrap_small by lia. done.
Qed.

(** Taking the object of the first free item. *)
Lemma pool_get_object h p x F O B :
  callbacks_ok prefixed p -> grow_size p = 0 -> pool_at prefixed h p (x :: F) O B ->
  exists p' h' B', cl_pool_get p h = (x + sizeof_pool_obj, p', h') /\ same_pool p p' /\
    pool_at prefixed h' p' F (x :: O) B' /\ x <> NULL.
Proof.
  intros Hcb Hg Hp. unfold cl_pool_get.
  destruct (pool_get_spec prefixed h p (x :: F) O B Hcb (fun _ => or_introl Hg) Hp)
    as (item & p1 & h1 & F1 & B1 & -> & Hs & [(Hi & _ & H1 & _)|(_ & ? & _)] & Hhd & _); [|done].
  destruct (Hhd x F eq_refl) as (-> & -> & Ho & _). rewrite decide_False by done. exists p1, h1, B1.
  rewrite Ho, (pl_obj _ _ _ _ _ _ Hp x) by set_solver. done.
Qed.

(** A pool of plain objects that does not grow, after its initialisation. *)
Lemma front_init_spec p h min_size max_size size :
  provided h p -> 0 < min_size <= max_size -> max_size < 2 ^ 32 -> 0 <= size < 2 ^ 62 ->
  sizeof_list_item + ROUNDUP (size + sizeof_pool_obj) sizeof_ptr * min_size < 2 ^ 64 ->
  exists st p1 h1, cl_pool_init p min_size max_size 0 size None None h = Some (st, p1, h1) /\
    (st <> CL_SUCCESS -> state p1 = CL_UNINITIALIZED) /\
    (st = CL_SUCCESS -> exists F B, pool_at prefixed h1 p1 F [] B /\ Z.of_nat (length F) = min_size /\
       callbacks_ok prefixed p1 /\ grow_size p1 = 0 /\ pfn_dtor p1 = None /\ (length B <= 1)%nat /\
       starts p1 /\ obj_size p1 = ROUNDUP (size + sizeof_pool_obj) sizeof_ptr /\ fresh_objects h h1 p1 F).
Proof.
  intros Hpr Hmin Hmax Hsz Hfit. unfold cl_pool_init.
  rewrite (wrap_small 64 (size + sizeof_pool_obj)) by (unfold sizeof_pool_obj; lia).
  destruct (pool_init_spec prefixed p h min_size max_size 0 [size + sizeof_pool_obj]
    (Some (__cl_pool_init_cb None)) None (fun _ u => u)) as (st & p1 & h1 & Hrun & Hok & Hbad); try done; try lia.
  { cbn. lia. }
  { intros p' Hc. split; [eapply pool_callbacks; [exact Hc|done|unfold sizeof_pool_obj; lia]|].
    split; [unfold dtor_is; by destruct Hc as (_ & _ & _ & _ & -> & _)|].
    rewrite (configured_obj_size _ _ _ _ _ _ Hc) by (unfold sizeof_pool_obj; lia). done. }
  exists st, p1, h1. split; [exact Hrun|]. split; [exact Hbad|]. intros E.
  destruct (Hok E) as (F & B & Hp1 & HF & Hc & HB & Hfresh & _). exists F, B. split; [done|]. split; [done|].
  split; [eapply pool_callbacks; [exact Hc|done|unfold sizeof_pool_obj; lia]|].
  split; [apply Hc|]. split; [apply Hc|]. split; [done|]. split; [|split; [|done]].
  - intros c h' st' item comps' h''. unfold make_item. destruct Hc as (-> & _ & _ & -> & _). by intros [= <- <- <- <-].
  - apply (configured_obj_size _ _ _ _ _ _ Hc). unfold sizeof_pool_obj. lia.
Qed.

(** A pool of plain objects: after a successful [cl_pool_init] the minimum
    number of objects is available; an object taken from it is the memory after
    its prefix, and giving that pointer back returns exactly the object taken,
    so that it is the next one handed out. *)
Theorem pool_object_round_trip p h min_size max_size size :
  provided h p -> 0 < min_size <= max_size -> max_size < 2 ^ 32 -> 0 <= size < 2 ^ 62 ->
  sizeof_list_item + ROUNDUP (size + sizeof_pool_obj) sizeof_ptr * min_size < 2 ^ 64 ->
  exists st p1 h1, cl_pool_init p min_size max_size 0 size None None h = Some (st, p1, h1) /\
    (st <> CL_SUCCESS -> state p1 = CL_UNINITIALIZED) /\
    (st = CL_SUCCESS ->
       cl_pool_count p1 = min_size /\
       let '(obj, p2, h2) := cl_pool_get p1 h1 in
       obj <> sizeof_pool_obj /\ cl_pool_count p2 = min_size - 1 /\
       let '(p3, h3) := cl_pool_put p2 obj h2 in
       cl_pool_count p3 = min_size /\ fst (fst (cl_pool_get p3 h3)) = obj).
Proof.
  intros Hpr Hmin Hmax Hsz Hfit.
  destruct (front_init_spec p h min_size max_size size Hpr Hmin Hmax Hsz Hfit) as (st & p1 & h1 & Hrun & Hbad & Hok).
  exists st, p1, h1. split; [exact Hrun|]. split; [exact Hbad|]. intros E.
  destruct (Hok E) as (F & B & Hp1 & HF & Hcb & Hg & _). rewrite (pool_count_spec h1 p1 F [] B Hp1). split; [done|].
  destruct F as [|x F]; [cbn in HF; lia|]. cbn [length] in HF.
  destruct (pool_get_object h1 p1 x F [] B Hcb Hg Hp1) as (p2 & h2 & B2 & -> & Hs2 & Hp2 & Hx).
  split; [unfold sizeof_pool_obj; lia|]. rewrite (pool_count_spec h2 p2 F [x] B2 Hp2). split; [lia|].
  unfold cl_pool_put. rewrite Z.add_simpl_r. pose proof (pool_put_spec prefixed h2 p2 F [] x [] B2 Hp2) as H.
  destruct (cl_qcpool_put p2 x h2) as [p3 h3]. destruct H as (Hp3 & Hs3 & _).
  rewrite (pool_count_spec h3 p3 _ _ _ Hp3). split; [cbn [length]; lia|].
  destruct (pool_get_object h3 p3 x F [] B2) as (p4 & h4 & B4 & -> & _); [| |done|done].
  - eapply callbacks_same; [|exact Hcb]. by etrans.
  - pose proof Hs2 as (_ & _ & E2 & _). pose proof Hs3 as (_ & _ & E3 & _). congruence.
Qed.
End FrontEnd.

(** ** A concrete allocator and pool *)

(** Blocks are handed out one after the other; the blocks freed are recorded. *)
Record bump := Bump { next_free : Z; freed : list ptr }.

#[export] Instance bump_allocator : Allocator bump := {
  cl_malloc n a :=
    if decide (0 < next_free a /\ 0 <= n) then (next_free a, Bump (next_free a + n) (freed a)) else (NULL, a);
  cl_free p a := Bump (next_free a) (freed a ++ [p]) }.

#[export] Program Instance bump_laws : AllocatorLaws bump := { owned a q := q < next_free a }.
Next Obligation.
  intros n a p a'. cbn. case_decide; intros [= <- <-]; [|done]. intros _. cbn. split; [lia|]. split; [lia|]. intros; lia.
Qed.
Next Obligation. intros n a a'. cbn. intros E. case_decide; [injection E as ? ?; lia|]. by injection E as <-. Qed.

Definition no_relation (_ _ : ptr) : Prop := True.

(** A pool of 16-byte objects whose destructor logs the objects destroyed; two to
    begin with, at most four, growing by one. *)
Definition demo_heap : heap bump (list ptr) := Heap links0 (fun _ => NULL) [] (Bump 1000 []).
Definition demo_struct : cl_qcpool_t bump (list ptr) :=
  QCPool 0 NULL [] [] 0 0 0 None None (QList 100 0 CL_UNINITIALIZED) (QList 200 0 CL_UNINITIALIZED) CL_UNINITIALIZED.
Definition demo_dtor : qcpool_dtor_t (A := bump) (U := list ptr) := fun item h => set_user h (h_user h ++ [item]).
Definition demo_init := cl_qcpool_init demo_struct 2 4 1 [16] None (Some demo_dtor) demo_heap.
Definition demo_pool := match demo_init with Some (_, p, _) => p | None => demo_struct end.
Definition demo_mem := match demo_init with Some (_, _, h) => h | None => demo_heap end.

Lemma demo_pool_at : pool_at no_relation demo_mem demo_pool [1048; 1032] [] [1016].
Proof.
  constructor; [vm_compute; reflexivity|vm_decide|vm_decide|vm_decide| |vm_decide|done|vm_compute; reflexivity
    |vm_compute; split; congruence|vm_compute; reflexivity].
  intros q Hq. assert (Hall : Forall (fun q => q < 1064) (pool_addrs demo_pool [1048; 1032] [] [1016])) by vm_decide.
  rewrite Forall_forall in Hall. exact (Hall q Hq).
Defined.

Lemma demo_callbacks : callbacks_ok no_relation demo_pool.
Proof.
  split.
  - intros c h st item comps' h'. change (component_sizes demo_pool) with [16]. change (obj_size demo_pool) with 16.
    intros [= <- <- <- <-]. split_and!; try done. intros _. split; [lia|done].
  - done.
  - vm_compute. reflexivity.
Defined.

Lemma demo_auto_grow : auto_grow_ok demo_pool.
Proof. right. vm_compute. done. Defined.

Lemma pool_run_invariant_witness :
  snd (run_pool [GetTail; Get; Get; Put 1; Grow 5; Get] demo_pool demo_mem []) = [1112; 1080; 1032] /\
  let '(p', h', O') := run_pool [GetTail; Get; Get; Put 1; Grow 5; Get] demo_pool demo_mem [] in
  exists F', NoDup (F' ++ O') /\ NULL ∉ F' ++ O' /\
    num_objects p' = Z.of_nat (length F' + length O') /\ num_objects p' <= max_objects demo_pool /\
    qlist_at (h_links h') (free_list p') F' /\ cl_qcpool_count p' = Z.of_nat (length F').
Proof.
  split; [vm_compute; reflexivity|].
  exact (pool_run_invariant no_relation [GetTail; Get; Get; Put 1; Grow 5; Get] demo_mem demo_pool _ _ _ demo_callbacks
    demo_auto_grow demo_pool_at ltac:(repeat constructor; vm_compute; done)).
Defined.

Lemma pool_get_put_round_trip_witness :
  fst (fst (cl_qcpool_get demo_pool demo_mem)) = 1048 /\
  let '(item, p1, h1) := cl_qcpool_get demo_pool demo_mem in
  let '(p2, h2) := cl_qcpool_put p1 item h1 in fst (fst (cl_qcpool_get p2 h2)) = item.
Proof.
  split; [vm_compute; reflexivity|].
  exact (proj2 (proj2 (proj2 (pool_get_put_round_trip no_relation demo_mem demo_pool _ _ _ demo_callbacks
    demo_auto_grow demo_pool_at)))).
Defined.

Lemma pool_destroy_frees_witness :
  exists p' h', cl_qcpool_destroy demo_pool demo_mem = Some (p', h') /\ state p' = CL_UNINITIALIZED /\
    h_user h' = [1048; 1032] /\ h_alloc h' = Bump 1064 [1016; 1000] /\ num_objects demo_pool = 2.
Proof.
  destruct (pool_destroy_frees no_relation demo_mem demo_pool _ _ _ (fun i u => u ++ [i]) demo_pool_at
    ltac:(intros item h; reflexivity) ltac:(vm_compute; reflexivity)) as (p' & h' & E & Hs & Hu & Ha & _ & Hall & _).
  exists p', h'. split; [exact E|]. split; [exact Hs|]. split; [exact Hu|]. split; [exact Ha|].
  symmetry. exact (Hall eq_refl).
Defined.

Lemma pool_object_round_trip_witness :
  exists st p1 h1, cl_pool_init demo_struct 3 8 0 20 None None demo_heap = Some (st, p1, h1) /\
    (st <> CL_SUCCESS -> state p1 = CL_UNINITIALIZED) /\
    (st = CL_SUCCESS ->
       cl_pool_count p1 = 3 /\
       let '(obj, p2, h2) := cl_pool_get p1 h1 in
       obj <> sizeof_pool_obj /\ cl_pool_count p2 = 3 - 1 /\
       let '(p3, h3) := cl_pool_put p2 obj h2 in
       cl_pool_count p3 = 3 /\ fst (fst (cl_pool_get p3 h3)) = obj).
Proof.
  apply (pool_object_round_trip demo_struct demo_heap 3 8 20); [|lia|lia|lia|vm_compute; reflexivity].
  split; [done|]. split; cbn; lia.
Defined.
