(* ===== verification/ObjPool.v ===== *)
(** * Pools of the items of object lists and maps

    A list or a map of objects keeps its items in a pool of its own, without
    callbacks and without a maximum.  This file holds what both use of such a
    pool: that it may grow, and that its free list and the client's structures,
    which share the memory of links, do not disturb each other. *)

From S2P Require Import Prelude Qlist Pool.

Local Open Scope Z_scope.
Local Open Scope list_scope.

Section ItemPool.
Context {A U : Type} {AL : Allocator A} {LA : AllocatorLaws A}.
Implicit Types (h : heap A U) (p : cl_qcpool_t A U) (X F O B : list ptr).

(** Items of one size without callbacks, and no maximum. *)
Definition item_pool (size : Z) p : Prop :=
  component_sizes p = [size] /\ max_objects p = SIZE_MAX /\ 0 < grow_size p < 2 ^ 32 /\
  pfn_init p = None /\ pfn_dtor p = None.

Lemma item_pool_same size p p' : same_pool p p' -> item_pool size p -> item_pool size p'.
Proof. unfold item_pool. intros (-> & -> & -> & -> & -> & _). done. Qed.

Lemma item_obj_size size p : item_pool size p -> 0 < size < 2 ^ 16 -> obj_size p = size.
Proof. intros (Es & _) Hsize. unfold obj_size. rewrite Es. cbn. rewrite Z.add_0_r. apply wrap_small. lia. Qed.

Lemma item_pool_callbacks size p : item_pool size p -> 0 < size < 2 ^ 16 -> callbacks_ok no_relation p.
Proof.
  intros Hip Hsize. pose proof (item_obj_size size p Hip Hsize) as Hsz. destruct Hip as (Es & _ & _ & Ei & Ed).
  split.
  - intros c h st item comps' h'. unfold make_item. rewrite Ei, Es, Hsz. cbn. intros [= <- <- <- <-].
    split_and!; try done. intros _. split; [lia|done].
  - intros item h. unfold call_dtor. by rewrite Ed.
  - lia.
Qed.

Lemma item_pool_room size p :
  item_pool size p -> 0 < size < 2 ^ 16 -> num_objects p + grow_size p < 2 ^ 32 -> auto_room p.
Proof.
  intros Hip Hsize Hn. right. pose proof (item_obj_size size p Hip Hsize) as Hsz. destruct Hip as (_ & _ & Hg & _).
  split; [lia|]. rewrite Hsz. split; [unfold sizeof_list_item; nia|]. unfold growth. lia.
Qed.

(** Other writes to the links, and to the objects, outside the pool. *)
Lemma pool_at_links h p F O B lk S :
  pool_at no_relation h p F O B -> same_off S (h_links h) lk ->
  (forall q, q ∈ S -> q ∉ pool_addrs p F [] B) -> pool_at no_relation (set_links h lk) p F O B.
Proof.
  intros [] Hoff HS. unfold pool_addrs in HS. constructor; try done.
  - eapply qlist_frame; [exact Hoff| |done]. intros z Hz Hin. apply (HS z Hin). set_solver.
  - eapply qlist_frame; [exact Hoff| |done]. intros z Hz Hin. apply (HS z Hin). set_solver.
Qed.

Lemma pool_at_object h p F O B q v :
  pool_at no_relation h p F O B -> pool_at no_relation (set_object h q v) p F O B.
Proof. intros []. by constructor. Qed.

Lemma pool_at_perm h p F O O' B : O ≡ₚ O' -> pool_at no_relation h p F O B -> pool_at no_relation h p F O' B.
Proof.
  intros HP [? ? ? ? Hown Hnull ? ? ? ?].
  assert (HA : pool_addrs p F O B ≡ₚ pool_addrs p F O' B) by (unfold pool_addrs; by rewrite HP).
  constructor; try done.
  - by rewrite <- HA.
  - intros q Hq. apply Hown. by rewrite HA.
  - by rewrite <- HP.
  - by rewrite <- HP.
Qed.

(** A ring outside what an operation writes. *)
Lemma ring_kept h h' S S' q X :
  kept h h' S S' -> (forall z, z ∈ ql_end q :: X -> owned (h_alloc h) z /\ z ∉ S) ->
  qlist_at (h_links h) q X -> qlist_at (h_links h') q X.
Proof.
  intros [_ Hk] HX. apply qlist_same. intros z Hz. destruct (HX z Hz) as [Ho HS].
  destruct (Hk z Ho HS) as (_ & E1 & E2 & _). by split.
Qed.

(** ** Counts *)

(** The counts stay in 32 bits for another [n] insertions. *)
Definition fits p B (n : Z) : Prop :=
  num_objects p + n * grow_size p < 2 ^ 32 /\ Z.of_nat (length B) + n < 2 ^ 32.

Lemma fits_le size m n p B : item_pool size p -> m <= n -> fits p B n -> fits p B m.
Proof. intros (_ & _ & Hg & _) Hle [H1 H2]. split; [nia|lia]. Qed.

(** How far an operation may use up the counts: at most one growth of the pool. *)
Definition grown p B p' B' : Prop :=
  num_objects p' <= num_objects p + grow_size p /\ (length B' <= S (length B))%nat.

(** By how many items a pool grows that starts with [min_items]. *)
Definition growth_of (least min_items : Z) : Z := Z.max (Z.shiftr min_items 3) least.

Lemma growth_of_bound least m : 1 < least < 2 ^ 32 -> 0 <= m < 2 ^ 32 -> 1 < growth_of least m < 2 ^ 32.
Proof.
  intros Hl Hm. unfold growth_of. rewrite Z.shiftr_div_pow2 by done.
  assert (m / 2 ^ 3 <= m) by (apply Z.div_le_upper_bound; lia). lia.
Qed.

(** ** The user's part of the memory *)

(** Such a pool leaves the user's part of the memory alone. *)
Lemma grow_loop_user p : forall n c size h, pfn_init p = None -> pfn_dtor p = None ->
  h_user (grow_loop n c size p h).2 = h_user h.
Proof.
  intros n. revert p. induction n as [|n IH]; intros p c size h Hi Hd; cbn [grow_loop]; [done|].
  unfold make_item. rewrite Hi. rewrite decide_False by (intros E; by apply E).
  destruct (cl_qlist_insert_head _ _ _) as [lk fl]. by rewrite IH.
Qed.

Lemma grow_user p n h : pfn_init p = None -> pfn_dtor p = None -> h_user (cl_qcpool_grow p n h).2 = h_user h.
Proof.
  intros Hi Hd. unfold cl_qcpool_grow. case_decide; [done|].
  destruct (cl_malloc _ _) as [c a]. case_decide; [done|].
  destruct (cl_qlist_insert_tail _ _ _) as [lk al]. by rewrite grow_loop_user.
Qed.

Lemma init_user p min max grow sizes h st p' h' :
  cl_qcpool_init p min max grow sizes None None h = Some (st, p', h') -> st = CL_SUCCESS -> h_user h' = h_user h.
Proof.
  intros Hrun Hst. revert Hrun. unfold cl_qcpool_init. destruct (_ && _); [intros E; injection E; by intros <- <- <-|].
  case_decide; [intros E; injection E; by intros <- <- <-|]. destruct (cl_malloc _ _) as [b a].
  case_decide; [intros E; injection E; by intros <- <- <-|].
  destruct (cl_qlist_init _ _) as [lk1 al]. destruct (cl_qlist_init lk1 _) as [lk2 fl].
  case_decide; [intros E; injection E; by intros <- <- <-|]. cbv zeta.
  match goal with |- context [cl_qcpool_grow ?q ?n ?g] => pose proof (grow_user q n g eq_refl eq_refl) as Hg end.
  destruct (cl_qcpool_grow _ _ _) as [[st1 p1] h1]. cbn in Hg. case_decide as Hd.
  - destruct (cl_qcpool_destroy p1 h1) as [[p2 h2]|]; cbn [mbind option_bind]; [|done]. intros E; injection E; by intros <- <- <-.
  - intros E; injection E; by intros <- <- <-.
Qed.

Lemma item_pool_get_user size p h : item_pool size p -> h_user (cl_qcpool_get p h).2 = h_user h.
Proof.
  intros (_ & _ & _ & Hi & Hd).
  unfold cl_qcpool_get, refill. destruct (cl_is_qlist_empty (free_list p)).
  - case_decide; [done|]. pose proof (grow_user p (grow_size p) h Hi Hd) as Hgrow. destruct (cl_qcpool_grow _ _ _) as [[st p'] h'].
    cbn in Hgrow. destruct (negb _); [|done]. by destruct (cl_qlist_remove_head _ _) as [[? ?] ?].
  - by destruct (cl_qlist_remove_head _ _) as [[? ?] ?].
Qed.
(** ** Taking an item *)

Lemma item_get_spec size h p F O B :
  item_pool size p -> 0 < size < 2 ^ 16 -> (F = [] -> fits p B 1) -> pool_at no_relation h p F O B ->
  exists x p' h' F' B', cl_qpool_get p h = (x, p', h') /\ same_pool p p' /\ item_pool size p' /\
    h_user h' = h_user h /\ grown p B p' B' /\
    (x <> NULL /\ x ∉ O /\ pool_at no_relation h' p' F' (x :: O) B' /\
       kept h h' (pool_addrs p F [] B) (pool_addrs p' F' [x] B') \/
     x = NULL /\ F = [] /\ pool_at no_relation h' p' [] O B' /\ kept h h' (pool_addrs p F [] B) (pool_addrs p' [] [] B')) /\
    (forall x0 F0, F = x0 :: F0 -> x = x0 /\ F' = F0 /\ num_objects p' = num_objects p /\ B' = B).
Proof.
  intros Hip Hsize Hf Hp. pose proof (item_pool_get_user size p h Hip) as Hu. unfold cl_qpool_get.
  destruct (pool_get_spec _ h p F O B (item_pool_callbacks size p Hip Hsize)) as
    (x & p' & h' & F' & B' & Hrun & Hs & Hcase & Hhd & Hnum); [|done|].
  { intros HF. apply (item_pool_room size p Hip Hsize). destruct (Hf HF). lia. }
  rewrite Hrun in Hu |- *. cbn in Hu. exists x, p', h', F', B'. split_and!; try done.
  - by apply (item_pool_same _ _ _ Hs).
  - destruct Hip as (_ & _ & Hg & _). unfold grown. destruct F as [|x0 F0].
    + destruct (Hnum eq_refl) as [? ?]. lia.
    + destruct (Hhd x0 F0 eq_refl) as (_ & _ & _ & -> & ->). lia.
  - intros x0 F0 E. destruct (Hhd x0 F0 E) as (? & ? & _ & ? & ?). done.
Qed.

(** ** Initialisation *)

Lemma configured_item_pool size p grow :
  configured p 0 grow [size] None None -> ROUNDUP size sizeof_ptr = size -> 0 < grow < 2 ^ 32 -> item_pool size p.
Proof. intros (E1 & E2 & E3 & E4 & E5 & _) Hr Hg. unfold item_pool. rewrite E1, E2, E3, E4, E5. cbn [map]. by rewrite Hr. Qed.

Lemma item_pool_init size p h min grow :
  0 < size < 2 ^ 16 -> ROUNDUP size sizeof_ptr = size ->
  provided h p -> 0 <= min < 2 ^ 32 -> 0 < grow < 2 ^ 32 ->
  exists st p' h', cl_qpool_init p min 0 grow size None None h = Some (st, p', h') /\
    (st <> CL_SUCCESS -> state p' = CL_UNINITIALIZED) /\
    (st = CL_SUCCESS -> exists F B, pool_at no_relation h' p' F [] B /\ Z.of_nat (length F) = min /\
       item_pool size p' /\ grow_size p' = grow /\ (length B <= 1)%nat /\ num_objects p' <= min /\ h_user h' = h_user h /\
       kept h h' [ql_end (free_list p); ql_end (alloc_list p)] (pool_addrs p' F [] B)).
Proof.
  intros Hsize Hround Hpr Hmin Hg. unfold cl_qpool_init.
  destruct (pool_init_spec no_relation p h min 0 grow [size] None None (fun _ u => u))
    as (st & p' & h' & Hrun & Hok & Hbad); try done; [by left|cbn; lia| |].
  { intros p' Hc. pose proof (configured_item_pool size p' grow Hc Hround Hg) as Hip.
    split; [by eapply item_pool_callbacks|]. rewrite (item_obj_size _ _ Hip) by done.
    destruct Hip as (_ & _ & _ & _ & Ed). split; [unfold dtor_is; by rewrite Ed|].
    unfold sizeof_list_item. nia. }
  exists st, p', h'. split; [exact Hrun|]. split; [done|]. intros E.
  destruct (Hok E) as (F & B & Hp & HF & Hc & HB & _ & Hk & Hn). exists F, B.
  split_and!; try done; [by eapply configured_item_pool|apply Hc|by eapply init_user].
Qed.

End ItemPool.
