(* ===== verification/ObjList.v ===== *)
(** * Lists of objects ([cl_list_*])

    A list of objects ([cl_list_t]) is a quick list whose items come from a pool of
    its own and hold a pointer to the caller's object, so that an object may be in
    many lists, or several times in one.  An insertion fails when the pool cannot
    grow.  The memory is that of the pool ([Pool.heap]): the links of the items,
    which the quick list and the free list of the pool share, and the object
    pointers. *)

From S2P Require Import Prelude Qlist Pool ObjPool.

Local Open Scope Z_scope.
Local Open Scope list_scope.

Definition FREE_ITEM_GROW_SIZE : Z := 10.

(** ** The code *)

Section Code.
Context {A U : Type} {AL : Allocator A}.
Abbreviation heap := (heap A U).

Record cl_list_t := ObjList { ol_list : cl_qlist_t; list_item_pool : cl_qcpool_t A U }.

Definition cl_list_construct (l : cl_list_t) : cl_list_t := ObjList (ol_list l) (cl_qpool_construct (list_item_pool l)).
Definition cl_is_list_inited (l : cl_list_t) : bool := cl_is_qpool_inited (list_item_pool l).

Definition cl_list_init (l : cl_list_t) (min_items : Z) (h : heap) : option (cl_status_t * cl_list_t * heap) :=
  let '(lk, q) := cl_qlist_init (h_links h) (ol_list l) in
  let h := set_links h lk in
  let grow_size := Z.shiftr (u32 min_items) 3 in
  let grow_size := if decide (grow_size < FREE_ITEM_GROW_SIZE) then FREE_ITEM_GROW_SIZE else grow_size in
  '(status, p, h) ← cl_qpool_init (list_item_pool l) min_items 0 grow_size sizeof_pool_obj None None h;
  Some (status, ObjList q p, h).

Definition cl_list_destroy (l : cl_list_t) (h : heap) : option (cl_list_t * heap) :=
  '(p, h) ← cl_qpool_destroy (list_item_pool l) h; Some (ObjList (ol_list l) p, h).

Definition cl_is_list_empty (l : cl_list_t) : bool := cl_is_qlist_empty (ol_list l).
Definition cl_list_count (l : cl_list_t) : Z := cl_qlist_count (ol_list l).

Definition cl_list_end (l : cl_list_t) : ptr := cl_qlist_end (ol_list l).
Definition cl_list_head (l : cl_list_t) (h : heap) : ptr := cl_qlist_head (h_links h) (ol_list l).
Definition cl_list_tail (l : cl_list_t) (h : heap) : ptr := cl_qlist_tail (h_links h) (ol_list l).
Definition cl_list_next (h : heap) (iterator : ptr) : ptr := cl_qlist_next (h_links h) iterator.
Definition cl_list_prev (h : heap) (iterator : ptr) : ptr := cl_qlist_prev (h_links h) iterator.
Definition cl_list_obj (h : heap) (iterator : ptr) : ptr := h_object h iterator.

(** The four insertions differ in the insertion into the quick list. *)
Definition insert_object (insert : links -> cl_qlist_t -> ptr -> links * cl_qlist_t)
    (l : cl_list_t) (p_object : ptr) (h : heap) : cl_status_t * cl_list_t * heap :=
  let '(p_pool_obj, p, h) := cl_qpool_get (list_item_pool l) h in
  if decide (p_pool_obj = NULL) then (CL_INSUFFICIENT_MEMORY, ObjList (ol_list l) p, h)
  else
    let h := set_object h p_pool_obj p_object in
    let '(lk, q) := insert (h_links h) (ol_list l) p_pool_obj in
    (CL_SUCCESS, ObjList q p, set_links h lk).

Definition cl_list_insert_head := insert_object cl_qlist_insert_head.
Definition cl_list_insert_tail := insert_object cl_qlist_insert_tail.
Definition cl_list_insert_next (l : cl_list_t) (iterator : ptr) :=
  insert_object (fun lk q p => cl_qlist_insert_next lk q iterator p) l.
Definition cl_list_insert_prev (l : cl_list_t) (iterator : ptr) :=
  insert_object (fun lk q p => cl_qlist_insert_prev lk q iterator p) l.

Definition cl_list_remove_head (l : cl_list_t) (h : heap) : ptr * cl_list_t * heap :=
  if cl_is_qlist_empty (ol_list l) then (NULL, l, h)
  else
    let '(p_pool_obj, lk, q) := cl_qlist_remove_head (h_links h) (ol_list l) in
    let h := set_links h lk in
    let p_obj := h_object h p_pool_obj in
    let '(p, h) := cl_qpool_put (list_item_pool l) p_pool_obj h in
    (p_obj, ObjList q p, h).

(** The object is read after the item went back to the pool. *)
Definition cl_list_remove_tail (l : cl_list_t) (h : heap) : ptr * cl_list_t * heap :=
  if cl_is_qlist_empty (ol_list l) then (NULL, l, h)
  else
    let '(p_pool_obj, lk, q) := cl_qlist_remove_tail (h_links h) (ol_list l) in
    let '(p, h) := cl_qpool_put (list_item_pool l) p_pool_obj (set_links h lk) in
    (h_object h p_pool_obj, ObjList q p, h).

Definition cl_list_remove_all (l : cl_list_t) (h : heap) : cl_list_t * heap :=
  let '(q, p, h) := cl_qpool_put_list (list_item_pool l) (ol_list l) h in (ObjList q p, h).

Definition cl_list_remove_item (l : cl_list_t) (iterator : ptr) (h : heap) : cl_list_t * heap :=
  let '(lk, q) := cl_qlist_remove_item (h_links h) (ol_list l) iterator in
  let '(p, h) := cl_qpool_put (list_item_pool l) iterator (set_links h lk) in
  (ObjList q p, h).

Definition cl_list_find_cb (h : heap) (context p_list_item : ptr) : cl_status_t :=
  if decide (cl_list_obj h p_list_item = context) then CL_SUCCESS else CL_NOT_FOUND.

(** No result stands for a search that does not end. *)
Definition cl_list_remove_object (l : cl_list_t) (p_object : ptr) (h : heap)
    : option (cl_status_t * cl_list_t * heap) :=
  p_list_item ← cl_qlist_find_from_head (h_links h) (ol_list l) (cl_list_find_cb h p_object);
  if decide (p_list_item <> cl_qlist_end (ol_list l)) then
    let '(lk, q) := cl_qlist_remove_item (h_links h) (ol_list l) p_list_item in
    let '(p, h) := cl_qpool_put (list_item_pool l) p_list_item (set_links h lk) in
    Some (CL_SUCCESS, ObjList q p, h)
  else Some (CL_NOT_FOUND, l, h).

Definition cl_is_object_in_list (l : cl_list_t) (p_object : ptr) (h : heap) : option bool :=
  p_list_item ← cl_qlist_find_from_head (h_links h) (ol_list l) (cl_list_find_cb h p_object);
  Some (bool_decide (p_list_item <> cl_qlist_end (ol_list l))).

(** The searches and [cl_list_apply_func] walk the items; the caller's function
    gets the object and, as part of it here, its context. *)
Definition cl_list_find_from_head (l : cl_list_t) (pfn_func : ptr -> cl_status_t) (h : heap) : option ptr :=
  find_loop (ring_fuel (ol_list l)) (cl_list_next h) (ol_list l) (fun itor => pfn_func (cl_list_obj h itor)) (cl_list_head l h).

Definition cl_list_find_from_tail (l : cl_list_t) (pfn_func : ptr -> cl_status_t) (h : heap) : option ptr :=
  find_loop (ring_fuel (ol_list l)) (cl_list_prev h) (ol_list l) (fun itor => pfn_func (cl_list_obj h itor)) (cl_list_tail l h).

Definition cl_list_apply_func {X} (l : cl_list_t) (pfn_func : ptr -> X -> X) (h : heap) (ctx : X) : option X :=
  apply_loop (ring_fuel (ol_list l)) (h_links h) (ol_list l) (fun itor => pfn_func (cl_list_obj h itor)) (cl_list_head l h) ctx.

(** The removals that undo an insertion of an array, [n] of them. *)
Fixpoint undo_loop (remove : cl_list_t -> heap -> ptr * cl_list_t * heap) (n : nat) (l : cl_list_t) (h : heap)
    : cl_list_t * heap :=
  match n with
  | O => (l, h)
  | S n => let '(_, l, h) := remove l h in undo_loop remove n l h
  end.

(** [while (items_remain--)]: after a failure with [items_remain] items left, the
    [item_count - 1 - items_remain] inserted ones are removed again. *)
Fixpoint insert_head_loop (items_remain item_count : nat) (item_size : Z) (l : cl_list_t) (p_object : ptr) (h : heap)
    : cl_status_t * cl_list_t * heap :=
  match items_remain with
  | O => (CL_SUCCESS, l, h)
  | S items_remain =>
      let '(status, l, h) := cl_list_insert_head l p_object h in
      if decide (status <> CL_SUCCESS) then
        let '(l, h) := undo_loop cl_list_remove_head (item_count - 1 - items_remain) l h in (status, l, h)
      else insert_head_loop items_remain item_count item_size l (p_object - item_size) h
  end.

Fixpoint insert_tail_loop (items_remain item_count : nat) (item_size : Z) (l : cl_list_t) (p_object : ptr) (h : heap)
    : cl_status_t * cl_list_t * heap :=
  match items_remain with
  | O => (CL_SUCCESS, l, h)
  | S items_remain =>
      let '(status, l, h) := cl_list_insert_tail l p_object h in
      if decide (status <> CL_SUCCESS) then
        let '(l, h) := undo_loop cl_list_remove_tail (item_count - 1 - items_remain) l h in (status, l, h)
      else insert_tail_loop items_remain item_count item_size l (p_object + item_size) h
  end.

(** The offset of the last item is a product of 32-bit integers. *)
Definition cl_list_insert_array_head (l : cl_list_t) (p_array item_count item_size : Z) (h : heap) :=
  insert_head_loop (Z.to_nat item_count) (Z.to_nat item_count) item_size l
    (p_array + u32 (item_size * u32 (item_count - 1))) h.

Definition cl_list_insert_array_tail (l : cl_list_t) (p_array item_count item_size : Z) (h : heap) :=
  insert_tail_loop (Z.to_nat item_count) (Z.to_nat item_count) item_size l p_array h.
End Code.
Arguments cl_list_t : clear implicits.

(** ** The invariant *)

Section Invariant.
Context {A U : Type} {AL : Allocator A} {LA : AllocatorLaws A}.
Implicit Types (h : heap A U) (l : cl_list_t A U) (p : cl_qcpool_t A U) (X F B : list ptr).

(** A list with the items [X], the free items [F] and the blocks [B]. *)
Record list_at h l X F B : Prop := ListAt {
  la_pool : pool_at no_relation h (list_item_pool l) F X B;
  la_list : qlist_at (h_links h) (ol_list l) X;
  la_end : ql_end (ol_list l) ∉ pool_addrs (list_item_pool l) F X B;
  la_owned : owned (h_alloc h) (ql_end (ol_list l));
  la_items : item_pool sizeof_pool_obj (list_item_pool l) }.

(** Where the list structure is, and the settings of its pool. *)
Definition same_list l l' : Prop :=
  ql_end (ol_list l') = ql_end (ol_list l) /\ same_pool (list_item_pool l) (list_item_pool l').

(** The items of the list are not its pool's own. *)
Lemma list_separate h l X F B q :
  list_at h l X F B -> q ∈ ql_end (ol_list l) :: X ->
  owned (h_alloc h) q /\ q ∉ pool_addrs (list_item_pool l) F [] B.
Proof.
  intros [Hp _ He Ho _]. pose proof (pl_nodup _ _ _ _ _ _ Hp) as Hnd.
  intros [->|Hq]%elem_of_cons; unfold pool_addrs in *.
  - split; [done|]. set_solver.
  - split; [apply (pl_owned _ _ _ _ _ _ Hp); unfold pool_addrs; set_solver|]. nodup_simpl. ne_solve.
Qed.

(** An insertion into the quick list, between [X1] and [X2]. *)
Definition inserts_at (insert : links -> cl_qlist_t -> ptr -> links * cl_qlist_t) X1 X2 : Prop :=
  forall lk q (x : ptr), qlist_at lk q (X1 ++ X2) -> x ∉ ql_end q :: X1 ++ X2 ->
    let '(lk', q') := insert lk q x in
    qlist_at lk' q' (X1 ++ x :: X2) /\ same_off (x :: ql_end q :: X1 ++ X2) lk lk' /\ ql_end q' = ql_end q.

(** A new item from the pool, with its object, goes into the list. *)
Lemma list_link insert h l p X1 X2 F B x o :
  inserts_at insert X1 X2 -> qlist_at (h_links h) (ol_list l) (X1 ++ X2) ->
  pool_at no_relation h p F (x :: X1 ++ X2) B -> ql_end (ol_list l) ∉ pool_addrs p F (x :: X1 ++ X2) B ->
  owned (h_alloc h) (ql_end (ol_list l)) -> item_pool sizeof_pool_obj p ->
  let h := set_object h x o in
  let '(lk, q) := insert (h_links h) (ol_list l) x in
  list_at (set_links h lk) (ObjList q p) (X1 ++ x :: X2) F B /\ ql_end q = ql_end (ol_list l).
Proof.
  intros Hins Hl Hp He Ho Hip h1. cbn [h_links h1 set_object]. pose proof (pl_nodup _ _ _ _ _ _ Hp) as Hnd.
  pose proof (Hins (h_links h) (ol_list l) x Hl) as H. destruct (insert (h_links h) (ol_list l) x) as [lk q].
  destruct H as (Hl' & Hoff & Eq). { unfold pool_addrs in *. nodup_simpl. ne_solve. }
  split; [|done]. constructor; cbn [ol_list list_item_pool h_alloc set_links h1]; rewrite ?Eq; try done.
  - eapply pool_at_perm; [|eapply pool_at_links; [by apply pool_at_object|exact Hoff|]]; [solve_Permutation|].
    unfold pool_addrs in *. intros z Hz. nodup_simpl. elem_simpl. destruct Hz as [->|[->|Hz]]; ne_solve.
  - assert (HP : pool_addrs p F (X1 ++ x :: X2) B ≡ₚ pool_addrs p F (x :: X1 ++ X2) B).
    { unfold pool_addrs. solve_Permutation. }
    by rewrite HP.
Qed.

Lemma insert_object_spec insert X1 X2 h l F B o :
  inserts_at insert X1 X2 -> list_at h l (X1 ++ X2) F B -> fits (list_item_pool l) B 1 ->
  exists st l' h' F' B', insert_object insert l o h = (st, l', h') /\ same_list l l' /\ grown (list_item_pool l) B (list_item_pool l') B' /\
    (forall y, y ∈ X1 ++ X2 -> h_object h' y = h_object h y) /\
    (forall x F0, F = x :: F0 -> st = CL_SUCCESS /\ F' = F0) /\
    (st = CL_INSUFFICIENT_MEMORY /\ list_at h' l' (X1 ++ X2) F' B' \/
     st = CL_SUCCESS /\ exists x, list_at h' l' (X1 ++ x :: X2) F' B' /\ h_object h' x = o).
Proof.
  intros Hins Hl Hf. pose proof Hl as [Hp Hq He Ho Hip]. unfold insert_object.
  destruct (item_get_spec _ h _ F (X1 ++ X2) B Hip ltac:(done) (fun _ => Hf) Hp) as
    (x & p & h1 & F1 & B1 & -> & Hs & Hip1 & _ & Hg & Hcase & Hhd).
  assert (Hsep : forall S', kept h h1 (pool_addrs (list_item_pool l) F [] B) S' ->
    qlist_at (h_links h1) (ol_list l) (X1 ++ X2) /\ owned (h_alloc h1) (ql_end (ol_list l)) /\
    ql_end (ol_list l) ∉ S' /\ (forall y, y ∈ X1 ++ X2 -> h_object h1 y = h_object h y)).
  { intros S' Hk. split_and!.
    - eapply ring_kept; [exact Hk| |done]. intros z Hz. by eapply list_separate.
    - by apply Hk.
    - apply Hk; [done|]. by eapply list_separate; [|left].
    - intros y Hy. destruct (list_separate h l _ F B y Hl) as [Hy1 Hy2]; [by right|].
      by destruct (proj2 Hk y Hy1 Hy2) as (_ & _ & _ & ->). }
  destruct Hcase as [(Hx & HxO & Hp1 & Hk)|(-> & -> & Hp1 & Hk)]; destruct (Hsep _ Hk) as (Hq1 & Ho1 & He1 & Hobj).
  - rewrite decide_False by done.
    assert (He1' : ql_end (ol_list l) ∉ pool_addrs p F1 (x :: X1 ++ X2) B1).
    { pose proof (qlist_end_notin _ _ _ Hq). unfold pool_addrs in *. set_solver. }
    pose proof (list_link insert h1 l p X1 X2 F1 B1 x o Hins Hq1 Hp1 He1' Ho1 Hip1) as H.
    cbn zeta in H. destruct (insert _ (ol_list l) x) as [lk q]. destruct H as [Hl' Eq].
    eexists _, _, _, F1, B1. split; [done|]. split; [by split|]. split; [done|]. split; [|split].
    + intros y Hy. cbn. rewrite upd_ne by (by intros ->). by apply Hobj.
    + intros y F0 E. by destruct (Hhd y F0 E) as (_ & -> & _).
    + right. split; [done|]. exists x. split; [exact Hl'|]. cbn. by rewrite upd_eq.
  - rewrite decide_True by done. eexists _, _, _, [], B1. split; [done|]. split; [by split|]. split; [done|].
    split; [done|]. split; [done|]. left. split; [done|]. constructor; try done.
    + cbn. unfold pool_addrs in *. pose proof (la_end _ _ _ _ _ Hl) as He'. unfold pool_addrs in He'. set_solver.
Qed.

(** An item taken out of the quick list goes back to the pool. *)
Lemma list_unlink h l X1 x X2 F B lk q :
  list_at h l (X1 ++ x :: X2) F B -> qlist_at lk q (X1 ++ X2) -> ql_end q = ql_end (ol_list l) ->
  same_off (ql_end (ol_list l) :: X1 ++ x :: X2) (h_links h) lk ->
  let '(p, h') := cl_qpool_put (list_item_pool l) x (set_links h lk) in
  list_at h' (ObjList q p) (X1 ++ X2) (x :: F) B /\ same_list l (ObjList q p) /\
  num_objects p = num_objects (list_item_pool l) /\ h_object h' = h_object h.
Proof.
  intros Hl Hq Eq Hoff. pose proof Hl as [Hp Hq0 He Ho Hip]. unfold cl_qpool_put.
  assert (Hp1 : pool_at no_relation (set_links h lk) (list_item_pool l) F (X1 ++ x :: X2) B).
  { eapply pool_at_links; [done|exact Hoff|]. intros z Hz. by apply (list_separate h l _ F B z Hl). }
  pose proof (pool_put_spec _ _ _ F X1 x X2 B Hp1) as H.
  destruct (cl_qcpool_put (list_item_pool l) x (set_links h lk)) as [p h'].
  destruct H as (Hp' & Hs & Hn & Ha & Hobj & Hk).
  split; [|split_and!; [by split|done..]].
  assert (Hout : forall z, z ∈ ql_end q :: X1 ++ X2 ->
    owned (h_alloc h) z /\ z ∉ pool_addrs (list_item_pool l) F [x] B).
  { intros z Hz. destruct (list_separate h l (X1 ++ x :: X2) F B z Hl) as [Hz1 Hz2]; [rewrite <- Eq; set_solver|].
    split; [done|]. assert (z <> x); [|unfold pool_addrs in *; set_solver].
    pose proof (pl_nodup _ _ _ _ _ _ Hp) as Hnd. unfold pool_addrs in *. rewrite Eq in Hz. intros ->.
    apply elem_of_cons in Hz as [->|Hz]; [set_solver|]. nodup_simpl. ne_solve. }
  constructor; cbn [ol_list list_item_pool]; rewrite ?Ha, ?Eq; try done.
  - eapply ring_kept; [exact Hk|exact Hout|done].
  - destruct (Hout (ql_end (ol_list l))) as [_ Hn1]; [rewrite Eq; set_solver|].
    destruct (proj2 Hk (ql_end (ol_list l))) as [Hn2 _]; [done..|]. pose proof He as He'. unfold pool_addrs in *. set_solver.
  - by apply (item_pool_same _ _ _ Hs).
Qed.

Lemma inserts_head X : inserts_at cl_qlist_insert_head [] X.
Proof. intros lk q x Hq Hx. pose proof (qlist_insert_head_spec lk q X x Hq Hx) as H. cbn in *. tauto. Qed.

Lemma inserts_tail X : inserts_at cl_qlist_insert_tail X [].
Proof.
  intros lk q x. rewrite app_nil_r. intros Hq Hx.
  pose proof (qlist_insert_tail_spec lk q X x Hq Hx) as H. cbn in *. tauto.
Qed.

Lemma inserts_next X1 a X2 : inserts_at (fun lk q x => cl_qlist_insert_next lk q a x) (X1 ++ [a]) X2.
Proof.
  intros lk q x. rewrite <- !(assoc_L (++)). intros Hq Hx.
  pose proof (qlist_insert_next_spec lk q X1 a X2 x Hq Hx) as H. cbn in *. tauto.
Qed.

Lemma inserts_prev X1 a X2 : inserts_at (fun lk q x => cl_qlist_insert_prev lk q a x) X1 (a :: X2).
Proof. intros lk q x Hq Hx. pose proof (qlist_insert_prev_spec lk q X1 a X2 x Hq Hx) as H. cbn in *. tauto. Qed.

(** ** Lists by their objects *)

(** The list has the items [X] and may take [n] more insertions. *)
Definition has_items (n : Z) h l X : Prop := exists F B, list_at h l X F B /\ fits (list_item_pool l) B n.

Lemma has_items_le m n h l X : m <= n -> has_items n h l X -> has_items m h l X.
Proof. intros Hle (F & B & Hl & Hf). exists F, B. split; [done|]. by eapply fits_le, Hf; [apply Hl|]. Qed.

Lemma has_items_length n h l X : has_items n h l X -> 0 <= n -> Z.of_nat (length X) < 2 ^ 32.
Proof.
  intros (F & B & Hl & Hf) Hn. destruct (la_items _ _ _ _ _ Hl) as (_ & _ & Hg & _).
  pose proof (pl_count _ _ _ _ _ _ (la_pool _ _ _ _ _ Hl)). unfold fits in Hf. nia.
Qed.

Lemma list_empty_test n h l X : has_items n h l X -> 0 <= n -> cl_is_list_empty l = bool_decide (X = []).
Proof.
  intros Hl Hn. pose proof (has_items_length _ _ _ _ Hl Hn). destruct Hl as (F & B & Hl & _).
  apply (qlist_empty_spec (h_links h)); [apply Hl|done].
Qed.

(** A new item at a place of the list, or no memory. *)
Definition inserted (n : Z) h l X1 X2 (o : ptr) (r : cl_status_t * cl_list_t A U * heap A U) : Prop :=
  let '(st, l', h') := r in
  same_list l l' /\ (forall y, y ∈ X1 ++ X2 -> h_object h' y = h_object h y) /\
  (st = CL_INSUFFICIENT_MEMORY /\ has_items n h' l' (X1 ++ X2) \/
   st = CL_SUCCESS /\ exists x, has_items n h' l' (X1 ++ x :: X2) /\ h_object h' x = o).

Lemma insert_items insert X1 X2 n h l o :
  inserts_at insert X1 X2 -> 0 <= n -> has_items (n + 1) h l (X1 ++ X2) ->
  inserted n h l X1 X2 o (insert_object insert l o h).
Proof.
  intros Hins Hn (F & B & Hl & Hf). destruct (la_items _ _ _ _ _ Hl) as (_ & _ & Hg & _).
  destruct (insert_object_spec insert X1 X2 h l F B o Hins Hl) as
    (st & l' & h' & F' & B' & -> & Hs & [Hnum HB] & Hobj & _ & Hcase); [unfold fits in *; nia|].
  assert (Hf' : fits (list_item_pool l') B' n).
  { pose proof Hs as [_ (_ & _ & Eg & _)]. unfold fits in *. rewrite Eg. lia. }
  split; [done|]. split; [done|]. destruct Hcase as [[-> H]|[-> (x & H & Ho)]]; [left|right].
  - split; [done|]. by exists F', B'.
  - split; [done|]. exists x. split; [by exists F', B'|done].
Qed.

(** An item leaves the list. *)
Lemma unlink_items n h l X1 x X2 lk q :
  has_items n h l (X1 ++ x :: X2) -> qlist_at lk q (X1 ++ X2) -> ql_end q = ql_end (ol_list l) ->
  same_off (ql_end (ol_list l) :: X1 ++ x :: X2) (h_links h) lk ->
  let '(p, h') := cl_qpool_put (list_item_pool l) x (set_links h lk) in
  has_items n h' (ObjList q p) (X1 ++ X2) /\ same_list l (ObjList q p) /\ h_object h' = h_object h.
Proof.
  intros (F & B & Hl & Hf) Hq Eq Hoff. pose proof (list_unlink h l X1 x X2 F B lk q Hl Hq Eq Hoff) as H.
  destruct (cl_qpool_put _ x _) as [p h']. destruct H as (Hl' & Hs & Hn & Ho).
  split; [|done]. exists (x :: F), B. split; [done|]. pose proof Hs as [_ (_ & _ & Eg & _)]. cbn in Eg.
  unfold fits in *. cbn. by rewrite Hn, Eg.
Qed.

Definition removed (n : Z) h l X1 X2 (r : cl_list_t A U * heap A U) : Prop :=
  let '(l', h') := r in has_items n h' l' (X1 ++ X2) /\ same_list l l' /\ h_object h' = h_object h.

Lemma same_list_refl l : same_list l l.
Proof. by split. Qed.

Lemma remove_item_spec n h l X1 x X2 :
  has_items n h l (X1 ++ x :: X2) -> removed n h l X1 X2 (cl_list_remove_item l x h).
Proof.
  intros Hl. pose proof Hl as (F & B & Hl0 & _). unfold cl_list_remove_item.
  pose proof (qlist_remove_item_spec (h_links h) (ol_list l) X1 x X2 (la_list _ _ _ _ _ Hl0)) as H.
  assert (Hend : ql_end (cl_qlist_remove_item (h_links h) (ol_list l) x).2 = ql_end (ol_list l)).
  { unfold cl_qlist_remove_item. by case_decide. }
  destruct (cl_qlist_remove_item _ _ _) as [lk q]. destruct H as [Hq Hoff].
  pose proof (unlink_items n h l X1 x X2 lk q Hl Hq Hend) as H. destruct (cl_qpool_put _ _ _) as [p h'].
  apply H. intros z Hz. apply Hoff. set_solver.
Qed.

Lemma remove_head_spec n h l X :
  has_items n h l X -> 0 <= n ->
  let '(o, l', h') := cl_list_remove_head l h in
  o = default NULL (h_object h <$> head X) /\ removed n h l [] (tail X) (l', h').
Proof.
  intros Hl Hn. unfold cl_list_remove_head. fold (cl_is_list_empty l). rewrite (list_empty_test n h l X Hl Hn).
  destruct X as [|x X]; cbn [bool_decide]; [by split|]. rewrite bool_decide_false by done.
  pose proof Hl as (F & B & Hl0 & _).
  pose proof (qlist_remove_head_spec (h_links h) (ol_list l) (x :: X) (la_list _ _ _ _ _ Hl0)) as H.
  assert (Hend : ql_end (cl_qlist_remove_head (h_links h) (ol_list l)).2 = ql_end (ol_list l)).
  { unfold cl_qlist_remove_head. by case_decide. }
  destruct (cl_qlist_remove_head _ _) as [[y lk] q]. destruct H as (-> & Hq & Hoff). cbn [default head] in *.
  pose proof (unlink_items n h l [] x X lk q Hl Hq Hend Hoff) as H. by destruct (cl_qpool_put _ _ _) as [p h'].
Qed.

Lemma remove_tail_spec n h l X :
  has_items n h l X -> 0 <= n ->
  let '(o, l', h') := cl_list_remove_tail l h in
  o = default NULL (h_object h <$> last X) /\ removed n h l (take (length X - 1) X) [] (l', h').
Proof.
  intros Hl Hn. unfold cl_list_remove_tail. fold (cl_is_list_empty l). rewrite (list_empty_test n h l X Hl Hn).
  destruct (list_snoc_case X) as [->|(Y & x & ->)]; [by split|]. rewrite bool_decide_false by (by destruct Y).
  pose proof Hl as (F & B & Hl0 & _).
  pose proof (qlist_remove_tail_spec (h_links h) (ol_list l) (Y ++ [x]) (la_list _ _ _ _ _ Hl0)) as H.
  assert (Hend : ql_end (cl_qlist_remove_tail (h_links h) (ol_list l)).2 = ql_end (ol_list l)).
  { unfold cl_qlist_remove_tail. by case_decide. }
  destruct (cl_qlist_remove_tail _ _) as [[y lk] q]. rewrite last_snoc in *.
  rewrite length_app, Nat.add_sub, take_app_length in *. cbn [default option_map] in *. destruct H as (-> & Hq & Hoff).
  pose proof (unlink_items n h l Y x [] lk q Hl) as H. rewrite app_nil_r in H. specialize (H Hq Hend Hoff).
  destruct (cl_qpool_put _ _ _) as [p h']. destruct H as (H1 & H2 & H3). unfold removed. rewrite app_nil_r.
  split; [by rewrite H3|done].
Qed.

Lemma remove_all_spec n h l X : has_items n h l X -> 0 <= n -> removed n h l [] [] (cl_list_remove_all l h).
Proof.
  intros (F & B & Hl & Hf) Hn. pose proof Hl as [Hp Hq He Ho Hip]. unfold cl_list_remove_all, cl_qpool_put_list.
  assert (Hp' : pool_at no_relation h (list_item_pool l) F (X ++ []) B) by (by rewrite app_nil_r).
  pose proof (pool_put_list_spec _ h (list_item_pool l) F X [] B (ol_list l) Hp' Hq) as H.
  destruct (cl_qcpool_put_list _ _ _) as [[q p] h']. rewrite app_nil_r in H.
  destruct (H He) as (Hp1 & Hq1 & Hs & Hnum & Ha & Hobj & Eq & Hk). clear H.
  split; [|split; [by split|done]]. exists (X ++ F), B. split.
  - constructor; cbn [ol_list list_item_pool]; rewrite ?Eq, ?Ha; try done; [|by apply (item_pool_same _ _ _ Hs)].
    assert (HP : pool_addrs p (X ++ F) [] B ≡ₚ pool_addrs (list_item_pool l) F X B); [|by rewrite HP].
    destruct Hs as (_ & _ & _ & _ & _ & _ & _ & Ef & Eal). unfold pool_addrs. rewrite Ef, Eal. solve_Permutation.
  - unfold fits in *. cbn. destruct Hs as (_ & _ & -> & _). by rewrite Hnum.
Qed.

(** The items from the head, and from the tail. *)
Lemma list_walk n h l X :
  has_items n h l X -> 0 <= n ->
  (length X < ring_fuel (ol_list l))%nat /\ ql_end (ol_list l) ∉ X /\
  cl_list_head l h = default (cl_list_end l) (head X) /\ cl_list_tail l h = default (cl_list_end l) (last X) /\
  (forall X1 x X2, X = X1 ++ x :: X2 -> cl_list_next h x = default (cl_list_end l) (head X2) /\
     cl_list_prev h x = default (cl_list_end l) (last X1)).
Proof.
  intros Hl Hn. pose proof (has_items_length _ _ _ _ Hl Hn) as Hlen. destruct Hl as (F & B & [_ Hq _ _ _] & _).
  pose proof (ring_fuel_enough _ _ _ Hq ltac:(unfold short; lia)) as Hf. pose proof Hq as [Hr _].
  split_and!; [done|by eapply qlist_end_notin|by eapply ring_head|by eapply ring_tail|].
  intros X1 x X2 ->. split; [by eapply ring_next|by eapply ring_prev].
Qed.

(** Searching finds the first, or last, item whose object matches; applying a
    function visits each object once, in order. *)
Lemma list_find_spec n h l X pfn :
  has_items n h l X -> 0 <= n ->
  let found := filterb (fun x => bool_decide (pfn (h_object h x) = CL_SUCCESS)) in
  cl_list_find_from_head l pfn h = Some (default (cl_list_end l) (head (found X))) /\
  cl_list_find_from_tail l pfn h = Some (default (cl_list_end l) (head (found (reverse X)))).
Proof.
  intros Hl Hn found. destruct (list_walk n h l X Hl Hn) as (Hf & He & Hh & Ht & Hstep). split.
  - apply (find_loop_spec (h_links h)); try done. intros X1 x X2 E. by apply (Hstep X1 x X2 E).
  - apply (find_loop_spec (h_links h)); [by rewrite length_reverse|by rewrite elem_of_reverse| |].
    + by rewrite Ht, <- (last_reverse (reverse X)), reverse_involutive.
    + intros X1 x X2 E. apply (f_equal reverse) in E.
      rewrite reverse_involutive, reverse_app, reverse_cons, <- (assoc_L (++)) in E. cbn in E.
      by rewrite (proj2 (Hstep _ _ _ E)), last_reverse.
Qed.

Lemma list_apply_spec {Y} n h l X (pfn : ptr -> Y -> Y) ctx :
  has_items n h l X -> 0 <= n ->
  cl_list_apply_func l pfn h ctx = Some (foldl (fun c o => pfn o c) ctx (h_object h <$> X)).
Proof.
  intros Hl Hn. destruct (list_walk n h l X Hl Hn) as (Hf & He & Hh & Ht & Hstep).
  unfold cl_list_apply_func. rewrite (apply_loop_spec _ _ _ X); try done.
  - f_equal. clear. revert ctx. induction X as [|x X IH]; intros ctx; cbn; [done|apply IH].
  - intros X1 x X2 E. by apply (Hstep X1 x X2 E).
Qed.

Lemma find_object_spec n h l X o :
  has_items n h l X -> 0 <= n ->
  cl_qlist_find_from_head (h_links h) (ol_list l) (cl_list_find_cb h o) =
    Some (default (cl_list_end l) (head (filterb (fun x => bool_decide (h_object h x = o)) X))).
Proof.
  intros Hl Hn. destruct (list_walk n h l X Hl Hn) as (Hf & He & Hh & Ht & Hstep).
  unfold cl_qlist_find_from_head, cl_qlist_find_next. rewrite (find_loop_spec (h_links h) _ _ _ X); try done.
  - unfold cl_list_find_cb, cl_list_obj. do 3 f_equal. apply filterb_ext. intros x _.
    case_decide; [by rewrite !bool_decide_true|by rewrite !bool_decide_false].
  - intros X1 x X2 E. by apply (Hstep X1 x X2 E).
Qed.

(** ** Arrays *)

Lemma same_list_trans l1 l2 l3 : same_list l1 l2 -> same_list l2 l3 -> same_list l1 l3.
Proof. intros [E1 H1] [E2 H2]. split; [congruence|by etrans]. Qed.

Lemma undo_head_spec n X : forall P l h,
  has_items n h l (P ++ X) -> 0 <= n ->
  removed n h l [] X (undo_loop cl_list_remove_head (length P) l h).
Proof.
  induction P as [|x P IH]; intros l h Hl Hn; cbn [length undo_loop]; [by split_and!|].
  pose proof (remove_head_spec n h l _ Hl Hn) as H.
  destruct (cl_list_remove_head l h) as [[o l1] h1]. destruct H as (_ & H1 & Hs1 & Ho1). cbn in H1.
  specialize (IH l1 h1 H1 Hn). destruct (undo_loop _ _ _ _) as [l2 h2]. destruct IH as (H2 & Hs2 & Ho2).
  split; [done|]. split; [by eapply same_list_trans|congruence].
Qed.

Lemma undo_tail_spec n X : forall P l h,
  has_items n h l (X ++ P) -> 0 <= n ->
  removed n h l X [] (undo_loop cl_list_remove_tail (length P) l h).
Proof.
  intros P. induction P as [|x P IH] using rev_ind; intros l h Hl Hn; [by split_and!|].
  rewrite length_app, Nat.add_1_r. cbn [undo_loop]. rewrite (assoc_L (++)) in Hl.
  pose proof (remove_tail_spec n h l _ Hl Hn) as H.
  destruct (cl_list_remove_tail l h) as [[o l1] h1]. destruct H as (_ & H1 & Hs1 & Ho1).
  rewrite length_app, Nat.add_sub, take_app_length, app_nil_r in H1.
  specialize (IH l1 h1 H1 Hn). destruct (undo_loop _ _ _ _) as [l2 h2]. destruct IH as (H2 & Hs2 & Ho2).
  split; [done|]. split; [by eapply same_list_trans|congruence].
Qed.

(** The objects of items. *)
Definition objs h X : list ptr := h_object h <$> X.

Lemma objs_same h h' X : (forall y, y ∈ X -> h_object h' y = h_object h y) -> objs h' X = objs h X.
Proof. intros H. unfold objs. apply list_fmap_ext. intros i y Hy. apply H. by eapply list_elem_of_lookup_2. Qed.

(** All objects of an array at the end of the list, or none and no change. *)
Definition inserted_all (n : Z) h l X (os : list ptr) (at_head : bool) (r : cl_status_t * cl_list_t A U * heap A U) : Prop :=
  let '(st, l', h') := r in
  same_list l l' /\
  (st = CL_INSUFFICIENT_MEMORY /\ has_items n h' l' X /\ objs h' X = objs h X \/
   st = CL_SUCCESS /\ exists Q, has_items n h' l' (if at_head then Q ++ X else X ++ Q) /\
     objs h' X = objs h X /\ objs h' Q = os).

Lemma insert_head_loop_spec n X size base count : forall r P l h,
  (length P + r)%nat = count -> has_items (n + Z.of_nat r) h l (P ++ X) -> 0 <= n ->
  let '(st, l', h') := insert_head_loop r count size l (base + (Z.of_nat r - 1) * size) h in
  same_list l l' /\
  (st = CL_INSUFFICIENT_MEMORY /\ has_items n h' l' X /\ objs h' X = objs h X \/
   st = CL_SUCCESS /\ exists Q, has_items n h' l' (Q ++ P ++ X) /\
     objs h' (P ++ X) = objs h (P ++ X) /\ objs h' Q = array_items base size r).
Proof.
  induction r as [|r IH]; intros P l h Hc Hl Hn; cbn [insert_head_loop].
  { split; [done|]. right. split; [done|]. exists []. rewrite Z.add_0_r in Hl. done. }
  replace (n + Z.of_nat (S r)) with (n + Z.of_nat r + 1) in Hl by lia.
  replace (base + (Z.of_nat (S r) - 1) * size) with (base + Z.of_nat r * size) by lia.
  pose proof (insert_items _ [] (P ++ X) (n + Z.of_nat r) h l (base + Z.of_nat r * size)
    (inserts_head _) ltac:(lia) Hl) as H.
  unfold cl_list_insert_head. destruct (insert_object _ _ _ _) as [[st l1] h1]. destruct H as (Hs1 & Hobj1 & Hcase).
  destruct Hcase as [[-> H1]|[-> (x & H1 & Hx)]]; cbn [app] in *.
  - rewrite decide_True by done. replace (count - 1 - r)%nat with (length P) by lia.
    pose proof (undo_head_spec n X P l1 h1) as H. destruct (undo_loop _ _ _ _) as [l2 h2].
    destruct H as (H2 & Hs2 & Ho2); [eapply has_items_le; [|exact H1]; lia|done|].
    split; [by eapply same_list_trans|]. left. split; [done|]. split; [done|].
    apply objs_same. intros y Hy. rewrite Ho2. apply Hobj1. set_solver.
  - rewrite decide_False by (intros E; by apply E).
    replace (base + Z.of_nat r * size - size) with (base + (Z.of_nat r - 1) * size) by lia.
    specialize (IH (x :: P) l1 h1 ltac:(cbn; lia) H1 Hn). destruct (insert_head_loop _ _ _ _ _ _) as [[st l2] h2].
    destruct IH as (Hs2 & Hcase). split; [by eapply same_list_trans|].
    destruct Hcase as [(-> & H2 & Ho2)|(-> & Q & H2 & Ho2 & HQ)].
    + left. split; [done|]. split; [done|]. rewrite Ho2. apply objs_same. intros y Hy. apply Hobj1. set_solver.
    + right. split; [done|]. exists (Q ++ [x]). rewrite <- (assoc_L (++)). split; [done|].
      cbn in Ho2. injection Ho2 as Ho2x Ho2. split.
      * unfold objs. rewrite Ho2. by apply objs_same.
      * unfold objs in *. rewrite array_items_snoc, fmap_app, HQ. cbn. by rewrite Ho2x, Hx.
Qed.

Lemma insert_tail_loop_spec n X size count : forall r P l base h,
  (length P + r)%nat = count -> has_items (n + Z.of_nat r) h l (X ++ P) -> 0 <= n ->
  let '(st, l', h') := insert_tail_loop r count size l base h in
  same_list l l' /\
  (st = CL_INSUFFICIENT_MEMORY /\ has_items n h' l' X /\ objs h' X = objs h X \/
   st = CL_SUCCESS /\ exists Q, has_items n h' l' ((X ++ P) ++ Q) /\
     objs h' (X ++ P) = objs h (X ++ P) /\ objs h' Q = array_items base size r).
Proof.
  induction r as [|r IH]; intros P l base h Hc Hl Hn; cbn [insert_tail_loop].
  { split; [done|]. right. split; [done|]. exists []. rewrite Z.add_0_r in Hl. by rewrite app_nil_r. }
  replace (n + Z.of_nat (S r)) with (n + Z.of_nat r + 1) in Hl by lia.
  pose proof (insert_items _ (X ++ P) [] (n + Z.of_nat r) h l base (inserts_tail _) ltac:(lia)) as H.
  rewrite app_nil_r in H. specialize (H Hl).
  unfold cl_list_insert_tail. destruct (insert_object _ _ _ _) as [[st l1] h1]. destruct H as (Hs1 & Hobj1 & Hcase).
  rewrite app_nil_r in *. destruct Hcase as [[-> H1]|[-> (x & H1 & Hx)]].
  - rewrite decide_True by done. replace (count - 1 - r)%nat with (length P) by lia.
    pose proof (undo_tail_spec n X P l1 h1) as H. destruct (undo_loop _ _ _ _) as [l2 h2].
    destruct H as (H2 & Hs2 & Ho2); [eapply has_items_le; [|exact H1]; lia|done|]. rewrite app_nil_r in H2.
    split; [by eapply same_list_trans|]. left. split; [done|]. split; [done|].
    apply objs_same. intros y Hy. rewrite Ho2. apply Hobj1. set_solver.
  - rewrite decide_False by (intros E; by apply E). rewrite <- (assoc_L (++)) in H1.
    specialize (IH (P ++ [x]) l1 (base + size) h1 ltac:(rewrite length_app; cbn; lia) H1 Hn).
    destruct (insert_tail_loop _ _ _ _ _ _) as [[st l2] h2].
    destruct IH as (Hs2 & Hcase). split; [by eapply same_list_trans|].
    destruct Hcase as [(-> & H2 & Ho2)|(-> & Q & H2 & Ho2 & HQ)].
    + left. split; [done|]. split; [done|]. rewrite Ho2. apply objs_same. intros y Hy. apply Hobj1. set_solver.
    + right. split; [done|]. exists (x :: Q). rewrite (assoc_L (++)), <- (assoc_L (++) (X ++ P)) in H2.
      split; [exact H2|]. unfold objs in *. rewrite (assoc_L (++)), !(fmap_app _ (X ++ P)) in Ho2.
      apply app_inj_tail in Ho2 as [Ho2 Ho2x]. split; [rewrite Ho2; by apply objs_same|].
      rewrite array_items_S, fmap_cons, HQ. by rewrite Ho2x, Hx.
Qed.
End Invariant.
