(* ===== verification/ObjListProps.v ===== *)
(** * Lists of objects: properties

    Every call on a list of objects does to the sequence of objects what its name
    says, or, when it inserts and there is no memory, nothing. *)

From S2P Require Import Prelude Qlist Pool ObjPool ObjList.

Local Open Scope Z_scope.
Local Open Scope list_scope.

(** ** Calls *)

Inductive list_op :=
| InsertHead (o : ptr)
| InsertTail (o : ptr)
| InsertNext (i : nat) (o : ptr)    (** after the [i]-th item *)
| InsertPrev (i : nat) (o : ptr)
| InsertArrayHead (p_array item_count item_size : Z)
| InsertArrayTail (p_array item_count item_size : Z)
| RemoveHead
| RemoveTail
| RemoveItem (i : nat)
| RemoveObject (o : ptr)
| RemoveAll
| IsIn (o : ptr)
| FindHead (pfn_func : ptr -> cl_status_t)
| FindTail (pfn_func : ptr -> cl_status_t)
| Apply (pfn_func : ptr -> Z -> Z) (ctx : Z)
| IsEmpty
| Count.

(** What is returned for an item that is not there. *)
Definition skipped : Z := -1.

Section Calls.
Context {A U : Type} {AL : Allocator A}.
Implicit Types (h : heap A U) (l : cl_list_t A U).

(** The [i]-th item from the head. *)
Definition nth_item l h (i : nat) : ptr := Nat.iter i (cl_list_next h) (cl_list_head l h).

Definition found_object l h (itor : ptr) : Z := if decide (itor = cl_list_end l) then NULL else cl_list_obj h itor.

Definition list_exec (op : list_op) l h : option (Z * cl_list_t A U * heap A U) :=
  match op with
  | InsertHead o => Some (cl_list_insert_head l o h)
  | InsertTail o => Some (cl_list_insert_tail l o h)
  | InsertNext i o =>
      Some (if decide (Z.of_nat i < cl_list_count l) then cl_list_insert_next l (nth_item l h i) o h else (skipped, l, h))
  | InsertPrev i o =>
      Some (if decide (Z.of_nat i < cl_list_count l) then cl_list_insert_prev l (nth_item l h i) o h else (skipped, l, h))
  | InsertArrayHead p n s => Some (cl_list_insert_array_head l p n s h)
  | InsertArrayTail p n s => Some (cl_list_insert_array_tail l p n s h)
  | RemoveHead => Some (cl_list_remove_head l h)
  | RemoveTail => Some (cl_list_remove_tail l h)
  | RemoveItem i =>
      Some (if decide (Z.of_nat i < cl_list_count l)
            then let '(l, h) := cl_list_remove_item l (nth_item l h i) h in (CL_SUCCESS, l, h) else (skipped, l, h))
  | RemoveObject o => cl_list_remove_object l o h
  | RemoveAll => Some (let '(l, h) := cl_list_remove_all l h in (CL_SUCCESS, l, h))
  | IsIn o => b ← cl_is_object_in_list l o h; Some (Z.b2z b, l, h)
  | FindHead f => itor ← cl_list_find_from_head l f h; Some (found_object l h itor, l, h)
  | FindTail f => itor ← cl_list_find_from_tail l f h; Some (found_object l h itor, l, h)
  | Apply f ctx => c ← cl_list_apply_func l f h ctx; Some (c, l, h)
  | IsEmpty => Some (Z.b2z (cl_is_list_empty l), l, h)
  | Count => Some (cl_list_count l, l, h)
  end.

Fixpoint list_run (ops : list list_op) l h : option (list Z * cl_list_t A U * heap A U) :=
  match ops with
  | [] => Some ([], l, h)
  | op :: ops =>
      '(r, l, h) ← list_exec op l h;
      '(rs, l, h) ← list_run ops l h;
      Some (r :: rs, l, h)
  end.
End Calls.

(** ** What the calls mean *)

Fixpoint remove_first (o : ptr) (L : list ptr) : list ptr :=
  match L with
  | [] => []
  | x :: L => if decide (x = o) then L else x :: remove_first o L
  end.

Definition matching (f : ptr -> cl_status_t) (L : list ptr) : ptr :=
  default NULL (head (filterb (fun o => bool_decide (f o = CL_SUCCESS)) L)).

Definition effect (op : list_op) (L : list ptr) : Z * list ptr :=
  match op with
  | InsertHead o => (CL_SUCCESS, o :: L)
  | InsertTail o => (CL_SUCCESS, L ++ [o])
  | InsertNext i o =>
      if decide (i < length L)%nat then (CL_SUCCESS, take (S i) L ++ o :: drop (S i) L) else (skipped, L)
  | InsertPrev i o =>
      if decide (i < length L)%nat then (CL_SUCCESS, take i L ++ o :: drop i L) else (skipped, L)
  | InsertArrayHead p n s => (CL_SUCCESS, array_items p s (Z.to_nat n) ++ L)
  | InsertArrayTail p n s => (CL_SUCCESS, L ++ array_items p s (Z.to_nat n))
  | RemoveHead => (default NULL (head L), tail L)
  | RemoveTail => (default NULL (last L), take (length L - 1) L)
  | RemoveItem i => if decide (i < length L)%nat then (CL_SUCCESS, delete i L) else (skipped, L)
  | RemoveObject o => (if decide (o ∈ L) then CL_SUCCESS else CL_NOT_FOUND, remove_first o L)
  | RemoveAll => (CL_SUCCESS, [])
  | IsIn o => (Z.b2z (bool_decide (o ∈ L)), L)
  | FindHead f => (matching f L, L)
  | FindTail f => (matching f (reverse L), L)
  | Apply f ctx => (foldl (fun c o => f o c) ctx L, L)
  | IsEmpty => (Z.b2z (bool_decide (L = [])), L)
  | Count => (Z.of_nat (length L), L)
  end.

(** How many items a call may take from the pool. *)
Definition insertions (op : list_op) : Z :=
  match op with
  | InsertHead _ | InsertTail _ | InsertNext _ _ | InsertPrev _ _ => 1
  | InsertArrayHead _ n _ | InsertArrayTail _ n _ => n
  | _ => 0
  end.

Definition list_step (op : list_op) (L : list ptr) (r : Z) (L' : list ptr) : Prop :=
  (r, L') = effect op L \/ 0 < insertions op /\ r = CL_INSUFFICIENT_MEMORY /\ L' = L.

Fixpoint list_steps (ops : list list_op) (L : list ptr) (rs : list Z) (L' : list ptr) : Prop :=
  match ops, rs with
  | [], [] => L' = L
  | op :: ops, r :: rs => exists L1, list_step op L r L1 /\ list_steps ops L1 rs L'
  | _, _ => False
  end.

(** An array is not empty, and the offset of its last item fits 32 bits. *)
Definition op_ok (op : list_op) : Prop :=
  match op with
  | InsertArrayHead _ n s | InsertArrayTail _ n s => 0 < n < 2 ^ 32 /\ 0 <= s * (n - 1) < 2 ^ 32
  | _ => True
  end.

Definition total_insertions (ops : list list_op) : Z := foldr (fun op n => insertions op + n) 0 ops.

Lemma insertions_nonneg op : op_ok op -> 0 <= insertions op.
Proof. destruct op; cbn; lia. Qed.

(** ** Each call *)

Section Steps.
Context {A U : Type} {AL : Allocator A} {LA : AllocatorLaws A}.
Implicit Types (h : heap A U) (l : cl_list_t A U) (X : list ptr).

Lemma filterb_objs h f X : filterb f (objs h X) = objs h (filterb (fun x => f (h_object h x)) X).
Proof.
  unfold objs. induction X as [|x X IH]; [done|]. rewrite fmap_cons, !filterb_cons, IH. by destruct (f _).
Qed.

Lemma nth_item_spec n h l X i x : has_items n h l X -> 0 <= n -> X !! i = Some x -> nth_item l h i = x.
Proof.
  intros Hl Hn. destruct (list_walk n h l X Hl Hn) as (_ & _ & Hh & _ & Hstep). revert x.
  induction i as [|i IH]; intros x Hx.
  - cbn. rewrite Hh. by destruct X; cbn in Hx; simplify_eq.
  - destruct (X !! i) as [y|] eqn:Hy; [|apply lookup_ge_None in Hy; apply lookup_lt_Some in Hx; lia].
    change (cl_list_next h (nth_item l h i) = x). rewrite (IH y eq_refl). rewrite <- (take_drop_middle X i y Hy) in Hstep.
    rewrite (proj1 (Hstep _ _ _ eq_refl)). unfold default. by rewrite head_lookup, lookup_drop, Nat.add_0_r, Hx.
Qed.

Lemma list_count_spec n h l X : has_items n h l X -> 0 <= n -> cl_list_count l = Z.of_nat (length X).
Proof.
  intros Hl Hn. pose proof (has_items_length _ _ _ _ Hl Hn). destruct Hl as (F & B & [_ [_ Hc] _ _ _] & _).
  unfold cl_list_count, cl_qlist_count. rewrite Hc, wrap_wrap_le, wrap_small by lia. done.
Qed.

(** The first item with an object, and the list without it. *)
Lemma remove_first_split h o X :
  match head (filterb (fun x => bool_decide (h_object h x = o)) X) with
  | Some x => exists X1 X2, X = X1 ++ x :: X2 /\ remove_first o (objs h X) = objs h (X1 ++ X2) /\ o ∈ objs h X
  | None => remove_first o (objs h X) = objs h X /\ o ∉ objs h X
  end.
Proof.
  induction X as [|x X IH]; [by split; [|apply not_elem_of_nil]|].
  rewrite filterb_cons. unfold objs in *. rewrite fmap_cons. cbn [remove_first]. case_bool_decide as Hx.
  - exists [], X. rewrite decide_True by done. split; [done|]. split; [done|]. set_solver.
  - rewrite decide_False by done. destruct (head _) as [y|].
    + destruct IH as (X1 & X2 & -> & -> & Hin). exists (x :: X1), X2. split; [done|]. split; [done|]. set_solver.
    + destruct IH as [-> Hn]. split; [done|]. set_solver.
Qed.

(** What a call leaves and returns, given what it does to the sequence. *)
Definition list_after (n : Z) (op : list_op) h l X (r : option (Z * cl_list_t A U * heap A U)) : Prop :=
  exists v l' h' X', r = Some (v, l', h') /\ same_list l l' /\ has_items n h' l' X' /\
    list_step op (objs h X) v (objs h' X').

Lemma list_after_same n op h l X v :
  has_items n h l X -> (v, objs h X) = effect op (objs h X) -> list_after n op h l X (Some (v, l, h)).
Proof. intros Hl He. exists v, l, h, X. split; [done|]. split; [apply same_list_refl|]. split; [done|by left]. Qed.

Lemma list_after_removed n op h l X X1 X2 v r :
  removed n h l X1 X2 r -> (v, objs h (X1 ++ X2)) = effect op (objs h X) ->
  list_after n op h l X (Some (v, r.1, r.2)).
Proof.
  destruct r as [l' h']. intros (Hl & Hs & Ho) He. exists v, l', h', (X1 ++ X2).
  split; [done|]. split; [done|]. split; [done|]. left. unfold objs in *. by rewrite Ho.
Qed.

Lemma list_after_inserted n op h l X1 X2 o r :
  inserted n h l X1 X2 o r -> insertions op = 1 ->
  effect op (objs h (X1 ++ X2)) = (CL_SUCCESS, objs h X1 ++ o :: objs h X2) ->
  list_after n op h l (X1 ++ X2) (Some r).
Proof.
  destruct r as [[st l'] h']. intros (Hs & Ho & Hcase) Hi He. destruct Hcase as [[-> Hl]|[-> (x & Hl & Hx)]].
  - exists CL_INSUFFICIENT_MEMORY, l', h', (X1 ++ X2). do 3 (split; [done|]). right.
    split; [lia|]. split; [done|]. by apply objs_same.
  - exists CL_SUCCESS, l', h', (X1 ++ x :: X2). do 3 (split; [done|]). left. rewrite He. f_equal.
    unfold objs in *. rewrite fmap_app, fmap_cons, Hx. f_equal; [|f_equal]; apply objs_same; intros y Hy; apply Ho; set_solver.
Qed.

Lemma list_after_array n op h l X os at_head r :
  inserted_all n h l X os at_head r -> 0 < insertions op ->
  effect op (objs h X) = (CL_SUCCESS, if at_head then os ++ objs h X else objs h X ++ os) ->
  list_after n op h l X (Some r).
Proof.
  destruct r as [[st l'] h']. intros (Hs & Hcase) Hi He. destruct Hcase as [(-> & Hl & Ho)|(-> & Q & Hl & Ho & HQ)].
  - exists CL_INSUFFICIENT_MEMORY, l', h', X. do 3 (split; [done|]). by right.
  - eexists CL_SUCCESS, l', h', _. do 3 (split; [done|]). left. rewrite He. f_equal.
    unfold objs in *. destruct at_head; by rewrite fmap_app, Ho, HQ.
Qed.

(** Takes and drops of the objects around an item. *)
Lemma objs_split h X i x :
  X !! i = Some x -> (i < length (objs h X))%nat /\
  objs h X = objs h (take i X) ++ h_object h x :: objs h (drop (S i) X).
Proof.
  intros Hx. split; [unfold objs; rewrite length_fmap; by eapply lookup_lt_Some|].
  unfold objs. rewrite <- fmap_cons, <- fmap_app. by rewrite take_drop_middle.
Qed.

Lemma insert_near_after n h l X i o (next : bool) :
  has_items (n + 1) h l X -> 0 <= n ->
  let op := if next then InsertNext i o else InsertPrev i o in
  list_after n op h l X (list_exec op l h).
Proof.
  intros Hl Hn op. assert (Hcount := list_count_spec (n + 1) h l X Hl ltac:(lia)).
  assert (E : list_exec op l h = Some (if decide (Z.of_nat i < cl_list_count l)
    then (if next then cl_list_insert_next else cl_list_insert_prev) l (nth_item l h i) o h else (skipped, l, h)))
    by (by destruct next).
  rewrite E, Hcount. clear E. case_decide as Hi.
  - assert (Hi' : (i < length X)%nat) by lia. destruct (lookup_lt_is_Some_2 X i Hi') as [x Hx].
    rewrite (nth_item_spec (n + 1) h l X i x Hl ltac:(lia) Hx). destruct (objs_split h X i x Hx) as [Hlen HX].
    pose proof (take_drop_middle X i x Hx) as Etd. destruct next; subst op.
    + assert (EX : X = (take i X ++ [x]) ++ drop (S i) X) by (by rewrite <- (assoc_L (++))).
      rewrite EX in Hl. rewrite EX at 1. eapply list_after_inserted; [by apply insert_items; [apply inserts_next|..]|done|].
      cbn [effect]. rewrite <- EX. rewrite decide_True by done. f_equal. unfold objs.
      rewrite fmap_app, fmap_take, fmap_drop. cbn. rewrite <- (assoc_L (++)).
      rewrite (take_S_r _ _ (h_object h x)); [by rewrite <- (assoc_L (++))|]. by rewrite list_lookup_fmap, Hx.
    + rewrite <- Etd in Hl. rewrite <- Etd at 1.
      eapply list_after_inserted; [by apply insert_items; [apply inserts_prev|..]|done|].
      cbn [effect]. rewrite Etd, decide_True by done. f_equal. unfold objs.
      by rewrite <- (drop_S X x i Hx), fmap_take, fmap_drop.
  - apply list_after_same; [eapply has_items_le; [|exact Hl]; lia|].
    destruct next; subst op; cbn [effect]; rewrite decide_False; try done; unfold objs; rewrite length_fmap; lia.
Qed.

Lemma remove_at_after n h l X i :
  has_items n h l X -> 0 <= n -> list_after n (RemoveItem i) h l X (list_exec (RemoveItem i) l h).
Proof.
  intros Hl Hn. cbn [list_exec]. rewrite (list_count_spec n h l X Hl Hn). case_decide as Hi.
  - destruct (lookup_lt_is_Some_2 X i ltac:(lia)) as [x Hx]. rewrite (nth_item_spec n h l X i x Hl Hn Hx).
    destruct (objs_split h X i x Hx) as [Hlen _]. rewrite <- (take_drop_middle X i x Hx) in Hl.
    pose proof (remove_item_spec n h l _ x _ Hl) as Hr.
    pose proof (list_after_removed n (RemoveItem i) h l X _ _ CL_SUCCESS _ Hr) as H.
    destruct (cl_list_remove_item l x h) as [l' h']. apply H. cbn [effect]. rewrite decide_True by done.
    unfold objs. by rewrite delete_take_drop, fmap_app, fmap_take, fmap_drop.
  - apply list_after_same; [done|]. cbn [effect]. rewrite decide_False; [done|]. unfold objs. rewrite length_fmap. lia.
Qed.

Lemma head_filterb_in {T} (f : T -> bool) (L : list T) x : head (filterb f L) = Some x -> x ∈ L.
Proof. intros H. apply head_Some_elem_of in H. by apply elem_of_filterb in H as [_ H]. Qed.

Lemma object_after n h l X o (remove : bool) :
  has_items n h l X -> 0 <= n ->
  let op := if remove then RemoveObject o else IsIn o in
  list_after n op h l X (list_exec op l h).
Proof.
  intros Hl Hn op. pose proof (remove_first_split h o X) as Hsplit.
  assert (Hend := proj1 (proj2 (list_walk n h l X Hl Hn))).
  destruct remove; subst op; cbn [list_exec]; unfold cl_list_remove_object, cl_is_object_in_list;
    rewrite (find_object_spec n h l X o Hl Hn); cbn [mbind option_bind];
    destruct (head (filterb _ X)) as [x|] eqn:Hx; cbn [default].
  all: try (assert (Hne : x <> cl_qlist_end (ol_list l)) by (intros ->; by apply Hend, (head_filterb_in _ _ _ Hx))).
  - destruct Hsplit as (X1 & X2 & -> & Hr & Hin). rewrite decide_True by done.
    pose proof (remove_item_spec n h l X1 x X2 Hl) as Hrem. unfold cl_list_remove_item in Hrem.
    destruct (cl_qlist_remove_item _ _ _) as [lk q]. destruct (cl_qpool_put _ _ _) as [p h'].
    apply (list_after_removed n (RemoveObject o) h l _ X1 X2 CL_SUCCESS (ObjList q p, h') Hrem).
    cbn [effect]. by rewrite decide_True, Hr.
  - destruct Hsplit as [Hr Hin]. rewrite decide_False by (intros E; by apply E).
    apply list_after_same; [done|]. cbn [effect]. by rewrite decide_False, Hr.
  - destruct Hsplit as (X1 & X2 & -> & _ & Hin). apply list_after_same; [done|]. cbn [effect].
    by rewrite !bool_decide_true.
  - destruct Hsplit as [_ Hin]. apply list_after_same; [done|]. cbn [effect].
    rewrite !bool_decide_false; [done|done|]. intros E. by apply E.
Qed.

Lemma find_after n h l X f (from_head : bool) :
  has_items n h l X -> 0 <= n ->
  let op := if from_head then FindHead f else FindTail f in
  list_after n op h l X (list_exec op l h).
Proof.
  intros Hl Hn op. destruct (list_find_spec n h l X f Hl Hn) as [Hh Ht].
  assert (Hend := proj1 (proj2 (list_walk n h l X Hl Hn))).
  assert (Hfound : forall Y, (forall x, x ∈ Y -> x ∈ X) ->
    found_object l h (default (cl_list_end l) (head (filterb (fun x => bool_decide (f (h_object h x) = CL_SUCCESS)) Y))) =
    matching f (objs h Y)).
  { intros Y HY. unfold matching, found_object. rewrite filterb_objs.
    destruct (filterb _ Y) as [|x Z] eqn:Hx; cbn; [by rewrite decide_True|].
    rewrite decide_False; [done|]. intros ->. apply Hend, HY.
    apply (head_filterb_in (fun x => bool_decide (f (h_object h x) = CL_SUCCESS))). by rewrite Hx. }
  destruct from_head; subst op; cbn [list_exec].
  - rewrite Hh. cbn [mbind option_bind]. apply list_after_same; [done|]. cbn [effect]. by rewrite Hfound.
  - rewrite Ht. cbn [mbind option_bind]. apply list_after_same; [done|]. cbn [effect].
    rewrite Hfound by (intros x; by rewrite elem_of_reverse). unfold objs. by rewrite fmap_reverse.
Qed.

Lemma list_exec_spec n op h l X :
  has_items (n + insertions op) h l X -> 0 <= n -> op_ok op -> list_after n op h l X (list_exec op l h).
Proof.
  intros Hl Hn Hok. pose proof (insertions_nonneg op Hok) as Hi.
  assert (Hl0 : has_items n h l X) by (eapply has_items_le; [|exact Hl]; lia).
  destruct op as [o|o|i o|i o|p c s|p c s| | |i|o| |o|f|f|f ctx| |]; cbn [insertions op_ok] in *.
  - apply (list_after_inserted n _ h l [] X o); [|done|done]. by apply insert_items; [apply inserts_head|..].
  - rewrite <- (app_nil_r X) in Hl |- *.
    apply (list_after_inserted n _ h l X [] o); [|done|by rewrite app_nil_r]. by apply insert_items; [apply inserts_tail|..].
  - by apply (insert_near_after n h l X i o true).
  - by apply (insert_near_after n h l X i o false).
  - apply (list_after_array n _ h l X (array_items p s (Z.to_nat c)) true); [|cbn; lia|done].
    unfold cl_list_insert_array_head. rewrite (wrap_small 32 (c - 1)), wrap_small by lia.
    pose proof (insert_head_loop_spec n X s p (Z.to_nat c) (Z.to_nat c) [] l h eq_refl) as H.
    rewrite Z2Nat.id in H by lia. rewrite (Z.mul_comm s). specialize (H Hl Hn).
    destruct (insert_head_loop _ _ _ _ _ _) as [[st l'] h']. exact H.
  - apply (list_after_array n _ h l X (array_items p s (Z.to_nat c)) false); [|cbn; lia|done].
    unfold cl_list_insert_array_tail.
    pose proof (insert_tail_loop_spec n X s (Z.to_nat c) (Z.to_nat c) [] l p h eq_refl) as H.
    rewrite Z2Nat.id, app_nil_r in H by lia. specialize (H Hl Hn).
    destruct (insert_tail_loop _ _ _ _ _ _) as [[st l'] h']. exact H.
  - pose proof (remove_head_spec n h l X Hl0 Hn) as H. cbn [list_exec].
    destruct (cl_list_remove_head l h) as [[o l'] h']. destruct H as [-> Hr].
    apply (list_after_removed n _ h l X _ _ _ _ Hr). cbn [effect app]. by destruct X.
  - pose proof (remove_tail_spec n h l X Hl0 Hn) as H. cbn [list_exec].
    destruct (cl_list_remove_tail l h) as [[o l'] h']. destruct H as [-> Hr].
    apply (list_after_removed n _ h l X _ _ _ _ Hr). cbn [effect]. unfold objs.
    by rewrite app_nil_r, fmap_take, fmap_last, length_fmap.
  - by apply remove_at_after.
  - by apply (object_after n h l X o true).
  - pose proof (remove_all_spec n h l X Hl0 Hn) as Hr.
    pose proof (list_after_removed n RemoveAll h l X _ _ CL_SUCCESS _ Hr eq_refl) as H.
    cbn [list_exec]. by destruct (cl_list_remove_all l h) as [l' h'].
  - by apply (object_after n h l X o false).
  - by apply (find_after n h l X f true).
  - by apply (find_after n h l X f false).
  - cbn [list_exec]. rewrite (list_apply_spec n h l X f ctx Hl0 Hn). by apply list_after_same.
  - cbn [list_exec]. apply list_after_same; [done|]. rewrite (list_empty_test n h l X Hl0 Hn). cbn [effect].
    do 2 f_equal. apply bool_decide_ext. by destruct X.
  - cbn [list_exec]. apply list_after_same; [done|]. rewrite (list_count_spec n h l X Hl0 Hn). cbn [effect].
    unfold objs. by rewrite length_fmap.
Qed.

Lemma list_run_spec ops : forall h l X,
  has_items (total_insertions ops) h l X -> Forall op_ok ops ->
  exists rs l' h' X', list_run ops l h = Some (rs, l', h') /\ same_list l l' /\ has_items 0 h' l' X' /\
    list_steps ops (objs h X) rs (objs h' X').
Proof.
  induction ops as [|op ops IH]; intros h l X Hl Hok; cbn [list_run total_insertions foldr] in *.
  { exists [], l, h, X. by split_and!. }
  apply Forall_cons in Hok as [Hop Hok].
  assert (Hn : 0 <= total_insertions ops).
  { clear -Hok. unfold total_insertions. induction Hok as [|o os Ho _ IHo]; cbn [foldr]; [lia|].
    pose proof (insertions_nonneg o Ho). lia. }
  rewrite Z.add_comm in Hl.
  destruct (list_exec_spec (total_insertions ops) op h l X Hl Hn Hop) as (v & l1 & h1 & X1 & -> & Hs1 & Hl1 & Hst).
  cbn [mbind option_bind]. destruct (IH h1 l1 X1 Hl1 Hok) as (rs & l2 & h2 & X2 & -> & Hs2 & Hl2 & Hsts).
  cbn [mbind option_bind]. exists (v :: rs), l2, h2, X2. split; [done|]. split; [by eapply same_list_trans|].
  split; [done|]. by exists (objs h1 X1).
Qed.

(** ** Start and end *)

(** The structure the caller provides: the ends of its three lists, in memory in use. *)
Definition list_provided h l : Prop :=
  provided h (list_item_pool l) /\ owned (h_alloc h) (ql_end (ol_list l)) /\
  ql_end (ol_list l) ∉ [ql_end (free_list (list_item_pool l)); ql_end (alloc_list (list_item_pool l))].

Lemma list_init_spec h l min n :
  list_provided h l -> 0 <= min < 2 ^ 32 -> 0 <= n -> min + n * growth_of FREE_ITEM_GROW_SIZE min < 2 ^ 32 ->
  exists st l' h', cl_list_init l min h = Some (st, l', h') /\
    (st <> CL_SUCCESS -> cl_is_list_inited l' = false) /\
    (st = CL_SUCCESS -> exists F B, list_at h' l' [] F B /\ fits (list_item_pool l') B n /\ Z.of_nat (length F) = min).
Proof.
  intros (Hpr & Ho & He) Hmin Hn Hfit. unfold cl_list_init. rewrite (wrap_small 32 min) by lia.
  assert (Eg : (if decide (Z.shiftr min 3 < FREE_ITEM_GROW_SIZE) then FREE_ITEM_GROW_SIZE else Z.shiftr min 3) = growth_of FREE_ITEM_GROW_SIZE min).
  { unfold growth_of. case_decide; lia. }
  pose proof (qlist_init_spec (h_links h) (ol_list l)) as Hq.
  assert (Eq : ql_end (cl_qlist_init (h_links h) (ol_list l)).2 = ql_end (ol_list l)) by done.
  destruct (cl_qlist_init _ _) as [lk q]. destruct Hq as (Hq & _ & _). cbn in Eq. cbv zeta. rewrite Eg.
  pose proof (growth_of_bound FREE_ITEM_GROW_SIZE min ltac:(done) Hmin) as Hg.
  destruct (item_pool_init sizeof_pool_obj (list_item_pool l) (set_links h lk) min (growth_of FREE_ITEM_GROW_SIZE min) ltac:(done) eq_refl Hpr Hmin ltac:(lia))
    as (st & p' & h' & -> & Hbad & Hok). cbn [mbind option_bind].
  eexists st, _, h'. split; [done|]. split.
  - intros Hst. unfold cl_is_list_inited, cl_is_qpool_inited, cl_is_qcpool_inited. cbn. by rewrite (Hbad Hst).
  - intros Hst. destruct (Hok Hst) as (F & B & Hp & HF & Hip & Egr & HB & Hnum & _ & Hk). exists F, B. split; [|split; [|done]].
    + rewrite <- Eq in Ho, He. constructor; cbn [ol_list list_item_pool]; try done.
      * eapply ring_kept; [exact Hk| |exact Hq]. by intros z ->%list_elem_of_singleton.
      * by apply (proj2 Hk).
      * by apply (proj1 Hk).
    + unfold fits. cbn. rewrite Egr. nia.
Qed.

Lemma list_destroy_spec h l X : has_items 0 h l X ->
  exists l' h', cl_list_destroy l h = Some (l', h') /\ cl_is_list_inited l' = false.
Proof.
  intros (F & B & Hl & Hf). destruct (la_items _ _ _ _ _ Hl) as (_ & _ & _ & _ & Ed).
  destruct (pool_destroy_frees no_relation h (list_item_pool l) F X B (fun _ u => u) (la_pool _ _ _ _ _ Hl))
    as (p' & h' & Hrun & Hst & _); [unfold dtor_is; by rewrite Ed|unfold fits in Hf; lia|].
  unfold cl_list_destroy, cl_qpool_destroy. rewrite Hrun. eexists _, h'. split; [done|].
  unfold cl_is_list_inited, cl_is_qpool_inited, cl_is_qcpool_inited. cbn. by rewrite Hst.
Qed.
End Steps.

(** ** Properties *)

Section Properties.
Context {A U : Type} {AL : Allocator A} {LA : AllocatorLaws A}.
Implicit Types (h : heap A U) (l : cl_list_t A U).

(** Insertions at the ends while there are free items. *)
Definition end_insertion (op : list_op) : bool :=
  match op with InsertHead _ | InsertTail _ => true | _ => false end.

Lemma reserved_insertions ops : forall h l X F B,
  Forall (fun op => end_insertion op = true) ops -> list_at h l X F B -> (length ops <= length F)%nat ->
  fits (list_item_pool l) B (Z.of_nat (length ops)) ->
  exists l' h' X', list_run ops l h = Some (replicate (length ops) CL_SUCCESS, l', h') /\ has_items 0 h' l' X' /\
    objs h' X' = foldl (fun L op => (effect op L).2) (objs h X) ops.
Proof.
  induction ops as [|op ops IH]; intros h l X F B Hops Hl Hlen Hf; cbn [list_run length replicate foldl].
  { exists l, h, X. split; [done|]. split; [|done]. exists F, B. done. }
  apply Forall_cons in Hops as [Hop Hops]. destruct F as [|x F]; cbn [length] in *; [lia|].
  destruct (la_items _ _ _ _ _ Hl) as (_ & _ & Hg & _).
  assert (Hstep : exists l1 h1 X1 B1, list_exec op l h = Some (CL_SUCCESS, l1, h1) /\ same_list l l1 /\
    grown (list_item_pool l) B (list_item_pool l1) B1 /\ list_at h1 l1 X1 F B1 /\ objs h1 X1 = (effect op (objs h X)).2).
  { destruct op as [o|o| | | | | | | | | | | | | | |]; try done; cbn [list_exec effect snd].
    - destruct (insert_object_spec _ [] X h l (x :: F) B o (inserts_head X) Hl) as
        (st & l1 & h1 & F1 & B1 & Hrun & Hs & Hgr & Hobj & Hhd & Hcase); [unfold fits in *; nia|].
      destruct (Hhd x F eq_refl) as [-> ->]. destruct Hcase as [[? _]|[_ (y & H1 & Hy)]]; [done|].
      exists l1, h1, (y :: X), B1. unfold cl_list_insert_head. rewrite Hrun. split_and!; try done; try apply Hgr.
      unfold objs. cbn. rewrite Hy. f_equal. by apply objs_same.
    - rewrite <- (app_nil_r X) in Hl.
      destruct (insert_object_spec _ X [] h l (x :: F) B o (inserts_tail X) Hl) as
        (st & l1 & h1 & F1 & B1 & Hrun & Hs & Hgr & Hobj & Hhd & Hcase); [unfold fits in *; nia|].
      destruct (Hhd x F eq_refl) as [-> ->]. destruct Hcase as [[? _]|[_ (y & H1 & Hy)]]; [done|].
      exists l1, h1, (X ++ [y]), B1. unfold cl_list_insert_tail. rewrite Hrun. split_and!; try done; try apply Hgr.
      rewrite app_nil_r in Hobj. unfold objs. rewrite fmap_app. cbn. rewrite Hy. f_equal. by apply objs_same. }
  destruct Hstep as (l1 & h1 & X1 & B1 & -> & [_ (_ & _ & Eg & _)] & [Hn HB] & Hl1 & Ho1). cbn [mbind option_bind].
  destruct (IH h1 l1 X1 F B1 Hops Hl1) as (l2 & h2 & X2 & -> & Hl2 & Ho2); [lia|unfold fits in *; rewrite Eg; lia|].
  cbn [mbind option_bind]. exists l2, h2, X2. split; [done|]. split; [done|]. by rewrite Ho2, Ho1.
Qed.

(** C24. Initialisation, any sequence of calls, and destruction of a list of objects:
    every call has a result; it does to the sequence of objects, and returns,
    what its name says, or it is an insertion that reports that there is no memory
    and leaves the sequence as it was, for an array too. *)
Theorem list_run_refines h l min_items ops :
  list_provided h l -> 0 <= min_items < 2 ^ 32 -> Forall op_ok ops ->
  min_items + total_insertions ops * growth_of FREE_ITEM_GROW_SIZE min_items < 2 ^ 32 ->
  exists st l1 h1, cl_list_init l min_items h = Some (st, l1, h1) /\
    (st <> CL_SUCCESS -> cl_is_list_inited l1 = false) /\
    (st = CL_SUCCESS ->
       exists rs l2 h2 L l3 h3, list_run ops l1 h1 = Some (rs, l2, h2) /\ list_steps ops [] rs L /\
         cl_list_count l2 = Z.of_nat (length L) /\
         cl_list_destroy l2 h2 = Some (l3, h3) /\ cl_is_list_inited l3 = false).
Proof.
  intros Hpr Hmin Hok Hfit. pose proof (growth_of_bound FREE_ITEM_GROW_SIZE min_items ltac:(done) Hmin) as Hg.
  assert (Hn : 0 <= total_insertions ops).
  { clear -Hok. unfold total_insertions. induction Hok as [|o os Ho _ IHo]; cbn [foldr]; [lia|].
    pose proof (insertions_nonneg o Ho). lia. }
  destruct (list_init_spec h l min_items (total_insertions ops) Hpr Hmin Hn Hfit) as (st & l1 & h1 & Hrun & Hbad & Hgood).
  exists st, l1, h1. split; [done|]. split; [done|]. intros Hst. destruct (Hgood Hst) as (F & B & Hl1 & Hf & _).
  destruct (list_run_spec ops h1 l1 []) as (rs & l2 & h2 & X2 & Hrs & _ & Hl2 & Hsteps); [by exists F, B|done|].
  destruct (list_destroy_spec h2 l2 X2 Hl2) as (l3 & h3 & Hd & Hi).
  exists rs, l2, h2, (objs h2 X2), l3, h3. split_and!; try done.
  rewrite (list_count_spec 0 h2 l2 X2 Hl2) by done. unfold objs. by rewrite length_fmap.
Qed.

(** The items asked for at the initialisation are there: as many insertions at the
    ends of the list succeed, and the list then holds exactly the objects inserted. *)
Theorem list_init_reserves h l min_items ops :
  list_provided h l -> 0 <= min_items < 2 ^ 32 -> Forall (fun op => end_insertion op = true) ops ->
  Z.of_nat (length ops) <= min_items -> min_items + Z.of_nat (length ops) * growth_of FREE_ITEM_GROW_SIZE min_items < 2 ^ 32 ->
  exists st l1 h1, cl_list_init l min_items h = Some (st, l1, h1) /\
    (st = CL_SUCCESS ->
       exists l2 h2, list_run ops l1 h1 = Some (replicate (length ops) CL_SUCCESS, l2, h2) /\
         cl_list_apply_func l2 (fun o L => L ++ [o]) h2 [] = Some (foldl (fun L op => (effect op L).2) [] ops)).
Proof.
  intros Hpr Hmin Hops Hlen Hfit.
  destruct (list_init_spec h l min_items (Z.of_nat (length ops)) Hpr Hmin ltac:(lia) Hfit) as
    (st & l1 & h1 & Hrun & _ & Hgood).
  exists st, l1, h1. split; [done|]. intros Hst. destruct (Hgood Hst) as (F & B & Hl1 & Hf & HF).
  destruct (reserved_insertions ops h1 l1 [] F B Hops Hl1) as (l2 & h2 & X2 & Hrs & Hl2 & Ho); [lia|done|].
  exists l2, h2. split; [done|]. rewrite (list_apply_spec 0 h2 l2 X2) by done. cbn in Ho. rewrite <- Ho. f_equal.
  unfold objs. generalize (h_object h2 <$> X2) as L. intros L.
  assert (H : forall L0, foldl (fun c o => c ++ [o]) L0 L = L0 ++ L); [|apply (H [])].
  induction L as [|o L IH]; intros L0; cbn; [by rewrite app_nil_r|]. by rewrite IH, <- (assoc_L (++)).
Qed.
End Properties.

(** ** A concrete list *)

Definition demo_list : cl_list_t bump (list ptr) := ObjList (QList 300 0 CL_UNINITIALIZED) demo_struct.
Definition demo_ops : list list_op :=
  [InsertTail 7; InsertHead 5; InsertArrayTail 40 3 8; InsertPrev 1 6; RemoveObject 40; Count; RemoveHead;
   FindTail (fun o => if decide (o > 6) then CL_SUCCESS else CL_NOT_FOUND); RemoveItem 5; IsIn 40;
   Apply (fun o c => 100 * c + o) 0].

Lemma list_run_refines_witness :
  (r ← cl_list_init demo_list 1 demo_heap; fst <$> (fst <$> list_run demo_ops r.1.2 r.2)) =
    Some [0; 0; 0; 0; 0; 5; 5; 56; skipped; 0; 6074856] /\
  exists st l1 h1, cl_list_init demo_list 1 demo_heap = Some (st, l1, h1) /\
    (st <> CL_SUCCESS -> cl_is_list_inited l1 = false) /\
    (st = CL_SUCCESS ->
       exists rs l2 h2 L l3 h3, list_run demo_ops l1 h1 = Some (rs, l2, h2) /\ list_steps demo_ops [] rs L /\
         cl_list_count l2 = Z.of_nat (length L) /\
         cl_list_destroy l2 h2 = Some (l3, h3) /\ cl_is_list_inited l3 = false).
Proof.
  split; [vm_compute; reflexivity|].
  apply (list_run_refines demo_heap demo_list 1 demo_ops); [|lia| |vm_compute; reflexivity].
  - split; [|split; [vm_compute; reflexivity|vm_decide]]. split; [done|]. split; vm_compute; reflexivity.
  - repeat (apply Forall_cons; split; [cbn; lia|]). apply Forall_nil_2.
Defined.

Lemma list_init_reserves_witness :
  exists st l1 h1, cl_list_init demo_list 3 demo_heap = Some (st, l1, h1) /\
    (st = CL_SUCCESS ->
       exists l2 h2, list_run [InsertTail 7; InsertHead 5; InsertTail 7] l1 h1 = Some ([0; 0; 0], l2, h2) /\
         cl_list_apply_func l2 (fun o L => L ++ [o]) h2 [] = Some [5; 7; 7]).
Proof.
  apply (list_init_reserves demo_heap demo_list 3 [InsertTail 7; InsertHead 5; InsertTail 7]);
    [|lia|repeat constructor|done|vm_compute; reflexivity].
  split; [|split; [vm_compute; reflexivity|vm_decide]]. split; [done|]. split; vm_compute; reflexivity.
Defined.
