(* ===== verification/ObjMap.v ===== *)
(** * Maps of objects ([cl_map_*])

    A map of objects ([cl_map_t]) is a quick map whose items come from a pool of
    its own and hold a pointer to the caller's object.  The memory is that of the
    pool with the tree fields of the items as its user part; the links of an item
    serve the free list of the pool and the ordered list of the map in turn. *)

From S2P Require Import Prelude Qlist RbMap QMap Pool.

Local Open Scope Z_scope.
Local Open Scope list_scope.

Definition MAP_GROW_SIZE : Z := 32.

(** The size of [cl_map_obj_t]: the list item, three tree pointers, colour with
    padding, key and object pointer. *)
Definition sizeof_map_obj : Z := 64.

(** ** Memory *)

Record tree_fields := TreeFields {
  t_left : ptr -> ptr; t_right : ptr -> ptr; t_up : ptr -> ptr; t_color : ptr -> cl_map_color_t; t_key : ptr -> Z }.

Section Code.
Context {A : Type} {AL : Allocator A}.
Abbreviation heap := (heap A tree_fields).

(** The fields the quick map works on.  New items come out of a block that is
    cleared; of the tree fields nothing is read before the map has set it. *)
Definition items_of_heap (h : heap) : qmem :=
  Mem (h_links h) (t_left (h_user h)) (t_right (h_user h)) (t_up (h_user h)) (t_color (h_user h)) (t_key (h_user h)).

Definition set_items (h : heap) (m : qmem) : heap :=
  Heap (m_links m) (h_object h) (TreeFields (p_left m) (p_right m) (p_up m) (color m) (key m)) (h_alloc h).

Record cl_map_t := ObjMap { qmap : cl_qmap_t; pool : cl_qcpool_t A tree_fields }.

(** ** Operations *)

Definition cl_map_construct (m : cl_map_t) : cl_map_t := ObjMap (qmap m) (cl_qpool_construct (pool m)).
Definition cl_is_map_inited (m : cl_map_t) : bool := cl_is_qpool_inited (pool m).
Definition cl_map_count (m : cl_map_t) : Z := cl_qmap_count (qmap m).
Definition cl_is_map_empty (m : cl_map_t) : bool := cl_is_qmap_empty (qmap m).

Definition cl_map_init (m : cl_map_t) (min_items : Z) (h : heap) : option (cl_status_t * cl_map_t * heap) :=
  let '(items, q) := cl_qmap_init (items_of_heap h) (qmap m) in
  let h := set_items h items in
  let grow_size := Z.shiftr min_items 3 in
  let grow_size := if decide (grow_size < MAP_GROW_SIZE) then MAP_GROW_SIZE else grow_size in
  '(status, p, h) ← cl_qpool_init (pool m) min_items 0 grow_size sizeof_map_obj None None h;
  Some (status, ObjMap q p, h).

Definition cl_map_destroy (m : cl_map_t) (h : heap) : option (cl_map_t * heap) :=
  '(p, h) ← cl_qpool_destroy (pool m) h; Some (ObjMap (qmap m) p, h).

Definition cl_map_end (m : cl_map_t) : ptr := cl_qmap_end (qmap m).
Definition cl_map_head (m : cl_map_t) (h : heap) : ptr := cl_qmap_head (items_of_heap h) (qmap m).
Definition cl_map_tail (m : cl_map_t) (h : heap) : ptr := cl_qmap_tail (items_of_heap h) (qmap m).
Definition cl_map_next (h : heap) (itor : ptr) : ptr := cl_qmap_next (items_of_heap h) itor.
Definition cl_map_prev (h : heap) (itor : ptr) : ptr := cl_qmap_prev (items_of_heap h) itor.
Definition cl_map_key (h : heap) (itor : ptr) : Z := cl_qmap_key (items_of_heap h) itor.
Definition cl_map_obj (h : heap) (itor : ptr) : ptr := h_object h itor.

(** No result, here and below, stands for a loop that does not end. *)
Definition cl_map_insert (m : cl_map_t) (k : Z) (p_object : ptr) (h : heap) : option (ptr * cl_map_t * heap) :=
  let '(p_map_obj, p, h) := cl_qpool_get (pool m) h in
  if decide (p_map_obj = NULL) then Some (NULL, ObjMap (qmap m) p, h)
  else
    let h := set_object h p_map_obj p_object in
    '(p_obj_at_key, items, q) ← cl_qmap_insert Z.compare (items_of_heap h) (qmap m) k p_map_obj;
    let h := set_items h items in
    let '(p, h) := if decide (p_obj_at_key <> p_map_obj) then cl_qpool_put p p_map_obj h else (p, h) in
    Some (h_object h p_obj_at_key, ObjMap q p, h).

Definition cl_map_get (m : cl_map_t) (k : Z) (h : heap) : option ptr :=
  p_item ← cl_qmap_get Z.compare (items_of_heap h) (qmap m) k;
  Some (if decide (p_item = cl_qmap_end (qmap m)) then NULL else h_object h p_item).

Definition cl_map_get_next (m : cl_map_t) (k : Z) (h : heap) : option ptr :=
  p_item ← cl_qmap_get_next Z.compare (items_of_heap h) (qmap m) k;
  Some (if decide (p_item = cl_qmap_end (qmap m)) then NULL else h_object h p_item).

(** The two calls with which every removal takes an item out. *)
Definition take_item (m : cl_map_t) (p_item : ptr) (h : heap) : option (cl_map_t * heap) :=
  '(items, q) ← cl_qmap_remove_item (items_of_heap h) (qmap m) p_item;
  let '(p, h) := cl_qpool_put (pool m) p_item (set_items h items) in
  Some (ObjMap q p, h).

Definition cl_map_remove_item (m : cl_map_t) (itor : ptr) (h : heap) : option (cl_map_t * heap) :=
  if decide (itor = cl_map_end m) then Some (m, h) else take_item m itor h.

Definition cl_map_remove (m : cl_map_t) (k : Z) (h : heap) : option (ptr * cl_map_t * heap) :=
  '(p_item, items, q) ← cl_qmap_remove Z.compare (items_of_heap h) (qmap m) k;
  let h := set_items h items in
  if decide (p_item = cl_qmap_end q) then Some (NULL, ObjMap q (pool m), h)
  else
    let p_obj := h_object h p_item in
    let '(p, h) := cl_qpool_put (pool m) p_item h in
    Some (p_obj, ObjMap q p, h).

(** The items leave from the head and the tail in turn. *)
Fixpoint remove_all_loop (fuel : nat) (m : cl_map_t) (h : heap) : option (cl_map_t * heap) :=
  if cl_is_qmap_empty (qmap m) then Some (m, h)
  else
    match fuel with
    | O => None
    | S fuel =>
        '(m, h) ← take_item m (cl_qmap_head (items_of_heap h) (qmap m)) h;
        '(m, h) ← (if cl_is_qmap_empty (qmap m) then Some (m, h)
                   else take_item m (cl_qmap_tail (items_of_heap h) (qmap m)) h);
        remove_all_loop fuel m h
    end.

Definition cl_map_remove_all (m : cl_map_t) (h : heap) : option (cl_map_t * heap) :=
  remove_all_loop (map_fuel (qmap m)) m h.

(** ** Several maps *)

Fixpoint map_merge_loop (fuel : nat) (p_dest_map p_src_map : cl_map_t) (itor : ptr) (h : heap)
    : option (cl_status_t * cl_map_t * cl_map_t * heap) :=
  match fuel with
  | O => None
  | S fuel =>
      if decide (itor = cl_map_end p_src_map) then Some (CL_SUCCESS, p_dest_map, p_src_map, h)
      else
        let next := cl_map_next h itor in
        let p_obj := cl_map_obj h itor in
        let k := cl_map_key h itor in
        '(p_src_map, h) ← cl_map_remove_item p_src_map itor h;
        '(p_obj2, p_dest_map, h) ← cl_map_insert p_dest_map k p_obj h;
        if decide (p_obj <> p_obj2) then
          let status := if decide (p_obj2 = NULL) then CL_INSUFFICIENT_MEMORY else CL_SUCCESS in
          '(_, p_src_map, h) ← cl_map_insert p_src_map k p_obj h;
          if decide (status <> CL_SUCCESS) then Some (status, p_dest_map, p_src_map, h)
          else map_merge_loop fuel p_dest_map p_src_map next h
        else map_merge_loop fuel p_dest_map p_src_map next h
  end.

Definition cl_map_merge (p_dest_map p_src_map : cl_map_t) (h : heap) :=
  map_merge_loop (map_fuel (qmap p_src_map)) p_dest_map p_src_map (cl_map_head p_src_map h) h.

(** The four maps of [cl_map_delta]. *)
Record four_maps := FourMaps { p_map1 : cl_map_t; p_map2 : cl_map_t; p_new : cl_map_t; p_old : cl_map_t }.

Definition __cl_map_revert (ms : four_maps) (h : heap) : option (four_maps * heap) :=
  '(_, map1, old, h) ← cl_map_merge (p_map1 ms) (p_old ms) h;
  '(_, map2, new, h) ← cl_map_merge (p_map2 ms) (p_new ms) h;
  Some (FourMaps map1 map2 new old, h).

(** The status, the two maps, the iterator for the next item, the memory. *)
Definition __cl_map_delta_move (p_dest p_src : cl_map_t) (itor : ptr) (h : heap)
    : option (cl_status_t * cl_map_t * cl_map_t * ptr * heap) :=
  let next := cl_map_next h itor in
  let p_obj := cl_map_obj h itor in
  let k := cl_map_key h itor in
  '(p_src, h) ← cl_map_remove_item p_src itor h;
  '(p_obj2, p_dest, h) ← cl_map_insert p_dest k p_obj h;
  if decide (p_obj2 = NULL) then
    '(_, p_src, h) ← cl_map_insert p_src k p_obj h;
    Some (CL_INSUFFICIENT_MEMORY, p_dest, p_src, itor, h)
  else Some (CL_SUCCESS, p_dest, p_src, next, h).

(** An item of the first map goes to the old ones, of the second to the new ones;
    after a failure all moves are undone. *)
Definition move_old (ms : four_maps) (itor1 : ptr) (h : heap) : option (cl_status_t * four_maps * ptr * heap) :=
  '(status, old, map1, itor1, h) ← __cl_map_delta_move (p_old ms) (p_map1 ms) itor1 h;
  let ms := FourMaps map1 (p_map2 ms) (p_new ms) old in
  if decide (status <> CL_SUCCESS) then '(ms, h) ← __cl_map_revert ms h; Some (status, ms, itor1, h)
  else Some (status, ms, itor1, h).

Definition move_new (ms : four_maps) (itor2 : ptr) (h : heap) : option (cl_status_t * four_maps * ptr * heap) :=
  '(status, new, map2, itor2, h) ← __cl_map_delta_move (p_new ms) (p_map2 ms) itor2 h;
  let ms := FourMaps (p_map1 ms) map2 new (p_old ms) in
  if decide (status <> CL_SUCCESS) then '(ms, h) ← __cl_map_revert ms h; Some (status, ms, itor2, h)
  else Some (status, ms, itor2, h).

(** The remainder of one of the maps; [move] stops with its own status. *)
Fixpoint move_rest (move : four_maps -> ptr -> heap -> option (cl_status_t * four_maps * ptr * heap))
    (p_end : ptr) (fuel : nat) (ms : four_maps) (itor : ptr) (h : heap) : option (cl_status_t * four_maps * heap) :=
  match fuel with
  | O => None
  | S fuel =>
      if decide (itor = p_end) then Some (CL_SUCCESS, ms, h)
      else
        '(status, ms, itor, h) ← move ms itor h;
        if decide (status <> CL_SUCCESS) then Some (status, ms, h) else move_rest move p_end fuel ms itor h
  end.

Definition move_rests (ms : four_maps) (itor1 itor2 : ptr) (h : heap) : option (cl_status_t * four_maps * heap) :=
  '(status, ms, h) ← move_rest move_new (cl_map_end (p_map2 ms)) (map_fuel (qmap (p_map2 ms))) ms itor2 h;
  if decide (status <> CL_SUCCESS) then Some (status, ms, h)
  else move_rest move_old (cl_map_end (p_map1 ms)) (map_fuel (qmap (p_map1 ms))) ms itor1 h.

(** Both maps are walked by increasing key. *)
Fixpoint map_delta_loop (fuel : nat) (ms : four_maps) (itor1 itor2 : ptr) (h : heap)
    : option (cl_status_t * four_maps * heap) :=
  match fuel with
  | O => None
  | S fuel =>
      if decide (itor1 <> cl_map_end (p_map1 ms) /\ itor2 <> cl_map_end (p_map2 ms)) then
        let key1 := cl_map_key h itor1 in
        let key2 := cl_map_key h itor2 in
        if decide (key1 < key2) then
          '(status, ms, itor1, h) ← move_old ms itor1 h;
          if decide (status <> CL_SUCCESS) then Some (status, ms, h) else map_delta_loop fuel ms itor1 itor2 h
        else if decide (key1 > key2) then
          '(status, ms, itor2, h) ← move_new ms itor2 h;
          if decide (status <> CL_SUCCESS) then Some (status, ms, h) else map_delta_loop fuel ms itor1 itor2 h
        else map_delta_loop fuel ms (cl_map_next h itor1) (cl_map_next h itor2) h
      else move_rests ms itor1 itor2 h
  end.

Definition cl_map_delta (ms : four_maps) (h : heap) : option (cl_status_t * four_maps * heap) :=
  map_delta_loop (map_fuel (qmap (p_map1 ms)) + map_fuel (qmap (p_map2 ms))) ms
    (cl_map_head (p_map1 ms) h) (cl_map_head (p_map2 ms) h) h.
End Code.
Arguments cl_map_t : clear implicits.
Arguments four_maps : clear implicits.
