(* ===== verification/ObjMapSpec.v ===== *)
(** * Maps of objects: what the operations do

    A map of objects stands for the list of its entries in key order, each an item
    and its key; the object of an entry is what the item holds.  Several maps share
    the memory and the allocator, so each operation is also shown to leave alone
    what is in use and not its map's own. *)

From S2P Require Import Prelude Qlist RbMap RbTree MapSpec MapRemove MapOps QMap Pool ObjPool ObjMap.

Local Open Scope Z_scope.
Local Open Scope list_scope.

Section Invariant.
Context {A : Type} {AL : Allocator A} {LA : AllocatorLaws A}.
Abbreviation heap := (heap A tree_fields).
Implicit Types (h : heap) (m : cl_map_t A) (E : list (ptr * Z)) (F B S : list ptr).

(** The addresses of a map: its two sentinels, and its pool's with all items. *)
Definition map_area m E F B : list ptr :=
  qm_root (qmap m) :: qm_nil (qmap m) :: pool_addrs (pool m) F E.*1 B.

Record omap_at h m E F B : Prop := OmapAt {
  om_pool : pool_at no_relation h (pool m) F E.*1 B;
  om_map : qmap_at (items_of_heap h) (qmap m) E;
  om_nodup : NoDup (map_area m E F B);
  om_owned : forall q, q ∈ map_area m E F B -> owned (h_alloc h) q;
  om_items : item_pool sizeof_map_obj (pool m) }.

(** Where the map structure is, and the settings of its pool. *)
Definition same_omap m m' : Prop := same_map (qmap m) (qmap m') /\ same_pool (pool m) (pool m').

#[export] Instance same_omap_preorder : PreOrder same_omap.
Proof.
  split; [by split|]. intros m1 m2 m3 [[E1 E2] H1] [[E3 E4] H2].
  split; [split; congruence|by etrans].
Qed.

(** All fields at an address. *)
Definition same_fields h h' (q : ptr) : Prop :=
  same_at h h' q /\ same_item (items_of_heap h) (items_of_heap h') q.

Definition keeps_rest h h' S S' : Prop :=
  (forall q, owned (h_alloc h) q -> owned (h_alloc h') q) /\
  (forall q, owned (h_alloc h) q -> q ∉ S -> q ∉ S' /\ same_fields h h' q).

Lemma same_fields_trans h1 h2 h3 q : same_fields h1 h2 q -> same_fields h2 h3 q -> same_fields h1 h3 q.
Proof. intros [H1 H2] [H3 H4]. split; [by eapply same_at_trans|by eapply same_item_trans]. Qed.

Lemma keeps_rest_trans h1 h2 h3 S1 S2 S3 :
  keeps_rest h1 h2 S1 S2 -> keeps_rest h2 h3 S2 S3 -> keeps_rest h1 h3 S1 S3.
Proof.
  intros [Ho1 Hk1] [Ho2 Hk2]. split; [by auto|]. intros q Hq HS. destruct (Hk1 q Hq HS) as [HS2 H12].
  destruct (Hk2 q (Ho1 q Hq) HS2) as [HS3 H23]. split; [done|by eapply same_fields_trans].
Qed.

Lemma keeps_rest_refl h S : keeps_rest h h S S.
Proof. by split. Qed.

(** The addresses outside which an operation leaves all alone may be more. *)
Lemma keeps_rest_mono h h' S1 S1' S2 S2' :
  keeps_rest h h' S1 S1' -> S1 ⊆ S2 -> (forall q, q ∈ S2' -> q ∈ S1' \/ q ∈ S2) -> keeps_rest h h' S2 S2'.
Proof.
  intros [Ho Hk] H1 H2. split; [done|]. intros q Hq HS. destruct (Hk q Hq) as [Hq' Hs]; [by intros ?%H1|].
  split; [|done]. intros ?%H2. tauto.
Qed.

Lemma same_fields_user h h' q : h_user h' = h_user h -> same_at h h' q -> same_fields h h' q.
Proof. intros E Hs. split; [done|]. unfold same_item, items_of_heap. cbn. by rewrite E. Qed.

(** The quick map depends on the fields of its own items. *)
Lemma map_at_fields h h' map E :
  (forall q, q ∈ MapSpec.owned map E -> same_fields h h' q) ->
  qmap_at (items_of_heap h) map E -> qmap_at (items_of_heap h') map E.
Proof.
  intros Hq (T & n & Hpos & HE & Hrb & Hs & Hr & Hc & Hl). unfold MapSpec.owned in Hq. exists T, n. split_and!; try done.
  - eapply (pos_frame Z.compare); [|exact Hpos]. intros x Hx. apply Hq.
    change (zelems [] T) with (elems T ++ []) in Hx. rewrite app_nil_r, HE in Hx. set_solver.
  - destruct Hr as [Hr Hnr]. split; [|done].
    eapply seg_frame; [..|exact Hr]; intros z Hz; destruct (Hq z) as ((E1 & E2 & _) & _); (done || set_solver).
Qed.

(** A map outside an operation's reach stays as it is. *)
Lemma omap_kept h h' S S' m E F B :
  keeps_rest h h' S S' -> (forall q, q ∈ map_area m E F B -> q ∉ S) -> omap_at h m E F B ->
  omap_at h' m E F B /\ (forall q, q ∈ map_area m E F B -> q ∉ S' /\ same_fields h h' q).
Proof.
  intros [Ho Hk] Hout [Hp Hm Hnd Hown Hip].
  assert (Hq : forall q, q ∈ map_area m E F B -> q ∉ S' /\ same_fields h h' q) by auto.
  split; [|done]. unfold map_area, pool_addrs in *. destruct Hp as [? Hf Ha ? Hpo Hnull ? ? ? ?]. constructor; try done.
  - constructor; try done.
    + eapply qlist_same; [|exact Hf]. intros z Hz. destruct (Hq z) as (_ & (E1 & E2 & _) & _); [set_solver|done].
    + eapply qlist_same; [|exact Ha]. intros z Hz. destruct (Hq z) as (_ & (E1 & E2 & _) & _); [set_solver|done].
    + intros q Hq'. apply Ho. by apply Hpo.
  - eapply map_at_fields; [|exact Hm]. unfold MapSpec.owned. intros q Hin. apply Hq. set_solver.
  - intros q Hq'. by apply Ho, Hown.
Qed.

(** ** Changes of the items *)

Lemma items_of_set h (mm : qmem) : items_of_heap (set_items h mm) = mm.
Proof. by destruct mm. Qed.

Lemma pool_at_items h p F O B (mm : qmem) (W : list ptr) :
  pool_at no_relation h p F O B -> same_off W (h_links h) (m_links mm) ->
  (forall q, q ∈ W -> q ∉ pool_addrs p F [] B) -> pool_at no_relation (set_items h mm) p F O B.
Proof. intros Hp Hoff HW. destruct (pool_at_links h p F O B (m_links mm) W Hp Hoff HW). by constructor. Qed.

(** What a change of the map alone leaves. *)
Lemma mkeeps_fields h (mm : qmem) W q : mkeeps W (items_of_heap h) mm -> q ∉ W -> same_fields h (set_items h mm) q.
Proof.
  intros [H1 H2] Hq. split; [|rewrite items_of_set; by apply H1].
  destruct (H2 q Hq) as [E1 E2]. by split_and!.
Qed.

(** The sentinels and items are not the pool's own. *)
Lemma omap_apart h m E F B q :
  omap_at h m E F B -> q ∈ MapSpec.owned (qmap m) E -> q ∉ pool_addrs (pool m) F [] B.
Proof.
  intros [_ _ Hnd _ _]. unfold MapSpec.owned, map_area, pool_addrs in *.
  generalize dependent E.*1. intros l Hnd Hq. nodup_simpl. elem_simpl.
  destruct Hq as [->|[->|Hq]]; ne_solve.
Qed.

(** An item that has left the map goes back to the pool. *)
Lemma give_back h q p X1 x X2 E F B :
  E.*1 = X1 ++ X2 -> pool_at no_relation h p F (X1 ++ x :: X2) B -> qmap_at (items_of_heap h) q E ->
  item_pool sizeof_map_obj p -> NoDup (qm_root q :: qm_nil q :: pool_addrs p F (X1 ++ x :: X2) B) ->
  (forall z, z ∈ [qm_root q; qm_nil q] -> owned (h_alloc h) z) ->
  let '(p', h') := cl_qpool_put p x h in
  omap_at h' (ObjMap q p') E (x :: F) B /\ same_pool p p' /\ num_objects p' = num_objects p /\
  h_object h' = h_object h /\ h_user h' = h_user h /\
  keeps_rest h h' (pool_addrs p F [x] B) (pool_addrs p' (x :: F) [] B).
Proof.
  intros EX Hp Hm Hip Hnd Hown. unfold cl_qpool_put.
  pose proof (pool_put_spec _ _ _ F X1 x X2 B Hp) as H.
  assert (Hu : h_user (cl_qcpool_put p x h).2 = h_user h) by (unfold cl_qcpool_put; by destruct (cl_qlist_insert_head _ _ _)).
  destruct (cl_qcpool_put p x h) as [p' h']. destruct H as (Hp' & Hs & Hn & Ha & Hobj & [Hk1 Hk2]). cbn in Hu.
  assert (Hk : keeps_rest h h' (pool_addrs p F [x] B) (pool_addrs p' (x :: F) [] B)).
  { split; [done|]. intros z Hz Hout. destruct (Hk2 z Hz Hout) as [Hz' Hsz]. split; [done|by apply same_fields_user]. }
  assert (HP : pool_addrs p' (x :: F) E.*1 B ≡ₚ pool_addrs p F (X1 ++ x :: X2) B).
  { destruct Hs as (_ & _ & _ & _ & _ & _ & _ & Ef & Eal). unfold pool_addrs. rewrite EX, Ef, Eal. solve_Permutation. }
  split; [|done]. constructor; cbn [qmap pool map_area]; unfold map_area; cbn [qmap pool]; rewrite ?HP, ?Ha; try done.
  - by rewrite EX.
  - eapply map_at_fields; [|exact Hm]. intros z Hz.
    assert (Hz' : z ∈ qm_root q :: qm_nil q :: X1 ++ X2) by (unfold MapSpec.owned in Hz; by rewrite EX in Hz).
    apply Hk; unfold pool_addrs in *.
    + destruct (decide (z ∈ [qm_root q; qm_nil q])) as [Hin|Hin]; [by apply Hown|].
      apply (pl_owned _ _ _ _ _ _ Hp). unfold pool_addrs. set_solver.
    + nodup_simpl. elem_simpl. destruct Hz' as [->|[->|[Hz'|Hz']]]; ne_solve.
  - intros z. rewrite HP. intros [->|[->|Hz]%elem_of_cons]%elem_of_cons; [apply Hown; set_solver..|].
    by apply (pl_owned _ _ _ _ _ _ Hp).
  - by apply (item_pool_same _ _ _ Hs).
Qed.

(** *** Taking an item out *)

Lemma take_item_spec h m E1 x k E2 F B :
  omap_at h m (E1 ++ (x, k) :: E2) F B ->
  exists m' h', take_item m x h = Some (m', h') /\ omap_at h' m' (E1 ++ E2) (x :: F) B /\ same_omap m m' /\
    num_objects (pool m') = num_objects (pool m) /\ h_object h' = h_object h /\
    t_key (h_user h') = t_key (h_user h) /\
    keeps_rest h h' (map_area m (E1 ++ (x, k) :: E2) F B) (map_area m' (E1 ++ E2) (x :: F) B).
Proof.
  intros Hom. pose proof Hom as [Hp Hm Hnd Hown Hip]. unfold take_item.
  destruct (map_remove_item_spec Z.compare _ _ E1 x k E2 Hm) as (mm & q & -> & (Er & En & _ & Hm' & Hk & Hky)).
  cbn [mbind option_bind]. pose proof (fun z => mkeeps_fields h mm _ z Hk) as Hfields.
  pose proof (pool_at_items h _ _ _ _ mm _ Hp (proj2 Hk) (fun z => omap_apart h m _ F B z Hom)) as Hp1.
  unfold map_area in Hnd, Hown. rewrite fmap_app, fmap_cons in Hp1, Hnd, Hown. cbn [fst] in *.
  pose proof (give_back (set_items h mm) q (pool m) E1.*1 x E2.*1 (E1 ++ E2) F B (fmap_app _ _ _) Hp1) as H.
  rewrite items_of_set, Er, En in H.
  destruct (cl_qpool_put (pool m) x (set_items h mm)) as [p' h'].
  destruct H as (Hom' & Hs & Hn & Hobj & Hu & Hkeep); try done.
  { intros z Hz. apply Hown. set_solver. }
  eexists _, h'. split; [done|]. split; [done|]. split; [by split|]. split; [done|]. split; [done|].
  split; [by rewrite Hu; cbn; rewrite Hky|].
  apply (keeps_rest_trans _ (set_items h mm) _ _ (map_area m (E1 ++ (x, k) :: E2) F B)).
  - split; [done|]. intros z Hz Hout. split; [done|]. apply Hfields. intros Hin. apply Hout.
    unfold MapSpec.owned, map_area, pool_addrs in *. set_solver.
  - eapply keeps_rest_mono; [exact Hkeep| |]; unfold map_area, pool_addrs; cbn [qmap pool];
      rewrite !fmap_app, ?fmap_cons; cbn [fst]; rewrite ?Er, ?En; set_solver.
Qed.

(** *** Putting one in *)

Lemma entry_add_perm x k E : entry_find k E = None -> (entry_add x k E).*1 ≡ₚ x :: E.*1.
Proof.
  unfold entry_find, entry_add. induction E as [|[y k'] E IH]; intros Hn; cbn; [done|].
  unfold lookup_key in Hn. rewrite filterb_cons in Hn. cbn [snd] in Hn.
  destruct (k ?= k') eqn:Ek; [by rewrite bool_decide_true in Hn|done|].
  rewrite bool_decide_false in Hn by done. rewrite fmap_cons, (IH Hn). cbn [fst]. apply perm_swap.
Qed.

(** A new item from the pool: the map is as before, and the item is not part of it. *)
Lemma get_item_spec h m E F B :
  omap_at h m E F B -> (F = [] -> fits (pool m) B 1) ->
  exists x p h1 F1 B1, cl_qpool_get (pool m) h = (x, p, h1) /\ same_pool (pool m) p /\
    grown (pool m) B p B1 /\ h_user h1 = h_user h /\ qmap_at (items_of_heap h1) (qmap m) E /\
    item_pool sizeof_map_obj p /\ (forall z, z ∈ MapSpec.owned (qmap m) E -> owned (h_alloc h1) z /\ h_object h1 z = h_object h z) /\
    (forall x0 F0, F = x0 :: F0 -> x = x0 /\ F1 = F0 /\ num_objects p = num_objects (pool m) /\ B1 = B) /\
    exists O, O = (if decide (x = NULL) then [] else [x]) /\ (x = NULL -> F = [] /\ F1 = []) /\
      pool_at no_relation h1 p F1 (O ++ E.*1) B1 /\
      keeps_rest h h1 (pool_addrs (pool m) F [] B) (pool_addrs p F1 O B1) /\
      NoDup (qm_root (qmap m) :: qm_nil (qmap m) :: pool_addrs p F1 (O ++ E.*1) B1).
Proof.
  intros Hom Hf. pose proof Hom as [Hp Hm Hnd Hown Hip].
  destruct (item_get_spec _ h _ F E.*1 B Hip ltac:(done) Hf Hp) as
    (x & p & h1 & F1 & B1 & Hrun & Hs & Hip1 & Hu & Hg & Hcase & Hhd). rewrite Hrun.
  assert (exists O F2, F2 = (if decide (x = NULL) then [] else F1) /\ O = (if decide (x = NULL) then [] else [x]) /\ (x = NULL -> F = [] /\ F2 = []) /\
    pool_at no_relation h1 p F2 (O ++ E.*1) B1 /\ kept h h1 (pool_addrs (pool m) F [] B) (pool_addrs p F2 O B1))
    as (O & F2 & EF2 & EO & HNULL & Hp1 & Hk).
  { destruct Hcase as [(Hx & _ & Hp1 & Hk)|(-> & -> & Hp1 & Hk)].
    - exists [x], F1. rewrite !decide_False by done. by split_and!.
    - exists [], []. by rewrite !decide_True. }
  exists x, p, h1, F2, B1. do 4 (split; [done|]).
  assert (Hz : forall z, z ∈ MapSpec.owned (qmap m) E ->
    owned (h_alloc h) z /\ z ∉ pool_addrs p F2 O B1 /\ same_at h h1 z).
  { intros z Hz. assert (Ho : owned (h_alloc h) z).
    { apply Hown. unfold map_area, pool_addrs, MapSpec.owned in *. set_solver. }
    split; [done|]. apply (proj2 Hk); [done|]. by eapply omap_apart. }
  split; [eapply map_at_fields; [|exact Hm]; intros z Hin; apply same_fields_user; [done|]; by apply Hz|].
  split; [done|].
  split. { intros z Hin. destruct (Hz z Hin) as (H1 & _ & _ & _ & H2). split; [by apply Hk|done]. }
  split. { intros x0 F0 EF. destruct (Hhd x0 F0 EF) as (Ex & EF1 & Hb). split; [done|]. split; [|done]. rewrite EF2.
    destruct (decide (x = NULL)) as [Ex0|]; [|done]. destruct (HNULL Ex0) as [? _]. congruence. }
  exists O. split; [done|]. split; [done|]. split; [done|]. split.
  { split; [apply Hk|]. intros z Hz1 Hz2. destruct (proj2 Hk z Hz1 Hz2) as [Hz3 Hz4]. split; [done|by apply same_fields_user]. }
  pose proof (map_at_NoDup _ _ _ _ Hm) as Hndm. pose proof (pl_nodup _ _ _ _ _ _ Hp1) as Hnd1.
  unfold map_area, MapSpec.owned, pool_addrs in *. apply NoDup_cons in Hndm as [Hr Hndm]. apply NoDup_cons in Hndm as [Hnl _].
  destruct (Hz (qm_root (qmap m))) as (_ & Hz1 & _); [set_solver|].
  destruct (Hz (qm_nil (qmap m))) as (_ & Hz2 & _); [set_solver|].
  apply NoDup_cons. split; [set_solver|]. apply NoDup_cons. split; [set_solver|done].
Qed.

(** What an insertion does to the entries [E], giving [E'], and returns. *)
Definition insert_result h h' E F (k : Z) (o v : ptr) E' F' : Prop :=
  (v = NULL /\ F = [] /\ E' = E) \/
  match entry_find k E with
  | Some y => v = h_object h y /\ E' = E /\ (F <> [] -> F' = F)
  | None => v = o /\ (forall x0 F0, F = x0 :: F0 -> F' = F0) /\
      exists x, x ∉ E.*1 /\ h_object h' x = o /\ E' = entry_add x k E
  end.

Lemma omap_short h m E F B : omap_at h m E F B -> Z.of_nat (length F) + Z.of_nat (length E) < 2 ^ 32.
Proof. intros [[] _ _ _ _]. rewrite length_fmap in *. lia. Qed.

(** The new item is in the map. *)
Lemma insert_new h q p x k E F B :
  entry_find k E = None -> pool_at no_relation h p F (x :: E.*1) B ->
  qmap_at (items_of_heap h) q (entry_add x k E) -> item_pool sizeof_map_obj p ->
  NoDup (qm_root q :: qm_nil q :: pool_addrs p F (x :: E.*1) B) ->
  (forall z, z ∈ [qm_root q; qm_nil q] -> owned (h_alloc h) z) ->
  omap_at h (ObjMap q p) (entry_add x k E) F B.
Proof.
  intros Hk Hp Hm Hip Hnd Hown. pose proof (entry_add_perm x k E Hk) as HX.
  assert (HP : map_area (ObjMap q p) (entry_add x k E) F B ≡ₚ qm_root q :: qm_nil q :: pool_addrs p F (x :: E.*1) B).
  { unfold map_area, pool_addrs. cbn [qmap pool]. by rewrite HX. }
  constructor; cbn [qmap pool]; rewrite ?HP; try done.
  - by eapply pool_at_perm; [symmetry|].
  - intros z. rewrite HP. intros [->|[->|Hz]%elem_of_cons]%elem_of_cons; [apply Hown; set_solver..|].
    by apply (pl_owned _ _ _ _ _ _ Hp).
Qed.

Lemma omap_insert_spec h m k o E F B :
  omap_at h m E F B -> (F = [] -> fits (pool m) B 1) ->
  exists v m' h' E' F' B', cl_map_insert m k o h = Some (v, m', h') /\ omap_at h' m' E' F' B' /\
    same_omap m m' /\ grown (pool m) B (pool m') B' /\ (forall y, y ∈ E.*1 -> h_object h' y = h_object h y) /\
    (F <> [] -> num_objects (pool m') = num_objects (pool m) /\ B' = B) /\
    insert_result h h' E F k o v E' F' /\ keeps_rest h h' (map_area m E F B) (map_area m' E' F' B').
Proof.
  intros Hom Hf. pose proof (omap_short _ _ _ _ _ Hom) as Hshort. unfold cl_map_insert, insert_result.
  destruct (get_item_spec h m E F B Hom Hf) as
    (x & p & h1 & F1 & B1 & -> & Hs & Hgr & Hu & Hm1 & Hip & Hz & Hhd & O & -> & HNULL & Hp1 & Hk1 & Hnd1).
  assert (Hends : forall z, z ∈ [qm_root (qmap m); qm_nil (qmap m)] -> owned (h_alloc h1) z).
  { intros z Hin. apply Hz. unfold MapSpec.owned. set_solver. }
  assert (Hobj1 : forall y, y ∈ E.*1 -> h_object h1 y = h_object h y).
  { intros y Hy. apply Hz. unfold MapSpec.owned. set_solver. }
  destruct (decide (x = NULL)) as [->|Hx].
  { destruct (HNULL eq_refl) as [-> ->]. exists NULL, (ObjMap (qmap m) p), h1, E, [], B1.
    split; [done|]. split; [|split; [by split|split; [done|split; [done|split; [done|split; [by left|]]]]]].
    - constructor; try done. intros z. unfold map_area. cbn [qmap pool].
      intros [->|[->|Hin]%elem_of_cons]%elem_of_cons; [apply Hends; set_solver..|]. by apply (pl_owned _ _ _ _ _ _ Hp1).
    - eapply keeps_rest_mono; [exact Hk1| |]; unfold map_area, pool_addrs; cbn [qmap pool]; set_solver. }
  cbn [app] in Hp1, Hnd1. set (h2 := set_object h1 x o).
  assert (HxE : x ∉ MapSpec.owned (qmap m) E).
  { unfold MapSpec.owned, pool_addrs in *. nodup_simpl. ne_solve. }
  destruct (map_insert_entries Z.compare (items_of_heap h2) (qmap m) E k x Hm1 HxE ltac:(lia)) as
    (mm & q & -> & Hm3 & Hkeep & _ & Er & En). cbn [mbind option_bind].
  fold (entry_find k E) (entry_add x k E) in *.
  assert (Hp3 : pool_at no_relation (set_items h2 mm) p F1 (x :: E.*1) B1).
  { eapply (pool_at_items h2); [by apply pool_at_object|apply Hkeep|].
    intros z Hz1. unfold MapSpec.owned, pool_addrs in *. clear -Hz1 Hnd1. set (l := E.*1) in *. clearbody l. nodup_simpl. elem_simpl.
    destruct Hz1 as [->|[->|[->|Hz1]]]; ne_solve. }
  assert (Hk3 : keeps_rest h (set_items h2 mm) (map_area m E F B)
    (qm_root (qmap m) :: qm_nil (qmap m) :: pool_addrs p F1 (x :: E.*1) B1)).
  { eapply keeps_rest_trans.
    - eapply (keeps_rest_mono _ _ _ _ (map_area m E F B)
        (qm_root (qmap m) :: qm_nil (qmap m) :: pool_addrs p F1 (x :: E.*1) B1)); [exact Hk1| |];
        unfold map_area, pool_addrs; cbn [qmap pool]; set_solver.
    - split; [done|]. intros z _ Hout. split; [done|].
      assert (Hzx : z <> x) by (unfold pool_addrs in Hout; set_solver).
      destruct (mkeeps_fields h2 mm _ z Hkeep) as [(E1 & E2 & E3) Hit].
      { unfold MapSpec.owned, pool_addrs in *. set_solver. }
      split; [|done]. split; [done|]. split; [done|]. rewrite E3. cbn. by rewrite upd_ne. }
  assert (Hobj3 : forall y, y ∈ E.*1 -> h_object (set_items h2 mm) y = h_object h y).
  { intros y Hy. cbn. rewrite upd_ne; [by apply Hobj1|]. intros ->. unfold MapSpec.owned in HxE. set_solver. }
  destruct (entry_find k E) as [y|] eqn:Hfind; cbn [default from_option id].
  - assert (Hy : y ∈ E.*1) by (apply entry_find_some in Hfind as (E1 & E2 & ->); rewrite fmap_app; set_solver).
    rewrite decide_True by (intros ->; unfold MapSpec.owned in HxE; set_solver).
    assert (EE : entry_add x k E = E).
    { unfold entry_add. apply (entry_insert_old Z.compare); [by eapply map_at_sorted|].
      rewrite (has_key_lookup Z.compare). apply bool_decide_true. change (is_Some (entry_find k E)). rewrite Hfind. eauto. }
    rewrite EE in Hm3.
    pose proof (give_back (set_items h2 mm) q p [] x E.*1 E F1 B1 eq_refl Hp3) as H. rewrite items_of_set, Er, En in H.
    destruct (cl_qpool_put p x (set_items h2 mm)) as [p' h'].
    destruct H as (Hom' & Hs' & Hn' & Hobj' & _ & Hk'); try done.
    exists (h_object h' y), (ObjMap q p'), h', E, (x :: F1), B1. split; [done|]. split; [done|].
    split; [split; [done|by etrans]|]. split; [by unfold grown in *; cbn [pool]; rewrite Hn'|].
    split; [intros z Hz'; by rewrite Hobj', Hobj3|].
    split; [by intros HF; cbn [pool]; rewrite Hn'; destruct F as [|x0 F0]; [|destruct (Hhd x0 F0 eq_refl) as (_ & _ & ?)]|]. split.
    + right. split; [by rewrite Hobj', Hobj3|]. split; [done|]. intros HF. destruct F as [|x0 F0]; [done|].
      by destruct (Hhd x0 F0 eq_refl) as (-> & -> & _).
    + eapply keeps_rest_trans; [exact Hk3|].
      eapply keeps_rest_mono; [exact Hk'| |]; unfold map_area, pool_addrs; cbn [qmap pool]; rewrite ?Er, ?En; set_solver.
  - rewrite decide_False by (intros Hne; by apply Hne).
    exists (h_object (set_items h2 mm) x), (ObjMap q p), (set_items h2 mm), (entry_add x k E), F1, B1.
    assert (Hox : h_object (set_items h2 mm) x = o) by (cbn; by rewrite upd_eq).
    split; [done|]. split; [apply insert_new; rewrite ?items_of_set, ?Er, ?En; done|].
    split; [by split|]. split; [done|]. split; [done|].
    split; [by intros HF; destruct F as [|x0 F0]; [|destruct (Hhd x0 F0 eq_refl) as (_ & _ & ?)]|]. split.
    + right. split; [done|]. split; [intros x0 F0 EF; by destruct (Hhd x0 F0 EF) as (_ & ? & _)|].
      exists x. split; [|done]. unfold MapSpec.owned in HxE. set_solver.
    + eapply keeps_rest_trans; [exact Hk3|].
      eapply keeps_rest_mono; [apply keeps_rest_refl|done|]. intros z. unfold map_area, pool_addrs. cbn [qmap pool].
      rewrite Er, En, (entry_add_perm x k E Hfind). set_solver.
Qed.

(** ** The entries by their objects *)

Definition obj_entries h E : list (ptr * Z) := (fun e => (h_object h e.1, e.2)) <$> E.

Lemma obj_entries_same h h' E : (forall y, y ∈ E.*1 -> h_object h' y = h_object h y) -> obj_entries h' E = obj_entries h E.
Proof.
  intros H. unfold obj_entries. apply list_fmap_ext. intros i e He. f_equal. apply H.
  apply (list_elem_of_fmap_2 fst). by eapply list_elem_of_lookup_2.
Qed.

Lemma filterb_entries h (f : Z -> bool) E :
  filterb (fun e => f e.2) (obj_entries h E) = obj_entries h (filterb (fun e => f e.2) E).
Proof.
  unfold obj_entries. induction E as [|e E IH]; [done|]. rewrite fmap_cons, !filterb_cons, IH. cbn. by destruct (f e.2).
Qed.

Lemma head_entries h E : fst <$> head (obj_entries h E) = h_object h <$> (fst <$> head E).
Proof. by destruct E. Qed.

Lemma find_entries h k E : entry_find k (obj_entries h E) = h_object h <$> entry_find k E.
Proof.
  unfold entry_find, lookup_key. rewrite <- head_entries. do 2 f_equal.
  exact (filterb_entries h (fun k' => bool_decide (Z.compare k k' = Eq)) E).
Qed.

Lemma find_above_entries h k E : entry_find_above k (obj_entries h E) = h_object h <$> entry_find_above k E.
Proof.
  unfold entry_find_above, lookup_above. rewrite <- head_entries. do 2 f_equal.
  exact (filterb_entries h (fun k' => bool_decide (Z.compare k k' = Lt)) E).
Qed.

Lemma add_entries h h' x k E o :
  (forall y, y ∈ E.*1 -> h_object h' y = h_object h y) -> h_object h' x = o ->
  obj_entries h' (entry_add x k E) = entry_add o k (obj_entries h E).
Proof.
  intros H Hx. unfold entry_add. induction E as [|[y k'] E IH]; cbn; [by rewrite Hx|].
  assert (Hy : h_object h' y = h_object h y) by (apply H; set_solver).
  assert (HE : forall z, z ∈ E.*1 -> h_object h' z = h_object h z) by (intros; apply H; set_solver).
  destruct (k ?= k'); cbn; rewrite ?Hy, ?Hx; [by fold (obj_entries h' E); rewrite (obj_entries_same h h' E HE)| |].
  - fold (obj_entries h' E). by rewrite (obj_entries_same h h' E HE).
  - f_equal. by apply IH.
Qed.

Lemma remove_entries h k E : obj_entries h (entry_remove k E) = entry_remove k (obj_entries h E).
Proof.
  unfold entry_remove, entry_delete. symmetry.
  exact (filterb_entries h (fun k' => negb (bool_decide (Z.compare k k' = Eq))) E).
Qed.

Lemma sorted_entries h E : sorted Z.compare E -> sorted Z.compare (obj_entries h E).
Proof.
  induction E as [|e E IH]; [done|]. intros [H1 H2]. split; [|by apply IH].
  intros x Hx. apply list_elem_of_fmap in Hx as (y & -> & Hy). apply (H1 y Hy).
Qed.

(** An insertion on the objects of a map. *)
Lemma insert_objects h h' E F k o r E' F' :
  sorted Z.compare E -> (forall y, y ∈ E.*1 -> h_object h' y = h_object h y) ->
  insert_result h h' E F k o r E' F' ->
  r = NULL /\ F = [] /\ obj_entries h' E' = obj_entries h E \/
  r = default o (entry_find k (obj_entries h E)) /\ obj_entries h' E' = entry_add o k (obj_entries h E).
Proof.
  intros Hs Ho [(-> & HF & ->)|Hres]; [left; split_and!; try done; by apply obj_entries_same|right].
  rewrite find_entries. destruct (entry_find k E) as [y|] eqn:Hk.
  - destruct Hres as (-> & -> & _). split; [done|]. rewrite (obj_entries_same h h') by done. symmetry. unfold entry_add.
    apply (entry_insert_old Z.compare); [by apply sorted_entries|].
    rewrite (has_key_lookup Z.compare). apply bool_decide_true. change (is_Some (entry_find k (obj_entries h E))).
    rewrite find_entries, Hk. cbn. eauto.
  - destruct Hres as (-> & _ & x & _ & Hx & ->). split; [done|]. by apply add_entries.
Qed.
(** ** Searching, and removing by key *)

Lemma omap_item_not_end h m E F B x : omap_at h m E F B -> x ∈ E.*1 -> x <> cl_qmap_end (qmap m).
Proof.
  intros [_ Hm _ _ _] Hx ->. pose proof (map_at_NoDup _ _ _ _ Hm) as Hnd. unfold MapSpec.owned in Hnd.
  apply NoDup_cons in Hnd as [_ Hnd]. by apply NoDup_cons in Hnd as [Hn _].
Qed.

Lemma entry_find_in k E x : entry_find k E = Some x -> x ∈ E.*1.
Proof. intros (E1 & E2 & ->)%entry_find_some. rewrite fmap_app. set_solver. Qed.

Lemma entry_find_above_in k E x : entry_find_above k E = Some x -> x ∈ E.*1.
Proof.
  unfold entry_find_above, lookup_above. intros H. apply fmap_Some in H as (e & He & ->).
  apply list_elem_of_fmap_2. apply head_Some_elem_of, elem_of_filterb in He. tauto.
Qed.

Lemma map_get_obj_spec h m E F B k :
  omap_at h m E F B ->
  cl_map_get m k h = Some (default NULL (entry_find k (obj_entries h E))) /\
  cl_map_get_next m k h = Some (default NULL (entry_find_above k (obj_entries h E))).
Proof.
  intros Hom. pose proof (om_map _ _ _ _ _ Hom) as Hm. unfold cl_map_get, cl_map_get_next.
  destruct (qmap_search_correct _ _ _ k Hm) as [-> ->]. rewrite find_entries, find_above_entries. cbn [mbind option_bind].
  split.
  - destruct (entry_find k E) as [x|] eqn:Hx; cbn [default from_option id fmap option_fmap option_map]; [|by rewrite decide_True].
    rewrite decide_False; [done|]. eapply omap_item_not_end; [done|]. by eapply entry_find_in.
  - destruct (entry_find_above k E) as [x|] eqn:Hx; cbn [default from_option id fmap option_fmap option_map]; [|by rewrite decide_True].
    rewrite decide_False; [done|]. eapply omap_item_not_end; [done|]. by eapply entry_find_above_in.
Qed.

Lemma set_items_same h : set_items h (items_of_heap h) = h.
Proof. by destruct h as [? ? [] ?]. Qed.

Lemma map_remove_key_spec h m E F B k :
  omap_at h m E F B ->
  exists m' h' F', cl_map_remove m k h = Some (default NULL (entry_find k (obj_entries h E)), m', h') /\
    omap_at h' m' (entry_remove k E) F' B /\ same_omap m m' /\ num_objects (pool m') = num_objects (pool m) /\
    h_object h' = h_object h.
Proof.
  intros Hom. pose proof (om_map _ _ _ _ _ Hom) as Hm. pose proof (map_at_sorted _ _ _ _ Hm) as Hs.
  unfold cl_map_remove, cl_qmap_remove. destruct (qmap_search_correct _ _ _ k Hm) as [-> _].
  rewrite find_entries. cbn [mbind option_bind]. destruct (entry_find k E) as [x|] eqn:Hx;
    cbn [default from_option id fmap option_fmap option_map].
  - pose proof (omap_item_not_end _ _ _ _ _ x Hom (entry_find_in _ _ _ Hx)) as Hend.
    apply entry_find_some in Hx as (E1 & E2 & ->).
    destruct (take_item_spec h m E1 x k E2 F B Hom) as (m' & h' & Ht & Hom' & Hs' & Hn & Ho & _). unfold take_item in Ht.
    destruct (cl_qmap_remove_item (items_of_heap h) (qmap m) x) as [[mm q]|] eqn:Hr; [|done]. cbn [mbind option_bind] in *.
    assert (Eq : cl_qmap_end q = cl_qmap_end (qmap m)).
    { destruct (cl_qpool_put _ _ _) as [p h1]. injection Ht as <- _. by destruct Hs' as [[_ ?] _]. }
    rewrite decide_False by (by rewrite Eq). cbv zeta in Ht |- *.
    destruct (cl_qpool_put _ _ _) as [p h1]. injection Ht as <- <-.
    exists (ObjMap q p), h1, (x :: F). split; [done|]. split; [|done].
    unfold entry_remove. rewrite (entry_delete_split Z.compare); [done|done|apply Z.compare_refl].
  - unfold cl_qmap_remove_item. rewrite decide_True by done. cbn [mbind option_bind]. rewrite decide_True by done.
    rewrite set_items_same. exists m, h, F. destruct m. split; [done|]. split; [|by split].
    unfold entry_remove. rewrite (entry_delete_none Z.compare); [done|exact Hx].
Qed.

(** ** Walking the entries, and removing all *)

Lemma omap_head h m E F B : omap_at h m E F B -> cl_map_head m h = default (cl_map_end m) (head E.*1).
Proof. intros Hom. apply (map_ends_spec Z.compare _ _ _ (om_map _ _ _ _ _ Hom)). Qed.

Lemma omap_tail h m E F B : omap_at h m E F B -> cl_map_tail m h = default (cl_map_end m) (last E.*1).
Proof. intros Hom. apply (map_ends_spec Z.compare _ _ _ (om_map _ _ _ _ _ Hom)). Qed.

Lemma omap_next h m E1 x k E2 F B :
  omap_at h m (E1 ++ (x, k) :: E2) F B ->
  cl_map_next h x = default (cl_map_end m) (head E2.*1) /\ cl_map_prev h x = default (cl_map_end m) (last E1.*1) /\
  cl_map_key h x = k /\ x <> cl_map_end m.
Proof.
  intros Hom. pose proof (om_map _ _ _ _ _ Hom) as Hm.
  destruct (map_next_spec Z.compare _ _ _ _ _ _ Hm) as [Hn Hp]. split; [exact Hn|]. split; [exact Hp|].
  split; [by apply (map_at_split Z.compare _ _ _ _ _ _ _ Hm eq_refl)|].
  eapply omap_item_not_end; [exact Hom|]. rewrite fmap_app. set_solver.
Qed.

Lemma omap_empty_test h m E F B : omap_at h m E F B -> cl_is_map_empty m = bool_decide (E = []).
Proof.
  intros [_ (T & n & _ & _ & _ & _ & _ & Hc & _) _ _ _]. unfold cl_is_map_empty, cl_is_qmap_empty. rewrite Hc.
  apply bool_decide_ext. destruct E; cbn; split; intros; (done || lia).
Qed.

Lemma omap_count h m E F B : omap_at h m E F B -> cl_map_count m = Z.of_nat (length E).
Proof.
  intros Hom. pose proof (omap_short _ _ _ _ _ Hom). destruct Hom as [_ (T & n & _ & _ & _ & _ & _ & Hc & _) _ _ _].
  unfold cl_map_count, cl_qmap_count. rewrite Hc, wrap_small by lia. done.
Qed.

Lemma omap_fuel h m E F B : omap_at h m E F B -> map_fuel (qmap m) = S (length E).
Proof. intros [_ Hm _ _ _]. by apply (map_fuel_enough Z.compare _ _ _ Hm). Qed.

Lemma remove_all_loop_spec : forall fuel h m E F B,
  (length E <= fuel)%nat -> omap_at h m E F B ->
  exists m' h' F', remove_all_loop fuel m h = Some (m', h') /\ omap_at h' m' [] F' B /\ same_omap m m' /\
    num_objects (pool m') = num_objects (pool m).
Proof.
  induction fuel as [|fuel IH]; intros h m E F B Hlen Hom; cbn [remove_all_loop];
    pose proof (omap_empty_test _ _ _ _ _ Hom) as He; unfold cl_is_map_empty in He; rewrite He;
    (destruct E as [|[x k] E]; [exists m, h, F; by split_and!|]); cbn [length] in Hlen; [lia|].
  rewrite bool_decide_false by done.
  pose proof (omap_head _ _ _ _ _ Hom) as Hx. unfold cl_map_head in Hx. rewrite Hx. cbn [fmap list_fmap head default from_option id fst].
  destruct (take_item_spec h m [] x k E F B Hom) as (m1 & h1 & -> & Hom1 & Hs1 & Hn1 & _). cbn [mbind option_bind from_option id app] in *.
  pose proof (omap_empty_test _ _ _ _ _ Hom1) as He1. unfold cl_is_map_empty in He1. rewrite He1.
  destruct (list_snoc_case E) as [->|(E1 & [y ky] & ->)].
  - rewrite bool_decide_true by done. cbn [mbind option_bind].
    destruct (IH h1 m1 [] (x :: F) B) as (m2 & h2 & F2 & -> & Hom2 & Hs2 & Hn2); [cbn; lia|done|].
    exists m2, h2, F2. split_and!; try done; [by etrans|congruence].
  - rewrite bool_decide_false by (by destruct E1).
    pose proof (omap_tail _ _ _ _ _ Hom1) as Hy. rewrite fmap_app, fmap_cons, fmap_nil, last_snoc in Hy. unfold cl_map_tail in Hy. rewrite Hy.
    cbn [default from_option id fst].
    destruct (take_item_spec h1 m1 E1 y ky [] _ B Hom1) as (m2 & h2 & -> & Hom2 & Hs2 & Hn2 & _). cbn [mbind option_bind].
    rewrite app_nil_r in Hom2.
    destruct (IH h2 m2 E1 (y :: x :: F) B) as (m3 & h3 & F3 & -> & Hom3 & Hs3 & Hn3);
      [rewrite length_app in Hlen; cbn in Hlen; lia|done|].
    exists m3, h3, F3. split_and!; try done; [by etrans; [|etrans]|congruence].
Qed.

Lemma map_remove_all_obj_spec h m E F B :
  omap_at h m E F B ->
  exists m' h' F', cl_map_remove_all m h = Some (m', h') /\ omap_at h' m' [] F' B /\ same_omap m m' /\
    num_objects (pool m') = num_objects (pool m).
Proof. intros Hom. eapply remove_all_loop_spec; [|exact Hom]. rewrite (omap_fuel _ _ _ _ _ Hom). lia. Qed.

(** ** Start and end *)

(** The structure the caller provides: the sentinels of its map and the ends of its
    pool's lists, all different, in memory in use. *)
Definition omap_provided h m : Prop :=
  NoDup (map_area m [] [] []) /\ (forall q, q ∈ map_area m [] [] [] -> owned (h_alloc h) q).

Lemma map_init_obj_spec h m min n :
  omap_provided h m -> 0 <= min < 2 ^ 32 -> 0 <= n -> min + n * growth_of MAP_GROW_SIZE min < 2 ^ 32 ->
  exists st m' h', cl_map_init m min h = Some (st, m', h') /\
    (st <> CL_SUCCESS -> cl_is_map_inited m' = false) /\
    (st = CL_SUCCESS -> exists F B, omap_at h' m' [] F B /\ fits (pool m') B n /\ Z.of_nat (length F) = min /\
       keeps_rest h h' (map_area m [] [] []) (map_area m' [] F B)).
Proof.
  intros [Hnd Hown] Hmin Hn Hfit. unfold map_area, pool_addrs in Hnd, Hown. cbn in Hnd, Hown. unfold cl_map_init.
  assert (Eg : (if decide (Z.shiftr min 3 < MAP_GROW_SIZE) then MAP_GROW_SIZE else Z.shiftr min 3) = growth_of MAP_GROW_SIZE min).
  { unfold growth_of. case_decide; lia. }
  pose proof (map_init_spec Z.compare (items_of_heap h) (qmap m)) as Hq.
  destruct (cl_qmap_init (items_of_heap h) (qmap m)) as [mm q].
  destruct Hq as (Hm & Hk & Er & En & _). { nodup_simpl. ne_solve. }
  cbv zeta. rewrite Eg. pose proof (growth_of_bound MAP_GROW_SIZE min ltac:(done) Hmin) as Hg.
  destruct (item_pool_init sizeof_map_obj (pool m) (set_items h mm) min (growth_of MAP_GROW_SIZE min) ltac:(done) eq_refl)
    as (st & p' & h' & Hrun & Hbad & Hok); [|done|lia|].
  { split; [nodup_simpl; ne_solve|]. split; apply Hown; set_solver. }
  rewrite Hrun. cbn [mbind option_bind]. eexists st, _, h'. split; [done|]. split.
  { intros Hst. unfold cl_is_map_inited, cl_is_qpool_inited, cl_is_qcpool_inited. cbn. by rewrite (Hbad Hst). }
  intros Hst. destruct (Hok Hst) as (F & B & Hp & HF & Hip & Egr & HB & Hnum & Hu & Hkp). exists F, B.
  assert (Hk2 : keeps_rest (set_items h mm) h' [ql_end (free_list (pool m)); ql_end (alloc_list (pool m))] (pool_addrs p' F [] B)).
  { split; [apply Hkp|]. intros z Hz1 Hz2. destruct (proj2 Hkp z Hz1 Hz2) as [Hz3 Hz4]. split; [done|].
    by apply same_fields_user. }
  assert (Hends : forall z, z ∈ [qm_root q; qm_nil q] -> owned (h_alloc h') z /\ z ∉ pool_addrs p' F [] B /\
    same_fields (set_items h mm) h' z).
  { rewrite Er, En. intros z Hz.
    assert (Ho : owned (h_alloc (set_items h mm)) z) by (apply Hown; set_solver).
    split; [by apply (proj1 Hk2)|]. apply (proj2 Hk2); [done|]. nodup_simpl. elem_simpl. destruct Hz as [->|[->|[]]]; ne_solve. }
  assert (Hmap : qmap_at (items_of_heap h') q []).
  { eapply map_at_fields; [|rewrite items_of_set; exact Hm]. intros z Hz. by apply Hends. }
  split; [|split; [unfold fits; cbn; rewrite Egr; nia|split; [done|]]].
  - constructor; try done; unfold map_area; cbn [qmap pool].
    + pose proof (map_at_NoDup _ _ _ _ Hmap) as Hnd2. unfold MapSpec.owned in Hnd2.
      pose proof (pl_nodup _ _ _ _ _ _ Hp) as Hnd3. cbn [fmap list_fmap] in *.
      destruct (Hends (qm_root q)) as (_ & H1 & _); [set_solver|]. destruct (Hends (qm_nil q)) as (_ & H2 & _); [set_solver|].
      apply NoDup_cons in Hnd2 as [Hne _]. apply NoDup_cons. split; [set_solver|]. by apply NoDup_cons.
    + intros z [->|[->|Hz]%elem_of_cons]%elem_of_cons; [apply Hends; set_solver..|]. by apply (pl_owned _ _ _ _ _ _ Hp).
  - eapply keeps_rest_trans; [|eapply keeps_rest_mono; [exact Hk2| |]].
    + split; [done|]. intros z Hz1 Hz2. split; [exact Hz2|]. eapply mkeeps_fields; [exact Hk|].
      unfold map_area, pool_addrs in Hz2. set_solver.
    + unfold map_area, pool_addrs. set_solver.
    + unfold map_area, pool_addrs. cbn [qmap pool]. rewrite Er, En. set_solver.
Qed.

Lemma map_destroy_obj_spec h m E F B : omap_at h m E F B -> Z.of_nat (length B) < 2 ^ 32 ->
  exists m' h', cl_map_destroy m h = Some (m', h') /\ cl_is_map_inited m' = false.
Proof.
  intros [Hp _ _ _ Hip] HB. destruct Hip as (_ & _ & _ & _ & Ed).
  destruct (pool_destroy_frees no_relation h (pool m) F E.*1 B (fun _ u => u) Hp)
    as (p' & h' & Hrun & Hst & _); [unfold dtor_is; by rewrite Ed|done|].
  unfold cl_map_destroy, cl_qpool_destroy. rewrite Hrun. eexists _, h'. split; [done|].
  unfold cl_is_map_inited, cl_is_qpool_inited, cl_is_qcpool_inited. cbn. by rewrite Hst.
Qed.
End Invariant.
