(* ===== verification/ObjMapProps.v ===== *)
(** * Maps of objects: properties of one map

    Every call on a map of objects does to the list of its objects by key what its
    name says, or, when it inserts and there is no memory, nothing. *)

From S2P Require Import Prelude Qlist RbMap MapSpec MapOps QMap Pool ObjPool ObjMap ObjMapSpec.

Local Open Scope Z_scope.
Local Open Scope list_scope.

(** ** Calls *)

Inductive map_op :=
| MapInsert (k : Z) (o : ptr)
| MapGet (k : Z)
| MapGetNext (k : Z)
| MapRemove (k : Z)
| MapRemoveItem (i : nat)   (** the [i]-th item in key order *)
| MapRemoveAll
| MapObj (i : nat)
| MapKey (i : nat)
| MapCount.

Section Calls.
Context {A : Type} {AL : Allocator A}.
Implicit Types (h : heap A tree_fields) (m : cl_map_t A).

(** The [i]-th item from the head. *)
Definition nth_entry m h (i : nat) : ptr := Nat.iter i (cl_map_next h) (cl_map_head m h).

Definition map_exec (op : map_op) m h : option (Z * cl_map_t A * heap A tree_fields) :=
  match op with
  | MapInsert k o => cl_map_insert m k o h
  | MapGet k => o ← cl_map_get m k h; Some (o, m, h)
  | MapGetNext k => o ← cl_map_get_next m k h; Some (o, m, h)
  | MapRemove k => cl_map_remove m k h
  | MapRemoveItem i =>
      if decide (Z.of_nat i < cl_map_count m)
      then '(m, h) ← cl_map_remove_item m (nth_entry m h i) h; Some (CL_SUCCESS, m, h)
      else '(m, h) ← cl_map_remove_item m (cl_map_end m) h; Some (CL_SUCCESS, m, h)
  | MapRemoveAll => '(m, h) ← cl_map_remove_all m h; Some (CL_SUCCESS, m, h)
  | MapObj i => Some (if decide (Z.of_nat i < cl_map_count m) then cl_map_obj h (nth_entry m h i) else NULL, m, h)
  | MapKey i => Some (if decide (Z.of_nat i < cl_map_count m) then cl_map_key h (nth_entry m h i) else 0, m, h)
  | MapCount => Some (cl_map_count m, m, h)
  end.

Fixpoint map_run (ops : list map_op) m h : option (list Z * cl_map_t A * heap A tree_fields) :=
  match ops with
  | [] => Some ([], m, h)
  | op :: ops =>
      '(r, m, h) ← map_exec op m h;
      '(rs, m, h) ← map_run ops m h;
      Some (r :: rs, m, h)
  end.
End Calls.

(** ** What the calls mean, on the list of objects with their keys *)

Definition map_effect (op : map_op) (L : list (ptr * Z)) : Z * list (ptr * Z) :=
  match op with
  | MapInsert k o => (default o (entry_find k L), entry_add o k L)
  | MapGet k => (default NULL (entry_find k L), L)
  | MapGetNext k => (default NULL (entry_find_above k L), L)
  | MapRemove k => (default NULL (entry_find k L), entry_remove k L)
  | MapRemoveItem i => (CL_SUCCESS, delete i L)
  | MapRemoveAll => (CL_SUCCESS, [])
  | MapObj i => (default NULL (fst <$> L !! i), L)
  | MapKey i => (default 0 (snd <$> L !! i), L)
  | MapCount => (Z.of_nat (length L), L)
  end.

Definition is_insertion (op : map_op) : bool := match op with MapInsert _ _ => true | _ => false end.

Definition map_step (op : map_op) (L : list (ptr * Z)) (r : Z) (L' : list (ptr * Z)) : Prop :=
  (r, L') = map_effect op L \/ is_insertion op = true /\ r = NULL /\ L' = L.

Fixpoint map_steps (ops : list map_op) (L : list (ptr * Z)) (rs : list Z) (L' : list (ptr * Z)) : Prop :=
  match ops, rs with
  | [], [] => L' = L
  | op :: ops, r :: rs => exists L1, map_step op L r L1 /\ map_steps ops L1 rs L'
  | _, _ => False
  end.

Definition map_insertions (ops : list map_op) : Z := Z.of_nat (length (filterb is_insertion ops)).

(** ** Each call *)

Section Steps.
Context {A : Type} {AL : Allocator A} {LA : AllocatorLaws A}.
Implicit Types (h : heap A tree_fields) (m : cl_map_t A) (E : list (ptr * Z)).

(** The map has the entries [E] and may take [n] more insertions. *)
Definition has_entries (n : Z) h m E : Prop := exists F B, omap_at h m E F B /\ fits (pool m) B n.

Definition map_after (n : Z) (op : map_op) h m E (r : option (Z * cl_map_t A * heap A tree_fields)) : Prop :=
  exists v m' h' E', r = Some (v, m', h') /\ has_entries n h' m' E' /\
    map_step op (obj_entries h E) v (obj_entries h' E').

Lemma map_after_same n op h m E v :
  has_entries n h m E -> (v, obj_entries h E) = map_effect op (obj_entries h E) -> map_after n op h m E (Some (v, m, h)).
Proof. intros Hm He. exists v, m, h, E. split; [done|]. split; [done|by left]. Qed.

Lemma insert_after n h m E k o :
  has_entries (n + 1) h m E -> 0 <= n -> map_after n (MapInsert k o) h m E (map_exec (MapInsert k o) m h).
Proof.
  intros (F & B & Hom & Hf) Hn. destruct (om_items _ _ _ _ _ Hom) as (_ & _ & Hg & _).
  destruct (omap_insert_spec h m k o E F B Hom) as
    (v & m' & h' & E' & F' & B' & Hrun & Hom' & [_ (_ & _ & Eg & _)] & [Hgn HgB] & Hobj & _ & Hres & _).
  { intros _. unfold fits in *. nia. }
  cbn [map_exec]. rewrite Hrun. exists v, m', h', E'. split; [done|]. split.
  { exists F', B'. split; [done|]. unfold fits in *. rewrite Eg. lia. }
  destruct (insert_objects h h' E F k o v E' F') as [(-> & _ & ->)|[-> ->]];
    [by eapply map_at_sorted, Hom|done|done|by right|by left].
Qed.

Lemma nth_entry_spec h m E1 x k E2 F B :
  omap_at h m (E1 ++ (x, k) :: E2) F B -> nth_entry m h (length E1) = x.
Proof.
  revert x k E2. induction E1 as [|[y ky] E1 IH] using rev_ind; intros x k E2 Hom.
  - cbn. by rewrite (omap_head _ _ _ _ _ Hom).
  - rewrite length_app, Nat.add_1_r. change (nth_entry m h (S (length E1))) with (cl_map_next h (nth_entry m h (length E1))).
    rewrite <- (assoc_L (++)) in Hom. cbn [app] in Hom. rewrite (IH y ky _ Hom).
    by rewrite (proj1 (omap_next _ _ _ _ _ _ _ _ Hom)).
Qed.

(** The [i]-th entry, if there is one. *)
Lemma nth_entry_case h m E F B i :
  omap_at h m E F B ->
  match E !! i with
  | Some e => Z.of_nat i < cl_map_count m /\ nth_entry m h i = e.1 /\ cl_map_key h e.1 = e.2 /\ e.1 <> cl_map_end m /\
      E = take i E ++ e :: drop (S i) E
  | None => ~ Z.of_nat i < cl_map_count m
  end.
Proof.
  intros Hom. rewrite (omap_count _ _ _ _ _ Hom). destruct (E !! i) as [[x k]|] eqn:He.
  - pose proof (lookup_lt_Some _ _ _ He) as Hi. pose proof (take_drop_middle E i _ He) as Etd.
    assert (Hl : length (take i E) = i) by (apply length_take_le; lia).
    rewrite <- Etd in Hom. split; [lia|]. pose proof (nth_entry_spec _ _ _ _ _ _ _ _ Hom) as Hn. rewrite Hl in Hn.
    destruct (omap_next _ _ _ _ _ _ _ _ Hom) as (_ & _ & Hk & Hend). by split_and!.
  - apply lookup_ge_None in He. lia.
Qed.

Lemma remove_entry_after n h m E i :
  has_entries n h m E -> map_after n (MapRemoveItem i) h m E (map_exec (MapRemoveItem i) m h).
Proof.
  intros (F & B & Hom & Hf). pose proof (nth_entry_case h m E F B i Hom) as Hnth. cbn [map_exec].
  destruct (E !! i) as [[x k]|] eqn:He.
  - destruct Hnth as (Hi & -> & _ & Hend & EE). rewrite decide_True by done. cbn [fst] in *.
    unfold cl_map_remove_item. rewrite decide_False by done. rewrite EE in Hom.
    destruct (take_item_spec h m _ x k _ F B Hom) as (m' & h' & -> & Hom' & [_ (_ & _ & Eg & _)] & Hn & Ho & _).
    cbn [mbind option_bind]. exists CL_SUCCESS, m', h', (take i E ++ drop (S i) E). split; [done|]. split.
    { exists (x :: F), B. split; [done|]. unfold fits in *. by rewrite Hn, Eg. }
    left. cbn [map_effect]. f_equal. unfold obj_entries. rewrite Ho, delete_take_drop, fmap_app, fmap_take, fmap_drop. done.
  - rewrite decide_False by done. unfold cl_map_remove_item. rewrite decide_True by done. cbn [mbind option_bind].
    apply map_after_same; [by exists F, B|]. cbn [map_effect]. f_equal. apply lookup_ge_None in He. symmetry.
    rewrite delete_take_drop, take_ge, drop_ge, app_nil_r; [done|unfold obj_entries; rewrite length_fmap; lia..].
Qed.

Lemma map_exec_spec n op h m E :
  has_entries (n + if is_insertion op then 1 else 0) h m E -> 0 <= n -> map_after n op h m E (map_exec op m h).
Proof.
  intros Hm Hn. destruct op as [k o|k|k|k|i| |i|i|]; cbn [is_insertion] in Hm; rewrite ?Z.add_0_r in Hm;
    [by apply insert_after|..|by apply remove_entry_after| | | |]; pose proof Hm as (F & B & Hom & Hf); cbn [map_exec].
  - rewrite (proj1 (map_get_obj_spec h m E F B k Hom)). by apply map_after_same.
  - rewrite (proj2 (map_get_obj_spec h m E F B k Hom)). by apply map_after_same.
  - destruct (map_remove_key_spec h m E F B k Hom) as (m' & h' & F' & -> & Hom' & [_ (_ & _ & Eg & _)] & Hn' & Ho).
    eexists _, m', h', _. split; [done|]. split; [exists F', B; split; [done|]; unfold fits in *; by rewrite Hn', Eg|].
    left. cbn [map_effect]. f_equal. rewrite <- remove_entries. unfold obj_entries. by rewrite Ho.
  - destruct (map_remove_all_obj_spec h m E F B Hom) as (m' & h' & F' & -> & Hom' & [_ (_ & _ & Eg & _)] & Hn').
    cbn [mbind option_bind]. exists CL_SUCCESS, m', h', []. split; [done|].
    split; [exists F', B; split; [done|]; unfold fits in *; by rewrite Hn', Eg|by left].
  - pose proof (nth_entry_case h m E F B i Hom) as Hnth. apply map_after_same; [done|]. cbn [map_effect]. f_equal.
    unfold obj_entries. rewrite list_lookup_fmap.
    destruct (E !! i) as [e|]; cbn [fmap option_fmap option_map default from_option id fst snd].
    + destruct Hnth as (Hi & -> & _). by rewrite decide_True.
    + by rewrite decide_False.
  - pose proof (nth_entry_case h m E F B i Hom) as Hnth. apply map_after_same; [done|]. cbn [map_effect]. f_equal.
    unfold obj_entries. rewrite list_lookup_fmap.
    destruct (E !! i) as [e|]; cbn [fmap option_fmap option_map default from_option id fst snd].
    + destruct Hnth as (Hi & -> & -> & _). by rewrite decide_True.
    + by rewrite decide_False.
  - apply map_after_same; [done|]. cbn [map_effect]. unfold obj_entries.
    by rewrite (omap_count _ _ _ _ _ Hom), length_fmap.
Qed.

Lemma map_run_spec ops : forall h m E,
  has_entries (map_insertions ops) h m E ->
  exists rs m' h' E', map_run ops m h = Some (rs, m', h') /\ has_entries 0 h' m' E' /\
    map_steps ops (obj_entries h E) rs (obj_entries h' E').
Proof.
  induction ops as [|op ops IH]; intros h m E Hm; cbn [map_run].
  { exists [], m, h, E. by split_and!. }
  destruct (map_exec_spec (map_insertions ops) op h m E) as (v & m1 & h1 & E1 & -> & Hm1 & Hst).
  { unfold map_insertions in *. rewrite filterb_cons in Hm. destruct (is_insertion op); [|by rewrite Z.add_0_r].
    cbn [length] in Hm. by rewrite Nat2Z.inj_succ in Hm. }
  { unfold map_insertions. lia. }
  cbn [mbind option_bind]. destruct (IH h1 m1 E1 Hm1) as (rs & m2 & h2 & E2 & -> & Hm2 & Hsts).
  cbn [mbind option_bind]. exists (v :: rs), m2, h2, E2. split; [done|]. split; [done|]. by exists (obj_entries h1 E1).
Qed.

(** C21. Initialisation, any sequence of calls, and destruction of a map of objects:
    every call has a result; it does to the sorted list of objects and keys, and
    returns, what its name says (an insertion under a key in use returns the object
    already there and changes nothing), or it is an insertion that returns null
    for want of memory and changes nothing. *)
Theorem map_run_refines h m min_items ops :
  omap_provided h m -> 0 <= min_items < 2 ^ 32 ->
  min_items + map_insertions ops * growth_of MAP_GROW_SIZE min_items < 2 ^ 32 ->
  exists st m1 h1, cl_map_init m min_items h = Some (st, m1, h1) /\
    (st <> CL_SUCCESS -> cl_is_map_inited m1 = false) /\
    (st = CL_SUCCESS ->
       exists rs m2 h2 L m3 h3, map_run ops m1 h1 = Some (rs, m2, h2) /\ map_steps ops [] rs L /\
         cl_map_count m2 = Z.of_nat (length L) /\
         cl_map_destroy m2 h2 = Some (m3, h3) /\ cl_is_map_inited m3 = false).
Proof.
  intros Hpr Hmin Hfit.
  destruct (map_init_obj_spec h m min_items (map_insertions ops) Hpr Hmin) as
    (st & m1 & h1 & Hrun & Hbad & Hgood); [unfold map_insertions; lia|done|].
  exists st, m1, h1. split; [done|]. split; [done|]. intros Hst. destruct (Hgood Hst) as (F & B & Hm1 & Hf & _).
  destruct (map_run_spec ops h1 m1 []) as (rs & m2 & h2 & E2 & Hrs & (F2 & B2 & Hm2 & Hf2) & Hsteps); [by exists F, B|].
  destruct (map_destroy_obj_spec h2 m2 E2 F2 B2 Hm2) as (m3 & h3 & Hd & Hi); [unfold fits in Hf2; lia|].
  exists rs, m2, h2, (obj_entries h2 E2), m3, h3. split_and!; try done.
  rewrite (omap_count _ _ _ _ _ Hm2). unfold obj_entries. by rewrite length_fmap.
Qed.
End Steps.

(** ** A concrete map *)

Definition demo_tree : tree_fields := TreeFields (fun _ => NULL) (fun _ => NULL) (fun _ => NULL) (fun _ => CL_MAP_BLACK) (fun _ => 0).
Definition demo_map_heap : heap bump tree_fields := Heap links0 (fun _ => NULL) demo_tree (Bump 1000 []).
Definition demo_omap (base : Z) : cl_map_t bump :=
  ObjMap (QMap base (base + 8) CL_UNINITIALIZED 0)
    (QCPool 0 NULL [] [] 0 0 0 None None (QList (base + 16) 0 CL_UNINITIALIZED) (QList (base + 24) 0 CL_UNINITIALIZED) CL_UNINITIALIZED).
Definition demo_map_ops : list map_op :=
  [MapInsert 5 50; MapInsert 3 30; MapInsert 9 90; MapInsert 3 31; MapGet 9; MapGetNext 5; MapKey 1; MapRemove 5;
   MapRemove 5; MapObj 1; MapRemoveItem 0; MapCount; MapInsert 4 40; MapRemoveAll; MapCount].

Lemma map_run_refines_witness :
  (r ← cl_map_init (demo_omap 100) 2 demo_map_heap; fst <$> (fst <$> map_run demo_map_ops r.1.2 r.2)) =
    Some [50; 30; 90; 30; 90; 90; 5; 50; 0; 90; 0; 1; 40; 0; 0] /\
  exists st m1 h1, cl_map_init (demo_omap 100) 2 demo_map_heap = Some (st, m1, h1) /\
    (st <> CL_SUCCESS -> cl_is_map_inited m1 = false) /\
    (st = CL_SUCCESS ->
       exists rs m2 h2 L m3 h3, map_run demo_map_ops m1 h1 = Some (rs, m2, h2) /\ map_steps demo_map_ops [] rs L /\
         cl_map_count m2 = Z.of_nat (length L) /\
         cl_map_destroy m2 h2 = Some (m3, h3) /\ cl_is_map_inited m3 = false).
Proof.
  split; [vm_compute; reflexivity|].
  apply (map_run_refines demo_map_heap (demo_omap 100) 2 demo_map_ops); [|lia|vm_compute; reflexivity].
  split; [vm_decide|]. intros q Hq.
  assert (Hall : Forall (fun q => q < 1000) (map_area (demo_omap 100) [] [] [])) by vm_decide.
  rewrite Forall_forall in Hall. exact (Hall q Hq).
Defined.
