(* ===== verification/ObjMapMerge.v ===== *)
(** * Maps of objects: merging

    Several maps of objects in one memory, and what [cl_map_merge] does to two of
    them: it adds the source's objects under keys the destination lacks, and leaves
    the others in the source - except an object that the destination has under the
    same key, which it removes from the source. *)

From S2P Require Import Prelude Qlist RbMap MapSpec MapOps QMap Pool ObjPool ObjMap ObjMapSpec ObjMapProps.

Local Open Scope Z_scope.
Local Open Scope list_scope.

Section Views.
Context {A : Type} {AL : Allocator A} {LA : AllocatorLaws A}.
Implicit Types (h : heap A tree_fields) (m : cl_map_t A) (E : list (ptr * Z)).

(** ** Several maps *)

(** A map with its entries, free items and blocks. *)
Record view := View { v_map : cl_map_t A; v_entries : list (ptr * Z); v_free : list ptr; v_blocks : list ptr }.

Implicit Types (u v d s : view) (L : list view).

Definition view_at h v : Prop := omap_at h (v_map v) (v_entries v) (v_free v) (v_blocks v).
Definition area v : list ptr := map_area (v_map v) (v_entries v) (v_free v) (v_blocks v).
Definition objects h v : list (ptr * Z) := obj_entries h (v_entries v).

Definition views_at h L : Prop := Forall (view_at h) L /\ NoDup (L ≫= area).

Lemma views_perm h L L' : L ≡ₚ L' -> views_at h L -> views_at h L'.
Proof. intros HP [H1 H2]. split; [by rewrite <- HP|]. by rewrite <- HP. Qed.

Lemma views_head h v L : views_at h (v :: L) -> view_at h v.
Proof. intros [H _]. by apply Forall_cons in H as [H _]. Qed.

(** Entries of the other maps do not change. *)
Definition others_same h h' L : Prop := forall u, u ∈ L -> objects h' u = objects h u.

Lemma others_trans h1 h2 h3 L : others_same h1 h2 L -> others_same h2 h3 L -> others_same h1 h3 L.
Proof. intros H1 H2 u Hu. rewrite (H2 u Hu). by apply H1. Qed.

Lemma elem_of_area {X Y} (l : list X) (f : X -> list Y) y x : x ∈ l -> y ∈ f x -> y ∈ l ≫= f.
Proof. intros Hx Hy. apply list_elem_of_bind. eauto. Qed.

(** A map comes from what was outside the others. *)
Lemma views_join h h' S v' L :
  Forall (view_at h) L -> NoDup (S ++ (L ≫= area)) -> view_at h' v' -> keeps_rest h h' S (area v') ->
  views_at h' (v' :: L) /\ others_same h h' L.
Proof.
  intros HF Hnd Hv' Hk. apply NoDup_app in Hnd as (_ & Hdis & Hnd).
  assert (Hu : forall u, u ∈ L -> view_at h' u /\ (forall q, q ∈ area u -> q ∉ area v') /\ objects h' u = objects h u).
  { intros u Hu. rewrite Forall_forall in HF.
    destruct (omap_kept h h' _ _ _ _ _ _ Hk (fun q Hq Hq' => Hdis q Hq' (elem_of_area L area q u Hu Hq)) (HF u Hu)) as [H1 H2].
    split; [done|]. split; [intros q Hq; by apply (H2 q Hq)|]. apply obj_entries_same. intros y Hy.
    destruct (H2 y) as (_ & (_ & _ & E) & _); [|done]. unfold map_area, pool_addrs. set_solver. }
  split; [|intros u Hin; by apply Hu]. split.
  - apply Forall_cons. split; [done|]. apply Forall_forall. intros u Hin. by apply Hu.
  - change (NoDup (area v' ++ (L ≫= area))). apply NoDup_app. split; [apply Hv'|]. split; [|done].
    intros q Hq (u & Hin & Hq2)%list_elem_of_bind. destruct (Hu u) as (_ & Hd & _); [done|]. by apply (Hd q).
Qed.

(** An operation on one of the maps. *)
Lemma views_step h h' v v' L :
  views_at h (v :: L) -> view_at h' v' -> keeps_rest h h' (area v) (area v') ->
  views_at h' (v' :: L) /\ others_same h h' L.
Proof. intros [HF Hnd] Hv' Hk. apply Forall_cons in HF as [_ HF]. by apply (views_join h h' (area v)). Qed.

(** A map that can take [n] more items: they are free, or the counts allow it. *)
Definition can_take v (n : nat) : Prop :=
  (n <= length (v_free v))%nat \/ fits (pool (v_map v)) (v_blocks v) (Z.of_nat n).

Definition same_view v v' : Prop := same_omap (v_map v) (v_map v').

Lemma same_view_trans u v w : same_view u v -> same_view v w -> same_view u w.
Proof. unfold same_view. intros H1 H2. by etrans. Qed.

Lemma same_view_end v v' : same_view v v' -> cl_map_end (v_map v') = cl_map_end (v_map v).
Proof. by intros [[_ H] _]. Qed.

Lemma take_view h v E1 x k E2 L :
  views_at h (v :: L) -> v_entries v = E1 ++ (x, k) :: E2 ->
  exists v' h', cl_map_remove_item (v_map v) x h = Some (v_map v', h') /\ views_at h' (v' :: L) /\
    others_same h h' L /\ same_view v v' /\ v_entries v' = E1 ++ E2 /\ v_free v' = x :: v_free v /\
    h_object h' = h_object h.
Proof.
  intros HL HE. pose proof (views_head _ _ _ HL) as Hv. unfold view_at in Hv. rewrite HE in Hv.
  destruct (take_item_spec h _ E1 x k E2 _ _ Hv) as (m' & h' & Hrun & Hv' & Hs & _ & Ho & _ & Hk).
  exists (View m' (E1 ++ E2) (x :: v_free v) (v_blocks v)), h'. unfold cl_map_remove_item.
  destruct (omap_next _ _ _ _ _ _ _ _ Hv) as (_ & _ & _ & Hend). rewrite decide_False by done. split; [done|].
  destruct (views_step h h' v (View m' (E1 ++ E2) (x :: v_free v) (v_blocks v)) L HL Hv') as [H1 H2];
    [unfold area; by rewrite HE|]. by split_and!.
Qed.

Lemma insert_view h v k o L :
  views_at h (v :: L) -> can_take v 1 ->
  exists r v' h', cl_map_insert (v_map v) k o h = Some (r, v_map v', h') /\ views_at h' (v' :: L) /\
    others_same h h' L /\ same_view v v' /\ (forall y, y ∈ (v_entries v).*1 -> h_object h' y = h_object h y) /\
    insert_result h h' (v_entries v) (v_free v) k o r (v_entries v') (v_free v') /\
    (forall n, can_take v (S n) -> can_take v' n) /\ (length (v_free v) <= S (length (v_free v')))%nat.
Proof.
  intros HL Hc. pose proof (views_head _ _ _ HL) as Hv.
  destruct (omap_insert_spec h (v_map v) k o _ _ _ Hv) as
    (r & m' & h' & E' & F' & B' & Hrun & Hv' & Hs & [Hg1 Hg2] & Ho & _ & Hres & Hk).
  { intros HF. destruct Hc as [Hc|Hc]; [rewrite HF in Hc; cbn in Hc; lia|done]. }
  exists r, (View m' E' F' B'), h'. split; [done|].
  destruct (views_step h h' v (View m' E' F' B') L HL Hv' Hk) as [H1 H2].
  do 4 (split; [done|]). split; [done|].
  assert (HF : (length (v_free v) <= S (length F'))%nat).
  { destruct (v_free v) as [|x0 F0]; cbn; [lia|].
    destruct Hres as [(_ & ? & _)|Hres]; [done|]. destruct (entry_find k (v_entries v)).
    - destruct Hres as (_ & _ & ->); [|done]. cbn. lia.
    - destruct Hres as (_ & Hd & _). rewrite (Hd x0 F0 eq_refl). lia. }
  split; [|done]. intros n [Hn|Hn].
  - left. cbn. lia.
  - right. cbn. destruct Hs as [_ (_ & _ & Eg & _)]. unfold fits in *. rewrite Eg. lia.
Qed.

Lemma views_swap h u v L : views_at h (u :: v :: L) -> views_at h (v :: u :: L).
Proof. apply views_perm. apply perm_swap. Qed.

(** An object goes back to where it was taken from. *)
Lemma put_back h s K R k o L :
  views_at h (s :: L) -> v_entries s = K ++ R -> below Z.compare k K -> above Z.compare k R -> v_free s <> [] ->
  exists x s' h', cl_map_insert (v_map s) k o h = Some (o, v_map s', h') /\ views_at h' (s' :: L) /\
    others_same h h' L /\ same_view s s' /\ v_entries s' = K ++ (x, k) :: R /\ h_object h' x = o /\
    (forall y, y ∈ (K ++ R).*1 -> h_object h' y = h_object h y) /\ v_free s' = tail (v_free s).
Proof.
  intros HL HE Hb Ha HF.
  destruct (insert_view h s k o L HL) as (r & s' & h' & Hrun & HL' & Hoth & Hs & Ho & Hres & _ & _).
  { left. destruct (v_free s); [done|cbn; lia]. }
  assert (Hn : entry_find k (v_entries s) = None).
  { rewrite HE. unfold entry_find. by apply (lookup_key_none_split Z.compare). }
  destruct Hres as [(_ & ? & _)|Hres]; [done|]. rewrite Hn in Hres. destruct Hres as (-> & Hd & x & Hx & Hox & HE').
  exists x, s', h'. split; [done|]. do 3 (split; [done|]). split.
  - rewrite HE', HE. unfold entry_add. by apply (entry_insert_split Z.compare).
  - split; [done|]. split; [by rewrite <- HE|]. destruct (v_free s) as [|x0 F0]; [done|]. by apply (Hd x0).
Qed.


(** ** Merging *)

(** The source entries that the destination does not take: it has another object
    under the key. *)
Definition keep_entry (D : list (ptr * Z)) (e : ptr * Z) : bool :=
  match entry_find e.2 D with Some o => negb (o =? e.1) | None => false end.

Definition add_all (D : list (ptr * Z)) (L : list (ptr * Z)) : list (ptr * Z) := foldl (fun D e => entry_add e.1 e.2 D) D L.

(** No object is null. *)
Definition real (D : list (ptr * Z)) : Prop := forall e, e ∈ D -> e.1 <> NULL.

Lemma real_all D : Forall (fun e => e.1 <> NULL) D -> real D.
Proof. by rewrite Forall_forall. Qed.

Lemma real_find D k o : real D -> entry_find k D = Some o -> o <> NULL.
Proof.
  intros HD Hk. apply entry_find_some in Hk as (E1 & E2 & ->). apply (HD (o, k)). set_solver.
Qed.

Lemma real_add D o k : real D -> o <> NULL -> real (entry_add o k D).
Proof.
  intros HD Ho e He. assert (H : e = (o, k) \/ e ∈ D).
  { clear HD. revert He. unfold entry_add. induction D as [|d D IH]; cbn; [set_solver|]. destruct (k ?= d.2); set_solver. }
  destruct H as [->|H]; [done|by apply HD].
Qed.

(** The next item of the loop. *)
Definition start_of v (R : list (ptr * Z)) : ptr := default (cl_map_end (v_map v)) (head R.*1).

(** What one iteration on the item [x] leaves: the entry has gone to the
    destination, or is back, or there was no memory. *)
Definition iterated h d K (x k : Z) R h' d' s' (stop : bool) : Prop :=
  let o := h_object h x in
  if stop then v_free d = [] /\ objects h' d' = objects h d /\
    exists x', v_entries s' = K ++ (x', k) :: R /\ h_object h' x' = o
  else objects h' d' = entry_add o k (objects h d) /\
    exists K', v_entries s' = (K ++ K') ++ R /\
      obj_entries h' K' = if keep_entry (objects h d) (o, k) then [(o, k)] else [].

Lemma entries_eq_elem h h' E e : obj_entries h' E = obj_entries h E -> e ∈ E -> h_object h' e.1 = h_object h e.1.
Proof.
  unfold obj_entries. induction E as [|e' E IH]; intros Heq He; [by apply not_elem_of_nil in He|].
  rewrite !fmap_cons in Heq. injection Heq as E1 E2. apply elem_of_cons in He as [->|He]; [done|by apply IH].
Qed.

(** Both merging and the difference take an item out of one map and offer its
    object to another one, and can put it back. *)
Record transferred h d s K (x k : Z) R L h2 d1 s1 (r : ptr) : Prop := Transferred {
  tr_views : views_at h2 (d1 :: s1 :: L);
  tr_others : others_same h h2 L;
  tr_dest : same_view d d1;
  tr_src : same_view s s1;
  tr_entries : v_entries s1 = K ++ R;
  tr_free : v_free s1 = x :: v_free s;
  tr_objects : forall y, y ∈ (K ++ R).*1 -> h_object h2 y = h_object h y;
  tr_room : forall n, can_take d (S n) -> can_take d1 n;
  tr_items : (length (v_free d) <= S (length (v_free d1)))%nat;
  tr_result : r = NULL /\ v_free d = [] /\ objects h2 d1 = objects h d \/
    r = default (h_object h x) (entry_find k (objects h d)) /\ objects h2 d1 = entry_add (h_object h x) k (objects h d);
  tr_back : exists x' s2 h3, cl_map_insert (v_map s1) k (h_object h x) h2 = Some (h_object h x, v_map s2, h3) /\
    views_at h3 (d1 :: s2 :: L) /\ others_same h2 h3 (d1 :: L) /\ same_view s s2 /\ v_entries s2 = K ++ (x', k) :: R /\
    v_free s2 = v_free s /\ h_object h3 x' = h_object h x /\ (forall y, y ∈ (K ++ R).*1 -> h_object h3 y = h_object h y) }.

Lemma transfer h d s K x k R L :
  views_at h (d :: s :: L) -> v_entries s = K ++ (x, k) :: R -> can_take d 1 ->
  cl_map_next h x = start_of s R /\ cl_map_key h x = k /\ x <> cl_map_end (v_map s) /\
  exists s1 h1 r d1 h2, cl_map_remove_item (v_map s) x h = Some (v_map s1, h1) /\
    cl_map_insert (v_map d) k (h_object h x) h1 = Some (r, v_map d1, h2) /\
    transferred h d s K x k R L h2 d1 s1 r.
Proof.
  intros HL HE Hc. pose proof (views_head _ _ _ (views_swap _ _ _ _ HL)) as Hs0. unfold view_at in Hs0. rewrite HE in Hs0.
  destruct (omap_next _ _ _ _ _ _ _ _ Hs0) as (Hnext & _ & Hkey & Hend).
  destruct (sorted_mid Z.compare _ _ _ _ (map_at_sorted _ _ _ _ (om_map _ _ _ _ _ Hs0))) as [Hbelow Habove].
  split; [done|]. split; [done|]. split; [done|].
  destruct (take_view h s K x k R (d :: L) (views_swap _ _ _ _ HL) HE) as
    (s1 & h1 & Hrun1 & HL1 & Hoth1 & Hsv1 & HE1 & HF1 & Ho1).
  destruct (insert_view h1 d k (h_object h x) (s1 :: L) (views_swap _ _ _ _ HL1) Hc) as
    (r & d1 & h2 & Hrun2 & HL2 & Hoth2 & Hdv2 & Hod2 & Hres & Hc2 & HF2).
  exists s1, h1, r, d1, h2. split; [done|]. split; [done|].
  assert (Hsd : sorted Z.compare (v_entries d)) by (eapply map_at_sorted, (views_head _ _ _ HL)).
  assert (Hobj2 : forall y, y ∈ (K ++ R).*1 -> h_object h2 y = h_object h y).
  { intros y Hy. rewrite <- Ho1.
    assert (Hos : objects h2 s1 = objects h1 s1) by (apply Hoth2; by left). unfold objects, obj_entries in Hos. rewrite HE1 in Hos.
    apply list_elem_of_fmap in Hy as (e & -> & He). by apply (entries_eq_elem h1 h2 (K ++ R)). }
  constructor; try done.
  - intros u Hu. rewrite (Hoth2 u) by (by right). apply Hoth1. by right.
  - assert (Hd1 : objects h1 d = objects h d) by (apply Hoth1; by left).
    destruct (insert_objects h1 h2 _ _ k _ r _ _ Hsd Hod2 Hres) as [(Hr & HF & Ho2)|[Hr Ho2]].
    + left. split; [done|]. split; [done|]. rewrite <- Hd1. exact Ho2.
    + right. rewrite <- Hd1. by split.
  - destruct (put_back h2 s1 K R k (h_object h x) (d1 :: L) (views_swap _ _ _ _ HL2) HE1 Hbelow Habove) as
      (x' & s2 & h3 & Hr3 & HL3 & Hoth3 & Hs3 & HE3 & Hox3 & Ho3 & HF3); [by rewrite HF1|].
    exists x', s2, h3. split; [done|]. split; [by apply views_swap|]. split; [done|].
    split; [by eapply same_view_trans|]. split; [done|]. split; [by rewrite HF3, HF1|]. split; [done|].
    intros y Hy. by rewrite Ho3, Hobj2.
Qed.

Lemma merge_iter h d s K x k R L :
  views_at h (d :: s :: L) -> v_entries s = K ++ (x, k) :: R -> can_take d 1 ->
  h_object h x <> NULL -> real (objects h d) ->
  exists d' s' h' stop, views_at h' (d' :: s' :: L) /\ others_same h h' L /\ same_view d d' /\ same_view s s' /\
    (forall y, y ∈ (K ++ R).*1 -> h_object h' y = h_object h y) /\
    (forall n, can_take d (S n) -> can_take d' n) /\ (length (v_free d) <= S (length (v_free d')))%nat /\ iterated h d K x k R h' d' s' stop /\
    forall fuel, map_merge_loop (S fuel) (v_map d) (v_map s) x h =
      if stop : bool then Some (CL_INSUFFICIENT_MEMORY, v_map d', v_map s', h')
      else map_merge_loop fuel (v_map d') (v_map s') (start_of s' R) h'.
Proof.
  intros HL HE Hc Hox Hreal.
  destruct (transfer h d s K x k R L HL HE Hc) as (Hnext & Hkey & Hend & s1 & h1 & r & d1 & h2 & Hrun1 & Hrun2 & Htr).
  assert (Hloop : forall fuel, map_merge_loop (S fuel) (v_map d) (v_map s) x h =
    if decide (h_object h x <> r) then
      '(_, m, h3) ← cl_map_insert (v_map s1) k (h_object h x) h2;
      if decide ((if decide (r = NULL) then CL_INSUFFICIENT_MEMORY else CL_SUCCESS) <> CL_SUCCESS)
      then Some (if decide (r = NULL) then CL_INSUFFICIENT_MEMORY else CL_SUCCESS, v_map d1, m, h3)
      else map_merge_loop fuel (v_map d1) m (start_of s R) h3
    else map_merge_loop fuel (v_map d1) (v_map s1) (start_of s R) h2).
  { intros fuel. cbn [map_merge_loop]. rewrite decide_False by done. rewrite Hkey, Hrun1, Hnext. unfold cl_map_obj.
    cbn [mbind option_bind]. rewrite Hrun2. cbn [mbind option_bind]. done. }
  destruct Htr as [HL2 Hoth2 Hdv Hsv HE1 HF1 Hobj2 Hc2 HF2 Hres (x' & s2 & h3 & Hr3 & HL3 & Hoth3 & Hs3 & HE3 & _ & Hox3 & Ho3)].
  assert (Hstart : forall s', same_view s s' -> start_of s R = start_of s' R).
  { intros s' Hs'. unfold start_of. by rewrite (same_view_end _ _ Hs'). }
  assert (Hothers : others_same h h3 L).
  { eapply others_trans; [exact Hoth2|]. intros u Hu. apply Hoth3. by right. }
  assert (Hd3 : objects h3 d1 = objects h2 d1) by (apply Hoth3; by left).
  destruct Hres as [(-> & HF & Ho2)|[Hr Ho2]].
  - exists d1, s2, h3, true. do 7 (split; [done|]). split.
    + split; [done|]. split; [by rewrite Hd3|]. by exists x'.
    + intros fuel. by rewrite Hloop, decide_True, Hr3 by done.
  - assert (Hr0 : r <> NULL).
    { rewrite Hr. destruct (entry_find k (objects h d)) as [o'|] eqn:Hk; [by eapply real_find|done]. }
    destruct (decide (h_object h x = r)) as [Er|Er].
    + exists d1, s1, h2, false. do 7 (split; [done|]). split.
      * split; [done|]. exists []. split; [by rewrite app_nil_r|]. unfold keep_entry. cbn [snd fst].
        rewrite Er. destruct (entry_find k (objects h d)) as [o'|]; [|done].
        cbn in Hr. rewrite Hr, Z.eqb_refl. done.
      * intros fuel. rewrite Hloop, decide_False by (intros H; by apply H). by rewrite (Hstart s1) by done.
    + exists d1, s2, h3, false. do 7 (split; [done|]). split.
      * split; [by rewrite Hd3|]. exists [(x', k)]. split; [by rewrite <- (assoc_L (++))|].
        unfold keep_entry. cbn [snd fst]. destruct (entry_find k (objects h d)) as [o'|]; [|by cbn in Hr].
        cbn in Hr. subst r. rewrite (proj2 (Z.eqb_neq o' _)) by done. cbn. by rewrite Hox3.
      * intros fuel. rewrite Hloop, decide_True, Hr3 by done. cbn [mbind option_bind].
        rewrite (decide_False (P := r = NULL)) by done. rewrite decide_False by (intros H; by apply H).
        by rewrite (Hstart s2).
Qed.

(** The next key is another one: whether it is taken does not depend on this one. *)
Lemma find_add_other k' o k D : k' <> k -> entry_find k' (entry_add o k D) = entry_find k' D.
Proof.
  intros Hk. assert (Hc : (k' ?= k) <> Eq) by (by rewrite Z.compare_eq_iff). unfold entry_find, entry_add, lookup_key.
  induction D as [|e D IH]; cbn [entry_insert fst snd].
  - rewrite filterb_cons. cbn [snd]. by rewrite bool_decide_false.
  - destruct (k ?= e.2); rewrite !filterb_cons; cbn [snd]; [done|by rewrite (bool_decide_false (k' ?= k = Eq))|].
    destruct (bool_decide (k' ?= e.2 = Eq)); [done|exact IH].
Qed.

Lemma keep_add_other o k D E : (forall e, e ∈ E -> e.2 <> k) -> filterb (keep_entry (entry_add o k D)) E = filterb (keep_entry D) E.
Proof. intros H. apply filterb_ext. intros e He. unfold keep_entry. by rewrite find_add_other by (by apply H). Qed.

Lemma can_take_le h v n n' : view_at h v -> (n <= n')%nat -> can_take v n' -> can_take v n.
Proof.
  intros Hv Hn [H|H]; [left; lia|right]. eapply fits_le; [apply (om_items _ _ _ _ _ Hv)| |exact H]. lia.
Qed.

Lemma obj_entries_app h E1 E2 : obj_entries h (E1 ++ E2) = obj_entries h E1 ++ obj_entries h E2.
Proof. unfold obj_entries. apply fmap_app. Qed.

(** What the merge of [R] into [d] leaves, [K] being what has stayed so far. *)
Definition merged_objects (D KO RO D' S' : list (ptr * Z)) (st : cl_status_t) : Prop :=
  exists R1 R2, RO = R1 ++ R2 /\ D' = add_all D R1 /\ S' = KO ++ filterb (keep_entry D) R1 ++ R2 /\
    (st = CL_SUCCESS /\ R2 = [] \/ st = CL_INSUFFICIENT_MEMORY /\ R2 <> []).

Lemma merge_loop_objects : forall R fuel h d s K L,
  (length R < fuel)%nat -> views_at h (d :: s :: L) -> v_entries s = K ++ R -> can_take d (length R) ->
  real (objects h d) -> real (obj_entries h R) ->
  exists d' s' h' st, map_merge_loop fuel (v_map d) (v_map s) (start_of s R) h = Some (st, v_map d', v_map s', h') /\
    views_at h' (d' :: s' :: L) /\ others_same h h' L /\ same_view d d' /\ same_view s s' /\
    merged_objects (objects h d) (obj_entries h K) (obj_entries h R) (objects h' d') (objects h' s') st /\
    ((length R <= length (v_free d))%nat -> st = CL_SUCCESS).
Proof.
  induction R as [|[x k] R IH]; intros [|fuel] h d s K L Hf HL HE Hc Hd HR; try (cbn in Hf; lia).
  - exists d, s, h, CL_SUCCESS. cbn. rewrite decide_True by done. do 5 (split; [done|]). split; [|done].
    exists [], []. unfold objects. rewrite HE, obj_entries_app. by split_and!; [..|left].
  - cbn in Hf, Hc. pose proof (views_head _ _ _ HL) as Hvd.
    destruct (merge_iter h d s K x k R L HL HE (can_take_le h d 1 _ Hvd (le_n_S _ _ (Nat.le_0_l _)) Hc)) as
      (d1 & s1 & h1 & stop & HL1 & Hoth1 & Hsd1 & Hss1 & Ho1 & Hc1 & HF1 & Hit & Hrun); [apply (HR (h_object h x, k)); by left|done|].
    change (start_of s ((x, k) :: R)) with x. rewrite Hrun.
    assert (HoE : forall E, E ⊆ K ++ R -> obj_entries h1 E = obj_entries h E).
    { intros E HEs. apply obj_entries_same. intros y (e & -> & He)%list_elem_of_fmap. apply Ho1, list_elem_of_fmap. eauto. }
    assert (HK1 : obj_entries h1 K = obj_entries h K) by (apply HoE; set_solver).
    assert (HR1 : obj_entries h1 R = obj_entries h R) by (apply HoE; set_solver).
    change (obj_entries h ((x, k) :: R)) with ((h_object h x, k) :: obj_entries h R) in *.
    destruct stop; unfold iterated in Hit.
    + destruct Hit as (HF & Hdo & x' & HE1 & Hox'). exists d1, s1, h1, CL_INSUFFICIENT_MEMORY. do 5 (split; [done|]).
      split; [|rewrite HF; cbn; intros; lia]. exists [], ((h_object h x, k) :: obj_entries h R). split; [done|]. split; [done|].
      split; [|by right]. unfold objects. rewrite HE1, obj_entries_app, HK1. unfold obj_entries at 2. cbn. rewrite Hox'.
      fold (obj_entries h1 R). by rewrite HR1.
    + destruct Hit as (Hdo & K' & HE1 & HK').
      destruct (IH fuel h1 d1 s1 (K ++ K') L) as (d2 & s2 & h2 & st & Hrun2 & HL2 & Hoth2 & Hsd2 & Hss2 & Hm & Hok);
        [lia|done|done|by apply Hc1|..].
      { rewrite Hdo. apply real_add; [done|]. apply (HR (h_object h x, k)). by left. }
      { rewrite HR1. intros e He. apply HR. by right. }
      exists d2, s2, h2, st. split; [done|]. split; [done|]. split; [by eapply others_trans|].
      split; [by eapply same_view_trans|]. split; [by eapply same_view_trans|]. split; [|cbn; intros; apply Hok; lia].
      rewrite Hdo, HR1, obj_entries_app, HK1, HK' in Hm. destruct Hm as (R1 & R2 & HRR & HD & HS & Hst).
      exists ((h_object h x, k) :: R1), R2. split; [by rewrite HRR|]. split; [done|]. split; [|done].
      rewrite HS, filterb_cons, keep_add_other.
      * destruct (keep_entry _ _); by rewrite <- (assoc_L (++)).
      * intros e He. assert (HeR : e ∈ obj_entries h R) by (rewrite HRR; set_solver).
        apply list_elem_of_fmap in HeR as (e' & -> & He').
        pose proof (map_at_sorted _ _ _ _ (om_map _ _ _ _ _ (views_head _ _ _ (views_swap _ _ _ _ HL)))) as Hso.
        rewrite HE in Hso. destruct (sorted_mid Z.compare _ _ _ _ Hso) as [_ Ha].
        specialize (Ha e' He'). cbn in Ha |- *. intros <-. by rewrite Z.compare_refl in Ha.
Qed.

Lemma view_cursor h v R :
  view_at h v -> v_entries v = R -> cl_map_head (v_map v) h = start_of v R /\ map_fuel (qmap (v_map v)) = S (length R).
Proof.
  intros Hv <-. split; [exact (omap_head _ _ _ _ _ Hv)|exact (omap_fuel _ _ _ _ _ Hv)].
Qed.

Lemma merge_objects h d s L :
  views_at h (d :: s :: L) -> can_take d (length (v_entries s)) -> real (objects h d) -> real (objects h s) ->
  exists d' s' h' st, cl_map_merge (v_map d) (v_map s) h = Some (st, v_map d', v_map s', h') /\
    views_at h' (d' :: s' :: L) /\ others_same h h' L /\ same_view d d' /\ same_view s s' /\
    merged_objects (objects h d) [] (objects h s) (objects h' d') (objects h' s') st /\
    ((length (v_entries s) <= length (v_free d))%nat -> st = CL_SUCCESS).
Proof.
  intros HL Hc Hd Hs. destruct (view_cursor h s _ (views_head _ _ _ (views_swap _ _ _ _ HL)) eq_refl) as [E1 E2].
  unfold cl_map_merge. rewrite E1, E2. by apply (merge_loop_objects _ _ h d s []); [lia|..].
Qed.

(** C23. Merging two maps of objects, none of them null: the source's entries are
    offered to the destination in key order, and each is added under its key unless
    the key is in use there; those that meet another object under their key are left
    in the source, those that meet themselves are in the destination alone.  It ends
    with success, or for want of memory, and then what had not been offered is still
    in the source.  It does not fail if the destination has a free item for every
    entry, and all other maps of objects in the memory stay as they are. *)
Theorem map_merge_objects h d s others :
  views_at h (d :: s :: others) -> can_take d (length (v_entries s)) -> real (objects h d) -> real (objects h s) ->
  exists st d' s' h' offered left,
    cl_map_merge (v_map d) (v_map s) h = Some (st, v_map d', v_map s', h') /\
    views_at h' (d' :: s' :: others) /\ (forall u, u ∈ others -> objects h' u = objects h u) /\
    objects h s = offered ++ left /\
    objects h' d' = foldl (fun D e => entry_add e.1 e.2 D) (objects h d) offered /\
    objects h' s' = filterb (keep_entry (objects h d)) offered ++ left /\
    (st = CL_SUCCESS /\ left = [] \/ st = CL_INSUFFICIENT_MEMORY /\ left <> []) /\
    ((length (v_entries s) <= length (v_free d))%nat -> st = CL_SUCCESS).
Proof.
  intros HL Hc Hd Hs. destruct (merge_objects h d s others HL Hc Hd Hs) as
    (d' & s' & h' & st & Hrun & HL' & Hoth & _ & _ & (R1 & R2 & HR & HD & HS & Hst) & Hok).
  exists st, d', s', h', R1, R2. by split_and!.
Qed.

(** ** Building several maps *)

(** Addresses in use that are not part of the maps. *)
Definition spare h L (Q : list ptr) : Prop := forall q, q ∈ Q -> owned (h_alloc h) q /\ q ∉ (L ≫= area).

(** The maps stay while another is started. *)
Lemma init_view h m L Q min n :
  views_at h L -> spare h L (map_area m [] [] [] ++ Q) -> NoDup (map_area m [] [] [] ++ Q) -> 0 <= min < 2 ^ 32 ->
  min + Z.of_nat n * growth_of MAP_GROW_SIZE min < 2 ^ 32 ->
  exists st m' h', cl_map_init m min h = Some (st, m', h') /\
    (st = CL_SUCCESS -> exists v, v_map v = m' /\ views_at h' (v :: L) /\ spare h' (v :: L) Q /\ others_same h h' L /\
       v_entries v = [] /\ can_take v n).
Proof.
  intros [HF HndL] HQ (Hnd & HmQ & _)%NoDup_app Hmin Hfit.
  destruct (map_init_obj_spec h m min (Z.of_nat n)) as (st & m' & h' & Hrun & _ & Hok); [|done|lia|done|].
  { split; [done|]. intros q Hq. apply HQ. set_solver. }
  exists st, m', h'. split; [done|]. intros Hst. destruct (Hok Hst) as (F & B & Hm & Hf & _ & Hk).
  exists (View m' [] F B). split; [done|].
  destruct (views_join h h' (map_area m [] [] []) (View m' [] F B) L HF) as [H1 H2]; [|done|done|].
  { apply NoDup_app. split; [done|]. split; [|done]. intros q Hq. apply HQ. set_solver. }
  split; [done|]. split; [|split; [done|split; [done|by right]]].
  intros q Hq. destruct (HQ q) as [Ho HqL]; [set_solver|]. split; [by apply (proj1 Hk)|].
  change (q ∉ area (View m' [] F B) ++ (L ≫= area)). rewrite not_elem_of_app. split; [|done].
  apply (proj2 Hk q Ho). intros Hin. by apply (HmQ q).
Qed.

(** An insertion that has succeeded. *)
Lemma insert_done h v k o L r m' h' :
  views_at h (v :: L) -> can_take v 1 -> cl_map_insert (v_map v) k o h = Some (r, m', h') -> r <> NULL ->
  exists v', v_map v' = m' /\ views_at h' (v' :: L) /\ others_same h h' L /\
    objects h' v' = entry_add o k (objects h v) /\ (forall n, can_take v (S n) -> can_take v' n).
Proof.
  intros HL Hc Hrun Hr. destruct (insert_view h v k o L HL Hc) as
    (r' & v' & h1 & Hrun' & HL' & Hoth & _ & Ho & Hres & Hc' & _). rewrite Hrun in Hrun'. injection Hrun' as -> -> ->.
  exists v'. split; [done|]. split; [done|]. split; [done|]. split; [|done].
  destruct (insert_objects h h1 _ _ k o r' _ _ (map_at_sorted _ _ _ _ (om_map _ _ _ _ _ (views_head _ _ _ HL))) Ho Hres)
    as [(-> & _)|[_ H]]; [done|exact H].
Qed.

Lemma empty_objects h v : v_entries v = [] -> objects h v = [].
Proof. intros H. unfold objects. by rewrite H. Qed.

End Views.

(** ** Four concrete maps *)

(** What the calls of an example leave, or no memory at all. *)
Definition demo_result {X} (r : option (X * cl_map_t bump * heap bump tree_fields)) : cl_map_t bump * heap bump tree_fields :=
  match r with Some (_, m, h) => (m, h) | None => (demo_omap 0, demo_map_heap) end.
Definition demo_start (base : Z) h := demo_result (cl_map_init (demo_omap base) 2 h).
Definition demo_add m h (k : Z) (o : ptr) := demo_result (cl_map_insert m k o h).

Definition start1 := demo_start 100 demo_map_heap.
Definition start2 := demo_start 200 start1.2.
Definition start3 := demo_start 300 start2.2.
Definition start4 := demo_start 400 start3.2.
Definition add2 m h (k1 : Z) (o1 : ptr) (k2 : Z) (o2 : ptr) := let r := demo_add m h k1 o1 in demo_add r.1 r.2 k2 o2.
Definition fill1 := add2 start1.1 start4.2 3 30 5 50.
Definition fill2 := add2 start2.1 fill1.2 3 31 4 40.
Definition fill3 := demo_add fill2.1 fill2.2 5 50.

Lemma demo_started base h L Q :
  views_at h L -> spare h L (map_area (demo_omap base) [] [] [] ++ Q) -> NoDup (map_area (demo_omap base) [] [] [] ++ Q) ->
  (fst <$> (fst <$> cl_map_init (demo_omap base) 2 h)) = Some CL_SUCCESS ->
  exists v, v_map v = (demo_start base h).1 /\ views_at (demo_start base h).2 (v :: L) /\
    spare (demo_start base h).2 (v :: L) Q /\ others_same h (demo_start base h).2 L /\ v_entries v = [] /\ can_take v 10.
Proof.
  intros HL HQ Hnd Hok. destruct (init_view h (demo_omap base) L Q 2 10 HL HQ Hnd) as (st & m' & h' & Hrun & H); [lia|vm_compute; done|].
  unfold demo_start. rewrite Hrun in Hok |- *. injection Hok as ->. by apply H.
Qed.

Lemma demo_added v m h k o L n r :
  r = demo_add m h k o -> views_at h (v :: L) -> v_map v = m -> can_take v (S n) -> o <> NULL ->
  (fst <$> (fst <$> cl_map_insert m k o h)) = Some o ->
  exists v', v_map v' = r.1 /\ views_at r.2 (v' :: L) /\ others_same h r.2 L /\
    objects r.2 v' = entry_add o k (objects h v) /\ can_take v' n.
Proof.
  intros -> HL <- Hc Ho Hr. unfold demo_add.
  destruct (cl_map_insert (v_map v) k o h) as [[[r' m'] h']|] eqn:Hrun; [|done]. injection Hr as ->.
  destruct (insert_done h v k o L o m' h' HL) as (v' & H1 & H2 & H3 & H4 & H5); [|done|done|].
  { eapply can_take_le; [by eapply views_head| |exact Hc]. lia. }
  exists v'. split_and!; [done..|by apply H5].
Qed.

Definition demo_bases : list Z := [100; 200; 300; 400].
Definition demo_space (bases : list Z) : list ptr := bases ≫= (fun base => map_area (demo_omap base) [] [] []).

Lemma demo_space_owned h bases : h_alloc h = Bump 1000 [] -> Forall (fun q => q < 1000) (demo_space bases) -> spare h [] (demo_space bases).
Proof.
  intros Ea H q Hq. split; [|by apply not_elem_of_nil]. rewrite Ea. rewrite Forall_forall in H. exact (H q Hq).
Qed.

(** The four maps after they have started. *)
Lemma demo_starts :
  exists v1 v2 v3 v4, v_map v1 = start1.1 /\ v_map v2 = start2.1 /\ v_map v3 = start3.1 /\ v_map v4 = start4.1 /\
    views_at start4.2 [v1; v2; v3; v4] /\ Forall (fun v => v_entries v = [] /\ can_take v 10) [v1; v2; v3; v4].
Proof.
  assert (Hsp : spare demo_map_heap [] (demo_space [100; 200; 300; 400])) by (apply demo_space_owned; [done|vm_decide]).
  destruct (demo_started 100 demo_map_heap [] (demo_space [200; 300; 400])) as (v1 & E1 & H1 & S1 & _ & N1 & C1);
    [by split; [|apply NoDup_nil]|exact Hsp|vm_decide|vm_compute; reflexivity|].
  destruct (demo_started 200 start1.2 [v1] (demo_space [300; 400])) as (v2 & E2 & H2 & S2 & _ & N2 & C2);
    [exact H1|exact S1|vm_decide|vm_compute; reflexivity|].
  destruct (demo_started 300 start2.2 [v2; v1] (demo_space [400])) as (v3 & E3 & H3 & S3 & _ & N3 & C3);
    [exact H2|exact S2|vm_decide|vm_compute; reflexivity|].
  destruct (demo_started 400 start3.2 [v3; v2; v1] (demo_space [])) as (v4 & E4 & H4 & _ & _ & N4 & C4);
    [exact H3|exact S3|vm_decide|vm_compute; reflexivity|].
  exists v1, v2, v3, v4. do 4 (split; [assumption|]). split; [|by repeat (apply Forall_cons_2; [split; assumption|])].
  eapply views_perm; [|exact H4]. solve_Permutation.
Qed.

(** Two insertions. *)
Lemma demo_filled v m h k1 o1 k2 o2 L n r :
  r = add2 m h k1 o1 k2 o2 -> views_at h (v :: L) -> v_map v = m -> can_take v (S (S n)) -> o1 <> NULL -> o2 <> NULL ->
  (fst <$> (fst <$> cl_map_insert m k1 o1 h)) = Some o1 ->
  (let r := demo_add m h k1 o1 in fst <$> (fst <$> cl_map_insert r.1 k2 o2 r.2)) = Some o2 ->
  exists v', v_map v' = r.1 /\ views_at r.2 (v' :: L) /\ others_same h r.2 L /\
    objects r.2 v' = entry_add o2 k2 (entry_add o1 k1 (objects h v)) /\ can_take v' n.
Proof.
  intros -> HL Hm Hc Ho1 Ho2 Hr1 Hr2. cbv zeta in *. unfold add2.
  destruct (demo_added v m h k1 o1 L (S n) _ eq_refl HL Hm Hc Ho1 Hr1) as (v1 & E1 & H1 & O1 & X1 & C1).
  destruct (demo_added v1 _ _ k2 o2 L n _ eq_refl H1 E1 C1 Ho2 Hr2) as (v2 & E2 & H2 & O2 & X2 & C2).
  exists v2. split; [done|]. split; [done|]. split; [by eapply others_trans|]. split; [by rewrite X2, X1|done].
Qed.

Lemma fill1_eq : fill1 = add2 start1.1 start4.2 3 30 5 50.
Proof. reflexivity. Qed.
Lemma fill2_eq : fill2 = add2 start2.1 fill1.2 3 31 4 40.
Proof. reflexivity. Qed.
Lemma fill3_eq : fill3 = demo_add fill2.1 fill2.2 5 50.
Proof. reflexivity. Qed.

(** Two of them hold objects. *)
Lemma demo_maps :
  exists v1 v2 v3 v4, v_map v1 = fill1.1 /\ v_map v2 = fill3.1 /\ v_map v3 = start3.1 /\ v_map v4 = start4.1 /\
    views_at fill3.2 [v1; v2; v3; v4] /\ objects fill3.2 v1 = [(30, 3); (50, 5)] /\
    objects fill3.2 v2 = [(31, 3); (40, 4); (50, 5)] /\ v_entries v3 = [] /\ v_entries v4 = [] /\
    Forall (fun v => can_take v 5) [v1; v2; v3; v4].
Proof.
  destruct demo_starts as (v1 & v2 & v3 & v4 & E1 & E2 & E3 & E4 & H & HF).
  rewrite !Forall_cons in HF. destruct HF as ([N1 C1] & [N2 C2] & [N3 C3] & [N4 C4] & _).
  assert (C34 : can_take v3 5 /\ can_take v4 5).
  { destruct H as [HF _]. rewrite !Forall_cons in HF. destruct HF as (_ & _ & V3 & V4 & _).
    split; (eapply can_take_le; [eassumption| |eassumption]; lia). }
  destruct (demo_filled v1 start1.1 start4.2 3 30 5 50 _ 8 fill1 fill1_eq H E1 C1) as (u1 & F1 & H1 & O1 & X1 & D1); [done|done|vm_compute; reflexivity..|].
  destruct (demo_filled v2 start2.1 fill1.2 3 31 4 40 _ 8 fill2 fill2_eq (views_swap _ _ _ _ H1) E2 C2) as (u2 & F2 & H2 & O2 & X2 & D2);
    [done|done|vm_compute; reflexivity..|].
  destruct (demo_added u2 fill2.1 fill2.2 5 50 _ 7 fill3 fill3_eq H2 F2 D2) as (w2 & F3 & H3 & O3 & X3 & D3); [done|vm_compute; reflexivity|].
  assert (U1 : objects fill3.2 u1 = [(30, 3); (50, 5)]).
  { rewrite (O3 u1), (O2 u1), X1, empty_objects by (assumption || by left). reflexivity. }
  assert (U2 : objects fill3.2 w2 = [(31, 3); (40, 4); (50, 5)]).
  { rewrite X3, X2, (O1 v2), empty_objects by (assumption || by left). reflexivity. }
  assert (D : can_take u1 5 /\ can_take w2 5).
  { apply views_swap in H3. destruct H3 as [HF _]. rewrite !Forall_cons in HF. destruct HF as (V1 & V2 & _).
    split; (eapply can_take_le; [eassumption| |eassumption]; lia). }
  exists u1, w2, v3, v4. do 4 (split; [assumption|]). split; [by apply views_swap|]. do 4 (split; [assumption|]).
  repeat (apply Forall_cons_2; [tauto|]). by apply Forall_nil.
Qed.

(** The object under key 5 is in both maps: it leaves the second one. *)
Lemma map_merge_objects_witness :
  (fst <$> (fst <$> (fst <$> cl_map_merge fill1.1 fill3.1 fill3.2))) = Some CL_SUCCESS /\
  exists v1 v2 v3 v4, views_at fill3.2 [v1; v2; v3; v4] /\
  exists st d' s' h' offered left,
    cl_map_merge fill1.1 fill3.1 fill3.2 = Some (st, v_map d', v_map s', h') /\
    views_at h' [d'; s'; v3; v4] /\ (forall u, u ∈ [v3; v4] -> objects h' u = objects fill3.2 u) /\
    [(31, 3); (40, 4); (50, 5)] = offered ++ left /\
    objects h' d' = foldl (fun D e => entry_add e.1 e.2 D) [(30, 3); (50, 5)] offered /\
    objects h' s' = filterb (keep_entry [(30, 3); (50, 5)]) offered ++ left /\
    (st = CL_SUCCESS /\ left = [] \/ st = CL_INSUFFICIENT_MEMORY /\ left <> []).
Proof.
  destruct demo_maps as (v1 & v2 & v3 & v4 & E1 & E2 & _ & _ & H & O1 & O2 & _ & _ & HC).
  split; [vm_compute; reflexivity|]. exists v1, v2, v3, v4. split; [assumption|].
  destruct (map_merge_objects fill3.2 v1 v2 [v3; v4] H) as (st & d' & s' & h' & l1 & l2 & Hr & H1 & H2 & H3 & H4 & H5 & H6 & _).
  - assert (El : length (v_entries v2) = 3%nat) by (transitivity (length (objects fill3.2 v2)); [unfold objects, obj_entries; by rewrite length_fmap|by rewrite O2]).
    rewrite El. rewrite !Forall_cons in HC. destruct H as [HF _]. rewrite !Forall_cons in HF.
    eapply can_take_le; [apply HF| |apply HC]. lia.
  - rewrite O1. apply real_all. vm_decide.
  - rewrite O2. apply real_all. vm_decide.
  - rewrite O1 in H4, H5. rewrite O2 in H3. rewrite E1, E2 in Hr.
    exists st, d', s', h', l1, l2. split_and!; assumption.
Defined.
