(* ===== verification/ObjMapDelta.v ===== *)
(** * Maps of objects: the difference of two maps

    [cl_map_delta] moves the objects whose key is in only one of two maps out of
    them, or, when memory runs out on the way, moves all of them back. *)

From S2P Require Import Prelude Qlist RbMap MapSpec MapOps QMap Pool ObjPool ObjMap ObjMapSpec ObjMapProps ObjMapMerge.

Local Open Scope Z_scope.
Local Open Scope list_scope.

(** ** Lists of objects with different keys *)

Implicit Types D E : list (ptr * Z).

Lemma sorted_key_nodup E : sorted Z.compare E -> NoDup E.*2.
Proof.
  induction E as [|e E IH]; [constructor|]. intros [H1 H2]. apply NoDup_cons. split; [|by apply IH].
  intros (e' & He & Hin)%list_elem_of_fmap. specialize (H1 e' Hin). unfold key_lt in H1. by rewrite He, Z.compare_refl in H1.
Qed.

Lemma sorted_perm_eq E1 : forall E2, sorted Z.compare E1 -> sorted Z.compare E2 -> E1 ≡ₚ E2 -> E1 = E2.
Proof.
  induction E1 as [|e1 E1 IH]; intros E2 H1 H2 HP; [by apply Permutation_nil_l in HP|].
  destruct E2 as [|e2 E2]; [by symmetry in HP; apply Permutation_nil_l in HP|]. destruct H1 as [H1 S1], H2 as [H2 S2].
  assert (e1 = e2) as <-.
  { assert (He1 : e1 ∈ e2 :: E2) by (rewrite <- HP; by left). assert (He2 : e2 ∈ e1 :: E1) by (rewrite HP; by left).
    apply elem_of_cons in He1 as [?|He1]; [done|]. apply elem_of_cons in He2 as [?|He2]; [done|].
    specialize (H1 e2 He2). specialize (H2 e1 He1). unfold key_lt in *. rewrite Z.compare_lt_iff in *. lia. }
  f_equal. apply IH; [done|done|]. by eapply Permutation_cons_inv.
Qed.

Lemma find_none k D : k ∉ D.*2 -> entry_find k D = None.
Proof.
  intros Hk. destruct (entry_find k D) as [o|] eqn:E; [|done]. apply entry_find_some in E as (E1 & E2 & ->).
  destruct Hk. rewrite fmap_app. set_solver.
Qed.

Lemma entry_add_cons o k D : entry_find k D = None -> entry_add o k D ≡ₚ (o, k) :: D.
Proof.
  unfold entry_find, entry_add, lookup_key. induction D as [|e D IH]; intros Hn; cbn; [done|].
  rewrite filterb_cons in Hn. destruct (k ?= e.2) eqn:Ek; [by rewrite bool_decide_true in Hn|done|].
  rewrite bool_decide_false in Hn by done. rewrite (IH Hn). apply perm_swap.
Qed.

Lemma add_all_perm E : forall D, NoDup (D ++ E).*2 -> add_all D E ≡ₚ D ++ E.
Proof.
  induction E as [|[o k] E IH]; intros D Hnd; [by rewrite app_nil_r|].
  assert (HP : entry_add o k D ≡ₚ (o, k) :: D).
  { apply entry_add_cons, find_none. rewrite fmap_app, fmap_cons in Hnd. apply NoDup_app in Hnd as (_ & Hn & _).
    intros Hin. apply (Hn k Hin). by left. }
  unfold add_all. cbn [foldl fst snd]. fold (add_all (entry_add o k D) E).
  assert (HP2 : entry_add o k D ++ E ≡ₚ D ++ (o, k) :: E) by (rewrite HP; solve_Permutation).
  rewrite IH; [done|]. by rewrite HP2.
Qed.

Lemma keep_disjoint D E : NoDup (D ++ E).*2 -> filterb (keep_entry D) E = [].
Proof.
  rewrite fmap_app. intros (_ & H & _)%NoDup_app. apply (filterb_none Z.compare). intros e He. unfold keep_entry.
  rewrite find_none; [done|]. intros Hin. apply (H e.2 Hin). by apply (list_elem_of_fmap_2 snd).
Qed.

Section Delta.
Context {A : Type} {AL : Allocator A} {LA : AllocatorLaws A}.
Implicit Types (h : heap A tree_fields) (u v src dest : view (A := A)) (L : list (view (A := A))) (g r : list (ptr * Z)).

Lemma length_objects h v : length (objects h v) = length (v_entries v).
Proof. unfold objects, obj_entries. by rewrite length_fmap. Qed.

Lemma view_sorted h v : view_at h v -> sorted Z.compare (objects h v).
Proof. intros Hv. eapply sorted_entries, map_at_sorted, (om_map _ _ _ _ _ Hv). Qed.

Lemma entries_part h h' v E : objects h' v = objects h v -> E ⊆ v_entries v -> obj_entries h' E = obj_entries h E.
Proof.
  intros Ho HE. apply obj_entries_same. intros y (e & -> & He)%list_elem_of_fmap.
  apply (entries_eq_elem h h' (v_entries v)); [done|by apply HE].
Qed.

(** ** One map and what has left it *)

(** The objects [O] that the map [src] had are in it or in [dest], and there is a
    free item for each that is to come back. *)
Definition can_return (O : list (ptr * Z)) h src dest : Prop :=
  (length (v_entries dest) <= length (v_free src))%nat /\ O ≡ₚ objects h src ++ objects h dest.

(** Of these [g] have been kept, [r] are to be looked at, and the others, with keys
    below all of [r], are in [dest]. *)
Record side (O : list (ptr * Z)) h src g r dest : Prop := Side {
  sd_entries : v_entries src = g ++ r;
  sd_below : all_below Z.compare (obj_entries h r) (objects h dest);
  sd_take : can_take dest (length r);
  sd_return : can_return O h src dest }.

Lemma side_frame O h h' src g r dest :
  side O h src g r dest -> objects h' src = objects h src -> objects h' dest = objects h dest ->
  side O h' src g r dest /\ obj_entries h' g = obj_entries h g /\ obj_entries h' r = obj_entries h r.
Proof.
  intros [H1 H2 H3 [H4 H5]] Hs Hd.
  assert (Hg : obj_entries h' g = obj_entries h g) by (apply (entries_part _ _ _ _ Hs); rewrite H1; set_solver).
  assert (Hr : obj_entries h' r = obj_entries h r) by (apply (entries_part _ _ _ _ Hs); rewrite H1; set_solver).
  split; [|done]. constructor; rewrite ?Hd, ?Hr; try done. split; [done|]. by rewrite Hs, Hd.
Qed.

(** The moves of one map do not affect the other one. *)
Lemma side_others O h h' src g r dest L :
  side O h src g r dest -> others_same h h' L -> src ∈ L -> dest ∈ L ->
  side O h' src g r dest /\ obj_entries h' g = obj_entries h g /\ obj_entries h' r = obj_entries h r /\ objects h' dest = objects h dest.
Proof.
  intros Hs Ho H1 H2. destruct (side_frame O h h' src g r dest Hs (Ho _ H1) (Ho _ H2)) as (H3 & H4 & H5).
  split_and!; try done. by apply Ho.
Qed.

(** What a move of [x] leaves. *)
Definition moved (O : list (ptr * Z)) h src g (x : ptr) (k : Z) r dest (st : cl_status_t) (it : ptr) h' src' dest' : Prop :=
  st = CL_SUCCESS /\ it = start_of src' r /\ side O h' src' g r dest' /\
    obj_entries h' g = obj_entries h g /\ obj_entries h' r = obj_entries h r /\
    objects h' dest' = objects h dest ++ [(h_object h x, k)] /\ (length (v_free dest) <= S (length (v_free dest')))%nat \/
  st = CL_INSUFFICIENT_MEMORY /\ v_free dest = [] /\ can_return O h' src' dest'.

Lemma move_view O h src g x k r dest L :
  views_at h (src :: dest :: L) -> side O h src g ((x, k) :: r) dest -> real O ->
  exists st dest' src' it h',
    __cl_map_delta_move (v_map dest) (v_map src) x h = Some (st, v_map dest', v_map src', it, h') /\
    views_at h' (src' :: dest' :: L) /\ others_same h h' L /\ same_view src src' /\ same_view dest dest' /\
    moved O h src g x k r dest st it h' src' dest'.
Proof.
  intros HL [HE Hb Hc [Hback Hall]] Hreal. pose proof (views_head _ _ _ (views_swap _ _ _ _ HL)) as Hvd.
  destruct (transfer h dest src g x k r L (views_swap _ _ _ _ HL) HE) as
    (Hnext & Hkey & Hend & s1 & h1 & v & d1 & h2 & Hrun1 & Hrun2 & [HL2 Hoth2 Hdv Hsv HE1 HF1 Hobj2 Hc2 HF2 Hres Htr]).
  { eapply can_take_le; [exact Hvd| |exact Hc]. cbn. lia. }
  assert (Hox : h_object h x <> NULL).
  { apply (Hreal (h_object h x, k)). rewrite Hall. unfold objects. rewrite HE, obj_entries_app. cbn. set_solver. }
  assert (Hbk : below Z.compare k (objects h dest)) by (apply (Hb (h_object h x, k)); by left).
  assert (Hfind : entry_find k (objects h dest) = None).
  { rewrite <- (app_nil_r (objects h dest)). apply (lookup_key_none_split Z.compare); [done|]. by intros e ?%elem_of_nil. }
  assert (HoE : forall h', (forall y, y ∈ (g ++ r).*1 -> h_object h' y = h_object h y) -> forall E, E ⊆ g ++ r ->
    obj_entries h' E = obj_entries h E).
  { intros h' Ho E HEs. apply obj_entries_same. intros y (e & -> & He)%list_elem_of_fmap. apply Ho, list_elem_of_fmap. eauto. }
  rewrite Hfind in Hres. cbn [default from_option id] in Hres. unfold entry_add in Hres.
  rewrite (entry_insert_last Z.compare _ _ _ Hbk) in Hres.
  unfold __cl_map_delta_move. rewrite Hkey, Hrun1, Hnext. cbn [mbind option_bind]. unfold cl_map_obj. rewrite Hrun2. cbn [mbind option_bind].
  destruct Hres as [(-> & HF & Ho2)|[-> Ho2]].
  - destruct Htr as (x' & s2 & h3 & Hr3 & HL3 & Hoth3 & Hs3 & HE3 & HF3 & Hox3 & Ho3).
    rewrite decide_True by done. rewrite Hr3. cbn [mbind option_bind].
    assert (Hd3 : objects h3 d1 = objects h dest) by (rewrite (Hoth3 d1) by (by left); done).
    eexists _, d1, s2, _, h3. split; [done|]. split; [by apply views_swap|].
    split; [eapply others_trans; [exact Hoth2|]; intros u Hu; apply Hoth3; by right|]. split; [done|]. split; [done|].
    right. split; [done|]. split; [done|]. split.
    + by rewrite HF3, <- (length_objects h3 d1), Hd3, length_objects.
    + rewrite Hall, Hd3. unfold objects. rewrite HE3, HE, !obj_entries_app, (HoE h3 Ho3 g) by set_solver.
      change (obj_entries h3 ((x', k) :: r)) with ((h_object h3 x', k) :: obj_entries h3 r).
      by rewrite Hox3, (HoE h3 Ho3 r) by set_solver.
  - rewrite decide_False by done.
    assert (Hg2 : obj_entries h2 g = obj_entries h g) by (apply (HoE h2 Hobj2); set_solver).
    assert (Hr2 : obj_entries h2 r = obj_entries h r) by (apply (HoE h2 Hobj2); set_solver).
    eexists _, d1, s1, _, h2. split; [done|]. split; [by apply views_swap|].
    do 3 (split; [done|]). left. split; [done|]. split; [unfold start_of; by rewrite (same_view_end _ _ Hsv)|].
    split; [|done]. constructor; [done| | |].
    + rewrite Hr2, Ho2. apply (all_below_step Z.compare); [|exact Hb].
      pose proof (view_sorted h src (views_head _ _ _ HL)) as Hso. unfold objects in Hso. rewrite HE, obj_entries_app in Hso.
      by apply (sorted_suffix Z.compare) in Hso.
    + by apply Hc2.
    + split; [rewrite HF1, <- (length_objects h2 d1), Ho2, length_app, length_objects; cbn; lia|].
      rewrite Hall, Ho2. unfold objects. rewrite HE1, HE, !obj_entries_app, Hg2, Hr2.
      change (obj_entries h ((x, k) :: r)) with ((h_object h x, k) :: obj_entries h r). solve_Permutation.
Qed.

(** What has left comes back: the map has its objects again, the other none. *)
Lemma merge_back O h src dest L :
  views_at h (src :: dest :: L) -> can_return O h src dest -> real O -> sorted Z.compare O ->
  exists src' dest' h', cl_map_merge (v_map src) (v_map dest) h = Some (CL_SUCCESS, v_map src', v_map dest', h') /\
    views_at h' (src' :: dest' :: L) /\ others_same h h' L /\ objects h' src' = O /\ objects h' dest' = [].
Proof.
  intros HL [Hfree Hall] Hreal Hso.
  assert (HR : real (objects h src) /\ real (objects h dest)).
  { split; intros e He; apply Hreal; rewrite Hall; set_solver. }
  destruct (merge_objects h src dest L HL (or_introl Hfree) (proj1 HR) (proj2 HR)) as
    (src' & dest' & h' & st & Hrun & HL' & Hoth & _ & _ & (R1 & R2 & E1 & E2 & E3 & Hst) & Hok).
  rewrite (Hok Hfree) in *. destruct Hst as [[_ ->]|[? _]]; [|done]. rewrite app_nil_r in E1. subst R1.
  assert (Hnd : NoDup (objects h src ++ objects h dest).*2) by (rewrite <- Hall; by apply sorted_key_nodup).
  exists src', dest', h'. split; [done|]. split; [done|]. split; [done|].
  split; [|by rewrite E3, keep_disjoint].
  apply sorted_perm_eq; [by eapply view_sorted, views_head|done|]. by rewrite E2, add_all_perm, Hall.
Qed.

(** ** The four maps *)

Definition maps_of (a b n o : view (A := A)) : four_maps A := FourMaps (v_map a) (v_map b) (v_map n) (v_map o).

(** The objects of the two maps; where the moves lead; whether the result maps have
    free items for all. *)
Context (O1 O2 : list (ptr * Z)) (X : list (ptr * Z) * list (ptr * Z) * list (ptr * Z) * list (ptr * Z)) (reserved : Prop).
Context (Hr1 : real O1) (Hr2 : real O2) (Hs1 : sorted Z.compare O1) (Hs2 : sorted Z.compare O2).

Definition failed h (ms : four_maps A) : Prop :=
  ~ reserved /\ exists a b n o, ms = maps_of a b n o /\ views_at h [a; b; n; o] /\
    objects h a = O1 /\ objects h b = O2 /\ objects h n = [] /\ objects h o = [].

Lemma revert_spec h a b n o :
  views_at h [a; b; n; o] -> can_return O1 h a o -> can_return O2 h b n -> ~ reserved ->
  exists ms h', __cl_map_revert (maps_of a b n o) h = Some (ms, h') /\ failed h' ms.
Proof.
  intros HL R1 R2 Hres. unfold __cl_map_revert. cbn [p_map1 p_old p_map2 p_new maps_of].
  destruct (merge_back O1 h a o [b; n]) as (a' & o' & h1 & Hrun1 & HL1 & Hoth1 & Ha & Ho); [|done..|].
  { eapply views_perm; [|exact HL]. solve_Permutation. }
  rewrite Hrun1. cbn [mbind option_bind].
  destruct (merge_back O2 h1 b n [a'; o']) as (b' & n' & h2 & Hrun2 & HL2 & Hoth2 & Hb & Hn); [| |done..|].
  { eapply views_perm; [|exact HL1]. solve_Permutation. }
  { unfold can_return in *. by rewrite (Hoth1 b), (Hoth1 n) by set_solver. }
  rewrite Hrun2. cbn [mbind option_bind]. eexists _, h2. split; [done|]. split; [done|].
  exists a', b', n', o'. split; [done|]. split; [eapply views_perm; [|exact HL2]; solve_Permutation|].
  rewrite (Hoth2 a'), (Hoth2 o') by set_solver. by split_and!.
Qed.

(** A state on the way: the first map's old objects are in [o], the second one's new
    ones in [n]. *)
Record progress h a g1 r1 b g2 r2 n o : Prop := Progress {
  pg_views : views_at h [a; b; n; o];
  pg_old : side O1 h a g1 r1 o;
  pg_new : side O2 h b g2 r2 n;
  pg_goal : outcome Z.compare (obj_entries h g1) (obj_entries h r1) (obj_entries h g2) (obj_entries h r2)
    (objects h n) (objects h o) = X;
  pg_items : reserved -> (length r1 <= length (v_free o))%nat /\ (length r2 <= length (v_free n))%nat }.

(** The status, the maps and the memory after a move, and the iterator. *)
Definition after_move (res : option (cl_status_t * four_maps A * ptr * heap A tree_fields))
    (good : four_maps A -> ptr -> heap A tree_fields -> Prop) : Prop :=
  (exists ms it h, res = Some (CL_SUCCESS, ms, it, h) /\ good ms it h) \/
  (exists ms it h, res = Some (CL_INSUFFICIENT_MEMORY, ms, it, h) /\ failed h ms).

Lemma move_old_spec h a g1 x k r1 b g2 r2 n o :
  progress h a g1 ((x, k) :: r1) b g2 r2 n o ->
  outcome Z.compare (obj_entries h g1) (obj_entries h r1) (obj_entries h g2) (obj_entries h r2)
    (objects h n) (objects h o ++ [(h_object h x, k)]) = X ->
  after_move (move_old (maps_of a b n o) x h) (fun ms it h' =>
    exists a' o', ms = maps_of a' b n o' /\ it = start_of a' r1 /\ same_view a a' /\ progress h' a' g1 r1 b g2 r2 n o').
Proof.
  intros [HL Hold Hnew Hgoal Hit] Hout. unfold move_old. cbn [p_map1 p_old p_map2 p_new maps_of].
  destruct (move_view O1 h a g1 x k r1 o [b; n]) as
    (st & o' & a' & it & h' & -> & HL' & Hoth & Hsa & Hso & Hmv); [|done..|].
  { eapply views_perm; [|exact HL]. solve_Permutation. }
  destruct (side_others O2 h h' b g2 r2 n [b; n] Hnew Hoth) as (Hnew' & G2 & R2 & N'); [set_solver..|].
  assert (HL2 : views_at h' [a'; b; n; o']) by (eapply views_perm; [|exact HL']; solve_Permutation).
  cbn [mbind option_bind]. destruct Hmv as [(-> & -> & Hold' & G1 & R1 & Ho & HF)|(-> & HF & Hret)].
  - left. rewrite decide_False by (intros H; by apply H). eexists _, _, h'. split; [done|]. exists a', o'.
    do 3 (split; [done|]). constructor; try done; [by rewrite G1, R1, G2, R2, N', Ho|].
    intros Hr. specialize (Hit Hr). cbn in Hit. lia.
  - right. rewrite decide_True by done.
    destruct (revert_spec h' a' b n o' HL2 Hret (sd_return _ _ _ _ _ _ Hnew')) as (ms & h2 & Hrun & Hf).
    { intros Hr. specialize (Hit Hr). rewrite HF in Hit. cbn in Hit. lia. }
    change (FourMaps (v_map a') (v_map b) (v_map n) (v_map o')) with (maps_of a' b n o'). rewrite Hrun.
    cbn [mbind option_bind]. by eexists _, _, h2.
Qed.

Lemma move_new_spec h a g1 r1 b g2 x k r2 n o :
  progress h a g1 r1 b g2 ((x, k) :: r2) n o ->
  outcome Z.compare (obj_entries h g1) (obj_entries h r1) (obj_entries h g2) (obj_entries h r2)
    (objects h n ++ [(h_object h x, k)]) (objects h o) = X ->
  after_move (move_new (maps_of a b n o) x h) (fun ms it h' =>
    exists b' n', ms = maps_of a b' n' o /\ it = start_of b' r2 /\ same_view b b' /\ progress h' a g1 r1 b' g2 r2 n' o).
Proof.
  intros [HL Hold Hnew Hgoal Hit] Hout. unfold move_new. cbn [p_map1 p_old p_map2 p_new maps_of].
  destruct (move_view O2 h b g2 x k r2 n [a; o]) as
    (st & n' & b' & it & h' & -> & HL' & Hoth & Hsb & Hsn & Hmv); [|done..|].
  { eapply views_perm; [|exact HL]. solve_Permutation. }
  destruct (side_others O1 h h' a g1 r1 o [a; o] Hold Hoth) as (Hold' & G1 & R1 & Ho); [set_solver..|].
  assert (HL2 : views_at h' [a; b'; n'; o]) by (eapply views_perm; [|exact HL']; solve_Permutation).
  cbn [mbind option_bind]. destruct Hmv as [(-> & -> & Hnew' & G2 & R2 & N' & HF)|(-> & HF & Hret)].
  - left. rewrite decide_False by (intros H; by apply H). eexists _, _, h'. split; [done|]. exists b', n'.
    do 3 (split; [done|]). constructor; try done; [by rewrite G1, R1, G2, R2, N', Ho|].
    intros Hr. specialize (Hit Hr). cbn in Hit. lia.
  - right. rewrite decide_True by done.
    destruct (revert_spec h' a b' n' o HL2 (sd_return _ _ _ _ _ _ Hold') Hret) as (ms & h2 & Hrun & Hf).
    { intros Hr. specialize (Hit Hr). rewrite HF in Hit. cbn in Hit. lia. }
    change (FourMaps (v_map a) (v_map b') (v_map n') (v_map o)) with (maps_of a b' n' o). rewrite Hrun.
    cbn [mbind option_bind]. by eexists _, _, h2.
Qed.

(** ** The loops *)

Lemma start_end h v g r : view_at h v -> v_entries v = g ++ r -> start_of v r = cl_map_end (v_map v) <-> r = [].
Proof.
  intros Hv HE. destruct r as [|[x k] r]; [done|]. split; [|done]. intros Hx. exfalso. unfold view_at in Hv. rewrite HE in Hv.
  by destruct (omap_next _ _ _ _ _ _ _ _ Hv) as (_ & _ & _ & Hend).
Qed.

(** The status, the maps and the memory at the end. *)
Definition after_loop (res : option (cl_status_t * four_maps A * heap A tree_fields))
    (good : four_maps A -> heap A tree_fields -> Prop) : Prop :=
  (exists ms h, res = Some (CL_SUCCESS, ms, h) /\ good ms h) \/
  (exists ms h, res = Some (CL_INSUFFICIENT_MEMORY, ms, h) /\ failed h ms).

(** A loop of moves, for what it takes to have [r] before it. *)
Lemma move_rest_spec move p_end (I : list (ptr * Z) -> four_maps A -> ptr -> heap A tree_fields -> Prop) :
  (forall r ms it h, I r ms it h -> it = p_end <-> r = []) ->
  (forall e r ms it h, I (e :: r) ms it h -> after_move (move ms it h) (I r)) ->
  forall r fuel ms it h, (length r < fuel)%nat -> I r ms it h ->
    after_loop (move_rest move p_end fuel ms it h) (fun ms h => I [] ms p_end h).
Proof.
  intros Hend Hmove. induction r as [|e r IH]; intros [|fuel] ms it h Hf HI; try (cbn in Hf; lia); cbn [move_rest].
  - rewrite decide_True by (by eapply Hend). left. exists ms, h. split; [done|]. by rewrite (proj2 (Hend _ _ _ _ HI) eq_refl) in HI.
  - rewrite decide_False by (rewrite (Hend _ _ _ _ HI); done).
    destruct (Hmove _ _ _ _ _ HI) as [(ms1 & it1 & h1 & -> & HI1)|(ms1 & it1 & h1 & -> & Hf1)]; cbn [mbind option_bind].
    + rewrite decide_False by (intros H; by apply H). apply IH; [cbn in Hf; lia|done].
    + rewrite decide_True by done. right. by exists ms1, h1.
Qed.

Lemma outcome_new g1 g2 e r2 N O :
  outcome Z.compare g1 [] g2 r2 (N ++ [e]) O = outcome Z.compare g1 [] g2 (e :: r2) N O.
Proof. rewrite !outcome_end by (by left). by rewrite <- (assoc_L (++)). Qed.

Lemma outcome_old g1 e r1 g2 N O :
  outcome Z.compare g1 r1 g2 [] N (O ++ [e]) = outcome Z.compare g1 (e :: r1) g2 [] N O.
Proof. rewrite !outcome_end by (by right). by rewrite <- (assoc_L (++)). Qed.

(** All moves are made. *)
Definition complete (ms : four_maps A) h : Prop :=
  exists a g1 b g2 n o, ms = maps_of a b n o /\ progress h a g1 [] b g2 [] n o.

Lemma progress_views h a g1 r1 b g2 r2 n o :
  progress h a g1 r1 b g2 r2 n o -> view_at h a /\ view_at h b /\ v_entries a = g1 ++ r1 /\ v_entries b = g2 ++ r2.
Proof.
  intros [[HF _] Ho Hn _ _]. rewrite !Forall_cons in HF. destruct HF as (Ha & Hb & _).
  split; [done|]. split; [done|]. split; [apply Ho|apply Hn].
Qed.

(** The rest of the second map, when nothing is left of the first one. *)
Definition rest_new a g1 r1 g2 o (b : view (A := A)) r2 (ms : four_maps A) (it : ptr) h : Prop :=
  exists b' n', ms = maps_of a b' n' o /\ it = start_of b' r2 /\ same_view b b' /\
    progress h a g1 r1 b' g2 r2 n' o /\ (r1 = [] \/ r2 = []).

Lemma rest_new_spec h a g1 r1 b g2 r2 n o :
  progress h a g1 r1 b g2 r2 n o -> r1 = [] \/ r2 = [] ->
  after_loop (move_rest move_new (cl_map_end (v_map b)) (map_fuel (qmap (v_map b))) (maps_of a b n o) (start_of b r2) h)
    (fun ms h => rest_new a g1 r1 g2 o b [] ms (cl_map_end (v_map b)) h).
Proof.
  intros Hp Hor. destruct (progress_views _ _ _ _ _ _ _ _ _ Hp) as (_ & Hb & _ & Eb).
  apply (move_rest_spec move_new _ (rest_new a g1 r1 g2 o b)) with (r := r2).
  - intros r ms it h' (b' & n' & -> & -> & Hs & Hp' & _). destruct (progress_views _ _ _ _ _ _ _ _ _ Hp') as (_ & Hb' & _ & Eb').
    rewrite <- (same_view_end _ _ Hs). by eapply start_end.
  - intros [x k] r ms it h' (b' & n' & -> & -> & Hs & Hp' & [->|?]); [|done].
    destruct (move_new_spec h' a g1 [] b' g2 x k r n' o Hp') as [(ms1 & it1 & h1 & Hrun & (b1 & n1 & -> & -> & Hsb & Hp1))|Hf].
    { rewrite <- (pg_goal _ _ _ _ _ _ _ _ _ Hp'). apply outcome_new. }
    + left. eexists _, _, h1. split; [done|]. exists b1, n1. split; [done|]. split; [done|].
      split; [by eapply same_view_trans|]. split; [done|by left].
    + by right.
  - destruct (view_cursor h b _ Hb eq_refl) as [_ ->]. rewrite Eb, length_app. lia.
  - by exists b, n.
Qed.

(** The rest of the first map, when nothing is left of the second one. *)
Definition rest_old g1 b g2 n (a : view (A := A)) r1 (ms : four_maps A) (it : ptr) h : Prop :=
  exists a' o', ms = maps_of a' b n o' /\ it = start_of a' r1 /\ same_view a a' /\ progress h a' g1 r1 b g2 [] n o'.

Lemma rest_old_spec h a g1 r1 b g2 n o :
  progress h a g1 r1 b g2 [] n o ->
  after_loop (move_rest move_old (cl_map_end (v_map a)) (map_fuel (qmap (v_map a))) (maps_of a b n o) (start_of a r1) h)
    (fun ms h => rest_old g1 b g2 n a [] ms (cl_map_end (v_map a)) h).
Proof.
  intros Hp. destruct (progress_views _ _ _ _ _ _ _ _ _ Hp) as (Ha & _ & Ea & _).
  apply (move_rest_spec move_old _ (rest_old g1 b g2 n a)) with (r := r1).
  - intros r ms it h' (a' & o' & -> & -> & Hs & Hp'). destruct (progress_views _ _ _ _ _ _ _ _ _ Hp') as (Ha' & _ & Ea' & _).
    rewrite <- (same_view_end _ _ Hs). by eapply start_end.
  - intros [x k] r ms it h' (a' & o' & -> & -> & Hs & Hp').
    destruct (move_old_spec h' a' g1 x k r b g2 [] n o' Hp') as [(ms1 & it1 & h1 & Hrun & (a1 & o1 & -> & -> & Hsa & Hp1))|Hf].
    { rewrite <- (pg_goal _ _ _ _ _ _ _ _ _ Hp'). apply outcome_old. }
    + left. eexists _, _, h1. split; [done|]. exists a1, o1. split; [done|]. split; [done|].
      by split; [eapply same_view_trans|].
    + by right.
  - destruct (view_cursor h a _ Ha eq_refl) as [_ ->]. rewrite Ea, length_app. lia.
  - by exists a, o.
Qed.

Lemma move_rests_spec h a g1 r1 b g2 r2 n o :
  progress h a g1 r1 b g2 r2 n o -> r1 = [] \/ r2 = [] ->
  after_loop (move_rests (maps_of a b n o) (start_of a r1) (start_of b r2) h) complete.
Proof.
  intros Hp Hor. unfold move_rests. cbn [p_map1 p_map2 maps_of].
  destruct (rest_new_spec _ _ _ _ _ _ _ _ _ Hp Hor) as [(ms & h1 & -> & Hn)|(ms & h1 & -> & Hf)]; cbn [mbind option_bind].
  2:{ rewrite decide_True by done. right. by exists ms, h1. }
  destruct Hn as (b' & n' & -> & _ & _ & Hp1 & _). rewrite decide_False by (intros H; by apply H). cbn [p_map1 maps_of].
  destruct (rest_old_spec _ _ _ _ _ _ _ _ Hp1) as [(ms & h2 & Hrun & (a' & o' & -> & _ & _ & Hp2))|(ms & h2 & -> & Hf)].
  - left. eexists _, h2. split; [exact Hrun|]. by exists a', g1, b', g2, n', o'.
  - right. by exists ms, h2.
Qed.

(** The head of what is left in a map. *)
Lemma rest_sorted h v g x k r :
  view_at h v -> v_entries v = g ++ (x, k) :: r ->
  sorted Z.compare ((h_object h x, k) :: obj_entries h r) /\ cl_map_key h x = k /\ cl_map_next h x = start_of v r /\
  obj_entries h (g ++ [(x, k)]) = obj_entries h g ++ [(h_object h x, k)].
Proof.
  intros Hv HE. pose proof (view_sorted h v Hv) as Hso. unfold objects in Hso. rewrite HE, obj_entries_app in Hso.
  apply (sorted_suffix Z.compare) in Hso. split; [exact Hso|]. unfold view_at in Hv. rewrite HE in Hv.
  destruct (omap_next _ _ _ _ _ _ _ _ Hv) as (Hn & _ & Hk & _). split; [done|]. split; [done|]. by rewrite obj_entries_app.
Qed.

Lemma map_delta_loop_spec fuel : forall h a g1 r1 b g2 r2 n o,
  (length r1 + length r2 < fuel)%nat -> progress h a g1 r1 b g2 r2 n o ->
  after_loop (map_delta_loop fuel (maps_of a b n o) (start_of a r1) (start_of b r2) h) complete.
Proof.
  induction fuel as [|fuel IH]; intros h a g1 r1 b g2 r2 n o Hf Hp; [lia|]. cbn [map_delta_loop p_map1 p_map2 maps_of].
  destruct (progress_views _ _ _ _ _ _ _ _ _ Hp) as (Ha & Hb & Ea & Eb).
  destruct (decide _) as [Hd|Hd]; rewrite (start_end h a g1), (start_end h b g2) in Hd by done.
  2:{ apply (move_rests_spec _ _ g1 _ _ g2); [done|]. destruct r1; [by left|]. destruct r2; [by right|]. by destruct Hd. }
  destruct Hd as [H1 H2]. destruct r1 as [|[x1 k1] r1], r2 as [|[x2 k2] r2]; try done. clear H1 H2.
  destruct (rest_sorted h a g1 x1 k1 r1 Ha Ea) as (So1 & K1 & N1 & G1).
  destruct (rest_sorted h b g2 x2 k2 r2 Hb Eb) as (So2 & K2 & N2 & G2).
  change (start_of a ((x1, k1) :: r1)) with x1. change (start_of b ((x2, k2) :: r2)) with x2. rewrite K1, K2, N1, N2.
  cbn [length] in Hf. destruct (decide (k1 < k2)) as [Hlt|Hlt]; [|destruct (decide (k1 > k2)) as [Hgt|Hgt]].
  - destruct (move_old_spec h a g1 x1 k1 r1 b g2 ((x2, k2) :: r2) n o Hp) as
      [(ms1 & it1 & h1 & -> & (a1 & o1 & -> & -> & _ & Hp1))|(ms1 & it1 & h1 & -> & Hfl)]; cbn [mbind option_bind].
    { rewrite <- (pg_goal _ _ _ _ _ _ _ _ _ Hp). by apply (outcome_lt Z.compare). }
    + rewrite decide_False by (intros H; by apply H). apply (IH h1 a1 g1 r1 b g2 ((x2, k2) :: r2) n o1); [cbn; lia|done].
    + rewrite decide_True by done. right. by exists ms1, h1.
  - destruct (move_new_spec h a g1 ((x1, k1) :: r1) b g2 x2 k2 r2 n o Hp) as
      [(ms1 & it1 & h1 & -> & (b1 & n1 & -> & -> & _ & Hp1))|(ms1 & it1 & h1 & -> & Hfl)]; cbn [mbind option_bind].
    { rewrite <- (pg_goal _ _ _ _ _ _ _ _ _ Hp). apply (outcome_gt Z.compare); [done|done|]. cbn. by apply Z.compare_gt_iff, Z.gt_lt. }
    + rewrite decide_False by (intros H; by apply H). apply (IH h1 a g1 ((x1, k1) :: r1) b1 g2 r2 n1 o); [cbn; lia|done].
    + rewrite decide_True by done. right. by exists ms1, h1.
  - assert (k1 = k2) as <- by lia. apply (IH h a (g1 ++ [(x1, k1)]) r1 b (g2 ++ [(x2, k1)]) r2 n o); [lia|].
    destruct Hp as [HL [HE1 HB1 HT1 HR1] [HE2 HB2 HT2 HR2] Hgoal Hit].
    constructor; [done|constructor..| |]; rewrite <- ?(assoc_L (++)); try done.
    + intros e He. apply HB1. by right.
    + eapply can_take_le; [| |exact HT1]; [|cbn; lia]. destruct HL as [HF _]. rewrite !Forall_cons in HF. apply HF.
    + intros e He. apply HB2. by right.
    + eapply can_take_le; [| |exact HT2]; [|cbn; lia]. destruct HL as [HF _]. rewrite !Forall_cons in HF. apply HF.
    + rewrite G1, G2, <- Hgoal. apply (outcome_eq Z.compare); [done|done|]. by apply Z.compare_eq_iff.
    + intros Hr. specialize (Hit Hr). cbn in Hit. lia.
Qed.

End Delta.

Section Difference.
Context {A : Type} {AL : Allocator A} {LA : AllocatorLaws A}.

(** C22. [cl_map_delta] on two maps of objects, none of them null, and two empty ones:
    it ends; on success the objects whose key is in both maps have stayed, the
    others of the first map are in the old map and those of the second one in the
    new map; otherwise memory has run out, and all four maps hold what they held
    before.  It succeeds if the empty maps have a free item for every object. *)
Theorem map_delta_objects h (a b n o : view (A := A)) :
  views_at h [a; b; n; o] -> v_entries n = [] -> v_entries o = [] ->
  can_take o (length (v_entries a)) -> can_take n (length (v_entries b)) -> real (objects h a) -> real (objects h b) ->
  exists st a' b' n' o' h',
    cl_map_delta (maps_of a b n o) h = Some (st, maps_of a' b' n' o', h') /\ views_at h' [a'; b'; n'; o'] /\
    (st = CL_SUCCESS /\
       objects h' a' = common Z.compare (objects h a) (objects h b) /\
       objects h' b' = common Z.compare (objects h b) (objects h a) /\
       objects h' n' = only Z.compare (objects h b) (objects h a) /\
       objects h' o' = only Z.compare (objects h a) (objects h b) \/
     st = CL_INSUFFICIENT_MEMORY /\
       objects h' a' = objects h a /\ objects h' b' = objects h b /\ objects h' n' = [] /\ objects h' o' = []) /\
    ((length (v_entries a) <= length (v_free o))%nat -> (length (v_entries b) <= length (v_free n))%nat -> st = CL_SUCCESS).
Proof.
  intros HL En Eo Ca Cb Ra Rb. pose proof HL as [HF _]. rewrite !Forall_cons in HF. destruct HF as (Ha & Hb & _).
  set (reserved := (length (v_entries a) <= length (v_free o))%nat /\ (length (v_entries b) <= length (v_free n))%nat).
  set (X := outcome Z.compare [] (objects h a) [] (objects h b) [] []).
  destruct (view_cursor h a _ Ha eq_refl) as [C1 F1]. destruct (view_cursor h b _ Hb eq_refl) as [C2 F2].
  unfold cl_map_delta. cbn [p_map1 p_map2 maps_of]. rewrite C1, C2, F1, F2.
  assert (Hp : progress (objects h a) (objects h b) X reserved h a [] (v_entries a) b [] (v_entries b) n o).
  { pose proof (empty_objects h n En) as On. pose proof (empty_objects h o Eo) as Oo.
    constructor; [done|constructor..|by rewrite On, Oo|done]; try done.
    - intros e _. rewrite Oo. by intros x ?%elem_of_nil.
    - unfold can_return. rewrite Eo, Oo, app_nil_r. split; [cbn; lia|done].
    - intros e _. rewrite On. by intros x ?%elem_of_nil.
    - unfold can_return. rewrite En, On, app_nil_r. split; [cbn; lia|done]. }
  assert (Hfuel : (length (v_entries a) + length (v_entries b) < S (length (v_entries a)) + S (length (v_entries b)))%nat) by lia.
  destruct (map_delta_loop_spec (objects h a) (objects h b) X reserved Ra Rb (view_sorted _ _ Ha) (view_sorted _ _ Hb)
    (S (length (v_entries a)) + S (length (v_entries b))) _ _ _ _ _ _ _ _ _ Hfuel Hp)
    as [(ms & h' & -> & (a' & g1 & b' & g2 & n' & o' & -> & Hp'))|(ms & h' & -> & Hres & (a' & b' & n' & o' & -> & HL' & H1 & H2 & H3 & H4))].
  - exists CL_SUCCESS, a', b', n', o', h'. split; [done|]. split; [apply Hp'|]. split; [left|done]. split; [done|].
    destruct (progress_views _ _ _ _ _ _ _ _ _ _ _ _ _ Hp') as (_ & _ & Ea & Eb). pose proof (pg_goal _ _ _ _ _ _ _ _ _ _ _ _ _ Hp') as Hg.
    assert (Oa : objects h' a' = obj_entries h' g1) by (unfold objects; by rewrite Ea, app_nil_r).
    assert (Ob : objects h' b' = obj_entries h' g2) by (unfold objects; by rewrite Eb, app_nil_r).
    rewrite Oa, Ob. rewrite outcome_end, !app_nil_r in Hg by (by left).
    unfold X, outcome in Hg. cbn [app] in Hg. injection Hg as -> -> -> ->. done.
  - exists CL_INSUFFICIENT_MEMORY, a', b', n', o', h'. split; [done|]. split; [done|]. split; [by right|].
    intros Hx Hy. by destruct Hres.
Qed.
End Difference.

(** Keys 3 and 5 are in both maps, key 4 in the second one only. *)
Lemma map_delta_objects_witness :
  (fst <$> (fst <$> cl_map_delta (FourMaps fill1.1 fill3.1 start3.1 start4.1) fill3.2)) = Some CL_SUCCESS /\
  exists v1 v2 v3 v4, views_at fill3.2 [v1; v2; v3; v4] /\
  exists st a' b' n' o' h',
    cl_map_delta (FourMaps fill1.1 fill3.1 start3.1 start4.1) fill3.2 = Some (st, maps_of a' b' n' o', h') /\
    views_at h' [a'; b'; n'; o'] /\
    (st = CL_SUCCESS /\ objects h' a' = [(30, 3); (50, 5)] /\ objects h' b' = [(31, 3); (50, 5)] /\
       objects h' n' = [(40, 4)] /\ objects h' o' = [] \/
     st = CL_INSUFFICIENT_MEMORY /\ objects h' a' = [(30, 3); (50, 5)] /\
       objects h' b' = [(31, 3); (40, 4); (50, 5)] /\ objects h' n' = [] /\ objects h' o' = []).
Proof.
  destruct demo_maps as (v1 & v2 & v3 & v4 & E1 & E2 & E3 & E4 & H & O1 & O2 & N3 & N4 & HC).
  split; [vm_compute; reflexivity|]. exists v1, v2, v3, v4. split; [assumption|].
  assert (L1 : length (v_entries v1) = 2%nat) by (rewrite <- (length_objects fill3.2 v1), O1; reflexivity).
  assert (L2 : length (v_entries v2) = 3%nat) by (rewrite <- (length_objects fill3.2 v2), O2; reflexivity).
  pose proof H as [HF _]. rewrite !Forall_cons in HF, HC. destruct HF as (_ & _ & V3 & V4 & _), HC as (_ & _ & C3 & C4 & _).
  destruct (map_delta_objects fill3.2 v1 v2 v3 v4 H N3 N4) as (st & a' & b' & n' & o' & h' & Hr & H1 & H2 & _).
  - rewrite L1. eapply can_take_le; [eassumption| |eassumption]. lia.
  - rewrite L2. eapply can_take_le; [eassumption| |eassumption]. lia.
  - rewrite O1. apply real_all. vm_decide.
  - rewrite O2. apply real_all. vm_decide.
  - rewrite O1, O2 in H2. unfold maps_of at 1 in Hr. rewrite E1, E2, E3, E4 in Hr.
    exists st, a', b', n', o', h'. split; [assumption|]. split; [assumption|exact H2].
Defined.
