(* ===== verification/Storage.v ===== *)
(** * What the containers promise to their clients

    The forwarding database keeps its records in quick maps and takes them from
    pools.  It is modelled over the two interfaces of this file: an ordered map
    of items that belong to the caller, specified by a finite map from keys to
    addresses, and a pool of objects of one size that does not grow, specified by
    the sets of free objects and of objects in use.  [FdbStorage.v] shows that the
    code of the quick map and of the pool keeps these promises. *)

From S2P Require Import Prelude.

Local Open Scope Z_scope.

(** ** Ordered maps *)

(** The calls; no result stands for a search that does not end. *)
Class OrderedMap (M : Type) := {
  om_init : M -> M;
  om_end : M -> ptr;
  om_head : M -> ptr;
  om_next : ptr -> M -> ptr;
  om_get : Z -> M -> option ptr;
  om_get_next : Z -> M -> option ptr;
  om_insert : Z -> ptr -> M -> option (ptr * M);
  om_remove_item : ptr -> M -> option M;
  om_count : M -> Z }.

(** [p] is the item with the least key that satisfies [above], or the end item
    when no key does. *)
Definition least_item (e : ptr) (g : gmap Z ptr) (above : Z -> Prop) (p : ptr) : Prop :=
  (p = e /\ forall k q, g !! k = Some q -> ~ above k) \/
  (exists k, g !! k = Some p /\ above k /\ forall k' q, g !! k' = Some q -> above k' -> k <= k').

(** [map_ready]: the structure may be initialised.  [map_is]: it holds the items
    of [g].  [map_room]: the addresses of the structure itself. *)
Class OrderedMapLaws (M : Type) `{OrderedMap M} := {
  map_ready : M -> Prop;
  map_room : M -> list ptr;
  map_is : M -> gmap Z ptr -> Prop;
  map_init_law m : map_ready m -> map_is (om_init m) ∅ /\ map_room (om_init m) = map_room m;
  map_item_law m g k p : map_is m g -> g !! k = Some p -> p <> om_end m /\ p ∉ map_room m;
  map_inj_law m g k k' p : map_is m g -> g !! k = Some p -> g !! k' = Some p -> k = k';
  map_get_law m g k : map_is m g -> om_get k m = Some (default (om_end m) (g !! k));
  map_get_next_law m g k :
    map_is m g -> exists p, om_get_next k m = Some p /\ least_item (om_end m) g (fun k' => k < k') p;
  map_head_law m g : map_is m g -> least_item (om_end m) g (fun _ => True) (om_head m);
  map_next_law m g k p :
    map_is m g -> g !! k = Some p -> least_item (om_end m) g (fun k' => k < k') (om_next p m);
  map_insert_law m g k p :
    map_is m g -> g !! k = None -> p ∉ map_room m -> (forall k' q, g !! k' = Some q -> q <> p) ->
    Z.of_nat (size g) < 2 ^ 32 ->
    exists m', om_insert k p m = Some (p, m') /\ map_is m' (<[k := p]> g) /\ map_room m' = map_room m;
  map_remove_law m g k p :
    map_is m g -> g !! k = Some p ->
    exists m', om_remove_item p m = Some m' /\ map_is m' (delete k g) /\ map_room m' = map_room m;
  map_count_law m g : map_is m g -> Z.of_nat (size g) < 2 ^ 32 -> om_count m = Z.of_nat (size g) }.

(** ** Pools *)

(** The calls, over the allocator [A] that all pools share.  Initialisation gets
    the least and the greatest number of objects and their size. *)
Class ObjectPool (P A : Type) := {
  op_construct : P -> P;
  op_init : Z -> Z -> Z -> P -> A -> option (cl_status_t * P * A);
  op_get : P -> A -> ptr * P * A;
  op_put : ptr -> P -> A -> P * A;
  op_count : P -> Z;
  op_destroy : P -> A -> option (P * A) }.

(** The bytes of an object. *)
Definition object_bytes (size x q : Z) : Prop := x <= q < x + size.

(** Objects that do not overlap. *)
Definition spaced (size : Z) (X : gset ptr) : Prop :=
  forall x y, x ∈ X -> y ∈ X -> x <> y -> x + size <= y \/ y + size <= x.

(** [in_use]: the bytes the allocator has handed out or that never were its own.
    [pool_is p F O]: objects [F] are free and [O] are in use.  Taking and giving
    back an object does not concern the allocator. *)
Class ObjectPoolLaws (P A : Type) `{ObjectPool P A} := {
  in_use : A -> ptr -> Prop;
  pool_ready : P -> A -> Prop;
  pool_is : P -> gset ptr -> gset ptr -> Prop;
  pool_sets_law p F O : pool_is p F O -> F ## O /\ NULL ∉ F ∪ O;
  pool_ready_law p a a' :
    (forall q, in_use a q -> in_use a' q) -> pool_ready p a -> pool_ready p a' /\ pool_ready (op_construct p) a';
  pool_init_law p a n size :
    pool_ready p a -> 0 < n < 2 ^ 32 -> 0 < size < 2 ^ 16 ->
    exists st p' a', op_init n n size p a = Some (st, p', a') /\
      (st = CL_SUCCESS -> exists F, pool_is p' F ∅ /\ Z.of_nat (base.size F) = n /\ spaced size F /\
         (forall q, in_use a q -> in_use a' q) /\
         (forall x q, x ∈ F -> object_bytes size x q -> 0 < q /\ ~ in_use a q /\ in_use a' q));
  pool_get_law p a F O :
    pool_is p F O ->
    exists x p', op_get p a = (x, p', a) /\
      (x = NULL /\ F = ∅ /\ pool_is p' ∅ O \/ x ∈ F /\ pool_is p' (F ∖ {[x]}) ({[x]} ∪ O));
  pool_put_law p a F O x :
    pool_is p F O -> x ∈ O ->
    exists p', op_put x p a = (p', a) /\ pool_is p' ({[x]} ∪ F) (O ∖ {[x]});
  pool_count_law p F O : pool_is p F O -> op_count p = Z.of_nat (base.size F);
  pool_destroy_law p a F O : pool_is p F O -> exists p' a', op_destroy p a = Some (p', a') }.

(** ** Objects held by a map *)

(** [O] are the items of [g]. *)
Definition items_of (g : gmap Z ptr) (O : gset ptr) : Prop := forall p, p ∈ O <-> exists k, g !! k = Some p.

(** No item has two keys. *)
Definition inj_map (g : gmap Z ptr) : Prop := forall k k' p, g !! k = Some p -> g !! k' = Some p -> k = k'.

Lemma items_size g O : inj_map g -> items_of g O -> size O = size g.
Proof.
  revert O. induction g as [|k p g Hk IH] using map_ind; intros O Hinj Hit.
  - assert (O = ∅) as ->; [|done]. apply set_eq. intros p. split; [|set_solver].
    intros Hp. apply Hit in Hp as [k Hk]. by rewrite lookup_empty in Hk.
  - rewrite map_size_insert_None by done.
    assert (Hp : p ∈ O) by (apply Hit; exists k; by rewrite lookup_insert_eq).
    rewrite (union_difference_L {[p]} O) by set_solver. rewrite size_union, size_singleton by set_solver.
    rewrite (IH (O ∖ {[p]})); [done|..].
    + intros k1 k2 q H1 H2. apply (Hinj k1 k2 q); rewrite lookup_insert_ne; congruence.
    + intros q. rewrite elem_of_difference, elem_of_singleton. rewrite (Hit q). split.
      * intros [[k' Hk'] Hne]. exists k'. destruct (decide (k' = k)) as [->|].
        { rewrite lookup_insert_eq in Hk'. congruence. }
        by rewrite lookup_insert_ne in Hk'.
      * intros [k' Hk']. assert (k' <> k) by congruence. split; [exists k'; by rewrite lookup_insert_ne|].
        intros ->. assert (k' = k); [|done]. apply (Hinj k' k p); [by rewrite lookup_insert_ne|by rewrite lookup_insert_eq].
Qed.

Lemma items_insert g O k p : g !! k = None -> items_of g O -> items_of (<[k := p]> g) ({[p]} ∪ O).
Proof.
  intros Hk Hit q. rewrite elem_of_union, elem_of_singleton, (Hit q). split.
  - intros [->|[k' Hk']]; [exists k; by rewrite lookup_insert_eq|].
    exists k'. rewrite lookup_insert_ne by congruence. done.
  - intros [k' Hk']. destruct (decide (k' = k)) as [->|].
    + rewrite lookup_insert_eq in Hk'. left. congruence.
    + rewrite lookup_insert_ne in Hk' by done. right. eauto.
Qed.

Lemma items_delete g O k p : inj_map g -> g !! k = Some p -> items_of g O -> items_of (delete k g) (O ∖ {[p]}).
Proof.
  intros Hinj Hk Hit q. rewrite elem_of_difference, elem_of_singleton, (Hit q). split.
  - intros [[k' Hk'] Hne]. exists k'. rewrite lookup_delete_ne; [done|]. intros ->. congruence.
  - intros [k' [Hne Hk']%lookup_delete_Some]. split; [by eauto|]. intros ->. apply Hne. by eapply Hinj.
Qed.
