(* ===== verification/FdbFilter.v ===== *)
(** * Filtering lists of the forwarding database ([lib_ctrl_learn_filters.c])

    Every MAC entry is linked into three lists: the list of its VLAN, in an array
    of list heads, and the lists of its port and of its port and VLAN, whose heads
    are kept in a map by key.  The links of all these lists are in one memory,
    addressed as in C: an entry at [a] has a list item at [a] plus an offset, and
    the head of a filter entry at [f] is at [f] plus an offset.

    A function yields its status and what it writes through its output pointers,
    which are not null; where the code leaves an output as it was, on an error
    path, the value given here is null or zero and means nothing.  No result
    stands for an access outside an array or a loop that does not end. *)

From S2P Require Import Prelude Qlist Storage.

Local Open Scope Z_scope.
Local Open Scope list_scope.

(** Values of [errno.h]. *)
Definition EPERM : Z := 1.
Definition ENOENT : Z := 2.
Definition ENOMEM : Z := 12.
Definition EINVAL : Z := 22.

Definition MIN_FDB_ENTRIES : Z := 49152.
Definition MAX_FDB_ENTRIES : Z := 49152.
Definition MAX_PORT_ENTRIES : Z := 200.
Definition MAX_FILTER_ENTRIES : Z := MAX_FDB_ENTRIES + MAX_PORT_ENTRIES.
Definition MIN_FILTER_ENTRIES : Z := MAX_FILTER_ENTRIES.
Definition MAX_VLAN_ENTRIES : nat := 4096.

(** ** Data *)

(** The members of [struct oes_fdb_uc_mac_addr_params] the code uses; the structure
    is declared outside the library. *)
Record mac_addr_params := MacParams { mac_addr : list Z; vid : Z; log_port : Z; entry_type : Z }.

(** The members of an entry other than its map item and its list items. *)
Record entry_data := EntryData { mac_params : mac_addr_params; cookie : ptr; type : Z }.

Definition params0 : mac_addr_params := MacParams [0; 0; 0; 0; 0; 0] 0 0 0.
Definition data0 : entry_data := EntryData params0 NULL 0.

Record fdb_uc_key_filter := KeyFilter {
  filter_by_vid : bool; filter_vid : Z; filter_by_log_port : bool; filter_log_port : Z }.

(** Where the list items of an entry are; the size of the part before them is not
    known here, the order of the members is. *)
Class EntryLayout := {
  sizeof_mac_entry : Z; off_vid_fltr : Z; off_port_fltr : Z; off_vid_port_fltr : Z;
  layout_vid : 0 <= off_vid_fltr;
  layout_port : off_vid_fltr + 16 <= off_port_fltr;
  layout_vid_port : off_port_fltr + 16 <= off_vid_port_fltr;
  layout_size : off_vid_port_fltr + 16 <= sizeof_mac_entry < 2 ^ 16 }.

(** [struct fdb_fltr_entry]: a map item of 56 bytes and a list head of 32. *)
Definition off_head : Z := 56.
Definition sizeof_fltr_entry : Z := 88.

Definition BUILD_PORT_KEY (port : Z) : Z := u64 (Z.lor port 0x1000000000000).
Definition BUILD_PORT_VID_KEY (port v : Z) : Z :=
  u64 (Z.lor (Z.lor port (Z.shiftl v 32)) 0x2000000000000).

Section Filters.
Context {M P A : Type} {OM : OrderedMap M} {OP : ObjectPool P A} {EL : EntryLayout}.

(** The state of the database and of its filters.  The two maps and the two pools
    come with the memory they work on. *)
Record fdb := Fdb {
  fdb_initiated : bool; fdb_map : M; main_db_pool : P;
  filters_initiated : bool; fbd_filter_map : M; fdb_fltr_pool : P;
  fdb_vlan_list : list cl_qlist_t;
  lists : links; fltr_head : ptr -> cl_qlist_t; data : ptr -> entry_data; heap : A }.

Definition set_filters (s : fdb) (b : bool) : fdb :=
  Fdb (fdb_initiated s) (fdb_map s) (main_db_pool s) b (fbd_filter_map s) (fdb_fltr_pool s)
    (fdb_vlan_list s) (lists s) (fltr_head s) (data s) (heap s).
Definition set_filter_map (s : fdb) (m : M) : fdb :=
  Fdb (fdb_initiated s) (fdb_map s) (main_db_pool s) (filters_initiated s) m (fdb_fltr_pool s)
    (fdb_vlan_list s) (lists s) (fltr_head s) (data s) (heap s).
Definition set_filter_pool (s : fdb) (p : P) (a : A) : fdb :=
  Fdb (fdb_initiated s) (fdb_map s) (main_db_pool s) (filters_initiated s) (fbd_filter_map s) p
    (fdb_vlan_list s) (lists s) (fltr_head s) (data s) a.
Definition set_vlans (s : fdb) (v : list cl_qlist_t) (lk : links) : fdb :=
  Fdb (fdb_initiated s) (fdb_map s) (main_db_pool s) (filters_initiated s) (fbd_filter_map s) (fdb_fltr_pool s)
    v lk (fltr_head s) (data s) (heap s).
Definition set_lists (s : fdb) (lk : links) : fdb := set_vlans s (fdb_vlan_list s) lk.
Definition set_head (s : fdb) (f : ptr) (q : cl_qlist_t) (lk : links) : fdb :=
  Fdb (fdb_initiated s) (fdb_map s) (main_db_pool s) (filters_initiated s) (fbd_filter_map s) (fdb_fltr_pool s)
    (fdb_vlan_list s) lk ((fltr_head s)⟦f <~ q⟧) (data s) (heap s).

(** [memset] to zero of one list item. *)
Definition zero_item (lk : links) (p : ptr) : links := set_prev (set_next lk p NULL) p NULL.

(** ** Initialisation *)

(** The loop over the array of list heads. *)
Fixpoint init_vlans (lk : links) (l : list cl_qlist_t) : links * list cl_qlist_t :=
  match l with
  | [] => (lk, [])
  | q :: l =>
      let '(lk, q) := cl_qlist_init lk q in
      let '(lk, l) := init_vlans lk l in (lk, q :: l)
  end.

Definition fdb_uc_db_filter_init (s : fdb) : option (Z * fdb) :=
  if filters_initiated s then Some (0, s)
  else
    let '(lk, v) := init_vlans (lists s) (fdb_vlan_list s) in
    let s := set_vlans s v lk in
    let s := set_filter_map s (om_init (fbd_filter_map s)) in
    '(st, p, a) ← op_init MIN_FILTER_ENTRIES MAX_FILTER_ENTRIES sizeof_fltr_entry (fdb_fltr_pool s) (heap s);
    let s := set_filter_pool s p a in
    if decide (st <> CL_SUCCESS) then Some (- ENOMEM, s) else Some (0, set_filters s true).

(** The first filter entry, or null. *)
Definition fdb_uc_db_filter_get_first_record (s : fdb) : Z * ptr :=
  if negb (filters_initiated s) then (- EPERM, NULL)
  else
    let item := om_head (fbd_filter_map s) in
    if decide (item <> om_end (fbd_filter_map s)) then (0, item) else (0, NULL).

(** The loop that gives all filter entries back. *)
Fixpoint filter_destroy_loop (fuel : nat) (s : fdb) : option (Z * fdb) :=
  let '(err, f) := fdb_uc_db_filter_get_first_record s in
  if decide (err <> 0) then Some (err, s)
  else if decide (f = NULL) then Some (0, s)
  else
    match fuel with
    | O => None
    | S fuel =>
        m ← om_remove_item f (fbd_filter_map s);
        let s := set_filter_map s m in
        let '(p, a) := op_put f (fdb_fltr_pool s) (heap s) in
        filter_destroy_loop fuel (set_filter_pool s p a)
    end.

Definition fdb_uc_db_filter_destroy (s : fdb) : option (Z * fdb) :=
  if negb (filters_initiated s) then Some (- EPERM, s)
  else filter_destroy_loop (S (Z.to_nat (om_count (fbd_filter_map s)))) s.

Definition fdb_uc_db_filter_deinit (s : fdb) : option (Z * fdb) :=
  if negb (filters_initiated s) then Some (- EPERM, s)
  else
    '(err, s) ← fdb_uc_db_filter_destroy s;
    if decide (err <> 0) then Some (err, s)
    else
      '(p, a) ← op_destroy (fdb_fltr_pool s) (heap s);
      Some (0, set_filters (set_filter_pool s p a) false).

(** ** Linking and unlinking an entry *)

(** The filter entry with a key, made if there is none; an error code otherwise.
    Of the fields that are cleared the insertion writes those of the map item, and
    the initialisation of the list those of the head. *)
Definition fltr_entry_for (map_key : Z) (s : fdb) : option (Z * ptr * fdb) :=
  item ← om_get map_key (fbd_filter_map s);
  if decide (item <> om_end (fbd_filter_map s)) then
    if decide (item = NULL) then Some (ENOENT, NULL, s) else Some (0, item, s)
  else
    let '(f, p, a) := op_get (fdb_fltr_pool s) (heap s) in
    let s := set_filter_pool s p a in
    if decide (f = NULL) then Some (ENOMEM, NULL, s)
    else
      let q := QList (f + off_head) 0 CL_UNINITIALIZED in
      let '(lk, q) := cl_qlist_init (zero_item (lists s) (ql_end q)) q in
      let s := set_head s f q lk in
      '(_, m) ← om_insert map_key f (fbd_filter_map s);
      Some (0, f, set_filter_map s m).

(** The count of these lists is not kept. *)
Definition link_entry_to_fltr_list (mac_entry map_key parent_offset : Z) (s : fdb) : option (Z * fdb) :=
  if negb (filters_initiated s) then Some (- EPERM, s)
  else
    '(err, f, s) ← fltr_entry_for map_key s;
    if decide (err <> 0) then Some (err, s)
    else
      let '(lk, q) := cl_qlist_insert_tail (lists s) (fltr_head s f) (mac_entry + parent_offset) in
      Some (0, set_head s f (QList (ql_end q) 0 (ql_state q)) lk).

Definition delink_entry_from_fltr_list (mac_entry map_key parent_offset : Z) (s : fdb) : option (Z * fdb) :=
  let item := mac_entry + parent_offset in
  if negb (filters_initiated s) then Some (- EPERM, s)
  else
    let next := p_next (lists s) item in
    let prev := p_prev (lists s) item in
    let last_deleted := bool_decide (prev <> NULL) && bool_decide (next = prev) in
    if bool_decide (next <> NULL) && bool_decide (prev <> NULL) then
      let s := set_lists s (zero_item (__cl_primitive_remove (lists s) item) item) in
      if (last_deleted : bool) then
        f ← om_get map_key (fbd_filter_map s);
        if decide (f <> om_end (fbd_filter_map s)) then
          m ← om_remove_item f (fbd_filter_map s);
          let s := set_filter_map s m in
          let '(p, a) := op_put f (fdb_fltr_pool s) (heap s) in
          Some (0, set_filter_pool s p a)
        else Some (- EPERM, s)
      else Some (0, s)
    else Some (- EPERM, s).

(** Access to the array of list heads; no result outside it. *)
Definition vlan_insert (v : Z) (item : ptr) (s : fdb) : option fdb :=
  q ← fdb_vlan_list s !! Z.to_nat v;
  let '(lk, q) := cl_qlist_insert_tail (lists s) q item in
  Some (set_vlans s (<[Z.to_nat v := q]> (fdb_vlan_list s)) lk).
Definition vlan_remove (v : Z) (item : ptr) (s : fdb) : option fdb :=
  q ← fdb_vlan_list s !! Z.to_nat v;
  let '(lk, q) := cl_qlist_remove_item (lists s) q item in
  Some (set_vlans s (<[Z.to_nat v := q]> (fdb_vlan_list s)) lk).

Definition fdb_uc_db_filter_add_entry (mac_entry : ptr) (s : fdb) : option (Z * fdb) :=
  if negb (filters_initiated s) then Some (- EPERM, s)
  else if decide (mac_entry = NULL) then Some (- ENOENT, s)
  else
    let v := vid (mac_params (data s mac_entry)) in
    let port := log_port (mac_params (data s mac_entry)) in
    if decide (v >= Z.of_nat MAX_VLAN_ENTRIES) then Some (- EPERM, s)
    else
      s ← vlan_insert v (mac_entry + off_vid_fltr) s;
      '(err, s) ← link_entry_to_fltr_list mac_entry (BUILD_PORT_KEY port) off_port_fltr s;
      if decide (err <> 0) then Some (err, s)
      else link_entry_to_fltr_list mac_entry (BUILD_PORT_VID_KEY port v) off_vid_port_fltr s.

(** The old entry is a copy the caller made of the parameters before it changed them. *)
Definition fdb_uc_db_filter_modified_entry (old : mac_addr_params) (new_mac_entry : ptr) (s : fdb)
    : option (Z * fdb) :=
  if negb (filters_initiated s) then Some (- EPERM, s)
  else if decide (new_mac_entry = NULL) then Some (- ENOENT, s)
  else
    let old_port := log_port old in
    let new_port := log_port (mac_params (data s new_mac_entry)) in
    let v := vid (mac_params (data s new_mac_entry)) in
    if decide (old_port <> new_port) then
      '(err, s) ← delink_entry_from_fltr_list new_mac_entry (BUILD_PORT_KEY old_port) off_port_fltr s;
      if decide (err <> 0) then Some (err, s)
      else
        '(err, s) ← link_entry_to_fltr_list new_mac_entry (BUILD_PORT_KEY new_port) off_port_fltr s;
        if decide (err <> 0) then Some (err, s)
        else
          '(err, s) ← delink_entry_from_fltr_list new_mac_entry (BUILD_PORT_VID_KEY old_port v) off_vid_port_fltr s;
          if decide (err <> 0) then Some (err, s)
          else link_entry_to_fltr_list new_mac_entry (BUILD_PORT_VID_KEY new_port v) off_vid_port_fltr s
    else Some (0, s).

Definition fdb_uc_db_filter_delete_entry (mac_entry : ptr) (s : fdb) : option (Z * fdb) :=
  if negb (filters_initiated s) then Some (- EPERM, s)
  else
    let v := vid (mac_params (data s mac_entry)) in
    let port := log_port (mac_params (data s mac_entry)) in
    let item := mac_entry + off_vid_fltr in
    s ←
      (if bool_decide (p_next (lists s) item <> NULL) && bool_decide (p_prev (lists s) item <> NULL) then
         s ← vlan_remove v item s; Some (set_lists s (zero_item (lists s) item))
       else Some s);
    '(err, s) ← delink_entry_from_fltr_list mac_entry (BUILD_PORT_KEY port) off_port_fltr s;
    if decide (err <> 0) then Some (err, s)
    else delink_entry_from_fltr_list mac_entry (BUILD_PORT_VID_KEY port v) off_vid_port_fltr s.

(** ** Traversal by filter *)

(** The first matching entry, or null, and the cookie that marks the end. *)
Definition fdb_uc_db_filter_get_first_entry (filter : option fdb_uc_key_filter) (s : fdb)
    : option (Z * ptr * ptr) :=
  if negb (filters_initiated s) then Some (- EPERM, NULL, NULL)
  else
    let by_key map_key parent_offset :=
      item ← om_get map_key (fbd_filter_map s);
      if decide (item <> om_end (fbd_filter_map s)) then
        let head := cl_qlist_head (lists s) (fltr_head s item) in
        Some (0, p_prev (lists s) head, head - parent_offset)
      else Some (0, NULL, NULL) in
    match filter with
    | None => Some (ENOENT, NULL, NULL)
    | Some f =>
        if filter_by_log_port f && filter_by_vid f then
          by_key (BUILD_PORT_VID_KEY (filter_log_port f) (filter_vid f)) off_vid_port_fltr
        else if filter_by_log_port f then by_key (BUILD_PORT_KEY (filter_log_port f)) off_port_fltr
        else if filter_by_vid f then
          q ← fdb_vlan_list s !! Z.to_nat (filter_vid f);
          if cl_is_qlist_empty q then Some (0, NULL, NULL)
          else
            let head := cl_qlist_head (lists s) q in
            Some (0, p_prev (lists s) head, head - off_vid_fltr)
        else Some (EINVAL, NULL, NULL)
    end.

Definition fdb_uc_db_filter_get_next_entry (filter : option fdb_uc_key_filter) (list_cookie mac_item : ptr) (s : fdb)
    : Z * ptr :=
  if negb (filters_initiated s) then (- EPERM, NULL)
  else
    let next parent_offset :=
      let next_list_item := cl_qlist_next (lists s) (mac_item + parent_offset) in
      if decide (next_list_item = list_cookie) then (0, NULL) else (0, next_list_item - parent_offset) in
    match filter with
    | None => (- ENOENT, NULL)
    | Some f =>
        if decide (mac_item = NULL) then (- ENOENT, NULL)
        else if decide (list_cookie = NULL) then (- ENOENT, NULL)
        else if filter_by_log_port f && filter_by_vid f then next off_vid_port_fltr
        else if filter_by_log_port f then next off_port_fltr
        else if filter_by_vid f then next off_vid_fltr
        else (- EINVAL, NULL)
    end.

(** ** Counters *)

Definition fdb_uc_db_filter_get_number_of_vid_entries (v : Z) (s : fdb) : option (Z * Z) :=
  if negb (filters_initiated s) then Some (- EPERM, 0)
  else if decide (v >= Z.of_nat MAX_VLAN_ENTRIES) then Some (0, 0)
  else q ← fdb_vlan_list s !! Z.to_nat v; Some (0, u32 (ql_count q)).

(** The length of a list whose count is not kept; there is an item for at most
    every entry of the database. *)
Fixpoint count_loop (fuel : nat) (lk : links) (e itor : ptr) (count : Z) : option Z :=
  if decide (itor = e) then Some count
  else
    match fuel with
    | O => None
    | S fuel => count_loop fuel lk e (cl_qlist_next lk itor) (u32 (count + 1))
    end.

Definition count_key_entries (map_key : Z) (s : fdb) : option (Z * Z) :=
  if negb (filters_initiated s) then Some (- EPERM, 0)
  else
    item ← om_get map_key (fbd_filter_map s);
    if decide (item <> om_end (fbd_filter_map s)) then
      let q := fltr_head s item in
      n ← count_loop (S (Z.to_nat (om_count (fdb_map s)))) (lists s) (ql_end q) (cl_qlist_head (lists s) q) 0;
      Some (0, n)
    else Some (0, 0).

Definition fdb_uc_db_filter_get_number_of_port_entries (port : Z) (s : fdb) : option (Z * Z) :=
  count_key_entries (BUILD_PORT_KEY port) s.
Definition fdb_uc_db_filter_get_number_of_port_vid_entries (port v : Z) (s : fdb) : option (Z * Z) :=
  count_key_entries (BUILD_PORT_VID_KEY port v) s.

Definition fdb_uc_db_filter_get_free_pool_count (s : fdb) : Z * Z :=
  if negb (filters_initiated s) then (- EPERM, 0) else (0, u32 (op_count (fdb_fltr_pool s))).
End Filters.
Arguments fdb : clear implicits.
