(* ===== verification/FdbLists.v ===== *)
(** * The filtering lists in memory

    Which list items the filtering lists link, and that linking or unlinking an
    entry in one list leaves all others as they are.  Lists are named by VLAN or by
    filter key, list items and list ends by the structure they are part of; that
    the addresses of different items differ is the layout of the memory. *)

From S2P Require Import Prelude Qlist Storage FdbFilter.

Local Open Scope Z_scope.
Local Open Scope list_scope.

(** ** Places *)

Inductive field := VidF | PortF | VidPortF.
Inductive place := VEnd (v : nat) | FEnd (f : ptr) | Item (x : field) (a : ptr).
Inductive lid := LV (v : nat) | LK (k : Z).

#[export] Instance field_eq_dec : EqDecision field.
Proof. solve_decision. Defined.
#[export] Instance place_eq_dec : EqDecision place.
Proof. solve_decision. Defined.
#[export] Instance lid_eq_dec : EqDecision lid.
Proof. solve_decision. Defined.

(** A port key has bit 48 set, the key of a port and a VLAN has not. *)
Definition fld (l : lid) : field :=
  match l with LV _ => VidF | LK k => if Z.testbit k 48 then PortF else VidPortF end.

Definition endp (g : gmap Z ptr) (l : lid) : place :=
  match l with LV v => VEnd v | LK k => FEnd (default NULL (g !! k)) end.

Definition active (g : gmap Z ptr) (l : lid) : Prop :=
  match l with LV v => (v < MAX_VLAN_ENTRIES)%nat | LK k => is_Some (g !! k) end.

(** The contents of the lists, as a function of their names. *)
Definition set_list (C : lid -> list ptr) (l : lid) (L : list ptr) : lid -> list ptr :=
  fun l' => if decide (l' = l) then L else C l'.

Lemma set_list_eq C l L : set_list C l L l = L.
Proof. unfold set_list. by rewrite decide_True. Qed.
Lemma set_list_ne C l l' L : l' <> l -> set_list C l L l' = C l'.
Proof. intros. unfold set_list. by rewrite decide_False. Qed.

(** In a ring an item is its own neighbour's neighbour only when it is alone. *)
Lemma ring_alone lk e l1 x l2 :
  ring lk e (l1 ++ x :: l2) -> p_next lk x = p_prev lk x <-> l1 = [] /\ l2 = [].
Proof.
  intros Hr. rewrite (ring_next _ _ _ _ _ Hr), (ring_prev _ _ _ _ _ Hr). destruct Hr as [_ Hnd].
  split; [|by intros [-> ->]]. intros E.
  destruct (list_snoc_case l1) as [->|(l1' & y & ->)], l2 as [|z l2]; rewrite ?last_snoc in E; cbn in E.
  - done.
  - subst. cbn in Hnd. nodup_simpl. ne_solve.
  - subst. nodup_simpl. ne_solve.
  - subst. nodup_simpl. ne_solve.
Qed.

Lemma zero_item_off lk p : same_off [p] lk (zero_item lk p).
Proof. intros x Hx. unfold zero_item. cbn. by rewrite !upd_ne by set_solver. Qed.

Section Lists.
Context {EL : EntryLayout}.
(** The ends of the lists of the VLANs, and the objects of the two pools. *)
Context (vend : nat -> ptr) (U1 U2 : gset ptr).

Definition off (x : field) : Z :=
  match x with VidF => off_vid_fltr | PortF => off_port_fltr | VidPortF => off_vid_port_fltr end.
Definition addr (p : place) : ptr :=
  match p with VEnd v => vend v | FEnd f => f + off_head | Item x a => a + off x end.
Definition valid (p : place) : Prop :=
  match p with VEnd v => (v < MAX_VLAN_ENTRIES)%nat | FEnd f => f ∈ U2 | Item _ a => a ∈ U1 end.

Record layout : Prop := Layout {
  lay_inj p q : valid p -> valid q -> addr p = addr q -> p = q;
  lay_null p : valid p -> addr p <> NULL }.
Context (Hlay : layout).

Implicit Types (lk : links) (g : gmap Z ptr) (C : lid -> list ptr) (l : lid) (X : list place).

Definition items C l : list place := Item (fld l) <$> C l.
Definition places g C l : list place := endp g l :: items C l.

Definition ring_of lk g C l : Prop := ring lk (addr (endp g l)) (addr <$> items C l).
Definition rings lk g C : Prop := forall l, active g l -> ring_of lk g C l.

(** No entry is twice in a list or in two lists through one field; the heads are
    in the pool; only lists with a head have entries. *)
Record lists_ok g C : Prop := ListsOk {
  lo_inj : inj_map g;
  lo_heads k f : g !! k = Some f -> f ∈ U2;
  lo_items l a : a ∈ C l -> a ∈ U1;
  lo_sep l l' a : fld l = fld l' -> a ∈ C l -> a ∈ C l' -> l = l';
  lo_active l : C l <> [] -> active g l }.

Lemma valid_end g C l : lists_ok g C -> active g l -> valid (endp g l).
Proof. intros Hok Ha. destruct l as [v|k]; [done|]. destruct Ha as [f Hf]. cbn. rewrite Hf. by eapply lo_heads. Qed.

Lemma valid_places g C l p : lists_ok g C -> active g l -> p ∈ places g C l -> valid p.
Proof.
  intros Hok Ha [->|Hp]%elem_of_cons; [by eapply valid_end|].
  apply list_elem_of_fmap in Hp as (a & -> & Hin). by eapply lo_items.
Qed.

Lemma places_disjoint g C l l' p :
  lists_ok g C -> active g l -> active g l' -> l <> l' -> p ∈ places g C l -> p ∉ places g C l'.
Proof.
  intros Hok Ha Ha' Hne Hp Hp'. unfold places, items in *. rewrite elem_of_cons, list_elem_of_fmap in Hp, Hp'.
  destruct Hp as [->|(a & -> & Hin)], Hp' as [E|(b & E & Hin')].
  - destruct l as [v|k], l' as [v'|k']; cbn in E; try congruence.
    destruct Ha as [f Hf], Ha' as [f' Hf']. rewrite Hf, Hf' in E. cbn in E. injection E as ->.
    apply Hne. f_equal. by eapply (lo_inj _ _ Hok).
  - by destruct l.
  - by destruct l'.
  - injection E as Ef ->. apply Hne. by eapply (lo_sep _ _ Hok).
Qed.

(** Addresses of valid places are equal only if the places are. *)
Lemma addr_notin p X : valid p -> Forall valid X -> p ∉ X -> addr p ∉ addr <$> X.
Proof.
  intros Hp HX Hn Hin. apply list_elem_of_fmap in Hin as (q & E & Hq). apply Hn.
  rewrite Forall_forall in HX. by rewrite (lay_inj Hlay p q Hp (HX q Hq) E).
Qed.

(** A change of the links at other places leaves a list as it is. *)
Lemma ring_of_frame X lk lk' g C l :
  lists_ok g C -> active g l -> same_off (addr <$> X) lk lk' -> Forall valid X ->
  (forall p, p ∈ places g C l -> p ∉ X) -> ring_of lk g C l -> ring_of lk' g C l.
Proof.
  intros Hok Ha Hs HX Hd. apply (ring_frame _ _ _ _ _ Hs). intros z Hz.
  change (addr (endp g l) :: (addr <$> items C l)) with (addr <$> places g C l) in Hz.
  apply list_elem_of_fmap in Hz as (p & -> & Hp). apply addr_notin; [by eapply valid_places|done|by apply Hd].
Qed.

(** ** Linking an entry at the end of a list *)

Lemma lists_ok_add g C l a :
  lists_ok g C -> active g l -> a ∈ U1 -> (forall l', fld l' = fld l -> a ∉ C l') ->
  lists_ok g (set_list C l (C l ++ [a])).
Proof.
  intros [H1 H2 H3 H4 H5] Ha Hu Hn.
  assert (Hin : forall l' b, b ∈ set_list C l (C l ++ [a]) l' -> b ∈ C l' \/ (b = a /\ l' = l)).
  { intros l' b. unfold set_list. case_decide as E; [subst|by left].
    rewrite elem_of_app, list_elem_of_singleton. naive_solver. }
  split; [done|done| | |].
  - intros l' b [Hb|[-> ->]]%Hin; [by eapply H3|done].
  - intros l1 l2 b Hf [Hb1|[E1 ->]]%Hin [Hb2|[E2 ->]]%Hin; subst; [by eapply H4| | |done].
    + by destruct (Hn l1 Hf).
    + symmetry in Hf. by destruct (Hn l2 Hf).
  - intros l'. unfold set_list. case_decide; [by subst|by apply H5].
Qed.

Lemma rings_add lk g C l a :
  lists_ok g C -> rings lk g C -> active g l -> a ∈ U1 -> (forall l', fld l' = fld l -> a ∉ C l') ->
  rings (__cl_primitive_insert lk (addr (endp g l)) (addr (Item (fld l) a))) g (set_list C l (C l ++ [a])).
Proof.
  intros Hok Hr Ha Hu Hn. set (it := Item (fld l) a).
  assert (Hit : it ∉ places g C l).
  { unfold places, items. rewrite elem_of_cons, list_elem_of_fmap. intros [E|(b & E & Hb)]; [by destruct l|].
    injection E as <-. by apply (Hn l eq_refl). }
  assert (Hv : Forall valid (places g C l)) by (apply Forall_forall; intros; by eapply valid_places).
  assert (Hnew : addr it ∉ addr (endp g l) :: (addr <$> items C l) ++ []).
  { rewrite app_nil_r. by apply (addr_notin it (places g C l)). }
  pose proof (Hr l Ha) as Hl. unfold ring_of in Hl. rewrite <- (app_nil_r (addr <$> items C l)) in Hl.
  pose proof (ring_insert_frame _ _ _ _ _ Hl Hnew) as Hframe.
  apply (ring_insert _ _ _ _ _ Hl) in Hnew. cbn [head default] in Hnew, Hframe.
  intros l' Ha'. destruct (decide (l' = l)) as [->|Hne].
  - unfold ring_of, items. rewrite set_list_eq, !fmap_app. exact Hnew.
  - unfold ring_of, items. rewrite set_list_ne by done. fold (items C l').
    apply (ring_of_frame (it :: places g C l) lk); [done|done| |by constructor| |by apply Hr].
    + rewrite app_nil_r in Hframe. exact Hframe.
    + intros p Hp. apply not_elem_of_cons. split; [|by eapply (places_disjoint g C l' l)].
      intros ->. unfold places, items in Hp. rewrite elem_of_cons, list_elem_of_fmap in Hp.
      destruct Hp as [E|(b & E & Hb)]; [by destruct l'|]. injection E as Ef <-. by apply (Hn l').
Qed.

(** ** Unlinking an entry *)

Lemma lists_ok_remove g C l L1 a L2 :
  lists_ok g C -> C l = L1 ++ a :: L2 -> lists_ok g (set_list C l (L1 ++ L2)).
Proof.
  intros [H1 H2 H3 H4 H5] HC.
  assert (Hin : forall l' b, b ∈ set_list C l (L1 ++ L2) l' -> b ∈ C l').
  { intros l' b. unfold set_list. case_decide as E; [subst|done]. rewrite HC. set_solver. }
  split; [done|done| | |].
  - intros l' b Hb%Hin. by eapply H3.
  - intros l1 l2 b Hf Hb1%Hin Hb2%Hin. by eapply H4.
  - intros l'. unfold set_list. case_decide as E; [subst|by apply H5]. intros _. apply H5. rewrite HC. by destruct L1.
Qed.

(** The item removed is cleared as well. *)
Lemma rings_remove lk g C l L1 a L2 :
  lists_ok g C -> rings lk g C -> C l = L1 ++ a :: L2 ->
  let it := addr (Item (fld l) a) in
  rings (zero_item (__cl_primitive_remove lk it) it) g (set_list C l (L1 ++ L2)).
Proof.
  intros Hok Hr HC it. assert (Ha : active g l) by (apply (lo_active _ _ Hok); rewrite HC; by destruct L1).
  pose proof (Hr l Ha) as Hl. unfold ring_of, items in Hl. rewrite HC, !fmap_app, !fmap_cons in Hl. fold it in Hl.
  pose proof (ring_remove_frame _ _ _ _ _ Hl) as Hframe. pose proof Hl as [_ Hnd].
  apply ring_remove in Hl.
  pose proof (zero_item_off (__cl_primitive_remove lk it) it) as Hz.
  intros l' Ha'. destruct (decide (l' = l)) as [->|Hne].
  - unfold ring_of, items. rewrite set_list_eq, !fmap_app.
    apply (ring_frame _ _ _ _ _ Hz); [|exact Hl]. clearbody it. intros z Hin ->%list_elem_of_singleton.
    rewrite <- (Permutation_middle _ _ it), Permutation_swap in Hnd. by apply NoDup_cons in Hnd as [? _].
  - unfold ring_of, items. rewrite set_list_ne by done. fold (items C l').
    apply (ring_of_frame (places g C l) lk); [done|done| | | |by apply Hr].
    + intros x Hx. unfold places, items in Hx. rewrite HC, fmap_cons, !fmap_app, !fmap_cons in Hx. fold it in Hx.
      rewrite not_elem_of_cons, not_elem_of_app, not_elem_of_cons in Hx. destruct Hx as (Hx1 & Hx2 & Hx3 & Hx4).
      destruct (Hz x) as [-> ->]; [by rewrite list_elem_of_singleton|]. apply Hframe.
      by rewrite not_elem_of_cons, not_elem_of_app.
    + apply Forall_forall. intros p. by apply valid_places.
    + intros p. by apply places_disjoint.
Qed.

(** What the links of an entry in a list say. *)
Lemma linked_item lk g C l L1 a L2 :
  lists_ok g C -> rings lk g C -> C l = L1 ++ a :: L2 ->
  let it := addr (Item (fld l) a) in
  p_next lk it = default (addr (endp g l)) (addr <$> (Item (fld l) <$> head L2)) /\
  p_next lk it <> NULL /\ p_prev lk it <> NULL /\
  bool_decide (p_next lk it = p_prev lk it) = bool_decide (L1 ++ L2 = []).
Proof.
  intros Hok Hr HC it. assert (Ha : active g l) by (apply (lo_active _ _ Hok); rewrite HC; by destruct L1).
  assert (Hv : forall p, p ∈ places g C l -> addr p <> NULL).
  { intros p Hp. apply (lay_null Hlay). by eapply valid_places. }
  pose proof (Hr l Ha) as Hl. unfold ring_of, items in Hl. rewrite HC, !fmap_app, !fmap_cons in Hl. fold it in Hl.
  unfold places, items in Hv. rewrite HC in Hv.
  split; [|split; [|split]].
  - rewrite (ring_next _ _ _ _ _ Hl). by destruct L2.
  - rewrite (ring_next _ _ _ _ _ Hl). destruct L2 as [|b L2]; cbn; [apply Hv; set_solver|].
    apply (Hv (Item (fld l) b)). rewrite fmap_app. set_solver.
  - rewrite (ring_prev _ _ _ _ _ Hl). destruct (list_snoc_case L1) as [->|(L & b & ->)]; cbn; [apply Hv; set_solver|].
    rewrite !fmap_app, last_app. cbn. apply (Hv (Item (fld l) b)). rewrite !fmap_app. set_solver.
  - apply bool_decide_ext. rewrite (ring_alone _ _ _ _ _ Hl). destruct L1, L2; cbn; naive_solver.
Qed.

(** ** Heads *)

Lemma rings_new_head lk lk' g C k f :
  lists_ok g C -> rings lk g C -> g !! k = None -> f ∈ U2 -> (forall k' f', g !! k' = Some f' -> f' <> f) ->
  same_off [addr (FEnd f)] lk lk' -> ring lk' (addr (FEnd f)) [] ->
  lists_ok (<[k := f]> g) C /\ rings lk' (<[k := f]> g) C /\ C (LK k) = [].
Proof.
  intros Hok Hr Hk Hf Hnew Hs Hring.
  assert (HC : C (LK k) = []).
  { destruct (C (LK k)) eqn:E; [done|]. destruct (lo_active _ _ Hok (LK k)) as [? ?]; [by rewrite E|congruence]. }
  assert (Hmono : forall l, active g l -> active (<[k := f]> g) l /\ endp (<[k := f]> g) l = endp g l /\ l <> LK k).
  { intros [v|k'] Ha; [done|]. cbn in *. destruct (decide (k' = k)) as [->|].
    - rewrite Hk in Ha. by destruct Ha.
    - rewrite lookup_insert_ne by done. split_and!; congruence. }
  split; [|split; [|done]].
  - destruct Hok as [H1 H2 H3 H4 H5]. split; [| |done|done|].
    + intros k1 k2 q. destruct (decide (k1 = k)) as [->|], (decide (k2 = k)) as [->|];
        rewrite ?lookup_insert_eq, ?lookup_insert_ne by done; try done; [| |by apply H1]; naive_solver.
    + intros k' q. destruct (decide (k' = k)) as [->|]; [rewrite lookup_insert_eq; congruence|].
      rewrite lookup_insert_ne by done. by apply H2.
    + intros l Hl. by apply Hmono, H5.
  - intros l Ha. destruct (decide (l = LK k)) as [->|Hne].
    { unfold ring_of, items. cbn. rewrite lookup_insert_eq, HC. exact Hring. }
    assert (Ha' : active g l).
    { destruct l as [v|k']; [done|]. cbn in *. rewrite lookup_insert_ne in Ha by congruence. done. }
    unfold ring_of. destruct (Hmono l Ha') as (_ & -> & _).
    apply (ring_of_frame [FEnd f] lk); [done|done|done|by repeat constructor| |by apply Hr].
    intros p Hp ->%list_elem_of_singleton. unfold places in Hp. apply elem_of_cons in Hp as [E|Hp].
    + destruct l as [v|k']; cbn in E; [done|]. destruct Ha' as [f' Hf']. rewrite Hf' in E. cbn in E.
      injection E as ->. by apply (Hnew k' f').
    + apply list_elem_of_fmap in Hp as (? & ? & _). done.
Qed.

Lemma rings_drop_head lk g C k :
  lists_ok g C -> rings lk g C -> C (LK k) = [] -> lists_ok (delete k g) C /\ rings lk (delete k g) C.
Proof.
  intros Hok Hr HC.
  assert (Hmono : forall l, active (delete k g) l -> active g l /\ endp (delete k g) l = endp g l).
  { intros [v|k'] Ha; [done|]. cbn in *. destruct (decide (k' = k)) as [->|].
    - rewrite lookup_delete_eq in Ha. by destruct Ha.
    - by rewrite lookup_delete_ne in * by done. }
  split.
  - destruct Hok as [H1 H2 H3 H4 H5]. split; [| |done|done|].
    + intros k1 k2 q [_ E1]%lookup_delete_Some [_ E2]%lookup_delete_Some. by eapply H1.
    + intros k' q [_ E]%lookup_delete_Some. by eapply H2.
    + intros l Hl. pose proof (H5 l Hl) as Ha. destruct l as [v|k']; [done|]. cbn in *.
      rewrite lookup_delete_ne; [done|congruence].
  - intros l Ha. destruct (Hmono l Ha) as [Ha' E]. unfold ring_of. rewrite E. by apply Hr.
Qed.
End Lists.
