(* ===== verification/FdbFilterSpec.v ===== *)
(** * What the filter operations do

    Over containers that keep the promises of [Storage.v], linking and unlinking an
    entry change exactly one list and create or give back its head when needed. *)

From S2P Require Import Prelude Qlist Storage FdbFilter FdbLists.

Local Open Scope Z_scope.
Local Open Scope list_scope.

(** ** Keys *)

Lemma lor_shiftl_add a b n : 0 <= n -> 0 <= a < 2 ^ n -> Z.lor a (Z.shiftl b n) = a + b * 2 ^ n.
Proof.
  intros Hn Ha. assert (Hz : Z.land a (Z.shiftl b n) = 0).
  { apply Z.bits_inj'. intros i Hi. rewrite Z.land_spec, Z.shiftl_spec, Z.bits_0 by lia.
    destruct (Z_lt_le_dec i n) as [Hlt|Hle].
    - rewrite (Z.testbit_neg_r b) by lia. apply andb_false_r.
    - destruct (decide (a = 0)) as [->|]; [by rewrite Z.bits_0|]. rewrite Z.bits_above_log2; [done|lia|].
      apply Z.log2_lt_pow2; [lia|]. apply Z.lt_le_trans with (2 ^ n); [lia|]. apply Z.pow_le_mono_r; lia. }
  pose proof (Z.add_lor_land a (Z.shiftl b n)) as E. rewrite Hz, Z.shiftl_mul_pow2 in * by done. lia.
Qed.

(** VLANs and ports the filter keys tell apart. *)
Definition vid_ok (v : Z) : Prop := 0 <= v < Z.of_nat MAX_VLAN_ENTRIES.
Definition port_ok (port : Z) : Prop := 0 <= port < 2 ^ 32.

Lemma port_key_eq port : port_ok port -> BUILD_PORT_KEY port = port + 2 ^ 48.
Proof.
  intros Hp. unfold BUILD_PORT_KEY, port_ok in *. change 0x1000000000000 with (Z.shiftl 1 48).
  rewrite lor_shiftl_add by lia. rewrite wrap_small; lia.
Qed.

Lemma port_vid_key_eq port v : port_ok port -> vid_ok v -> BUILD_PORT_VID_KEY port v = port + v * 2 ^ 32 + 2 ^ 49.
Proof.
  intros Hp Hv. unfold BUILD_PORT_VID_KEY, port_ok, vid_ok in *. change (Z.of_nat MAX_VLAN_ENTRIES) with 4096 in Hv.
  change 0x2000000000000 with (Z.shiftl 1 49).
  rewrite (lor_shiftl_add port v 32), (lor_shiftl_add _ 1 49) by lia. rewrite wrap_small; lia.
Qed.

Lemma port_key_field port : port_ok port -> fld (LK (BUILD_PORT_KEY port)) = PortF.
Proof.
  intros Hp. unfold fld. rewrite port_key_eq by done. rewrite Z.testbit_eqb by done.
  replace ((port + 2 ^ 48) / 2 ^ 48) with 1; [done|]. unfold port_ok in Hp.
  apply (Z.div_unique_pos _ _ _ port); lia.
Qed.

Lemma port_vid_key_field port v : port_ok port -> vid_ok v -> fld (LK (BUILD_PORT_VID_KEY port v)) = VidPortF.
Proof.
  intros Hp Hv. unfold fld. rewrite port_vid_key_eq by done. rewrite Z.testbit_eqb by done.
  unfold port_ok, vid_ok in *. change (Z.of_nat MAX_VLAN_ENTRIES) with 4096 in Hv.
  replace ((port + v * 2 ^ 32 + 2 ^ 49) / 2 ^ 48) with 2; [done|].
  apply (Z.div_unique_pos _ _ _ (port + v * 2 ^ 32)); lia.
Qed.

Lemma port_key_inj p p' : port_ok p -> port_ok p' -> BUILD_PORT_KEY p = BUILD_PORT_KEY p' -> p = p'.
Proof. intros. rewrite !port_key_eq in * by done. lia. Qed.

Lemma port_vid_key_inj p v p' v' :
  port_ok p -> vid_ok v -> port_ok p' -> vid_ok v' ->
  BUILD_PORT_VID_KEY p v = BUILD_PORT_VID_KEY p' v' -> p = p' /\ v = v'.
Proof.
  intros Hp Hv Hp' Hv'. rewrite !port_vid_key_eq by done. unfold port_ok in *. lia.
Qed.

(** ** The state of the filters *)

Section Spec.
Context {M P A : Type} {OM : OrderedMap M} {OML : OrderedMapLaws M} {OP : ObjectPool P A} {OPL : ObjectPoolLaws P A}
  {EL : EntryLayout}.
Context (vend : nat -> ptr) (U1 U2 : gset ptr).
Context (Hlay : layout vend U1 U2).
Implicit Types (s : fdb M P A) (g : gmap Z ptr) (C : lid -> list ptr) (F : gset ptr) (l : lid).

Abbreviation lists_ok := (lists_ok U1 U2).
Abbreviation rings := (rings vend).

(** [g] are the heads by key, [C] the contents of the lists, [F] the free filter
    entries. *)
Record filters_core s g C F : Prop := FiltersCore {
  fa_init : filters_initiated s = true;
  fa_map : map_is (fbd_filter_map s) g;
  fa_room f : f ∈ U2 -> f ∉ map_room (fbd_filter_map s);
  fa_pool : exists O, pool_is (fdb_fltr_pool s) F O /\ items_of g O /\ F ∪ O = U2;
  fa_small : Z.of_nat (size U2) < 2 ^ 32;
  fa_length : length (fdb_vlan_list s) = MAX_VLAN_ENTRIES;
  fa_vlans v q : fdb_vlan_list s !! v = Some q -> ql_end q = vend v /\ ql_count q = u64 (Z.of_nat (length (C (LV v))));
  fa_heads k f : g !! k = Some f -> ql_end (fltr_head s f) = f + off_head;
  fa_ok : lists_ok g C;
  fa_rings : rings (lists s) g C }.

(** Every head has entries, between operations. *)
Definition used g C (ks : list Z) : Prop := forall k, is_Some (g !! k) -> k ∉ ks -> C (LK k) <> [].
Definition filters_at s g C F : Prop := filters_core s g C F /\ used g C [].

(** What no filter operation changes. *)
Definition main_same s s' : Prop :=
  fdb_initiated s' = fdb_initiated s /\ fdb_map s' = fdb_map s /\ main_db_pool s' = main_db_pool s /\
  data s' = data s /\ heap s' = heap s.

#[export] Instance main_same_preorder : PreOrder main_same.
Proof.
  split; [by intros s|]. intros s1 s2 s3 (A1 & A2 & A3 & A4 & A5) (B1 & B2 & B3 & B4 & B5).
  unfold main_same. split_and!; congruence.
Qed.

(** The number of filter entries in use. *)
Lemma filters_size s g C F : filters_core s g C F -> (size F + size g = size U2)%nat.
Proof.
  intros Hf. destruct (fa_pool _ _ _ _ Hf) as (O & HO & Hit & <-).
  rewrite <- (items_size g O (lo_inj _ _ _ _ (fa_ok _ _ _ _ Hf)) Hit).
  destruct (pool_sets_law _ _ _ HO) as [Hd _]. by rewrite size_union.
Qed.

(** ** Linking *)

(** Adding an entry to the list of a key that has a head. *)
Lemma link_tail s g C F k f a :
  filters_core s g C F -> g !! k = Some f -> a ∈ U1 -> (forall l', fld l' = fld (LK k) -> a ∉ C l') ->
  let '(lk, q) := cl_qlist_insert_tail (lists s) (fltr_head s f) (a + off (fld (LK k))) in
  let s' := set_head s f (QList (ql_end q) 0 (ql_state q)) lk in
  filters_core s' g (set_list C (LK k) (C (LK k) ++ [a])) F /\ main_same s s'.
Proof.
  intros Hf Hk Ha Hn. pose proof (fa_heads _ _ _ _ Hf _ _ Hk) as He. unfold cl_qlist_insert_tail, cl_qlist_end.
  rewrite He. split; [|done].
  assert (Hact : active g (LK k)) by (by exists f).
  pose proof (rings_add vend U1 U2 Hlay (lists s) g C (LK k) a (fa_ok _ _ _ _ Hf) (fa_rings _ _ _ _ Hf) Hact Ha Hn) as Hr.
  cbn [endp addr] in Hr. rewrite Hk in Hr. cbn [default] in Hr.
  pose proof (lists_ok_add U1 U2 g C (LK k) a (fa_ok _ _ _ _ Hf) Hact Ha Hn) as Hok.
  destruct Hf. constructor; try done.
  intros k' f' Hk'. cbn. unfold upd. case_decide as E; [|by eapply fa_heads0]. subst f'. cbn. by rewrite He.
Qed.

(** The head for a key: the one in the map, or a new one with an empty list. *)
Lemma fltr_entry_old s g C F k f :
  filters_core s g C F -> g !! k = Some f -> fltr_entry_for k s = Some (0, f, s).
Proof.
  intros Hf Hk. unfold fltr_entry_for. rewrite (map_get_law _ _ _ (fa_map _ _ _ _ Hf)), Hk.
  cbn [default from_option id mbind option_bind].
  destruct (map_item_law _ _ _ _ (fa_map _ _ _ _ Hf) Hk) as [He _]. rewrite decide_True by done.
  destruct (fa_pool _ _ _ _ Hf) as (O & HO & Hit & _). destruct (pool_sets_law _ _ _ HO) as [_ Hn].
  rewrite decide_False; [done|]. intros ->. apply Hn. apply elem_of_union_r, Hit. eauto.
Qed.

Lemma fltr_entry_new s g C F k :
  filters_core s g C F -> g !! k = None -> F <> ∅ ->
  exists f s', fltr_entry_for k s = Some (0, f, s') /\ main_same s s' /\
    filters_core s' (<[k := f]> g) C (F ∖ {[f]}) /\ C (LK k) = [].
Proof.
  intros Hf Hk HF. unfold fltr_entry_for. rewrite (map_get_law _ _ _ (fa_map _ _ _ _ Hf)), Hk.
  cbn [default from_option mbind option_bind]. rewrite decide_False by (intros []; done).
  destruct (fa_pool _ _ _ _ Hf) as (O & HO & Hit & HU).
  destruct (pool_get_law _ (heap s) _ _ HO) as (f & p & -> & [(_ & ? & _)|[HfF Hp]]); [done|].
  destruct (pool_sets_law _ _ _ HO) as [Hdis Hnull].
  rewrite decide_False by (intros ->; set_solver).
  assert (HfU : f ∈ U2) by set_solver.
  assert (Hfree : forall k' f', g !! k' = Some f' -> f' <> f).
  { intros k' f' Hk' ->. assert (f ∈ O) by (apply Hit; eauto). set_solver. }
  cbn [cl_qlist_init __cl_qlist_reset ql_end ql_count ql_state]. set (lk := set_prev _ _ _).
  pose proof (filters_size _ _ _ _ Hf) as Hsz.
  destruct (map_insert_law (fbd_filter_map s) g k f (fa_map _ _ _ _ Hf) Hk) as (m & Hins & Hm & Hroom);
    [by eapply fa_room|done|pose proof (fa_small _ _ _ _ Hf); lia|].
  cbn [fbd_filter_map set_head set_filter_pool]. rewrite Hins. cbn [mbind option_bind].
  eexists f, _. split; [done|]. split; [done|].
  assert (Hs : same_off [addr vend (FEnd f)] (lists s) lk).
  { intros x Hx. unfold lk. destruct (zero_item_off (lists s) (f + off_head) x) as [E1 E2]; [done|].
    destruct (same_reset (zero_item (lists s) (f + off_head)) (f + off_head) x) as [E3 E4]; [done|].
    split; [exact (eq_trans E3 E1)|exact (eq_trans E4 E2)]. }
  destruct (rings_new_head vend U1 U2 Hlay (lists s) lk g C k f (fa_ok _ _ _ _ Hf) (fa_rings _ _ _ _ Hf) Hk HfU Hfree Hs)
    as (Hok & Hr & HC); [apply ring_reset|]. split; [|done].
  destruct Hf. constructor; try done; cbn.
  - intros f' Hf'. rewrite Hroom. by apply fa_room0.
  - exists ({[f]} ∪ O). split; [done|]. split; [by apply items_insert|]. rewrite <- HU.
    apply set_eq. intros x. destruct (decide (x = f)); set_solver.
  - intros k' f' Hk'. unfold upd. case_decide as E; [by subst|]. apply (fa_heads0 k').
    by apply lookup_insert_Some in Hk' as [[_ ?]|[_ ?]]; [congruence|].
Qed.

(** Linking an entry in the list of a key: the list gains it at its end, and a head
    is taken from the pool if there was none. *)
Lemma link_spec s g C F k a x :
  filters_at s g C F -> a ∈ U1 -> fld (LK k) = x -> (forall l', fld l' = x -> a ∉ C l') ->
  (g !! k = None -> F <> ∅) ->
  exists s' g' F', link_entry_to_fltr_list a k (off x) s = Some (0, s') /\ main_same s s' /\
    filters_at s' g' (set_list C (LK k) (C (LK k) ++ [a])) F'.
Proof.
  intros [Hf Hu] Ha Hx Hn HF. unfold link_entry_to_fltr_list. rewrite (fa_init _ _ _ _ Hf). cbn [negb].
  rewrite <- Hx in *.
  assert (exists f s1 g1 F1, fltr_entry_for k s = Some (0, f, s1) /\ main_same s s1 /\
    filters_core s1 g1 C F1 /\ g1 !! k = Some f /\ used g1 C [k]) as (f & s1 & g1 & F1 & -> & Hm & Hf1 & Hk1 & Hu1).
  { destruct (g !! k) as [f|] eqn:Hk.
    - exists f, s, g, F. split_and!; try done; [by eapply fltr_entry_old|]. intros k' Hk' _. by apply Hu; [|apply not_elem_of_nil].
    - destruct (fltr_entry_new _ _ _ _ _ Hf Hk (HF eq_refl)) as (f & s1 & -> & Hm & Hf1 & _).
      eexists f, s1, _, _. split_and!; try done; [by rewrite lookup_insert_eq|].
      intros k' Hk' Hne%not_elem_of_cons. rewrite lookup_insert_ne in Hk' by naive_solver.
      apply Hu; [done|apply not_elem_of_nil]. }
  cbn [mbind option_bind]. rewrite decide_False by lia.
  pose proof (link_tail s1 g1 C F1 k f a Hf1 Hk1 Ha Hn) as H. destruct (cl_qlist_insert_tail _ _ _) as [lk q].
  destruct H as [Hf2 Hm2]. eexists _, g1, F1. split; [done|]. split; [by etrans|]. split; [done|].
  intros k' Hk' _. destruct (decide (LK k' = LK k)) as [->|]; [rewrite set_list_eq; by destruct (C (LK k))|].
  rewrite set_list_ne by done. apply Hu1; [done|]. set_solver.
Qed.

(** With no head for the key and none in the pool nothing is linked. *)
Lemma link_nomem s g C k a o :
  filters_at s g C ∅ -> g !! k = None ->
  exists s', link_entry_to_fltr_list a k o s = Some (ENOMEM, s') /\ main_same s s' /\ filters_at s' g C ∅.
Proof.
  intros [Hf Hu] Hk. unfold link_entry_to_fltr_list, fltr_entry_for. rewrite (fa_init _ _ _ _ Hf). cbn [negb].
  rewrite (map_get_law _ _ _ (fa_map _ _ _ _ Hf)), Hk. cbn [default from_option mbind option_bind].
  rewrite decide_False by (intros []; done).
  destruct (fa_pool _ _ _ _ Hf) as (O & HO & Hit & HU).
  destruct (pool_get_law _ (heap s) _ _ HO) as (f & p & -> & [(-> & _ & Hp)|[? _]]); [|set_solver].
  rewrite decide_True by done. cbn. eexists. split; [done|]. split; [done|]. split; [|done].
  destruct Hf. constructor; try done. exists O. done.
Qed.

(** ** Unlinking *)

Lemma delink_spec s g C F k a x L1 L2 :
  filters_at s g C F -> fld (LK k) = x -> C (LK k) = L1 ++ a :: L2 ->
  exists s' g' F', delink_entry_from_fltr_list a k (off x) s = Some (0, s') /\ main_same s s' /\
    filters_at s' g' (set_list C (LK k) (L1 ++ L2)) F' /\ g' ⊆ g.
Proof.
  intros [Hf Hu] <- HC. unfold delink_entry_from_fltr_list. rewrite (fa_init _ _ _ _ Hf). cbn [negb].
  destruct (linked_item vend U1 U2 Hlay _ _ _ _ _ _ _ (fa_ok _ _ _ _ Hf) (fa_rings _ _ _ _ Hf) HC) as (_ & Hn & Hp & Hlast).
  cbn [addr] in Hn, Hp, Hlast. rewrite !(bool_decide_true (_ <> _)) by done. cbn [andb]. rewrite Hlast. clear Hlast.
  pose proof (rings_remove vend U1 U2 Hlay _ _ _ _ _ _ _ (fa_ok _ _ _ _ Hf) (fa_rings _ _ _ _ Hf) HC) as Hr.
  cbn [addr] in Hr. pose proof (lists_ok_remove vend U1 U2 Hlay _ _ _ _ _ _ (fa_ok _ _ _ _ Hf) HC) as Hok.
  set (lk := zero_item _ _) in *. set (C' := set_list _ _ _) in *.
  assert (Hf1 : filters_core (set_lists s lk) g C' F).
  { destruct Hf. constructor; done. }
  assert (HC' : C' (LK k) = L1 ++ L2) by apply set_list_eq.
  assert (Hu' : used g C' [k]).
  { intros k' Hk' Hne. unfold C'. rewrite set_list_ne by set_solver. apply Hu; [done|apply not_elem_of_nil]. }
  case_bool_decide as Hempty.
  - assert (Hact : is_Some (g !! k)) by (apply (lo_active _ _ _ _ (fa_ok _ _ _ _ Hf) (LK k)); rewrite HC; by destruct L1).
    destruct Hact as [f Hk]. cbn [fbd_filter_map set_lists set_vlans].
    rewrite (map_get_law _ _ _ (fa_map _ _ _ _ Hf)), Hk. cbn [default from_option id mbind option_bind].
    destruct (map_item_law _ _ _ _ (fa_map _ _ _ _ Hf) Hk) as [He _]. rewrite decide_True by done.
    destruct (map_remove_law _ _ _ _ (fa_map _ _ _ _ Hf) Hk) as (m & -> & Hm & Hroom).
    destruct (fa_pool _ _ _ _ Hf) as (O & HO & Hit & HU). cbn [mbind option_bind fdb_fltr_pool heap set_filter_map set_lists set_vlans].
    assert (HfO : f ∈ O) by (apply Hit; eauto).
    destruct (pool_put_law _ (heap s) _ _ f HO HfO) as (p & -> & Hp').
    destruct (rings_drop_head vend U1 U2 lk g C' k Hok Hr) as [Hok2 Hr2]; [by rewrite HC'|].
    eexists _, (delete k g), ({[f]} ∪ F). split; [done|]. split; [done|]. split; [|apply delete_subseteq]. split.
    + pose proof (lo_inj _ _ _ _ (fa_ok _ _ _ _ Hf)) as Hinj. destruct Hf1. constructor; try done; cbn.
      * intros f' Hf'. rewrite Hroom. by apply fa_room0.
      * exists (O ∖ {[f]}). split; [done|]. split; [by apply items_delete|]. rewrite <- HU.
        apply set_eq. intros z. destruct (decide (z = f)); set_solver.
      * intros k' f' [_ Hk']%lookup_delete_Some. by eapply fa_heads0.
    + intros k' [f' [Hne Hk']%lookup_delete_Some] _. apply Hu'; [by eauto|set_solver].
  - eexists _, g, F. split; [done|]. split; [done|]. split; [|done]. split; [done|].
    intros k' Hk' _. destruct (decide (k' = k)) as [->|]; [by rewrite HC'|]. apply Hu'; [done|set_solver].
Qed.

(** ** Lists of VLANs *)

Lemma vlan_lookup s g C F v :
  filters_core s g C F -> (v < MAX_VLAN_ENTRIES)%nat -> exists q, fdb_vlan_list s !! v = Some q.
Proof. intros Hf Hv. apply lookup_lt_is_Some_2. by rewrite (fa_length _ _ _ _ Hf). Qed.

(** A change of one list head of the array. *)
Lemma vlan_update s g C F v q L lk :
  filters_core s g C F -> ql_end q = vend v -> ql_count q = u64 (Z.of_nat (length L)) ->
  lists_ok g (set_list C (LV v) L) -> rings lk g (set_list C (LV v) L) ->
  filters_core (set_vlans s (<[v := q]> (fdb_vlan_list s)) lk) g (set_list C (LV v) L) F.
Proof.
  intros Hf He Hc Hok Hr. destruct Hf. constructor; try done; cbn.
  - by rewrite length_insert.
  - intros v' q' Hq'. destruct (decide (v' = v)) as [->|Hne].
    + rewrite set_list_eq. rewrite list_lookup_insert_eq in Hq'; [by injection Hq' as <-|].
      apply lookup_lt_Some in Hq'. by rewrite length_insert in Hq'.
    + rewrite list_lookup_insert_ne in Hq' by done. rewrite set_list_ne by congruence. by apply fa_vlans0.
Qed.

Lemma used_vlan g C v L : used g C [] -> used g (set_list C (LV v) L) [].
Proof. intros Hu k Hk Hn. rewrite set_list_ne by done. by apply Hu. Qed.

Lemma vlan_insert_spec s g C F v a :
  filters_at s g C F -> vid_ok v -> a ∈ U1 -> (forall l', fld l' = VidF -> a ∉ C l') ->
  exists s', vlan_insert v (a + off_vid_fltr) s = Some s' /\ main_same s s' /\
    filters_at s' g (set_list C (LV (Z.to_nat v)) (C (LV (Z.to_nat v)) ++ [a])) F.
Proof.
  intros [Hf Hu] Hv Ha Hn. set (n := Z.to_nat v). assert (Hlt : (n < MAX_VLAN_ENTRIES)%nat) by (unfold vid_ok in Hv; lia).
  destruct (vlan_lookup _ _ _ _ n Hf Hlt) as [q Hq]. unfold vlan_insert. fold n. rewrite Hq. cbn [mbind option_bind].
  destruct (fa_vlans _ _ _ _ Hf _ _ Hq) as [He Hc]. unfold cl_qlist_insert_tail, cl_qlist_end. rewrite He.
  eexists. split; [done|]. split; [done|]. split; [|by apply used_vlan]. apply vlan_update; [done|done| | |].
  - cbn. rewrite Hc, length_app. autorewrite with wraps. f_equal. cbn. lia.
  - apply lists_ok_add; [apply Hf|done..].
  - apply (rings_add vend U1 U2 Hlay (lists s) g C (LV n) a); [apply Hf|apply Hf|done..].
Qed.

Lemma vlan_remove_spec s g C F v a L1 L2 :
  filters_at s g C F -> vid_ok v -> C (LV (Z.to_nat v)) = L1 ++ a :: L2 ->
  let item := a + off_vid_fltr in
  p_next (lists s) item <> NULL /\ p_prev (lists s) item <> NULL /\
  exists s', vlan_remove v item s = Some s' /\ main_same s (set_lists s' (zero_item (lists s') item)) /\
    filters_at (set_lists s' (zero_item (lists s') item)) g (set_list C (LV (Z.to_nat v)) (L1 ++ L2)) F.
Proof.
  intros [Hf Hu] Hv HC item. set (n := Z.to_nat v) in *.
  assert (Hlt : (n < MAX_VLAN_ENTRIES)%nat) by (unfold vid_ok in Hv; lia).
  destruct (linked_item vend U1 U2 Hlay _ _ _ _ _ _ _ (fa_ok _ _ _ _ Hf) (fa_rings _ _ _ _ Hf) HC) as (_ & Hnx & Hpv & _).
  split; [done|]. split; [done|].
  destruct (vlan_lookup _ _ _ _ n Hf Hlt) as [q Hq]. unfold vlan_remove. fold n. rewrite Hq. cbn [mbind option_bind].
  destruct (fa_vlans _ _ _ _ Hf _ _ Hq) as [He Hc]. unfold cl_qlist_remove_item, cl_qlist_end. rewrite He.
  assert (Hne : item <> vend n).
  { intros E. enough (Item VidF a = VEnd n) by done. apply (lay_inj _ _ _ Hlay); [|done|done].
    apply (lo_items _ _ _ _ (fa_ok _ _ _ _ Hf) (LV n)). rewrite HC. set_solver. }
  rewrite decide_False by done. eexists. split; [done|]. split; [done|]. split; [|by apply used_vlan].
  apply (vlan_update s g C F n (ql_set_count q (ql_count q - 1)) (L1 ++ L2)); [done|done| | |].
  - cbn. rewrite Hc, HC, !length_app. autorewrite with wraps. f_equal. cbn. lia.
  - eapply (lists_ok_remove vend); [done|apply Hf|done].
  - by apply (rings_remove vend U1 U2 Hlay (lists s) g C (LV n) L1 a L2); [apply Hf|apply Hf|].
Qed.
End Spec.
