(* ===== verification/FdbFilterOps.v ===== *)
(** * Filters by content: adding, changing, deleting and traversing entries

    Every entry of a set is in exactly three lists, those its parameters name;
    adding, modifying and deleting an entry keep it so, and a traversal by filter
    visits the entries of the list the filter names. *)

From S2P Require Import Prelude Qlist Storage FdbFilter FdbLists FdbFilterSpec.

Local Open Scope Z_scope.
Local Open Scope list_scope.

Lemma size_list_to_set_le (X : list Z) : (size (list_to_set X : gset Z) <= length X)%nat.
Proof.
  induction X as [|x X IH]; [done|]. cbn [list_to_set length]. rewrite size_union_alt, size_singleton.
  assert (Hs : list_to_set (C:=gset Z) X ∖ {[x]} ⊆ list_to_set X) by set_solver. apply subseteq_size in Hs. lia.
Qed.

(** Parameters the filters can handle. *)
Definition params_ok (d : mac_addr_params) : Prop := vid_ok (vid d) /\ port_ok (log_port d).

(** The lists an entry with these parameters belongs to. *)
Definition in_list (d : mac_addr_params) (l : lid) : Prop :=
  l = LV (Z.to_nat (vid d)) \/ l = LK (BUILD_PORT_KEY (log_port d)) \/
  l = LK (BUILD_PORT_VID_KEY (log_port d) (vid d)).

(** [a] comes into list [l], or leaves it, and nothing else changes. *)
Definition gains (C C' : lid -> list ptr) (l : lid) (a : ptr) : Prop :=
  forall l' b, b ∈ C' l' <-> b ∈ C l' \/ (b = a /\ l' = l).
Definition loses (C C' : lid -> list ptr) (l : lid) (a : ptr) : Prop :=
  forall l' b, b ∈ C' l' <-> b ∈ C l' /\ ~ (b = a /\ l' = l).

Lemma gains_set_list C l a : gains C (set_list C l (C l ++ [a])) l a.
Proof.
  intros l' b. unfold set_list. case_decide as E; [subst|].
  - rewrite elem_of_app, list_elem_of_singleton. naive_solver.
  - naive_solver.
Qed.

Lemma loses_set_list C l L1 a L2 : C l = L1 ++ a :: L2 -> NoDup (C l) -> loses C (set_list C l (L1 ++ L2)) l a.
Proof.
  intros HC Hnd l' b. unfold set_list. case_decide as E; [subst|naive_solver].
  rewrite HC in *. rewrite elem_of_app, elem_of_app, elem_of_cons.
  rewrite <- Permutation_middle in Hnd. apply NoDup_cons in Hnd as [Hn _]. rewrite elem_of_app in Hn. naive_solver.
Qed.

(** The lists but for the places of one entry: their order is kept. *)
Definition same_without (a : ptr) (C C' : lid -> list ptr) : Prop :=
  forall l, filter (fun b => b <> a) (C' l) = filter (fun b => b <> a) (C l).

#[export] Instance same_without_preorder a : PreOrder (same_without a).
Proof. split; [by intros C l|]. intros C1 C2 C3 H1 H2 l. by rewrite (H2 l). Qed.

Lemma same_without_set_list C l L1 a L2 : C l = L1 ++ a :: L2 -> same_without a C (set_list C l (L1 ++ L2)).
Proof.
  intros HC l'. unfold set_list. case_decide as E; [subst|done]. rewrite HC, !filter_app, filter_cons_False by naive_solver. done.
Qed.

(** The three lists are in three different fields. *)
Lemma in_list_field d l :
  params_ok d -> in_list d l ->
  match fld l with
  | VidF => l = LV (Z.to_nat (vid d))
  | PortF => l = LK (BUILD_PORT_KEY (log_port d))
  | VidPortF => l = LK (BUILD_PORT_VID_KEY (log_port d) (vid d))
  end.
Proof.
  intros [Hv Hp] [->|[->| ->]]; [done|by rewrite port_key_field|by rewrite port_vid_key_field].
Qed.

Section Ops.
Context {M P A : Type} {OM : OrderedMap M} {OML : OrderedMapLaws M} {OP : ObjectPool P A} {OPL : ObjectPoolLaws P A}
  {EL : EntryLayout}.
Context (vend : nat -> ptr) (U1 U2 : gset ptr).
Context (Hlay : layout vend U1 U2) (Hnull : NULL ∉ U1) (Hcap : Z.of_nat (size U2) = MAX_FILTER_ENTRIES).
Implicit Types (s : fdb M P A) (g : gmap Z ptr) (C : lid -> list ptr) (F S : gset ptr) (l : lid)
  (par : ptr -> mac_addr_params).

Abbreviation filters_at := (filters_at vend U1 U2).

(** The entries of [S], with parameters [par], are linked in their lists. *)
Definition linked C S par : Prop := forall l a, a ∈ C l <-> a ∈ S /\ in_list (par a) l.

Lemma lists_nodup s g C F l : filters_at s g C F -> NoDup (C l).
Proof.
  intros [Hf _]. destruct (C l) as [|a L] eqn:E; [apply NoDup_nil_2|]. rewrite <- E.
  pose proof (fa_rings _ _ _ _ _ _ _ Hf l) as [_ Hnd].
  { apply (lo_active _ _ _ _ (fa_ok _ _ _ _ _ _ _ Hf)). by rewrite E. }
  apply NoDup_cons in Hnd as [_ Hnd]. by apply NoDup_fmap_1, NoDup_fmap_1 in Hnd.
Qed.

Lemma link_gains s g C F k a x :
  filters_at s g C F -> a ∈ U1 -> fld (LK k) = x -> (forall l', fld l' = x -> a ∉ C l') ->
  (g !! k = None -> F <> ∅) ->
  exists s' g' C' F', link_entry_to_fltr_list a k (off x) s = Some (0, s') /\ main_same s s' /\
    filters_at s' g' C' F' /\ gains C C' (LK k) a.
Proof.
  intros Hf Ha Hx Hn HF. destruct (link_spec vend U1 U2 Hlay _ _ _ _ _ _ _ Hf Ha Hx Hn HF) as (s' & g' & F' & H1 & H2 & H3).
  eexists s', g', _, F'. split_and!; [done..|apply gains_set_list].
Qed.

Lemma delink_loses s g C F k a x :
  filters_at s g C F -> fld (LK k) = x -> a ∈ C (LK k) ->
  exists s' g' C' F', delink_entry_from_fltr_list a k (off x) s = Some (0, s') /\ main_same s s' /\
    filters_at s' g' C' F' /\ loses C C' (LK k) a /\ g' ⊆ g /\ same_without a C C'.
Proof.
  intros Hf Hx Ha. destruct (list_elem_of_split _ _ Ha) as (L1 & L2 & HC).
  destruct (delink_spec vend U1 U2 Hlay _ _ _ _ _ _ _ _ _ Hf Hx HC) as (s' & g' & F' & H1 & H2 & H3 & H4).
  eexists s', g', _, F'. split_and!; [done..| |done|by apply same_without_set_list].
  apply loses_set_list; [done|]. by eapply lists_nodup.
Qed.

(** ** Room for new heads *)

(** The keys in use are keys of lists with entries. *)
Lemma filters_room s g C F k (X : list Z) :
  filters_at s g C F -> (forall k', C (LK k') <> [] -> k' ∈ X) -> k ∈ X -> Z.of_nat (length X) <= MAX_FILTER_ENTRIES ->
  g !! k = None -> F <> ∅.
Proof.
  intros [Hf Hu] HX Hk HL Hg ->. pose proof (filters_size vend U1 U2 Hlay _ _ _ _ Hf) as Hsz. rewrite size_empty in Hsz.
  assert (Hsub : {[k]} ∪ dom g ⊆ list_to_set X).
  { intros k'. rewrite elem_of_union, elem_of_singleton, elem_of_list_to_set, elem_of_dom.
    intros [->|Hk']; [done|]. apply HX, Hu; [done|apply not_elem_of_nil]. }
  apply subseteq_size in Hsub. rewrite size_union, size_singleton, size_dom in Hsub.
  2: { apply disjoint_singleton_l. rewrite elem_of_dom, Hg. by intros [? ?]. }
  pose proof (size_list_to_set_le X). lia.
Qed.

(** ** Adding, changing and deleting an entry *)

(** The keys of all lists in use, when all ports are among [ports]. *)
Definition cover (ports : list Z) S par : list Z :=
  (BUILD_PORT_KEY <$> ports) ++
  ((fun b => BUILD_PORT_VID_KEY (log_port (par b)) (vid (par b))) <$> elements S).

Lemma cover_length ports S par : length (cover ports S par) = (length ports + size S)%nat.
Proof. unfold cover. by rewrite length_app, !length_fmap. Qed.

Lemma cover_port ports S par p : p ∈ ports -> BUILD_PORT_KEY p ∈ cover ports S par.
Proof. intros Hp. apply elem_of_app. left. by apply list_elem_of_fmap_2. Qed.

Lemma cover_port_vid ports S par b : b ∈ S -> BUILD_PORT_VID_KEY (log_port (par b)) (vid (par b)) ∈ cover ports S par.
Proof. intros Hb. apply elem_of_app. right. apply list_elem_of_fmap. exists b. by rewrite elem_of_elements. Qed.

(** The key of a list with an entry that belongs there is covered. *)
Lemma cover_lists ports S par C :
  (forall k b, b ∈ C (LK k) -> b ∈ S /\ in_list (par b) (LK k) /\ log_port (par b) ∈ ports \/ k ∈ cover ports S par) ->
  forall k, C (LK k) <> [] -> k ∈ cover ports S par.
Proof.
  intros H k Hk. destruct (C (LK k)) as [|b L] eqn:E; [done|]. destruct (H k b) as [(HS & Hin & Hp)|Hk']; [by rewrite E; left| |done].
  destruct Hin as [?|[[= ->]|[= ->]]]; [done|by apply cover_port|by apply cover_port_vid].
Qed.

Lemma add_entry_spec s g C F S par ports a :
  filters_at s g C F -> linked C S par -> a ∈ U1 -> a ∉ S -> Z.of_nat (size S) < MAX_FDB_ENTRIES ->
  Z.of_nat (length ports) <= MAX_PORT_ENTRIES -> (forall b, b ∈ {[a]} ∪ S -> log_port (par b) ∈ ports) ->
  mac_params (data s a) = par a -> params_ok (par a) ->
  exists s' g' C' F', fdb_uc_db_filter_add_entry a s = Some (0, s') /\ main_same s s' /\
    filters_at s' g' C' F' /\ linked C' ({[a]} ∪ S) par.
Proof.
  intros Hf Hl Ha HaS Hsz Hports Hin Hd Hok. unfold fdb_uc_db_filter_add_entry.
  change off_port_fltr with (off PortF). change off_vid_port_fltr with (off VidPortF).
  rewrite (fa_init _ _ _ _ _ _ _ (proj1 Hf)), Hd. cbn [negb]. rewrite decide_False by congruence.
  destruct Hok as [Hv Hp]. rewrite decide_False by (unfold vid_ok in Hv; lia).
  assert (Hn : forall l, a ∉ C l) by (intros l Hal; apply Hl in Hal; naive_solver).
  destruct (vlan_insert_spec vend U1 U2 Hlay _ _ _ _ (vid (par a)) a Hf Hv Ha) as (s1 & -> & Hm1 & Hf1);
    [by intros; apply Hn|]. pose proof (gains_set_list C (LV (Z.to_nat (vid (par a)))) a) as Hg1.
  set (C1 := set_list _ _ _) in *. cbn [mbind option_bind].
  destruct (link_gains s1 g C1 F (BUILD_PORT_KEY (log_port (par a))) a PortF Hf1 Ha) as
    (s2 & g2 & C2 & F2 & -> & Hm2 & Hf2 & Hg2).
  { by apply port_key_field. }
  { intros l' Hl' [?|[_ ->]]%Hg1; [by eapply Hn|done]. }
  { apply (filters_room s1 g C1 F _ (cover ports S par)); [done| | |].
    - apply cover_lists. intros k b [Hb|[_ ?]]%Hg1; [|done]. apply Hl in Hb as [Hb ?]. left. set_solver.
    - apply cover_port, Hin. set_solver.
    - rewrite cover_length. unfold MAX_FILTER_ENTRIES. lia. }
  cbn [mbind option_bind]. rewrite decide_False by lia.
  destruct (link_gains s2 g2 C2 F2 (BUILD_PORT_VID_KEY (log_port (par a)) (vid (par a))) a VidPortF Hf2 Ha) as
    (s3 & g3 & C3 & F3 & -> & Hm3 & Hf3 & Hg3).
  { by apply port_vid_key_field. }
  { intros l' Hl' [[?|[_ ->]]%Hg1|[_ ->]]%Hg2; [by eapply Hn|done|]. by rewrite port_key_field in Hl'. }
  { apply (filters_room s2 g2 C2 F2 _ (cover ports ({[a]} ∪ S) par)); [done| | |].
    - apply cover_lists. intros k b [[Hb|[_ ?]]%Hg1|[-> [= ->]]]%Hg2; [|done|].
      + apply Hl in Hb as [Hb ?]. left. set_solver.
      + right. apply cover_port, Hin. set_solver.
    - apply cover_port_vid. set_solver.
    - rewrite cover_length, size_union, size_singleton by set_solver. unfold MAX_FILTER_ENTRIES. lia. }
  exists s3, g3, C3, F3. split; [done|]. split; [by do 2 (etrans; [done|])|]. split; [done|].
  intros l b. rewrite (Hg3 l b), (Hg2 l b), (Hg1 l b), (Hl l b). unfold in_list. set_solver.
Qed.

(** The parameters after entry [a] got new ones. *)
Definition with_params par (a : ptr) (d : mac_addr_params) : ptr -> mac_addr_params := par⟦a <~ d⟧.

Lemma in_with_params par a new b l :
  in_list (with_params par a new b) l <-> (b <> a /\ in_list (par b) l) \/ (b = a /\ in_list new l).
Proof. unfold with_params, upd. case_decide; naive_solver. Qed.

(** Moving an entry from the lists of one port to those of another. *)
Lemma moved_lists C C1 C2 C3 C4 S par a new :
  linked C S par -> a ∈ S -> vid new = vid (par a) -> params_ok (par a) -> params_ok new ->
  log_port (par a) <> log_port new ->
  loses C C1 (LK (BUILD_PORT_KEY (log_port (par a)))) a -> gains C1 C2 (LK (BUILD_PORT_KEY (log_port new))) a ->
  loses C2 C3 (LK (BUILD_PORT_VID_KEY (log_port (par a)) (vid (par a)))) a ->
  gains C3 C4 (LK (BUILD_PORT_VID_KEY (log_port new) (vid (par a)))) a ->
  linked C4 S (with_params par a new).
Proof.
  intros Hl HaS Hvid [Hv Hp] [_ Hp'] Hne Hl1 Hg2 Hl3 Hg4 l b.
  rewrite (Hg4 l b), (Hl3 l b), (Hg2 l b), (Hl1 l b), (Hl l b), in_with_params.
  destruct (decide (b = a)) as [->|Hba]; [|clear -Hba; tauto]. unfold in_list. rewrite Hvid.
  pose proof (port_key_field _ Hp) as F1. pose proof (port_key_field _ Hp') as F2.
  pose proof (port_vid_key_field _ _ Hp Hv) as F3. pose proof (port_vid_key_field _ _ Hp' Hv) as F4.
  revert F1 F2 F3 F4. generalize (LK (BUILD_PORT_KEY (log_port (par a)))) (LK (BUILD_PORT_KEY (log_port new)))
    (LK (BUILD_PORT_VID_KEY (log_port (par a)) (vid (par a)))) (LK (BUILD_PORT_VID_KEY (log_port new) (vid (par a)))).
  intros pk pk' vk vk' F1 F2 F3 F4. clear -HaS F1 F2 F3 F4.
  assert (LV (Z.to_nat (vid (par a))) <> pk) by (by intros <-). assert (LV (Z.to_nat (vid (par a))) <> vk) by (by intros <-).
  assert (pk' <> vk) by congruence. split.
  - intros [[[[[_ Hi] Hn]|[_ ->]] Hn']|[_ ->]]; (split; [done|]); tauto.
  - intros [_ [[? _]|[_ [->|[->| ->]]]]]; tauto.
Qed.

Lemma modified_entry_spec s g C F S par ports a new :
  filters_at s g C F -> linked C S par -> S ⊆ U1 -> a ∈ S -> Z.of_nat (size S) <= MAX_FDB_ENTRIES ->
  Z.of_nat (length ports) <= MAX_PORT_ENTRIES -> (forall b, b ∈ S -> log_port (par b) ∈ ports) -> log_port new ∈ ports ->
  mac_params (data s a) = new -> vid new = vid (par a) -> params_ok (par a) -> params_ok new ->
  exists s' g' C' F', fdb_uc_db_filter_modified_entry (par a) a s = Some (0, s') /\ main_same s s' /\
    filters_at s' g' C' F' /\ linked C' S (with_params par a new).
Proof.
  intros Hf Hl HU HaS Hsz Hports Hin Hnew Hd Hvid Hok Hok'. unfold fdb_uc_db_filter_modified_entry.
  change off_port_fltr with (off PortF). change off_vid_port_fltr with (off VidPortF).
  rewrite (fa_init _ _ _ _ _ _ _ (proj1 Hf)), Hd, Hvid. cbn [negb].
  assert (Ha : a ∈ U1) by set_solver. rewrite decide_False by congruence.
  pose proof Hok as [Hv Hp]. pose proof Hok' as [_ Hp'].
  case_decide as Hne.
  2: { exists s, g, C, F. split_and!; try done. intros l b. rewrite (Hl l b), in_with_params. unfold in_list.
    assert (log_port new = log_port (par a)) as -> by (destruct (decide (log_port (par a) = log_port new)); done).
    rewrite Hvid. destruct (decide (b = a)) as [->|]; naive_solver. }
  set (pk := BUILD_PORT_KEY (log_port (par a))). set (pk' := BUILD_PORT_KEY (log_port new)).
  set (vk := BUILD_PORT_VID_KEY (log_port (par a)) (vid (par a))). set (vk' := BUILD_PORT_VID_KEY (log_port new) (vid (par a))).
  assert (Fp : fld (LK pk) = PortF) by (by apply port_key_field).
  assert (Fp' : fld (LK pk') = PortF) by (by apply port_key_field).
  assert (Fv : fld (LK vk) = VidPortF) by (by apply port_vid_key_field).
  assert (Fv' : fld (LK vk') = VidPortF) by (by apply port_vid_key_field).
  destruct (delink_loses s g C F pk a PortF Hf Fp) as (s1 & g1 & C1 & F1 & -> & Hm1 & Hf1 & Hl1 & _).
  { apply Hl. split; [done|]. right. by left. }
  cbn [mbind option_bind]. rewrite decide_False by lia.
  assert (Hold : forall l b, b ∈ C1 l -> b ∈ S /\ in_list (par b) l) by (intros l b [Hb%Hl _]%Hl1; done).
  destruct (link_gains s1 g1 C1 F1 pk' a PortF Hf1 Ha Fp') as (s2 & g2 & C2 & F2 & -> & Hm2 & Hf2 & Hg2).
  { intros l' Hl' Hal. apply Hl1 in Hal as [Hal Hn]. apply Hl in Hal as [_ Hal].
    apply in_list_field in Hal; [|done]. rewrite Hl' in Hal. naive_solver. }
  { apply (filters_room s1 g1 C1 F1 _ (cover ports S par)); [done| |by apply cover_port|].
    - apply cover_lists. intros k b [Hb ?]%Hold. left. auto.
    - rewrite cover_length. unfold MAX_FILTER_ENTRIES. lia. }
  cbn [mbind option_bind]. rewrite decide_False by lia.
  destruct (delink_loses s2 g2 C2 F2 vk a VidPortF Hf2 Fv) as (s3 & g3 & C3 & F3 & -> & Hm3 & Hf3 & Hl3 & _).
  { apply Hg2. left. apply Hl1. split; [apply Hl; split; [done|by right; right]|].
    intros [_ E]. rewrite E in Fv. congruence. }
  cbn [mbind option_bind]. rewrite decide_False by lia.
  destruct (link_gains s3 g3 C3 F3 vk' a VidPortF Hf3 Ha Fv') as (s4 & g4 & C4 & F4 & -> & Hm4 & Hf4 & Hg4).
  { intros l' Hl' [Hal Hn]%Hl3. apply Hg2 in Hal as [Hal|[_ ->]]; [|congruence].
    apply Hold in Hal as [_ Hal]. apply in_list_field in Hal; [|done]. rewrite Hl' in Hal. naive_solver. }
  { apply (filters_room s3 g3 C3 F3 _ (cover ports S (with_params par a new))); [done| | |].
    - apply cover_lists. intros k b [Hb Hn]%Hl3. apply Hg2 in Hb as [Hb|[-> [= ->]]]; [|right; by apply cover_port].
      apply Hl1 in Hb as [Hb Hn1]. apply Hl in Hb as [Hb Hbl]. destruct (decide (b = a)) as [->|Hba].
      + exfalso. destruct Hbl as [?|[Hk|Hk]]; [done|by apply Hn1|by apply Hn].
      + left. split; [done|]. unfold with_params. rewrite upd_ne by done. auto.
    - apply elem_of_app. right. apply list_elem_of_fmap. exists a. unfold with_params. rewrite upd_eq.
      rewrite Hvid. split; [done|]. by apply elem_of_elements.
    - rewrite cover_length. unfold MAX_FILTER_ENTRIES. lia. }
  exists s4, g4, C4, F4. split; [done|]. split; [by do 3 (etrans; [done|])|]. split; [done|].
  by apply (moved_lists C C1 C2 C3 C4).
Qed.

Lemma delete_entry_spec s g C F S par a :
  filters_at s g C F -> linked C S par -> a ∈ S -> mac_params (data s a) = par a -> params_ok (par a) ->
  exists s' g' C' F', fdb_uc_db_filter_delete_entry a s = Some (0, s') /\ main_same s s' /\
    filters_at s' g' C' F' /\ linked C' (S ∖ {[a]}) par /\ g' ⊆ g /\ same_without a C C'.
Proof.
  intros Hf Hl HaS Hd Hok. unfold fdb_uc_db_filter_delete_entry.
  change off_port_fltr with (off PortF). change off_vid_port_fltr with (off VidPortF).
  rewrite (fa_init _ _ _ _ _ _ _ (proj1 Hf)), Hd. cbn [negb]. destruct Hok as [Hv Hp].
  set (v := Z.to_nat (vid (par a))). set (pk := BUILD_PORT_KEY (log_port (par a))).
  set (vk := BUILD_PORT_VID_KEY (log_port (par a)) (vid (par a))).
  assert (Fp : fld (LK pk) = PortF) by (by apply port_key_field).
  assert (Fv : fld (LK vk) = VidPortF) by (by apply port_vid_key_field).
  assert (Hin : a ∈ C (LV v)) by (apply Hl; split; [done|by left]).
  destruct (list_elem_of_split _ _ Hin) as (L1 & L2 & HC).
  destruct (vlan_remove_spec vend U1 U2 Hlay _ _ _ _ (vid (par a)) a L1 L2 Hf Hv HC) as (Hnx & Hpv & s0 & Hrun & Hm1 & Hf1).
  rewrite !bool_decide_true by done. cbn [andb]. rewrite Hrun. cbn [mbind option_bind].
  pose proof (loses_set_list C (LV v) L1 a L2 HC (lists_nodup _ _ _ _ _ Hf)) as Hl1.
  pose proof (same_without_set_list C (LV v) L1 a L2 HC) as Hw1.
  set (C1 := set_list _ _ _) in *. set (s1 := set_lists _ _) in *.
  destruct (delink_loses s1 g C1 F pk a PortF Hf1 Fp) as (s2 & g2 & C2 & F2 & -> & Hm2 & Hf2 & Hl2 & Hg2 & Hw2).
  { apply Hl1. split; [apply Hl; split; [done|by right; left]|naive_solver]. }
  cbn [mbind option_bind]. rewrite decide_False by lia.
  destruct (delink_loses s2 g2 C2 F2 vk a VidPortF Hf2 Fv) as (s3 & g3 & C3 & F3 & -> & Hm3 & Hf3 & Hl3 & Hg3 & Hw3).
  { apply Hl2. split; [apply Hl1; split; [apply Hl; split; [done|by right; right]|naive_solver]|].
    intros [_ E]. rewrite E in Fv. congruence. }
  exists s3, g3, C3, F3. split; [done|]. split; [by do 2 (etrans; [done|])|]. split; [done|].
  split; [|split; [by transitivity g2|by transitivity C1; [|transitivity C2]]].
  intros l b. rewrite (Hl3 l b), (Hl2 l b), (Hl1 l b), (Hl l b). unfold in_list.
  rewrite elem_of_difference, elem_of_singleton. fold v pk vk.
  destruct (decide (b = a)) as [->|]; [fold v pk vk|]; naive_solver.
Qed.

(** ** Traversal *)

(** A filter that selects by something, within the bounds. *)
Definition filter_ok (f : fdb_uc_key_filter) : Prop :=
  (filter_by_vid f = true -> vid_ok (filter_vid f)) /\ (filter_by_log_port f = true -> port_ok (filter_log_port f)) /\
  (filter_by_vid f || filter_by_log_port f = true).

(** The list a filter names, and the parameters it matches. *)
Definition filter_list (f : fdb_uc_key_filter) : lid :=
  if filter_by_log_port f && filter_by_vid f then LK (BUILD_PORT_VID_KEY (filter_log_port f) (filter_vid f))
  else if filter_by_log_port f then LK (BUILD_PORT_KEY (filter_log_port f))
  else LV (Z.to_nat (filter_vid f)).

Definition filter_matches (f : fdb_uc_key_filter) (d : mac_addr_params) : Prop :=
  (filter_by_vid f = true -> vid d = filter_vid f) /\ (filter_by_log_port f = true -> log_port d = filter_log_port f).

Lemma filter_list_matches f d : filter_ok f -> params_ok d -> in_list d (filter_list f) <-> filter_matches f d.
Proof.
  intros (Hv & Hp & Hsome) Hd. pose proof Hd as [Hdv Hdp]. unfold filter_list, filter_matches.
  destruct (filter_by_vid f), (filter_by_log_port f); cbn [andb]; try done;
    try specialize (Hv eq_refl); try specialize (Hp eq_refl).
  - split; [intros Hi|].
    + apply in_list_field in Hi; [|done]. rewrite port_vid_key_field in Hi by done. injection Hi as E.
      apply port_vid_key_inj in E as [-> ->]; done.
    + intros [E1 E2]. rewrite <- E1, <- E2 by done. by right; right.
  - split; [intros Hi|].
    + apply in_list_field in Hi; [|done]. cbn [fld] in Hi. injection Hi as E. unfold vid_ok in *. split; [lia|done].
    + intros [E1 _]. rewrite <- E1 by done. by left.
  - split; [intros Hi|].
    + apply in_list_field in Hi; [|done]. rewrite port_key_field in Hi by done. injection Hi as E.
      apply port_key_inj in E as ->; done.
    + intros [_ E1]. rewrite <- E1 by done. by right; left.
Qed.

(** Where a filter looks for the list item of an entry. *)
Definition filter_offset (f : fdb_uc_key_filter) : Z :=
  if filter_by_log_port f && filter_by_vid f then off_vid_port_fltr
  else if filter_by_log_port f then off_port_fltr else off_vid_fltr.

Lemma filter_offset_field f : filter_ok f -> filter_offset f = off (fld (filter_list f)).
Proof.
  intros (Hv & Hp & Hsome). unfold filter_list, filter_offset.
  destruct (filter_by_vid f), (filter_by_log_port f); cbn [andb]; try done.
  - by rewrite port_vid_key_field by auto.
  - by rewrite port_key_field by auto.
Qed.

(** The loop of a client: the entries from [a] on. *)
Fixpoint iterate (fuel : nat) (f : fdb_uc_key_filter) (list_cookie a : ptr) s : option (list ptr) :=
  match fuel with
  | O => None
  | S fuel =>
      let '(err, next) := fdb_uc_db_filter_get_next_entry (Some f) list_cookie a s in
      if decide (err <> 0) then None
      else if decide (next = NULL) then Some [a] else cons a <$> iterate fuel f list_cookie next s
  end.

Definition filter_entries (fuel : nat) (f : fdb_uc_key_filter) s : option (list ptr) :=
  '(err, list_cookie, a) ← fdb_uc_db_filter_get_first_entry (Some f) s;
  if decide (err <> 0) then None
  else if decide (a = NULL) then Some [] else iterate fuel f list_cookie a s.

Lemma next_entry_spec s g C F f L1 a L2 :
  filters_at s g C F -> filter_ok f -> C (filter_list f) = L1 ++ a :: L2 ->
  fdb_uc_db_filter_get_next_entry (Some f) (addr vend (endp g (filter_list f))) a s = (0, default NULL (head L2)).
Proof.
  intros Hf Hok HC. set (l := filter_list f) in *.
  assert (Hact : active g l) by (apply (lo_active _ _ _ _ (fa_ok _ _ _ _ _ _ _ (proj1 Hf))); rewrite HC; by destruct L1).
  assert (HU : forall b, b ∈ C l -> b ∈ U1) by (intros b; apply (lo_items _ _ _ _ (fa_ok _ _ _ _ _ _ _ (proj1 Hf)))).
  assert (Hve : valid U1 U2 (endp g l)) by (eapply valid_end; [apply Hf|done]).
  destruct (linked_item vend U1 U2 Hlay _ _ _ _ _ _ _ (fa_ok _ _ _ _ _ _ _ (proj1 Hf)) (fa_rings _ _ _ _ _ _ _ (proj1 Hf)) HC)
    as (Hnext & _ & _ & _). cbn [addr] in Hnext.
  assert (Hgo : (if decide (cl_qlist_next (lists s) (a + filter_offset f) = addr vend (endp g l)) then (0, NULL)
      else (0, cl_qlist_next (lists s) (a + filter_offset f) - filter_offset f)) = (0, default NULL (head L2))).
  { unfold cl_qlist_next. rewrite filter_offset_field by done. fold l. rewrite Hnext. destruct L2 as [|b L2]; cbn.
    - by rewrite decide_True.
    - rewrite decide_False; [by rewrite Z.add_simpl_r|]. intros E.
      apply (lay_inj _ _ _ Hlay (Item (fld l) b)) in E; [by destruct l| |done]. apply HU. rewrite HC. set_solver. }
  unfold fdb_uc_db_filter_get_next_entry. rewrite (fa_init _ _ _ _ _ _ _ (proj1 Hf)). cbn [negb].
  rewrite decide_False by (intros ->; apply Hnull, HU; rewrite HC; set_solver).
  rewrite decide_False by (by apply (lay_null _ _ _ Hlay)).
  destruct Hok as (_ & _ & Hsome). unfold filter_offset in Hgo.
  destruct (filter_by_vid f), (filter_by_log_port f); by rewrite <- Hgo.
Qed.

Lemma iterate_spec s g C F f : forall fuel L1 a L2,
  filters_at s g C F -> filter_ok f -> C (filter_list f) = L1 ++ a :: L2 -> (length L2 < fuel)%nat ->
  iterate fuel f (addr vend (endp g (filter_list f))) a s = Some (a :: L2).
Proof.
  induction fuel as [|fuel IH]; intros L1 a L2 Hf Hok HC Hl; [lia|]. cbn [iterate].
  rewrite (next_entry_spec _ _ _ _ _ _ _ _ Hf Hok HC). rewrite decide_False by lia.
  destruct L2 as [|b L2]; cbn [head default from_option id]; [by rewrite decide_True|].
  rewrite decide_False.
  - rewrite (IH (L1 ++ [a]) b L2); [done|done|done|by rewrite <- (assoc_L (++))|cbn in Hl; lia].
  - intros ->. apply Hnull. apply (lo_items _ _ _ _ (fa_ok _ _ _ _ _ _ _ (proj1 Hf)) (filter_list f)). rewrite HC. set_solver.
Qed.

(** The number of entries of a list is within the count of the list heads. *)
Lemma list_length s g C F l : filters_at s g C F -> (length (C l) <= size U1)%nat.
Proof.
  intros Hf. rewrite <- (size_list_to_set (C:=gset Z) (C l)) by (by eapply lists_nodup). apply subseteq_size.
  intros a. rewrite elem_of_list_to_set. apply (lo_items _ _ _ _ (fa_ok _ _ _ _ _ _ _ (proj1 Hf))).
Qed.

Lemma by_key_spec s g C F k x :
  filters_at s g C F -> fld (LK k) = x ->
  (item ← om_get k (fbd_filter_map s);
   if decide (item <> om_end (fbd_filter_map s)) then
     let head := cl_qlist_head (lists s) (fltr_head s item) in
     Some (0, p_prev (lists s) head, head - off x)
   else Some (0, NULL, NULL)) =
  Some match C (LK k) with [] => (0, NULL, NULL) | a :: _ => (0, addr vend (endp g (LK k)), a) end.
Proof.
  intros [Hf Hu] <-. rewrite (map_get_law _ _ _ (fa_map _ _ _ _ _ _ _ Hf)). cbn [mbind option_bind].
  destruct (g !! k) as [h|] eqn:Hk; cbn [default from_option id].
  - destruct (map_item_law _ _ _ _ (fa_map _ _ _ _ _ _ _ Hf) Hk) as [He _]. rewrite decide_True by done.
    destruct (C (LK k)) as [|a L] eqn:HC; [by destruct (Hu k (ltac:(eauto)) (not_elem_of_nil k))|].
    unfold cl_qlist_head, cl_qlist_next. rewrite (fa_heads _ _ _ _ _ _ _ Hf _ _ Hk).
    pose proof (fa_rings _ _ _ _ _ _ _ Hf (LK k) (ltac:(by exists h))) as Hr. unfold ring_of, items in Hr. rewrite HC in Hr.
    cbn [endp fmap list_fmap] in *. rewrite Hk in *. cbn [default from_option id addr] in *.
    rewrite (ring_head _ _ _ Hr). cbn [head default from_option id].
    rewrite (ring_prev _ _ [] _ _ Hr). cbn [last default from_option]. by rewrite Z.add_simpl_r.
  - rewrite decide_False by (intros []; done). destruct (C (LK k)) as [|a L] eqn:HC; [done|].
    destruct (lo_active _ _ _ _ (fa_ok _ _ _ _ _ _ _ Hf) (LK k)) as [? ?]; [by rewrite HC|congruence].
Qed.

Lemma first_entry_spec s g C F f :
  filters_at s g C F -> filter_ok f -> Z.of_nat (size U1) < 2 ^ 32 ->
  fdb_uc_db_filter_get_first_entry (Some f) s =
  Some match C (filter_list f) with [] => (0, NULL, NULL) | a :: _ => (0, addr vend (endp g (filter_list f)), a) end.
Proof.
  intros Hf (Hv & Hp & Hsome) Hsz. unfold fdb_uc_db_filter_get_first_entry, filter_list.
  rewrite (fa_init _ _ _ _ _ _ _ (proj1 Hf)). cbn [negb]. destruct (filter_by_log_port f) eqn:Ep; cbn [andb].
  - destruct (filter_by_vid f) eqn:Ev.
    + by apply (by_key_spec s g C F _ VidPortF Hf), port_vid_key_field; [apply Hp|apply Hv].
    + by apply (by_key_spec s g C F _ PortF Hf), port_key_field, Hp.
  - destruct (filter_by_vid f) eqn:Ev; [|done]. specialize (Hv eq_refl).
    set (v := Z.to_nat (filter_vid f)). assert (Hlt : (v < MAX_VLAN_ENTRIES)%nat) by (unfold vid_ok in Hv; lia).
    destruct (vlan_lookup vend U1 U2 _ _ _ _ v (proj1 Hf) Hlt) as [q Hq]. rewrite Hq. cbn [mbind option_bind].
    destruct (fa_vlans _ _ _ _ _ _ _ (proj1 Hf) _ _ Hq) as [He Hc].
    pose proof (fa_rings _ _ _ _ _ _ _ (proj1 Hf) (LV v) Hlt) as Hr. unfold ring_of in Hr. cbn [endp addr] in Hr.
    pose proof (list_length _ _ _ _ (LV v) Hf) as Hlen.
    unfold cl_is_qlist_empty, cl_qlist_count. rewrite Hc, wrap_wrap_le, wrap_small by lia.
    destruct (C (LV v)) as [|a L] eqn:HC.
    + by rewrite bool_decide_true.
    + rewrite bool_decide_false by (cbn [length]; lia). unfold items in Hr. rewrite HC in Hr. cbn [fmap list_fmap] in Hr.
      unfold cl_qlist_head, cl_qlist_next. rewrite He, (ring_head _ _ _ Hr). cbn [head default from_option id].
      rewrite (ring_prev _ _ [] _ _ Hr). cbn [last default from_option addr off fld endp]. by rewrite Z.add_simpl_r.
Qed.

(** A traversal by filter ends and visits the entries of the list, each once. *)
Lemma filter_entries_spec s g C F f fuel :
  filters_at s g C F -> filter_ok f -> Z.of_nat (size U1) < 2 ^ 32 -> (size U1 <= fuel)%nat ->
  filter_entries fuel f s = Some (C (filter_list f)).
Proof.
  intros Hf Hok Hsz Hfuel. unfold filter_entries. rewrite (first_entry_spec _ _ _ _ _ Hf Hok Hsz). cbn [mbind option_bind].
  pose proof (list_length _ _ _ _ (filter_list f) Hf) as Hlen. destruct (C (filter_list f)) as [|a L] eqn:HC.
  - rewrite decide_False by lia. by rewrite decide_True.
  - rewrite decide_False by lia. rewrite decide_False.
    + apply (iterate_spec s g C F f fuel [] a L); [done|done|done|cbn in Hlen; lia].
    + intros ->. apply Hnull. apply (lo_items _ _ _ _ (fa_ok _ _ _ _ _ _ _ (proj1 Hf)) (filter_list f)). rewrite HC. set_solver.
Qed.
End Ops.
