(* ===== verification/UcDb.v ===== *)
(** * The database of unicast MAC addresses ([lib_ctrl_learn_uc_db.c])

    Records keyed by MAC address and VLAN in an ordered map, taken from a pool of
    fixed size, each linked into the filtering lists of [FdbFilter.v]. *)

From S2P Require Import Prelude Qlist Storage FdbFilter.

Local Open Scope Z_scope.
Local Open Scope list_scope.

(** ** Keys *)

Definition MAC_TO_U64 (mac : list Z) : Z :=
  let octet i := nth i mac 0 in
  Z.lor (Z.lor (Z.lor (Z.lor (Z.lor (Z.shiftl (octet 0%nat) 40) (Z.shiftl (octet 1%nat) 32))
    (Z.shiftl (octet 2%nat) 24)) (Z.shiftl (octet 3%nat) 16)) (Z.shiftl (octet 4%nat) 8)) (octet 5%nat).

Definition FDB_UC_CONVERT_MAC_VLAN_TO_KEY (mac : list Z) (v : Z) : Z :=
  u64 (Z.lor (MAC_TO_U64 mac) (Z.shiftl v 48)).

Section UcDb.
Context {M P A : Type} {OM : OrderedMap M} {OP : ObjectPool P A} {EL : EntryLayout}.
Abbreviation fdb := (fdb M P A).

Definition set_fdb_initiated (s : fdb) (b : bool) : fdb :=
  Fdb b (fdb_map s) (main_db_pool s) (filters_initiated s) (fbd_filter_map s) (fdb_fltr_pool s)
    (fdb_vlan_list s) (lists s) (fltr_head s) (data s) (heap s).
Definition set_fdb_map (s : fdb) (m : M) : fdb :=
  Fdb (fdb_initiated s) m (main_db_pool s) (filters_initiated s) (fbd_filter_map s) (fdb_fltr_pool s)
    (fdb_vlan_list s) (lists s) (fltr_head s) (data s) (heap s).
Definition set_main_pool (s : fdb) (p : P) (a : A) : fdb :=
  Fdb (fdb_initiated s) (fdb_map s) p (filters_initiated s) (fbd_filter_map s) (fdb_fltr_pool s)
    (fdb_vlan_list s) (lists s) (fltr_head s) (data s) a.
Definition set_data (s : fdb) (a : ptr) (d : entry_data) : fdb :=
  Fdb (fdb_initiated s) (fdb_map s) (main_db_pool s) (filters_initiated s) (fbd_filter_map s) (fdb_fltr_pool s)
    (fdb_vlan_list s) (lists s) (fltr_head s) ((data s)⟦a <~ d⟧) (heap s).

(** ** Initialisation and end *)

Definition fdb_uc_db_init (s : fdb) : option (Z * fdb) :=
  if fdb_initiated s then Some (0, s)
  else
    let s := set_fdb_map s (om_init (fdb_map s)) in
    let s := set_main_pool s (op_construct (main_db_pool s)) (heap s) in
    '(st, p, a) ← op_init MIN_FDB_ENTRIES MAX_FDB_ENTRIES sizeof_mac_entry (main_db_pool s) (heap s);
    let s := set_main_pool s p a in
    if decide (st <> CL_SUCCESS) then Some (- EPERM, s)
    else
      '(err, s) ← fdb_uc_db_filter_init s;
      if decide (err <> 0) then Some (- EPERM, s) else Some (0, set_fdb_initiated s true).

(** The record with the least key, or null. *)
Definition fdb_uc_db_get_first_record (s : fdb) : Z * ptr :=
  if negb (fdb_initiated s) then (- EPERM, NULL)
  else
    let item := om_head (fdb_map s) in
    if decide (item <> om_end (fdb_map s)) then (0, item) else (0, NULL).

Fixpoint destroy_loop (fuel : nat) (s : fdb) : option (Z * fdb) :=
  let '(err, a) := fdb_uc_db_get_first_record s in
  if decide (err <> 0) then Some (err, s)
  else if decide (a = NULL) then Some (0, s)
  else
    match fuel with
    | O => None
    | S fuel =>
        m ← om_remove_item a (fdb_map s);
        let s := set_fdb_map s m in
        let '(p, h) := op_put a (main_db_pool s) (heap s) in
        destroy_loop fuel (set_main_pool s p h)
    end.

Definition fdb_uc_db_destroy (s : fdb) : option (Z * fdb) :=
  if negb (fdb_initiated s) then Some (- EPERM, s)
  else destroy_loop (S (Z.to_nat (om_count (fdb_map s)))) s.

Definition fdb_uc_db_deinit (s : fdb) : option (Z * fdb) :=
  if negb (fdb_initiated s) then Some (- EPERM, s)
  else
    '(err, s) ← fdb_uc_db_destroy s;
    if decide (err <> 0) then Some (- EPERM, s)
    else
      '(p, h) ← op_destroy (main_db_pool s) (heap s);
      '(err, s) ← fdb_uc_db_filter_deinit (set_main_pool s p h);
      if decide (err <> 0) then Some (- EPERM, s) else Some (0, set_fdb_initiated s false).

(** ** Lookup *)

Definition fdb_uc_db_next_record (a : ptr) (s : fdb) : Z * ptr :=
  if negb (fdb_initiated s) then (- EPERM, NULL)
  else if decide (a = NULL) then (- EPERM, NULL)
  else
    let item := om_next a (fdb_map s) in
    if decide (item = om_end (fdb_map s)) then (0, NULL) else (0, item).

Definition fdb_uc_db_get_record_by_key (mac_key : Z) (s : fdb) : option (Z * ptr) :=
  if negb (fdb_initiated s) then Some (- EPERM, NULL)
  else
    item ← om_get mac_key (fdb_map s);
    if decide (item <> om_end (fdb_map s)) then Some (0, item) else Some (- ENOENT, NULL).

Definition fdb_uc_db_get_next_record_by_key (map : M) (mac_key : Z) (s : fdb) : option (Z * ptr) :=
  if negb (fdb_initiated s) then Some (- EPERM, NULL)
  else
    item ← om_get_next mac_key map;
    if decide (item <> om_end map) then Some (0, item) else Some (- ENOENT, NULL).

(** ** Changes *)

Definition fdb_uc_db_delete_record (a : ptr) (s : fdb) : option (Z * fdb) :=
  if negb (fdb_initiated s) then Some (- EPERM, s)
  else if decide (a = NULL) then Some (- EPERM, s)
  else
    '(err, s) ← fdb_uc_db_filter_delete_entry a s;
    if decide (err <> 0) then Some (err, s)
    else
      m ← om_remove_item a (fdb_map s);
      let s := set_fdb_map s m in
      let '(p, h) := op_put a (main_db_pool s) (heap s) in
      Some (0, set_main_pool s p h).

(** [memset] to zero of an entry; the insertion writes the map item again. *)
Definition clear_entry (a : ptr) (s : fdb) : fdb :=
  let lk := zero_item (lists s) (a + off_vid_fltr) in
  let lk := zero_item lk (a + off_port_fltr) in
  let lk := zero_item lk (a + off_vid_port_fltr) in
  set_data (set_lists s lk) a data0.

Definition fdb_uc_db_create_record (mac_key : Z) (s : fdb) : option (Z * ptr * fdb) :=
  if negb (fdb_initiated s) then Some (- EPERM, NULL, s)
  else
    let '(a, p, h) := op_get (main_db_pool s) (heap s) in
    let s := set_main_pool s p h in
    if decide (a = NULL) then Some (- ENOMEM, NULL, s)
    else
      let s := clear_entry a s in
      '(_, m) ← om_insert mac_key a (fdb_map s);
      Some (0, a, set_fdb_map s m).

Definition set_record (a : ptr) (new : entry_data) (s : fdb) : Z * fdb := (0, set_data s a new).

(** The entry given is a structure of the caller, or null. *)
Definition fdb_uc_db_add_record (mac_entry : option entry_data) (s : fdb) : option (Z * fdb) :=
  if negb (fdb_initiated s) then Some (- EPERM, s)
  else
    match mac_entry with
    | None => Some (- EPERM, s)
    | Some new =>
        let db_key := FDB_UC_CONVERT_MAC_VLAN_TO_KEY (mac_addr (mac_params new)) (vid (mac_params new)) in
        '(err, a) ← fdb_uc_db_get_record_by_key db_key s;
        if decide (err = - ENOENT) then
          '(err, a, s) ← fdb_uc_db_create_record db_key s;
          if decide (err <> 0) then Some (err, s)
          else
            let '(err, s) := set_record a new s in
            if decide (err <> 0) then Some (err, s) else fdb_uc_db_filter_add_entry a s
        else if decide (err <> 0) then Some (err, s)
        else
          let old := mac_params (data s a) in
          let '(err, s) := set_record a new s in
          if decide (err <> 0) then Some (err, s) else fdb_uc_db_filter_modified_entry old a s
    end.

(** ** Traversal by filter and counters *)

Definition fdb_uc_db_get_first_record_by_filter (filter : option fdb_uc_key_filter) (s : fdb)
    : option (Z * ptr * ptr) := fdb_uc_db_filter_get_first_entry filter s.

Definition fdb_uc_db_get_next_record_by_filter (filter : option fdb_uc_key_filter) (list_cookie a : ptr) (s : fdb)
    : Z * ptr := fdb_uc_db_filter_get_next_entry filter list_cookie a s.

Definition fdb_uc_db_get_size (s : fdb) : Z * Z :=
  if negb (fdb_initiated s) then (- EPERM, 0) else (0, u32 (om_count (fdb_map s))).

Definition fdb_uc_db_get_free_pool_count (s : fdb) : Z * Z :=
  if negb (fdb_initiated s) then (- EPERM, 0) else (0, u32 (op_count (main_db_pool s))).
End UcDb.
