(* ===== verification/UcDbSpec.v ===== *)
(** * The database of MAC addresses implements a finite map

    Adding, deleting and looking up records in the database are the operations of
    a finite map of bounded size, and its filters select exactly the records that
    match, over containers that keep the promises of [Storage.v]. *)

From S2P Require Import Prelude Qlist Storage FdbFilter FdbLists FdbFilterSpec FdbFilterOps UcDb.

Local Open Scope Z_scope.
Local Open Scope list_scope.

(** ** Keys *)

Definition mac_ok (mac : list Z) : Prop := length mac = 6%nat /\ Forall (fun o => 0 <= o < 256) mac.

Definition record_key (r : entry_data) : Z :=
  FDB_UC_CONVERT_MAC_VLAN_TO_KEY (mac_addr (mac_params r)) (vid (mac_params r)).

(** A record within the bounds of the database. *)
Definition record_ok (r : entry_data) : Prop := mac_ok (mac_addr (mac_params r)) /\ params_ok (mac_params r).

Lemma lor_octet x o n n' :
  n' = n + 8 -> 0 <= n -> 0 <= o < 256 -> Z.lor (Z.shiftl x n') (Z.shiftl o n) = Z.shiftl (x * 256 + o) n.
Proof.
  intros -> Hn Ho. rewrite Z.add_comm, <- Z.shiftl_shiftl by lia. rewrite <- Z.shiftl_lor. f_equal.
  rewrite Z.lor_comm, lor_shiftl_add by lia. lia.
Qed.

Lemma mac_value o0 o1 o2 o3 o4 o5 :
  Forall (fun o => 0 <= o < 256) [o0; o1; o2; o3; o4; o5] ->
  MAC_TO_U64 [o0; o1; o2; o3; o4; o5] = ((((o0 * 256 + o1) * 256 + o2) * 256 + o3) * 256 + o4) * 256 + o5.
Proof.
  rewrite !Forall_cons. intros (H0 & H1 & H2 & H3 & H4 & H5 & _). unfold MAC_TO_U64. cbn [nth].
  rewrite (lor_octet o0 o1 32 40), (lor_octet _ o2 24 32), (lor_octet _ o3 16 24), (lor_octet _ o4 8 16) by lia.
  pose proof (lor_octet ((((o0 * 256 + o1) * 256 + o2) * 256 + o3) * 256 + o4) o5 0 8) as E.
  rewrite !Z.shiftl_0_r in E. apply E; lia.
Qed.

Lemma mac_cases mac : mac_ok mac -> exists o0 o1 o2 o3 o4 o5, mac = [o0; o1; o2; o3; o4; o5].
Proof. intros [Hl _]. do 6 (destruct mac as [|? mac]; [done|]). destruct mac; [eauto 8|done]. Qed.

Lemma mac_range mac : mac_ok mac -> 0 <= MAC_TO_U64 mac < 2 ^ 48.
Proof.
  intros Hm. destruct (mac_cases _ Hm) as (o0 & o1 & o2 & o3 & o4 & o5 & ->). destruct Hm as [_ Ho].
  rewrite mac_value by done. rewrite !Forall_cons in Ho. lia.
Qed.

Lemma key_eq mac v : mac_ok mac -> 0 <= v < 2 ^ 16 -> FDB_UC_CONVERT_MAC_VLAN_TO_KEY mac v = MAC_TO_U64 mac + v * 2 ^ 48.
Proof.
  intros Hm Hv. unfold FDB_UC_CONVERT_MAC_VLAN_TO_KEY. pose proof (mac_range _ Hm).
  rewrite lor_shiftl_add by lia. apply wrap_small. lia.
Qed.

Lemma digit_inj x y a b : 0 <= a < 256 -> 0 <= b < 256 -> x * 256 + a = y * 256 + b -> x = y /\ a = b.
Proof. lia. Qed.

Lemma key_inj mac v mac' v' :
  mac_ok mac -> 0 <= v < 2 ^ 16 -> mac_ok mac' -> 0 <= v' < 2 ^ 16 ->
  FDB_UC_CONVERT_MAC_VLAN_TO_KEY mac v = FDB_UC_CONVERT_MAC_VLAN_TO_KEY mac' v' -> mac = mac' /\ v = v'.
Proof.
  intros Hm Hv Hm' Hv'. rewrite !key_eq by done. pose proof (mac_range _ Hm). pose proof (mac_range _ Hm'). intros E.
  assert (v = v') as <- by lia. split; [|done]. assert (Ev : MAC_TO_U64 mac = MAC_TO_U64 mac') by lia. clear E.
  destruct (mac_cases _ Hm) as (a0 & a1 & a2 & a3 & a4 & a5 & ->).
  destruct (mac_cases _ Hm') as (b0 & b1 & b2 & b3 & b4 & b5 & ->). destruct Hm as [_ Ha], Hm' as [_ Hb].
  rewrite !mac_value in Ev by done. rewrite !Forall_cons in Ha, Hb.
  do 5 (apply digit_inj in Ev as [Ev ->]; [|tauto..]). by rewrite Ev.
Qed.

Lemma params_vid d : params_ok d -> 0 <= vid d < 2 ^ 16.
Proof. intros [Hv _]. unfold vid_ok in Hv. change (Z.of_nat MAX_VLAN_ENTRIES) with 4096 in Hv. lia. Qed.

Lemma record_key_inj r r' : record_ok r -> record_ok r' -> record_key r = record_key r' ->
  mac_addr (mac_params r) = mac_addr (mac_params r') /\ vid (mac_params r) = vid (mac_params r').
Proof. intros [H1 H2] [H3 H4] E. exact (key_inj _ _ _ _ H1 (params_vid _ H2) H3 (params_vid _ H4) E). Qed.

(** ** The specification *)

Abbreviation records := (gmap Z entry_data).

Inductive fdb_op := Add (r : entry_data) | Delete (k : Z) | Lookup (k : Z).

(** A status and, for a lookup, a record. *)
Definition result : Type := Z * option entry_data.

Definition spec_step (o : fdb_op) (m : records) : result * records :=
  match o with
  | Add r =>
      if decide (is_Some (m !! record_key r) \/ Z.of_nat (size m) < MAX_FDB_ENTRIES)
      then (0, None, <[record_key r := r]> m) else (- ENOMEM, None, m)
  | Delete k => if decide (is_Some (m !! k)) then (0, None, delete k m) else (- ENOENT, None, m)
  | Lookup k => match m !! k with Some r => (0, Some r, m) | None => (- ENOENT, None, m) end
  end.

Fixpoint spec_run (ops : list fdb_op) (m : records) : list result * records :=
  match ops with
  | [] => ([], m)
  | o :: ops => let '(x, m) := spec_step o m in let '(xs, m) := spec_run ops m in (x :: xs, m)
  end.

Section Db.
Context {M P A : Type} {OM : OrderedMap M} {OML : OrderedMapLaws M} {OP : ObjectPool P A} {OPL : ObjectPoolLaws P A}
  {EL : EntryLayout}.
Abbreviation fdb := (fdb M P A).
Implicit Types (s : fdb) (g E : gmap Z ptr) (C : lid -> list ptr) (F O S : gset ptr) (m : records).

(** The code of the operations: a record is deleted or read through the pointer
    that the lookup gives. *)
Definition step (o : fdb_op) (s : fdb) : option (result * fdb) :=
  match o with
  | Add r => '(err, s) ← fdb_uc_db_add_record (Some r) s; Some ((err, None), s)
  | Delete k =>
      '(err, a) ← fdb_uc_db_get_record_by_key k s;
      if decide (err <> 0) then Some ((err, None), s)
      else '(err, s) ← fdb_uc_db_delete_record a s; Some ((err, None), s)
  | Lookup k =>
      '(err, a) ← fdb_uc_db_get_record_by_key k s;
      Some ((err, if decide (err <> 0) then None else Some (data s a)), s)
  end.

Fixpoint run (ops : list fdb_op) (s : fdb) : option (list result * fdb) :=
  match ops with
  | [] => Some ([], s)
  | o :: ops => '(x, s) ← step o s; '(xs, s) ← run ops s; Some (x :: xs, s)
  end.

(** ** The state *)

Section Invariant.
Context (vend : nat -> ptr) (U1 U2 : gset ptr).
Context (Hlay : layout vend U1 U2) (Hnull : NULL ∉ U1) (Hcap1 : Z.of_nat (size U1) = MAX_FDB_ENTRIES)
  (Hcap : Z.of_nat (size U2) = MAX_FILTER_ENTRIES).

Definition params s (a : ptr) : mac_addr_params := mac_params (data s a).

(** The map holds the records of [m], all taken from the pool and linked in the
    lists of their VLAN, port, and port and VLAN. *)
Record fdb_rep s E O m : Prop := FdbRep {
  fr_init : fdb_initiated s = true;
  fr_map : map_is (fdb_map s) E;
  fr_room a : a ∈ U1 -> a ∉ map_room (fdb_map s);
  fr_pool : exists F, pool_is (main_db_pool s) F O /\ F ∪ O = U1;
  fr_items : items_of E O;
  fr_records k : m !! k = data s <$> E !! k;
  fr_keys k a : E !! k = Some a -> record_key (data s a) = k /\ record_ok (data s a);
  fr_filters : exists g C F, filters_at vend U1 U2 s g C F /\ linked C O (params s) }.

Lemma rep_inj s E O m : fdb_rep s E O m -> inj_map E.
Proof. intros [_ Hm _ _ _ _ _ _] k k' p. by apply (map_inj_law _ _ _ _ _ Hm). Qed.

Lemma rep_size s E O m : fdb_rep s E O m -> size O = size m /\ size E = size m.
Proof.
  intros H. rewrite (items_size E O (rep_inj _ _ _ _ H) (fr_items _ _ _ _ H)).
  assert (m = data s <$> E) as ->; [|by rewrite map_size_fmap]. apply map_eq. intros k. rewrite lookup_fmap. by apply H.
Qed.

Lemma rep_free s E O m F :
  fdb_rep s E O m -> pool_is (main_db_pool s) F O -> F ∪ O = U1 -> Z.of_nat (size F) = MAX_FDB_ENTRIES - Z.of_nat (size m).
Proof.
  intros H Hp HU. destruct (rep_size _ _ _ _ H) as [E1 _]. destruct (pool_sets_law _ _ _ Hp) as [Hd _].
  rewrite <- E1, <- Hcap1, <- HU, size_union by done. lia.
Qed.

Lemma rep_lookup s E O m k a : fdb_rep s E O m -> E !! k = Some a -> m !! k = Some (data s a) /\ a ∈ O /\ a ∈ U1 /\ a <> NULL.
Proof.
  intros H Hk. assert (HO : a ∈ O) by (apply (fr_items _ _ _ _ H); eauto).
  destruct (fr_pool _ _ _ _ H) as (F & Hp & HU). assert (a ∈ U1) by set_solver.
  split_and!; [by rewrite (fr_records _ _ _ _ H), Hk|done|done|congruence].
Qed.

Lemma get_record_spec s E O m k :
  fdb_rep s E O m ->
  fdb_uc_db_get_record_by_key k s = Some (match E !! k with Some a => (0, a) | None => (- ENOENT, NULL) end).
Proof.
  intros H. unfold fdb_uc_db_get_record_by_key. rewrite (fr_init _ _ _ _ H). cbn [negb].
  rewrite (map_get_law _ _ _ (fr_map _ _ _ _ H)). cbn [mbind option_bind].
  destruct (E !! k) as [a|] eqn:Hk; cbn [default from_option id].
  - destruct (map_item_law _ _ _ _ (fr_map _ _ _ _ H) Hk) as [Hn _]. by rewrite decide_True.
  - by rewrite decide_False by (intros []; done).
Qed.

(** The filters do not depend on the rest of the database. *)
Lemma filters_ext s s' g C F :
  filters_initiated s' = filters_initiated s -> fbd_filter_map s' = fbd_filter_map s ->
  fdb_fltr_pool s' = fdb_fltr_pool s -> heap s' = heap s -> fdb_vlan_list s' = fdb_vlan_list s ->
  fltr_head s' = fltr_head s -> rings vend (lists s') g C ->
  filters_at vend U1 U2 s g C F -> filters_at vend U1 U2 s' g C F.
Proof.
  intros E1 E2 E3 E4 E5 E6 Hr [[] Hu]. split; [|done]. constructor; rewrite ?E1, ?E2, ?E3, ?E4, ?E5, ?E6; done.
Qed.

(** ** Deleting *)

(** The record goes; what is left of the filtering lists keeps its order, and no
    list gets a new head. *)
Lemma delete_record_lists s E O m k a g C Ff :
  fdb_rep s E O m -> E !! k = Some a -> filters_at vend U1 U2 s g C Ff -> linked C O (params s) ->
  exists s' g' C' F', fdb_uc_db_delete_record a s = Some (0, s') /\ fdb_rep s' (delete k E) (O ∖ {[a]}) (delete k m) /\
    data s' = data s /\ filters_at vend U1 U2 s' g' C' F' /\ linked C' (O ∖ {[a]}) (params s') /\ g' ⊆ g /\ same_without a C C'.
Proof.
  intros H Hk Hf Hl. destruct (rep_lookup _ _ _ _ _ _ H Hk) as (_ & HO & HU & Hn). unfold fdb_uc_db_delete_record.
  rewrite (fr_init _ _ _ _ H). cbn [negb]. rewrite decide_False by done.
  destruct (fr_keys _ _ _ _ H _ _ Hk) as [_ [_ Hok]].
  destruct (delete_entry_spec vend U1 U2 Hlay s g C Ff O (params s) a Hf Hl HO eq_refl Hok)
    as (s1 & g1 & C1 & F1 & -> & (M1 & M2 & M3 & M4 & M5) & Hf1 & Hl1 & Hg1 & Hw1).
  cbn [mbind option_bind]. rewrite decide_False by lia. rewrite M2.
  destruct (map_remove_law _ _ _ _ (fr_map _ _ _ _ H) Hk) as (m1 & -> & Hm1 & Hroom). cbn [mbind option_bind].
  destruct (fr_pool _ _ _ _ H) as (F & Hp & HFO). cbn [main_db_pool heap set_fdb_map]. rewrite M3, M5.
  destruct (pool_put_law _ (heap s) _ _ a Hp HO) as (p1 & -> & Hp1). eexists _, g1, C1, F1. split; [done|].
  assert (Hf2 : filters_at vend U1 U2 (set_main_pool (set_fdb_map s1 m1) p1 (heap s)) g1 C1 F1).
  { eapply filters_ext; [..|exact Hf1]; try done. apply (fa_rings _ _ _ _ _ _ _ (proj1 Hf1)). }
  assert (Hl2 : linked C1 (O ∖ {[a]}) (params (set_main_pool (set_fdb_map s1 m1) p1 (heap s)))).
  { intros l b. unfold params. cbn [data set_main_pool set_fdb_map]. rewrite M4. apply Hl1. }
  split; [|done]. constructor; cbn [fdb_initiated fdb_map main_db_pool heap data set_main_pool set_fdb_map].
  - by rewrite M1, (fr_init _ _ _ _ H).
  - done.
  - intros b Hb. rewrite Hroom. by apply (fr_room _ _ _ _ H).
  - eexists. split; [exact Hp1|]. rewrite <- HFO. apply set_eq. intros x. destruct (decide (x = a)); set_solver.
  - apply items_delete; [by eapply rep_inj|done|apply H].
  - intros k'. rewrite M4. destruct (decide (k' = k)) as [->|]; [by rewrite !lookup_delete_eq|].
    rewrite !lookup_delete_ne by done. apply H.
  - intros k' b [_ Hb]%lookup_delete_Some. rewrite M4. by apply (fr_keys _ _ _ _ H).
  - by exists g1, C1, F1.
Qed.

Lemma delete_record_spec s E O m k a :
  fdb_rep s E O m -> E !! k = Some a ->
  exists s', fdb_uc_db_delete_record a s = Some (0, s') /\ fdb_rep s' (delete k E) (O ∖ {[a]}) (delete k m).
Proof.
  intros H Hk. destruct (fr_filters _ _ _ _ H) as (g & C & F & Hf & Hl).
  destruct (delete_record_lists _ _ _ _ _ _ _ _ _ H Hk Hf Hl) as (s' & _ & _ & _ & E' & H' & _). by exists s'.
Qed.

(** ** Adding *)

(** Clearing an entry that is in no list. *)
Lemma clear_entry_lists s a x :
  x ∉ addr vend <$> [Item VidF a; Item PortF a; Item VidPortF a] ->
  p_next (lists (clear_entry a s)) x = p_next (lists s) x /\ p_prev (lists (clear_entry a s)) x = p_prev (lists s) x.
Proof.
  cbn [fmap list_fmap]. rewrite !not_elem_of_cons. intros (N1 & N2 & N3 & _). cbn [addr off] in *.
  unfold clear_entry. cbn [lists set_data set_lists set_vlans].
  destruct (zero_item_off (zero_item (zero_item (lists s) (a + off_vid_fltr)) (a + off_port_fltr)) (a + off_vid_port_fltr) x)
    as [A1 A2]; [by rewrite list_elem_of_singleton|].
  destruct (zero_item_off (zero_item (lists s) (a + off_vid_fltr)) (a + off_port_fltr) x)
    as [B1 B2]; [by rewrite list_elem_of_singleton|].
  destruct (zero_item_off (lists s) (a + off_vid_fltr) x) as [C1 C2]; [by rewrite list_elem_of_singleton|].
  split; congruence.
Qed.

Lemma clear_entry_rings s g C F a :
  filters_at vend U1 U2 s g C F -> a ∈ U1 -> (forall l, a ∉ C l) -> rings vend (lists (clear_entry a s)) g C.
Proof.
  intros [Hf _] Ha Hn l Hact.
  apply (ring_of_frame vend U1 U2 Hlay [Item VidF a; Item PortF a; Item VidPortF a] (lists s)).
  - apply Hf.
  - done.
  - intros x Hx. by apply clear_entry_lists.
  - by repeat constructor.
  - intros p Hp Hin. unfold places, items in Hp. rewrite elem_of_cons, list_elem_of_fmap in Hp.
    rewrite !elem_of_cons, elem_of_nil in Hin.
    destruct Hp as [->|(b & -> & Hb)]; [destruct Hin as [E|[E|[E|[]]]]; by destruct l|].
    assert (b = a) as -> by (destruct Hin as [E|[E|[E|[]]]]; congruence). by apply (Hn l).
  - by apply (fa_rings _ _ _ _ _ _ _ Hf).
Qed.

(** A record made for a key that has none: an object of the pool, in the map, in no
    list yet. *)
Lemma create_record_spec s E O m k new :
  fdb_rep s E O m -> E !! k = None -> Z.of_nat (size m) < MAX_FDB_ENTRIES ->
  exists a s1 g C F, fdb_uc_db_create_record k s = Some (0, a, s1) /\
    let s2 := set_data s1 a new in
    fdb_initiated s2 = true /\ map_is (fdb_map s2) (<[k := a]> E) /\ map_room (fdb_map s2) = map_room (fdb_map s) /\
    (exists F', pool_is (main_db_pool s2) F' ({[a]} ∪ O) /\ F' ∪ ({[a]} ∪ O) = U1) /\
    a ∈ U1 /\ a ∉ O /\ data s2 a = new /\ (forall b, b <> a -> data s2 b = data s b) /\
    lists s2 = lists (clear_entry a s) /\
    filters_at vend U1 U2 s2 g C F /\ linked C O (params s2).
Proof.
  intros H Hk Hsz. destruct (fr_pool _ _ _ _ H) as (F & Hp & HFO). pose proof (rep_free _ _ _ _ _ H Hp HFO) as HF.
  unfold fdb_uc_db_create_record. rewrite (fr_init _ _ _ _ H). cbn [negb].
  destruct (pool_get_law _ (heap s) _ _ Hp) as (a & p & -> & [(_ & -> & _)|[HaF Hp1]]); [rewrite size_empty in HF; lia|].
  destruct (pool_sets_law _ _ _ Hp) as [Hdis Hnul]. rewrite decide_False by (intros ->; set_solver).
  assert (HaU : a ∈ U1) by set_solver. assert (HaO : a ∉ O) by set_solver.
  assert (HaE : forall k' q, E !! k' = Some q -> q <> a).
  { intros k' q Hq ->. apply HaO, (fr_items _ _ _ _ H). eauto. }
  destruct (rep_size _ _ _ _ H) as [_ HsE].
  destruct (map_insert_law (fdb_map s) E k a (fr_map _ _ _ _ H) Hk) as (m1 & Hins & Hm1 & Hroom);
    [by eapply fr_room|done|unfold MAX_FDB_ENTRIES in Hsz; lia|].
  cbn [fdb_map clear_entry set_data set_lists set_vlans set_main_pool]. rewrite Hins. cbn [mbind option_bind].
  destruct (fr_filters _ _ _ _ H) as (g & C & Ff & Hf & Hl). eexists a, _, g, C, Ff. split; [done|].
  assert (Hother : forall b, b <> a -> ((data s)⟦a <~ data0⟧⟦a <~ new⟧) b = data s b) by (intros; by rewrite !upd_ne).
  assert (HnC : forall l, a ∉ C l) by (intros l Hin; apply Hl in Hin as [? _]; done).
  cbn. split_and!; try done.
  - apply H.
  - eexists. split; [exact Hp1|]. rewrite <- HFO. apply set_eq. intros x. destruct (decide (x = a)); set_solver.
  - by rewrite upd_eq.
  - eapply filters_ext; [..|exact Hf]; try done. by apply (clear_entry_rings s g C Ff).
  - intros l b. rewrite (Hl l b). unfold params. cbn. split; (intros [Hb Hbl]; split; [done|]);
      rewrite Hother in *; [done|naive_solver|done|naive_solver].
Qed.

Definition ports_in (ports : list Z) m : Prop := forall k r, m !! k = Some r -> log_port (mac_params r) ∈ ports.

Lemma ports_params s E O m ports b : fdb_rep s E O m -> ports_in ports m -> b ∈ O -> log_port (params s b) ∈ ports.
Proof.
  intros H Hports Hb. apply (fr_items _ _ _ _ H) in Hb as [k Hk]. apply (Hports k). by rewrite (fr_records _ _ _ _ H), Hk.
Qed.

Lemma add_new_spec s E O m r ports :
  fdb_rep s E O m -> record_ok r -> m !! record_key r = None -> Z.of_nat (size m) < MAX_FDB_ENTRIES ->
  Z.of_nat (length ports) <= MAX_PORT_ENTRIES -> ports_in ports m -> log_port (mac_params r) ∈ ports ->
  exists s' E' O', fdb_uc_db_add_record (Some r) s = Some (0, s') /\ fdb_rep s' E' O' (<[record_key r := r]> m).
Proof.
  intros H Hr Hk Hsz Hlen Hports Hport. assert (HkE : E !! record_key r = None).
  { rewrite (fr_records _ _ _ _ H) in Hk. by destruct (E !! record_key r). }
  unfold fdb_uc_db_add_record. rewrite (fr_init _ _ _ _ H). cbn [negb]. fold (record_key r).
  rewrite (get_record_spec _ _ _ _ _ H), HkE. cbn [mbind option_bind]. rewrite decide_True by done.
  destruct (create_record_spec s E O m (record_key r) r H HkE Hsz) as (a & s1 & g & C & F & -> & Hrest).
  cbn [mbind option_bind set_record]. rewrite decide_False by lia. rewrite decide_False by lia. cbv zeta in Hrest.
  set (s2 := set_data s1 a r) in *.
  destruct Hrest as (Hin & Hmap & Hroom & Hpool & HaU & HaO & Hda & Hdo & _ & Hf & Hl).
  destruct (rep_size _ _ _ _ H) as [HsO _].
  destruct (add_entry_spec vend U1 U2 Hlay Hnull Hcap s2 g C F O (params s2) ports a Hf Hl HaU HaO) as
    (s3 & g3 & C3 & F3 & -> & (M1 & M2 & M3 & M4 & M5) & Hf3 & Hl3).
  { lia. }
  { done. }
  { intros b [->%elem_of_singleton|Hb]%elem_of_union; unfold params; [by rewrite Hda|].
    rewrite Hdo by (intros ->; done). by apply (ports_params _ _ _ _ _ _ H Hports). }
  { done. }
  { unfold params. rewrite Hda. apply Hr. }
  exists s3, (<[record_key r := a]> E), ({[a]} ∪ O). split; [done|]. constructor.
  - congruence.
  - by rewrite M2.
  - intros b Hb. rewrite M2, Hroom. by apply (fr_room _ _ _ _ H).
  - by rewrite M3.
  - by apply items_insert, H.
  - intros k'. rewrite M4. destruct (decide (k' = record_key r)) as [->|Hne].
    + rewrite !lookup_insert_eq. cbn [fmap option_fmap option_map]. by rewrite Hda.
    + rewrite !lookup_insert_ne, (fr_records _ _ _ _ H) by done. destruct (E !! k') as [b|] eqn:Hb; [|done].
      cbn [fmap option_fmap option_map]. rewrite Hdo; [done|]. intros ->. apply HaO, (fr_items _ _ _ _ H). eauto.
  - intros k' b. rewrite M4. intros [[<- <-]|[Hne Hb]]%lookup_insert_Some; [by rewrite Hda|].
    rewrite Hdo; [by apply (fr_keys _ _ _ _ H)|]. intros ->. apply HaO, (fr_items _ _ _ _ H). eauto.
  - exists g3, C3, F3. split; [done|]. intros l b. unfold params. rewrite M4. apply Hl3.
Qed.

Lemma add_old_spec s E O m r a ports :
  fdb_rep s E O m -> record_ok r -> E !! record_key r = Some a ->
  Z.of_nat (length ports) <= MAX_PORT_ENTRIES -> ports_in ports m -> log_port (mac_params r) ∈ ports ->
  exists s' E' O', fdb_uc_db_add_record (Some r) s = Some (0, s') /\ fdb_rep s' E' O' (<[record_key r := r]> m).
Proof.
  intros H Hr HkE Hlen Hports Hport. destruct (rep_lookup _ _ _ _ _ _ H HkE) as (Hka & HaO & HaU & Ha0).
  unfold fdb_uc_db_add_record. rewrite (fr_init _ _ _ _ H). cbn [negb]. fold (record_key r).
  rewrite (get_record_spec _ _ _ _ _ H), HkE. cbn [mbind option_bind]. rewrite decide_False by (unfold ENOENT; lia).
  rewrite decide_False by lia. cbn [set_record]. rewrite decide_False by lia.
  fold (params s a). destruct (fr_keys _ _ _ _ H _ _ HkE) as [Hkey Hok]. destruct (record_key_inj _ _ Hr Hok (eq_sym Hkey)) as [_ Hvid].
  destruct (fr_filters _ _ _ _ H) as (g & C & F & Hf & Hl). destruct (rep_size _ _ _ _ H) as [HsO _].
  destruct (fr_pool _ _ _ _ H) as (Fp & Hp & HFO). pose proof (rep_free _ _ _ _ _ H Hp HFO) as HF.
  assert (Hf1 : filters_at vend U1 U2 (set_data s a r) g C F).
  { eapply filters_ext; [..|exact Hf]; try done. apply (fa_rings _ _ _ _ _ _ _ (proj1 Hf)). }
  destruct (modified_entry_spec vend U1 U2 Hlay Hnull Hcap (set_data s a r) g C F O (params s) ports a (mac_params r) Hf1 Hl)
    as (s3 & g3 & C3 & F3 & -> & (M1 & M2 & M3 & M4 & M5) & Hf3 & Hl3); try done.
  { set_solver. }
  { lia. }
  { intros b Hb. by apply (ports_params _ _ _ _ _ _ H Hports). }
  { cbn. by rewrite upd_eq. }
  { apply Hok. }
  { apply Hr. }
  assert (Hinj : forall k' b, E !! k' = Some b -> k' <> record_key r -> b <> a).
  { intros k' b Hb Hne ->. apply Hne. by apply (rep_inj _ _ _ _ H k' (record_key r) a). }
  exists s3, E, O. split; [done|]. constructor; rewrite ?M1, ?M2, ?M3, ?M4, ?M5; cbn; try apply H.
  - intros k'. destruct (decide (k' = record_key r)) as [->|Hne].
    + rewrite lookup_insert_eq, HkE. cbn. by rewrite upd_eq.
    + rewrite lookup_insert_ne, (fr_records _ _ _ _ H) by done. destruct (E !! k') as [b|] eqn:Hb; [|done]. cbn.
      by rewrite upd_ne by (by eapply Hinj).
  - intros k' b Hb. destruct (decide (b = a)) as [->|Hne]; [rewrite upd_eq|rewrite upd_ne by done; by apply (fr_keys _ _ _ _ H)].
    split; [|done]. by apply (rep_inj _ _ _ _ H _ _ a).
  - exists g3, C3, F3. split; [done|]. intros l b. rewrite (Hl3 l b). unfold params, with_params. rewrite M4. cbn.
    unfold upd. by case_decide.
Qed.

(** No room: nothing changes. *)
Lemma add_full_spec s E O m r :
  fdb_rep s E O m -> m !! record_key r = None -> Z.of_nat (size m) = MAX_FDB_ENTRIES ->
  exists s', fdb_uc_db_add_record (Some r) s = Some (- ENOMEM, s') /\ fdb_rep s' E O m.
Proof.
  intros H Hk Hsz. assert (HkE : E !! record_key r = None).
  { rewrite (fr_records _ _ _ _ H) in Hk. by destruct (E !! record_key r). }
  unfold fdb_uc_db_add_record. rewrite (fr_init _ _ _ _ H). cbn [negb]. fold (record_key r).
  rewrite (get_record_spec _ _ _ _ _ H), HkE. cbn [mbind option_bind]. rewrite decide_True by done.
  unfold fdb_uc_db_create_record. rewrite (fr_init _ _ _ _ H). cbn [negb].
  destruct (fr_pool _ _ _ _ H) as (F & Hp & HFO). pose proof (rep_free _ _ _ _ _ H Hp HFO) as HF.
  assert (F = ∅) as -> by (apply leibniz_equiv, size_empty_iff; lia).
  destruct (pool_get_law _ (heap s) _ _ Hp) as (a & p & -> & [(-> & _ & Hp1)|[? _]]); [|set_solver].
  rewrite decide_True by done. cbn [mbind option_bind]. rewrite decide_True by (unfold ENOMEM; lia).
  eexists. split; [done|]. destruct H. constructor; try done; [by exists ∅|].
  destruct fr_filters0 as (g & C & F & Hf & Hl). exists g, C, F. split; [|done].
  eapply filters_ext; [..|exact Hf]; try done. apply (fa_rings _ _ _ _ _ _ _ (proj1 Hf)).
Qed.
End Invariant.
End Db.
