(* ===== verification/UcDbInit.v ===== *)
(** * Initialisation and end of the database of MAC addresses

    Initialisation establishes the invariant of [UcDbSpec.v] and the layout its
    lists rely on: the objects of both pools, the heads of the VLAN lists and the
    items inside the objects do not overlap.  The end of the database gives every
    object back and ends. *)

From S2P Require Import Prelude Qlist Storage FdbFilter FdbLists FdbFilterSpec FdbFilterOps UcDb UcDbSpec.

Local Open Scope Z_scope.
Local Open Scope list_scope.

(** The loop over the list heads leaves every list empty. *)
Lemma init_vlans_spec (l : list cl_qlist_t) : forall lk,
  NoDup (ql_end <$> l) ->
  let '(lk', l') := init_vlans lk l in
  length l' = length l /\ same_off (ql_end <$> l) lk lk' /\
  (forall v q', l' !! v = Some q' ->
     exists q, l !! v = Some q /\ ql_end q' = ql_end q /\ ql_count q' = 0 /\ ring lk' (ql_end q') []).
Proof.
  induction l as [|q l IH]; intros lk Hnd; cbn [init_vlans]; [done|].
  rewrite fmap_cons in *. apply NoDup_cons in Hnd as [Hq Hnd].
  cbn [cl_qlist_init __cl_qlist_reset ql_end ql_count ql_state]. set (lk1 := set_prev _ _ _).
  specialize (IH lk1 Hnd). destruct (init_vlans lk1 l) as [lk2 l']. destruct IH as (Hlen & Hs & Hr).
  split; [cbn; lia|]. split.
  - intros x [Hx1 Hx2]%not_elem_of_cons. destruct (Hs x Hx2) as [-> ->].
    apply (same_reset lk). by rewrite list_elem_of_singleton.
  - intros [|v] q' Hv; cbn in Hv.
    + injection Hv as <-. exists q. split_and!; [done..|]. cbn [ql_end].
      apply (ring_frame _ _ _ _ _ Hs); [|apply ring_reset]. by intros z ->%list_elem_of_singleton.
    + destruct (Hr v q' Hv) as (q0 & ? & ? & ? & ?). by exists q0.
Qed.

Section Init.
Context {M P A : Type} {OM : OrderedMap M} {OML : OrderedMapLaws M} {OP : ObjectPool P A} {OPL : ObjectPoolLaws P A}
  {EL : EntryLayout}.
Abbreviation fdb := (fdb M P A).
Implicit Types (s : fdb) (g E : gmap Z ptr) (F O : gset ptr).

(** The static data before the first call: nothing is initialised, and the list
    heads and map structures are in memory the allocator does not hand out. *)
Record static_ok s : Prop := StaticOk {
  so_flags : fdb_initiated s = false /\ filters_initiated s = false;
  so_maps : map_ready (fdb_map s) /\ map_ready (fbd_filter_map s);
  so_pools : pool_ready (main_db_pool s) (heap s) /\ pool_ready (fdb_fltr_pool s) (heap s);
  so_rooms q : q ∈ map_room (fdb_map s) ++ map_room (fbd_filter_map s) -> in_use (heap s) q;
  so_length : length (fdb_vlan_list s) = MAX_VLAN_ENTRIES;
  so_distinct : NoDup (ql_end <$> fdb_vlan_list s);
  so_ends q : q ∈ fdb_vlan_list s -> 0 < ql_end q /\ in_use (heap s) (ql_end q) }.

Definition vend_of s (v : nat) : ptr := from_option ql_end NULL (fdb_vlan_list s !! v).

Lemma vend_lookup s v : static_ok s -> (v < MAX_VLAN_ENTRIES)%nat -> exists q, fdb_vlan_list s !! v = Some q /\ vend_of s v = ql_end q.
Proof.
  intros Hs Hv. destruct (lookup_lt_is_Some_2 (fdb_vlan_list s) v) as [q Hq]; [by rewrite (so_length _ Hs)|].
  exists q. split; [done|]. unfold vend_of. by rewrite Hq.
Qed.

(** Memory obtained in two steps on top of static memory does not overlap. *)
Lemma init_layout s (a1 a2 : A) U1 U2 :
  static_ok s -> (forall q, in_use (heap s) q -> in_use a1 q) ->
  spaced sizeof_mac_entry U1 ->
  (forall x q, x ∈ U1 -> object_bytes sizeof_mac_entry x q -> 0 < q /\ ~ in_use (heap s) q /\ in_use a1 q) ->
  (forall x q, x ∈ U2 -> object_bytes sizeof_fltr_entry x q -> 0 < q /\ ~ in_use a1 q /\ in_use a2 q) ->
  layout (vend_of s) U1 U2.
Proof.
  intros Hs Hmono Hsp H1 H2. pose proof layout_vid. pose proof layout_port. pose proof layout_vid_port. pose proof layout_size.
  assert (Hv : forall v, (v < MAX_VLAN_ENTRIES)%nat -> 0 < vend_of s v /\ in_use (heap s) (vend_of s v)).
  { intros v Hv. destruct (vend_lookup s v Hs Hv) as (q & Hq & ->). apply (so_ends _ Hs). by eapply list_elem_of_lookup_2. }
  assert (Hoff : forall x, 0 <= off x /\ off x + 16 <= sizeof_mac_entry) by (intros []; cbn; lia).
  assert (Hi : forall x a, a ∈ U1 -> 0 < a + off x /\ ~ in_use (heap s) (a + off x) /\ in_use a1 (a + off x)).
  { intros x a Ha. apply (H1 a); [done|]. unfold object_bytes. specialize (Hoff x). lia. }
  assert (Hf : forall f, f ∈ U2 -> 0 < f + off_head /\ ~ in_use a1 (f + off_head)).
  { intros f Hf. destruct (H2 f (f + off_head) Hf) as (? & ? & _); [|done]. unfold object_bytes, off_head, sizeof_fltr_entry. lia. }
  split.
  - intros [v|f|x a] [w|h|y b] Hp Hq E; cbn [valid addr] in *.
    + destruct (vend_lookup s v Hs Hp) as (q1 & Hq1 & E1), (vend_lookup s w Hs Hq) as (q2 & Hq2 & E2). f_equal.
      eapply (NoDup_lookup _ _ _ (ql_end q1) (so_distinct _ Hs)); rewrite list_lookup_fmap, ?Hq1, ?Hq2; cbn; congruence.
    + destruct (Hf h Hq) as [_ Hn]. destruct Hn. rewrite <- E. by apply Hmono, Hv.
    + destruct (Hi y b Hq) as (_ & Hn & _). destruct Hn. rewrite <- E. by apply Hv.
    + destruct (Hf f Hp) as [_ Hn]. destruct Hn. rewrite E. by apply Hmono, Hv.
    + f_equal. lia.
    + destruct (Hf f Hp) as [_ Hn]. destruct Hn. rewrite E. by apply (Hi y b Hq).
    + destruct (Hi x a Hp) as (_ & Hn & _). destruct Hn. rewrite E. by apply Hv.
    + destruct (Hf h Hq) as [_ Hn]. destruct Hn. rewrite <- E. by apply (Hi x a Hp).
    + destruct (decide (a = b)) as [->|Hne].
      * f_equal. assert (off x = off y) by lia. destruct x, y; cbn in *; congruence || lia.
      * pose proof (Hoff x). pose proof (Hoff y). destruct (Hsp a b Hp Hq Hne); lia.
  - intros [v|f|x a] Hp; cbn [valid addr] in *; [destruct (Hv v Hp)|destruct (Hf f Hp)|destruct (Hi x a Hp)]; lia.
Qed.

(** The filters after their initialisation: no heads, no entries. *)
Lemma filter_init_spec s :
  filters_initiated s = false -> map_ready (fbd_filter_map s) -> pool_ready (fdb_fltr_pool s) (heap s) ->
  length (fdb_vlan_list s) = MAX_VLAN_ENTRIES -> NoDup (ql_end <$> fdb_vlan_list s) ->
  (forall q, q ∈ map_room (fbd_filter_map s) -> in_use (heap s) q) ->
  exists err s', fdb_uc_db_filter_init s = Some (err, s') /\
    (err = 0 -> exists U2, Z.of_nat (size U2) = MAX_FILTER_ENTRIES /\
       fdb_initiated s' = fdb_initiated s /\ fdb_map s' = fdb_map s /\ main_db_pool s' = main_db_pool s /\ data s' = data s /\
       (forall q, in_use (heap s) q -> in_use (heap s') q) /\
       (forall x q, x ∈ U2 -> object_bytes sizeof_fltr_entry x q -> 0 < q /\ ~ in_use (heap s) q /\ in_use (heap s') q) /\
       forall U1, filters_at (vend_of s) U1 U2 s' ∅ (fun _ => []) U2).
Proof.
  intros Hfl Hmr Hpr Hlen Hnd Hroom. unfold fdb_uc_db_filter_init. rewrite Hfl.
  pose proof (init_vlans_spec (fdb_vlan_list s) (lists s) Hnd) as Hv. destruct (init_vlans _ _) as [lk v].
  destruct Hv as (Hlv & _ & Hv). cbn [fbd_filter_map fdb_fltr_pool heap set_vlans set_filter_map].
  destruct (map_init_law _ Hmr) as [Hm Hrm].
  destruct (pool_init_law (fdb_fltr_pool s) (heap s) MAX_FILTER_ENTRIES sizeof_fltr_entry Hpr) as (st & p & a & Hrun & Hok);
    [done|done|].
  unfold MIN_FILTER_ENTRIES. rewrite Hrun. cbn [mbind option_bind]. case_decide as Hst.
  { eexists _, _. split; [done|]. unfold ENOMEM. lia. }
  destruct Hok as (U2 & Hp & Hsz & _ & Hmono & Hb). { by destruct (decide (st = CL_SUCCESS)). }
  eexists _, _. split; [done|]. intros _. exists U2. cbn.
  split; [done|]. do 5 (split; [done|]). split; [done|]. intros U1. split; [|by intros k [? ?%lookup_empty_Some]].
  constructor; cbn; try done.
  - intros f Hf. rewrite Hrm. intros Hin%Hroom. destruct (Hb f f Hf) as (_ & Hn & _); [|done].
    unfold object_bytes, sizeof_fltr_entry. lia.
  - exists ∅. split; [done|]. split; [|set_solver]. intros q. split; [set_solver|]. by intros [? ?%lookup_empty_Some].
  - rewrite Hsz. done.
  - congruence.
  - intros i q Hq. destruct (Hv i q Hq) as (q0 & Hq0 & He & Hc & _). unfold vend_of. rewrite Hq0. done.
  - split; [by intros k k' q ?%lookup_empty_Some|by intros k f ?%lookup_empty_Some|by intros l b ?%not_elem_of_nil
      |by intros l l' b _ ?%not_elem_of_nil|by intros].
  - intros [i|k] Hact; [|by destruct Hact as [? ?%lookup_empty_Some]]. unfold ring_of. cbn.
    destruct (lookup_lt_is_Some_2 v i) as [q Hq]; [rewrite Hlv, Hlen; exact Hact|].
    destruct (Hv i q Hq) as (q0 & Hq0 & He & _ & Hr). unfold vend_of. rewrite Hq0. cbn. by rewrite <- He.
Qed.

(** Initialisation ends; if it succeeds the database is empty and well formed. *)
Lemma init_spec s :
  static_ok s ->
  exists err s', fdb_uc_db_init s = Some (err, s') /\
    (err = 0 -> exists U1 U2, layout (vend_of s) U1 U2 /\ NULL ∉ U1 /\ Z.of_nat (size U1) = MAX_FDB_ENTRIES /\
       Z.of_nat (size U2) = MAX_FILTER_ENTRIES /\ fdb_rep (vend_of s) U1 U2 s' ∅ ∅ ∅).
Proof.
  intros Hs. pose proof (so_flags _ Hs) as [F1 F2]. pose proof (so_maps _ Hs) as [M1 M2]. pose proof (so_pools _ Hs) as [P1 P2].
  unfold fdb_uc_db_init. rewrite F1. cbn [fdb_map main_db_pool heap set_fdb_map set_main_pool].
  destruct (map_init_law _ M1) as [Hm Hrm].
  destruct (pool_ready_law _ _ (heap s) (fun _ H => H) P1) as [_ P1'].
  destruct (pool_init_law _ _ MAX_FDB_ENTRIES sizeof_mac_entry P1') as (st & p & a & Hrun & Hok);
    [done|pose proof layout_vid; pose proof layout_port; pose proof layout_vid_port; pose proof layout_size; lia|].
  change MIN_FDB_ENTRIES with MAX_FDB_ENTRIES. rewrite Hrun. cbn [mbind option_bind]. case_decide as Hst.
  { eexists _, _. split; [done|]. unfold EPERM. lia. }
  destruct Hok as (U1 & Hp & Hsz & Hsp & Hmono & Hb). { by destruct (decide (st = CL_SUCCESS)). }
  set (s1 := set_main_pool _ p a).
  destruct (filter_init_spec s1) as (err & s2 & -> & Hok2); try done.
  { apply (pool_ready_law _ _ _ Hmono P2). }
  { apply Hs. }
  { apply Hs. }
  { intros q Hq. cbn. apply Hmono, (so_rooms _ Hs). set_solver. }
  cbn [mbind option_bind]. case_decide as Herr; [eexists _, _; split; [done|unfold EPERM; lia]|].
  assert (err = 0) as -> by lia. destruct (Hok2 eq_refl) as (U2 & Hsz2 & G1 & G2 & G3 & G4 & Hmono2 & Hb2 & Hf).
  eexists _, _. split; [done|]. intros _. exists U1, U2. cbn [heap s1 set_main_pool] in *.
  split; [by eapply init_layout|].
  pose proof layout_vid. pose proof layout_port. pose proof layout_vid_port. pose proof layout_size.
  split. { intros Hn. destruct (Hb NULL NULL Hn) as [? _]; [unfold object_bytes; lia|lia]. }
  split; [done|]. split; [done|]. constructor; cbn; rewrite ?G1, ?G2, ?G3, ?G4; try done.
  - intros x Hx. cbn. rewrite Hrm. intros Hin. destruct (Hb x x Hx) as (_ & Hn & _); [unfold object_bytes; lia|].
    apply Hn, (so_rooms _ Hs). set_solver.
  - exists U1. split; [done|set_solver].
  - intros q. split; [set_solver|]. by intros [? ?%lookup_empty_Some].
  - exists ∅, (fun _ => []), U2. split.
    + eapply filters_ext; [..|apply (Hf U1)]; try done. apply (fa_rings _ _ _ _ _ _ _ (proj1 (Hf U1))).
    + intros l b. split; [set_solver|]. set_solver.
Qed.

(** ** The end *)

(** A non-empty map has a first item, and it is an item of the map. *)
Lemma head_item (m : M) g :
  map_is m g -> (g = ∅ /\ om_head m = om_end m) \/ (exists k, g !! k = Some (om_head m) /\ om_head m <> om_end m).
Proof.
  intros Hm. destruct (map_head_law m g Hm) as [[He Hnone]|(k & Hk & _)].
  - left. split; [|done]. apply map_empty. intros k. destruct (g !! k) as [p|] eqn:Hk; [|done]. by destruct (Hnone k p Hk).
  - right. exists k. split; [done|]. by apply (map_item_law m g k).
Qed.

(** A map whose items are the objects in use of a pool. *)
Definition stocked (m : M) (p : P) g : Prop := map_is m g /\ exists F O, pool_is p F O /\ items_of g O.

Lemma stocked_inj m p g : stocked m p g -> inj_map g.
Proof. intros [Hm _] k k' q. by apply (map_inj_law m g). Qed.

(** One object given back: the first of the map. *)
Lemma stocked_step m p g (a : A) :
  stocked m p g -> g <> ∅ ->
  om_head m <> om_end m /\ om_head m <> NULL /\
  exists k m' p', om_remove_item (om_head m) m = Some m' /\ op_put (om_head m) p a = (p', a) /\
    stocked m' p' (delete k g) /\ size (delete k g) = pred (size g).
Proof.
  intros Hst Hg. pose proof Hst as [Hm (F & O & Hp & Hit)].
  destruct (head_item m g Hm) as [[? _]|(k & Hk & He)]; [done|]. split; [done|].
  assert (HO : om_head m ∈ O) by (apply Hit; eauto).
  destruct (pool_sets_law _ _ _ Hp) as [_ Hn]. split; [intros E; apply Hn; rewrite <- E; set_solver|].
  destruct (map_remove_law m g k _ Hm Hk) as (m' & Hr & Hm' & _).
  destruct (pool_put_law p a F O _ Hp HO) as (p' & Hput & Hp').
  exists k, m', p'. split_and!; [done|done| |].
  - split; [done|]. eexists _, _. split; [exact Hp'|]. by apply items_delete; [eapply stocked_inj| |].
  - by rewrite map_size_delete_Some by eauto.
Qed.

Lemma destroy_loop_spec fuel : forall s g,
  fdb_initiated s = true -> stocked (fdb_map s) (main_db_pool s) g -> (size g <= fuel)%nat ->
  exists s', destroy_loop fuel s = Some (0, s') /\ stocked (fdb_map s') (main_db_pool s') ∅ /\
    fdb_initiated s' = true /\ filters_initiated s' = filters_initiated s /\
    fbd_filter_map s' = fbd_filter_map s /\ fdb_fltr_pool s' = fdb_fltr_pool s.
Proof.
  induction fuel as [|fuel IH]; intros s g Hi Hst Hsz; cbn [destroy_loop]; unfold fdb_uc_db_get_first_record;
    rewrite Hi; cbn [negb]; (destruct (decide (g = ∅)) as [->|Hg];
    [destruct (head_item _ _ (proj1 Hst)) as [[_ E]|(k & Hk & _)]; [|by rewrite lookup_empty in Hk];
     rewrite decide_False by (intros Hx; by apply Hx); rewrite decide_False by lia; rewrite decide_True by done; by exists s|]).
  - exfalso. apply Hg. apply map_size_empty_iff. lia.
  - destruct (stocked_step _ _ _ (heap s) Hst Hg) as (He & Hn & k & m' & p' & Hr & Hput & Hst' & Hsz').
    rewrite decide_True by done. rewrite decide_False by lia. rewrite decide_False by done.
    rewrite Hr. cbn [mbind option_bind main_db_pool heap set_fdb_map]. rewrite Hput.
    destruct (IH (set_main_pool (set_fdb_map s m') p' (heap s)) (delete k g) Hi Hst') as (s' & H); [lia|]. by exists s'.
Qed.

Lemma filter_destroy_loop_spec fuel : forall s g,
  filters_initiated s = true -> stocked (fbd_filter_map s) (fdb_fltr_pool s) g -> (size g <= fuel)%nat ->
  exists s', filter_destroy_loop fuel s = Some (0, s') /\ stocked (fbd_filter_map s') (fdb_fltr_pool s') ∅ /\
    filters_initiated s' = true /\ fdb_initiated s' = fdb_initiated s.
Proof.
  induction fuel as [|fuel IH]; intros s g Hi Hst Hsz; cbn [filter_destroy_loop]; unfold fdb_uc_db_filter_get_first_record;
    rewrite Hi; cbn [negb]; (destruct (decide (g = ∅)) as [->|Hg];
    [destruct (head_item _ _ (proj1 Hst)) as [[_ E]|(k & Hk & _)]; [|by rewrite lookup_empty in Hk];
     rewrite decide_False by (intros Hx; by apply Hx); rewrite decide_False by lia; rewrite decide_True by done; by exists s|]).
  - exfalso. apply Hg. apply map_size_empty_iff. lia.
  - destruct (stocked_step _ _ _ (heap s) Hst Hg) as (He & Hn & k & m' & p' & Hr & Hput & Hst' & Hsz').
    rewrite decide_True by done. rewrite decide_False by lia. rewrite decide_False by done.
    rewrite Hr. cbn [mbind option_bind fdb_fltr_pool heap set_filter_map]. rewrite Hput.
    destruct (IH (set_filter_pool (set_filter_map s m') p' (heap s)) (delete k g) Hi Hst') as (s' & H); [lia|]. by exists s'.
Qed.

(** The loops have enough fuel: the count of the map is the number of its items. *)
Lemma count_fuel (m : M) g : map_is m g -> Z.of_nat (size g) < 2 ^ 32 -> (size g <= S (Z.to_nat (om_count m)))%nat.
Proof. intros Hm Hs. rewrite (map_count_law _ _ Hm Hs). lia. Qed.

Lemma deinit_spec vend U1 U2 s E O m :
  Z.of_nat (size U1) = MAX_FDB_ENTRIES -> Z.of_nat (size U2) = MAX_FILTER_ENTRIES ->
  fdb_rep vend U1 U2 s E O m ->
  exists s', fdb_uc_db_deinit s = Some (0, s') /\ fdb_initiated s' = false /\ filters_initiated s' = false.
Proof.
  intros Hc1 Hc2 H. destruct (rep_size _ _ _ _ _ _ _ H) as [HO HE].
  destruct (fr_pool _ _ _ _ _ _ _ H) as (F & Hp & HU). destruct (fr_filters _ _ _ _ _ _ _ H) as (g & C & Ff & [Hf Hu] & _).
  destruct (fa_pool _ _ _ _ _ _ _ Hf) as (Of & Hpf & Hif & HUf).
  assert (HsE : Z.of_nat (size E) < 2 ^ 32).
  { assert (Hs : (size O <= size U1)%nat) by (apply subseteq_size; set_solver). rewrite HE, <- HO. unfold MAX_FDB_ENTRIES in Hc1. lia. }
  assert (Hsg : Z.of_nat (size g) < 2 ^ 32).
  { rewrite <- (items_size g Of (lo_inj _ _ _ _ (fa_ok _ _ _ _ _ _ _ Hf)) Hif).
    assert (Hs : (size Of <= size U2)%nat) by (apply subseteq_size; set_solver).
    unfold MAX_FILTER_ENTRIES, MAX_FDB_ENTRIES, MAX_PORT_ENTRIES in Hc2. lia. }
  unfold fdb_uc_db_deinit, fdb_uc_db_destroy. rewrite (fr_init _ _ _ _ _ _ _ H). cbn [negb].
  destruct (destroy_loop_spec (S (Z.to_nat (om_count (fdb_map s)))) s E) as (s1 & -> & [_ (F1 & O1 & Hp1 & _)] & I1 & I2 & I3 & I4).
  { apply H. }
  { split; [apply H|]. exists F, O. split; [done|apply H]. }
  { apply count_fuel; [apply H|done]. }
  cbn [mbind option_bind]. rewrite decide_False by lia.
  destruct (pool_destroy_law _ (heap s1) _ _ Hp1) as (p1 & h1 & ->). cbn [mbind option_bind].
  unfold fdb_uc_db_filter_deinit, fdb_uc_db_filter_destroy. cbn [filters_initiated set_main_pool fbd_filter_map].
  rewrite I2, I3, (fa_init _ _ _ _ _ _ _ Hf). cbn [negb].
  destruct (filter_destroy_loop_spec (S (Z.to_nat (om_count (fbd_filter_map s)))) (set_main_pool s1 p1 h1) g)
    as (s2 & -> & [_ (F2 & O2 & Hp2 & _)] & J1 & J2).
  { cbn. rewrite I2. apply Hf. }
  { cbn. rewrite I3, I4. split; [apply Hf|]. by exists Ff, Of. }
  { apply count_fuel; [apply Hf|done]. }
  cbn [mbind option_bind]. rewrite decide_False by lia.
  destruct (pool_destroy_law _ (heap s2) _ _ Hp2) as (p2 & h2 & ->). cbn [mbind option_bind]. rewrite decide_False by lia.
  by eexists.
Qed.
End Init.
