(* ===== verification/FdbStorage.v ===== *)
(** * The containers keep their promises

    The code of the quick map and of the object pool as instances of the
    interfaces of [Storage.v], with their laws derived from the invariants of
    [MapSpec.v] and [Pool.v]. *)

From S2P Require Import Prelude Qlist RbMap RbTree MapSpec MapRemove MapOps QMap Storage.
From S2P Require Pool.

Local Open Scope Z_scope.
Local Open Scope list_scope.

(** ** The quick map *)

Abbreviation qmap := (qmem * cl_qmap_t)%type.

#[export] Instance qmap_ordered_map : OrderedMap qmap := {
  om_init x := cl_qmap_init x.1 x.2;
  om_end x := cl_qmap_end x.2;
  om_head x := cl_qmap_head x.1 x.2;
  om_next p x := cl_qmap_next x.1 p;
  om_get k x := cl_qmap_get Z.compare x.1 x.2 k;
  om_get_next k x := cl_qmap_get_next Z.compare x.1 x.2 k;
  om_insert k p x := '(q, m, map) ← cl_qmap_insert Z.compare x.1 x.2 k p; Some (q, (m, map));
  om_remove_item p x := cl_qmap_remove_item x.1 x.2 p;
  om_count x := cl_qmap_count x.2 }.

(** The finite map of a list of entries. *)
Definition entries_of (g : gmap Z ptr) (E : list (ptr * Z)) : Prop := forall k p, g !! k = Some p <-> (p, k) ∈ E.

Lemma entries_find g E k : sorted Z.compare E -> entries_of g E -> lookup_key Z.compare k E = g !! k.
Proof.
  intros Hs Hg. destruct (lookup_key Z.compare k E) as [p|] eqn:Hk.
  - apply (lookup_key_some Z.compare) in Hk as (k' & Hin & Heq). apply Z.compare_eq in Heq as <-. symmetry. by apply Hg.
  - destruct (g !! k) as [p|] eqn:Hgk; [|done]. apply Hg in Hgk.
    rewrite (lookup_key_in Z.compare k E p k Hs Hgk) in Hk; [done|apply Z.compare_refl].
Qed.

Lemma sorted_keys (E : list (ptr * Z)) : sorted Z.compare E -> NoDup E.*2.
Proof.
  induction E as [|[p k] E IH]; cbn; [intros; apply NoDup_nil_2|]. intros [Hlt Hs]. apply NoDup_cons. split; [|by apply IH].
  intros ((q & k') & -> & Hin)%list_elem_of_fmap. specialize (Hlt _ Hin). unfold key_lt in Hlt. cbn in Hlt.
  by rewrite Z.compare_refl in Hlt.
Qed.

Lemma entries_size g E : sorted Z.compare E -> entries_of g E -> size g = length E.
Proof.
  intros Hs Hg. rewrite <- size_dom. rewrite <- (length_fmap snd E), <- (size_list_to_set (C:=gset Z)) by (by apply sorted_keys).
  f_equal. apply set_eq. intros k. rewrite elem_of_dom, elem_of_list_to_set, list_elem_of_fmap. split.
  - intros [p Hp]. exists (p, k). split; [done|]. by apply Hg.
  - intros ((p & k') & -> & Hin). exists p. by apply Hg.
Qed.

(** The first entry that satisfies an upward closed condition has the least such
    key. *)
Lemma first_least e g E (above : Z -> Prop) E1 E2 :
  sorted Z.compare E -> entries_of g E -> E = E1 ++ E2 ->
  (forall x, x ∈ E1 -> ~ above x.2) -> (forall x, x ∈ E2 -> above x.2) -> least_item e g above (default e (head E2.*1)).
Proof.
  intros Hs Hg -> H1 H2. destruct E2 as [|[p k] E2]; cbn.
  - left. split; [done|]. intros k q Hk. apply Hg in Hk. rewrite app_nil_r in Hk. by apply (H1 _ Hk).
  - right. exists k. split; [apply Hg; set_solver|]. split; [apply (H2 (p, k)); set_solver|].
    intros k' q Hk Hab. apply Hg in Hk. apply elem_of_app in Hk as [Hk|Hk]; [by destruct (H1 _ Hk)|].
    apply elem_of_cons in Hk as [[= -> ->]|Hk]; [lia|].
    apply (sorted_app Z.compare) in Hs as (_ & [Hlt _] & _). specialize (Hlt _ Hk). change (k < k') in Hlt. lia.
Qed.

(** Splitting the entries at a key. *)
Lemma split_above k E :
  sorted Z.compare E -> exists E1 E2, E = E1 ++ E2 /\ (forall x, x ∈ E1 -> ~ k < x.2) /\ (forall x, x ∈ E2 -> k < x.2) /\
    lookup_above Z.compare k E = head E2.*1.
Proof.
  induction E as [|[p k'] E IH]; cbn; intros Hs.
  - exists [], []. split_and!; [done|set_solver..|done].
  - destruct Hs as [Hlt Hs]. destruct (decide (k < k')) as [Hk|Hk].
    + exists [], ((p, k') :: E). split_and!; [done|set_solver| |].
      * intros x [->|Hx]%elem_of_cons; [done|]. specialize (Hlt x Hx). change (k' < x.2) in Hlt. lia.
      * unfold lookup_above. rewrite filterb_cons. cbn [snd]. by rewrite bool_decide_true by exact Hk.
    + destruct (IH Hs) as (E1 & E2 & -> & H1 & H2 & H3). exists ((p, k') :: E1), E2. split_and!; [done| |done|].
      * intros x [->|Hx]%elem_of_cons; [done|by apply H1].
      * rewrite <- H3. unfold lookup_above. rewrite filterb_cons. cbn [snd].
        rewrite bool_decide_false; [done|exact Hk].
Qed.

Definition qmap_holds (x : qmap) (g : gmap Z ptr) : Prop := exists E, qmap_at x.1 x.2 E /\ entries_of g E.

Lemma qmap_owned (m : qmem) map E p k :
  qmap_at m map E -> (p, k) ∈ E -> p <> qm_nil map /\ p ∉ [qm_root map; qm_nil map].
Proof.
  intros Hm Hin. pose proof (map_at_NoDup _ _ _ _ Hm) as Hnd. unfold owned in Hnd.
  assert (Hp : p ∈ E.*1) by (apply list_elem_of_fmap; by exists (p, k)).
  apply NoDup_cons in Hnd as [Hr Hnd]. apply NoDup_cons in Hnd as [Hn _].
  assert (p <> qm_nil map) by (intros ->; done). split; [done|]. set_solver.
Qed.

(** The invariant does not mention the list of entries other than by the map. *)
Lemma qmap_holds_of (m : qmem) map E g : qmap_at m map E -> entries_of g E -> qmap_holds (m, map) g.
Proof. intros. by exists E. Qed.

Ltac qmap_simpl :=
  cbv beta delta [om_init om_end om_head om_next om_get om_get_next om_insert om_remove_item om_count qmap_ordered_map] iota in *;
  cbn [fst snd] in *.

#[export] Program Instance qmap_ordered_map_laws : OrderedMapLaws qmap := {
  map_ready x := qm_root x.2 <> qm_nil x.2;
  map_room x := [qm_root x.2; qm_nil x.2];
  map_is := qmap_holds }.
Next Obligation.
  intros [m map] Hne. pose proof (map_init_spec Z.compare m map Hne) as Hi.
  qmap_simpl. destruct (cl_qmap_init m map) as [m' map'].
  destruct Hi as (H1 & _ & Hr & Hn & _). cbn [snd]. rewrite Hr, Hn. split; [|done].
  apply (qmap_holds_of _ _ [] ∅ H1). intros k p. rewrite lookup_empty. set_solver.
Qed.
Next Obligation.
  intros [m map] g k p (E & Hm & Hg) Hk. apply Hg in Hk. by apply (qmap_owned m map E p k).
Qed.
Next Obligation.
  intros [m map] g k k' p (E & Hm & Hg) Hk Hk'. apply Hg in Hk, Hk'. qmap_simpl.
  pose proof (map_at_NoDup _ _ _ _ Hm) as Hnd. unfold owned in Hnd. apply NoDup_cons in Hnd as [_ Hnd].
  apply NoDup_cons in Hnd as [_ Hnd]. apply list_elem_of_lookup in Hk as [i Hi], Hk' as [j Hj].
  assert (i = j) as <-.
  { eapply (NoDup_lookup _ _ _ p Hnd); rewrite list_lookup_fmap; [by rewrite Hi|by rewrite Hj]. }
  congruence.
Qed.
Next Obligation.
  intros [m map] g k (E & Hm & Hg). qmap_simpl. rewrite (map_get_spec Z.compare _ _ _ _ Hm).
  by rewrite (entries_find g E k (map_at_sorted Z.compare _ _ _ Hm) Hg).
Qed.
Next Obligation.
  intros [m map] g k (E & Hm & Hg). qmap_simpl. rewrite (map_get_next_spec Z.compare _ _ _ _ Hm). eexists. split; [done|].
  pose proof (map_at_sorted Z.compare _ _ _ Hm) as Hs. destruct (split_above k E Hs) as (E1 & E2 & HE & H1 & H2 & ->).
  by eapply first_least.
Qed.
Next Obligation.
  intros [m map] g (E & Hm & Hg). qmap_simpl. rewrite (proj1 (map_ends_spec Z.compare _ _ _ Hm)).
  eapply (first_least _ g E _ [] E); [by apply (map_at_sorted Z.compare m map)|done|done|set_solver|done].
Qed.
Next Obligation.
  intros [m map] g k p (E & Hm & Hg) Hk. qmap_simpl. apply Hg in Hk. apply list_elem_of_split in Hk as (E1 & E2 & ->).
  rewrite (proj1 (map_next_spec Z.compare _ _ _ _ _ _ Hm)). pose proof (map_at_sorted Z.compare _ _ _ Hm) as Hs.
  destruct (sorted_mid Z.compare _ _ _ _ Hs) as [Hb Ha].
  eapply (first_least _ g _ _ (E1 ++ [(p, k)]) E2); [exact Hs|done|by rewrite <- (assoc_L (++))| |].
  - intros x [Hx| ->%list_elem_of_singleton]%elem_of_app; [|cbn; lia]. specialize (Hb x Hx).
    apply Z.compare_gt_iff in Hb. lia.
  - intros x Hx. exact (Ha x Hx).
Qed.
Next Obligation.
  intros [m map] g k p (E & Hm & Hg) Hk Hroom Hfree Hsz. qmap_simpl. pose proof (map_at_sorted Z.compare _ _ _ Hm) as Hs.
  assert (Hp : p ∉ owned map E).
  { unfold owned. rewrite !not_elem_of_cons in *. split; [apply Hroom|]. split; [apply Hroom|].
    intros ((q & k') & -> & Hin)%list_elem_of_fmap. apply Hg in Hin. by apply (Hfree k' q). }
  destruct (map_insert_spec Z.compare m map E k p Hm Hp) as (p' & m' & map' & -> & (Hr & Hn & _ & _ & H)).
  { rewrite (entries_size _ _ Hs Hg) in Hsz. lia. }
  rewrite (entries_find _ _ _ Hs Hg), Hk in H. destruct H as (-> & E1 & E2 & -> & _ & _ & Hm').
  eexists. split; [done|]. split; [|by qmap_simpl; rewrite Hr, Hn]. apply (qmap_holds_of _ _ _ _ Hm').
  intros k' q. rewrite elem_of_app, elem_of_cons. destruct (decide (k' = k)) as [->|Hne].
  - rewrite lookup_insert_eq. split; [intros [= ->]; by right; left|].
    intros [Hin|[[= ->]|Hin]]; [|done|]; (assert (Hx : g !! k = Some q) by (apply Hg, elem_of_app; tauto); congruence).
  - rewrite lookup_insert_ne by done. rewrite (Hg k' q), elem_of_app. naive_solver.
Qed.
Next Obligation.
  intros [m map] g k p (E & Hm & Hg) Hk. qmap_simpl. pose proof (map_at_sorted Z.compare _ _ _ Hm) as Hs.
  pose proof Hk as Hin. apply Hg in Hin. apply list_elem_of_split in Hin as (E1 & E2 & ->).
  destruct (map_remove_item_spec Z.compare m map E1 p k E2 Hm) as (m' & map' & -> & (Hr & Hn & _ & Hm' & _)).
  eexists. split; [done|]. split; [|by qmap_simpl; rewrite Hr, Hn]. apply (qmap_holds_of _ _ _ _ Hm').
  pose proof (sorted_keys _ Hs) as Hnd. rewrite fmap_app, fmap_cons in Hnd. cbn [snd] in Hnd.
  rewrite <- Permutation_middle in Hnd. apply NoDup_cons in Hnd as [Hk2 _]. rewrite <- fmap_app in Hk2.
  intros k' q. destruct (decide (k' = k)) as [->|Hne].
  - rewrite lookup_delete_eq. split; [done|]. intros Hin. destruct Hk2. apply list_elem_of_fmap. by exists (q, k).
  - rewrite lookup_delete_ne by done. rewrite (Hg k' q), !elem_of_app, elem_of_cons. naive_solver.
Qed.
Next Obligation.
  intros [m map] g (E & Hm & Hg) Hsz. qmap_simpl. pose proof (map_at_sorted Z.compare _ _ _ Hm) as Hs.
  rewrite (entries_size _ _ Hs Hg) in *. destruct Hm as (_ & _ & _ & _ & _ & _ & _ & Hc & _).
  unfold cl_qmap_count. rewrite Hc. apply wrap_small. lia.
Qed.

(** ** The object pool *)

Section PoolStorage.
Context {A : Type} {AL : Pool.Allocator A} {LA : Pool.AllocatorLaws A}.

(** A pool with the links of its items and the prefixes of its objects. *)
Definition pool_mem : Type := Pool.cl_qcpool_t A unit * (links * (ptr -> ptr)).

Definition with_alloc (x : pool_mem) (a : A) : Pool.heap A unit := Pool.Heap x.2.1 x.2.2 tt a.
Definition of_heap (p : Pool.cl_qcpool_t A unit) (h : Pool.heap A unit) : pool_mem := (p, (Pool.h_links h, Pool.h_object h)).

#[export] Instance pool_object_pool : ObjectPool pool_mem A := {
  op_construct x := (Pool.cl_pool_construct x.1, x.2);
  op_init mn mx size x a :=
    '(st, p, h) ← Pool.cl_pool_init x.1 mn mx 0 size None None (with_alloc x a); Some (st, of_heap p h, Pool.h_alloc h);
  op_get x a := let '(o, p, h) := Pool.cl_pool_get x.1 (with_alloc x a) in (o, of_heap p h, Pool.h_alloc h);
  op_put o x a := let '(p, h) := Pool.cl_pool_put x.1 o (with_alloc x a) in (of_heap p h, Pool.h_alloc h);
  op_count x := Pool.cl_pool_count x.1;
  op_destroy x a := '(p, h) ← Pool.cl_pool_destroy x.1 (with_alloc x a); Some (of_heap p h, Pool.h_alloc h) }.

(** The caller's object of an item. *)
Definition objects (l : list ptr) : gset ptr := list_to_set ((fun i => i + Pool.sizeof_pool_obj) <$> l).

Lemma elem_objects l x : x ∈ objects l <-> x - Pool.sizeof_pool_obj ∈ l.
Proof.
  unfold objects. rewrite elem_of_list_to_set, list_elem_of_fmap. split.
  - intros (i & -> & Hi). by rewrite Z.add_simpl_r.
  - intros Hi. eexists. split; [|exact Hi]. lia.
Qed.

(** A pool that does not grow, whatever the state of the allocator is by now. *)
Definition pool_holds (x : pool_mem) (F O : gset ptr) : Prop :=
  exists a0 Fl Ol B, Pool.pool_at Pool.prefixed (with_alloc x a0) x.1 Fl Ol B /\
    Pool.callbacks_ok Pool.prefixed x.1 /\ Pool.grow_size x.1 = 0 /\ Pool.pfn_dtor x.1 = None /\ (length B <= 1)%nat /\
    (forall i, i ∈ Fl ++ Ol -> 0 < i) /\ F = objects Fl /\ O = objects Ol.

(** Taking from a pool that does not grow leaves the allocator alone. *)
Lemma pool_get_alloc (p : Pool.cl_qcpool_t A unit) (h : Pool.heap A unit) a :
  Pool.grow_size p = 0 ->
  Pool.cl_pool_get p (Pool.set_alloc h a) =
  (let '(o, p', h') := Pool.cl_pool_get p h in (o, p', Pool.set_alloc h' a)).
Proof.
  intros Hg. unfold Pool.cl_pool_get, Pool.cl_qcpool_get, Pool.refill. rewrite Hg.
  destruct (cl_is_qlist_empty (Pool.free_list p)).
  - rewrite decide_True by done. by rewrite decide_True.
  - cbn [Pool.h_links Pool.set_alloc]. destruct (cl_qlist_remove_head _ _) as [[item lk] fl]. by case_decide.
Qed.

Lemma holds_step (x : pool_mem) a0 p' h' Fl Ol B F O :
  Pool.same_pool x.1 p' -> Pool.callbacks_ok Pool.prefixed x.1 -> Pool.grow_size x.1 = 0 -> Pool.pfn_dtor x.1 = None ->
  Pool.pool_at Pool.prefixed (Pool.set_alloc h' a0) p' Fl Ol B -> (length B <= 1)%nat ->
  (forall i, i ∈ Fl ++ Ol -> 0 < i) -> F = objects Fl -> O = objects Ol -> pool_holds (of_heap p' h') F O.
Proof.
  intros Hs Hcb Hg Hd Hp HB Hpos -> ->. exists a0, Fl, Ol, B. pose proof Hs as (_ & _ & Eg & _ & Ed & _).
  split; [by destruct Hp; constructor|]. split; [by eapply Pool.callbacks_same|]. split_and!; try done; cbn; congruence.
Qed.

#[export] Program Instance pool_object_pool_laws : ObjectPoolLaws pool_mem A := {
  in_use (a : A) q := Pool.owned a q;
  pool_ready (x : pool_mem) a := Pool.provided (with_alloc x a) x.1;
  pool_is := pool_holds }.
Next Obligation.
  intros x F O (a0 & Fl & Ol & B & Hp & _ & _ & _ & _ & Hpos & -> & ->). split.
  - intros y H1%elem_objects H2%elem_objects. pose proof (Pool.pl_nodup _ _ _ _ _ _ Hp) as Hnd.
    unfold Pool.pool_addrs in Hnd. apply NoDup_cons in Hnd as [_ Hnd]. apply NoDup_cons in Hnd as [_ Hnd].
    apply NoDup_app in Hnd as (_ & Hd & _). apply (Hd _ H1). set_solver.
  - rewrite elem_of_union, !elem_objects. intros H. assert (0 < NULL - Pool.sizeof_pool_obj); [|unfold Pool.sizeof_pool_obj in *; lia].
    apply Hpos. by apply elem_of_app.
Qed.
Next Obligation. intros x a a' Hmono (H1 & H2 & H3). split; (split; [done|split; by apply Hmono]). Qed.
Next Obligation.
  intros x a n size Hr Hn Hsz. unfold op_init, pool_object_pool.
  assert (Hro : size + Pool.sizeof_pool_obj <= Pool.ROUNDUP (size + Pool.sizeof_pool_obj) Pool.sizeof_ptr < 2 ^ 17).
  { unfold Pool.ROUNDUP, Pool.sizeof_ptr, Pool.sizeof_pool_obj. pose proof (Z.div_mod (size + 24) 8).
    pose proof (Z.mod_pos_bound (size + 24) 8). rewrite wrap_small; case_decide; lia. }
  destruct (Pool.front_init_spec x.1 (with_alloc x a) n n size Hr) as (st & p & h & -> & _ & Hok); [lia|lia|lia| |].
  { unfold Pool.sizeof_list_item. nia. }
  cbn [mbind option_bind]. eexists _, _, _. split; [done|]. intros Hst.
  destruct (Hok Hst) as (F & B & Hp & HF & Hcb & Hg & Hd & HB & Hstarts & Hos & Hmono & Hfresh).
  destruct (Hfresh Hstarts) as (b & k & Hk & Hslots & Hbytes). rewrite Hos in *.
  assert (Hslot : forall i, i ∈ F -> exists j, 0 <= j < k /\ i = b + j * Pool.ROUNDUP (size + Pool.sizeof_pool_obj) Pool.sizeof_ptr)
    by exact Hslots. clear Hslots.
  exists (objects F). split; [|split; [|split; [|split; [exact Hmono|]]]].
  - exists (Pool.h_alloc h), F, [], B. split; [by destruct h as [? ? [] ?]|]. split_and!; try done.
    rewrite app_nil_r. intros i Hi. destruct (Hslot i Hi) as (j & Hj & ->). apply Hbytes. unfold Pool.sizeof_pool_obj in *. nia.
  - unfold objects. rewrite size_list_to_set, length_fmap; [done|]. apply NoDup_fmap_2; [intros ? ? ?; lia|].
    pose proof (Pool.pl_nodup _ _ _ _ _ _ Hp) as Hnd. unfold Pool.pool_addrs in Hnd. apply NoDup_cons in Hnd as [_ Hnd].
    apply NoDup_cons in Hnd as [_ Hnd]. by apply NoDup_app in Hnd as (? & _).
  - intros y z Hy%elem_objects Hz%elem_objects Hne. destruct (Hslot _ Hy) as (i & Hi & Ei), (Hslot _ Hz) as (j & Hj & Ej).
    unfold Pool.sizeof_pool_obj in *. assert (i <> j) by (intros ->; lia). nia.
  - intros y q Hy%elem_objects Hq. destruct (Hslot _ Hy) as (i & Hi & Ei). apply Hbytes.
    unfold object_bytes, Pool.sizeof_pool_obj in *. nia.
Qed.
Next Obligation.
  intros x a F O (a0 & Fl & Ol & B & Hp & Hcb & Hg & Hd & HB & Hpos & -> & ->). unfold op_get, pool_object_pool.
  change (with_alloc x a) with (Pool.set_alloc (with_alloc x a0) a). rewrite pool_get_alloc by done.
  unfold Pool.cl_pool_get, Pool.cl_qcpool_get, Pool.refill. rewrite (Pool.pool_free_empty _ _ _ _ _ _ Hp), Hg.
  destruct Fl as [|i Fl].
  - rewrite bool_decide_true, !decide_True by done. eexists NULL, _. split; [done|]. left. split; [done|]. split; [done|].
    eapply (holds_step x a0 x.1 (with_alloc x a)); [by repeat split|done..|exact Hp|done|done|done|done].
  - rewrite bool_decide_false by done. pose proof (Pool.pool_pop Pool.prefixed _ _ _ _ _ _ Hp) as Hpop.
    destruct (cl_qlist_remove_head _ _) as [[item lk] fl]. destruct Hpop as (-> & Hp1 & Hs1 & _).
    assert (Hi : i ∈ (i :: Fl) ++ Ol) by set_solver.
    rewrite decide_False by (intros ->; by apply (Pool.pl_null _ _ _ _ _ _ Hp)).
    assert (Ho : x.2.2 i = i + Pool.sizeof_pool_obj) by exact (Pool.pl_obj _ _ _ _ _ _ Hp i Hi).
    cbn [Pool.h_object Pool.set_links with_alloc]. rewrite Ho. eexists _, _. split; [done|]. right.
    split; [apply elem_objects; rewrite Z.add_simpl_r; by left|].
    pose proof (Pool.pl_nodup _ _ _ _ _ _ Hp) as Hnd. unfold Pool.pool_addrs in Hnd. apply NoDup_cons in Hnd as [_ Hnd].
    apply NoDup_cons in Hnd as [_ Hnd]. apply NoDup_app in Hnd as (Hnd & _). apply NoDup_cons in Hnd as [Hni _].
    eapply (holds_step x a0); [exact Hs1|done..|exact Hp1|done| | |].
    + intros j Hj. apply Hpos. set_solver.
    + apply set_eq. intros y. rewrite elem_of_difference, elem_of_singleton, !elem_objects, elem_of_cons.
      split; [intros [[?|?] ?]; [lia|done]|]. intros Hy. split; [by right|]. intros ->. by rewrite Z.add_simpl_r in Hy.
    + apply set_eq. intros y. rewrite elem_of_union, elem_of_singleton, !elem_objects, elem_of_cons.
      split; (intros [?|?]; [left; lia|by right]).
Qed.
Next Obligation.
  intros x a F O o (a0 & Fl & Ol & B & Hp & Hcb & Hg & Hd & HB & Hpos & -> & ->) Ho%elem_objects.
  unfold op_put, pool_object_pool, Pool.cl_pool_put. set (i := o - Pool.sizeof_pool_obj) in *.
  destruct (list_elem_of_split _ _ Ho) as (O1 & O2 & ->).
  pose proof (Pool.pool_put_spec Pool.prefixed _ _ _ _ _ _ _ Hp) as Hput. unfold Pool.cl_qcpool_put in *.
  cbn [Pool.h_links with_alloc] in *. destruct (cl_qlist_insert_head _ _ _) as [lk fl].
  destruct Hput as (Hp1 & Hs1 & _). eexists. split; [done|].
  pose proof (Pool.pl_nodup _ _ _ _ _ _ Hp) as Hnd. unfold Pool.pool_addrs in Hnd. apply NoDup_cons in Hnd as [_ Hnd].
  apply NoDup_cons in Hnd as [_ Hnd]. apply NoDup_app in Hnd as (_ & _ & Hnd). apply NoDup_app in Hnd as (Hnd & _).
  rewrite <- Permutation_middle in Hnd. apply NoDup_cons in Hnd as [Hni _].
  eapply (holds_step x a0); [exact Hs1|done..|exact Hp1|done| | |].
  - intros j Hj. apply Hpos. set_solver.
  - apply set_eq. intros y. rewrite elem_of_union, elem_of_singleton, !elem_objects, elem_of_cons. unfold i.
    split; (intros [?|?]; [left; lia|by right]).
  - apply set_eq. intros y. rewrite elem_of_difference, elem_of_singleton, !elem_objects, !elem_of_app, elem_of_cons.
    rewrite elem_of_app in Hni. split.
    + intros [[?|[?|?]] Hne]; [by left|unfold i in *; lia|by right].
    + intros Hy. split; [tauto|]. intros ->. by apply Hni.
Qed.
Next Obligation.
  intros x F O (a0 & Fl & Ol & B & Hp & _ & _ & _ & _ & _ & -> & _). unfold op_count, pool_object_pool.
  rewrite (Pool.pool_count_spec _ _ _ _ _ Hp). unfold objects. rewrite size_list_to_set, length_fmap; [done|].
  apply NoDup_fmap_2; [intros ? ? ?; lia|].
  pose proof (Pool.pl_nodup _ _ _ _ _ _ Hp) as Hnd. unfold Pool.pool_addrs in Hnd. apply NoDup_cons in Hnd as [_ Hnd].
  apply NoDup_cons in Hnd as [_ Hnd]. by apply NoDup_app in Hnd as (? & _).
Qed.
Next Obligation.
  intros x a F O (a0 & Fl & Ol & B & Hp & _ & _ & Hd & HB & _). unfold op_destroy, pool_object_pool, Pool.cl_pool_destroy.
  destruct (Pool.pool_destroy_spec Pool.prefixed (with_alloc x a0) (with_alloc x a) x.1 Fl Ol B (fun _ u => u) Hp) as
    (p' & h' & -> & _); [done|by unfold Pool.dtor_is; rewrite Hd|lia|].
  by eexists _, _.
Qed.
End PoolStorage.
#[export] Existing Instances pool_object_pool pool_object_pool_laws.
