(* ===== verification/UcDbProps.v ===== *)
(** * Properties of the database of MAC addresses

    Any sequence of operations on an initialised database gives the results of a
    finite map, traversal by filter selects exactly the matching records, and the
    database can be ended; a record whose VLAN is out of bounds is refused but
    stays.  The witnesses run the code on the quick map and the object pool of
    this library. *)

From S2P Require Import Prelude Qlist RbMap Storage FdbFilter FdbLists FdbFilterSpec FdbFilterOps UcDb UcDbSpec UcDbInit FdbStorage.
From S2P Require Pool.

Local Open Scope Z_scope.
Local Open Scope list_scope.

(** What the operations may be given: records within the bounds, on ports of a list. *)
Definition op_ok (ports : list Z) (o : fdb_op) : Prop :=
  match o with Add r => record_ok r /\ log_port (mac_params r) ∈ ports | _ => True end.

(** The records after a sequence of operations on an empty database. *)
Definition records_after (ops : list fdb_op) : records := snd (spec_run ops ∅).

Section Props.
Context {M P A : Type} {OM : OrderedMap M} {OML : OrderedMapLaws M} {OP : ObjectPool P A} {OPL : ObjectPoolLaws P A}
  {EL : EntryLayout}.
Implicit Types (s : fdb M P A).

Section Run.
Context (vend : nat -> ptr) (U1 U2 : gset ptr).
Context (Hlay : layout vend U1 U2) (Hnull : NULL ∉ U1) (Hcap1 : Z.of_nat (size U1) = MAX_FDB_ENTRIES)
  (Hcap : Z.of_nat (size U2) = MAX_FILTER_ENTRIES).
Context (ports : list Z) (Hports : Z.of_nat (length ports) <= MAX_PORT_ENTRIES).
Abbreviation rep := (fdb_rep vend U1 U2).

(** The database never holds more records than the pool has objects. *)
Lemma rep_bound s E O m : rep s E O m -> Z.of_nat (size m) <= MAX_FDB_ENTRIES.
Proof using Hcap1.
  intros H. destruct (fr_pool _ _ _ _ _ _ _ H) as (F & Hp & HU).
  pose proof (rep_free vend U1 U2 Hcap1 _ _ _ _ _ H Hp HU) as Hf. clear -Hf. lia.
Qed.

Lemma step_spec o s E O m :
  rep s E O m -> ports_in ports m -> op_ok ports o ->
  exists s' E' O', step o s = Some (fst (spec_step o m), s') /\ rep s' E' O' (snd (spec_step o m)) /\
    ports_in ports (snd (spec_step o m)).
Proof.
  intros H Hin Ho. destruct o as [r|k|k]; cbn [step].
  - destruct Ho as [Hr Hp]. assert (Hin' : ports_in ports (<[record_key r := r]> m)).
    { intros k q [[_ <-]|[_ Hq]]%lookup_insert_Some; [done|by apply (Hin k)]. }
    assert (Hadd : exists err m' s' E' O', fdb_uc_db_add_record (Some r) s = Some (err, s') /\ rep s' E' O' m' /\
      ports_in ports m' /\ spec_step (Add r) m = (err, None, m')).
    { cbn [spec_step]. destruct (E !! record_key r) as [a|] eqn:Ha.
      - destruct (add_old_spec vend U1 U2 Hlay Hnull Hcap1 Hcap s E O m r a ports H Hr Ha Hports Hin Hp) as (s' & E' & O' & -> & H').
        eexists _, _, s', E', O'. split_and!; [done..|]. rewrite decide_True; [done|]. left.
        rewrite (fr_records _ _ _ _ _ _ _ H), Ha. by eexists.
      - assert (Hk : m !! record_key r = None) by (by rewrite (fr_records _ _ _ _ _ _ _ H), Ha).
        destruct (decide (Z.of_nat (size m) < MAX_FDB_ENTRIES)) as [Hlt|Hge].
        + destruct (add_new_spec vend U1 U2 Hlay Hnull Hcap1 Hcap s E O m r ports H Hr Hk Hlt Hports Hin Hp) as (s' & E' & O' & -> & H').
          eexists _, _, s', E', O'. split_and!; [done..|]. rewrite decide_True; [done|]. by right.
        + pose proof (rep_bound _ _ _ _ H). destruct (add_full_spec vend U1 U2 Hlay Hnull Hcap1 Hcap s E O m r H Hk) as (s' & -> & H'); [lia|].
          eexists _, _, s', E, O. split_and!; [done..|]. rewrite decide_False; [done|]. rewrite Hk. intros [[? ?]|?]; [done|lia]. }
    destruct Hadd as (err & m' & s' & E' & O' & -> & H' & Hp' & ->). by exists s', E', O'.
  - cbn [spec_step]. rewrite (get_record_spec vend U1 U2 _ _ _ _ _ H), (fr_records _ _ _ _ _ _ _ H). cbn [mbind option_bind].
    destruct (E !! k) as [a|] eqn:Ha; cbn [fmap option_fmap option_map].
    + rewrite decide_False by lia. rewrite decide_True by eauto.
      destruct (delete_record_spec vend U1 U2 Hlay Hnull Hcap1 Hcap s E O m k a H Ha) as (s' & -> & H').
      eexists s', _, _. split; [done|]. split; [exact H'|]. cbn [snd].
      intros k' q [_ Hq]%lookup_delete_Some. by apply (Hin k').
    + rewrite decide_True by (unfold ENOENT; lia). rewrite decide_False by (by intros [? ?]). by exists s, E, O.
  - cbn [spec_step]. rewrite (get_record_spec vend U1 U2 _ _ _ _ _ H), (fr_records _ _ _ _ _ _ _ H). cbn [mbind option_bind].
    destruct (E !! k) as [a|] eqn:Ha; cbn [fmap option_fmap option_map].
    + rewrite decide_False by lia. by exists s, E, O.
    + rewrite decide_True by (unfold ENOENT; lia). by exists s, E, O.
Qed.

Lemma run_spec ops : forall s E O m,
  rep s E O m -> ports_in ports m -> Forall (op_ok ports) ops ->
  exists s' E' O', run ops s = Some (fst (spec_run ops m), s') /\ rep s' E' O' (snd (spec_run ops m)).
Proof.
  induction ops as [|o ops IH]; intros s E O m H Hin Hops; cbn [run spec_run]; [by exists s, E, O|].
  apply Forall_cons in Hops as [Ho Hops].
  destruct (step_spec o s E O m H Hin Ho) as (s1 & E1 & O1 & -> & H1 & Hin1).
  destruct (spec_step o m) as [x m1]. cbn [fst snd mbind option_bind] in *.
  destruct (IH s1 E1 O1 m1 H1 Hin1 Hops) as (s2 & E2 & O2 & -> & H2). destruct (spec_run ops m1) as [xs m2].
  by exists s2, E2, O2.
Qed.

(** A record on a VLAN out of bounds: it is entered before it is refused. *)
Lemma reject_spec s E O m r :
  rep s E O m -> Z.of_nat MAX_VLAN_ENTRIES <= vid (mac_params r) < 2 ^ 16 ->
  m !! record_key r = None -> Z.of_nat (size m) < MAX_FDB_ENTRIES ->
  exists a s1 s2,
    fdb_uc_db_add_record (Some r) s = Some (- EPERM, s1) /\
    fdb_uc_db_get_record_by_key (record_key r) s1 = Some (0, a) /\ data s1 a = r /\
    fdb_uc_db_delete_record a s1 = Some (- EPERM, s2) /\
    fdb_uc_db_get_record_by_key (record_key r) s2 = Some (0, a) /\
    fdb_uc_db_get_size s2 = (0, Z.of_nat (size m) + 1).
Proof.
  intros H Hv Hk Hsz. assert (HkE : E !! record_key r = None).
  { rewrite (fr_records _ _ _ _ _ _ _ H) in Hk. by destruct (E !! record_key r). }
  unfold fdb_uc_db_add_record. rewrite (fr_init _ _ _ _ _ _ _ H). cbn [negb]. fold (record_key r).
  rewrite (get_record_spec vend U1 U2 _ _ _ _ _ H), HkE. cbn [mbind option_bind]. rewrite decide_True by done.
  destruct (create_record_spec vend U1 U2 Hlay Hnull Hcap1 Hcap s E O m (record_key r) r H HkE Hsz) as (a & s1 & g & C & F & -> & Hrest).
  cbn [mbind option_bind set_record]. rewrite !decide_False by lia. cbv zeta in Hrest. set (s2 := set_data s1 a r) in *.
  destruct Hrest as (Hin & Hmap & _ & _ & HaU & HaO & Hda & _ & Hlists & Hf & _).
  assert (Ha0 : a <> NULL) by (intros ->; done).
  assert (Hadd : fdb_uc_db_filter_add_entry a s2 = Some (- EPERM, s2)).
  { unfold fdb_uc_db_filter_add_entry. rewrite (fa_init _ _ _ _ _ _ _ (proj1 Hf)), Hda. cbn [negb].
    rewrite decide_False by done. by rewrite decide_True by lia. }
  rewrite Hadd.
  assert (Hget : fdb_uc_db_get_record_by_key (record_key r) s2 = Some (0, a)).
  { unfold fdb_uc_db_get_record_by_key. rewrite Hin. cbn [negb]. rewrite (map_get_law _ _ _ Hmap), lookup_insert_eq.
    cbn [mbind option_bind default from_option id].
    destruct (map_item_law _ _ _ _ Hmap (lookup_insert_eq _ _ _)) as [Hn _]. by rewrite decide_True. }
  assert (Hnext : forall x, p_next (lists s2) (a + off x) = NULL).
  { intros x. rewrite Hlists. unfold clear_entry, zero_item. cbn [lists set_data set_lists set_vlans set_prev set_next p_next p_prev].
    pose proof layout_port. pose proof layout_vid_port.
    destruct x; cbn [off]; unfold upd; repeat case_decide; lia || done. }
  exists a, s2, s2. split_and!; try done.
  - unfold fdb_uc_db_delete_record. rewrite Hin. cbn [negb]. rewrite decide_False by done.
    unfold fdb_uc_db_filter_delete_entry. rewrite (fa_init _ _ _ _ _ _ _ (proj1 Hf)). cbn [negb].
    change off_vid_fltr with (off VidF). change off_port_fltr with (off PortF). rewrite Hnext.
    rewrite bool_decide_false by lia. cbn [andb mbind option_bind]. unfold delink_entry_from_fltr_list.
    rewrite (fa_init _ _ _ _ _ _ _ (proj1 Hf)), Hnext. cbn [negb]. rewrite (bool_decide_false (NULL <> NULL)) by lia. cbn [andb mbind option_bind].
    rewrite decide_True by (unfold EPERM; lia). cbn [mbind option_bind]. by rewrite decide_True by (unfold EPERM; lia).
  - unfold fdb_uc_db_get_size. rewrite Hin. cbn [negb]. destruct (rep_size _ _ _ _ _ _ _ H) as [_ HsE].
    unfold MAX_FDB_ENTRIES in Hsz.
    rewrite (map_count_law _ _ Hmap) by (rewrite map_size_insert_None by done; lia).
    rewrite map_size_insert_None, HsE, wrap_small by (done || lia). f_equal. lia.
Qed.
End Run.

(** The invariant holds after any sequence of operations from initialisation. *)
Lemma run_from_init ops ports s0 s :
  static_ok s0 -> fdb_uc_db_init s0 = Some (0, s) -> Z.of_nat (length ports) <= MAX_PORT_ENTRIES ->
  Forall (op_ok ports) ops ->
  exists vend U1 U2 s' E O, layout vend U1 U2 /\ NULL ∉ U1 /\ Z.of_nat (size U1) = MAX_FDB_ENTRIES /\
    Z.of_nat (size U2) = MAX_FILTER_ENTRIES /\
    run ops s = Some (fst (spec_run ops ∅), s') /\ fdb_rep vend U1 U2 s' E O (records_after ops).
Proof.
  intros Hs Hi Hports Hops. destruct (init_spec s0 Hs) as (err & s1 & Hrun & Hok). rewrite Hrun in Hi. injection Hi as -> ->.
  destruct (Hok eq_refl) as (U1 & U2 & Hlay & Hnull & Hc1 & Hc2 & H).
  destruct (run_spec (vend_of s0) U1 U2 Hlay Hnull Hc1 Hc2 ports Hports ops s ∅ ∅ ∅ H) as (s' & E & O & Hr & H');
    [by intros k r ?%lookup_empty_Some|done|].
  by exists (vend_of s0), U1, U2, s', E, O.
Qed.

(** ** Claims *)

(** C4. The database is a finite map: whatever sequence of additions, changes,
    deletions and lookups follows a successful initialisation, every call ends
    without touching memory out of bounds, and every status and every record
    returned is that of a map from MAC address and VLAN to records with room for
    49152, as long as the records are on at most 200 ports; the size reported is
    the number of records. *)
Theorem uc_db_run_refines ops ports s0 s :
  static_ok s0 -> fdb_uc_db_init s0 = Some (0, s) -> Z.of_nat (length ports) <= MAX_PORT_ENTRIES ->
  Forall (op_ok ports) ops ->
  exists s', run ops s = Some (fst (spec_run ops ∅), s') /\
    fdb_uc_db_get_size s' = (0, Z.of_nat (size (records_after ops))).
Proof.
  intros Hs Hi Hports Hops.
  destruct (run_from_init ops ports s0 s Hs Hi Hports Hops) as (vend & U1 & U2 & s' & E & O & _ & _ & Hc1 & _ & Hr & H).
  exists s'. split; [done|]. unfold fdb_uc_db_get_size. rewrite (fr_init _ _ _ _ _ _ _ H). cbn [negb].
  destruct (rep_size _ _ _ _ _ _ _ H) as [_ HsE]. pose proof (rep_bound vend U1 U2 Hc1 _ _ _ _ H) as Hb. unfold MAX_FDB_ENTRIES in Hb.
  rewrite (map_count_law _ _ (fr_map _ _ _ _ _ _ _ H)) by lia. rewrite HsE, wrap_small by lia. done.
Qed.

(** C5. Filters are exact: after any such sequence a traversal by VLAN, by port or
    by both, with the two functions of the database, ends and yields exactly the
    records that match, each once. *)
Theorem uc_db_filter_exact ops ports s0 s f fuel :
  static_ok s0 -> fdb_uc_db_init s0 = Some (0, s) -> Z.of_nat (length ports) <= MAX_PORT_ENTRIES ->
  Forall (op_ok ports) ops -> filter_ok f -> MAX_FDB_ENTRIES <= Z.of_nat fuel ->
  exists s' As, run ops s = Some (fst (spec_run ops ∅), s') /\ filter_entries fuel f s' = Some As /\
    NoDup (data s' <$> As) /\
    (forall r, r ∈ data s' <$> As <-> exists k, records_after ops !! k = Some r /\ filter_matches f (mac_params r)).
Proof.
  intros Hs Hi Hports Hops Hf Hfuel.
  destruct (run_from_init ops ports s0 s Hs Hi Hports Hops) as (vend & U1 & U2 & s' & E & O & Hlay & Hnull & Hc1 & Hc2 & Hr & H).
  destruct (fr_filters _ _ _ _ _ _ _ H) as (g & C & F & HF & Hl). exists s', (C (filter_list f)). split; [done|].
  split. { apply (filter_entries_spec vend U1 U2 Hlay Hnull Hc2 s' g C F f fuel HF Hf); unfold MAX_FDB_ENTRIES in *; lia. }
  assert (Hin : forall a, a ∈ C (filter_list f) <-> exists k, E !! k = Some a /\ filter_matches f (mac_params (data s' a))).
  { intros a. rewrite (Hl (filter_list f) a), (fr_items _ _ _ _ _ _ _ H a). split.
    - intros [[k Hk] Hm]. exists k. split; [done|]. destruct (fr_keys _ _ _ _ _ _ _ H k a Hk) as [_ [_ Hok]].
      by apply filter_list_matches in Hm.
    - intros (k & Hk & Hm). split; [eauto|]. destruct (fr_keys _ _ _ _ _ _ _ H k a Hk) as [_ [_ Hok]].
      by apply filter_list_matches. }
  split.
  - apply NoDup_fmap_2_strong; [|by eapply lists_nodup]. intros a b (k & Ha & _)%Hin (k' & Hb & _)%Hin Heq.
    destruct (fr_keys _ _ _ _ _ _ _ H k a Ha) as [Ka _], (fr_keys _ _ _ _ _ _ _ H k' b Hb) as [Kb _].
    assert (k = k') as <- by congruence. congruence.
  - intros r. rewrite list_elem_of_fmap. setoid_rewrite (fr_records _ _ _ _ _ _ _ H). split.
    + intros (a & -> & (k & Hk & Hm)%Hin). exists k. by rewrite Hk.
    + intros (k & Hk & Hm). destruct (E !! k) as [a|] eqn:Ha; [|done]. injection Hk as <-. exists a. split; [done|].
      apply Hin. by exists k.
Qed.

(** After any such sequence the database can be ended: the call ends, reports
    success and leaves both the database and its filters uninitialised. *)
Theorem uc_db_deinit_ends ops ports s0 s :
  static_ok s0 -> fdb_uc_db_init s0 = Some (0, s) -> Z.of_nat (length ports) <= MAX_PORT_ENTRIES ->
  Forall (op_ok ports) ops ->
  exists s1 s2, run ops s = Some (fst (spec_run ops ∅), s1) /\ fdb_uc_db_deinit s1 = Some (0, s2) /\
    fdb_initiated s2 = false /\ filters_initiated s2 = false.
Proof.
  intros Hs Hi Hports Hops.
  destruct (run_from_init ops ports s0 s Hs Hi Hports Hops) as (vend & U1 & U2 & s1 & E & O & _ & _ & Hc1 & Hc2 & Hr & H).
  destruct (deinit_spec vend U1 U2 s1 E O _ Hc1 Hc2 H) as (s2 & Hd & Hf1 & Hf2). by exists s1, s2.
Qed.

(** A record on a VLAN of 4096 or more is refused with EPERM after it was
    entered: it is found by its key and counted, and deleting it fails with EPERM
    and leaves it there. *)
Theorem uc_db_rejected_record_stays ops ports s0 s r :
  static_ok s0 -> fdb_uc_db_init s0 = Some (0, s) -> Z.of_nat (length ports) <= MAX_PORT_ENTRIES ->
  Forall (op_ok ports) ops ->
  Z.of_nat MAX_VLAN_ENTRIES <= vid (mac_params r) < 2 ^ 16 -> records_after ops !! record_key r = None ->
  Z.of_nat (size (records_after ops)) < MAX_FDB_ENTRIES ->
  exists s1 a s2 s3, run ops s = Some (fst (spec_run ops ∅), s1) /\
    fdb_uc_db_add_record (Some r) s1 = Some (- EPERM, s2) /\
    fdb_uc_db_get_record_by_key (record_key r) s2 = Some (0, a) /\ data s2 a = r /\
    fdb_uc_db_delete_record a s2 = Some (- EPERM, s3) /\
    fdb_uc_db_get_record_by_key (record_key r) s3 = Some (0, a) /\
    fdb_uc_db_get_size s3 = (0, Z.of_nat (size (records_after ops)) + 1).
Proof.
  intros Hs Hi Hports Hops Hv Hk Hsz.
  destruct (run_from_init ops ports s0 s Hs Hi Hports Hops) as (vend & U1 & U2 & s1 & E & O & Hlay & Hnull & Hc1 & Hc2 & Hr & H).
  destruct (reject_spec vend U1 U2 Hlay Hnull Hc1 Hc2 ports s1 E O _ r H Hv Hk Hsz) as (a & s2 & s3 & Hrest).
  by exists s1, a, s2, s3.
Qed.
End Props.

(** ** A database on the quick map and the object pool *)

#[local] Existing Instances Pool.bump_allocator Pool.bump_laws.

#[export] Program Instance demo_layout : EntryLayout := {
  sizeof_mac_entry := 144; off_vid_fltr := 96; off_port_fltr := 112; off_vid_port_fltr := 128 }.
Solve All Obligations with lia.

Definition demo_pool_mem (e : ptr) : pool_mem (A := Pool.bump) :=
  (Pool.QCPool 0 NULL [] [] 0 0 0 None None (QList e 0 CL_UNINITIALIZED) (QList (e + 16) 0 CL_UNINITIALIZED) CL_UNINITIALIZED,
   (links0, fun _ => NULL)).

Definition vlan_end (i : nat) : ptr := 10000 + 32 * Z.of_nat i.

(** The static data below address 200000, the allocator above it. *)
Definition demo_fdb : fdb qmap (pool_mem (A := Pool.bump)) Pool.bump :=
  Fdb false (QMap.qmem0, QMap 1000 1064 CL_UNINITIALIZED 0) (demo_pool_mem 2000)
    false (QMap.qmem0, QMap 3000 3064 CL_UNINITIALIZED 0) (demo_pool_mem 4000)
    ((fun i => QList (vlan_end i) 0 CL_UNINITIALIZED) <$> seq 0 MAX_VLAN_ENTRIES)
    links0 (fun _ => QList NULL 0 CL_UNINITIALIZED) (fun _ => data0) (Pool.Bump 200000 []).

Lemma demo_static : static_ok demo_fdb.
Proof.
  split; [done|done| | | | |].
  - split; (split; [done|split; cbn; lia]).
  - intros q Hq. cbn in *. rewrite !elem_of_cons, elem_of_nil in Hq. lia.
  - cbn [demo_fdb fdb_vlan_list]. by rewrite length_fmap, length_seq.
  - cbn [demo_fdb fdb_vlan_list]. rewrite <- list_fmap_compose. apply NoDup_fmap_2; [|apply NoDup_seq].
    intros i j Hij. unfold compose, vlan_end in Hij. cbn [ql_end] in Hij. lia.
  - cbn [demo_fdb fdb_vlan_list]. intros q (i & -> & Hi)%list_elem_of_fmap. apply elem_of_seq in Hi.
    unfold MAX_VLAN_ENTRIES in Hi. unfold vlan_end. cbn. lia.
Defined.

Definition demo_record (o v port : Z) : entry_data := EntryData (MacParams [2; 0; 0; 0; 0; o] v port 0) 0 0.

(** Three records, one of them moved from port 7 to port 9, and one deleted. *)
Definition demo_fdb_ops : list fdb_op :=
  [Add (demo_record 1 10 7); Add (demo_record 2 10 7); Add (demo_record 3 20 9); Lookup (record_key (demo_record 2 10 7));
   Add (demo_record 1 10 9); Delete (record_key (demo_record 2 10 7)); Delete (record_key (demo_record 2 10 7));
   Lookup (record_key (demo_record 1 10 9))].

Lemma demo_ops_ok : Forall (op_ok [7; 9]) demo_fdb_ops.
Proof.
  assert (Hr : forall o v port, 0 <= o < 256 -> 0 <= v < 4096 -> port = 7 \/ port = 9 -> op_ok [7; 9] (Add (demo_record o v port))).
  { intros o v port Ho Hv Hp. split; [|cbn; set_solver]. split; [split; [done|repeat constructor; lia]|].
    split; [exact Hv|]. cbn. unfold port_ok. lia. }
  unfold demo_fdb_ops. repeat (apply Forall_cons; split); try exact I; try (apply Hr; lia). by apply Forall_nil.
Defined.

Lemma demo_init_ok : fst <$> fdb_uc_db_init demo_fdb = Some 0.
Proof. vm_compute. reflexivity. Defined.

Definition demo_fdb1 : fdb qmap (pool_mem (A := Pool.bump)) Pool.bump :=
  match fdb_uc_db_init demo_fdb with Some (_, s) => s | None => demo_fdb end.

Lemma demo_init : fdb_uc_db_init demo_fdb = Some (0, demo_fdb1).
Proof.
  pose proof demo_init_ok as Hok. unfold demo_fdb1. destruct (fdb_uc_db_init demo_fdb) as [[err s]|]; [|done].
  injection Hok as ->. reflexivity.
Defined.

Lemma uc_db_run_refines_witness :
  exists s', run demo_fdb_ops demo_fdb1 =
      Some ([(0, None); (0, None); (0, None); (0, Some (demo_record 2 10 7)); (0, None); (0, None); (- ENOENT, None);
             (0, Some (demo_record 1 10 9))], s') /\
    fdb_uc_db_get_size s' = (0, 2).
Proof.
  destruct (uc_db_run_refines demo_fdb_ops [7; 9] demo_fdb demo_fdb1 demo_static demo_init ltac:(done) demo_ops_ok)
    as (s' & H1 & H2).
  assert (E1 : fst (spec_run demo_fdb_ops ∅) = [(0, None); (0, None); (0, None); (0, Some (demo_record 2 10 7)); (0, None);
    (0, None); (- ENOENT, None); (0, Some (demo_record 1 10 9))]) by (vm_compute; reflexivity).
  assert (E2 : Z.of_nat (size (records_after demo_fdb_ops)) = 2) by (vm_compute; reflexivity).
  rewrite E1 in H1. rewrite E2 in H2. exists s'. split; [exact H1|exact H2].
Defined.

Lemma uc_db_filter_exact_witness :
  let f := KeyFilter false 0 true 9 in
  exists s' As, run demo_fdb_ops demo_fdb1 = Some (fst (spec_run demo_fdb_ops ∅), s') /\
    filter_entries (Z.to_nat MAX_FDB_ENTRIES) f s' = Some As /\ NoDup (data s' <$> As) /\
    demo_record 1 10 9 ∈ data s' <$> As /\ demo_record 3 20 9 ∈ data s' <$> As.
Proof.
  intros f. assert (Hf : filter_ok f) by (split; [done|]; split; [intros _; unfold port_ok; cbn; lia|done]).
  assert (Hfuel : MAX_FDB_ENTRIES <= Z.of_nat (Z.to_nat MAX_FDB_ENTRIES)) by (rewrite Z2Nat.id; unfold MAX_FDB_ENTRIES; lia).
  destruct (uc_db_filter_exact demo_fdb_ops [7; 9] demo_fdb demo_fdb1 f (Z.to_nat MAX_FDB_ENTRIES) demo_static demo_init
    ltac:(done) demo_ops_ok Hf Hfuel) as (s' & As & H1 & H2 & H3 & H4).
  exists s', As. split; [exact H1|]. split; [exact H2|]. split; [exact H3|]. split; apply H4.
  - exists (record_key (demo_record 1 10 9)). split; [vm_compute; reflexivity|]. split; [discriminate|reflexivity].
  - exists (record_key (demo_record 3 20 9)). split; [vm_compute; reflexivity|]. split; [discriminate|reflexivity].
Defined.

Lemma uc_db_deinit_ends_witness :
  exists s1 s2, run demo_fdb_ops demo_fdb1 = Some (fst (spec_run demo_fdb_ops ∅), s1) /\
    fdb_uc_db_deinit s1 = Some (0, s2) /\ fdb_initiated s2 = false /\ filters_initiated s2 = false.
Proof. exact (uc_db_deinit_ends demo_fdb_ops [7; 9] demo_fdb demo_fdb1 demo_static demo_init ltac:(done) demo_ops_ok). Defined.

Lemma uc_db_rejected_record_stays_witness :
  let r := demo_record 4 5000 7 in
  exists s1 a s2 s3, run demo_fdb_ops demo_fdb1 = Some (fst (spec_run demo_fdb_ops ∅), s1) /\
    fdb_uc_db_add_record (Some r) s1 = Some (- EPERM, s2) /\
    fdb_uc_db_get_record_by_key (record_key r) s2 = Some (0, a) /\ data s2 a = r /\
    fdb_uc_db_delete_record a s2 = Some (- EPERM, s3) /\
    fdb_uc_db_get_record_by_key (record_key r) s3 = Some (0, a) /\
    fdb_uc_db_get_size s3 = (0, Z.of_nat (size (records_after demo_fdb_ops)) + 1).
Proof.
  exact (uc_db_rejected_record_stays demo_fdb_ops [7; 9] demo_fdb demo_fdb1 (demo_record 4 5000 7) demo_static demo_init
    ltac:(done) demo_ops_ok ltac:(vm_compute; split; [discriminate|reflexivity]) ltac:(vm_compute; reflexivity)
    ltac:(vm_compute; reflexivity)).
Defined.
