(* ===== verification/Comp.v ===== *)
(** * Computations on a state, and triples

    Code that keeps static variables is a function from the state to a result
    and the next state, or to no result.  A triple states that a computation,
    started in a state that satisfies the first assertion, has a result and that
    it satisfies the second. *)

From S2P Require Import Prelude.

Local Open Scope list_scope.

Definition comp (S A : Type) : Type := S -> option (A * S).

#[export] Instance comp_ret S : MRet (comp S) := fun _ a s => Some (a, s).
#[export] Instance comp_bind S : MBind (comp S) := fun _ _ k c s =>
  match c s with Some (a, s) => k a s | None => None end.

Section Comp.
Context {S : Type}.

Definition gets {A} (f : S -> A) : comp S A := fun s => Some (f s, s).
Definition modify (f : S -> S) : comp S unit := fun s => Some (tt, f s).
(** An access that has a result only inside its object. *)
Definition access {A} (o : option A) : comp S A := fun s =>
  match o with Some a => Some (a, s) | None => None end.

(** A loop over the elements of a list. *)
Fixpoint for_each {X} (f : X -> comp S unit) (l : list X) : comp S unit :=
  match l with [] => mret tt | x :: l => f x;; for_each f l end.

Definition triple {A} (P : S -> Prop) (c : comp S A) (Q : A -> S -> Prop) : Prop :=
  forall s, P s -> exists a s', c s = Some (a, s') /\ Q a s'.

Lemma triple_ret {A} (a : A) (Q : A -> S -> Prop) : triple (Q a) (mret a) Q.
Proof. intros s H. by exists a, s. Qed.

Lemma triple_bind {A B} P (c : comp S A) (k : A -> comp S B) Q R :
  triple P c Q -> (forall a, triple (Q a) (k a) R) -> triple P (c ≫= k) R.
Proof.
  intros H1 H2 s H. destruct (H1 s H) as (a & s' & E & HQ). destruct (H2 a s' HQ) as (b & s'' & E' & HR).
  exists b, s''. split; [|done]. cbv [mbind comp_bind]. by rewrite E.
Qed.

Lemma triple_conseq {A} P P' (c : comp S A) Q Q' :
  triple P' c Q' -> (forall s, P s -> P' s) -> (forall a s, Q' a s -> Q a s) -> triple P c Q.
Proof. intros H HP HQ s Hs. destruct (H s (HP s Hs)) as (a & s' & E & H'). exists a, s'. auto. Qed.

Lemma triple_gets {A} (f : S -> A) (P : S -> Prop) : triple P (gets f) (fun a s => P s /\ a = f s).
Proof. intros s H. by exists (f s), s. Qed.

Lemma triple_modify (f : S -> S) (Q : unit -> S -> Prop) : triple (fun s => Q tt (f s)) (modify f) Q.
Proof. intros s H. by exists tt, (f s). Qed.

Lemma triple_access {A} (o : option A) a (Q : A -> S -> Prop) : o = Some a -> triple (Q a) (access o) Q.
Proof. intros -> s H. by exists a, s. Qed.

Lemma triple_pure {A} (P : S -> Prop) (F : Prop) (c : comp S A) Q :
  (F -> triple P c Q) -> triple (fun s => P s /\ F) c Q.
Proof. intros H s [HP HF]. by apply H. Qed.

(** A computation that keeps an assertion, whatever its result. *)
Abbreviation preserves I c := (triple I c (fun _ => I)).

Lemma preserves_ret {A} I (a : A) : preserves I (mret a).
Proof. intros s H. by exists a, s. Qed.

Lemma preserves_gets {A} I (f : S -> A) : preserves I (gets f).
Proof. intros s H. by exists (f s), s. Qed.

Lemma preserves_modify (I : S -> Prop) (f : S -> S) : (forall s, I s -> I (f s)) -> preserves I (modify f).
Proof. intros Hf s H. exists tt, (f s). auto. Qed.

Lemma preserves_access {A} I (o : option A) : is_Some o -> preserves I (access o).
Proof. intros [a ->] s H. by exists a, s. Qed.

Lemma preserves_bind {A B} I (c : comp S A) (k : A -> comp S B) Q :
  preserves I c -> (forall a, triple I (k a) Q) -> triple I (c ≫= k) Q.
Proof. intros H1 H2. by apply (triple_bind _ _ _ (fun _ => I)). Qed.

(** A loop whose body keeps an assertion keeps it. *)
Lemma triple_for_each {X} (f : X -> comp S unit) (l : list X) (I : S -> Prop) :
  (forall x, x ∈ l -> triple I (f x) (fun _ => I)) -> triple I (for_each f l) (fun _ => I).
Proof.
  induction l as [|x l IH]; intros H; [intros st Hst; by exists tt, st|].
  apply (triple_bind _ _ _ (fun _ => I)); [apply H; by left|]. intros _. apply IH. intros y Hy. apply H. by right.
Qed.
End Comp.

Create HintDb triples.
#[export] Hint Resolve triple_ret triple_modify : triples.
