(* ===== verification/CommuSess.v ===== *)
(** * Communication library: sessions ([lib_commu.c])

    Initialisation, UDP sessions, TCP servers and TCP clients: the calls of the
    library that create and close sockets and threads and enter them in the
    connection database.  The operating system is a parameter: one type of
    calls, what each returns, and what it leaves in [errno] and behind its
    pointer arguments.  A call of the library is a computation on its static
    variables and the system; it has no result when its thread waits for a mutex
    it holds itself, or when it would leave an array.  What other threads do
    while a call waits for them is a parameter too. *)

From S2P Require Import Prelude CommuDb CommuNet Comp.
From stdpp Require Import strings.

Local Open Scope Z_scope.
Local Open Scope list_scope.

Definition EINTR : Z := 4.
Definition EKEYREJECTED : Z := 129.
Definition ENOMEM : Z := 12.
Definition EINPROGRESS : Z := 115.
Definition SOL_SOCKET : Z := 1.
Definition IPPROTO_IP : Z := 0.
Definition IPPROTO_TCP : Z := 6.
Definition SO_REUSEADDR : Z := 2.
Definition SO_SNDBUF : Z := 7.
Definition SO_RCVBUF : Z := 8.
Definition SO_KEEPALIVE : Z := 9.
Definition SO_PRIORITY : Z := 12.
Definition IP_TOS : Z := 1.
Definition TCP_KEEPIDLE : Z := 4.
Definition TCP_KEEPINTVL : Z := 5.
Definition TCP_KEEPCNT : Z := 6.
Definition O_NONBLOCK : Z := 2048.

Definition LCOMMU_VERBOSITY_LEVEL_NOTICE : Z := 3.
Definition PENDING_CONNECTIOS_SIZE : Z := 16.
Definition CLIENT_CONNECT_THREAD_PATH : string := "/tmp/lib_commu_client_connect".
Definition CONN_SERVER : Z := 0.
Definition CONN_CLIENT : Z := 1.
Definition CONN_TYPE_UDP_IP_UC : Z := 0.

(** ** Data *)

Record udp_params := UdpParams { type : Z; fields : ip_udp_params }.

(** A callback is the address of a function, 0 for none, and the data given back to it. *)
Record register_to_new_handle := Register { clbk_notify_func : Z; data : Z }.

Record timeval := Timeval { tv_sec : Z; tv_usec : Z }.

Record listener_thread_args := ListenerArgs {
  la_event_fd : Z; la_server_id : nat; la_thread_idx : nat; la_listener_fd : Z;
  la_clbk_st : register_to_new_handle; la_params : session_params }.

(** The time limit is [None] where [use_tval] is 0. *)
Record connect_thread_args := ConnectArgs {
  ca_client_fd : Z; ca_conn_info : connection_info; ca_clbk_st : register_to_new_handle;
  ca_tval : option timeval }.

(** ** The operating system *)

Inductive sock_domain := AF_INET | AF_UNIX.
Inductive sock_type := SOCK_STREAM | SOCK_DGRAM.
Inductive sockaddr := InetAddr (a : addr_info) | UnixAddr (path : string).
Inductive mutex := lock_listener_db_access | lock_tcp_session_db_access.
Inductive thread :=
| ListenerThread (args : listener_thread_args)
| ConnectThread (args : connect_thread_args).

Inductive call :=
| Socket (d : sock_domain) (t : sock_type)
| Setsockopt (fd level name value : Z)
| Bind (fd : Z) (a : sockaddr)
| Connect (fd : Z) (a : sockaddr)
| Listen (fd backlog : Z)
| Accept (fd : Z)
| Close (fd : Z)
| FcntlGetfl (fd : Z)
| FcntlSetfl (fd flags : Z)
| GetsockoptError (fd : Z)
| Getpeername (fd : Z)
| Getsockname (fd : Z)
| Select (n : Z) (reads writes : list Z) (timeout : option timeval)
| Sendto (fd value : Z) (a : sockaddr)
| Recvfrom (fd : Z)
| Unlink (path : string)
| Gettimeofday
| Srand (seed : Z)
| Rand
| Malloc
| MutexInit (m : mutex)
| MutexDestroy (m : mutex)
| MutexLock (m : mutex)
| MutexUnlock (m : mutex)
| AttrInit
| AttrSetdetachstate
| AttrDestroy
| ThreadCreate (t : thread).

(** What a call returns, and what it leaves: [errno], the integer, address or
    time stored through its pointers, and the descriptors a [select] leaves set.
    The mutex of the database and [getpeername] within it are as in [CommuDb]. *)
Class SessionOs (K : Type) := {
  sys : call -> K -> Z * K;
  errno : K -> Z;
  out_int : K -> Z;
  out_addr : K -> addr_info;
  out_time : K -> timeval;
  read_set : K -> Z -> bool;
  write_set : K -> Z -> bool;
  db_lock_ret : K -> Z;
  db_unlock_ret : K -> Z;
  peer_ret : K -> Z -> Z * Z }.

(** The static variables of the file, with the database, the system, and
    whether the two mutexes are held. *)
Record lib (K : Type) := Lib {
  l_db : db;
  l_os : K;
  g_lib_commu_init_done : bool;
  client_connect_exit_event_fd : Z;
  client_connect_thread_cnt : Z;
  listener_locked : bool;
  tcp_locked : bool;
  verbosity_level : Z;
  lib_commu_log_cb : Z }.
Arguments Lib {K} _ _ _ _ _ _ _ _ _.
Arguments l_db {K} _.
Arguments l_os {K} _.
Arguments g_lib_commu_init_done {K} _.
Arguments client_connect_exit_event_fd {K} _.
Arguments client_connect_thread_cnt {K} _.
Arguments listener_locked {K} _.
Arguments tcp_locked {K} _.
Arguments verbosity_level {K} _.
Arguments lib_commu_log_cb {K} _.

Definition set_threads (d : db) v : db :=
  Db (udp_handle_info d) (client_tcp_handle_info d) (server_tcp_handle_info d) (server_status_st d)
    v (event_fd d) (event_socket_path d) (db_locked d) (db_verbosity d).

Section Setters.
Context {K : Type}.
Implicit Types s : lib K.

Definition set_ldb s v : lib K := Lib v (l_os s) (g_lib_commu_init_done s) (client_connect_exit_event_fd s)
  (client_connect_thread_cnt s) (listener_locked s) (tcp_locked s) (verbosity_level s) (lib_commu_log_cb s).
Definition set_los s v : lib K := Lib (l_db s) v (g_lib_commu_init_done s) (client_connect_exit_event_fd s)
  (client_connect_thread_cnt s) (listener_locked s) (tcp_locked s) (verbosity_level s) (lib_commu_log_cb s).
Definition set_init s v : lib K := Lib (l_db s) (l_os s) v (client_connect_exit_event_fd s)
  (client_connect_thread_cnt s) (listener_locked s) (tcp_locked s) (verbosity_level s) (lib_commu_log_cb s).
Definition set_exit_fd s v : lib K := Lib (l_db s) (l_os s) (g_lib_commu_init_done s) v
  (client_connect_thread_cnt s) (listener_locked s) (tcp_locked s) (verbosity_level s) (lib_commu_log_cb s).
Definition set_cnt s v : lib K := Lib (l_db s) (l_os s) (g_lib_commu_init_done s) (client_connect_exit_event_fd s)
  v (listener_locked s) (tcp_locked s) (verbosity_level s) (lib_commu_log_cb s).
Definition set_held s m v : lib K :=
  Lib (l_db s) (l_os s) (g_lib_commu_init_done s) (client_connect_exit_event_fd s) (client_connect_thread_cnt s)
    (match m with lock_listener_db_access => v | _ => listener_locked s end)
    (match m with lock_tcp_session_db_access => v | _ => tcp_locked s end)
    (verbosity_level s) (lib_commu_log_cb s).
Definition set_level s v : lib K := Lib (l_db s) (l_os s) (g_lib_commu_init_done s) (client_connect_exit_event_fd s)
  (client_connect_thread_cnt s) (listener_locked s) (tcp_locked s) v (lib_commu_log_cb s).
Definition set_log_cb s v : lib K := Lib (l_db s) (l_os s) (g_lib_commu_init_done s) (client_connect_exit_event_fd s)
  (client_connect_thread_cnt s) (listener_locked s) (tcp_locked s) (verbosity_level s) v.
Definition held s m : bool :=
  match m with lock_listener_db_access => listener_locked s | lock_tcp_session_db_access => tcp_locked s end.
End Setters.

Declare Scope sess_scope.
Delimit Scope sess_scope with sess.
Open Scope sess_scope.

Section Sessions.
Context {K : Type} {OS : SessionOs K}.
Abbreviation M := (comp (lib K)).

(** ** Steps *)

Definition get {A} (f : lib K -> A) : M A := gets f.
Definition put (f : lib K -> lib K) : M unit := modify f.
Definition os (c : call) : M Z := fun s => let '(r, k) := sys c (l_os s) in Some (r, set_los s k).
Definition last_errno : M Z := get (fun s => errno (l_os s)).
Definition look {A} (f : K -> A) : M A := get (fun s => f (l_os s)).

(** A function of the database, given what its mutex calls will return. *)
Definition on_db {A} (c : Z -> Z -> CommuDb.M A) : M A := fun s =>
  match c (db_lock_ret (l_os s)) (db_unlock_ret (l_os s)) (l_db s) with
  | Some (a, d) => Some (a, set_ldb s d)
  | None => None
  end.

(** [lib_commu_bail_error]: leave with the error unless it is 0. *)
Definition bail_error (c k : M Z) : M Z := err ← c; if err =? 0 then k else mret err.

(** A system call that reports failure by a negative result and [errno]. *)
Definition check (c : call) (k : Z -> M Z) : M Z := r ← os c; if r <? 0 then last_errno else k r.

Definition when_ (b : bool) (c : M Z) : M unit := if b then c;; mret tt else mret tt.
End Sessions.

Notation "c ';?' k" := (bail_error c k) (at level 100, k at level 200, right associativity) : sess_scope.

Section Ops.
Context {K : Type} {OS : SessionOs K}.
Abbreviation M := (comp (lib K)).

Definition lock (m : mutex) : M Z :=
  h ← get (fun s => held s m);
  if (h : bool) then access None else
  r ← os (MutexLock m);
  if r =? 0 then put (fun s => set_held s m true);; mret 0 else mret r.
Definition unlock (m : mutex) : M Z :=
  r ← os (MutexUnlock m);
  if r =? 0 then put (fun s => set_held s m false);; mret 0 else mret r.

(** ** Sockets *)

Definition close_socket_wrapper (handle : Z) : M Z :=
  if decide (handle = INVALID_HANDLE_ID) then mret EINVAL
  else check (Close handle) (fun _ => mret 0).

(** The bail path of the calls that create a socket. *)
Definition close_on_error (err fd : Z) : M unit :=
  when_ (negb (err =? 0) && negb (bool_decide (fd = INVALID_HANDLE_ID))) (close_socket_wrapper fd).

Definition set_sock_buffer_size (sock_fd : Z) : M Z :=
  check (Setsockopt sock_fd 0 SO_RCVBUF MAX_JUMBO_TCP_PAYLOAD) (fun _ =>
  check (Setsockopt sock_fd 0 SO_SNDBUF MAX_JUMBO_TCP_PAYLOAD) (fun _ => mret 0)).

Definition set_sock_priority (sock_fd : Z) : M Z :=
  check (Setsockopt sock_fd SOL_SOCKET SO_PRIORITY 6) (fun _ =>
  check (Setsockopt sock_fd IPPROTO_IP IP_TOS 0xc0) (fun _ => mret 0)).

Definition set_sock_ka (sock_fd : Z) : M Z :=
  check (Setsockopt sock_fd IPPROTO_TCP TCP_KEEPCNT 3) (fun _ =>
  check (Setsockopt sock_fd IPPROTO_TCP TCP_KEEPIDLE 2) (fun _ =>
  check (Setsockopt sock_fd IPPROTO_TCP TCP_KEEPINTVL 1) (fun _ =>
  check (Setsockopt sock_fd SOL_SOCKET SO_KEEPALIVE 1) (fun _ => mret 0)))).

(** [rand() % UINT32_MAX]: the operand is unsigned. *)
Definition pseudo_random_uint32_get : M Z :=
  r ← os Rand; mret (u32 r mod (2 ^ 32 - 1)).

Definition pseudo_random_gen_uint32_init : M Z :=
  check Gettimeofday (fun _ =>
    t ← look out_time; os (Srand (u32 (tv_usec t * tv_sec t)));; mret 0).

(** ** Start and end of the library *)

Definition clear_threads : M unit :=
  put (fun s => set_ldb s (set_exit_events (set_threads (l_db s) (replicate NUM_OF_LISTENER_THREADS 0))
    (replicate NUM_OF_LISTENER_THREADS 0) (replicate NUM_OF_LISTENER_THREADS EmptyString))).

Definition lib_db_init : M Z :=
  clear_threads;; put (fun s => set_cnt s 0);; on_db (fun _ _ => lib_commu_db_init).
Definition lib_db_deinit : M Z :=
  clear_threads;; put (fun s => set_cnt s 0);; on_db (fun _ _ => lib_commu_db_deinit).

(** A fresh mutex is free. *)
Definition mutex_init (m : mutex) : M Z :=
  check (MutexInit m) (fun _ => put (fun s => set_held s m false);; mret 0).

(** A datagram socket at a path: the error, and the descriptor. *)
Definition event_socket (path : string) : M (Z * Z) :=
  fd ← os (Socket AF_UNIX SOCK_DGRAM);
  if fd <? 0 then e ← last_errno; mret (e, fd) else
  os (Unlink path);;
  e ← check (Bind fd (UnixAddr path)) (fun _ => mret 0);
  mret (e, fd).

Definition create_client_connect_event_socket : M Z :=
  '(e, fd) ← event_socket CLIENT_CONNECT_THREAD_PATH;
  put (fun s => set_exit_fd s fd);; mret e.

(** A datagram sent to a path over a socket of its own. *)
Definition send_event (path : string) (value : Z) : M Z :=
  send_event_fd ← os (Socket AF_UNIX SOCK_DGRAM);
  err ← (if send_event_fd <? 0 then last_errno
         else check (Sendto send_event_fd value (UnixAddr path)) (fun _ => mret 0));
  close_socket_wrapper send_event_fd;; mret err.

Definition exit_client_connect_threads : M Z := send_event CLIENT_CONNECT_THREAD_PATH 1.

Definition comm_lib_init (logging_cb : Z) : M Z :=
  when_ (negb (logging_cb =? 0)) (put (fun s => set_log_cb s logging_cb);; mret 0);;
  done ← get g_lib_commu_init_done;
  if (done : bool) then mret 0 else
  err ← (lib_db_init ;?
         mutex_init lock_listener_db_access ;?
         mutex_init lock_tcp_session_db_access ;?
         pseudo_random_gen_uint32_init ;?
         create_client_connect_event_socket ;?
         put (fun s => set_init s true);; mret 0);
  mret (- err).

(** A step of best effort: its error replaces the one before. *)
Definition best_effort (err : Z) (c : M Z) : M Z :=
  tmp_err ← c; mret (if tmp_err =? 0 then err else tmp_err).

(** [sleep(1)]: what the other threads do meanwhile. *)
Variable sleep : M unit.

Fixpoint wait_connect_threads (n : nat) : M unit :=
  match n with
  | O => fun _ => None
  | S n =>
      cnt ← get client_connect_thread_cnt;
      if cnt =? 0 then mret tt else sleep;; wait_connect_threads n
  end.

Definition comm_lib_deinit (n : nat) : M Z :=
  done ← get g_lib_commu_init_done;
  if negb done then mret (- EPERM) else
  put (fun s => set_init s false);;
  err ← best_effort 0 (os (MutexDestroy lock_listener_db_access));
  err ← best_effort err (os (MutexDestroy lock_tcp_session_db_access));
  cnt ← get client_connect_thread_cnt;
  err ← (if 0 <? cnt then best_effort err exit_client_connect_threads else mret err);
  wait_connect_threads n;;
  fd ← get client_connect_exit_event_fd;
  err ← (if decide (fd = INVALID_HANDLE_ID) then mret err else best_effort err (close_socket_wrapper fd));
  err ← best_effort err lib_db_deinit;
  mret (- err).

Definition comm_lib_verbosity_level_set (verbosity : Z) : M Z :=
  done ← get g_lib_commu_init_done;
  if negb done then mret (- EPERM) else
  if decide (LCOMMU_VERBOSITY_LEVEL_MIN < verbosity /\ verbosity <= LCOMMU_VERBOSITY_LEVEL_MAX) then
    put (fun s => set_level s verbosity);;
    err ← on_db (fun _ _ => comm_lib_db_verbosity_level_set verbosity);
    mret (- err)
  else mret (- EINVAL).

Definition comm_lib_verbosity_level_get (out_is_null : bool) : M (Z * option Z) :=
  done ← get g_lib_commu_init_done;
  if negb done then mret (- EPERM, None) else
  if out_is_null then mret (- EINVAL, None) else
  level ← get verbosity_level; mret (0, Some level).

(** ** UDP sessions *)

Definition udp_start_body (sockfd : Z) (params : udp_params) : M Z :=
  set_sock_priority sockfd ;?
  if negb (type params =? CONN_TYPE_UDP_IP_UC) then mret EKEYREJECTED else
  let p := ip_session_params (fields params) in
  (if connection_role (fields params) =? CONN_SERVER then
     check (Bind sockfd (InetAddr (AddrInfo (sp_s_ipv4_addr p) (sp_port p)))) (fun _ => mret 0)
   else mret 0) ;?
  magic ← pseudo_random_uint32_get;
  on_db (fun l u => lib_commu_db_udp_handle_info_set l u sockfd (fields params) magic).

(** Yields the result and what [*handle] becomes; a null pointer is [None]. *)
Definition comm_lib_udp_session_start (handle : option Z) (params : option udp_params) : M (Z * option Z) :=
  match handle, params with
  | Some _, Some params =>
      done ← get g_lib_commu_init_done;
      if negb done then mret (- EPERM, handle) else
      sockfd ← os (Socket AF_INET SOCK_DGRAM);
      err ← (if sockfd <? 0 then last_errno else udp_start_body sockfd params);
      close_on_error err sockfd;;
      mret (- err, Some (if err =? 0 then sockfd else 0))
  | _, _ => mret (- EINVAL, handle)
  end.

Definition comm_lib_udp_session_stop (handle : Z) : M Z :=
  done ← get g_lib_commu_init_done;
  if negb done then mret (- EPERM) else
  err ← (close_socket_wrapper handle ;?
         on_db (fun l u => lib_commu_db_udp_handle_info_delete l u handle));
  mret (- err).

(** ** TCP clients *)

Definition dest (conn_info : connection_info) : addr_info :=
  AddrInfo (d_ipv4_addr conn_info) (d_port conn_info).

Definition client_start_body (sock_fd : Z) (conn_info : connection_info) : M Z :=
  set_sock_buffer_size sock_fd ;?
  set_sock_priority sock_fd ;?
  set_sock_ka sock_fd ;?
  check (Connect sock_fd (InetAddr (dest conn_info))) (fun _ => mret 0) ;?
  magic ← pseudo_random_uint32_get;
  on_db (fun l u => lib_commu_db_tcp_client_handle_info_set l u sock_fd (msg_type conn_info)
    (AddrInfo 0 0) (dest conn_info) magic).

Definition comm_lib_tcp_client_blocking_start (conn_info : option connection_info)
    (client_handle : option Z) : M (Z * option Z) :=
  done ← get g_lib_commu_init_done;
  if negb done then mret (- EPERM, client_handle) else
  match client_handle, conn_info with
  | Some _, Some conn_info =>
      sock_fd ← os (Socket AF_INET SOCK_STREAM);
      err ← (if sock_fd <? 0 then last_errno else client_start_body sock_fd conn_info);
      close_on_error err sock_fd;;
      mret (- err, Some (if err =? 0 then sock_fd else 0))
  | _, _ => mret (- EINVAL, client_handle)
  end.

(** The part between the creation of the socket and the bail path: the error, and
    whether the attributes were initialised. *)
Definition connect_thread_start (sock_fd : Z) (conn_info : connection_info)
    (clbk_st : register_to_new_handle) (tval : option timeval) : M (Z * bool) :=
  err ← (set_sock_buffer_size sock_fd ;? set_sock_priority sock_fd);
  if negb (err =? 0) then mret (err, false) else
  args ← os Malloc;
  if args =? 0 then mret (EINVAL, false) else
  err ← os AttrInit;
  if negb (err =? 0) then mret (err, false) else
  err ← (os AttrSetdetachstate ;?
         os (ThreadCreate (ConnectThread (ConnectArgs sock_fd conn_info clbk_st tval))));
  mret (err, true).

Definition comm_lib_tcp_client_non_blocking_start (conn_info : option connection_info)
    (clbk_st : option register_to_new_handle) (tval : option timeval) : M Z :=
  done ← get g_lib_commu_init_done;
  if negb done then mret (- EPERM) else
  match conn_info, clbk_st with
  | Some conn_info, Some clbk_st =>
      sock_fd ← os (Socket AF_INET SOCK_STREAM);
      '(err, is_attr_init) ← (if sock_fd <? 0 then e ← last_errno; mret (e, false)
                              else connect_thread_start sock_fd conn_info clbk_st tval);
      close_on_error err sock_fd;;
      when_ is_attr_init (os AttrDestroy);;
      mret (- err)
  | _, _ => mret (- EINVAL)
  end.

Definition comm_lib_tcp_peer_stop (handle : Z) : M Z :=
  done ← get g_lib_commu_init_done;
  if negb done then mret (- EPERM) else
  err ← (close_socket_wrapper handle ;?
         on_db (fun l u => lib_commu_db_tcp_handle_info_delete l u handle));
  mret (- err).

(** ** TCP servers *)

Definition exit_path (idx : nat) : M string :=
  paths ← get (fun s => event_socket_path (l_db s)); access (paths !! idx).
Definition set_event_fd (idx : nat) (fd : Z) : M unit :=
  put (fun s => set_ldb s (set_exit_events (l_db s) (<[idx := fd]> (event_fd (l_db s)))
    (event_socket_path (l_db s)))).
Definition set_thread (idx : nat) (id : Z) : M unit :=
  put (fun s => set_ldb s (set_threads (l_db s) (<[idx := id]> (listener_threads (l_db s))))).

Definition create_server_event_socket (idx : nat) : M (Z * Z) :=
  path ← exit_path idx;
  '(e, fd) ← event_socket path;
  when_ (e =? 0) (set_event_fd idx fd;; mret 0);;
  mret (e, fd).

Definition exit_server_thread (idx : nat) : M Z :=
  path ← exit_path idx;
  send_event_fd ← os (Socket AF_UNIX SOCK_DGRAM);
  err ← (if send_event_fd <? 0 then last_errno else
         check (Sendto send_event_fd (Z.of_nat idx) (UnixAddr path)) (fun _ =>
         set_event_fd idx INVALID_HANDLE_ID;; mret 0));
  close_socket_wrapper send_event_fd;; mret err.

(** What is done under the mutex: the error, and what [*server_id] becomes. *)
Definition server_start_locked (listener : Z) (params : session_params)
    (clbk_st : register_to_new_handle) (server_id : Z) : M (Z * Z) :=
  found ← on_db (fun _ _ => lib_commu_db_unoccupied_listener_thread_get false);
  match found with
  | inl _ => close_socket_wrapper listener;; mret (ENOMEM, server_id)
  | inr idx =>
      '(err, event_fd) ← create_server_event_socket idx;
      if negb (err =? 0) then close_socket_wrapper listener;; mret (err, Z.of_nat idx) else
      args ← os Malloc;
      if args =? 0 then mret (EINVAL, Z.of_nat idx) else
      err ← os (ThreadCreate (ListenerThread (ListenerArgs event_fd idx idx listener clbk_st params)));
      if negb (err =? 0) then close_socket_wrapper listener;; mret (err, Z.of_nat idx) else
      id ← look out_int;
      set_thread idx id;;
      mret (0, Z.of_nat idx)
  end.

(** The end of a call that may hold the mutex of the sessions: on the bail path
    the result of the unlock is the result of the call. *)
Definition unlock_session (err : Z) : M Z :=
  if err =? 0 then
    e ← unlock lock_tcp_session_db_access;
    if e =? 0 then mret 0 else e ← unlock lock_tcp_session_db_access; mret (- e)
  else e ← unlock lock_tcp_session_db_access; mret (- e).

(** A listening socket bound to the address, closed when it cannot be. *)
Definition listener_socket (params : session_params) : M (Z * Z) :=
  listener ← os (Socket AF_INET SOCK_STREAM);
  if listener =? -1 then e ← last_errno; mret (e, listener) else
  r ← os (Setsockopt listener SOL_SOCKET SO_REUSEADDR 1);
  if r =? -1 then close_socket_wrapper listener;; e ← last_errno; mret (e, listener) else
  r ← os (Bind listener (InetAddr (AddrInfo (sp_s_ipv4_addr params) (sp_port params))));
  if r <? 0 then close_socket_wrapper listener;; e ← last_errno; mret (e, listener) else
  mret (0, listener).

Definition comm_lib_tcp_server_session_start (params : session_params)
    (clbk_st : option register_to_new_handle) (server_id : option Z) : M (Z * option Z) :=
  match clbk_st, server_id with
  | Some clbk, Some sid =>
      if clbk_notify_func clbk =? 0 then mret (- EINVAL, server_id) else
      done ← get g_lib_commu_init_done;
      if negb done then mret (- EPERM, server_id) else
      '(err, listener) ← listener_socket params;
      if negb (err =? 0) then mret (- err, server_id) else
      err ← lock lock_tcp_session_db_access;
      if negb (err =? 0) then mret (- err, server_id) else
      '(err, sid) ← server_start_locked listener params clbk sid;
      ret ← unlock_session err;
      mret (ret, Some sid)
  | _, _ => mret (- EINVAL, server_id)
  end.

(** Close the sockets of a server's clients and store their handles, from
    position [j] on, up to [len]. *)
Fixpoint close_clients (cs : list connection_status) (arr : list Z) (j len : nat) : M (Z * list Z) :=
  match cs with
  | [] => mret (0, arr)
  | c :: cs =>
      if decide (cs_handle c = INVALID_HANDLE_ID) then close_clients cs arr j len else
      err ← close_socket_wrapper (cs_handle c);
      if negb (err =? 0) then mret (err, arr) else
      if decide (j < len)%nat then
        access (arr !! j);; close_clients cs (<[j := cs_handle c]> arr) (S j) len
      else close_clients cs arr j len
  end.

(** [pthread_join] on a listener thread: what it and the others do until it
    ends, and the result. *)
Variable join : Z -> M Z.

Definition server_of (server_id : nat) : M server_status :=
  ss ← get (fun s => server_status_st (l_db s)); access (ss !! server_id).

(** From the mutex on. *)
Definition server_stop_locked (server_id : nat) (arr : list Z) (len : nat) : M (Z * list Z) :=
  set_thread server_id 0;;
  st ← server_of server_id;
  '(err, arr) ← close_clients (client_status st) arr 0 len;
  if negb (err =? 0) then mret (err, arr) else
  err ← on_db (fun _ _ => lib_commu_db_tcp_session_db_deinit server_id);
  mret (err, arr).

(** Yields the result and the array; its length may differ from the one given. *)
Definition comm_lib_tcp_server_session_stop (server_id : nat) (handle_array : option (list Z))
    (handle_array_len : nat) : M (Z * option (list Z)) :=
  done ← get g_lib_commu_init_done;
  if negb done then mret (- EPERM, handle_array) else
  match handle_array with
  | None => mret (- EINVAL, handle_array)
  | Some arr =>
      if decide (handle_array_len = 0%nat) then mret (- EINVAL, handle_array) else
      if decide (SERVER_STATUS_ARR_LENGTH <= server_id)%nat then mret (- EINVAL, handle_array) else
      gp ← look peer_ret;
      found ← on_db (fun _ _ => lib_commu_db_tcp_server_status_get gp false server_id);
      match found with
      | inl err => mret (- err, handle_array)
      | inr server_id =>
          st ← server_of server_id;
          if listener_status st =? HANDLE_STATUS_DOWN then mret (0, handle_array) else
          err ← exit_server_thread server_id;
          if negb (err =? 0) then mret (- err, handle_array) else
          ids ← get (fun s => listener_threads (l_db s)); id ← access (ids !! server_id);
          err ← join id;
          if negb (err =? 0) then mret (- err, handle_array) else
          err ← lock lock_tcp_session_db_access;
          if negb (err =? 0) then mret (- err, handle_array) else
          '(err, arr) ← server_stop_locked server_id arr handle_array_len;
          ret ← unlock_session err;
          mret (ret, Some arr)
      end
  end.

(** ** Status *)

Definition comm_lib_tcp_server_status_get (out_is_null : bool) (server_id : nat) : M (Z + nat) :=
  done ← get g_lib_commu_init_done;
  if negb done then mret (inl (- EPERM)) else
  if out_is_null then mret (inl (- EINVAL)) else
  gp ← look peer_ret;
  found ← on_db (fun _ _ => lib_commu_db_tcp_server_status_get gp false server_id);
  mret match found with inl err => inl (- err) | inr i => inr i end.

(** Yields the result and the structure; here the result is not negated. *)
Definition comm_lib_tcp_handle_status_get (connection_status : option connection_status)
    : M (Z * option CommuDb.connection_status) :=
  done ← get g_lib_commu_init_done;
  if negb done then mret (EPERM, connection_status) else
  match connection_status with
  | None => mret (EINVAL, None)
  | Some c =>
      if decide (cs_handle c = INVALID_HANDLE_ID) then mret (EINVAL, Some c) else
      err ← os (Getpeername (cs_handle c));
      e ← last_errno;
      if negb (err =? 0) && negb (e =? ENOTCONN) then mret (e, Some c) else
      peer ← (if err =? 0 then look out_addr else mret (AddrInfo 0 0));
      let with_peer l := ConnStatus (cs_handle c) HANDLE_STATUS_UP (ipv4_addr l) (port l)
                           (ipv4_addr peer) (CommuDb.port peer) in
      r ← os (Getsockname (cs_handle c));
      if r <? 0 then e ← last_errno; mret (e, Some (with_peer (AddrInfo (local_ipv4_addr c) (local_port c))))
      else local ← look out_addr; mret (err, Some (with_peer local))
  end.
End Ops.
