(* ===== verification/CommuThread.v ===== *)
(** * Communication library: threads ([lib_commu.c])

    The thread of a TCP server, which accepts connections and hands them to the
    client until it is told to end, and the thread that establishes a client's
    connection.  Each is what it does before its loop, one turn of the loop and
    the bail path, and the loop for a number of turns; a callback of the client
    may itself call the library.  Descriptors fit the sets of a [select]. *)

From S2P Require Import Prelude CommuDb Comp CommuSess.

Local Open Scope Z_scope.
Local Open Scope list_scope.

Section Threads.
Context {K : Type} {OS : SessionOs K}.
Abbreviation M := (comp (lib K)).

(** The callback at an address: handle, peer, data, result code. *)
Variable notify : Z -> Z -> addr_info -> Z -> Z -> M Z.

(** ** The thread of a server *)

(** The variables of the thread that outlive a turn. *)
Record listener_vars := ListenerVars { new_sock : Z; is_sock_sent_client : bool }.

(** A turn ends with the loop going on, or with the way out and its error. *)
Inductive flow := Loop (v : listener_vars) | Exit (err : Z) (v : listener_vars).

Definition listener_start (args : listener_thread_args) : M Z :=
  if la_listener_fd args =? 0 then mret EINVAL else
  check (Listen (la_listener_fd args) PENDING_CONNECTIOS_SIZE) (fun _ => mret 0) ;?
  on_db (fun _ _ => lib_commu_db_server_status_listener_set (la_server_id args)
    (la_listener_fd args) HANDLE_STATUS_UP).

(** Entering a connection under the mutex; the bail path frees the mutex. *)
Definition enter_connection (args : listener_thread_args) (sock : Z) (peer : addr_info) (magic : Z) : M Z :=
  lock lock_listener_db_access ;?
  err ← on_db (fun l u => listener_register l u (la_server_id args) sock (la_params args) peer magic);
  if negb (err =? 0) then unlock lock_listener_db_access;; mret err else
  err ← unlock lock_listener_db_access;
  if negb (err =? 0) then unlock lock_listener_db_access;; mret err else mret 0.

(** The error, and the socket accepted, -1 for none. *)
Definition accept_connection (args : listener_thread_args) : M (Z * Z) :=
  sock ← os (Accept (la_listener_fd args));
  peer ← look out_addr;
  if sock <? 0 then e ← last_errno; mret (e, sock) else
  err ← (set_sock_buffer_size sock ;?
         set_sock_priority sock ;?
         set_sock_ka sock ;?
         magic ← pseudo_random_uint32_get;
         enter_connection args sock peer magic ;?
         notify (clbk_notify_func (la_clbk_st args)) sock peer (data (la_clbk_st args)) 0);
  mret (err, sock).

(** The error, and whether the thread is to end. *)
Definition receive_exit (args : listener_thread_args) : M (Z * bool) :=
  n_bytes ← os (Recvfrom (la_event_fd args));
  if n_bytes <? 0 then e ← last_errno; mret (e, true) else
  id ← look out_int;
  if id =? Z.of_nat (la_server_id args) then
    err ← (close_socket_wrapper (la_listener_fd args) ;? close_socket_wrapper (la_event_fd args));
    mret (err, true)
  else mret (0, false).

(** The loop over the descriptors from [i] on, [n] of them. *)
Fixpoint scan_fds (args : listener_thread_args) (ready : Z -> bool) (n : nat) (i : Z) (v : listener_vars)
    : M flow :=
  match n with
  | O => mret (Loop v)
  | S n =>
      if negb (ready i) then scan_fds args ready n (i + 1) v
      else if i =? la_listener_fd args then
        '(err, sock) ← accept_connection args;
        if negb (err =? 0) then mret (Exit err (ListenerVars sock (is_sock_sent_client v)))
        else scan_fds args ready n (i + 1) (ListenerVars sock true)
      else if i =? la_event_fd args then
        '(err, ends) ← receive_exit args;
        if (ends : bool) then mret (Exit err v) else scan_fds args ready n (i + 1) v
      else scan_fds args ready n (i + 1) v
  end.

Definition fd_max_of (args : listener_thread_args) : Z := Z.max (la_listener_fd args) (la_event_fd args).

Definition listener_turn (args : listener_thread_args) (v : listener_vars) : M flow :=
  let v := ListenerVars (new_sock v) false in
  let fd_max := fd_max_of args in
  r ← os (Select (fd_max + 1) [la_listener_fd args; la_event_fd args] [] None);
  e ← last_errno;
  if (r <? 0) && negb (e =? EINTR) then mret (Exit e v) else
  ready ← look read_set;
  scan_fds args ready (Z.to_nat (fd_max + 1)) 0 v.

(** The turns until the way out, or [n] of them. *)
Fixpoint listener_loop (args : listener_thread_args) (n : nat) (v : listener_vars) : M flow :=
  match n with
  | O => mret (Loop v)
  | S n =>
      f ← listener_turn args v;
      match f with Loop v => listener_loop args n v | Exit err v => mret (Exit err v) end
  end.

(** The bail path; the mutex is free here. *)
Definition listener_bail (err : Z) (v : listener_vars) : M unit :=
  when_ (negb (err =? 0) && negb (is_sock_sent_client v) && negb (bool_decide (new_sock v = INVALID_HANDLE_ID)))
    (close_socket_wrapper (new_sock v)).

(** [Some] error when the thread has ended, [None] when it still runs after [n] turns. *)
Definition listener_main_thread (n : nat) (args : listener_thread_args) : M (option Z) :=
  let v := ListenerVars INVALID_HANDLE_ID false in
  err ← listener_start args;
  f ← (if err =? 0 then listener_loop args n v else mret (Exit err v));
  match f with
  | Loop _ => mret None
  | Exit err v => listener_bail err v;; mret (Some err)
  end.

(** ** The thread of a client's connection *)

(** The error, and whether the socket was given to the client. *)
Definition handle_new_non_blocking_client (client_fd def_flags : Z) (args : connect_thread_args)
    : M (Z * bool) :=
  if decide (client_fd = INVALID_HANDLE_ID) then mret (EPERM, false) else
  err ← (check (FcntlSetfl client_fd def_flags) (fun _ => mret 0) ;?
         magic ← pseudo_random_uint32_get;
         on_db (fun l u => lib_commu_db_tcp_client_handle_info_set l u client_fd (msg_type (ca_conn_info args))
           (AddrInfo 0 0) (dest (ca_conn_info args)) magic) ;?
         notify (clbk_notify_func (ca_clbk_st args)) client_fd (dest (ca_conn_info args))
           (data (ca_clbk_st args)) 0);
  mret (err, err =? 0).

(** What a pass over the descriptors decides: go on, or the way out with the
    error and whether the socket was given to the client. *)
Definition connect_flow : Type := option (Z * bool).

(** [err] is what the variable holds: the connection in progress has left -1. *)
Fixpoint scan_connect (args : connect_thread_args) (flags err : Z) (writes reads : Z -> bool)
    (n : nat) (i : Z) : M connect_flow :=
  let client_fd := ca_client_fd args in
  match n with
  | O => mret None
  | S n =>
      if writes i && (i =? client_fd) then
        r ← os (GetsockoptError i);
        if r <? 0 then e ← last_errno; mret (Some (e, false)) else
        so_err_val ← look out_int;
        if so_err_val =? 0 then
          '(err, sent) ← handle_new_non_blocking_client client_fd flags args; mret (Some (err, sent))
        else mret (Some (so_err_val, false))
      else
        exit_fd ← get client_connect_exit_event_fd;
        if negb (writes i) && reads i && (i =? exit_fd) then mret (Some (err, false))
        else scan_connect args flags err writes reads n (i + 1)
  end.

(** One turn, with the time limit as the [select] before has left it; yields the
    limit for the next. *)
Definition connect_turn (args : connect_thread_args) (flags err fd_max : Z) (tval : option timeval)
    : M (connect_flow * option timeval) :=
  exit_fd ← get client_connect_exit_event_fd;
  r ← os (Select (fd_max + 1) [exit_fd] [ca_client_fd args] tval);
  e ← last_errno;
  left ← look out_time;
  let tval := if tval then Some left else None in
  if (r <? 0) && negb (e =? EINTR) then mret (Some (e, false), tval) else
  writes ← look write_set; reads ← look read_set;
  f ← scan_connect args flags err writes reads (Z.to_nat (fd_max + 1)) 0;
  mret (f, tval).

Fixpoint connect_loop (args : connect_thread_args) (flags err fd_max : Z) (n : nat)
    (tval : option timeval) : M connect_flow :=
  match n with
  | O => mret None
  | S n =>
      '(f, tval) ← connect_turn args flags err fd_max tval;
      match f with Some r => mret (Some r) | None => connect_loop args flags err fd_max n tval end
  end.

(** Up to the bail path: non-blocking mode, the connection, the wait for it. *)
Definition connect_body (n : nat) (args : connect_thread_args) : M connect_flow :=
  let fd := ca_client_fd args in
  if fd =? 0 then mret (Some (EINVAL, false)) else
  flags ← os (FcntlGetfl fd);
  if flags <? 0 then e ← last_errno; mret (Some (e, false)) else
  r ← os (FcntlSetfl fd (Z.lor flags O_NONBLOCK));
  if r <? 0 then close_socket_wrapper fd;; e ← last_errno; mret (Some (e, false)) else
  err ← os (Connect fd (InetAddr (dest (ca_conn_info args))));
  if err <? 0 then
    e ← last_errno;
    if e =? EINPROGRESS then
      exit_fd ← get client_connect_exit_event_fd;
      connect_loop args flags err (Z.max fd exit_fd) n (ca_tval args)
    else mret (Some (e, false))
  else
    '(err, sent) ← handle_new_non_blocking_client fd flags args; mret (Some (err, sent)).

(** The bail path: on failure the socket is closed and the callback told. *)
Definition connect_bail (args : connect_thread_args) (err : Z) (sent : bool) : M unit :=
  (if negb (err =? 0) && negb (bool_decide (ca_client_fd args = INVALID_HANDLE_ID)) then
     when_ (negb sent) (close_socket_wrapper (ca_client_fd args));;
     notify (clbk_notify_func (ca_clbk_st args)) INVALID_HANDLE_ID (dest (ca_conn_info args))
       (data (ca_clbk_st args)) (- err);; mret tt
   else mret tt);;
  put (fun s => set_cnt s (u32 (client_connect_thread_cnt s - 1))).

(** [true] when the thread has ended, [false] when it still waits after [n] turns. *)
Definition client_connect_thread (n : nat) (args : connect_thread_args) : M bool :=
  put (fun s => set_cnt s (u32 (client_connect_thread_cnt s + 1)));;
  f ← connect_body n args;
  match f with
  | Some (err, sent) => connect_bail args err sent;; mret true
  | None => mret false
  end.
End Threads.
