(* ===== verification/CommuSessProps.v ===== *)
(** * Communication library: properties of sessions

    What the operating system promises about descriptors, as a class of laws;
    starting and stopping sessions as updates of sets of handles; servers. *)

From S2P Require Import Prelude CommuDb Comp CommuSess.
From stdpp Require Import strings.

Local Open Scope Z_scope.
Local Open Scope list_scope.

(** ** Laws of the system *)

Definition makes_fd (c : call) : bool :=
  match c with Socket _ _ | Accept _ => true | _ => false end.
Definition ends_fd (c : call) : bool := match c with Close _ => true | _ => false end.
(** Calls that return 0 or a positive error number. *)
Definition posix_error (c : call) : bool :=
  match c with
  | MutexInit _ | MutexDestroy _ | MutexLock _ | MutexUnlock _ | AttrInit | AttrSetdetachstate
  | AttrDestroy | ThreadCreate _ => true
  | _ => false
  end.

(** Descriptors: a new one is not open yet, a closed one is released whatever
    [close] returns, no other call opens or closes one.  A failing call leaves a
    positive [errno], which no call resets; locks of correct mutexes succeed. *)
Class SessionLaws (K : Type) {OS : SessionOs K} := {
  opened : K -> gset Z;
  new_fd_law c k r k' : makes_fd c = true -> sys c k = (r, k') ->
    r = -1 /\ opened k' = opened k \/ 0 <= r /\ r ∉ opened k /\ opened k' = {[r]} ∪ opened k;
  close_law fd k r k' : sys (Close fd) k = (r, k') -> r <= 0 /\ opened k' = opened k ∖ {[fd]};
  keep_law c k r k' : makes_fd c = false -> ends_fd c = false -> sys c k = (r, k') -> opened k' = opened k;
  errno_law c k r k' : sys c k = (r, k') -> r < 0 \/ 0 < errno k -> 0 < errno k';
  posix_law c k r k' : posix_error c = true -> sys c k = (r, k') -> 0 <= r;
  lock_law m k : (sys (MutexLock m) k).1 = 0 /\ (sys (MutexUnlock m) k).1 = 0;
  db_mutex_law k : db_lock_ret k = 0 /\ db_unlock_ret k = 0 }.

Section Laws.
Context {K : Type} {OS : SessionOs K} {L : SessionLaws K}.
Abbreviation M := (comp (lib K)).
Implicit Types s : lib K.

Definition fds s : gset Z := opened (l_os s).

(** Between calls both mutexes are free. *)
Record good s : Prop := Good {
  good_db : db_ok (l_db s);
  good_listener : listener_locked s = false;
  good_tcp : tcp_locked s = false }.

(** Only the system has moved on, with the same descriptors open. *)
Definition same s s' : Prop := s' = set_los s (l_os s') /\ fds s' = fds s.

(** A computation that yields an error number and leaves the rest as it is. *)
Definition quiet (c : M Z) : Prop :=
  forall s, exists r s', c s = Some (r, s') /\ 0 <= r /\ same s s'.

Lemma bind_some {A B} (c : M A) (k : A -> M B) s a s1 : c s = Some (a, s1) -> (c ≫= k) s = k a s1.
Proof. intros H. cbv [mbind comp_bind]. by rewrite H. Qed.

Lemma same_refl s : same s s.
Proof. by destruct s. Qed.

Lemma same_trans s1 s2 s3 : same s1 s2 -> same s2 s3 -> same s1 s3.
Proof. intros [H1 H1'] [H2 H2']. split; [|congruence]. rewrite H2, H1. done. Qed.

Lemma good_same s s' : same s s' -> good s -> good s'.
Proof. intros [-> _] []. by constructor. Qed.

Lemma sys_eq c s r k : sys c (l_os s) = (r, k) -> os c s = Some (r, set_los s k).
Proof. unfold os. by intros ->. Qed.

Lemma os_keep c s :
  makes_fd c = false -> ends_fd c = false -> exists r s', os c s = Some (r, s') /\ same s s' /\
    sys c (l_os s) = (r, l_os s').
Proof.
  intros Hm He. destruct (sys c (l_os s)) as [r k] eqn:E. exists r, (set_los s k).
  split_and!; [by apply sys_eq| |done]. split; [done|]. by apply (keep_law _ _ _ _ Hm He E).
Qed.

Lemma quiet_ret n : 0 <= n -> quiet (mret n).
Proof. intros H s. exists n, s. split_and!; [done..|apply same_refl]. Qed.

Lemma quiet_bind {A} (c : M A) (k : A -> M Z) (P : A -> Prop) :
  (forall s, exists a s', c s = Some (a, s') /\ P a /\ same s s') -> (forall a, P a -> quiet (k a)) ->
  quiet (c ≫= k).
Proof.
  intros Hc Hk s. destruct (Hc s) as (a & s1 & E & Ha & H1). destruct (Hk a Ha s1) as (r & s2 & E2 & Hr & H2).
  exists r, s2. split_and!; [|done|by eapply same_trans]. cbv [mbind comp_bind]. by rewrite E.
Qed.

Lemma quiet_check c k :
  makes_fd c = false -> ends_fd c = false -> (forall r, 0 <= r -> quiet (k r)) -> quiet (check c k).
Proof.
  intros Hm He Hk s. unfold check. cbv [mbind comp_bind].
  destruct (os_keep c s Hm He) as (r & s1 & E & H1 & Es). rewrite E.
  destruct (Z.ltb_spec r 0) as [Hr|Hr].
  - exists (errno (l_os s1)), s1. split_and!; [done| |done].
    pose proof (errno_law _ _ _ _ Es (or_introl Hr)). lia.
  - destruct (Hk r Hr s1) as (r2 & s2 & E2 & ? & ?). exists r2, s2. split_and!; [done..|]. by eapply same_trans.
Qed.

Lemma quiet_bail c k : quiet c -> quiet k -> quiet (bail_error c k).
Proof.
  intros Hc Hk. apply (quiet_bind _ _ (fun r => 0 <= r)); [done|]. intros err Herr.
  destruct (err =? 0); [done|by apply quiet_ret].
Qed.

Lemma quiet_posix c : makes_fd c = false -> ends_fd c = false -> posix_error c = true -> quiet (os c).
Proof.
  intros Hm He Hp s. destruct (os_keep c s Hm He) as (r & s' & E & Hs & Es).
  exists r, s'. split_and!; [done| |done]. by eapply posix_law.
Qed.

Lemma quiet_priority fd : quiet (set_sock_priority fd).
Proof. repeat (apply quiet_check; [done..|intros]). by apply quiet_ret. Qed.
Lemma quiet_buffer fd : quiet (set_sock_buffer_size fd).
Proof. repeat (apply quiet_check; [done..|intros]). by apply quiet_ret. Qed.
Lemma quiet_ka fd : quiet (set_sock_ka fd).
Proof. repeat (apply quiet_check; [done..|intros]). by apply quiet_ret. Qed.

(** The random numbers are never the invalid one. *)
Lemma random_result s :
  exists m s', pseudo_random_uint32_get s = Some (m, s') /\ 0 <= m < INVALID_MAGIC /\ same s s'.
Proof.
  destruct (os_keep Rand s) as (r & s' & E & Hs & _); [done..|].
  exists (u32 r mod (2 ^ 32 - 1)), s'. split_and!; [|apply Z.mod_pos_bound..|done]; try done.
  unfold pseudo_random_uint32_get. cbv [mbind comp_bind]. by rewrite E.
Qed.

Lemma on_db_eq {A} (c : Z -> Z -> CommuDb.M A) s a d :
  c 0 0 (l_db s) = Some (a, d) -> on_db c s = Some (a, set_ldb s d).
Proof. destruct (db_mutex_law (l_os s)) as [E1 E2]. unfold on_db. rewrite E1, E2. by intros ->. Qed.

(** A socket is made, or not. *)
Lemma socket_result c s :
  makes_fd c = true -> exists fd s', os c s = Some (fd, s') /\ s' = set_los s (l_os s') /\
    (fd = -1 /\ 0 < errno (l_os s') /\ fds s' = fds s \/
     0 <= fd /\ fd ∉ fds s /\ fds s' = {[fd]} ∪ fds s).
Proof.
  intros Hm. destruct (sys c (l_os s)) as [r k] eqn:E. exists r, (set_los s k).
  split_and!; [by apply sys_eq|done|].
  destruct (new_fd_law _ _ _ _ Hm E) as [[-> Hk]|(H1 & H2 & H3)]; [left|right]; split_and!; try done.
  eapply errno_law; [exact E|lia].
Qed.

(** Closing a descriptor: an error number, and the descriptor is released. *)
Lemma close_result fd s :
  fd <> INVALID_HANDLE_ID ->
  exists err s', close_socket_wrapper fd s = Some (err, s') /\ 0 <= err /\
    s' = set_los s (l_os s') /\ fds s' = fds s ∖ {[fd]} /\
    ((sys (Close fd) (l_os s)).1 = 0 -> err = 0).
Proof.
  intros Hfd. unfold close_socket_wrapper. rewrite decide_False by done.
  unfold check. cbv [mbind comp_bind]. destruct (sys (Close fd) (l_os s)) as [r k] eqn:E.
  rewrite (sys_eq _ _ _ _ E). destruct (close_law _ _ _ _ E) as [Hr Hk].
  destruct (Z.ltb_spec r 0) as [Hr'|Hr'].
  - exists (errno k), (set_los s k). pose proof (errno_law _ _ _ _ E (or_introl Hr')).
    split_and!; [done|lia|done|done|]. cbn. lia.
  - exists 0, (set_los s k). by split_and!.
Qed.

(** A socket bound to a path; a failure to bind leaves it open. *)
Lemma event_socket_result path s :
  exists e fd s', event_socket path s = Some ((e, fd), s') /\ 0 <= e /\ s' = set_los s (l_os s') /\
    (e <> 0 /\ (fds s' = fds s \/ fds s' = {[fd]} ∪ fds s) \/
     e = 0 /\ 0 <= fd /\ fd ∉ fds s /\ fds s' = {[fd]} ∪ fds s).
Proof.
  unfold event_socket.
  destruct (socket_result (Socket AF_UNIX SOCK_DGRAM) s) as (fd & s1 & E & Hs & Hfd); [done|].
  rewrite (bind_some _ _ _ _ _ E). destruct Hfd as [(-> & He & Hf)|(H0 & Hn & Hf)].
  { exists (errno (l_os s1)), (-1), s1. split_and!; [done|lia|done|]. left. split; [lia|by left]. }
  destruct (Z.ltb_spec fd 0); [lia|].
  destruct (os_keep (Unlink path) s1) as (u & s2 & E2 & [Hs2 Hf2] & _); [done..|].
  rewrite (bind_some _ _ _ _ _ E2).
  assert (Hq : quiet (check (Bind fd (UnixAddr path)) (fun _ => mret 0))).
  { apply quiet_check; [done..|]. intros. by apply quiet_ret. }
  destruct (Hq s2) as (e & s3 & E3 & He & Hs3 & Hf3). rewrite (bind_some _ _ _ _ _ E3).
  rewrite Hf2 in Hf3. rewrite Hf in Hf3.
  exists e, fd, s3. split_and!; [done|done|by rewrite Hs3, Hs2, Hs|].
  destruct (decide (e = 0)); [by right|left; by eauto].
Qed.

(** The bail path undoes the creation of the socket. *)
Lemma close_on_error_result err fd s s0 :
  0 <= err -> (fd = -1 /\ fds s = fds s0 /\ err <> 0 \/ 0 <= fd /\ fd ∉ fds s0 /\ fds s = {[fd]} ∪ fds s0) ->
  exists s', close_on_error err fd s = Some (tt, s') /\ s' = set_los s (l_os s') /\
    (err = 0 /\ s' = s \/ err <> 0 /\ fds s' = fds s0).
Proof.
  intros Herr Hfd. unfold close_on_error, when_.
  destruct (Z.eqb_spec err 0) as [->|Hne]; cbn [negb andb].
  { exists s. split_and!; [done|by destruct s|by left]. }
  destruct Hfd as [(-> & Hf & _)|(H0 & Hn & Hf)].
  { exists s. split_and!; [done|by destruct s|by right]. }
  rewrite bool_decide_eq_false_2 by (unfold INVALID_HANDLE_ID; lia). cbn [negb].
  destruct (close_result fd s) as (e & s' & E & _ & Hs & Hk & _); [unfold INVALID_HANDLE_ID; lia|].
  exists s'. split_and!; [|done|right; split; [done|]].
  - cbv [mbind comp_bind]. by rewrite E.
  - rewrite Hk, Hf. set_solver.
Qed.
End Laws.

(** ** Starting a session *)

Inductive kind := Udp | Tcp.
#[export] Instance kind_eq_dec : EqDecision kind.
Proof. solve_decision. Defined.

Inductive start := StartUdp (params : udp_params) | StartTcp (conn_info : connection_info).

Definition kind_of (c : start) : kind := match c with StartUdp _ => Udp | StartTcp _ => Tcp end.
Definition kind_type (k : kind) : db_type := match k with Udp => UDP_HANDLE_DB | Tcp => TCP_CLIENT_HANDLE_DB end.
Definition kind_table (k : kind) (d : db) : list handle_info :=
  match k with Udp => udp_handle_info d | Tcp => client_tcp_handle_info d end.

(** What is entered for a session, the state of the slot being kept. *)
Definition entry (c : start) (h magic st : Z) : handle_info :=
  match c with
  | StartUdp p =>
      let sp := ip_session_params (fields p) in
      new_entry h (sp_msg_type sp) (AddrInfo (sp_port sp) (sp_port sp)) (AddrInfo 0 0)
        (ip_is_single_peer (fields p)) magic st
  | StartTcp ci => new_entry h (msg_type ci) (AddrInfo 0 0) (dest ci) 1 magic st
  end.

Definition free_slot (t : list handle_info) : option nat := first_index (has_handle INVALID_HANDLE_ID) t.

(** A session is entered in the first free slot; in a full table it is not. *)
Definition entered (c : start) (d : db) (h magic : Z) : db :=
  match free_slot (kind_table (kind_of c) d) with
  | Some i => slot_set d (slot_of (kind_type (kind_of c)) 0 i)
      (entry c h magic (from_option (state ∘ socekt_info) 0 (kind_table (kind_of c) d !! i)))
  | None => d
  end.

Section Start.
Context {K : Type} {OS : SessionOs K} {L : SessionLaws K}.
Implicit Types s : lib K.

Definition start_body (c : start) (fd : Z) : comp (lib K) Z :=
  match c with StartUdp p => udp_start_body fd p | StartTcp ci => client_start_body fd ci end.
Definition start_session (c : start) (h0 : Z) : comp (lib K) (Z * option Z) :=
  match c with
  | StartUdp p => comm_lib_udp_session_start (Some h0) (Some p)
  | StartTcp ci => comm_lib_tcp_client_blocking_start (Some ci) (Some h0)
  end.

Lemma bail_quiet (c k : comp (lib K) Z) s (Q : Z -> lib K -> Prop) :
  quiet c -> (forall err s1, 0 < err -> same s s1 -> Q err s1) ->
  (forall s1, same s s1 -> exists err s', k s1 = Some (err, s') /\ Q err s') ->
  exists err s', (c ;? k) s = Some (err, s') /\ Q err s'.
Proof.
  intros Hc He Hk. destruct (Hc s) as (r & s1 & E & Hr & H1).
  unfold bail_error. cbv [mbind comp_bind]. rewrite E.
  destruct (Z.eqb_spec r 0) as [->|Hne]; [by apply Hk|].
  exists r, s1. split; [done|]. apply He; [lia|done].
Qed.

Lemma slot_of_kind k i : slot_of (kind_type k) INVALID_SERVER_ID i = slot_of (kind_type k) 0 i.
Proof. by destruct k. Qed.

(** The last step of both: the entry in the database. *)
Lemma enter_result c fd magic s :
  good s ->
  on_db (fun l u => match c with
    | StartUdp p => lib_commu_db_udp_handle_info_set l u fd (fields p) magic
    | StartTcp ci => lib_commu_db_tcp_client_handle_info_set l u fd (msg_type ci) (AddrInfo 0 0) (dest ci) magic
    end) s = Some (0, set_ldb s (entered c (l_db s) fd magic)).
Proof.
  intros [Hd _ _]. apply on_db_eq. pose proof (ok_unlocked _ Hd) as Hl.
  destruct c as [p|ci]; cbn [kind_of kind_table];
    [unfold lib_commu_db_udp_handle_info_set|unfold lib_commu_db_tcp_client_handle_info_set];
    (erewrite handle_info_set_result; [|done|done]); unfold entered, free_slot; cbn [kind_of kind_table];
    by destruct (first_index _ _).
Qed.

Definition body_post (c : start) (fd : Z) s (err : Z) s' : Prop :=
  0 <= err /\ (err <> 0 /\ same s s' \/
    err = 0 /\ fds s' = fds s /\
    exists magic, 0 <= magic < INVALID_MAGIC /\
      s' = set_ldb (set_los s (l_os s')) (entered c (l_db s) fd magic)).

Lemma body_post_same c fd s s1 err s' : same s s1 -> body_post c fd s1 err s' -> body_post c fd s err s'.
Proof.
  intros H1 [He [[Hne H2]|(-> & Hf & m & Hm & H2)]]; (split; [done|]); [left|right].
  - split; [done|]. by eapply same_trans.
  - destruct H1 as [H1 H1']. split_and!; [done|by rewrite Hf|]. exists m. split; [done|].
    rewrite H1 in H2. exact H2.
Qed.

Lemma start_body_result c fd s :
  good s -> exists err s', start_body c fd s = Some (err, s') /\ body_post c fd s err s'.
Proof.
  assert (Hfail : forall c fd s err s1, 0 < err -> same s s1 -> body_post c fd s err s1).
  { intros. split; [lia|]. left. split; [lia|done]. }
  assert (Hlast : forall c fd s, good s -> exists err s',
    (magic ← pseudo_random_uint32_get;
     on_db (fun l u => match c with
      | StartUdp p => lib_commu_db_udp_handle_info_set l u fd (fields p) magic
      | StartTcp ci => lib_commu_db_tcp_client_handle_info_set l u fd (msg_type ci) (AddrInfo 0 0) (dest ci) magic
      end)) s = Some (err, s') /\ body_post c fd s err s').
  { intros c' fd' s0 Hg. destruct (random_result s0) as (m & s1 & E & Hm & H1).
    cbv [mbind comp_bind]. rewrite E, enter_result by (by eapply good_same).
    do 2 eexists. split; [done|]. split; [done|]. right.
    destruct H1 as [H1 Hf]. split_and!; [done|exact Hf|]. exists m. split; [done|]. by rewrite H1. }
  assert (Hq : forall k c0 s0, quiet c0 -> good s0 ->
    (forall s1, good s1 -> exists err s', k s1 = Some (err, s') /\ body_post c fd s1 err s') ->
    exists err s', (c0 ;? k) s0 = Some (err, s') /\ body_post c fd s0 err s').
  { intros k c0 s0 Hc Hg Hk. apply bail_quiet; [done|eauto|]. intros s1 H1.
    destruct (Hk s1) as (err & s' & E & HP); [by eapply good_same|].
    exists err, s'. split; [done|]. by eapply body_post_same. }
  intros Hg. destruct c as [p|ci]; cbn [start_body].
  - unfold udp_start_body. apply Hq; [apply quiet_priority|done|]. intros s1 Hg1.
    destruct (type p =? _); cbn [negb].
    2:{ exists EKEYREJECTED, s1. split; [done|]. apply Hfail; [done|apply same_refl]. }
    apply Hq; [|done|intros s2 Hg2; by apply (Hlast (StartUdp p))].
    destruct (_ =? _); [apply quiet_check; [done..|]; intros|]; by apply quiet_ret.
  - unfold client_start_body. repeat (apply Hq; [|done|]; intros).
    + apply quiet_buffer.
    + apply quiet_priority.
    + apply quiet_ka.
    + apply quiet_check; [done..|]. intros. by apply quiet_ret.
    + by apply (Hlast (StartTcp ci)).
Qed.

(** The outcome of a start. *)
Definition started (c : start) (h : Z) s s' : Prop :=
  0 <= h /\ h ∉ fds s /\ fds s' = {[h]} ∪ fds s /\
  exists magic, 0 <= magic < INVALID_MAGIC /\
    s' = set_ldb (set_los s (l_os s')) (entered c (l_db s) h magic).

Lemma start_session_unfold c h0 s :
  g_lib_commu_init_done s = true ->
  start_session c h0 s =
  (fd ← os (Socket AF_INET (match c with StartUdp _ => SOCK_DGRAM | StartTcp _ => SOCK_STREAM end));
   err ← (if fd <? 0 then last_errno else start_body c fd);
   close_on_error err fd;;
   mret (- err, Some (if err =? 0 then fd else 0))) s.
Proof.
  intros Hi. destruct c; unfold start_session, comm_lib_udp_session_start, comm_lib_tcp_client_blocking_start;
    cbv [get gets mbind comp_bind mret comp_ret]; by rewrite Hi.
Qed.

Lemma start_session_result c h0 s :
  good s -> g_lib_commu_init_done s = true ->
  exists ret h s', start_session c h0 s = Some ((ret, Some h), s') /\
    (ret < 0 /\ h = 0 /\ same s s' \/ ret = 0 /\ started c h s s').
Proof.
  intros Hg Hi. rewrite start_session_unfold by done. cbv [mbind comp_bind].
  destruct (socket_result (Socket AF_INET (match c with StartUdp _ => SOCK_DGRAM | _ => SOCK_STREAM end)) s)
    as (fd & s1 & E1 & H1 & Hfd); [done|]. rewrite E1.
  assert (Hb : exists err s2, (if fd <? 0 then last_errno else start_body c fd) s1 = Some (err, s2) /\
    0 <= err /\ (fd = -1 /\ fds s2 = fds s /\ err <> 0 \/ 0 <= fd /\ fd ∉ fds s /\ fds s2 = {[fd]} ∪ fds s) /\
    (err <> 0 /\ s2 = set_los s (l_os s2) \/ err = 0 /\ started c fd s s2)).
  { destruct Hfd as [(-> & He & Hf)|(H0 & Hn & Hf)].
    - exists (errno (l_os s1)), s1. split_and!; [done|lia|left; split_and!; [done..|lia]|left; split; [lia|done]].
    - destruct (Z.ltb_spec fd 0) as [|_]; [lia|].
      assert (Hg1 : good s1) by (rewrite H1; by destruct Hg).
      destruct (start_body_result c fd s1 Hg1) as (err & s2 & E2 & Herr & Hp). exists err, s2.
      destruct Hp as [[Hne [H2 Hf2]]|(-> & Hf2 & m & Hm & H2)]; split_and!; try done.
      + right. split_and!; [done..|by rewrite Hf2].
      + left. split; [done|]. rewrite H2, H1. done.
      + right. split_and!; [done..|by rewrite Hf2].
      + right. split; [done|]. split_and!; [done..|by rewrite Hf2|]. exists m. split; [done|].
        rewrite H1 in H2. exact H2. }
  destruct Hb as (err & s2 & E2 & Herr & Hfd2 & Hres). rewrite E2.
  destruct (close_on_error_result err fd s2 s Herr Hfd2) as (s3 & E3 & H3 & Hc). rewrite E3.
  exists (- err), (if err =? 0 then fd else 0), s3. split; [done|].
  destruct Hc as [[-> ->]|[Hne Hf3]].
  - right. split; [done|]. destruct Hres as [[? _]|[_ ?]]; done.
  - left. destruct Hres as [[_ H2]|[? _]]; [|done].
    destruct (Z.eqb_spec err 0); [done|]. split_and!; [lia|done|]. split; [|done].
    rewrite H3, H2. done.
Qed.
End Start.

(** ** Sequences of starts and stops *)

(** The handles a table holds. *)
Definition handles (k : kind) (d : db) : list Z := used (handle <$> kind_table k d).

Definition other (k : kind) : kind := match k with Udp => Tcp | Tcp => Udp end.

Lemma kind_cases (k k' : kind) : k' = k \/ k' = other k.
Proof. destruct k, k'; auto. Qed.

Lemma kind_table_set k d i x :
  kind_table k (slot_set d (slot_of (kind_type k) 0 i) x) = <[i := x]> (kind_table k d) /\
  kind_table (other k) (slot_set d (slot_of (kind_type k) 0 i) x) = kind_table (other k) d /\
  server_status_st (slot_set d (slot_of (kind_type k) 0 i) x) = server_status_st d.
Proof. by destruct k. Qed.

Lemma length_kind_table k d : db_ok d -> length (kind_table k d) = 16%nat.
Proof. intros [_ Hu Hc _ _]. by destruct k. Qed.

Lemma free_slot_none k d :
  db_ok d -> free_slot (kind_table k d) = None <-> length (handles k d) = 16%nat.
Proof.
  intros Hd. unfold free_slot, handles. rewrite <- (length_kind_table k d Hd).
  rewrite <- (length_fmap handle (kind_table k d)), <- used_full, eq_None_not_Some.
  by rewrite has_handle_in.
Qed.

Lemma handle_entry c h m st : handle (entry c h m st) = h.
Proof. by destruct c. Qed.

Lemma db_ok_kind_set k d i x y :
  db_ok d -> kind_table k d !! i = Some x -> db_ok (slot_set d (slot_of (kind_type k) 0 i) y).
Proof. intros Hd Hx. destruct k; by eapply db_ok_slot_set. Qed.

(** What a start does to the tables. *)
Lemma entered_handles c d h m :
  db_ok d -> h <> INVALID_HANDLE_ID ->
  db_ok (entered c d h m) /\
  server_status_st (entered c d h m) = server_status_st d /\
  handles (other (kind_of c)) (entered c d h m) = handles (other (kind_of c)) d /\
  ((length (handles (kind_of c) d) < 16)%nat /\ handles (kind_of c) (entered c d h m) ≡ₚ h :: handles (kind_of c) d \/
   length (handles (kind_of c) d) = 16%nat /\ entered c d h m = d).
Proof.
  intros Hd Hh. unfold entered. destruct (free_slot _) as [i|] eqn:Hi.
  - pose proof Hi as (x & Hx & _)%first_index_lookup.
    edestruct (kind_table_set (kind_of c) d i) as (H1 & H2 & H3). split_and!.
    + by eapply db_ok_kind_set.
    + exact H3.
    + unfold handles. by rewrite H2.
    + left. split.
      * pose proof (length_used (handle <$> kind_table (kind_of c) d)) as Hle.
        rewrite length_fmap, length_kind_table in Hle by done. fold (handles (kind_of c) d) in Hle.
        assert (length (handles (kind_of c) d) <> 16%nat) by (rewrite <- free_slot_none, Hi; done). lia.
      * unfold handles. rewrite H1, list_fmap_insert, handle_entry. apply used_fill; [|done].
        by apply (empty_slot_key handle).
  - split_and!; try done. right. split; [|done]. by apply free_slot_none.
Qed.

(** A session is deleted from the first slot that holds its handle. *)
Definition removed (k : kind) (h : Z) (d : db) : db :=
  match first_index (has_handle h) (kind_table k d) with
  | Some i => slot_set d (slot_of (kind_type k) 0 i) unused_handle_info
  | None => d
  end.

Lemma removed_handles k d h :
  db_ok d -> h <> INVALID_HANDLE_ID ->
  db_ok (removed k h d) /\
  server_status_st (removed k h d) = server_status_st d /\
  handles (other k) (removed k h d) = handles (other k) d /\
  (h ∈ handles k d /\ h :: handles k (removed k h d) ≡ₚ handles k d \/
   h ∉ handles k d /\ removed k h d = d).
Proof.
  intros Hd Hh. unfold removed. destruct (first_index _ _) as [i|] eqn:Hi.
  - pose proof Hi as (x & Hx & _)%first_index_lookup.
    edestruct (kind_table_set k d i) as (H1 & H2 & H3). split_and!.
    + by eapply db_ok_kind_set.
    + exact H3.
    + unfold handles. by rewrite H2.
    + left. split.
      * apply elem_of_used. split; [done|]. apply has_handle_in. eauto.
      * unfold handles. rewrite H1, list_fmap_insert. apply used_clear; [|done].
        by apply (empty_slot_key handle).
  - split_and!; try done. right. split; [|done]. unfold handles. rewrite elem_of_used, <- has_handle_in, Hi.
    by intros [_ [? ?]].
Qed.

(** No server has clients. *)
Definition no_clients (d : db) : Prop := Forall (fun st => clients_num st = 0) (server_status_st d).

Lemma no_clients_find d h : no_clients d -> find_server d h = None.
Proof.
  intros Hn. destruct (find_server d h) as [s|] eqn:E; [|done].
  apply find_in_servers_some in E as (j & i & st & t & _ & Hst & _ & Hc & _).
  pose proof (Forall_lookup_1 _ _ _ _ Hn Hst) as H0. cbn in H0. lia.
Qed.

(** [close] succeeds on an open descriptor, and fails on another. *)
Class ReliableClose (K : Type) {OS : SessionOs K} {L : SessionLaws K} :=
  close_reliable fd k : (sys (Close fd) k).1 = 0 <-> fd ∈ opened k.

Section Stop.
Context {K : Type} {OS : SessionOs K} {L : SessionLaws K} {RC : ReliableClose K}.
Implicit Types s : lib K.

Definition stop_session (k : kind) (h : Z) : comp (lib K) Z :=
  match k with Udp => comm_lib_udp_session_stop h | Tcp => comm_lib_tcp_peer_stop h end.

(** What a stop of a handle that is not entered returns. *)
Definition unknown_result (k : kind) : Z := match k with Udp => - ENOKEY | Tcp => 0 end.

Lemma stop_unfold k h s :
  g_lib_commu_init_done s = true ->
  stop_session k h s =
  (err ← (close_socket_wrapper h ;?
          on_db (fun l u => match k with
            | Udp => lib_commu_db_udp_handle_info_delete l u h
            | Tcp => lib_commu_db_tcp_handle_info_delete l u h end));
   mret (- err)) s.
Proof.
  intros Hi. destruct k; unfold stop_session, comm_lib_udp_session_stop, comm_lib_tcp_peer_stop;
    cbv [get gets mbind comp_bind mret comp_ret]; by rewrite Hi.
Qed.

Lemma delete_result k h s :
  good s -> no_clients (l_db s) -> h <> INVALID_HANDLE_ID ->
  on_db (fun l u => match k with
    | Udp => lib_commu_db_udp_handle_info_delete l u h
    | Tcp => lib_commu_db_tcp_handle_info_delete l u h end) s =
  Some (if decide (h ∈ handles k (l_db s)) then 0 else - unknown_result k, set_ldb s (removed k h (l_db s))).
Proof.
  intros [Hd _ _] Hn Hh. apply on_db_eq. pose proof (ok_unlocked _ Hd) as Hl.
  assert (Hin : h ∈ handles k (l_db s) <-> is_Some (first_index (has_handle h) (kind_table k (l_db s)))).
  { unfold handles. rewrite elem_of_used, has_handle_in. naive_solver. }
  unfold removed. destruct k; cbn [kind_table] in *.
  - rewrite udp_delete_result by done. destruct (first_index _ _); case_decide as Hc; try done.
    + exfalso. apply Hc, Hin. eauto.
    + by apply Hin in Hc as [? ?].
  - rewrite tcp_delete_result by done. unfold tcp_deleted, find_client. rewrite no_clients_find by done.
    by destruct (first_index _ _), (decide _).
Qed.

Lemma stop_session_result k h s :
  good s -> g_lib_commu_init_done s = true -> no_clients (l_db s) -> INVALID_HANDLE_ID ∉ fds s ->
  exists ret s', stop_session k h s = Some (ret, s') /\
    (h ∉ fds s /\ ret < 0 /\ same s s' \/
     h ∈ fds s /\ ret = (if decide (h ∈ handles k (l_db s)) then 0 else unknown_result k) /\
     s' = set_ldb (set_los s (l_os s')) (removed k h (l_db s)) /\ fds s' = fds s ∖ {[h]}).
Proof.
  intros Hg Hi Hn Hinv. rewrite stop_unfold by done.
  destruct (decide (h = INVALID_HANDLE_ID)) as [->|Hh].
  { exists (- EINVAL), s. split; [done|]. left. split_and!; [done..|apply same_refl]. }
  destruct (close_result h s Hh) as (err & s1 & E & Herr & H1 & Hf & Hok).
  unfold bail_error. cbv [mbind comp_bind]. rewrite E.
  destruct (decide (h ∈ fds s)) as [Hin|Hin].
  - rewrite Hok by (by apply close_reliable). cbn [Z.eqb].
    rewrite delete_result; [| rewrite H1; by destruct Hg |by rewrite H1|done].
    do 2 eexists. split; [done|]. right. rewrite H1. cbn [l_db set_los].
    split_and!; [done|by case_decide; lia|done|]. rewrite <- Hf. done.
  - assert (err <> 0).
    { intros ->. apply Hin, close_reliable.
      destruct (sys (Close h) (l_os s)) as [r k0] eqn:Es. cbn.
      unfold close_socket_wrapper in E. rewrite decide_False in E by done.
      unfold check in E. cbv [mbind comp_bind] in E. rewrite (sys_eq _ _ _ _ Es) in E.
      destruct (close_law _ _ _ _ Es) as [Hr _]. destruct (Z.ltb_spec r 0) as [Hr'|]; [|lia].
      cbv [last_errno get gets] in E. injection E as E0 _.
      pose proof (errno_law _ _ _ _ Es (or_introl Hr')). cbn in *. lia. }
    destruct (Z.eqb_spec err 0); [done|]. do 2 eexists. split; [done|]. left.
    split_and!; [done|lia|]. split; [done|]. rewrite Hf. set_solver.
Qed.

(** *** The abstract view: the descriptors held, by what the library knows of them *)

Record sessions := Sessions { live : kind -> gset Z; others : gset Z }.

Definition all_fds (a : sessions) : gset Z := live a Udp ∪ live a Tcp ∪ others a.
Definition set_live (a : sessions) (k : kind) (X : gset Z) : sessions :=
  Sessions (fun k' => if decide (k' = k) then X else live a k') (others a).
Definition set_others (a : sessions) (X : gset Z) : sessions := Sessions (live a) X.

Inductive session_op := Start (c : start) | Stop (k : kind) (h : Z).

(** The results a sequence may give: a start fails and changes nothing, or gives
    a new descriptor, which is entered while there are fewer than 16 of its
    kind; a stop releases the descriptor and forgets the session. *)
Inductive abs_step (a : sessions) : session_op -> Z * Z -> sessions -> Prop :=
| step_start_fails c ret : ret < 0 -> abs_step a (Start c) (ret, 0) a
| step_start_enters c h :
    h ∉ all_fds a -> (size (live a (kind_of c)) < 16)%nat ->
    abs_step a (Start c) (0, h) (set_live a (kind_of c) ({[h]} ∪ live a (kind_of c)))
| step_start_full c h :
    h ∉ all_fds a -> size (live a (kind_of c)) = 16%nat ->
    abs_step a (Start c) (0, h) (set_others a ({[h]} ∪ others a))
| step_stop_live k h :
    h ∈ live a k -> abs_step a (Stop k h) (0, h) (set_live a k (live a k ∖ {[h]}))
| step_stop_other k h :
    h ∈ others a -> abs_step a (Stop k h) (unknown_result k, h) (set_others a (others a ∖ {[h]}))
| step_stop_closed k h ret :
    h ∉ all_fds a -> ret < 0 -> abs_step a (Stop k h) (ret, h) a.

Inductive abs_run (a : sessions) : list session_op -> list (Z * Z) -> sessions -> Prop :=
| run_nil : abs_run a [] [] a
| run_cons op ops out outs a1 a2 :
    abs_step a op out a1 -> abs_run a1 ops outs a2 -> abs_run a (op :: ops) (out :: outs) a2.

Definition run_op (op : session_op) : comp (lib K) (Z * Z) :=
  match op with
  | Start c => '(ret, h) ← start_session c 0; mret (ret, from_option id 0 h)
  | Stop k h => ret ← stop_session k h; mret (ret, h)
  end.

Record tracks (a : sessions) s : Prop := Tracks {
  tr_good : good s;
  tr_init : g_lib_commu_init_done s = true;
  tr_noclients : no_clients (l_db s);
  tr_handles k : handles k (l_db s) ≡ₚ elements (live a k);
  tr_fds : fds s = all_fds a;
  tr_invalid : INVALID_HANDLE_ID ∉ all_fds a;
  tr_disjoint : live a Udp ## live a Tcp /\ live a Udp ## others a /\ live a Tcp ## others a }.

Lemma tracks_same a s s' : same s s' -> tracks a s -> tracks a s'.
Proof. intros [H Hf] []. rewrite H in *. constructor; cbn; try done; [by destruct tr_good0|by rewrite Hf]. Qed.

Lemma size_handles a s k : tracks a s -> length (handles k (l_db s)) = size (live a k).
Proof. intros H. by rewrite (tr_handles _ _ H k). Qed.

Lemma live_all a k : live a k ⊆ all_fds a.
Proof. unfold all_fds. destruct k; set_solver. Qed.

Lemma all_set_live a k X :
  all_fds (set_live a k X) = X ∪ live a (other k) ∪ others a.
Proof. unfold all_fds, set_live. destruct k; cbn; set_solver. Qed.

Lemma all_split a k : all_fds a = live a k ∪ live a (other k) ∪ others a.
Proof. unfold all_fds. destruct k; cbn; set_solver. Qed.

Lemma disjoint_split a k :
  (live a Udp ## live a Tcp /\ live a Udp ## others a /\ live a Tcp ## others a) <->
  (live a k ## live a (other k) /\ live a k ## others a /\ live a (other k) ## others a).
Proof. destruct k; cbn; [done|]. set_solver. Qed.

(** The same with another set of sessions of one kind. *)
Lemma tracks_live a s s' k X d :
  tracks a s -> s' = set_ldb (set_los s (l_os s')) d -> db_ok d ->
  server_status_st d = server_status_st (l_db s) ->
  handles k d ≡ₚ elements X -> handles (other k) d = handles (other k) (l_db s) ->
  fds s' = X ∪ live a (other k) ∪ others a ->
  INVALID_HANDLE_ID ∉ X -> X ## live a (other k) -> X ## others a ->
  tracks (set_live a k X) s'.
Proof.
  intros [[Hg1 Hg2 Hg3] Hi Hn Hh Hf Hinv Hdis] Hs Hd Hss Hk Hk' Hf' HX H1 H2.
  pose proof (all_split a k) as Hall. pose proof (proj1 (disjoint_split a k) Hdis) as (D1 & D2 & D3).
  rewrite Hs. constructor; cbn.
  - by constructor.
  - done.
  - unfold no_clients. by rewrite Hss.
  - intros k'. destruct (kind_cases k k') as [-> | ->].
    + by rewrite decide_True by done.
    + rewrite decide_False by (by destruct k). by rewrite Hk', Hh.
  - rewrite all_set_live. exact Hf'.
  - rewrite all_set_live. rewrite Hall in Hinv. set_solver.
  - clear -D3 H1 H2. destruct k; cbn in *; repeat case_decide; try done; set_solver.
Qed.

Lemma start_refines a c s :
  tracks a s ->
  exists out s' a', run_op (Start c) s = Some (out, s') /\ abs_step a (Start c) out a' /\ tracks a' s'.
Proof.
  intros Ht. pose proof Ht as [Hg Hi Hn Hh Hf Hinv Hdis].
  destruct (start_session_result c 0 s Hg Hi) as (ret & h & s' & E & Hres).
  exists (ret, h), s'. unfold run_op. cbv [mbind comp_bind]. rewrite E.
  destruct Hres as [(Hr & -> & Hs)|(-> & H0 & Hnew & Hf' & m & _ & Hs)].
  { exists a. split_and!; [done|by constructor|by eapply tracks_same]. }
  assert (Hh0 : h <> INVALID_HANDLE_ID) by (unfold INVALID_HANDLE_ID; lia).
  rewrite Hf in Hnew, Hf'. rewrite (all_split a (kind_of c)) in Hnew, Hf', Hinv.
  destruct (entered_handles c (l_db s) h m (good_db _ Hg) Hh0) as (Hok & Hss & Hoth & Hcase).
  rewrite (size_handles a s _ Ht) in Hcase.
  pose proof (proj1 (disjoint_split a (kind_of c)) Hdis) as (D1 & D2 & D3).
  destruct Hcase as [[Hsz Hp]|[Hsz Hd]].
  - eexists. split_and!; [done|apply step_start_enters; [by rewrite (all_split a (kind_of c))|done]|].
    eapply tracks_live; [done|exact Hs|done|done| | | | | |].
    + rewrite Hp, Hh, elements_union_singleton by set_solver. done.
    + done.
    + rewrite Hf'. set_solver.
    + set_solver.
    + set_solver.
    + set_solver.
  - eexists. split_and!; [done|apply step_start_full; [by rewrite (all_split a (kind_of c))|done]|].
    rewrite Hd in Hs. rewrite Hs. constructor; try done.
    + by destruct Hg.
    + change (fds s' = all_fds (set_others a ({[h]} ∪ others a))). rewrite Hf', (all_split _ (kind_of c)). cbn [live others set_others]. clear. set_solver.
    + rewrite (all_split _ (kind_of c)). cbn [live others set_others]. clear -Hinv Hh0. set_solver.
    + apply (proj2 (disjoint_split (set_others a _) (kind_of c))). cbn [live others set_others]. clear -D1 D2 D3 Hnew; split_and!; set_solver.
Qed.

Lemma stop_refines a k h s :
  tracks a s -> h ∉ live a (other k) ->
  exists out s' a', run_op (Stop k h) s = Some (out, s') /\ abs_step a (Stop k h) out a' /\ tracks a' s'.
Proof.
  intros Ht Hk. pose proof Ht as [Hg Hi Hn Hh Hf Hinv Hdis].
  destruct (stop_session_result k h s Hg Hi Hn ltac:(by rewrite Hf)) as (ret & s' & E & Hres).
  exists (ret, h), s'. unfold run_op. cbv [mbind comp_bind]. rewrite E. rewrite Hf in Hres.
  destruct Hres as [(Hin & Hr & Hs)|(Hin & Hr & Hs & Hf')].
  { exists a. split_and!; [done|by constructor|by eapply tracks_same]. }
  assert (Hh0 : h <> INVALID_HANDLE_ID) by congruence.
  assert (Hmem : h ∈ handles k (l_db s) <-> h ∈ live a k).
  { rewrite (Hh k). apply elem_of_elements. }
  destruct (removed_handles k (l_db s) h (good_db _ Hg) Hh0) as (Hok & Hss & Hoth & Hcase).
  rewrite (all_split a k) in Hin, Hf', Hinv.
  pose proof (proj1 (disjoint_split a k) Hdis) as (D1 & D2 & D3).
  destruct Hcase as [[Hm Hp]|[Hm Hd]].
  - rewrite decide_True in Hr by done. subst ret. rewrite Hmem in Hm.
    eexists. split_and!; [done|by apply step_stop_live|].
    eapply tracks_live; [done|exact Hs|done|done| | | | | |].
    + apply (Permutation_cons_inv (a := h)). rewrite Hp, Hh.
      rewrite <- elements_union_singleton by set_solver. f_equiv.
      by rewrite <- union_difference_singleton_L.
    + done.
    + rewrite Hf'. set_solver.
    + set_solver.
    + set_solver.
    + set_solver.
  - rewrite decide_False in Hr by done. subst ret. rewrite Hmem in Hm.
    eexists. split_and!; [done|apply step_stop_other; set_solver|].
    rewrite Hd in Hs. rewrite Hs. constructor; try done.
    + by destruct Hg.
    + change (fds s' = all_fds (set_others a (others a ∖ {[h]}))). rewrite Hf', (all_split _ k). cbn [live others set_others]. clear -Hm Hk.
      rewrite !difference_union_distr_l_L, !(difference_disjoint_L _ {[h]}) by set_solver. done.
    + rewrite (all_split _ k). cbn [live others set_others]. clear -Hinv. set_solver.
    + apply (proj2 (disjoint_split (set_others a _) k)). cbn [live others set_others]. clear -D1 D2 D3; split_and!; set_solver.
Qed.
(** *** From initialisation on *)

(** What every step of the initialisation after the first keeps. *)
Definition fresh_lib (d : db) s : Prop :=
  l_db s = d /\ listener_locked s = false /\ tcp_locked s = false /\ INVALID_HANDLE_ID ∉ fds s.

Definition steps (P Q : lib K -> Prop) (c : comp (lib K) Z) : Prop :=
  forall s, P s -> exists r s', c s = Some (r, s') /\ 0 <= r /\ (r = 0 -> Q s').

Lemma steps_bail P Q R c k : steps P Q c -> steps Q R k -> steps P R (c ;? k).
Proof.
  intros Hc Hk s Hs. destruct (Hc s Hs) as (r & s1 & E & Hr & HQ). unfold bail_error.
  cbv [mbind comp_bind]. rewrite E. destruct (Z.eqb_spec r 0) as [->|Hne]; [by apply Hk, HQ|].
  exists r, s1. by split_and!.
Qed.

Lemma steps_quiet d c : quiet c -> steps (fresh_lib d) (fresh_lib d) c.
Proof.
  intros Hc s (H1 & H2 & H3 & H4). destruct (Hc s) as (r & s' & E & Hr & Hs & Hf).
  exists r, s'. split_and!; [done..|]. intros _. rewrite Hs.
  split_and!; [done..|]. rewrite <- Hf in H4. exact H4.
Qed.

Lemma steps_mutex_init d m : steps (fresh_lib d) (fresh_lib d) (mutex_init m).
Proof.
  intros s (H1 & H2 & H3 & H4). unfold mutex_init, check. cbv [mbind comp_bind].
  destruct (os_keep (MutexInit m) s) as (r & s' & E & [Hs Hf] & Es); [done..|]. rewrite E.
  pose proof (posix_law (MutexInit m) _ _ _ eq_refl Es) as Hr. destruct (Z.ltb_spec r 0); [lia|].
  do 2 eexists. split_and!; [done..|]. intros _. unfold fresh_lib, fds in *. rewrite Hs.
  destruct m; cbn; split_and!; by rewrite ?Hf.
Qed.

Lemma steps_connect_socket d : steps (fresh_lib d) (fresh_lib d) create_client_connect_event_socket.
Proof.
  intros s (H1 & H2 & H3 & H4). unfold create_client_connect_event_socket.
  destruct (event_socket_result CLIENT_CONNECT_THREAD_PATH s) as (e & fd & s1 & E & He & Hs & Hfd).
  rewrite (bind_some _ _ _ _ _ E). do 2 eexists. split_and!; [done..|]. intros ->.
  destruct Hfd as [[? _]|(_ & H0 & Hn & Hf)]; [done|].
  unfold fresh_lib, fds in *. rewrite Hs. cbn. split_and!; [done..|].
  rewrite Hf. unfold INVALID_HANDLE_ID in *. set_solver.
Qed.

Lemma quiet_seed : quiet pseudo_random_gen_uint32_init.
Proof.
  apply quiet_check; [done..|]. intros r _.
  apply (quiet_bind _ _ (fun _ => True)); [intros s; do 2 eexists; split_and!; [done..|apply same_refl]|].
  intros t _. apply (quiet_bind _ _ (fun _ => True)); [|intros; by apply quiet_ret].
  intros s. destruct (os_keep (Srand (u32 (tv_usec t * tv_sec t))) s) as (u & s' & E & H & _); [done..|].
  by exists u, s'.
Qed.

(** The program as it starts. *)
Definition start_lib (k : K) : lib K := Lib start_db k false INVALID_HANDLE_ID 0 false false LCOMMU_VERBOSITY_LEVEL_NOTICE 0.

Lemma lib_db_init_result :
  exists d, forall s, l_db s = start_db -> lib_db_init s = Some (0, set_ldb (set_cnt s 0) (fresh_db d)).
Proof.
  exists (set_exit_events (set_threads start_db (replicate NUM_OF_LISTENER_THREADS 0))
    (replicate NUM_OF_LISTENER_THREADS 0) (replicate NUM_OF_LISTENER_THREADS EmptyString)).
  intros s Hs. unfold lib_db_init, clear_threads. cbv [mbind comp_bind put modify]. rewrite Hs.
  erewrite on_db_eq; [|by apply init_result]. done.
Qed.

Lemma comm_lib_init_result cb k :
  INVALID_HANDLE_ID ∉ opened k ->
  exists ret s d, comm_lib_init cb (start_lib k) = Some (ret, s) /\ ret <= 0 /\
    (ret = 0 -> fresh_lib (fresh_db d) s /\ g_lib_commu_init_done s = true).
Proof.
  intros Hk. destruct lib_db_init_result as [d Hd].
  set (body := (mutex_init lock_listener_db_access ;?
    mutex_init lock_tcp_session_db_access ;?
    pseudo_random_gen_uint32_init ;?
    create_client_connect_event_socket ;?
    put (fun s => set_init s true);; mret 0)).
  assert (Hb : steps (fresh_lib (fresh_db d)) (fun s => fresh_lib (fresh_db d) s /\ g_lib_commu_init_done s = true) body).
  { unfold body. repeat (eapply steps_bail; [first
      [apply steps_mutex_init|apply steps_connect_socket|apply steps_quiet, quiet_seed]|]).
    intros s Hs. do 2 eexists. split_and!; [done..|]. intros _. split; [|done]. exact Hs. }
  assert (Hcb : exists s0, (when_ (negb (cb =? 0)) (put (fun s => set_log_cb s cb);; mret 0)) (start_lib k) = Some (tt, s0) /\
    l_db s0 = start_db /\ g_lib_commu_init_done s0 = false /\
    fresh_lib (fresh_db d) (set_ldb (set_cnt s0 0) (fresh_db d))).
  { destruct (negb (cb =? 0)); (eexists; split; [reflexivity|]); by repeat split. }
  destruct Hcb as (s0 & E0 & Hdb0 & Hi0 & Hf). specialize (Hd s0 Hdb0). destruct (Hb _ Hf) as (r & s & E & Hr & HQ).
  exists (- r), s, d. split_and!; [|lia|intros; apply HQ; lia].
  unfold comm_lib_init. rewrite (bind_some _ _ _ _ _ E0).
  rewrite (bind_some _ _ s0 _ s0 eq_refl), Hi0.
  erewrite bind_some; [done|]. unfold bail_error at 1. rewrite (bind_some _ _ _ _ _ Hd). exact E.
Qed.

Fixpoint run_sessions (ops : list session_op) : comp (lib K) (list (Z * Z)) :=
  match ops with
  | [] => mret []
  | op :: ops => out ← run_op op; outs ← run_sessions ops; mret (out :: outs)
  end.

(** A client does not stop a session by the call for the other kind. *)
Fixpoint well_used (a : sessions) (ops : list session_op) : Prop :=
  match ops with
  | [] => True
  | op :: ops =>
      match op with Stop k h => h ∉ live a (other k) | Start _ => True end /\
      forall out a', abs_step a op out a' -> well_used a' ops
  end.

Lemma run_sessions_refines a ops s :
  tracks a s -> well_used a ops ->
  exists outs s' a', run_sessions ops s = Some (outs, s') /\ abs_run a ops outs a' /\ tracks a' s'.
Proof.
  revert a s. induction ops as [|op ops IH]; intros a s Ht Hw.
  { exists [], s, a. split_and!; [done|constructor|done]. }
  destruct Hw as [Hop Hw].
  assert (exists out s' a', run_op op s = Some (out, s') /\ abs_step a op out a' /\ tracks a' s')
    as (out & s1 & a1 & E1 & H1 & Ht1) by (destruct op; [by apply start_refines|by apply stop_refines]).
  destruct (IH a1 s1 Ht1 (Hw _ _ H1)) as (outs & s2 & a2 & E2 & H2 & Ht2).
  exists (out :: outs), s2, a2. split_and!; [|by econstructor|done].
  cbn [run_sessions]. cbv [mbind comp_bind]. by rewrite E1, E2.
Qed.

Lemma fresh_tracks d s :
  fresh_lib (fresh_db d) s -> g_lib_commu_init_done s = true ->
  tracks (Sessions (fun _ => ∅) (fds s)) s.
Proof.
  intros (Hd & Hl & Ht & Hi) Hinit. constructor; rewrite ?Hd; try done.
  - constructor; [rewrite Hd; apply fresh_db_ok|done..].
  - by apply Forall_replicate.
  - intros k. by destruct k.
  - unfold all_fds. cbn. set_solver.
  - unfold all_fds. cbn [live others]. set_solver.
Qed.

(** After an initialisation that succeeds, any sequence of starts and stops
    of sessions gives results of the abstract view: a start either fails and
    leaves every descriptor and session as it was, or opens one new descriptor,
    entered while there are fewer than sixteen of its kind; a stop releases the
    descriptor of a session and forgets it.  At every end the tables hold
    exactly the sessions known and the open descriptors are theirs and those of
    others. *)
Theorem session_run_refines cb k ops :
  INVALID_HANDLE_ID ∉ opened k ->
  exists ret s, comm_lib_init cb (start_lib k) = Some (ret, s) /\ ret <= 0 /\
    (ret = 0 -> let a := Sessions (fun _ => ∅) (fds s) in
      well_used a ops ->
      exists outs s' a', run_sessions ops s = Some (outs, s') /\ abs_run a ops outs a' /\ tracks a' s').
Proof.
  intros Hk. destruct (comm_lib_init_result cb k Hk) as (ret & s & d & E & Hr & Hok).
  exists ret, s. split_and!; [done..|]. intros H0 a Hw. destruct (Hok H0) as [Hf Hi].
  apply run_sessions_refines; [by eapply fresh_tracks|done].
Qed.
End Stop.
