(* ===== verification/CommuServer.v ===== *)
(** * Communication library: properties of TCP servers and their threads *)

From S2P Require Import Prelude CommuDb Comp CommuSess CommuThread CommuSessProps.
From stdpp Require Import strings.

Local Open Scope Z_scope.
Local Open Scope list_scope.

Section Servers.
Context {K : Type} {OS : SessionOs K} {L : SessionLaws K}.
Implicit Types s : lib K.

(** ** Mutexes *)

Lemma lock_result m s :
  held s m = false -> exists k, lock m s = Some (0, set_held (set_los s k) m true) /\ opened k = fds s.
Proof.
  intros Hh. destruct (os_keep (MutexLock m) s) as (r & s' & E & [Hs Hf] & Es); [done..|].
  pose proof (proj1 (lock_law m (l_os s))) as Hr. rewrite Es in Hr. cbn in Hr. subst r.
  exists (l_os s'). split; [|done]. unfold lock. rewrite (bind_some _ _ s _ s eq_refl), Hh.
  rewrite (bind_some _ _ _ _ _ E). cbn [Z.eqb]. rewrite Hs. done.
Qed.

Lemma unlock_result m s :
  exists k, unlock m s = Some (0, set_held (set_los s k) m false) /\ opened k = fds s.
Proof.
  destruct (os_keep (MutexUnlock m) s) as (r & s' & E & [Hs Hf] & Es); [done..|].
  pose proof (proj2 (lock_law m (l_os s))) as Hr. rewrite Es in Hr. cbn in Hr. subst r.
  exists (l_os s'). split; [|done]. unfold unlock.
  rewrite (bind_some _ _ _ _ _ E). cbn [Z.eqb]. rewrite Hs. done.
Qed.

(** Whatever the error, the result under the mutex is that of the unlock. *)
Lemma unlock_session_result err s :
  exists k, unlock_session err s = Some (0, set_held (set_los s k) lock_tcp_session_db_access false) /\ opened k = fds s.
Proof.
  destruct (unlock_result lock_tcp_session_db_access s) as (k & E & Hk). exists k. split; [|done].
  unfold unlock_session. by destruct (err =? 0); rewrite (bind_some _ _ _ _ _ E).
Qed.

(** ** Starting a server *)

Lemma close_opened fd s s0 :
  fd ∉ fds s0 -> 0 <= fd -> fds s = {[fd]} ∪ fds s0 ->
  exists err s', close_socket_wrapper fd s = Some (err, s') /\ s' = set_los s (l_os s') /\ fds s' = fds s0 /\
    (0 < errno (l_os s) -> 0 < errno (l_os s')).
Proof.
  intros Hn H0 Hf. destruct (close_result fd s) as (err & s' & E & _ & Hs & Hk & _); [unfold INVALID_HANDLE_ID; lia|].
  exists err, s'. split_and!; [done|done|rewrite Hk, Hf; set_solver|]. intros He.
  revert E. unfold close_socket_wrapper. case_decide; [unfold INVALID_HANDLE_ID in *; lia|].
  unfold check, os. cbv [mbind comp_bind]. destruct (sys (Close fd) (l_os s)) as [r k] eqn:Ec.
  pose proof (errno_law _ _ _ _ Ec (or_intror He)).
  destruct (r <? 0); cbv [last_errno get gets mret comp_ret]; intros [= _ <-]; done.
Qed.

Lemma listener_socket_result params s :
  exists err l s', listener_socket params s = Some ((err, l), s') /\ s' = set_los s (l_os s') /\ 0 <= err /\
    (err <> 0 /\ fds s' = fds s \/ err = 0 /\ 0 <= l /\ l ∉ fds s /\ fds s' = {[l]} ∪ fds s).
Proof.
  unfold listener_socket.
  destruct (socket_result (Socket AF_INET SOCK_STREAM) s) as (l & s1 & E & Hs1 & Hl); [done|].
  rewrite (bind_some _ _ _ _ _ E). destruct Hl as [(-> & He & Hf)|(H0 & Hn & Hf)].
  { cbn [Z.eqb]. exists (errno (l_os s1)), (-1), s1. split_and!; [done|done|lia|left; split; [lia|done]]. }
  destruct (Z.eqb_spec l (-1)); [lia|].
  (* a call that fails with the socket open *)
  assert (Hclose : forall s2, same s1 s2 -> 0 < errno (l_os s2) ->
    exists s3, (close_socket_wrapper l;; e ← last_errno; mret (e, l)) s2 = Some ((errno (l_os s3), l), s3) /\
      s3 = set_los s (l_os s3) /\ 0 < errno (l_os s3) /\ fds s3 = fds s).
  { intros s2 [Hs2 Hf2] He. rewrite Hf in Hf2.
    destruct (close_opened l s2 s Hn H0 Hf2) as (err & s3 & E3 & Hs3 & Hf3 & He3).
    exists s3. rewrite (bind_some _ _ _ _ _ E3). split_and!; [done| |auto|done]. by rewrite Hs3, Hs2, Hs1. }
  destruct (os_keep (Setsockopt l SOL_SOCKET SO_REUSEADDR 1) s1) as (r & s2 & E2 & H2 & Es2); [done..|].
  rewrite (bind_some _ _ _ _ _ E2). destruct (Z.eqb_spec r (-1)) as [->|_].
  { destruct (Hclose s2 H2) as (s3 & E3 & Hs3 & He3 & Hf3); [eapply errno_law; [exact Es2|lia]|].
    rewrite E3. exists (errno (l_os s3)), l, s3. split_and!; [done|done|lia|left; split; [lia|done]]. }
  destruct (os_keep (Bind l (InetAddr (AddrInfo (sp_s_ipv4_addr params) (sp_port params)))) s2)
    as (r' & s3 & E3 & H3 & Es3); [done..|].
  rewrite (bind_some _ _ _ _ _ E3). assert (H13 : same s1 s3) by (by eapply same_trans).
  destruct (Z.ltb_spec r' 0) as [Hr|Hr].
  - destruct (Hclose s3 H13) as (s4 & E4 & Hs4 & He4 & Hf4); [eapply errno_law; [exact Es3|lia]|].
    rewrite E4. exists (errno (l_os s4)), l, s4. split_and!; [done|done|lia|left; split; [lia|done]].
  - destruct H13 as [Hs3 Hf3]. exists 0, l, s3. split_and!; [done|by rewrite Hs3, Hs1|done|].
    right. by rewrite Hf3.
Qed.

(** The tables of listener threads. *)
Record servers_ok (d : db) : Prop := ServersOk {
  so_threads : length (listener_threads d) = NUM_OF_LISTENER_THREADS;
  so_paths : event_socket_path d = exit_listener_thread_socket_path }.

Definition free_thread (d : db) : option nat := first_index (fun x => bool_decide (x = 0)) (listener_threads d).

Lemma exit_path_result idx s :
  servers_ok (l_db s) -> (idx < NUM_OF_LISTENER_THREADS)%nat -> exists p, exit_path idx s = Some (p, s).
Proof.
  intros [_ Hp] Hi. unfold exit_path. rewrite (bind_some _ _ s _ s eq_refl), Hp.
  destruct (lookup_lt_is_Some_2 exit_listener_thread_socket_path idx Hi) as [p Hl]. exists p.
  unfold access. by rewrite Hl.
Qed.

(** How a start that reports success has ended: the server runs, all listener
    threads are in use, or the start has failed part-way. *)
Inductive server_outcome (sid0 : Z) s s' : Z -> Prop :=
| server_runs idx l e id :
    free_thread (l_db s) = Some idx -> l <> e -> l ∉ fds s -> e ∉ fds s -> fds s' = {[l; e]} ∪ fds s ->
    l_db s' = set_threads (set_exit_events (l_db s) (<[idx := e]> (event_fd (l_db s))) (event_socket_path (l_db s)))
      (<[idx := id]> (listener_threads (l_db s))) ->
    server_outcome sid0 s s' (Z.of_nat idx)
| no_room :
    free_thread (l_db s) = None -> l_db s' = l_db s -> fds s' = fds s -> server_outcome sid0 s s' sid0
| start_failed idx :
    free_thread (l_db s) = Some idx -> listener_threads (l_db s') = listener_threads (l_db s) ->
    fds s ⊆ fds s' -> server_outcome sid0 s s' (Z.of_nat idx).

(** The database under the locks. *)
Definition only_db s s' : Prop := s' = set_ldb (set_los s (l_os s')) (l_db s').

Lemma only_db_same s0 s s' : only_db s0 s -> same s s' -> only_db s0 s' /\ fds s' = fds s /\ l_db s' = l_db s.
Proof. intros H [Hs Hf]. unfold only_db in *. split_and!; [|done|by rewrite Hs]. rewrite Hs, H. done. Qed.

Lemma db_ok_exit_events d fds paths : db_ok d -> db_ok (set_exit_events d fds paths).
Proof. intros []. by constructor. Qed.
Lemma db_ok_threads d v : db_ok d -> db_ok (set_threads d v).
Proof. intros []. by constructor. Qed.

(** The event socket of a server. *)
Lemma server_event_result idx s :
  servers_ok (l_db s) -> (idx < NUM_OF_LISTENER_THREADS)%nat ->
  exists e fd s', create_server_event_socket idx s = Some ((e, fd), s') /\ 0 <= e /\ only_db s s' /\
    (e <> 0 /\ l_db s' = l_db s /\ (fds s' = fds s \/ fds s' = {[fd]} ∪ fds s) \/
     e = 0 /\ fd ∉ fds s /\ fds s' = {[fd]} ∪ fds s /\
     l_db s' = set_exit_events (l_db s) (<[idx := fd]> (event_fd (l_db s))) (event_socket_path (l_db s))).
Proof.
  intros Hok Hi. unfold create_server_event_socket.
  destruct (exit_path_result idx s Hok Hi) as [p Ep]. rewrite (bind_some _ _ _ _ _ Ep).
  destruct (event_socket_result p s) as (e & fd & s1 & E & He & Hs & Hfd). rewrite (bind_some _ _ _ _ _ E).
  exists e, fd. unfold when_. destruct (Z.eqb_spec e 0) as [->|Hne].
  - destruct Hfd as [[? _]|(_ & H0 & Hn & Hf)]; [done|]. eexists. split; [done|].
    split_and!; [done|unfold only_db; rewrite Hs; done|]. right. split_and!; [done|done|exact Hf|by rewrite Hs].
  - destruct Hfd as [[_ Hf]|[? _]]; [|done]. exists s1.
    split_and!; [done|done|unfold only_db; rewrite Hs; done|]. left. split_and!; [done|by rewrite Hs|done].
Qed.

Lemma server_start_locked_result l params clbk sid0 s0 s :
  servers_ok (l_db s) -> only_db s0 s -> l_db s = l_db s0 -> 0 <= l -> l ∉ fds s0 -> fds s = {[l]} ∪ fds s0 ->
  exists err sid s', server_start_locked l params clbk sid0 s = Some ((err, sid), s') /\ only_db s0 s' /\
    (db_ok (l_db s0) -> db_ok (l_db s')) /\ server_outcome sid0 s0 s' sid.
Proof.
  intros Hok Hs Hdb H0 Hn Hf. unfold server_start_locked, lib_commu_db_unoccupied_listener_thread_get.
  assert (Hfind : on_db (fun _ _ => find_empty_slot LISTENER_THREAD_DB INVALID_SERVER_ID) s =
    Some (index_or ENOBUFS (free_thread (l_db s0)), s)).
  { rewrite (on_db_eq _ _ (index_or ENOBUFS (free_thread (l_db s0))) (l_db s)) by (by rewrite Hdb). by destruct s. }
  rewrite (bind_some _ _ _ _ _ Hfind).
  assert (Hl : l <> INVALID_HANDLE_ID) by (unfold INVALID_HANDLE_ID; lia).
  (* the listening socket is closed on the way out *)
  assert (Hclose : forall s1, only_db s0 s1 -> fds s ⊆ fds s1 ->
    exists err s2, close_socket_wrapper l s1 = Some (err, s2) /\ only_db s0 s2 /\ l_db s2 = l_db s1 /\
      fds s2 = fds s1 ∖ {[l]} /\ fds s0 ⊆ fds s2).
  { intros s1 H1 Hsub. destruct (close_result l s1 Hl) as (err & s2 & E & _ & Hs2 & Hf2 & _).
    exists err, s2. split_and!; [done|unfold only_db in *; by rewrite Hs2, H1|by rewrite Hs2|done|].
    rewrite Hf2. set_solver. }
  destruct (free_thread (l_db s0)) as [idx|] eqn:Hidx; cbn [index_or].
  2:{ destruct (Hclose s Hs) as (err & s2 & E & H2 & Hd2 & Hf2 & _); [done|].
      exists ENOMEM, sid0, s2. rewrite (bind_some _ _ _ _ _ E). split_and!; [done|done|by rewrite Hd2, Hdb|].
      apply no_room; [done|by rewrite Hd2|]. rewrite Hf2, Hf. set_solver. }
  assert (Hi : (idx < NUM_OF_LISTENER_THREADS)%nat).
  { pose proof Hidx as (x & Hx%lookup_lt_Some & _)%first_index_lookup. rewrite <- Hdb, (so_threads _ Hok) in Hx. done. }
  destruct (server_event_result idx s Hok Hi) as (e & fd & s1 & E1 & He & Hs1 & Hfd).
  rewrite (bind_some _ _ _ _ _ E1).
  assert (Hs01 : only_db s0 s1) by (unfold only_db in *; by rewrite Hs1, Hs).
  destruct Hfd as [(Hne & Hd1 & Hf1)|(-> & Hnfd & Hf1 & Hd1)].
  { destruct (Z.eqb_spec e 0); [done|]. cbn [negb].
    destruct (Hclose s1 Hs01) as (err & s2 & E & H2 & Hd2 & _ & Hf2); [set_solver|].
    exists e, (Z.of_nat idx), s2. rewrite (bind_some _ _ _ _ _ E).
    split_and!; [done|done|by rewrite Hd2, Hd1, Hdb|]. apply start_failed; [done|by rewrite Hd2, Hd1, Hdb|done]. }
  cbn [Z.eqb negb].
  destruct (os_keep Malloc s1) as (args & s2 & E2 & H2 & _); [done..|]. rewrite (bind_some _ _ _ _ _ E2).
  destruct (only_db_same _ _ _ Hs01 H2) as (H02 & Hf2 & Hd2).
  assert (Hok2 : db_ok (l_db s0) -> db_ok (l_db s2)).
  { rewrite Hd2, Hd1, Hdb. apply db_ok_exit_events. }
  destruct (args =? 0).
  { exists EINVAL, (Z.of_nat idx), s2. split_and!; [done|done|done|].
    apply start_failed; [done|by rewrite Hd2, Hd1, Hdb|]. rewrite Hf2, Hf1, Hf. set_solver. }
  set (T := ListenerThread _).
  destruct (os_keep (ThreadCreate T) s2) as (r & s3 & E3 & H3 & _); [done..|]. rewrite (bind_some _ _ _ _ _ E3).
  destruct (only_db_same _ _ _ H02 H3) as (H03 & Hf3 & Hd3).
  destruct (r =? 0); cbn [negb].
  - rewrite (bind_some _ _ s3 _ s3 eq_refl). do 3 eexists. split; [reflexivity|]. split_and!.
    + unfold only_db in *. rewrite H03. done.
    + intros Hdb0. cbn. apply db_ok_threads. rewrite Hd3. auto.
    + apply (server_runs _ _ _ idx l fd (out_int (l_os s3))); [done|set_solver|done|set_solver| |].
      * change (fds s3 = {[l; fd]} ∪ fds s0). rewrite Hf3, Hf2, Hf1, Hf. clear. set_solver.
      * cbn. by rewrite Hd3, Hd2, Hd1, Hdb.
  - destruct (Hclose s3 H03) as (err & s4 & E4 & H4 & Hd4 & _ & Hf4); [rewrite Hf3, Hf2, Hf1; set_solver|].
    exists r, (Z.of_nat idx), s4. rewrite (bind_some _ _ _ _ _ E4).
    split_and!; [done|done|rewrite Hd4, Hd3; auto|]. apply start_failed; [done| |done].
    by rewrite Hd4, Hd3, Hd2, Hd1, Hdb.
Qed.

(** Starting a server.  Before the mutex is taken a failure is reported and
    changes nothing.  After that the call reports success whatever happens: when
    the listener thread runs on two new sockets, but also when all listener
    threads are in use or when the start fails part-way. *)
Theorem server_start_outcomes params clbk sid0 s :
  good s -> servers_ok (l_db s) -> g_lib_commu_init_done s = true -> clbk_notify_func clbk <> 0 ->
  exists ret sid s', comm_lib_tcp_server_session_start params (Some clbk) (Some sid0) s = Some ((ret, Some sid), s') /\
    good s' /\ (ret < 0 /\ sid = sid0 /\ same s s' \/ ret = 0 /\ server_outcome sid0 s s' sid).
Proof.
  intros Hg Hok Hi Hc. unfold comm_lib_tcp_server_session_start.
  destruct (Z.eqb_spec (clbk_notify_func clbk) 0); [done|].
  rewrite (bind_some _ _ s _ s eq_refl), Hi. cbn [negb].
  destruct (listener_socket_result params s) as (err & l & s1 & E1 & Hs1 & He & Hl). rewrite (bind_some _ _ _ _ _ E1).
  assert (Hd1 : l_db s1 = l_db s) by (by rewrite Hs1).
  destruct Hl as [[Hne Hf]|(-> & H0 & Hn & Hf)].
  { destruct (Z.eqb_spec err 0); [done|]. exists (- err), sid0, s1. split_and!; [done| |].
    - destruct Hg. rewrite Hs1. by constructor.
    - left. split_and!; [lia|done|by split]. }
  cbn [Z.eqb negb].
  destruct (lock_result lock_tcp_session_db_access s1) as (k2 & E2 & Hk2); [rewrite Hs1; apply Hg|].
  rewrite (bind_some _ _ _ _ _ E2). cbn [Z.eqb negb].
  set (s2 := set_held _ _ _) in *.
  assert (Hd2 : l_db s2 = l_db s) by done. assert (Hf2 : fds s2 = {[l]} ∪ fds s) by (by rewrite <- Hf, <- Hk2).
  set (s0 := set_held s lock_tcp_session_db_access true).
  destruct (server_start_locked_result l params clbk sid0 s0 s2) as (err & sid & s3 & E3 & Hs3 & Hok3 & Hout);
    [by rewrite Hd2|by unfold only_db, s2; rewrite Hs1|done..|].
  rewrite (bind_some _ _ _ _ _ E3).
  destruct (unlock_session_result err s3) as (k4 & E4 & Hk4). rewrite (bind_some _ _ _ _ _ E4).
  do 3 eexists. split; [reflexivity|]. split.
  - destruct Hg as [Hg1 Hg2 Hg3]. constructor; cbn; [auto| |done]. by rewrite Hs3.
  - right. split; [done|]. clear -Hout Hk4.
    inversion Hout; subst; [eapply server_runs|eapply no_room|eapply start_failed]; cbn in *; try done;
      unfold fds in *; cbn in *; by rewrite Hk4.
Qed.

(** ** Stopping a server *)

Context {RC : ReliableClose K}.

Lemma close_open fd s :
  fd ∈ fds s -> fd <> INVALID_HANDLE_ID ->
  exists s', close_socket_wrapper fd s = Some (0, s') /\ s' = set_los s (l_os s') /\ fds s' = fds s ∖ {[fd]}.
Proof.
  intros Hin Hne. destruct (close_result fd s Hne) as (err & s' & E & _ & Hs & Hf & H0).
  exists s'. rewrite H0 in E by (by apply close_reliable). done.
Qed.

Lemma used_cons k ks : used (k :: ks) = if decide (k = INVALID_HANDLE_ID) then used ks else k :: used ks.
Proof. unfold used. rewrite filterb_cons. by case_decide; [rewrite bool_decide_eq_true_2|rewrite bool_decide_eq_false_2]. Qed.

(** The sockets of the clients are closed, and the first of their handles stored. *)
Lemma close_clients_result cs arr j len s :
  let hs := used (cs_handle <$> cs) in
  NoDup hs -> (forall h, h ∈ hs -> h ∈ fds s) -> (len <= length arr)%nat ->
  exists s', close_clients cs arr j len s = Some ((0, list_inserts j (take (len - j) hs) arr), s') /\
    s' = set_los s (l_os s') /\ fds s' = fds s ∖ list_to_set hs.
Proof.
  cbv zeta. revert arr j s. induction cs as [|c cs IH]; intros arr j s.
  { intros _ _ _. exists s. cbn. rewrite firstn_nil. cbn. split_and!; [done|by destruct s|]. set_solver. }
  cbn [close_clients fmap list_fmap]. rewrite used_cons. case_decide as Hc; [by apply IH|].
  set (hs := used _) in *. intros [Hn Hnd]%NoDup_cons Hin Hlen.
  destruct (close_open (cs_handle c) s) as (s1 & E1 & Hs1 & Hf1); [apply Hin; by left|done|].
  rewrite (bind_some _ _ _ _ _ E1). cbn [Z.eqb negb].
  assert (Hin1 : forall h, h ∈ hs -> h ∈ fds s1).
  { intros h Hh. rewrite Hf1. apply elem_of_difference. split; [apply Hin; by right|]. set_solver. }
  assert (Hfd : forall s2, fds s2 = fds s1 ∖ list_to_set hs -> fds s2 = fds s ∖ list_to_set (cs_handle c :: hs)).
  { intros s2 ->. rewrite Hf1. cbn. set_solver. }
  case_decide as Hj.
  - destruct (lookup_lt_is_Some_2 arr j) as [x Hx]; [lia|].
    rewrite (bind_some _ _ s1 x s1) by (unfold access; by rewrite Hx).
    destruct (IH (<[j := cs_handle c]> arr) (S j) s1 Hnd Hin1) as (s2 & E2 & Hs2 & Hf2); [by rewrite length_insert|].
    exists s2. split_and!; [|by rewrite Hs2, Hs1|by apply Hfd]. rewrite E2.
    replace (len - j)%nat with (S (len - S j)) by lia. cbn [firstn list_inserts].
    by rewrite list_insert_inserts_lt by lia.
  - destruct (IH arr j s1 Hnd Hin1 Hlen) as (s2 & E2 & Hs2 & Hf2).
    exists s2. split_and!; [|by rewrite Hs2, Hs1|by apply Hfd]. rewrite E2.
    by replace (len - j)%nat with 0%nat by lia.
Qed.

(** Telling a listener thread to end opens and closes a socket. *)
Lemma exit_server_result idx s :
  servers_ok (l_db s) -> (idx < NUM_OF_LISTENER_THREADS)%nat -> INVALID_HANDLE_ID ∉ fds s ->
  exists err s', exit_server_thread idx s = Some (err, s') /\ 0 <= err /\ fds s' = fds s /\ only_db s s' /\
    (l_db s' = l_db s \/
     l_db s' = set_exit_events (l_db s) (<[idx := INVALID_HANDLE_ID]> (event_fd (l_db s))) (event_socket_path (l_db s))).
Proof.
  intros Hok Hi Hinv. unfold exit_server_thread.
  destruct (exit_path_result idx s Hok Hi) as [p Ep]. rewrite (bind_some _ _ _ _ _ Ep).
  destruct (socket_result (Socket AF_UNIX SOCK_DGRAM) s) as (fd & s1 & E1 & Hs1 & Hfd); [done|].
  rewrite (bind_some _ _ _ _ _ E1). destruct Hfd as [(-> & He & Hf)|(H0 & Hn & Hf)].
  { cbn [Z.ltb Z.compare]. rewrite (bind_some _ _ s1 _ s1 eq_refl).
    exists (errno (l_os s1)), s1. split_and!; [done|lia|done|unfold only_db; by rewrite Hs1|left; by rewrite Hs1]. }
  destruct (Z.ltb_spec fd 0); [lia|]. unfold check at 1.
  destruct (os_keep (Sendto fd (Z.of_nat idx) (UnixAddr p)) s1) as (r & s2 & E2 & [Hs2 Hf2] & Es2); [done..|].
  assert (Hend : forall err s3, s3 = set_los s1 (l_os s3) \/
      s3 = set_ldb (set_los s1 (l_os s3)) (set_exit_events (l_db s) (<[idx := INVALID_HANDLE_ID]> (event_fd (l_db s))) (event_socket_path (l_db s))) ->
    fds s3 = fds s1 -> 0 <= err ->
    exists s4, (close_socket_wrapper fd;; mret err) s3 = Some (err, s4) /\ fds s4 = fds s /\ only_db s s4 /\
      (l_db s4 = l_db s \/ l_db s4 = set_exit_events (l_db s) (<[idx := INVALID_HANDLE_ID]> (event_fd (l_db s))) (event_socket_path (l_db s)))).
  { intros err s3 Hs3 Hf3 Herr. rewrite Hf in Hf3.
    destruct (close_opened fd s3 s Hn H0 Hf3) as (e & s4 & E4 & Hs4 & Hf4 & _).
    exists s4. rewrite (bind_some _ _ _ _ _ E4). split_and!; [done|done| |];
      destruct Hs3 as [Hs3|Hs3]; unfold only_db; rewrite Hs4, Hs3, Hs1; auto. }
  destruct (r <? 0) eqn:Hr.
  - destruct (Hend (errno (l_os s2)) s2) as (s4 & E4 & Hf4 & Hs4 & Hd4); [by left|done| |].
    { pose proof (errno_law _ _ _ _ Es2 (or_introl (proj1 (Z.ltb_lt _ _) Hr))). lia. }
    exists (errno (l_os s2)), s4. rewrite (bind_some _ _ s1 (errno (l_os s2)) s2).
    2:{ rewrite (bind_some _ _ _ _ _ E2), Hr. done. }
    split_and!; try done. pose proof (errno_law _ _ _ _ Es2 (or_introl (proj1 (Z.ltb_lt _ _) Hr))). lia.
  - set (s3 := set_ldb s2 (set_exit_events (l_db s) (<[idx := INVALID_HANDLE_ID]> (event_fd (l_db s))) (event_socket_path (l_db s)))).
    destruct (Hend 0 s3) as (s4 & E4 & Hf4 & Hs4 & Hd4); [right; unfold s3; by rewrite Hs2|done|done|].
    exists 0, s4. rewrite (bind_some _ _ s1 0 s3).
    2:{ rewrite (bind_some _ _ _ _ _ E2), Hr. cbv [mbind comp_bind set_event_fd put modify mret comp_ret].
        unfold s3. rewrite Hs2. cbn. by rewrite Hs1. }
    by split_and!.
Qed.

(** *** The whole call *)

(** What joining the thread of a server does: it ends, having closed the sockets [J]
    of its own, and leaves the library between calls and the database as it is. *)
Definition joins (join : Z -> comp (lib K) Z) (J : gset Z) : Prop :=
  forall id s, good s -> exists s', join id s = Some (0, s') /\ good s' /\ l_db s' = l_db s /\ fds s' = fds s ∖ J.

Definition client_handles (st : server_status) : list Z := used (cs_handle <$> client_status st).

Lemma server_of_result idx s st :
  server_status_st (l_db s) !! idx = Some st -> server_of idx s = Some (st, s).
Proof. intros H. unfold server_of. rewrite (bind_some _ _ s _ s eq_refl). unfold access. by rewrite H. Qed.

(** Up to the mutex the status of the clients may have changed, not their handles. *)
Lemma status_get_result gp idx s :
  good s -> (idx < SERVER_STATUS_ARR_LENGTH)%nat ->
  exists r d, on_db (fun _ _ => lib_commu_db_tcp_server_status_get gp false idx) s = Some (r, set_ldb s d) /\
    db_ok d /\ listener_threads d = listener_threads (l_db s) /\ event_socket_path d = event_socket_path (l_db s) /\
    (forall st', server_status_st d !! idx = Some st' -> exists st, server_status_st (l_db s) !! idx = Some st /\
      client_handles st' = client_handles st /\ listener_status st' = listener_status st) /\
    match r with inl err => err <> 0 | inr i => i = idx end.
Proof.
  intros [Hd _ _] Hi. destruct (db_ok_lookup _ idx Hd Hi) as (st & t & Hst & _ & _).
  destruct (status_get_ok gp (l_db s) false idx Hd) as (r & d & E & Hd'). exists r, d.
  split; [by apply on_db_eq|]. split; [done|]. revert E. unfold lib_commu_db_tcp_server_status_get.
  rewrite decide_False by lia. cbv [mbind M_bind CommuDb.gets index CommuDb.modify mret M_ret]. rewrite Hst.
  destruct (refresh_clients gp (client_status st)) as [e cs] eqn:Hr.
  set (st1 := ServerStatus _ cs _ _). set (d1 := set_status _ _).
  assert (H1 : forall st', server_status_st d1 !! idx = Some st' -> exists st, server_status_st (l_db s) !! idx = Some st /\
    client_handles st' = client_handles st /\ listener_status st' = listener_status st).
  { cbn. rewrite list_lookup_insert_eq by (by eapply lookup_lt_Some). intros st' [= <-]. exists st. split; [done|].
    split; [|done]. unfold client_handles. by rewrite (refresh_clients_handles _ _ _ _ Hr : cs_handle <$> client_status st1 = _). }
  destruct (Z.eqb_spec e 0); intros [= <- <-]; (split; [reflexivity|]); (split; [reflexivity|]); (split; [rewrite <- Hst; exact H1|done]).
Qed.

Lemma session_deinit_result d idx st t :
  server_status_st d !! idx = Some st -> server_tcp_handle_info d !! idx = Some t ->
  lib_commu_db_tcp_session_db_deinit idx d =
  Some (0, set_server (set_status d (<[idx := unused_server]> (server_status_st d)))
    (<[idx := replicate TCP_HANDLE_ARR_LENGTH unused_handle_info]> (server_tcp_handle_info d))).
Proof.
  intros Hst Ht. unfold lib_commu_db_tcp_session_db_deinit, reset_server_status, reset_handle_db, CommuDb.bail_error.
  cbv [mbind M_bind CommuDb.gets index CommuDb.modify mret M_ret]. rewrite Hst. cbn. by rewrite Ht.
Qed.

(** Under the mutex, when the thread has ended. *)
Lemma server_stop_locked_result idx arr len s st t :
  db_ok (l_db s) -> (len <= length arr)%nat ->
  server_status_st (l_db s) !! idx = Some st -> server_tcp_handle_info (l_db s) !! idx = Some t ->
  NoDup (client_handles st) -> (forall h, h ∈ client_handles st -> h ∈ fds s) ->
  exists k d, server_stop_locked idx arr len s = Some ((0, list_inserts 0 (take len (client_handles st)) arr), set_ldb (set_los s k) d) /\
    opened k = fds s ∖ list_to_set (client_handles st) /\ db_ok d /\
    listener_threads d = <[idx := 0]> (listener_threads (l_db s)) /\
    server_status_st d !! idx = Some unused_server /\
    server_tcp_handle_info d !! idx = Some (replicate TCP_HANDLE_ARR_LENGTH unused_handle_info).
Proof.
  intros Hd Hlen Hst Ht Hnd Hin. unfold server_stop_locked.
  set (s1 := set_ldb s (set_threads (l_db s) (<[idx := 0]> (listener_threads (l_db s))))).
  rewrite (bind_some (set_thread idx 0) _ s tt s1 eq_refl), (bind_some _ _ _ _ _ (server_of_result idx s1 st Hst)).
  destruct (close_clients_result (client_status st) arr 0 len s1 Hnd Hin Hlen) as (s2 & E2 & Hs2 & Hf2).
  rewrite (bind_some _ _ _ _ _ E2). cbn [Z.eqb negb]. rewrite Nat.sub_0_r.
  set (d := set_server (set_status (l_db s1) (<[idx := unused_server]> (server_status_st (l_db s1))))
    (<[idx := replicate TCP_HANDLE_ARR_LENGTH unused_handle_info]> (server_tcp_handle_info (l_db s1)))).
  assert (E3 : lib_commu_db_tcp_session_db_deinit idx (l_db s2) = Some (0, d)).
  { rewrite Hs2. by apply (session_deinit_result (l_db s1) idx st t). }
  exists (l_os s2), d. split_and!.
  - rewrite (bind_some _ _ _ _ _ (on_db_eq (fun _ _ => _) _ _ _ E3)). rewrite Hs2. done.
  - exact Hf2.
  - apply (db_ok_server (set_threads (l_db s) _) idx st t); [by apply db_ok_threads|done|done|apply paired_unused].
  - done.
  - cbn. by rewrite list_lookup_insert_eq by (by eapply lookup_lt_Some).
  - cbn. by rewrite list_lookup_insert_eq by (by eapply lookup_lt_Some).
Qed.

(** Stopping a server that is up.  An error before the thread has been joined is
    reported, and every socket stays as it is.  Otherwise the call succeeds: the
    sockets of all clients are closed, as many of their handles as the caller has
    room for are stored from the start of its array, the thread's place is free, and
    the server's tables are cleared. *)
Theorem server_stop_complete join J idx arr len s st :
  good s -> servers_ok (l_db s) -> g_lib_commu_init_done s = true -> INVALID_HANDLE_ID ∉ fds s ->
  joins join J -> (idx < SERVER_STATUS_ARR_LENGTH)%nat -> (0 < len <= length arr)%nat ->
  server_status_st (l_db s) !! idx = Some st -> listener_status st <> HANDLE_STATUS_DOWN ->
  NoDup (client_handles st) -> (forall h, h ∈ client_handles st -> h ∈ fds s /\ h ∉ J) ->
  exists ret out s', comm_lib_tcp_server_session_stop join idx (Some arr) len s = Some ((ret, Some out), s') /\ good s' /\
    (ret <> 0 /\ out = arr /\ fds s' = fds s /\ listener_threads (l_db s') = listener_threads (l_db s) \/
     ret = 0 /\ out = list_inserts 0 (take len (client_handles st)) arr /\
     fds s' = fds s ∖ J ∖ list_to_set (client_handles st) /\
     listener_threads (l_db s') = <[idx := 0]> (listener_threads (l_db s)) /\
     server_status_st (l_db s') !! idx = Some unused_server /\
     server_tcp_handle_info (l_db s') !! idx = Some (replicate TCP_HANDLE_ARR_LENGTH unused_handle_info)).
Proof.
  intros Hg Hok Hi Hinv Hjoin Hidx [Hlen0 Hlen] Hst Hup Hnd Hin. unfold comm_lib_tcp_server_session_stop.
  rewrite (bind_some _ _ s _ s eq_refl), Hi. cbn [negb].
  rewrite (decide_False (P := len = 0%nat)), (decide_False (P := (_ <= idx)%nat)) by lia.
  rewrite (bind_some _ _ s _ s eq_refl).
  destruct (status_get_result (peer_ret (l_os s)) idx s Hg Hidx) as (r & d & E1 & Hd & Hth & Hpath & Hcl & Hr).
  rewrite (bind_some _ _ _ _ _ E1). set (s1 := set_ldb s d) in *.
  assert (Hg1 : good s1) by (destruct Hg; by constructor).
  destruct r as [err|i].
  { exists (- err), arr, s1. split; [done|]. split; [done|]. left. split_and!; [lia|done|done|done]. }
  subst i. destruct (db_ok_lookup d idx Hd Hidx) as (st1 & t & Hst1 & Ht & _).
  destruct (Hcl st1 Hst1) as (st' & Hst' & Hch & Hls).
  rewrite Hst in Hst'. injection Hst' as <-.
  rewrite (bind_some _ _ _ _ _ (server_of_result idx s1 st1 Hst1)), Hls.
  destruct (Z.eqb_spec (listener_status st) HANDLE_STATUS_DOWN); [done|].
  assert (Hok1 : servers_ok (l_db s1)) by (destruct Hok; constructor; cbn; by rewrite ?Hth, ?Hpath).
  destruct (exit_server_result idx s1 Hok1 Hidx Hinv) as (err & s2 & E2 & Herr & Hf2 & Hs2 & Hd2).
  rewrite (bind_some _ _ _ _ _ E2).
  assert (Hg2 : good s2).
  { destruct Hg1 as [Ha Hb Hc]. unfold only_db in Hs2. rewrite Hs2. constructor; [|done|done]. cbn.
    destruct Hd2 as [-> | ->]; [done|by apply db_ok_exit_events]. }
  assert (Hsame : server_status_st (l_db s2) = server_status_st d /\ server_tcp_handle_info (l_db s2) = server_tcp_handle_info d /\
    listener_threads (l_db s2) = listener_threads (l_db s)).
  { rewrite <- Hth. by destruct Hd2 as [-> | ->]. }
  destruct Hsame as (Hss & Hts & Hth2).
  destruct (Z.eqb_spec err 0) as [->|Hne]; cbn [negb].
  2:{ exists (- err), arr, s2. split; [done|]. split; [done|]. left. split_and!; [lia|done|by rewrite Hf2|done]. }
  rewrite (bind_some _ _ s2 _ s2 eq_refl).
  destruct (lookup_lt_is_Some_2 (listener_threads (l_db s2)) idx) as [id Hid]; [by rewrite Hth2, (so_threads _ Hok)|].
  rewrite (bind_some _ _ s2 id s2) by (unfold access; by rewrite Hid).
  destruct (Hjoin id s2 Hg2) as (s3 & E3 & Hg3 & Hd3 & Hf3). rewrite (bind_some _ _ _ _ _ E3). cbn [Z.eqb negb].
  destruct (lock_result lock_tcp_session_db_access s3) as (k4 & E4 & Hk4); [apply Hg3|].
  rewrite (bind_some _ _ _ _ _ E4). cbn [Z.eqb negb].
  set (s4 := set_held _ _ _). assert (Hf4 : fds s4 = fds s ∖ J) by (change (opened k4 = fds s ∖ J); rewrite Hk4, Hf3, Hf2; done).
  destruct (server_stop_locked_result idx arr len s4 st1 t) as (k5 & d5 & E5 & Hk5 & Hd5 & Hth5 & Hst5 & Ht5).
  - change (db_ok (l_db s3)). apply Hg3.
  - done.
  - change (server_status_st (l_db s3) !! idx = Some st1). by rewrite Hd3, Hss.
  - change (server_tcp_handle_info (l_db s3) !! idx = Some t). by rewrite Hd3, Hts.
  - by rewrite Hch.
  - rewrite Hch. intros h Hh. rewrite Hf4. destruct (Hin h Hh). set_solver.
  - rewrite (bind_some _ _ _ _ _ E5). destruct (unlock_session_result 0 (set_ldb (set_los s4 k5) d5)) as (k6 & E6 & Hk6).
    rewrite (bind_some _ _ _ _ _ E6). do 3 eexists. split; [reflexivity|]. split.
    + destruct Hg3 as [_ Hl _]. constructor; [exact Hd5|exact Hl|done].
    + right. rewrite <- Hch. split; [done|]. split; [done|]. split.
      { change (opened k6 = fds s ∖ J ∖ list_to_set (client_handles st1)). rewrite Hk6. change (fds (set_ldb (set_los s4 k5) d5)) with (opened k5).
        by rewrite Hk5, Hf4. }
      split; [|done]. cbn. rewrite Hth5. change (l_db s4) with (l_db s3). by rewrite Hd3, Hth2.
Qed.
End Servers.
