(* ===== verification/CommuThreadProps.v ===== *)
(** * Communication library: properties of its threads

    Whatever connects and however the system behaves, the threads of servers and of
    clients' connections have a result and leave the database whole and the mutexes
    free; a connection beyond the room of a server ends the server's thread. *)

From S2P Require Import Prelude CommuDb Comp CommuSess CommuThread CommuSessProps CommuServer.

Local Open Scope Z_scope.
Local Open Scope list_scope.

Section ThreadProps.
Context {K : Type} {OS : SessionOs K} {L : SessionLaws K}.
(** A callback of the client may do what leaves the library between calls. *)
Context (notify : Z -> Z -> addr_info -> Z -> Z -> comp (lib K) Z).
Context (Hnotify : forall f h a d rc, triple good (notify f h a d rc) (fun _ => good)).
Implicit Types s : lib K.

Definition keeps {A} (c : comp (lib K) A) : Prop := triple good c (fun _ => good).

Lemma thread_os c : keeps (os c).
Proof.
  intros s []. unfold os. destruct (sys c (l_os s)) as [r k]. exists r, (set_los s k). split; [done|]. by constructor.
Qed.

Lemma keeps_look {A} (f : lib K -> A) : keeps (get f).
Proof. intros s Hg. by exists (f s), s. Qed.

Lemma keeps_result {A} (a : A) : keeps (mret a).
Proof. intros s Hg. by exists a, s. Qed.

Lemma keeps_seq {A B} (c : comp (lib K) A) (k : A -> comp (lib K) B) :
  keeps c -> (forall a, keeps (k a)) -> keeps (c ≫= k).
Proof. intros H1 H2. by apply (triple_bind _ _ _ (fun _ => good)). Qed.

Lemma keeps_check c k : (forall r, keeps (k r)) -> keeps (check c k).
Proof. intros Hk. apply keeps_seq; [apply thread_os|]. intros r. destruct (r <? 0); [apply keeps_look|apply Hk]. Qed.

Lemma keeps_error c k : keeps c -> keeps k -> keeps (bail_error c k).
Proof. intros Hc Hk. apply keeps_seq; [done|]. intros r. destruct (r =? 0); [done|apply keeps_result]. Qed.

Lemma thread_close h : keeps (close_socket_wrapper h).
Proof. unfold close_socket_wrapper. case_decide; [apply keeps_result|]. apply keeps_check. intros; apply keeps_result. Qed.

Lemma keeps_when b c : keeps c -> keeps (when_ b c).
Proof. intros Hc. destruct b; [|apply keeps_result]. apply keeps_seq; [done|]. intros; apply keeps_result. Qed.

Lemma keeps_cnt f : keeps (put (fun s => set_cnt s (f s))).
Proof. intros s []. eexists tt, _. split; [done|]. by constructor. Qed.

Lemma keeps_random : keeps pseudo_random_uint32_get.
Proof. apply keeps_seq; [apply thread_os|]. intros; apply keeps_result. Qed.

Ltac keep :=
  repeat match goal with
  | |- keeps (mret _) => apply keeps_result
  | |- keeps (close_socket_wrapper _) => apply thread_close
  | |- keeps (when_ _ _) => apply keeps_when
  | |- keeps (check _ _) => apply keeps_check; intros ?
  | |- keeps (bail_error _ _) => apply keeps_error
  | |- keeps (os _) => apply thread_os
  | |- keeps last_errno => apply keeps_look
  | |- keeps (look _) => apply keeps_look
  | |- keeps (get _) => apply keeps_look
  | |- keeps pseudo_random_uint32_get => apply keeps_random
  | |- keeps (put (fun s => set_cnt s _)) => apply keeps_cnt
  | |- keeps (notify _ _ _ _ _) => apply Hnotify
  | |- keeps (_ ≫= _) => apply keeps_seq; [|intros ?]
  | |- keeps (if ?b then _ else _) => destruct b
  | |- keeps (let '(_, _) := ?p in _) => destruct p
  end.

(** *** Entering connections *)

(** The database call of the listener, under its mutex. *)
Lemma enter_connection_result args sock peer magic s :
  good s -> (la_server_id args < SERVER_STATUS_ARR_LENGTH)%nat -> sock <> INVALID_HANDLE_ID ->
  exists err s', enter_connection args sock peer magic s = Some (err, s') /\ good s' /\ fds s' = fds s /\
    (exists d, listener_register 0 0 (la_server_id args) sock (la_params args) peer magic (l_db s) = Some (err, d) /\ l_db s' = d) /\
    (err = 0 \/ err = ENOBUFS /\ l_db s' = l_db s).
Proof.
  intros [Hd Hl Ht] Hi Hs. unfold enter_connection, bail_error.
  destruct (lock_result lock_listener_db_access s Hl) as (k1 & E1 & Hk1). rewrite (bind_some _ _ _ _ _ E1). cbn [Z.eqb].
  set (s1 := set_held _ _ _).
  destruct (listener_register_ok (l_db s) (la_server_id args) sock (la_params args) peer magic Hd Hi Hs)
    as (err & d & E2 & Hd' & Hcase).
  rewrite (bind_some _ _ _ _ _ (on_db_eq (fun l u => listener_register l u _ _ _ _ _) s1 err d E2)).
  destruct (unlock_result lock_listener_db_access (set_ldb s1 d)) as (k3 & E3 & Hk3).
  set (s3 := set_held _ _ _) in E3.
  assert (Hg3 : good s3) by (constructor; [exact Hd'|done|exact Ht]).
  assert (Hf3 : fds s3 = fds s) by (change (opened k3 = fds s); rewrite Hk3; exact Hk1).
  destruct (Z.eqb_spec err 0) as [->|Hne]; cbn [negb]; rewrite (bind_some _ _ _ _ _ E3).
  - exists 0, s3. split; [done|]. split_and!; [done|done|by exists d|by left].
  - exists err, s3. split; [done|]. split_and!; [done|done|by exists d|].
    destruct Hcase as [?|[-> ->]]; [done|by right].
Qed.

Lemma quiet_options sock : quiet (set_sock_buffer_size sock ;? set_sock_priority sock ;? set_sock_ka sock).
Proof. apply quiet_bail; [apply quiet_buffer|]. apply quiet_bail; [apply quiet_priority|apply quiet_ka]. Qed.

Lemma keeps_quiet c : quiet c -> keeps c.
Proof. intros Hc s Hg. destruct (Hc s) as (r & s' & E & _ & Hs). exists r, s'. split; [done|]. by eapply good_same. Qed.

Lemma keeps_accept args :
  (la_server_id args < SERVER_STATUS_ARR_LENGTH)%nat -> keeps (accept_connection notify args).
Proof.
  intros Hi s Hg. unfold accept_connection.
  destruct (socket_result (Accept (la_listener_fd args)) s) as (sock & s1 & E & Hs1 & Hfd); [done|].
  rewrite (bind_some _ _ _ _ _ E), (bind_some _ _ s1 _ s1 eq_refl).
  assert (Hg1 : good s1) by (rewrite Hs1; by destruct Hg).
  destruct (Z.ltb_spec sock 0) as [Hneg|Hpos].
  - by exists (errno (l_os s1), sock), s1.
  - assert (H : keeps (err ← (set_sock_buffer_size sock ;? set_sock_priority sock ;? set_sock_ka sock ;?
        magic ← pseudo_random_uint32_get; enter_connection args sock (out_addr (l_os s1)) magic ;?
        notify (clbk_notify_func (la_clbk_st args)) sock (out_addr (l_os s1)) (data (la_clbk_st args)) 0); mret (err, sock))).
    { keep; try (apply keeps_quiet; first [apply quiet_buffer|apply quiet_priority|apply quiet_ka]).
      intros s2 Hg2. edestruct (enter_connection_result args sock) as (err & s3 & E3 & Hg3 & _);
        [exact Hg2|exact Hi|unfold INVALID_HANDLE_ID; lia|]. by exists err, s3. }
    by apply H.
Qed.

Lemma keeps_scan args ready n : forall i v,
  (la_server_id args < SERVER_STATUS_ARR_LENGTH)%nat -> keeps (scan_fds notify args ready n i v).
Proof.
  induction n as [|n IH]; intros i v Hi; cbn [scan_fds]; [apply keeps_result|].
  destruct (negb (ready i)); [by apply IH|]. destruct (i =? la_listener_fd args).
  - apply keeps_seq; [by apply keeps_accept|]. intros [err sock]. destruct (negb (err =? 0)); [apply keeps_result|by apply IH].
  - destruct (i =? la_event_fd args); [|by apply IH]. apply keeps_seq; [unfold receive_exit; keep|].
    intros [err ends]. destruct ends; [apply keeps_result|by apply IH].
Qed.

Lemma keeps_listener_loop args n : forall v,
  (la_server_id args < SERVER_STATUS_ARR_LENGTH)%nat -> keeps (listener_loop notify args n v).
Proof.
  induction n as [|n IH]; intros v Hi; cbn [listener_loop]; [apply keeps_result|].
  apply keeps_seq; [|intros [v'|err v']; [by apply IH|apply keeps_result]].
  unfold listener_turn. keep. by apply keeps_scan.
Qed.

Lemma keeps_new_client fd flags args : keeps (handle_new_non_blocking_client notify fd flags args).
Proof.
  unfold handle_new_non_blocking_client. case_decide; [apply keeps_result|]. keep.
  intros s [Hd Hl Ht]. destruct (handle_set_ok (l_db s) TCP_CLIENT_HANDLE_DB fd (msg_type (ca_conn_info args)) (AddrInfo 0 0)
    (dest (ca_conn_info args)) 1 a Hd (or_intror eq_refl)) as (d & E & Hd').
  exists 0, (set_ldb s d). split; [exact (on_db_eq (fun l u => lib_commu_db_tcp_client_handle_info_set l u _ _ _ _ _) s 0 d E)|].
  by constructor.
Qed.

Lemma keeps_scan_connect args flags err writes reads n : forall i,
  keeps (scan_connect notify args flags err writes reads n i).
Proof.
  induction n as [|n IH]; intros i; cbn [scan_connect]; [apply keeps_result|].
  keep; try apply keeps_new_client. apply IH.
Qed.

Lemma keeps_connect_loop args flags err fd_max n : forall tval, keeps (connect_loop notify args flags err fd_max n tval).
Proof.
  induction n as [|n IH]; intros tval; cbn [connect_loop]; [apply keeps_result|].
  apply keeps_seq; [|intros [[r|] tval']; [apply keeps_result|apply IH]]. unfold connect_turn. keep. apply keeps_scan_connect.
Qed.

(** *** A server with no room *)

Definition full (d : db) (idx : nat) : Prop :=
  exists st, server_status_st d !! idx = Some st /\ clients_num st = Z.of_nat MAX_CONNECTION_NUM.

Lemma listener_register_full d idx h params a magic :
  db_ok d -> (idx < SERVER_STATUS_ARR_LENGTH)%nat -> full d idx ->
  listener_register 0 0 idx h params a magic d = Some (ENOBUFS, d).
Proof.
  intros Hd Hi (st & Hst & Hn). destruct (db_ok_lookup d idx Hd Hi) as (st' & t & Hst' & Ht & Hp). simplify_eq.
  assert (Hk : first_index (has_client INVALID_HANDLE_ID) (client_status st) = None).
  { rewrite eq_None_not_Some, has_client_in, used_full, length_fmap. destruct Hp as (Hl & _ & Hc & _). lia. }
  unfold listener_register, lib_commu_db_tcp_server_handle_info_set, CommuDb.bail_error.
  cbv [mbind M_bind]. rewrite (handle_info_set_result d TCP_SERVER_HANDLE_DB idx t) by (done || apply Hd).
  cbn [Z.eqb]. rewrite (proj2 (paired_full st t Hp) Hk). erewrite client_set_result by done. by rewrite Hk.
Qed.

(** A socket that a failing turn has left, or none. *)
Definition left_socket (sock : Z) s s' : Prop :=
  l_db s' = l_db s /\
  (sock = INVALID_HANDLE_ID /\ fds s' = fds s \/ 0 <= sock /\ sock ∉ fds s /\ fds s' = {[sock]} ∪ fds s).

Lemma accept_full args s :
  good s -> (la_server_id args < SERVER_STATUS_ARR_LENGTH)%nat -> full (l_db s) (la_server_id args) ->
  exists err sock s', accept_connection notify args s = Some ((err, sock), s') /\ 0 < err /\ left_socket sock s s'.
Proof.
  intros Hg Hi Hfull. unfold accept_connection.
  destruct (socket_result (Accept (la_listener_fd args)) s) as (sock & s1 & E & Hs1 & Hfd); [done|].
  rewrite (bind_some _ _ _ _ _ E), (bind_some _ _ s1 _ s1 eq_refl).
  destruct Hfd as [(-> & He & Hf)|(H0 & Hn & Hf)].
  { exists (errno (l_os s1)), (-1), s1. split; [done|]. split; [lia|]. split; [by rewrite Hs1|by left]. }
  destruct (Z.ltb_spec sock 0); [lia|]. set (c := bail_error _ _).
  assert (Hc : exists err s', c s1 = Some (err, s') /\ 0 < err /\ left_socket sock s s').
  { assert (Hq : forall err s', 0 < err -> same s1 s' -> 0 < err /\ left_socket sock s s').
    { intros err s' He [Hs' Hf']. split; [lia|]. split; [by rewrite Hs', Hs1|right; by rewrite Hf']. }
    apply bail_quiet; [apply quiet_buffer|exact Hq|intros s2 H2].
    apply bail_quiet; [apply quiet_priority|intros err s' He H'; apply Hq; [done|by eapply same_trans]|intros s3 H3].
    apply bail_quiet; [apply quiet_ka|intros err s' He H'; apply Hq; [done|by do 2 (eapply same_trans; [done|])]|intros s4 H4].
    destruct (random_result s4) as (magic & s5 & E5 & _ & H5). rewrite (bind_some _ _ _ _ _ E5).
    assert (H15 : same s1 s5) by (do 3 (eapply same_trans; [eassumption|]); exact H5).
    assert (Hd5 : l_db s5 = l_db s) by (destruct H15 as [-> _]; by rewrite Hs1).
    assert (Hg5 : good s5) by (eapply good_same; [exact H15|]; rewrite Hs1; by destruct Hg).
    destruct (enter_connection_result args sock (out_addr (l_os s1)) magic s5 Hg5 Hi)
      as (err & s6 & E6 & _ & Hf6 & (d & Hr & Hd6) & _); [unfold INVALID_HANDLE_ID; lia|].
    rewrite listener_register_full in Hr by (rewrite ?Hd5; first [apply Hg|done]).
    injection Hr as <- <-. exists ENOBUFS, s6. split.
    { unfold bail_error at 1. by rewrite (bind_some _ _ _ _ _ E6). }
    split; [done|]. split; [by rewrite Hd6|right]. rewrite Hf6, (proj2 H15). done. }
  destruct Hc as (err & s' & Ec & Hne & Hl). exists err, sock, s'. by rewrite (bind_some _ _ _ _ _ Ec).
Qed.

Lemma scan_full args ready n : forall i v s,
  good s -> (la_server_id args < SERVER_STATUS_ARR_LENGTH)%nat -> full (l_db s) (la_server_id args) ->
  ready (la_listener_fd args) = true -> (forall j, ready j = true -> j = la_listener_fd args) ->
  i <= la_listener_fd args < i + Z.of_nat n ->
  exists err sock s', scan_fds notify args ready n i v s =
      Some (Exit err (ListenerVars sock (is_sock_sent_client v)), s') /\ 0 < err /\ left_socket sock s s'.
Proof.
  induction n as [|n IH]; intros i v s Hg Hi Hfull Hr Honly Hn; [lia|]. cbn [scan_fds].
  destruct (ready i) eqn:Hri; cbn [negb]; [|apply IH; try done].
  - rewrite (Honly i Hri), Z.eqb_refl. destruct (accept_full args s Hg Hi Hfull) as (err & sock & s' & E & Hne & Hl).
    exists err, sock, s'. rewrite (bind_some _ _ _ _ _ E). destruct (Z.eqb_spec err 0); [lia|done].
  - assert (i <> la_listener_fd args) by congruence. lia.
Qed.

(** A connection that arrives when a server has sixteen ends the server's thread:
    the turn in which the listening socket is ready leaves the loop with an error.
    The connection is closed, but nothing else is: the listening socket stays open
    and the database still says that the server is up. *)
Theorem full_server_ends_listener args v s :
  good s -> (la_server_id args < SERVER_STATUS_ARR_LENGTH)%nat -> full (l_db s) (la_server_id args) ->
  0 <= la_listener_fd args ->
  (let '(r, k) := sys (Select (fd_max_of args + 1) [la_listener_fd args; la_event_fd args] [] None) (l_os s) in
   0 <= r /\ read_set k (la_listener_fd args) = true /\ forall j, read_set k j = true -> j = la_listener_fd args) ->
  exists err v' s' s'', listener_turn notify args v s = Some (Exit err v', s') /\ err <> 0 /\
    listener_bail err v' s' = Some (tt, s'') /\ fds s'' = fds s /\ l_db s'' = l_db s.
Proof.
  intros Hg Hi Hfull H0 Hsel. unfold listener_turn.
  set (c := Select _ _ _ _) in *. destruct (sys c (l_os s)) as [r k] eqn:Es. destruct Hsel as (Hr & Hready & Honly).
  rewrite (bind_some _ _ _ _ _ (sys_eq c s r k Es)), (bind_some _ _ (set_los s k) _ (set_los s k) eq_refl).
  destruct (Z.ltb_spec r 0); [lia|]. cbn [andb]. rewrite (bind_some _ _ (set_los s k) _ (set_los s k) eq_refl).
  assert (Hg1 : good (set_los s k)) by (by destruct Hg).
  destruct (scan_full args (read_set k) (Z.to_nat (fd_max_of args + 1)) 0 (ListenerVars (new_sock v) false)
    (set_los s k) Hg1 Hi Hfull Hready Honly) as (err & sock & s' & E & Hne & Hd & Hl); [unfold fd_max_of; lia|].
  assert (Hk : fds (set_los s k) = fds s) by (by apply (keep_law c (l_os s) r k)).
  rewrite Hk in Hl. unfold listener_bail. cbn [new_sock is_sock_sent_client negb].
  destruct (close_on_error_result err sock s' s) as (s'' & E'' & Hs'' & Hf''); [lia|destruct Hl as [[-> ?]|?]; [left|by right]; split_and!; [done|done|lia]|].
  exists err, (ListenerVars sock false), s', s''. split; [exact E|]. split; [lia|].
  destruct Hf'' as [[? _]|[_ Hf'']]; [lia|].
  split; [|split; [done|rewrite Hs''; exact Hd]].
  cbn [new_sock is_sock_sent_client negb]. rewrite andb_true_r. exact E''.
Qed.

(** However the system behaves and whatever the callbacks return: the thread of a
    server and that of a connection have a result after any number of turns, and
    leave the database well formed - a server's status and its table name the same
    connections - and both mutexes free. *)
Theorem threads_safe n args cargs s :
  good s -> (la_server_id args < SERVER_STATUS_ARR_LENGTH)%nat ->
  (exists r s', listener_main_thread notify n args s = Some (r, s') /\ good s') /\
  (exists r s', client_connect_thread notify n cargs s = Some (r, s') /\ good s').
Proof using L Hnotify.
  intros Hg Hi. split.
  - assert (H : keeps (listener_main_thread notify n args)); [|by apply H].
    unfold listener_main_thread. apply keeps_seq; [|intros err].
    + unfold listener_start. keep. intros s' [Hd Hl Ht].
      destruct (listener_set_ok (l_db s') (la_server_id args) (la_listener_fd args) HANDLE_STATUS_UP Hd Hi) as (d & E & Hd').
      exists 0, (set_ldb s' d). split; [exact (on_db_eq (fun _ _ => _) _ _ _ E)|]. by constructor.
    + apply keeps_seq; [destruct (err =? 0); [by apply keeps_listener_loop|apply keeps_result]|].
      intros [v|err' v]; [apply keeps_result|]. unfold listener_bail. keep.
  - assert (H : keeps (client_connect_thread notify n cargs)); [|by apply H].
    unfold client_connect_thread. keep.
    + unfold connect_body. keep; try apply keeps_new_client. apply keeps_connect_loop.
    + destruct a0 as [[err sent]|]; [|apply keeps_result]. unfold connect_bail. keep.
Qed.
End ThreadProps.
