(* ===== verification/CommuEnds.v ===== *)
(** * Communication library: clients connected by a thread, and the end of the library

    A connection that a thread is to establish opens one socket or leaves all as it
    was; the end of the library waits for the connecting threads and releases its own
    socket and tables. *)

From S2P Require Import Prelude CommuDb Comp CommuSess CommuThread CommuSessProps CommuServer CommuThreadProps.
From stdpp Require Import strings.

Local Open Scope Z_scope.
Local Open Scope list_scope.

Section Ends.
Context {K : Type} {OS : SessionOs K} {L : SessionLaws K}.
Implicit Types s : lib K.

(** ** Clients *)

Lemma connect_thread_start_quiet fd ci clbk tval s :
  exists err ini s', connect_thread_start fd ci clbk tval s = Some ((err, ini), s') /\ 0 <= err /\ same s s'.
Proof.
  unfold connect_thread_start.
  destruct (quiet_bail _ _ (quiet_buffer fd) (quiet_priority fd) s) as (err & s1 & E1 & Herr & H1).
  rewrite (bind_some _ _ _ _ _ E1). destruct (negb (err =? 0)); [by do 3 eexists|].
  destruct (os_keep Malloc s1) as (args & s2 & E2 & H2 & _); [done..|]. rewrite (bind_some _ _ _ _ _ E2).
  assert (H12 : same s s2) by (by eapply same_trans).
  destruct (args =? 0); [by exists EINVAL, false, s2|].
  destruct (quiet_posix AttrInit eq_refl eq_refl eq_refl s2) as (r & s3 & E3 & Hr & H3). rewrite (bind_some _ _ _ _ _ E3).
  destruct (negb (r =? 0)); [exists r, false, s3; split_and!; [done..|by eapply same_trans]|].
  set (th := ThreadCreate _).
  destruct (quiet_bail _ _ (quiet_posix AttrSetdetachstate eq_refl eq_refl eq_refl) (quiet_posix th eq_refl eq_refl eq_refl) s3)
    as (r' & s4 & E4 & Hr' & H4). rewrite (bind_some _ _ _ _ _ E4).
  exists r', true, s4. split_and!; [done..|]. eapply same_trans; [done|by eapply same_trans].
Qed.

(** Starting a client that a thread connects: success leaves one new socket, for the
    thread; on a failure no descriptor is left open and nothing has changed. *)
Theorem client_non_blocking_outcomes ci clbk tval s :
  g_lib_commu_init_done s = true ->
  exists ret s', comm_lib_tcp_client_non_blocking_start (Some ci) (Some clbk) tval s = Some (ret, s') /\
    s' = set_los s (l_os s') /\
    (ret < 0 /\ fds s' = fds s \/ ret = 0 /\ exists fd, 0 <= fd /\ fd ∉ fds s /\ fds s' = {[fd]} ∪ fds s).
Proof.
  intros Hi. unfold comm_lib_tcp_client_non_blocking_start. rewrite (bind_some _ _ s _ s eq_refl), Hi. cbn [negb].
  destruct (socket_result (Socket AF_INET SOCK_STREAM) s) as (fd & s1 & E1 & Hs1 & Hfd); [done|].
  rewrite (bind_some _ _ _ _ _ E1). set (c := if fd <? 0 then _ else _).
  assert (Hc : exists err ini s2, c s1 = Some ((err, ini), s2) /\ 0 <= err /\ same s1 s2 /\ (fd = -1 -> err <> 0)).
  { unfold c. destruct Hfd as [(-> & He & _)|(H0 & _)].
    - exists (errno (l_os s1)), false, s1. split_and!; [done|lia|apply same_refl|lia].
    - destruct (Z.ltb_spec fd 0); [lia|]. destruct (connect_thread_start_quiet fd ci clbk tval s1) as (err & ini & s2 & E & ? & ?).
      exists err, ini, s2. split_and!; [done..|lia]. }
  destruct Hc as (err & ini & s2 & E2 & Herr & [Hs2 Hf2] & Hne). rewrite (bind_some _ _ _ _ _ E2).
  destruct (close_on_error_result err fd s2 s Herr) as (s3 & E3 & Hs3 & Hcase).
  { rewrite Hf2. destruct Hfd as [(-> & _ & Hf)|?]; [left; by auto|by right]. }
  rewrite (bind_some _ _ _ _ _ E3).
  assert (Hw : exists s4, when_ ini (os AttrDestroy) s3 = Some (tt, s4) /\ same s3 s4).
  { destruct ini; cbn [when_]; [|exists s3; split; [done|apply same_refl]].
    destruct (os_keep AttrDestroy s3) as (r & s4 & E4 & H4 & _); [done..|]. exists s4. split; [|done].
    by rewrite (bind_some _ _ _ _ _ E4). }
  destruct Hw as (s4 & E4 & Hs4 & Hf4). rewrite (bind_some _ _ _ _ _ E4).
  exists (- err), s4. split; [done|]. split; [by rewrite Hs4, Hs3, Hs2, Hs1|]. rewrite Hf4.
  destruct Hcase as [[-> ->]|[Hn Hf]]; [right; split; [done|]|left; split; [lia|done]].
  destruct Hfd as [(-> & _)|?]; [by destruct Hne|]. exists fd. by rewrite Hf2.
Qed.

(** ** The end of the library *)

(** While the caller sleeps connecting threads end: at least one of those there are,
    and each closes only sockets. *)
Definition threads_end (sleep : comp (lib K) unit) : Prop :=
  forall s, good s -> 0 < client_connect_thread_cnt s ->
    exists s', sleep s = Some (tt, s') /\ good s' /\ 0 <= client_connect_thread_cnt s' < client_connect_thread_cnt s /\
      fds s' ⊆ fds s /\ client_connect_exit_event_fd s' = client_connect_exit_event_fd s /\
      g_lib_commu_init_done s' = g_lib_commu_init_done s.

(** What the end of the library keeps until its last steps. *)
Record ending (X : gset Z) (fd : Z) s : Prop := Ending {
  en_good : good s;
  en_fds : fds s ⊆ X;
  en_exit : client_connect_exit_event_fd s = fd;
  en_init : g_lib_commu_init_done s = false }.

Lemma ending_same X fd s s' : same s s' -> ending X fd s -> ending X fd s'.
Proof. intros [H Hf] []. rewrite H in *. constructor; [by destruct en_good0|by rewrite Hf|done..]. Qed.

Lemma wait_ends sleep X fd n : threads_end sleep -> forall s,
  ending X fd s -> 0 <= client_connect_thread_cnt s < Z.of_nat n ->
  exists s', wait_connect_threads sleep n s = Some (tt, s') /\ ending X fd s' /\ client_connect_thread_cnt s' = 0.
Proof.
  intros Hsl. induction n as [|n IH]; intros s He Hn; [lia|]. cbn [wait_connect_threads].
  rewrite (bind_some _ _ s _ s eq_refl). destruct (Z.eqb_spec (client_connect_thread_cnt s) 0) as [H0|H0]; [by exists s|].
  destruct He as [Hg Hf Hx Hi]. destruct (Hsl s Hg) as (s1 & E1 & Hg1 & Hc1 & Hf1 & Hx1 & Hi1); [lia|].
  rewrite (bind_some _ _ _ _ _ E1). apply IH; [|lia]. constructor; [done|by etransitivity|congruence..].
Qed.

Lemma send_event_result path value s :
  exists err s', send_event path value s = Some (err, s') /\ 0 <= err /\ same s s'.
Proof.
  unfold send_event. destruct (socket_result (Socket AF_UNIX SOCK_DGRAM) s) as (fd & s1 & E1 & Hs1 & Hfd); [done|].
  rewrite (bind_some _ _ _ _ _ E1). destruct Hfd as [(-> & He & Hf)|(H0 & Hn & Hf)].
  { exists (errno (l_os s1)), s1. split_and!; [done|lia|by split]. }
  destruct (Z.ltb_spec fd 0); [lia|].
  destruct (quiet_check (Sendto fd value (UnixAddr path)) (fun _ => mret 0) eq_refl eq_refl) with (s := s1)
    as (err & s2 & E2 & Herr & [Hs2 Hf2]); [intros; by apply quiet_ret|].
  rewrite (bind_some _ _ _ _ _ E2).
  destruct (close_opened fd s2 s Hn H0) as (e & s3 & E3 & Hs3 & Hf3 & _); [by rewrite Hf2|].
  rewrite (bind_some _ _ _ _ _ E3). exists err, s3. split_and!; [done..|]. split; [by rewrite Hs3, Hs2, Hs1|done].
Qed.

Lemma best_effort_quiet err c : 0 <= err -> quiet c -> quiet (best_effort err c).
Proof.
  intros He Hc. apply (quiet_bind _ _ (fun r => 0 <= r)); [done|]. intros r Hr. apply quiet_ret. destruct (r =? 0); lia.
Qed.

Lemma deinit_tables s :
  good s -> exists s', lib_db_deinit s = Some (0, s') /\ good s' /\ fds s' = fds s /\
    g_lib_commu_init_done s' = g_lib_commu_init_done s /\ client_connect_thread_cnt s' = 0.
Proof.
  intros [Hd Hl Ht]. unfold lib_db_deinit, clear_threads. cbv [mbind comp_bind put modify].
  set (s1 := set_cnt _ _). destruct (deinit_ok (l_db s1)) as (d & E & Hd').
  { apply db_ok_exit_events, db_ok_threads, Hd. }
  exists (set_ldb s1 d). split; [by apply on_db_eq|]. split; [by constructor|done].
Qed.

(** The end of the library has a result: it waits until the connecting threads have
    ended, releases the socket that tells them to, opens nothing, and leaves the
    tables cleared and the library as before its initialisation. *)
Theorem deinit_complete sleep n s :
  good s -> g_lib_commu_init_done s = true -> threads_end sleep ->
  0 <= client_connect_thread_cnt s < Z.of_nat n -> client_connect_exit_event_fd s <> INVALID_HANDLE_ID ->
  exists ret s', comm_lib_deinit sleep n s = Some (ret, s') /\ good s' /\ g_lib_commu_init_done s' = false /\
    client_connect_thread_cnt s' = 0 /\ fds s' ⊆ fds s ∖ {[client_connect_exit_event_fd s]}.
Proof.
  intros Hg Hi Hsl Hn Hx. unfold comm_lib_deinit. rewrite (bind_some _ _ s _ s eq_refl), Hi. cbn [negb].
  set (s0 := set_init s false). rewrite (bind_some (put (fun s => set_init s false)) _ s tt s0 eq_refl).
  set (fd := client_connect_exit_event_fd s) in *.
  assert (H0 : ending (fds s) fd s0) by (by destruct Hg).
  destruct (best_effort_quiet 0 _ ltac:(done) (quiet_posix (MutexDestroy lock_listener_db_access) eq_refl eq_refl eq_refl) s0)
    as (e1 & s1 & E1 & He1 & H1). rewrite (bind_some _ _ _ _ _ E1).
  destruct (best_effort_quiet e1 _ He1 (quiet_posix (MutexDestroy lock_tcp_session_db_access) eq_refl eq_refl eq_refl) s1)
    as (e2 & s2 & E2 & He2 & H2). rewrite (bind_some _ _ _ _ _ E2).
  rewrite (bind_some _ _ s2 _ s2 eq_refl). set (c := if 0 <? _ then _ else _).
  assert (Hc : quiet c).
  { unfold c. destruct (0 <? _); [|by apply quiet_ret]. apply best_effort_quiet; [done|]. intros s'. apply send_event_result. }
  destruct (Hc s2) as (e3 & s3 & E3 & He3 & H3). rewrite (bind_some _ _ _ _ _ E3).
  assert (H03 : same s0 s3) by (do 2 (eapply same_trans; [eassumption|]); exact H3).
  destruct (wait_ends sleep (fds s) fd n Hsl s3) as (s4 & E4 & H4 & Hc4);
    [by eapply ending_same|destruct H03 as [-> _]; exact Hn|].
  rewrite (bind_some _ _ _ _ _ E4), (bind_some _ _ s4 _ s4 eq_refl). destruct H4 as [Hg4 Hf4 Hx4 Hi4].
  rewrite Hx4, decide_False by done.
  destruct (close_result fd s4 Hx) as (e & s5 & E5 & _ & Hs5 & Hf5 & _).
  rewrite (bind_some _ _ s4 (if e =? 0 then e3 else e) s5)
    by (unfold best_effort; by rewrite (bind_some _ _ _ _ _ E5)).
  destruct (deinit_tables s5) as (s6 & E6 & Hg6 & Hf6 & Hi6 & Hc6); [rewrite Hs5; by destruct Hg4|].
  unfold best_effort at 1. rewrite (bind_some _ _ s5 (if e =? 0 then e3 else e) s6)
    by (by rewrite (bind_some _ _ _ _ _ E6)).
  do 2 eexists. split; [reflexivity|]. split; [done|]. split; [by rewrite Hi6, Hs5|]. split; [done|].
  rewrite Hf6, Hf5. set_solver.
Qed.
End Ends.
