(* ===== verification/CommuSystem.v ===== *)
(** * Communication library: a system that keeps the laws

    The laws assumed of the operating system can hold: descriptors numbered above
    those in use, and no call that fails but the [close] of a descriptor that is not
    open.  On it the sessions run. *)

From S2P Require Import Prelude CommuDb Comp CommuSess CommuThread CommuSessProps CommuServer CommuThreadProps.
From stdpp Require Import strings.

Local Open Scope Z_scope.
Local Open Scope list_scope.

(** The open descriptors, and those that a [select] finds ready. *)
Record demo_system := DemoSystem { demo_open : gset Z; demo_ready : list Z }.

Definition next_fd (X : gset Z) : Z := 1 + foldr Z.max 2 (elements X).

Definition demo_sys (c : call) (k : demo_system) : Z * demo_system :=
  match c with
  | Socket _ _ | Accept _ =>
      let fd := next_fd (demo_open k) in (fd, DemoSystem ({[fd]} ∪ demo_open k) (demo_ready k))
  | Close fd =>
      (if decide (fd ∈ demo_open k) then 0 else -1, DemoSystem (demo_open k ∖ {[fd]}) (demo_ready k))
  | Malloc | Select _ _ _ _ => (1, k)
  | _ => (0, k)
  end.

#[export] Instance demo_os : SessionOs demo_system := {
  sys := demo_sys;
  errno _ := EINVAL;
  out_int _ := 77;
  out_addr _ := AddrInfo 10 20;
  out_time _ := Timeval 0 0;
  read_set k fd := bool_decide (fd ∈ demo_ready k);
  write_set k fd := bool_decide (fd ∈ demo_ready k);
  db_lock_ret _ := 0;
  db_unlock_ret _ := 0;
  peer_ret _ _ := (0, 0) }.

Lemma next_fd_above X : 3 <= next_fd X /\ next_fd X ∉ X.
Proof.
  unfold next_fd. assert (H : forall l : list Z, 2 <= foldr Z.max 2 l /\ forall x, x ∈ l -> x <= foldr Z.max 2 l).
  { induction l as [|y l [IH1 IH2]]; cbn; [split; [lia|set_solver]|]. split; [lia|].
    intros x [->|Hx]%elem_of_cons; [lia|]. specialize (IH2 x Hx). lia. }
  destruct (H (elements X)) as [H1 H2]. split; [lia|]. intros Hin%elem_of_elements%H2. lia.
Qed.

#[export] Program Instance demo_laws : SessionLaws demo_system := { opened := demo_open }.
Next Obligation.
  intros c k r k' Hm. destruct c; try done; intros [= <- <-]; right;
    destruct (next_fd_above (demo_open k)); split_and!; (done || lia).
Qed.
Next Obligation. intros fd k r k' [= <- <-]. split; [case_decide; lia|done]. Qed.
Next Obligation. intros c k r k' Hm He. by destruct c; try done; intros [= <- <-]. Qed.
Next Obligation. done. Qed.
Next Obligation. intros c k r k' Hp. by destruct c; try done; intros [= <- <-]. Qed.
Next Obligation. done. Qed.
Next Obligation. done. Qed.

#[export] Instance demo_close : ReliableClose demo_system.
Proof. intros fd k. cbn. by case_decide. Qed.

Definition demo_session_params : session_params := ip_session_params demo_params.
Definition demo_conn : connection_info := ConnInfo 0 0 167772161 80 1.
Definition demo_udp : udp_params := UdpParams CONN_TYPE_UDP_IP_UC demo_params.
Definition demo_k : demo_system := DemoSystem {[0; 1; 2]} [].
Definition demo_clbk : register_to_new_handle := Register 1 0.

(** Two sessions are started and one of them is stopped twice. *)
Example sessions_run :
  exists s outs s', comm_lib_init 0 (start_lib demo_k) = Some (0, s) /\
    run_sessions [Start (StartUdp demo_udp); Start (StartTcp demo_conn); Stop Udp 4; Stop Udp 4] s = Some (outs, s') /\
    outs = [(0, 4); (0, 5); (0, 4); (- EINVAL, 4)] /\
    fds s' = {[0; 1; 2; 3; 5]} /\ handles Udp (l_db s') = [] /\ handles Tcp (l_db s') = [5].
Proof.
  destruct (comm_lib_init 0 (start_lib demo_k)) as [[r s]|] eqn:E; vm_compute in E; [|done]. injection E as <- <-.
  do 3 eexists. split; [reflexivity|]. split; [vm_compute; reflexivity|]. split; [reflexivity|].
  split; [by apply (bool_decide_unpack _); vm_compute|by vm_compute].
Qed.

(** A callback that accepts every connection. *)
Definition accept_all (f h : Z) (a : addr_info) (d rc : Z) : comp (lib demo_system) Z := mret 0.

Definition make_ready (fd : Z) : comp (lib demo_system) unit :=
  put (fun s => set_los s (DemoSystem (demo_open (l_os s)) [fd])).

(** A server is started and its thread accepts sixteen connections; one more ends
    the thread, while the server is reported up and its listening socket is open. *)
Definition demo_server (turns : nat) : comp (lib demo_system) (Z * option Z * option Z) :=
  comm_lib_init 0;;
  out ← comm_lib_tcp_server_session_start demo_session_params (Some demo_clbk) (Some 0);
  make_ready 4;;
  ended ← listener_main_thread accept_all turns (ListenerArgs 5 0 0 4 demo_clbk demo_session_params);
  mret (out, ended).

Example server_runs_and_fills :
  (exists s, demo_server 16 (start_lib demo_k) = Some ((0, Some 0, None), s) /\ full (l_db s) 0 /\
     size (fds s) = 22%nat) /\
  (exists s, demo_server 17 (start_lib demo_k) = Some ((0, Some 0, Some ENOBUFS), s) /\ full (l_db s) 0 /\
     size (fds s) = 22%nat /\ 4 ∈ fds s /\ listener_status <$> (server_status_st (l_db s) !! 0%nat) = Some HANDLE_STATUS_UP).
Proof.
  split.
  - destruct (demo_server 16 (start_lib demo_k)) as [[r s]|] eqn:E; vm_compute in E; [|done]. injection E as <- <-.
    eexists. split; [reflexivity|]. split; [eexists; by split|by vm_compute].
  - destruct (demo_server 17 (start_lib demo_k)) as [[r s]|] eqn:E; vm_compute in E; [|done]. injection E as <- <-.
    eexists. split; [reflexivity|]. split; [eexists; by split|]. split; [by vm_compute|].
    split; [by apply (bool_decide_unpack _); vm_compute|by vm_compute].
Qed.
