(* ===== verification/EventDisp.v ===== *)
(** * The event dispatcher ([lib_event_disp.c])

    Clients open three datagram sockets, one per priority, and register events on
    them; an event that is generated is sent to every socket registered for it.
    The state is the static variables of the file.  The operating system is a
    class of calls.  A call on the dispatcher is a computation on the state that
    has no result when it waits for the mutex its own thread holds or leaves a
    buffer; the dump of the state to a file is left out. *)

From S2P Require Import Prelude Bytes Comp.
From stdpp Require Import strings pretty.

Local Open Scope Z_scope.
Local Open Scope list_scope.

Definition EVENT_DISP_MAX_BUFF_LEN : Z := 1500.
Definition EVENT_DISP_MAX_CON : nat := 10.
Definition EVENT_DISP_MAX_EVENTS : nat := 100.
Definition EVENT_DISP_MAX_SOCK : nat := EVENT_DISP_MAX_CON * 3.
Definition EVENT_DISP_SOCK_PATH_PREFIX : string := "/tmp/event_disp_fd_".
Definition EVENT_SEND_BLOCKING_MODE : Z := 1.
Definition EVENT_SEND_NON_BLOCKING_MODE : Z := 2.
Definition EVENT_SEND_NO_COPY : Z := 1.
Definition EVENT_SEND_WITH_COPY : Z := 2.
Definition HIGH_PRIO : Z := 1.
Definition MED_PRIO : Z := 2.
Definition LOW_PRIO : Z := 3.

(** ** Data *)

Inductive event_disp_status :=
| EVENT_DISP_STATUS_SUCCESS
| EVENT_DISP_STATUS_ALREADY_INIT
| EVENT_DISP_STATUS_NOT_INIT
| EVENT_DISP_STATUS_MUTEX_ERROR
| EVENT_DISP_STATUS_PARAM_NULL
| EVENT_DISP_STATUS_PARAM_RANGE
| EVENT_DISP_STATUS_PARAM_INVALID
| EVENT_DISP_STATUS_MAX_CONNETIONS
| EVENT_DISP_STATUS_SOCKET_ERROR
| EVENT_DISP_STATUS_SEND_ERROR
| EVENT_DISP_STATUS_ERROR.

#[export] Instance event_disp_status_eq_dec : EqDecision event_disp_status.
Proof. solve_decision. Defined.

Record event_disp_fds := Fds { high_fd : Z; med_fd : Z; low_fd : Z }.

#[export] Instance event_disp_fds_eq_dec : EqDecision event_disp_fds.
Proof. solve_decision. Defined.

(** The three descriptors in the order the code treats them. *)
Definition fds_list (f : event_disp_fds) : list Z := [high_fd f; med_fd f; low_fd f].

(** The event and the data of a message; the event is an [int] before the data. *)
Record event_disp_msg := Msg { event : Z; buff : bytes }.
Definition sizeof_event : Z := 4.
Definition sizeof_event_disp_msg : Z := sizeof_event + EVENT_DISP_MAX_BUFF_LEN.

(** ** The operating system *)

(** What becomes of a datagram. *)
Inductive send_result := Sent | WouldBlock | SendFailed.

(** System calls that report failure yield [false], or -1 for a descriptor. *)
Class EventSockets (W : Type) := {
  es_socket : W -> Z * W;
  es_bind : Z -> string -> W -> bool * W;
  es_unlink : string -> W -> W;
  es_close : Z -> W -> bool * W;
  es_nonblock : Z -> W -> bool * W;
  es_sendto : Z -> bytes -> string -> W -> send_result * W;
  es_recv : Z -> Z -> W -> option bytes * W;
  es_getpid : Z;
  es_mutex_init : W -> bool * W;
  es_mutex_destroy : W -> bool * W;
  es_mutex_lock : W -> bool * W;
  es_mutex_unlock : W -> bool * W }.

(** The static variables, whether the mutex is held, and the system. *)
Record disp (W : Type) := Disp {
  event_disp_db : list (list Z);
  event_disp_fds_db : list Z;
  event_disp_con : Z;
  event_disp_gen_counter : list Z;
  event_disp_rcv_counter : list Z;
  event_disp_total_gen_counter : Z;
  event_disp_total_rcv_counter : Z;
  event_disp_init : bool;
  mutex_held : bool;
  system : W }.
Arguments Disp {W} _ _ _ _ _ _ _ _ _ _.
Arguments event_disp_db {W} _.
Arguments event_disp_fds_db {W} _.
Arguments event_disp_con {W} _.
Arguments event_disp_gen_counter {W} _.
Arguments event_disp_rcv_counter {W} _.
Arguments event_disp_total_gen_counter {W} _.
Arguments event_disp_total_rcv_counter {W} _.
Arguments event_disp_init {W} _.
Arguments mutex_held {W} _.
Arguments system {W} _.

Section EventDisp.
Context {W : Type} {OS : EventSockets W}.
Abbreviation M := (comp (disp W)).
Abbreviation status := event_disp_status.
Abbreviation SUCCESS := EVENT_DISP_STATUS_SUCCESS.

Definition set_db (d : disp W) v : disp W :=
  Disp v (event_disp_fds_db d) (event_disp_con d) (event_disp_gen_counter d) (event_disp_rcv_counter d)
    (event_disp_total_gen_counter d) (event_disp_total_rcv_counter d) (event_disp_init d) (mutex_held d) (system d).
Definition set_fds_db (d : disp W) v : disp W :=
  Disp (event_disp_db d) v (event_disp_con d) (event_disp_gen_counter d) (event_disp_rcv_counter d)
    (event_disp_total_gen_counter d) (event_disp_total_rcv_counter d) (event_disp_init d) (mutex_held d) (system d).
Definition set_con (d : disp W) v : disp W :=
  Disp (event_disp_db d) (event_disp_fds_db d) v (event_disp_gen_counter d) (event_disp_rcv_counter d)
    (event_disp_total_gen_counter d) (event_disp_total_rcv_counter d) (event_disp_init d) (mutex_held d) (system d).
Definition set_gen (d : disp W) v t : disp W :=
  Disp (event_disp_db d) (event_disp_fds_db d) (event_disp_con d) v (event_disp_rcv_counter d)
    t (event_disp_total_rcv_counter d) (event_disp_init d) (mutex_held d) (system d).
Definition set_rcv (d : disp W) v t : disp W :=
  Disp (event_disp_db d) (event_disp_fds_db d) (event_disp_con d) (event_disp_gen_counter d) v
    (event_disp_total_gen_counter d) t (event_disp_init d) (mutex_held d) (system d).
Definition set_init (d : disp W) v : disp W :=
  Disp (event_disp_db d) (event_disp_fds_db d) (event_disp_con d) (event_disp_gen_counter d) (event_disp_rcv_counter d)
    (event_disp_total_gen_counter d) (event_disp_total_rcv_counter d) v (mutex_held d) (system d).
Definition set_held (d : disp W) v : disp W :=
  Disp (event_disp_db d) (event_disp_fds_db d) (event_disp_con d) (event_disp_gen_counter d) (event_disp_rcv_counter d)
    (event_disp_total_gen_counter d) (event_disp_total_rcv_counter d) (event_disp_init d) v (system d).
Definition set_system (d : disp W) v : disp W :=
  Disp (event_disp_db d) (event_disp_fds_db d) (event_disp_con d) (event_disp_gen_counter d) (event_disp_rcv_counter d)
    (event_disp_total_gen_counter d) (event_disp_total_rcv_counter d) (event_disp_init d) (mutex_held d) v.

Definition os {A} (f : W -> A * W) : M A := fun d => let '(a, w) := f (system d) in Some (a, set_system d w).
Definition os_ (f : W -> W) : M unit := modify (fun d => set_system d (f (system d))).

(** Waiting for the mutex the thread holds itself does not end. *)
Definition mutex_lock : M bool :=
  held ← gets mutex_held;
  if (held : bool) then access None
  else
    ok ← os es_mutex_lock;
    (if (ok : bool) then modify (fun d => set_held d true) else mret tt);;
    mret ok.
Definition mutex_unlock : M bool :=
  ok ← os es_mutex_unlock;
  (if (ok : bool) then modify (fun d => set_held d false) else mret tt);;
  mret ok.

(** The path of a socket; its length is below that of [sun_path]. *)
Definition sun_path (fd : Z) : string :=
  EVENT_DISP_SOCK_PATH_PREFIX +:+ pretty fd +:+ "_" +:+ pretty es_getpid.

(** The loops that put a value in the first place that holds -1, and that clear
    the first place that holds a value. *)
Fixpoint put_first (x : Z) (l : list Z) : list Z :=
  match l with
  | [] => []
  | y :: l => if decide (y = -1) then x :: l else y :: put_first x l
  end.
Fixpoint clear_first (x : Z) (l : list Z) : list Z :=
  match l with
  | [] => []
  | y :: l => if decide (x = y) then -1 :: l else y :: clear_first x l
  end.

(** ** Sockets *)

(** The callers give a pointer that is not null: the status and the descriptor. *)
Definition event_disp_open_socket : M (status * Z) :=
  local_fd ← os es_socket;
  if decide (local_fd = -1) then mret (EVENT_DISP_STATUS_SOCKET_ERROR, -1)
  else
    os_ (es_unlink (sun_path local_fd));;
    bound ← os (es_bind local_fd (sun_path local_fd));
    if negb bound then os (es_close local_fd);; mret (EVENT_DISP_STATUS_SOCKET_ERROR, -1)
    else
      modify (fun d => set_fds_db d (put_first local_fd (event_disp_fds_db d)));;
      mret (SUCCESS, local_fd).

Definition event_disp_close_socket (fd : Z) : M status :=
  if decide (fd < 0) then mret EVENT_DISP_STATUS_PARAM_INVALID
  else
    closed ← os (es_close fd);
    os_ (es_unlink (sun_path fd));;
    modify (fun d => set_fds_db d (clear_first fd (event_disp_fds_db d)));;
    mret (if (closed : bool) then SUCCESS else EVENT_DISP_STATUS_SOCKET_ERROR).

(** ** Initialisation and end *)

(** The [memset]s of the tables and counters. *)
Definition reset_db (d : disp W) : disp W :=
  Disp (replicate EVENT_DISP_MAX_EVENTS (replicate EVENT_DISP_MAX_CON (-1)))
    (replicate EVENT_DISP_MAX_SOCK (-1)) 0
    (replicate EVENT_DISP_MAX_EVENTS 0) (replicate EVENT_DISP_MAX_EVENTS 0) 0 0
    (event_disp_init d) (mutex_held d) (system d).

Definition event_disp_api_init : M status :=
  inited ← gets event_disp_init;
  if (inited : bool) then mret EVENT_DISP_STATUS_ALREADY_INIT
  else
    modify reset_db;;
    ok ← os es_mutex_init;
    if negb ok then mret EVENT_DISP_STATUS_MUTEX_ERROR
    else modify (fun d => set_init (set_held d false) true);; mret SUCCESS.

(** The loop that closes all sockets, from the given place on; the first error is
    kept. *)
Fixpoint close_all (n fd_id : nat) (err : status) : M status :=
  match n with
  | O => mret err
  | S n =>
      fds ← gets event_disp_fds_db; fd ← access (fds !! fd_id);
      if decide (fd >= 0) then
        tmp_err ← event_disp_close_socket fd;
        close_all n (S fd_id) (if decide (err = SUCCESS) then tmp_err else err)
      else close_all n (S fd_id) err
  end.

Definition event_disp_api_deinit : M status :=
  inited ← gets event_disp_init;
  if negb inited then mret EVENT_DISP_STATUS_NOT_INIT
  else
    err ← close_all EVENT_DISP_MAX_SOCK 0 SUCCESS;
    modify reset_db;;
    ok ← os es_mutex_destroy;
    modify (fun d => set_init d false);;
    mret (if negb ok && bool_decide (err = SUCCESS) then EVENT_DISP_STATUS_MUTEX_ERROR else err).

(** ** Clients *)

(** Opens the sockets one after the other; the structure after each step. *)
Definition open_sockets : M (status * event_disp_fds) :=
  '(err, h) ← event_disp_open_socket;
  if decide (err <> SUCCESS) then mret (err, Fds h (-1) (-1))
  else
    '(err, m) ← event_disp_open_socket;
    if decide (err <> SUCCESS) then mret (err, Fds h m (-1))
    else
      '(err, l) ← event_disp_open_socket;
      if decide (err <> SUCCESS) then mret (err, Fds h m l)
      else
        modify (fun d => set_con d (u32 (event_disp_con d + 1)));;
        mret (SUCCESS, Fds h m l).

(** On failure: every descriptor of the structure but -1 is closed. *)
Definition close_members (fds : event_disp_fds) : M unit :=
  for_each (fun fd => if decide (fd <> -1) then event_disp_close_socket fd;; mret tt else mret tt) (fds_list fds).

(** The structure of the caller is read and written: what it holds on entry, and
    in the end. *)
Definition event_disp_api_open (fds : option event_disp_fds) : M (status * option event_disp_fds) :=
  inited ← gets event_disp_init;
  let bail (err : status) (fds : event_disp_fds) (locked : bool) :=
    (if decide (err <> SUCCESS) then close_members fds else mret tt);;
    (if locked then mutex_unlock;; mret tt else mret tt);;
    mret (err, Some fds) in
  match fds with
  | None => mret (if (inited : bool) then EVENT_DISP_STATUS_PARAM_NULL else EVENT_DISP_STATUS_NOT_INIT, None)
  | Some fds =>
      if negb inited then bail EVENT_DISP_STATUS_NOT_INIT fds false
      else
        ok ← mutex_lock;
        if negb ok then bail EVENT_DISP_STATUS_MUTEX_ERROR fds false
        else
          con ← gets event_disp_con;
          if decide (con >= Z.of_nat EVENT_DISP_MAX_CON) then bail EVENT_DISP_STATUS_MAX_CONNETIONS fds true
          else '(err, fds) ← open_sockets; bail err fds true
  end.

(** Every place of a row that holds a descriptor of the client becomes -1. *)
Definition remove_fds (fds : event_disp_fds) (row : list Z) : list Z :=
  (fun temp_fd => if decide (high_fd fds = temp_fd \/ med_fd fds = temp_fd \/ low_fd fds = temp_fd)
                  then -1 else temp_fd) <$> row.

Definition event_disp_api_close (fds : option event_disp_fds) : M status :=
  inited ← gets event_disp_init;
  if negb inited then mret EVENT_DISP_STATUS_NOT_INIT
  else
    match fds with
    | None => mret EVENT_DISP_STATUS_PARAM_NULL
    | Some fds =>
        ok ← mutex_lock;
        if negb ok then mret EVENT_DISP_STATUS_MUTEX_ERROR
        else
          modify (fun d => set_db d (remove_fds fds <$> event_disp_db d));;
          err_h ← event_disp_close_socket (high_fd fds);
          err_m ← event_disp_close_socket (med_fd fds);
          err_l ← event_disp_close_socket (low_fd fds);
          let err := if decide (err_h = SUCCESS) then if decide (err_m = SUCCESS) then err_l else err_m else err_h in
          ok ← mutex_unlock;
          mret (if negb ok && bool_decide (err = SUCCESS) then EVENT_DISP_STATUS_MUTEX_ERROR else err)
    end.

(** ** Registration *)

(** A change of the row of an event; events out of range are passed over. *)
Definition alter_event (f : list Z -> list Z) (ev : Z) : M unit :=
  if decide (ev < Z.of_nat EVENT_DISP_MAX_EVENTS /\ 0 <= ev)
  then modify (fun d => set_db d (alter f (Z.to_nat ev) (event_disp_db d)))
  else mret tt.

(** The events given: an array with at least that many elements. *)
Definition read_events (events : list Z) (num_of_events : Z) : M (list Z) :=
  access (if decide (num_of_events <= Z.of_nat (length events))
          then Some (take (Z.to_nat num_of_events) events) else None).

(** The tests both functions begin with. *)
Definition check_registration (inited : bool) (fds : option event_disp_fds) (events : option (list Z))
    (num_of_events : Z) : status + (event_disp_fds * list Z) :=
  if negb inited then inl EVENT_DISP_STATUS_NOT_INIT
  else
    match fds, events with
    | None, _ | _, None => inl EVENT_DISP_STATUS_PARAM_NULL
    | Some fds, Some events =>
        if decide (num_of_events = 0 \/ num_of_events > Z.of_nat EVENT_DISP_MAX_EVENTS)
        then inl EVENT_DISP_STATUS_PARAM_RANGE else inr (fds, events)
    end.

Definition event_disp_api_unregister_events (fds : option event_disp_fds) (events : option (list Z))
    (num_of_events : Z) : M status :=
  inited ← gets event_disp_init;
  match check_registration inited fds events num_of_events with
  | inl err => mret err
  | inr (fds, events) =>
      ok ← mutex_lock;
      if negb ok then mret EVENT_DISP_STATUS_MUTEX_ERROR
      else
        evs ← read_events events num_of_events;
        for_each (alter_event (remove_fds fds)) evs;;
        ok ← mutex_unlock;
        mret (if (ok : bool) then SUCCESS else EVENT_DISP_STATUS_MUTEX_ERROR)
  end.

(** The descriptor of a priority. *)
Definition fd_of_prio (fds : event_disp_fds) (prio : Z) : option Z :=
  if decide (prio = HIGH_PRIO) then Some (high_fd fds)
  else if decide (prio = MED_PRIO) then Some (med_fd fds)
  else if decide (prio = LOW_PRIO) then Some (low_fd fds)
  else None.

Definition event_disp_api_register_events (fds : option event_disp_fds) (prio : Z) (events : option (list Z))
    (num_of_events : Z) : M status :=
  inited ← gets event_disp_init;
  match check_registration inited fds events num_of_events with
  | inl err => mret err
  | inr (f, evs) =>
      err ← event_disp_api_unregister_events fds events num_of_events;
      if decide (err <> SUCCESS) then mret err
      else
        match fd_of_prio f prio with
        | None => mret EVENT_DISP_STATUS_PARAM_INVALID
        | Some fd =>
            if decide (fd < 0) then mret EVENT_DISP_STATUS_PARAM_INVALID
            else
              ok ← mutex_lock;
              if negb ok then mret EVENT_DISP_STATUS_MUTEX_ERROR
              else
                evs ← read_events evs num_of_events;
                for_each (alter_event (put_first fd)) evs;;
                ok ← mutex_unlock;
                mret (if (ok : bool) then SUCCESS else EVENT_DISP_STATUS_MUTEX_ERROR)
        end
  end.

(** ** Events *)

(** The loop over the row of the event: the error, the error of a send, and the
    socket still open. *)
Fixpoint send_loop (row : list Z) (data : bytes) (mode : Z) (send_err : status) (socket_fd : Z)
    : M (status * status * Z) :=
  match row with
  | [] => mret (SUCCESS, send_err, socket_fd)
  | reg :: row =>
      closed ← (if decide (socket_fd <> -1) then os (es_close socket_fd) else mret true);
      if negb closed then mret (EVENT_DISP_STATUS_SOCKET_ERROR, send_err, socket_fd)
      else if decide (reg = -1) then send_loop row data mode send_err (-1)
      else
        socket_fd ← os es_socket;
        if decide (socket_fd = -1) then mret (EVENT_DISP_STATUS_SOCKET_ERROR, send_err, -1)
        else
          set ← (if decide (mode = EVENT_SEND_NON_BLOCKING_MODE) then os (es_nonblock socket_fd) else mret true);
          if negb set then mret (EVENT_DISP_STATUS_SOCKET_ERROR, send_err, socket_fd)
          else
            sent ← os (es_sendto socket_fd data (sun_path reg));
            match sent with
            | Sent | WouldBlock => send_loop row data mode send_err socket_fd
            | SendFailed => send_loop row data mode EVENT_DISP_STATUS_SEND_ERROR socket_fd
            end
  end.

Definition count_generated (ev : Z) : M unit :=
  modify (fun d => set_gen d (alter (fun n => u64 (n + 1)) (Z.to_nat ev) (event_disp_gen_counter d))
    (u64 (event_disp_total_gen_counter d + 1))).

(** The message: what the caller's buffer becomes and the bytes to send.  Without
    copy the event is written over the first two bytes of the buffer. *)
Definition prepare_message (ev : Z) (data_buff : option bytes) (data_size no_copy : Z) : option (option bytes * bytes) :=
  if decide (no_copy = EVENT_SEND_NO_COPY) then
    match data_buff with
    | Some b =>
        if decide (data_size <> 0) then
          b ← write_bytes b 0 (le16 ev); data ← read_bytes b 0 data_size; Some (Some b, data)
        else Some (data_buff, le16 ev)
    | None => Some (data_buff, le16 ev)
    end
  else if decide (no_copy = EVENT_SEND_WITH_COPY) then
    let msg := le32 ev ++ replicate (Z.to_nat EVENT_DISP_MAX_BUFF_LEN) 0 in
    msg ← match data_buff with
          | Some b => if decide (data_size <> 0) then data ← read_bytes b 0 data_size; write_bytes msg sizeof_event data
                      else Some msg
          | None => Some msg
          end;
    data ← read_bytes msg 0 (sizeof_event + data_size); Some (data_buff, data)
  else Some (data_buff, []).

(** The status and what the caller's buffer becomes. *)
Definition event_disp_api_generate_event_mode (ev : Z) (data_buff : option bytes) (data_size mode no_copy : Z)
    : M (status * option bytes) :=
  inited ← gets event_disp_init;
  if negb inited then mret (EVENT_DISP_STATUS_NOT_INIT, data_buff)
  else if decide (no_copy = EVENT_SEND_WITH_COPY /\ data_size > EVENT_DISP_MAX_BUFF_LEN)
  then mret (EVENT_DISP_STATUS_PARAM_RANGE, data_buff)
  else if decide (ev >= Z.of_nat EVENT_DISP_MAX_EVENTS \/ ev < 0) then mret (EVENT_DISP_STATUS_PARAM_RANGE, data_buff)
  else
    ok ← mutex_lock;
    if negb ok then mret (EVENT_DISP_STATUS_MUTEX_ERROR, data_buff)
    else
      '(data_buff, data) ← access (prepare_message ev data_buff data_size no_copy);
      rows ← gets event_disp_db; row ← access (rows !! Z.to_nat ev);
      '(err, send_err, socket_fd) ← send_loop row data mode SUCCESS (-1);
      (if decide (err = SUCCESS) then count_generated ev else mret tt);;
      (if decide (socket_fd <> -1) then os (es_close socket_fd);; mret tt else mret tt);;
      mutex_unlock;;
      mret (if decide (err = SUCCESS) then send_err else err, data_buff).

Definition event_disp_api_generate_event_no_copy (ev : Z) (data_buff : option bytes) (data_size : Z) :=
  event_disp_api_generate_event_mode ev data_buff data_size EVENT_SEND_NON_BLOCKING_MODE EVENT_SEND_NO_COPY.
Definition event_disp_api_generate_event (ev : Z) (data_buff : option bytes) (data_size : Z) :=
  event_disp_api_generate_event_mode ev data_buff data_size EVENT_SEND_NON_BLOCKING_MODE EVENT_SEND_WITH_COPY.
Definition event_disp_api_generate_event_blocking (ev : Z) (data_buff : option bytes) (data_size : Z) :=
  event_disp_api_generate_event_mode ev data_buff data_size EVENT_SEND_BLOCKING_MODE EVENT_SEND_WITH_COPY.

Definition count_received (ev : Z) : M unit :=
  modify (fun d => set_rcv d
    (if decide (0 <= ev < Z.of_nat EVENT_DISP_MAX_EVENTS)
     then alter (fun n => u64 (n + 1)) (Z.to_nat ev) (event_disp_rcv_counter d) else event_disp_rcv_counter d)
    (u64 (event_disp_total_rcv_counter d + 1))).

(** The event of a message in memory. *)
Definition msg_event (b : bytes) : option Z := int32 ∘ of_le <$> read_bytes b 0 sizeof_event.

(** The caller's message is its bytes: the status and what they become. *)
Definition event_disp_api_get_event (fd : Z) (rcv_msg : option bytes) : M (status * option bytes) :=
  match rcv_msg with
  | None => mret (EVENT_DISP_STATUS_PARAM_NULL, None)
  | Some b =>
      if decide (fd < 0) then mret (EVENT_DISP_STATUS_PARAM_INVALID, Some b)
      else
        r ← os (es_recv fd sizeof_event_disp_msg);
        match r with
        | None => mret (EVENT_DISP_STATUS_SOCKET_ERROR, Some b)
        | Some data =>
            b ← access (write_bytes b 0 data); ev ← access (msg_event b);
            if decide (ev >= Z.of_nat EVENT_DISP_MAX_EVENTS \/ ev < 0)
            then mret (EVENT_DISP_STATUS_PARAM_RANGE, Some b)
            else count_received ev;; mret (SUCCESS, Some b)
        end
  end.

Definition event_disp_api_get_event_to_user_buf (fd : Z) (rcv_msg : option bytes) (rcv_size : Z)
    : M (status * option bytes) :=
  match rcv_msg with
  | None => mret (EVENT_DISP_STATUS_PARAM_NULL, None)
  | Some b =>
      if decide (fd < 0) then mret (EVENT_DISP_STATUS_PARAM_INVALID, Some b)
      else
        r ← os (es_recv fd (u64 rcv_size));
        match r with
        | None => mret (EVENT_DISP_STATUS_SOCKET_ERROR, Some b)
        | Some data =>
            b ← access (write_bytes b 0 data); ev ← access (msg_event b);
            count_received ev;; mret (SUCCESS, Some b)
        end
  end.

(** ** Queries *)

(** The pointers may be null; a number is yielded with success only. *)
Definition event_disp_api_get_connections_number (con : bool) : M (status * Z) :=
  inited ← gets event_disp_init;
  if negb inited then mret (EVENT_DISP_STATUS_NOT_INIT, 0)
  else if negb con then mret (EVENT_DISP_STATUS_PARAM_NULL, 0)
  else n ← gets event_disp_con; mret (SUCCESS, n).

Definition event_disp_api_get_event_generation_number (ev : Z) (gen_num : bool) : M (status * Z) :=
  inited ← gets event_disp_init;
  if negb inited then mret (EVENT_DISP_STATUS_NOT_INIT, 0)
  else if negb gen_num then mret (EVENT_DISP_STATUS_PARAM_NULL, 0)
  else if decide (ev >= Z.of_nat EVENT_DISP_MAX_EVENTS \/ ev < 0) then mret (EVENT_DISP_STATUS_PARAM_RANGE, 0)
  else ns ← gets event_disp_gen_counter; n ← access (ns !! Z.to_nat ev); mret (SUCCESS, n).

Definition event_disp_api_is_init : M bool := gets event_disp_init.
End EventDisp.
