(* ===== verification/EventDispSpec.v ===== *)
(** * The event dispatcher: tables, sockets and the abstract dispatcher

    What the dispatcher relies on of datagram sockets, the effect of its loops on
    the rows of its tables, and the dispatcher its clients see: which client is
    registered for which event on which descriptor, and the messages each
    descriptor has not received yet. *)

From S2P Require Import Prelude Bytes Comp EventDisp.
From stdpp Require Import strings pretty.

Local Open Scope Z_scope.
Local Open Scope list_scope.

(** ** Rows of a table *)

(** The entries of a row: what is not -1. *)
Definition live (row : list Z) : list Z := base.filter (fun x => x <> -1) row.

Lemma live_cons x row : live (x :: row) = if decide (x = -1) then live row else x :: live row.
Proof. unfold live. rewrite filter_cons. repeat case_decide; done || lia. Qed.

Lemma live_replicate n : live (replicate n (-1)) = [].
Proof. induction n as [|n IH]; [done|]. cbn [replicate]. by rewrite live_cons. Qed.

Lemma elem_of_live x row : x ∈ live row <-> x <> -1 /\ x ∈ row.
Proof. unfold live. by rewrite list_elem_of_filter. Qed.

Lemma put_first_length x row : length (put_first x row) = length row.
Proof. induction row as [|y row IH]; [done|]. cbn [put_first]. case_decide; cbn [length]; by rewrite ?IH. Qed.

Lemma clear_first_length x row : length (clear_first x row) = length row.
Proof. induction row as [|y row IH]; [done|]. cbn [clear_first]. case_decide; cbn [length]; by rewrite ?IH. Qed.

Lemma remove_fds_length c row : length (remove_fds c row) = length row.
Proof. apply length_fmap. Qed.

Lemma live_length row : (length (live row) <= length row)%nat.
Proof. apply length_filter. Qed.

(** A row that is not full takes one more entry. *)
Lemma live_put_first x row :
  x <> -1 -> (length (live row) < length row)%nat -> live (put_first x row) ≡ₚ x :: live row.
Proof.
  intros Hx. induction row as [|y row IH]; cbn [length]; [intros H; cbn in H; lia|].
  rewrite live_cons. cbn [put_first]. case_decide as Hy.
  - intros _. by rewrite live_cons, decide_False by done.
  - cbn [length]. intros H. rewrite live_cons, decide_False by done. rewrite IH by lia. apply Permutation_swap.
Qed.

Lemma live_clear_first x row : x <> -1 -> x ∈ row -> x :: live (clear_first x row) ≡ₚ live row.
Proof.
  intros Hx. induction row as [|y row IH]; [by intros ?%elem_of_nil|].
  cbn [clear_first]. intros Hin. case_decide as Hy.
  - subst y. by rewrite !live_cons, decide_True, decide_False by done.
  - apply elem_of_cons in Hin as [->|Hin]; [done|]. rewrite !live_cons. case_decide; [by apply IH|].
    rewrite <- (IH Hin). apply Permutation_swap.
Qed.

Lemma live_remove_fds c row :
  live (remove_fds c row) = base.filter (fun x => x ∉ fds_list c) (live row).
Proof.
  induction row as [|y row IH]; [done|]. unfold remove_fds in *. cbn [fmap list_fmap]. rewrite !live_cons, IH.
  assert (Hc : (high_fd c = y \/ med_fd c = y \/ low_fd c = y) <-> y ∈ fds_list c).
  { unfold fds_list. rewrite !elem_of_cons, elem_of_nil. naive_solver. }
  destruct (decide (y = -1)) as [->|Hy]; [by destruct (decide (_ \/ _))|].
  rewrite filter_cons. destruct (decide (_ \/ _)) as [H|H].
  - rewrite decide_True by done. rewrite decide_False; [done|]. intros Hn. by apply Hn, Hc.
  - rewrite decide_False by done. rewrite decide_True; [done|]. by intros Hn%Hc.
Qed.

(** ** Datagram sockets *)

(** Open descriptors, the socket that listens at a path, the datagrams a socket
    holds, and when a socket holds too many for another.  Calls are not interrupted:
    an open socket is closed, a datagram that is there is received, and the calls on
    the mutex succeed. *)
Class EventSocketsLaws (W : Type) {OS : EventSockets W} := {
  open_fds : W -> gset Z;
  listens : W -> string -> option Z;
  inbox : W -> Z -> list bytes;
  es_full : list bytes -> Prop;
  es_socket_law w fd w' : es_socket w = (fd, w') ->
    (fd = -1 /\ open_fds w' = open_fds w /\ listens w' = listens w /\ inbox w' = inbox w) \/
    (0 <= fd /\ fd ∉ open_fds w /\ open_fds w' = {[fd]} ∪ open_fds w /\ listens w' = listens w /\
     inbox w' fd = [] /\ forall x, x <> fd -> inbox w' x = inbox w x);
  es_bind_law fd p w ok w' : es_bind fd p w = (ok, w') ->
    open_fds w' = open_fds w /\ inbox w' = inbox w /\
    (forall q, q <> p -> listens w' q = listens w q) /\
    (if (ok : bool) then listens w' p = Some fd else listens w' p = listens w p);
  es_unlink_law p w :
    open_fds (es_unlink p w) = open_fds w /\ inbox (es_unlink p w) = inbox w /\
    (forall q, q <> p -> listens (es_unlink p w) q = listens w q);
  es_close_law fd w ok w' : es_close fd w = (ok, w') ->
    open_fds w' = open_fds w ∖ {[fd]} /\ (fd ∈ open_fds w -> ok = true) /\
    (forall x, x <> fd -> inbox w' x = inbox w x) /\
    (forall p x, listens w p = Some x -> x <> fd -> listens w' p = Some x);
  es_nonblock_law fd w ok w' : es_nonblock fd w = (ok, w') ->
    open_fds w' = open_fds w /\ inbox w' = inbox w /\ listens w' = listens w;
  es_sendto_law fd data p w r w' : es_sendto fd data p w = (r, w') ->
    open_fds w' = open_fds w /\ listens w' = listens w /\
    match r with
    | Sent => exists x, listens w p = Some x /\ inbox w' x = inbox w x ++ [data] /\
                        forall y, y <> x -> inbox w' y = inbox w y
    | WouldBlock => inbox w' = inbox w /\ forall x, listens w p = Some x -> es_full (inbox w x)
    | SendFailed => inbox w' = inbox w
    end;
  es_recv_law fd n w r w' : es_recv fd n w = (r, w') ->
    open_fds w' = open_fds w /\ listens w' = listens w /\ (forall y, y <> fd -> inbox w' y = inbox w y) /\
    match r with
    | Some data => exists m, inbox w fd = m :: inbox w' fd /\ data = take (Z.to_nat n) m
    | None => inbox w' fd = inbox w fd /\ (fd ∈ open_fds w -> inbox w fd = [])
    end;
  es_mutex_law (f : W -> bool * W) w :
    f ∈ [es_mutex_init; es_mutex_destroy; es_mutex_lock; es_mutex_unlock] ->
    fst (f w) = true /\ open_fds (snd (f w)) = open_fds w /\ listens (snd (f w)) = listens w /\
    inbox (snd (f w)) = inbox w }.
Section Sockets.
Context {W : Type} {OS : EventSockets W} {LAWS : EventSocketsLaws W}.

Lemma sun_path_inj x y : sun_path x = sun_path y -> x = y.
Proof.
  unfold sun_path. intros H%(inj _). set (t := ("_" +:+ pretty es_getpid)%string) in *. clearbody t.
  assert (Hc : forall s1 s2 : string, (s1 +:+ t)%string = (s2 +:+ t)%string -> s1 = s2).
  { clear. intros s1 s2 H. assert (Hl : String.length s1 = String.length s2).
    { apply (f_equal String.length) in H. revert H. assert (L : forall a b, String.length (a +:+ b) = (String.length a + String.length b)%nat).
      { induction a as [|c a IH]; intros b; [done|]. exact (f_equal S (IH b)). } rewrite !L. lia. }
    revert s2 H Hl. induction s1 as [|c s1 IH]; intros [|c' s2] H Hl; cbn in *; try done. injection H as -> H.
    f_equal. apply IH; [done|lia]. }
  apply Hc in H. by apply (inj pretty).
Qed.

(** The sockets [D] are open and reachable and hold the datagrams [ib]. *)
Definition sockets_ok (D : list Z) (ib : Z -> list bytes) (w : W) : Prop :=
  forall fd, fd ∈ D -> fd ∈ open_fds w /\ listens w (sun_path fd) = Some fd /\ inbox w fd = ib fd.

Lemma sockets_ok_sub D D' ib w : D' ⊆ D -> sockets_ok D ib w -> sockets_ok D' ib w.
Proof. intros H Hs fd Hf. by apply Hs, H. Qed.

Lemma sockets_socket D ib w fd w' :
  sockets_ok D ib w -> es_socket w = (fd, w') ->
  sockets_ok D ib w' /\ (fd = -1 \/ (0 <= fd /\ fd ∉ D /\ fd ∈ open_fds w' /\ inbox w' fd = [])).
Proof.
  intros H [(-> & Ho & Hl & Hi)|(H0 & Hn & Ho & Hl & Hf & Hi)]%es_socket_law.
  - split; [|by left]. intros x Hx. by rewrite Ho, Hl, Hi; auto.
  - assert (fd ∉ D) by (intros Hin; by destruct (H fd Hin)). split.
    + intros x Hx. rewrite Ho, Hl, Hi by (by intros ->). destruct (H x Hx) as (? & ? & ?). set_solver.
    + right. rewrite Ho. set_solver.
Qed.

Lemma sockets_unlink D ib w fd :
  fd ∉ D -> sockets_ok D ib w -> sockets_ok D ib (es_unlink (sun_path fd) w).
Proof.
  intros Hn H x Hx. destruct (es_unlink_law (sun_path fd) w) as (Ho & Hi & Hl).
  rewrite Ho, Hi, Hl; auto. intros ->%sun_path_inj. done.
Qed.

Lemma sockets_close D ib w fd ok w' :
  fd ∉ D -> sockets_ok D ib w -> es_close fd w = (ok, w') -> sockets_ok D ib w'.
Proof.
  intros Hn H (Ho & _ & Hi & Hl)%es_close_law x Hx. destruct (H x Hx) as (H1 & H2 & H3).
  assert (x <> fd) by (by intros ->). rewrite Ho, Hi by done. rewrite (Hl _ x) by done. set_solver.
Qed.

Lemma sockets_bind D ib w fd ok w' :
  fd ∉ D -> fd ∈ open_fds w -> sockets_ok D ib w -> es_bind fd (sun_path fd) w = (ok, w') ->
  sockets_ok D ib w' /\ (ok = true -> sockets_ok (fd :: D) (ib ⟦fd <~ inbox w fd⟧) w').
Proof.
  intros Hn Hop H (Ho & Hi & Hl & Hok)%es_bind_law.
  assert (H' : sockets_ok D ib w').
  { intros x Hx. rewrite Ho, Hi, Hl by (intros ->%sun_path_inj; done). auto. }
  split; [done|]. intros ->. intros x [->|Hx]%elem_of_cons.
  - rewrite Ho, Hi, upd_eq. auto.
  - rewrite upd_ne by (by intros ->). auto.
Qed.

(** A datagram sent to one of the sockets. *)
Lemma sockets_sendto D ib w s data fd r w' :
  fd ∈ D -> sockets_ok D ib w -> es_sendto s data (sun_path fd) w = (r, w') ->
  match r with
  | Sent => sockets_ok D (ib ⟦fd <~ ib fd ++ [data]⟧) w'
  | WouldBlock => sockets_ok D ib w' /\ es_full (ib fd)
  | SendFailed => sockets_ok D ib w'
  end.
Proof.
  intros Hf H (Ho & Hl & Hr)%es_sendto_law. destruct (H fd Hf) as (_ & Hlf & Hif). destruct r.
  - destruct Hr as (x & Hx & Hin & Hr). assert (x = fd) as -> by congruence.
    intros y Hy. rewrite Ho, Hl. destruct (decide (y = fd)) as [->|Hyf].
    + rewrite upd_eq, Hin, Hif. by destruct (H fd Hf).
    + rewrite upd_ne, Hr by done. auto.
  - destruct Hr as [Hr Hfull]. split; [|rewrite <- Hif; auto]. intros y Hy. rewrite Ho, Hl, Hr. auto.
  - intros y Hy. rewrite Ho, Hl, Hr. auto.
Qed.

Lemma sockets_same D ib w w' :
  open_fds w' = open_fds w -> listens w' = listens w -> inbox w' = inbox w ->
  sockets_ok D ib w -> sockets_ok D ib w'.
Proof. intros Ho Hl Hi H x Hx. rewrite Ho, Hl, Hi. auto. Qed.
End Sockets.

(** ** Running computations *)

Section Run.
Context {W : Type}.

Lemma bind_eq {A B} (c : comp (disp W) A) (k : A -> comp (disp W) B) d a d' :
  c d = Some (a, d') -> (c ≫= k) d = k a d'.
Proof. intros H. cbv [mbind comp_bind]. by rewrite H. Qed.

Lemma os_eq {A} (f : W -> A * W) d a w : f (system d) = (a, w) -> os f d = Some (a, set_system d w).
Proof. unfold os. by intros ->. Qed.
End Run.

(** One system call whose result is in the context, or one pure step. *)
Ltac crun :=
  repeat first
    [ match goal with
      | H : ?c ?d = Some (_, _) |- context [(?c ≫= _) ?d] => rewrite (bind_eq _ _ _ _ _ H)
      | H : ?f (system ?d) = (_, _) |- context [(os ?f ≫= _) ?d] => rewrite (bind_eq _ _ _ _ _ (os_eq _ _ _ _ H))
      end
    | progress cbn [negb bool_decide andb fst snd]
    | match goal with
      | |- context [(mret ?a ≫= ?k) ?d] => change ((mret a ≫= k) d) with (k a d)
      | |- context [(gets ?f ≫= ?k) ?d] => change ((gets f ≫= k) d) with (k (f d) d)
      | |- context [(modify ?f ≫= ?k) ?d] => change ((modify f ≫= k) d) with (k tt (f d))
      | |- context [(os_ ?f ≫= ?k) ?d] => change ((os_ f ≫= k) d) with (k tt (set_system d (f (system d))))
      end; cbv beta ].

(** ** The dispatcher in memory *)

Section Rep.
Context {W : Type} {OS : EventSockets W} {LAWS : EventSocketsLaws W}.
Abbreviation status := event_disp_status.
Abbreviation SUCCESS := EVENT_DISP_STATUS_SUCCESS.
Implicit Types (d : disp W) (cl : list event_disp_fds) (reg : Z -> event_disp_fds -> option Z) (ib : Z -> list bytes).

(** All descriptors of the clients. *)
Definition descs cl : list Z := cl ≫= fds_list.

(** The part of the state the socket functions work on: the sockets [D] are open
    and listed. *)
Record socks (D : list Z) ib d : Prop := {
  sk_length : length (event_disp_fds_db d) = EVENT_DISP_MAX_SOCK;
  sk_live : live (event_disp_fds_db d) ≡ₚ D;
  sk_nodup : NoDup D;
  sk_pos : Forall (fun fd => 0 <= fd) D;
  sk_ok : sockets_ok D ib (system d) }.

(** The clients [cl], the descriptor each is registered with for an event, the
    datagrams not yet received, and the number of clients opened so far. *)
Record disp_rep cl reg ib (n : nat) d : Prop := {
  dr_init : event_disp_init d = true;
  dr_free : mutex_held d = false;
  dr_events : length (event_disp_db d) = EVENT_DISP_MAX_EVENTS;
  dr_row e row : event_disp_db d !! e = Some row ->
    length row = EVENT_DISP_MAX_CON /\ live row ≡ₚ omap (reg (Z.of_nat e)) cl;
  dr_reg e c fd : c ∈ cl -> reg e c = Some fd -> fd ∈ fds_list c;
  dr_con : event_disp_con d = Z.of_nat n;
  dr_clients : (length cl <= n <= EVENT_DISP_MAX_CON)%nat;
  dr_socks : socks (descs cl) ib d;
  dr_gen : length (event_disp_gen_counter d) = EVENT_DISP_MAX_EVENTS;
  dr_rcv : length (event_disp_rcv_counter d) = EVENT_DISP_MAX_EVENTS }.

(** Only the list of sockets and the system changed. *)
Definition only_sockets d d' : Prop := exists l w, d' = set_system (set_fds_db d l) w.

Lemma only_sockets_refl d : only_sockets d d.
Proof. exists (event_disp_fds_db d), (system d). by destruct d. Qed.
Lemma only_sockets_trans d1 d2 d3 : only_sockets d1 d2 -> only_sockets d2 d3 -> only_sockets d1 d3.
Proof. intros (l & w & ->) (l' & w' & ->). by exists l', w'. Qed.
Lemma only_sockets_system d w : only_sockets d (set_system d w).
Proof. exists (event_disp_fds_db d), w. by destruct d. Qed.
#[local] Hint Resolve only_sockets_refl only_sockets_system : core.

Lemma socks_perm D D' ib d : D ≡ₚ D' -> socks D ib d -> socks D' ib d.
Proof.
  intros HD [? ? ? ? ?]. split; [done|by rewrite <- HD|by rewrite <- HD|by rewrite <- HD|].
  intros fd Hf. apply sk_ok0. by rewrite HD.
Qed.

Lemma socks_notin D ib d fd : socks D ib d -> 0 <= fd -> fd ∉ D -> fd ∉ event_disp_fds_db d.
Proof. intros [? Hl ? ? ?] H0 Hn Hin. apply Hn. rewrite <- Hl. apply elem_of_live. split; [lia|done]. Qed.

(** Opening a socket: a new descriptor, open, reachable and empty, or nothing. *)
Lemma open_socket_spec D ib d :
  socks D ib d -> (length D < EVENT_DISP_MAX_SOCK)%nat ->
  exists st fd d', event_disp_open_socket d = Some ((st, fd), d') /\ only_sockets d d' /\
    ((st = SUCCESS /\ 0 <= fd /\ fd ∉ D /\ socks (fd :: D) (ib ⟦fd <~ []⟧) d') \/
     (st = EVENT_DISP_STATUS_SOCKET_ERROR /\ fd = -1 /\ socks D ib d')).
Proof.
  intros [Hlen Hlive Hnd Hpos Hok] Hroom. unfold event_disp_open_socket.
  destruct (es_socket (system d)) as [fd w] eqn:Hs.
  destruct (sockets_socket _ _ _ _ _ Hok Hs) as [Hok1 Hfd]. crun. destruct (decide (fd = -1)) as [->|Hne].
  { eexists _, _, _. split; [done|]. split; [auto|]. right. split_and!; [done|done|by split]. }
  destruct Hfd as [?|(H0 & Hn & Hop & Hib)]; [done|]. crun. cbn [system set_system].
  pose proof (sockets_unlink D ib w fd Hn Hok1) as Hok2. destruct (es_unlink_law (sun_path fd) w) as (Ho2 & Hi2 & _).
  set (w2 := es_unlink (sun_path fd) w) in *.
  set (d2 := set_system (set_system d w) w2).
  destruct (es_bind fd (sun_path fd) w2) as [b w3] eqn:Hb.
  change w2 with (system d2) in Hb. crun.
  destruct (sockets_bind D ib _ fd b w3 Hn ltac:(cbn; by rewrite Ho2) Hok2 Hb) as [Hok3 Hok4].
  change (system d2) with w2 in Hok4. rewrite Hi2, Hib in Hok4. destruct b; crun.
  - eexists _, _, _. split; [done|]. split; [by eexists _, _|]. left. split_and!; try done. split; cbn.
    + by rewrite put_first_length.
    + rewrite live_put_first; [by rewrite Hlive|done|rewrite Hlive, Hlen; lia].
    + by constructor.
    + by constructor.
    + by apply Hok4.
  - set (d3 := set_system d2 w3). destruct (es_close fd (system d3)) as [b w4] eqn:Hc. crun.
    eexists _, _, _. split; [done|]. split; [by exists (event_disp_fds_db d), w4; destruct d|]. right. split_and!; try done.
    split; try done. cbn. by apply (sockets_close _ _ _ _ _ _ Hn Hok3 Hc).
Qed.

(** Closing a socket of the list. *)
Lemma close_socket_spec D ib d fd :
  socks (fd :: D) ib d ->
  exists d', event_disp_close_socket fd d = Some (SUCCESS, d') /\ only_sockets d d' /\ socks D ib d'.
Proof.
  intros [Hlen Hlive Hnd Hpos Hok]. apply NoDup_cons in Hnd as [Hn Hnd]. apply Forall_cons in Hpos as [H0 Hpos].
  unfold event_disp_close_socket. rewrite decide_False by lia.
  destruct (es_close fd (system d)) as [b w] eqn:Hc. crun.
  assert (b = true) as ->. { destruct (es_close_law _ _ _ _ Hc) as (_ & Hb & _). apply Hb. by destruct (Hok fd ltac:(by left)). }
  eexists. split; [done|]. split; [by eexists _, _|]. split; cbn.
  - by rewrite clear_first_length.
  - assert (Hin : fd ∈ live (event_disp_fds_db d)) by (rewrite Hlive; by left). apply elem_of_live in Hin as [? Hin].
    apply (Permutation_cons_inv (a := fd)). by rewrite live_clear_first.
  - done.
  - done.
  - apply sockets_unlink; [done|]. apply (sockets_close _ _ _ _ _ _ Hn) with (2 := Hc).
    eapply sockets_ok_sub, Hok. set_solver.
Qed.

(** The mutex: free before, held in between, free after. *)
Lemma lock_spec d :
  mutex_held d = false ->
  exists w, mutex_lock d = Some (true, set_held (set_system d w) true) /\
    open_fds w = open_fds (system d) /\ listens w = listens (system d) /\ inbox w = inbox (system d).
Proof.
  intros Hf. destruct (es_mutex_law es_mutex_lock (system d)) as (Ht & Hs); [set_solver|].
  destruct (es_mutex_lock (system d)) as [b w] eqn:E. cbn in Ht. subst b. exists w. split; [|done].
  unfold mutex_lock. crun. rewrite Hf. crun. done.
Qed.

Lemma unlock_spec d :
  exists w, mutex_unlock d = Some (true, set_held (set_system d w) false) /\
    open_fds w = open_fds (system d) /\ listens w = listens (system d) /\ inbox w = inbox (system d).
Proof.
  destruct (es_mutex_law es_mutex_unlock (system d)) as (Ht & Hs); [set_solver|].
  destruct (es_mutex_unlock (system d)) as [b w] eqn:E. cbn in Ht. subst b. exists w. split; [|done].
  unfold mutex_unlock. crun. done.
Qed.

Lemma socks_system D ib d d' :
  event_disp_fds_db d' = event_disp_fds_db d ->
  open_fds (system d') = open_fds (system d) -> listens (system d') = listens (system d) ->
  inbox (system d') = inbox (system d) -> socks D ib d -> socks D ib d'.
Proof. intros Hf Ho Hl Hi [? ? ? ? ?]. split; rewrite ?Hf; try done. by apply (sockets_same _ _ (system d)). Qed.
End Rep.
