(* ===== verification/EventDispOps.v ===== *)
(** * The event dispatcher: what each call does

    Opening and closing clients, registering, sending and receiving, against the
    clients, their registrations and the datagrams of [EventDispSpec.v]. *)

From S2P Require Import Prelude Bytes Comp EventDisp EventDispSpec.
From stdpp Require Import strings pretty.

Local Open Scope Z_scope.
Local Open Scope list_scope.

(** ** Clients *)

Lemma descs_app l1 l2 : descs (l1 ++ l2) = descs l1 ++ descs l2.
Proof. apply bind_app. Qed.

Lemma elem_of_descs fd cl : fd ∈ descs cl <-> exists c, c ∈ cl /\ fd ∈ fds_list c.
Proof. unfold descs. rewrite list_elem_of_bind. naive_solver. Qed.

Lemma high_fd_in c : high_fd c ∈ fds_list c.
Proof. by left. Qed.

Lemma length_descs cl : length (descs cl) = (3 * length cl)%nat.
Proof. induction cl as [|c cl IH]; [done|]. unfold descs in *. cbn [mbind list_bind]. rewrite length_app, IH. cbn. lia. Qed.

(** Registrations after one client's events changed. *)
Definition reg_set (reg : Z -> event_disp_fds -> option Z) (c : event_disp_fds) (evs : list Z) (v : option Z)
    (e : Z) (x : event_disp_fds) : option Z :=
  if decide (x = c /\ e ∈ evs) then v else reg e x.

Section Clients.
Context (l1 l2 : list event_disp_fds) (c : event_disp_fds) (Hnd : NoDup (descs (l1 ++ c :: l2))).

Lemma client_apart x fd : x ∈ l1 ++ l2 -> fd ∈ fds_list x -> fd ∉ fds_list c.
Proof using Hnd.
  rewrite descs_app in Hnd. change (descs (c :: l2)) with (fds_list c ++ descs l2) in Hnd.
  apply NoDup_app in Hnd as (_ & H1 & H2). apply NoDup_app in H2 as (_ & H2 & _).
  intros [Hx|Hx]%elem_of_app Hf Hc.
  - apply (H1 fd); [apply elem_of_descs; eauto|]. apply elem_of_app. by left.
  - apply (H2 fd Hc). apply elem_of_descs. eauto.
Qed.

Lemma client_ne x : x ∈ l1 ++ l2 -> x <> c.
Proof using Hnd. intros Hx ->. exact (client_apart c (high_fd c) Hx (high_fd_in c) (high_fd_in c)). Qed.

Lemma descs_middle : descs (l1 ++ c :: l2) ≡ₚ fds_list c ++ descs (l1 ++ l2).
Proof using.
  rewrite !descs_app. change (descs (c :: l2)) with (fds_list c ++ descs l2).
  by rewrite !(assoc_L (++)), (Permutation_app_comm (descs l1)).
Qed.
End Clients.

(** The entries of the other clients. *)
Lemma filter_omap_others (f : event_disp_fds -> option Z) (c : event_disp_fds) (l : list event_disp_fds) :
  (forall x fd, x ∈ l -> f x = Some fd -> fd ∉ fds_list c) ->
  base.filter (fun fd => fd ∉ fds_list c) (omap f l) = omap f l.
Proof.
  induction l as [|x l IH]; intros H; [done|]. cbn [omap list_omap].
  assert (IH' := IH ltac:(intros; apply (H x0); [by right|done])).
  destruct (f x) as [fd|] eqn:E; cbn beta iota; [|done]. rewrite filter_cons, decide_True by (apply (H x); [by left|done]).
  by rewrite IH'.
Qed.

Lemma omap_ext_in {A B} (f g : A -> option B) (l : list A) : (forall x, x ∈ l -> f x = g x) -> omap f l = omap g l.
Proof.
  induction l as [|x l IH]; intros H; [done|]. cbn [omap list_omap]. rewrite (H x), IH by (by left || intros; apply H; by right).
  done.
Qed.

Lemma omap_length {A B} (f : A -> option B) (l : list A) : (length (omap f l) <= length l)%nat.
Proof. induction l as [|x l IH]; [done|]. cbn [omap list_omap]. destruct (f x); cbn; lia. Qed.

Lemma filter_omap_client (reg : event_disp_fds -> option Z) l1 l2 c :
  NoDup (descs (l1 ++ c :: l2)) -> (forall x fd, x ∈ l1 ++ c :: l2 -> reg x = Some fd -> fd ∈ fds_list x) ->
  base.filter (fun fd => fd ∉ fds_list c) (omap reg (l1 ++ c :: l2)) = omap reg (l1 ++ l2).
Proof.
  intros Hnd Hreg. rewrite !omap_app, filter_app. cbn [omap list_omap].
  assert (Ho : forall l, l ⊆ l1 ++ l2 -> base.filter (fun fd => fd ∉ fds_list c) (omap reg l) = omap reg l).
  { intros l Hl. apply filter_omap_others. intros x fd Hx Hf. apply (client_apart l1 l2 c Hnd x fd); [by apply Hl|].
    apply Hreg; [|done]. apply Hl in Hx. rewrite elem_of_app, elem_of_cons. apply elem_of_app in Hx. naive_solver. }
  rewrite (Ho l1) by set_solver. f_equal. destruct (reg c) as [fd|] eqn:E.
  - rewrite filter_cons, decide_False; [apply Ho; set_solver|]. intros Hn. apply Hn, Hreg; [|done].
    rewrite elem_of_app, elem_of_cons. auto.
  - apply Ho. set_solver.
Qed.

(** The registrations of the other clients stay. *)
Lemma omap_reg_set_others reg c evs v e (l : list event_disp_fds) :
  c ∉ l -> omap (reg_set reg c evs v e) l = omap (reg e) l.
Proof. intros H. apply omap_ext_in. intros x Hx. unfold reg_set. rewrite decide_False; [done|]. by intros [-> _]. Qed.

(** ** The loops over events *)

Section Rep.
Context {W : Type} {OS : EventSockets W} {LAWS : EventSocketsLaws W}.
Abbreviation status := event_disp_status.
Abbreviation SUCCESS := EVENT_DISP_STATUS_SUCCESS.
Implicit Types (d : disp W) (cl : list event_disp_fds) (reg : Z -> event_disp_fds -> option Z) (ib : Z -> list bytes).

Definition event_ok (e : Z) : Prop := 0 <= e < Z.of_nat EVENT_DISP_MAX_EVENTS.

(** Each row of the list changes once, the others stay. *)
Lemma alter_events_spec (f : list Z -> list Z) evs : forall d,
  NoDup evs -> Forall event_ok evs ->
  exists db, for_each (alter_event f) evs d = Some (tt, set_db d db) /\ length db = length (event_disp_db d) /\
    forall e : nat, db !! e = (if decide (Z.of_nat e ∈ evs) then f else id) <$> event_disp_db d !! e.
Proof.
  induction evs as [|e evs IH]; intros d Hnd Hok.
  - exists (event_disp_db d). split; [by destruct d|]. split; [done|]. intros e. rewrite decide_False by (by intros ?%elem_of_nil).
    by destruct (event_disp_db d !! e).
  - apply NoDup_cons in Hnd as [Hn Hnd]. apply Forall_cons in Hok as [He Hok]. unfold event_ok in He.
    cbn [for_each]. set (d1 := set_db d (alter f (Z.to_nat e) (event_disp_db d))).
    destruct (IH d1 Hnd Hok) as (db & Hrun & Hl & Hdb). exists db. split; [|split].
    + assert (Ha : alter_event f e d = Some (tt, d1)) by (unfold alter_event; by rewrite decide_True by lia).
      rewrite (bind_eq _ _ _ _ _ Ha), Hrun. done.
    + rewrite Hl. apply length_alter.
    + intros e'. rewrite Hdb. cbn [event_disp_db set_db d1]. destruct (decide (e' = Z.to_nat e)) as [->|Hne].
      * rewrite list_lookup_alter_eq, Z2Nat.id by lia. rewrite (decide_False (P := e ∈ evs)) by done.
        rewrite (decide_True (P := e ∈ e :: evs)) by (by left). by destruct (event_disp_db d !! _).
      * rewrite list_lookup_alter_ne by done. assert (Hiff : Z.of_nat e' ∈ e :: evs <-> Z.of_nat e' ∈ evs).
        { rewrite elem_of_cons. split; [intros [Heq|?]; [lia|done]|auto]. }
        destruct (decide (Z.of_nat e' ∈ evs)); [rewrite decide_True by tauto|rewrite decide_False by tauto]; done.
Qed.

Lemma for_each_eq {X} (f : X -> comp (disp W) unit) x l : for_each f (x :: l) = (f x ≫= fun _ => for_each f l).
Proof. done. Qed.

(** ** Unregistering and registering *)

Lemma rep_unregister cl reg ib n d l1 c l2 evs db :
  disp_rep cl reg ib n d -> cl = l1 ++ c :: l2 -> length db = length (event_disp_db d) ->
  (forall e : nat, db !! e = (if decide (Z.of_nat e ∈ evs) then remove_fds c else id) <$> event_disp_db d !! e) ->
  disp_rep cl (reg_set reg c evs None) ib n (set_db d db).
Proof.
  intros [H1 H2 H3 H4 H5 H6 H7 H8 H9 H10] -> Hl Hdb. assert (Hnd := sk_nodup _ _ _ H8).
  assert (Hc : c ∉ l1 ++ l2) by (by intros ?%(client_ne l1 l2 c Hnd)).
  split; try done; cbn [event_disp_db set_db].
  - by rewrite Hl.
  - intros e row Hrow. rewrite Hdb in Hrow. apply fmap_Some in Hrow as (row0 & Hrow0 & ->).
    destruct (H4 e row0 Hrow0) as [Hlen Hlive]. destruct (decide (Z.of_nat e ∈ evs)) as [He|He].
    + split; [by rewrite remove_fds_length|]. rewrite live_remove_fds, Hlive.
      rewrite filter_omap_client by (done || intros; by eapply H5).
      rewrite !omap_app. cbn [omap list_omap]. unfold reg_set at 2. rewrite decide_True by done. cbn.
      by rewrite !omap_reg_set_others by set_solver.
    + split; [done|]. cbn [id]. rewrite Hlive. erewrite omap_ext_in; [done|]. intros x _. unfold reg_set.
      by rewrite decide_False by tauto.
  - intros e x fd Hx. unfold reg_set. case_decide; [done|]. by apply H5.
  - by apply (socks_system _ _ d).
Qed.

Lemma rep_register cl reg ib n d l1 c l2 evs db fd :
  disp_rep cl reg ib n d -> cl = l1 ++ c :: l2 -> fd ∈ fds_list c ->
  (forall e, e ∈ evs -> reg e c = None) -> length db = length (event_disp_db d) ->
  (forall e : nat, db !! e = (if decide (Z.of_nat e ∈ evs) then put_first fd else id) <$> event_disp_db d !! e) ->
  disp_rep cl (reg_set reg c evs (Some fd)) ib n (set_db d db).
Proof.
  intros [H1 H2 H3 H4 H5 H6 H7 H8 H9 H10] -> Hfd Hnone Hl Hdb. assert (Hnd := sk_nodup _ _ _ H8).
  assert (Hc : c ∉ l1 ++ l2) by (by intros ?%(client_ne l1 l2 c Hnd)).
  assert (H0 : 0 <= fd). { eapply (proj1 (Forall_forall _ _) (sk_pos _ _ _ H8)). apply elem_of_descs. exists c. split; [|done].
    rewrite elem_of_app, elem_of_cons. auto. }
  split; try done; cbn [event_disp_db set_db].
  - by rewrite Hl.
  - intros e row Hrow. rewrite Hdb in Hrow. apply fmap_Some in Hrow as (row0 & Hrow0 & ->).
    destruct (H4 e row0 Hrow0) as [Hlen Hlive]. destruct (decide (Z.of_nat e ∈ evs)) as [He|He].
    + assert (Hsplit : omap (reg (Z.of_nat e)) (l1 ++ c :: l2) = omap (reg (Z.of_nat e)) (l1 ++ l2)).
      { rewrite !omap_app. cbn [omap list_omap]. by rewrite Hnone. }
      split; [by rewrite put_first_length|]. rewrite live_put_first; [|lia|].
      * rewrite Hlive, Hsplit, !omap_app. cbn [omap list_omap]. unfold reg_set at 2. rewrite decide_True by done. cbn.
        rewrite <- Permutation_middle.
        by rewrite !omap_reg_set_others by set_solver.
      * rewrite Hlive, Hsplit, Hlen. pose proof (omap_length (reg (Z.of_nat e)) (l1 ++ l2)).
        rewrite length_app in *. cbn [length] in H7. lia.
    + split; [done|]. cbn [id]. rewrite Hlive. erewrite omap_ext_in; [done|]. intros x _. unfold reg_set.
      by rewrite decide_False by tauto.
  - intros e x y Hx. unfold reg_set. case_decide as Hd; [|by apply H5]. destruct Hd as [-> _]. by intros [= ->].
  - by apply (socks_system _ _ d).
Qed.

(** ** Calls under the mutex *)

Lemma rep_system cl reg ib n d w :
  disp_rep cl reg ib n d ->
  open_fds w = open_fds (system d) -> listens w = listens (system d) -> inbox w = inbox (system d) ->
  disp_rep cl reg ib n (set_system d w).
Proof. intros [? ? ? ? ? ? ? ? ? ?] Ho Hl Hi. split; try done. by apply (socks_system _ _ d). Qed.

(** What the mutex leaves behind. *)
Lemma unlocked d db w w' :
  mutex_held d = false ->
  set_held (set_system (set_db (set_held (set_system d w) true) db) w') false = set_system (set_db d db) w'.
Proof. destruct d; cbn. by intros ->. Qed.

Definition events_ok (evs : list Z) : Prop :=
  NoDup evs /\ Forall event_ok evs /\ 0 < Z.of_nat (length evs) <= Z.of_nat EVENT_DISP_MAX_EVENTS.

Lemma check_registration_ok c evs :
  events_ok evs -> check_registration true (Some c) (Some evs) (Z.of_nat (length evs)) = inr (c, evs).
Proof. intros (_ & _ & ?). unfold check_registration. cbn [negb]. by rewrite decide_False by lia. Qed.

Lemma read_events_ok evs d : read_events evs (Z.of_nat (length evs)) d = Some (evs, d).
Proof. unfold read_events. rewrite decide_True by lia. by rewrite Nat2Z.id, take_ge by lia. Qed.

Lemma unregister_spec cl reg ib n d c evs :
  disp_rep cl reg ib n d -> c ∈ cl -> events_ok evs ->
  exists d', event_disp_api_unregister_events (Some c) (Some evs) (Z.of_nat (length evs)) d = Some (SUCCESS, d') /\
    disp_rep cl (reg_set reg c evs None) ib n d'.
Proof.
  intros H Hc He. pose proof He as (Hnd & Hok & _). apply list_elem_of_split in Hc as (l1 & l2 & Hcl).
  unfold event_disp_api_unregister_events. crun. rewrite (dr_init _ _ _ _ _ H), check_registration_ok by done.
  destruct (lock_spec d (dr_free _ _ _ _ _ H)) as (w & Hlock & Ho & Hl & Hi). crun.
  set (d1 := set_held (set_system d w) true) in *.
  rewrite (bind_eq _ _ _ _ _ (read_events_ok evs d1)).
  destruct (alter_events_spec (remove_fds c) evs d1 Hnd Hok) as (db & Hrun & Hlen & Hdb). crun.
  destruct (unlock_spec (set_db d1 db)) as (w' & Hun & Ho' & Hl' & Hi'). crun.
  eexists. split; [done|]. subst d1. rewrite unlocked by apply H. cbn [system set_db set_held set_system] in *.
  apply rep_system; cbn [system set_db]; try congruence. by apply rep_unregister with (l1 := l1) (l2 := l2).
Qed.

Lemma register_spec cl reg ib n d c prio fd evs :
  disp_rep cl reg ib n d -> c ∈ cl -> fd_of_prio c prio = Some fd -> events_ok evs ->
  exists d', event_disp_api_register_events (Some c) prio (Some evs) (Z.of_nat (length evs)) d = Some (SUCCESS, d') /\
    disp_rep cl (reg_set (reg_set reg c evs None) c evs (Some fd)) ib n d'.
Proof.
  intros H Hc Hp He. pose proof He as (Hnd & Hok & _). pose proof Hc as (l1 & l2 & Hcl)%list_elem_of_split.
  assert (Hfd : fd ∈ fds_list c).
  { unfold fd_of_prio in Hp. unfold fds_list. rewrite !elem_of_cons. repeat case_decide; simplify_eq; auto. }
  assert (H0 : 0 <= fd). { eapply (proj1 (Forall_forall _ _) (sk_pos _ _ _ (dr_socks _ _ _ _ _ H))). apply elem_of_descs. eauto. }
  unfold event_disp_api_register_events. crun. rewrite (dr_init _ _ _ _ _ H), check_registration_ok by done.
  destruct (unregister_spec cl reg ib n d c evs H Hc He) as (d0 & Hr & H1). crun.
  rewrite decide_False by (by intros Hx; apply Hx). rewrite Hp, decide_False by lia.
  destruct (lock_spec d0 (dr_free _ _ _ _ _ H1)) as (w & Hlock & Ho & Hl & Hi). crun.
  set (d1 := set_held (set_system d0 w) true) in *.
  rewrite (bind_eq _ _ _ _ _ (read_events_ok evs d1)).
  destruct (alter_events_spec (put_first fd) evs d1 Hnd Hok) as (db & Hrun & Hlen & Hdb). crun.
  destruct (unlock_spec (set_db d1 db)) as (w' & Hun & Ho' & Hl' & Hi'). crun.
  eexists. split; [done|]. subst d1. rewrite unlocked by apply H1. cbn [system set_db set_held set_system] in *.
  apply rep_system; cbn [system set_db]; try congruence. apply rep_register with (l1 := l1) (l2 := l2); try done.
  intros e Hin. unfold reg_set. by rewrite decide_True.
Qed.

(** ** Opening and closing clients *)

Lemma socks_ib D ib ib' d : (forall fd, fd ∈ D -> ib' fd = ib fd) -> socks D ib d -> socks D ib' d.
Proof. intros Hib [? ? ? ? Hok]. split; try done. intros fd Hf. rewrite Hib by done. by apply Hok. Qed.

Lemma live_nonneg l : Forall (fun fd => 0 <= fd) l -> live l = l.
Proof. induction 1 as [|x l Hx _ IH]; [done|]. rewrite live_cons, decide_False by lia. by rewrite IH. Qed.

Lemma close_members_spec D ib l : forall d,
  socks (live l ++ D) ib d ->
  exists d', for_each (fun fd => if decide (fd <> -1) then event_disp_close_socket fd;; mret tt else mret tt) l d = Some (tt, d') /\
    only_sockets d d' /\ socks D ib d'.
Proof.
  induction l as [|x l IH]; intros d H.
  - exists d. split; [done|]. split; [apply only_sockets_refl|done].
  - cbn [for_each]. rewrite live_cons in H. destruct (decide (x = -1)) as [->|Hx].
    + rewrite decide_False by lia. by apply IH.
    + rewrite decide_True by done. destruct (close_socket_spec _ _ _ _ H) as (d1 & Hr & Ho & H1).
      assert (Hc : (event_disp_close_socket x;; mret tt) d = Some (tt, d1)) by (crun; done).
      rewrite (bind_eq _ _ _ _ _ Hc). destruct (IH d1 H1) as (d2 & -> & Ho2 & H2). exists d2. split; [done|].
      split; [by eapply only_sockets_trans|done].
Qed.

Lemma rep_only_sockets cl reg ib n d d' :
  disp_rep cl reg ib n d -> only_sockets d d' -> socks (descs cl) ib d' -> disp_rep cl reg ib n d'.
Proof. intros [? ? ? ? ? ? ? ? ? ?] (l & w & ->) H. by split. Qed.

Lemma open_sockets_spec D ib d :
  socks D ib d -> (length D + 3 <= EVENT_DISP_MAX_SOCK)%nat ->
  exists st fds d' ib', open_sockets d = Some ((st, fds), d') /\ (forall fd, fd ∈ D -> ib' fd = ib fd) /\
    socks (live (fds_list fds) ++ D) ib' d' /\
    ((st = SUCCESS /\ Forall (fun fd => 0 <= fd) (fds_list fds) /\ (forall fd, fd ∈ fds_list fds -> ib' fd = []) /\
      exists d1, only_sockets d d1 /\ d' = set_con d1 (u32 (event_disp_con d1 + 1))) \/
     (st = EVENT_DISP_STATUS_SOCKET_ERROR /\ only_sockets d d')).
Proof.
  intros H Hlen. unfold open_sockets.
  destruct (open_socket_spec D ib d H) as (st & h & d1 & E1 & Ho1 & [(-> & Hh & Hnh & H1)|(-> & -> & H1)]); [lia| |]; crun.
  2:{ rewrite decide_True by done. eexists _, _, _, ib. split_and!; [done|done|done|by right]. }
  rewrite decide_False by (by intros Hx; apply Hx).
  destruct (open_socket_spec _ _ _ H1) as (st & m & d2 & E2 & Ho2 & [(-> & Hm & Hnm & H2)|(-> & -> & H2)]); [cbn [length]; lia| |]; crun.
  2:{ rewrite decide_True by done. eexists _, _, _, (ib ⟦h <~ []⟧). split; [done|]. split; [|split; [|right; split; [done|by eapply only_sockets_trans]]].
      - intros fd Hf. rewrite upd_ne by (by intros ->). done.
      - unfold fds_list. cbn [high_fd med_fd low_fd]. rewrite !live_cons, decide_False by lia. done. }
  rewrite decide_False by (by intros Hx; apply Hx).
  destruct (open_socket_spec _ _ _ H2) as (st & l & d3 & E3 & Ho3 & [(-> & Hl & Hnl & H3)|(-> & -> & H3)]); [cbn [length]; lia| |]; crun.
  2:{ rewrite decide_True by done. eexists _, _, _, (ib ⟦h <~ []⟧ ⟦m <~ []⟧). split; [done|]. split; [|split; [|right; split; [done|by eauto using only_sockets_trans]]].
      - intros fd Hf. apply not_elem_of_cons in Hnm as [? Hnm]. rewrite !upd_ne by (by intros ->). done.
      - unfold fds_list. cbn [high_fd med_fd low_fd]. rewrite !live_cons, !decide_False, decide_True by lia.
        eapply socks_perm, H3. apply Permutation_swap. }
  rewrite decide_False by (by intros Hx; apply Hx). crun.
  eexists _, _, _, (ib ⟦h <~ []⟧ ⟦m <~ []⟧ ⟦l <~ []⟧). split; [done|]. apply not_elem_of_cons in Hnm as [Hmh Hnm].
  apply not_elem_of_cons in Hnl as [Hlm Hnl]. apply not_elem_of_cons in Hnl as [Hlh Hnl].
  unfold fds_list. cbn [high_fd med_fd low_fd]. split; [|split; [|left; split; [done|]]].
  - intros fd Hf. rewrite !upd_ne by (by intros ->). done.
  - rewrite live_nonneg by (by repeat constructor). apply (socks_system _ _ d3); try done.
    eapply socks_perm, H3. change (l :: m :: h :: D) with ([l; m; h] ++ D). change ([h; m; l] ++ D) with ([h; m; l] ++ D).
    apply Permutation_app_tail. exact (Permutation_rev [l; m; h]).
  - split; [by repeat constructor|]. split; [|exists d3; split; [by eauto using only_sockets_trans|done]].
    intros fd Hf. rewrite !elem_of_cons, elem_of_nil in Hf.
    destruct Hf as [->|[->|[->|[]]]]; repeat (rewrite upd_eq || rewrite upd_ne by congruence); done.
Qed.

(** A new client: no registrations, no datagrams. *)
Definition reg_open (reg : Z -> event_disp_fds -> option Z) (c : event_disp_fds) (e : Z) (x : event_disp_fds) : option Z :=
  if decide (x = c) then None else reg e x.
Definition ib_open (ib : Z -> list bytes) (c : event_disp_fds) (fd : Z) : list bytes :=
  if decide (fd ∈ fds_list c) then [] else ib fd.

Definition no_fds : event_disp_fds := Fds (-1) (-1) (-1).

Lemma rep_open cl reg ib ib' n d d' c :
  disp_rep cl reg ib n d -> (n < EVENT_DISP_MAX_CON)%nat -> only_sockets d d' ->
  socks (descs (cl ++ [c])) ib' d' ->
  disp_rep (cl ++ [c]) (reg_open reg c) ib' (S n) (set_con d' (u32 (event_disp_con d' + 1))).
Proof.
  intros H Hn (l & w & ->) Hs. assert (Hnew : c ∉ cl).
  { intros Hin. pose proof (sk_nodup _ _ _ Hs) as Hnd. rewrite descs_app in Hnd. apply NoDup_app in Hnd as (_ & Hx & _).
    apply (Hx (high_fd c)); [apply elem_of_descs; exists c; split; [done|apply high_fd_in]|by left]. }
  destruct H as [H1 H2 H3 H4 H5 H6 H7 H8 H9 H10].
  split; try done; cbn [event_disp_db event_disp_con set_con set_system set_fds_db system].
  - intros e row Hrow. destruct (H4 e row Hrow) as [Hlen Hlive]. split; [done|]. rewrite Hlive, omap_app. cbn [omap list_omap].
    unfold reg_open at 2. rewrite decide_True by done. rewrite app_nil_r. erewrite omap_ext_in; [done|].
    intros x Hx. unfold reg_open. rewrite decide_False; [done|]. by intros ->.
  - intros e x fd Hx. unfold reg_open. case_decide; [done|]. apply elem_of_app in Hx as [Hx|Hx%list_elem_of_singleton]; [|done]. by apply H5.
  - rewrite H6, wrap_small; unfold EVENT_DISP_MAX_CON in *; lia.
  - rewrite length_app. cbn [length]. lia.
  - by apply (socks_system _ _ (set_system (set_fds_db d l) w)).
Qed.

(** The state after taking and releasing the mutex around a change of sockets. *)
Lemma locked_sockets d w d' :
  mutex_held d = false -> only_sockets (set_held (set_system d w) true) d' ->
  forall w', only_sockets d (set_held (set_system d' w') false).
Proof.
  intros Hf (l & w1 & ->) w'. exists l, w'. destruct d; cbn in *. by subst.
Qed.

Lemma unlock_after (b : bool) (err : status) (fds : event_disp_fds) d w :
  mutex_unlock d = Some (b, set_held (set_system d w) false) ->
  ((if true then mutex_unlock;; mret tt else mret tt);; mret (err, Some fds)) d =
  Some ((err, Some fds), set_held (set_system d w) false).
Proof. intros H. cbv [mbind comp_bind]. rewrite H. done. Qed.

(** Opening a client on a structure that holds no descriptors. *)
Lemma open_spec cl reg ib n d :
  disp_rep cl reg ib n d ->
  exists st fds d', event_disp_api_open (Some no_fds) d = Some ((st, Some fds), d') /\
    ((st = SUCCESS /\ (n < EVENT_DISP_MAX_CON)%nat /\ NoDup (descs (cl ++ [fds])) /\ Forall (fun fd => 0 <= fd) (fds_list fds) /\
      disp_rep (cl ++ [fds]) (reg_open reg fds) (ib_open ib fds) (S n) d') \/
     (st = EVENT_DISP_STATUS_SOCKET_ERROR /\ (n < EVENT_DISP_MAX_CON)%nat /\ disp_rep cl reg ib n d') \/
     (st = EVENT_DISP_STATUS_MAX_CONNETIONS /\ n = EVENT_DISP_MAX_CON /\ disp_rep cl reg ib n d')).
Proof.
  intros H. unfold event_disp_api_open. crun. rewrite (dr_init _ _ _ _ _ H). cbv zeta. crun.
  pose proof (dr_free _ _ _ _ _ H) as Hf. destruct (lock_spec d Hf) as (w & Hlock & Ho & Hl & Hi). crun.
  set (d1 := set_held (set_system d w) true) in *.
  assert (Hs1 : socks (descs cl) ib d1) by (apply (socks_system _ _ d); try done; apply H).
  change (event_disp_con d1) with (event_disp_con d). rewrite (dr_con _ _ _ _ _ H).
  pose proof (dr_clients _ _ _ _ _ H) as Hcl. pose proof (length_descs cl) as Hdl. unfold EVENT_DISP_MAX_CON in *.
  destruct (decide (Z.of_nat n >= Z.of_nat 10)) as [Hfull|Hroom].
  - rewrite decide_True by done.
    destruct (close_members_spec (descs cl) ib (fds_list no_fds) d1 Hs1) as (d2 & Hc & Hoc & Hs2).
    unfold close_members. rewrite (bind_eq _ _ _ _ _ Hc). destruct (unlock_spec d2) as (w2 & Hun & Ho2 & Hl2 & Hi2).
    rewrite (unlock_after _ _ _ _ _ Hun). eexists _, _, _. split; [done|]. right; right. split_and!; [done|lia|].
    apply (rep_only_sockets _ _ _ _ d); [done|by eapply locked_sockets|by apply (socks_system _ _ d2)].
  - destruct (open_sockets_spec _ _ _ Hs1) as (st & fds & d2 & ib' & E & Hib & Hs2 & Hcase); [unfold EVENT_DISP_MAX_SOCK, EVENT_DISP_MAX_CON; lia|].
    rewrite (bind_eq _ _ _ _ _ E). destruct Hcase as [(-> & Hpos & Hnew & d3 & Ho3 & ->)|(-> & Ho2)].
    + rewrite decide_False by (by intros Hx; apply Hx). crun.
      set (d2 := set_con d3 (u32 (event_disp_con d3 + 1))) in *. destruct (unlock_spec d2) as (w2 & Hun & Ho4 & Hl4 & Hi4).
      rewrite (unlock_after _ _ _ _ _ Hun). eexists _, _, _. split; [done|]. left. rewrite live_nonneg in Hs2 by done.
      assert (Hp : fds_list fds ++ descs cl ≡ₚ descs (cl ++ [fds])).
      { rewrite descs_app. change (descs [fds]) with (fds_list fds ++ []). by rewrite app_nil_r, Permutation_app_comm. }
      pose proof (socks_perm _ _ _ _ Hp Hs2) as Hs3. split_and!; [done|lia|by apply (sk_nodup _ _ _ Hs3)|done|].
      set (d4 := set_held (set_system d3 w2) false).
      change (set_held (set_system d2 w2) false) with (set_con d4 (u32 (event_disp_con d4 + 1))).
      apply (rep_open cl reg ib _ n d); [done|unfold EVENT_DISP_MAX_CON; lia|by eapply locked_sockets|].
      eapply socks_ib; [|apply (socks_system _ _ d2); try done; exact Hs3].
      intros fd Hfd. unfold ib_open. case_decide as Hin; [by rewrite Hnew|]. rewrite Hib; [done|].
      rewrite descs_app in Hfd. apply elem_of_app in Hfd as [?|Hx]; [done|]. destruct Hin. apply elem_of_descs in Hx as (x & Hx & ?).
      apply list_elem_of_singleton in Hx as ->. done.
    + rewrite decide_True by done. destruct (close_members_spec (descs cl) ib' (fds_list fds) d2 Hs2) as (d3 & Hc & Hoc & Hs3).
      unfold close_members. rewrite (bind_eq _ _ _ _ _ Hc). destruct (unlock_spec d3) as (w2 & Hun & Ho3 & Hl3 & Hi3).
      rewrite (unlock_after _ _ _ _ _ Hun). eexists _, _, _. split; [done|]. right; left. split_and!; [done|lia|].
      apply (rep_only_sockets _ _ _ _ d); [done|eapply locked_sockets; [done|by eapply only_sockets_trans]|].
      eapply socks_ib; [|by apply (socks_system _ _ d3)]. intros fd Hfd. by rewrite Hib.
Qed.

(** Closing a client. *)
Lemma api_close_spec cl reg ib n d l1 c l2 :
  disp_rep cl reg ib n d -> cl = l1 ++ c :: l2 ->
  exists d', event_disp_api_close (Some c) d = Some (SUCCESS, d') /\ disp_rep (l1 ++ l2) reg ib n d'.
Proof.
  intros H ->. unfold event_disp_api_close. crun. rewrite (dr_init _ _ _ _ _ H). crun.
  pose proof (dr_free _ _ _ _ _ H) as Hf. destruct (lock_spec d Hf) as (w & Hlock & Ho & Hl & Hi). crun.
  set (d1 := set_db (set_held (set_system d w) true) _).
  assert (Hs1 : socks (descs (l1 ++ c :: l2)) ib d1) by (apply (socks_system _ _ d); try done; apply H).
  pose proof (sk_nodup _ _ _ Hs1) as Hnd. apply (socks_perm _ _ _ _ (descs_middle l1 l2 c)) in Hs1. cbn [app fds_list] in Hs1.
  destruct (close_socket_spec _ _ _ _ Hs1) as (d2 & E2 & Ho2 & Hs2). crun.
  destruct (close_socket_spec _ _ _ _ Hs2) as (d3 & E3 & Ho3 & Hs3). crun.
  destruct (close_socket_spec _ _ _ _ Hs3) as (d4 & E4 & Ho4 & Hs4). crun.
  destruct (unlock_spec d4) as (w4 & Hun & Ho5 & Hl5 & Hi5). crun. rewrite !decide_True by done.
  eexists. split; [done|].
  assert (Hd4 : only_sockets d1 d4) by eauto using only_sockets_trans. destruct Hd4 as (lf & wf & ->).
  destruct H as [H1 H2 H3 H4 H5 H6 H7 H8 H9 H10].
  split; try done; cbn [event_disp_db event_disp_con set_con set_system set_fds_db set_held set_db d1].
  - by rewrite length_fmap.
  - intros e row Hrow. rewrite list_lookup_fmap in Hrow. apply fmap_Some in Hrow as (row0 & Hrow0 & ->).
    destruct (H4 e row0 Hrow0) as [Hlen Hlive]. split; [by rewrite remove_fds_length|].
    rewrite live_remove_fds, Hlive. rewrite filter_omap_client; [done|done|]. intros x fd Hx. by apply H5.
  - intros e x fd Hx. apply H5. apply elem_of_app in Hx. rewrite elem_of_app, elem_of_cons. naive_solver.
  - rewrite length_app in *. cbn [length] in H7. lia.
  - by apply (socks_system _ _ (set_system (set_fds_db d1 lf) wf)).
Qed.

(** ** Sending and receiving *)

(** The datagrams after a message was sent to the descriptors [R]: each of them
    holds it once, unless the call failed or the socket was full. *)
Definition delivered (R : list Z) (m : bytes) (st : status) (ib ib' : Z -> list bytes) : Prop :=
  (forall fd, ib' fd = ib fd \/ (fd ∈ R /\ ib' fd = ib fd ++ [m])) /\
  (st = SUCCESS -> forall fd, fd ∈ R -> ib' fd = ib fd ++ [m] \/ es_full (ib fd)).

Lemma delivered_perm R R' m st ib ib' : R ≡ₚ R' -> delivered R m st ib ib' -> delivered R' m st ib ib'.
Proof. intros HR [H1 H2]. split; [intros fd|intros Hst fd]; rewrite <- HR; auto. Qed.

Lemma delivered_none R m st ib : st <> SUCCESS -> delivered R m st ib ib.
Proof. intros Hst. split; [auto|done]. Qed.

Lemma delivered_cons x R m st ib ib1 ib2 :
  x ∉ R -> (ib1 = ib \/ ib1 = ib ⟦x <~ ib x ++ [m]⟧) ->
  (st = SUCCESS -> ib1 = ib -> es_full (ib x)) ->
  delivered R m st ib1 ib2 -> delivered (x :: R) m st ib ib2.
Proof.
  intros Hx H1 Hf [Ha Hb]. assert (Hother : forall fd, fd <> x -> ib1 fd = ib fd).
  { intros fd Hne. destruct H1 as [->| ->]; [done|]. by rewrite upd_ne. }
  assert (Hxs : ib2 x = ib1 x) by (destruct (Ha x) as [?|[? _]]; done). split.
  - intros fd. rewrite elem_of_cons. destruct (decide (fd = x)) as [->|Hne].
    + rewrite Hxs. destruct H1 as [->| ->]; [by left|]. rewrite upd_eq. auto.
    + destruct (Ha fd) as [->|[Hin ->]]; rewrite Hother by done; auto.
  - intros Hst fd [->|Hin]%elem_of_cons.
    + rewrite Hxs. destruct H1 as [->| ->]; [auto|]. rewrite upd_eq. auto.
    + assert (Hne : fd <> x) by (by intros ->). rewrite <- (Hother fd Hne). auto.
Qed.

Lemma socks_system_ib D ib ib' d w : socks D ib d -> sockets_ok D ib' w -> socks D ib' (set_system d w).
Proof. intros [? ? ? ? ?] H. by split. Qed.

(** No call on the sockets fails: they are made, made non-blocking, and a
    datagram for a socket that is bound is taken or finds it full. *)
Definition sockets_serve : Prop :=
  (forall w, (es_socket w).1 <> -1) /\ (forall fd w, fd ∈ open_fds w -> (es_nonblock fd w).1 = true) /\
  (forall fd data p x w, fd ∈ open_fds w -> listens w p = Some x -> (es_sendto fd data p w).1 <> SendFailed).

Lemma send_loop_spec D mode data row : forall ib d send_err fd0,
  socks D ib d -> live row ⊆ D -> NoDup (live row) -> fd0 ∉ D ->
  exists err send_err' sock w ib',
    send_loop row data mode send_err fd0 d = Some ((err, send_err', sock), set_system d w) /\
    sock ∉ D /\ socks D ib' (set_system d w) /\
    (err = SUCCESS -> send_err <> SUCCESS -> send_err' <> SUCCESS) /\
    (sockets_serve -> (fd0 <> -1 -> fd0 ∈ open_fds (system d)) -> err = SUCCESS /\ send_err' = send_err) /\
    delivered (live row) data (if decide (err = SUCCESS) then send_err' else err) ib ib'.
Proof.
  induction row as [|reg row IH]; intros ib d send_err fd0 H Hsub Hnd Hfd0; cbn [send_loop].
  { exists SUCCESS, send_err, fd0, (system d), ib. split_and!; try done; [by destruct d|by destruct d|].
    split; [auto|]. by intros _ fd ?%elem_of_nil. }
  assert (Hneg : -1 ∉ D). { intros Hin. pose proof (proj1 (Forall_forall _ _) (sk_pos _ _ _ H) _ Hin) as Hx. cbn beta in Hx. lia. }
  assert (Hclose : exists b w1, (if decide (fd0 <> -1) then os (es_close fd0) else mret true) d = Some (b, set_system d w1) /\
    socks D ib (set_system d w1) /\ ((fd0 <> -1 -> fd0 ∈ open_fds (system d)) -> b = true)).
  { destruct (decide (fd0 <> -1)) as [Hne|Heq].
    - destruct (es_close fd0 (system d)) as [b w1] eqn:E. exists b, w1. split; [by apply os_eq|]. split.
      + eapply socks_system_ib, sockets_close; [done| |apply H|done]. done.
      + destruct (es_close_law _ _ _ _ E) as (_ & Hb & _). auto.
    - exists true, (system d). destruct d. done. }
  destruct Hclose as (b & w1 & Hc & H1 & Hcs). crun. clear Hc H. set (d1 := set_system d w1) in *.
  destruct b; crun.
  2:{ exists EVENT_DISP_STATUS_SOCKET_ERROR, send_err, fd0, w1, ib. split_and!; try done; [|by apply delivered_none].
      intros _ Ho. by specialize (Hcs Ho). }
  rewrite live_cons in Hsub, Hnd. rewrite live_cons. destruct (decide (reg = -1)) as [->|Hreg].
  { destruct (IH ib d1 send_err (-1) H1 Hsub Hnd Hneg) as (err & se & sock & w & ib' & -> & Hs & Hk & Hse & Hok & Hdel).
    exists err, se, sock, w, ib'. split_and!; try done. intros Hserve _. by apply Hok. }
  apply NoDup_cons in Hnd as [Hnew Hnd]. assert (HregD : reg ∈ D) by (apply Hsub; by left).
  assert (Hsub' : live row ⊆ D) by (intros x Hx; apply Hsub; by right). clear Hsub.
  destruct (es_socket (system d1)) as [fd w2] eqn:Es. crun.
  destruct (sockets_socket _ _ _ _ _ (sk_ok _ _ _ H1) Es) as [Hok2 Hfd].
  pose proof (socks_system_ib _ _ _ _ _ H1 Hok2) as H2. change (set_system d1 w2) with (set_system d w2) in *.
  destruct (decide (fd = -1)) as [->|Hne].
  { exists EVENT_DISP_STATUS_SOCKET_ERROR, send_err, (-1), w2, ib. split_and!; try done; [|by apply delivered_none].
    intros [Hsk _] _. destruct (Hsk (system d1)). by rewrite Es. }
  destruct Hfd as [?|(_ & HfdD & Hopen & _)]; [done|]. clear Es H1 Hok2. set (d2 := set_system d w2) in *.
  assert (Hnb : exists b w3, (if decide (mode = EVENT_SEND_NON_BLOCKING_MODE) then os (es_nonblock fd) else mret true) d2 =
    Some (b, set_system d w3) /\ socks D ib (set_system d w3) /\ (sockets_serve -> b = true) /\ fd ∈ open_fds w3).
  { destruct (decide (mode = EVENT_SEND_NON_BLOCKING_MODE)).
    - destruct (es_nonblock fd (system d2)) as [b w3] eqn:E. exists b, w3. split; [exact (os_eq _ _ _ _ E)|].
      destruct (es_nonblock_law _ _ _ _ E) as (Ho & Hi & Hl). split; [by apply (socks_system _ _ d2)|].
      split; [|by rewrite Ho]. intros (_ & Hn & _). specialize (Hn fd (system d2) Hopen). by rewrite E in Hn.
    - exists true, w2. done. }
  destruct Hnb as (b & w3 & Hb & H3 & Hbs & Hopen3). crun. clear Hb H2. set (d3 := set_system d w3) in *.
  destruct b; crun.
  2:{ exists EVENT_DISP_STATUS_SOCKET_ERROR, send_err, fd, w3, ib. split_and!; try done; [|by apply delivered_none].
      intros Hserve _. by specialize (Hbs Hserve). }
  destruct (es_sendto fd data (sun_path reg) (system d3)) as [r w4] eqn:Et. crun.
  pose proof (sockets_sendto _ _ _ _ _ _ _ _ HregD (sk_ok _ _ _ H3) Et) as Hsent.
  assert (Hopen4 : fd <> -1 -> fd ∈ open_fds (system (set_system d w4))).
  { intros _. cbn. destruct (es_sendto_law _ _ _ _ _ _ Et) as (Ho & _). by rewrite Ho. }
  change (set_system d3 w4) with (set_system d w4). destruct r.
  - pose proof (socks_system_ib _ _ _ d3 _ H3 Hsent) as H4.
    destruct (IH _ (set_system d w4) send_err fd H4 Hsub' Hnd HfdD) as (err & se & sock & w & ib' & -> & Hs & Hk & Hse & Hok & Hdel).
    exists err, se, sock, w, ib'. split_and!; try done; [intros Hserve _; by apply Hok|]. eapply delivered_cons; [done|by right| |exact Hdel].
    intros _ Heq. exfalso. apply (f_equal (fun f => f reg)) in Heq. rewrite upd_eq in Heq.
    apply (f_equal length) in Heq. rewrite length_app in Heq. cbn in Heq. lia.
  - destruct Hsent as [Hsent Hfull]. pose proof (socks_system_ib _ _ _ d3 _ H3 Hsent) as H4.
    destruct (IH _ (set_system d w4) send_err fd H4 Hsub' Hnd HfdD) as (err & se & sock & w & ib' & -> & Hs & Hk & Hse & Hok & Hdel).
    exists err, se, sock, w, ib'. split_and!; try done; [intros Hserve _; by apply Hok|]. eapply delivered_cons; [done|by left| |exact Hdel]. done.
  - pose proof (socks_system_ib _ _ _ d3 _ H3 Hsent) as H4.
    destruct (IH _ (set_system d w4) EVENT_DISP_STATUS_SEND_ERROR fd H4 Hsub' Hnd HfdD) as (err & se & sock & w & ib' & -> & Hs & Hk & Hse & Hok & Hdel).
    exists err, se, sock, w, ib'. split_and!; try done; [intros; by apply Hse| |].
    { intros (_ & _ & Hsend) _. destruct (sk_ok _ _ _ H3 reg HregD) as (_ & Hlis & _).
      destruct (Hsend fd data _ _ (system d3) Hopen3 Hlis). by rewrite Et. }
    eapply delivered_cons; [done|by left| |exact Hdel].
    case_decide as Herr; intros Hst; [|done]. by destruct (Hse Herr).
Qed.

Definition msg_bytes (ev : Z) (data : bytes) : bytes := le32 ev ++ data.

Definition data_ok (data : bytes) : Prop := Z.of_nat (length data) <= EVENT_DISP_MAX_BUFF_LEN.

Lemma prepare_copy ev data :
  data_ok data ->
  prepare_message ev (Some data) (Z.of_nat (length data)) EVENT_SEND_WITH_COPY = Some (Some data, msg_bytes ev data).
Proof.
  unfold data_ok, EVENT_DISP_MAX_BUFF_LEN. intros Hd. unfold prepare_message. rewrite decide_False by done. rewrite decide_True by done.
  set (msg := le32 ev ++ replicate _ 0).
  assert (Hl : length msg = 1504%nat) by (unfold msg; rewrite length_app, length_replicate; done).
  assert (Hlast : forall rest, read_bytes (msg_bytes ev data ++ rest) 0 (sizeof_event + Z.of_nat (length data)) = Some (msg_bytes ev data)).
  { intros rest. unfold sizeof_event, msg_bytes. rewrite read_bytes_eq; [|lia|lia|rewrite !length_app; cbn [length le32]; lia].
    rewrite drop_0, take_app_length'; [done|]. rewrite length_app. cbn [length le32]. lia. }
  destruct (decide (Z.of_nat (length data) <> 0)) as [Hne|He].
  - rewrite read_bytes_eq by lia. rewrite drop_0, Nat2Z.id, firstn_all. cbn [mbind option_bind].
    rewrite write_bytes_eq by (unfold sizeof_event; lia). cbn [mbind option_bind].
    rewrite (assoc_L (++)). change (take (Z.to_nat sizeof_event) msg) with (le32 ev). by rewrite Hlast.
  - cbn [mbind option_bind]. destruct data as [|x data]; [|cbn in He; lia].
    replace msg with (msg_bytes ev [] ++ replicate (Z.to_nat EVENT_DISP_MAX_BUFF_LEN) 0) by (unfold msg_bytes, msg; by rewrite app_nil_r).
    by rewrite Hlast.
Qed.

(** The counters are not the business of the representation. *)
Lemma rep_counters cl reg ib n d d' :
  disp_rep cl reg ib n d -> event_disp_init d' = true -> mutex_held d' = false -> event_disp_db d' = event_disp_db d ->
  event_disp_con d' = event_disp_con d -> length (event_disp_gen_counter d') = length (event_disp_gen_counter d) ->
  length (event_disp_rcv_counter d') = length (event_disp_rcv_counter d) ->
  forall ib', socks (descs cl) ib' d' -> disp_rep cl reg ib' n d'.
Proof.
  intros [? ? ? ? ? ? ? ? ? ?] Hi Hm Hd Hc Hg Hr ib' Hs. split; try done; try congruence; rewrite Hd; done.
Qed.

Lemma generate_spec cl reg ib n d ev data mode :
  disp_rep cl reg ib n d -> event_ok ev -> data_ok data ->
  exists st d' ib',
    event_disp_api_generate_event_mode ev (Some data) (Z.of_nat (length data)) mode EVENT_SEND_WITH_COPY d
      = Some ((st, Some data), d') /\
    disp_rep cl reg ib' n d' /\ delivered (omap (reg ev) cl) (msg_bytes ev data) st ib ib' /\
    (st = SUCCESS ->
      event_disp_gen_counter d' = alter (fun c => u64 (c + 1)) (Z.to_nat ev) (event_disp_gen_counter d) /\
      event_disp_rcv_counter d' = event_disp_rcv_counter d) /\
    (sockets_serve -> st = SUCCESS).
Proof.
  intros H He Hd. unfold event_ok in He. unfold event_disp_api_generate_event_mode. crun. rewrite (dr_init _ _ _ _ _ H).
  unfold data_ok in Hd. crun. rewrite decide_False by lia. rewrite decide_False by lia.
  pose proof (dr_free _ _ _ _ _ H) as Hf. destruct (lock_spec d Hf) as (w & Hlock & Ho & Hl & Hi). crun.
  set (d1 := set_held (set_system d w) true) in *.
  assert (Hp : access (prepare_message ev (Some data) (Z.of_nat (length data)) EVENT_SEND_WITH_COPY) d1 = Some ((Some data, msg_bytes ev data), d1))
    by (unfold access; by rewrite prepare_copy). rewrite (bind_eq _ _ _ _ _ Hp). crun.
  destruct (lookup_lt_is_Some_2 (event_disp_db d) (Z.to_nat ev)) as [row Hrow]; [rewrite (dr_events _ _ _ _ _ H); lia|].
  assert (Ha : access (event_disp_db d1 !! Z.to_nat ev) d1 = Some (row, d1)) by (unfold access; cbn; by rewrite Hrow).
  rewrite (bind_eq _ _ _ _ _ Ha). clear Ha Hp.
  destruct (dr_row _ _ _ _ _ H _ _ Hrow) as [_ Hlive]. rewrite Z2Nat.id in Hlive by lia.
  assert (Hs1 : socks (descs cl) ib d1) by (apply (socks_system _ _ d); try done; apply H).
  assert (Hsub : live row ⊆ descs cl).
  { intros x Hx. rewrite Hlive in Hx. apply list_elem_of_omap in Hx as (c & Hc & Hx). apply elem_of_descs. exists c. split; [done|].
    by apply (dr_reg _ _ _ _ _ H ev). }
  assert (Hnd : NoDup (live row)).
  { rewrite Hlive. pose proof (sk_nodup _ _ _ Hs1) as Hn. pose proof (dr_reg _ _ _ _ _ H ev) as Hreg. clear -Hn Hreg.
    induction cl as [|c cl IH]; [constructor|]. change (descs (c :: cl)) with (fds_list c ++ descs cl) in Hn.
    apply NoDup_app in Hn as (_ & Hx & Hn). cbn [omap list_omap].
    assert (IH' := IH Hn (fun c' fd Hc' => Hreg c' fd ltac:(by right))).
    destruct (reg ev c) as [fd|] eqn:E; [|done]. constructor; [|done].
    intros Hin. apply (Hx fd); [apply Hreg; [by left|done]|]. apply list_elem_of_omap in Hin as (c' & Hc' & E').
    apply elem_of_descs. exists c'. split; [done|]. apply Hreg; [by right|done]. }
  assert (Hneg : -1 ∉ descs cl). { intros Hin. pose proof (proj1 (Forall_forall _ _) (sk_pos _ _ _ Hs1) _ Hin) as Hx. cbn beta in Hx. lia. }
  destruct (send_loop_spec (descs cl) mode (msg_bytes ev data) row ib d1 SUCCESS (-1) Hs1 Hsub Hnd Hneg)
    as (err & se & sock & w2 & ib' & E & Hsock & Hs2 & _ & Hok & Hdel).
  rewrite (bind_eq _ _ _ _ _ E). set (d2 := set_system d1 w2) in *.
  set (d3 := if decide (err = SUCCESS) then set_gen d2 (alter (fun n => u64 (n + 1)) (Z.to_nat ev) (event_disp_gen_counter d2))
    (u64 (event_disp_total_gen_counter d2 + 1)) else d2).
  assert (E3 : (if decide (err = SUCCESS) then count_generated ev else mret tt) d2 = Some (tt, d3)) by (unfold d3; by destruct (decide (err = SUCCESS))).
  rewrite (bind_eq _ _ _ _ _ E3).
  assert (Hs3 : socks (descs cl) ib' d3) by (unfold d3; destruct (decide (err = SUCCESS)); [by apply (socks_system _ _ d2)|done]).
  assert (E4 : exists w4, (if decide (sock <> -1) then os (es_close sock);; mret tt else mret tt) d3 = Some (tt, set_system d3 w4) /\
    socks (descs cl) ib' (set_system d3 w4)).
  { destruct (decide (sock <> -1)).
    - destruct (es_close sock (system d3)) as [b w4] eqn:E5. crun. exists w4. split; [done|].
      eapply socks_system_ib; [done|]. eapply sockets_close; [exact Hsock|apply Hs3|done].
    - exists (system d3). split; [|by apply (socks_system _ _ d3)]. by destruct d3. }
  destruct E4 as (w4 & E4 & Hs4). rewrite (bind_eq _ _ _ _ _ E4). destruct (unlock_spec (set_system d3 w4)) as (w5 & Hun & Ho5 & Hl5 & Hi5).
  crun. eexists _, _, ib'. split; [done|].
  assert (Hd3 : event_disp_db d3 = event_disp_db d /\ event_disp_con d3 = event_disp_con d /\ event_disp_init d3 = true /\
    event_disp_rcv_counter d3 = event_disp_rcv_counter d /\ length (event_disp_gen_counter d3) = length (event_disp_gen_counter d) /\
    (err = SUCCESS -> event_disp_gen_counter d3 = alter (fun c => u64 (c + 1)) (Z.to_nat ev) (event_disp_gen_counter d))).
  { unfold d3. pose proof (dr_init _ _ _ _ _ H). destruct (decide (err = SUCCESS)); cbn; rewrite ?length_alter; by split_and!. }
  destruct Hd3 as (Hdb & Hcon & Hin & Hrcv & Hgen & Hgen'). split; [|split; [|split]].
  - eapply (rep_counters _ _ _ _ d); cbn; try done; [by rewrite Hrcv|]. by apply (socks_system _ _ (set_system d3 w4)).
  - eapply delivered_perm; [exact Hlive|done].
  - intros Hst. cbn. split; [|done]. apply Hgen'. by destruct (decide (err = SUCCESS)).
  - intros Hserve. destruct Hok as [-> ->]; [done|done|]. by rewrite decide_True.
Qed.

Lemma msg_event_bytes ev data rest :
  event_ok ev -> msg_event (msg_bytes ev data ++ rest) = Some ev.
Proof.
  unfold event_ok, EVENT_DISP_MAX_EVENTS. intros He. unfold msg_event, msg_bytes. rewrite read_bytes_eq by (unfold sizeof_event; rewrite ?length_app; cbn [length le32]; lia).
  change (take (Z.to_nat sizeof_event) _) with (le32 ev). cbn [fmap option_fmap option_map]. unfold compose.
  by rewrite of_le_le32_signed by lia.
Qed.

(** Receiving from a client's socket: the first datagram, or an error when there is
    none. *)
Lemma get_event_spec cl reg ib n d fd ev data rest buf :
  disp_rep cl reg ib n d -> fd ∈ descs cl -> ib fd = msg_bytes ev data :: rest -> event_ok ev -> data_ok data ->
  Z.of_nat (length buf) = sizeof_event_disp_msg ->
  exists d', event_disp_api_get_event fd (Some buf) d
      = Some ((SUCCESS, Some (msg_bytes ev data ++ drop (length (msg_bytes ev data)) buf)), d') /\
    disp_rep cl reg (ib ⟦fd <~ rest⟧) n d' /\
    event_disp_rcv_counter d' = alter (fun c => u64 (c + 1)) (Z.to_nat ev) (event_disp_rcv_counter d) /\
    event_disp_gen_counter d' = event_disp_gen_counter d.
Proof.
  intros H Hfd Hib He Hd Hbuf. pose proof (dr_socks _ _ _ _ _ H) as Hs. unfold event_disp_api_get_event.
  assert (H0 : 0 <= fd) by (apply (proj1 (Forall_forall _ _) (sk_pos _ _ _ Hs) _ Hfd)). rewrite decide_False by lia.
  destruct (sk_ok _ _ _ Hs fd Hfd) as (Hop & Hli & Hin). destruct (es_recv fd sizeof_event_disp_msg (system d)) as [r w] eqn:E. crun.
  destruct (es_recv_law _ _ _ _ _ E) as (Ho & Hl & Hother & Hr). destruct r as [m|]; [|destruct Hr as [_ Hr]; specialize (Hr Hop); congruence].
  destruct Hr as (m' & Hm' & ->). rewrite Hin, Hib in Hm'. injection Hm' as <- Hrest.
  assert (Hlen : (length (msg_bytes ev data) <= 1504)%nat).
  { unfold msg_bytes, data_ok, EVENT_DISP_MAX_BUFF_LEN in *. rewrite length_app. cbn [length le32]. lia. }
  unfold sizeof_event_disp_msg, sizeof_event, EVENT_DISP_MAX_BUFF_LEN in *. rewrite (take_ge (msg_bytes ev data)) by lia.
  set (m := msg_bytes ev data) in *. set (d1 := set_system d w).
  assert (Hw : access (write_bytes buf 0 m) d1 = Some (m ++ drop (length m) buf, d1)).
  { unfold access. rewrite write_bytes_eq by lia. done. } rewrite (bind_eq _ _ _ _ _ Hw).
  assert (Hm : access (msg_event (m ++ drop (length m) buf)) d1 = Some (ev, d1)) by (unfold access, m; by rewrite msg_event_bytes).
  rewrite (bind_eq _ _ _ _ _ Hm). unfold event_ok in He. rewrite decide_False by lia. unfold count_received. crun.
  rewrite decide_True by lia. eexists. split; [done|]. split; [|done].
  eapply (rep_counters _ _ _ _ d); cbn; rewrite ?length_alter; try done; try apply H.
  apply (socks_system _ _ d1); try done. apply (socks_system_ib _ ib); [done|].
  intros x Hx. destruct (sk_ok _ _ _ Hs x Hx) as (Hox & Hlx & Hix). rewrite Ho, Hl. destruct (decide (x = fd)) as [->|Hne].
  - by rewrite upd_eq.
  - by rewrite upd_ne, Hother.
Qed.

Lemma get_event_empty cl reg ib n d fd buf :
  disp_rep cl reg ib n d -> fd ∈ descs cl -> ib fd = [] ->
  exists d', event_disp_api_get_event fd (Some buf) d = Some ((EVENT_DISP_STATUS_SOCKET_ERROR, Some buf), d') /\
    disp_rep cl reg ib n d'.
Proof.
  intros H Hfd Hib. pose proof (dr_socks _ _ _ _ _ H) as Hs. unfold event_disp_api_get_event.
  assert (H0 : 0 <= fd) by (apply (proj1 (Forall_forall _ _) (sk_pos _ _ _ Hs) _ Hfd)). rewrite decide_False by lia.
  destruct (sk_ok _ _ _ Hs fd Hfd) as (Hop & Hli & Hin). destruct (es_recv fd sizeof_event_disp_msg (system d)) as [r w] eqn:E. crun.
  destruct (es_recv_law _ _ _ _ _ E) as (Ho & Hl & Hother & Hr). destruct r as [m|].
  { destruct Hr as (m' & Hm' & _). rewrite Hin, Hib in Hm'. done. }
  eexists. split; [done|]. eapply (rep_counters _ _ _ _ d); cbn; try done; try apply H.
  apply (socks_system_ib _ ib); [done|]. intros x Hx. rewrite Ho, Hl. destruct (sk_ok _ _ _ Hs x Hx) as (Hox & Hlx & Hix).
  destruct (decide (x = fd)) as [->|Hne]; [|by rewrite Hother]. destruct Hr as [Hr _]. by rewrite Hr.
Qed.
End Rep.
