(* ===== verification/EventDispProps.v ===== *)
(** * Properties of the event dispatcher

    Clients that open, register, send and receive see the abstract dispatcher: a
    registration per client and event, and a queue of messages per descriptor.
    Whatever its callers give it, the dispatcher returns, frees its mutex and keeps
    its tables; connections are counted and never given back. *)

From S2P Require Import Prelude Bytes Comp EventDisp EventDispSpec EventDispOps.
From stdpp Require Import strings pretty.

Local Open Scope Z_scope.
Local Open Scope list_scope.

(** ** The abstract dispatcher *)

(** The open clients, the descriptor a client is registered with for an event,
    the messages each descriptor holds, and the clients opened so far. *)
Record dispatcher := Dispatcher {
  clients : list event_disp_fds;
  registered : Z -> event_disp_fds -> option Z;
  pending : Z -> list (Z * bytes);
  opened : nat }.

Definition dispatcher0 : dispatcher := Dispatcher [] (fun _ _ => None) (fun _ => []) 0.

(** What clients do; clients are named by their place among the open ones. *)
Inductive client_op :=
| OpenClient
| CloseClient (i : nat)
| Register (i : nat) (prio : Z) (evs : list Z)
| Unregister (i : nat) (evs : list Z)
| Generate (blocking : bool) (ev : Z) (msg : bytes)
| Receive (i : nat) (prio : Z).

Inductive answer :=
| Opened (c : event_disp_fds)
| Status (st : event_disp_status)
| Message (buf : bytes)
| NoClient.

Definition client_op_ok (o : client_op) : Prop :=
  match o with
  | Register _ prio evs => prio ∈ [HIGH_PRIO; MED_PRIO; LOW_PRIO] /\ events_ok evs
  | Unregister _ evs => events_ok evs
  | Generate _ ev msg => event_ok ev /\ data_ok msg
  | Receive _ prio => prio ∈ [HIGH_PRIO; MED_PRIO; LOW_PRIO]
  | _ => True
  end.

(** A received message in a buffer that was zero. *)
Definition msg_buffer (m : Z * bytes) : bytes :=
  msg_bytes m.1 m.2 ++ drop (length (msg_bytes m.1 m.2)) (replicate (Z.to_nat sizeof_event_disp_msg) 0).

Abbreviation SUCCESS := EVENT_DISP_STATUS_SUCCESS.

Section Spec.
Context (full : list (Z * bytes) -> Prop).

(** The effect of an operation; sockets may not be available, a send may fail. *)
Inductive spec_step (s : dispatcher) : client_op -> answer -> dispatcher -> Prop :=
| spec_open c :
    (opened s < EVENT_DISP_MAX_CON)%nat -> NoDup (descs (clients s ++ [c])) -> Forall (fun fd => 0 <= fd) (fds_list c) ->
    spec_step s OpenClient (Opened c)
      (Dispatcher (clients s ++ [c]) (reg_open (registered s) c)
         (fun fd => if decide (fd ∈ fds_list c) then [] else pending s fd) (S (opened s)))
| spec_open_error :
    (opened s < EVENT_DISP_MAX_CON)%nat -> spec_step s OpenClient (Status EVENT_DISP_STATUS_SOCKET_ERROR) s
| spec_open_full :
    opened s = EVENT_DISP_MAX_CON -> spec_step s OpenClient (Status EVENT_DISP_STATUS_MAX_CONNETIONS) s
| spec_close i c :
    clients s !! i = Some c ->
    spec_step s (CloseClient i) (Status SUCCESS) (Dispatcher (delete i (clients s)) (registered s) (pending s) (opened s))
| spec_register i c prio fd evs :
    clients s !! i = Some c -> fd_of_prio c prio = Some fd ->
    spec_step s (Register i prio evs) (Status SUCCESS)
      (Dispatcher (clients s) (reg_set (reg_set (registered s) c evs None) c evs (Some fd)) (pending s) (opened s))
| spec_unregister i c evs :
    clients s !! i = Some c ->
    spec_step s (Unregister i evs) (Status SUCCESS)
      (Dispatcher (clients s) (reg_set (registered s) c evs None) (pending s) (opened s))
| spec_generate b ev msg st pending' :
    (forall fd, pending' fd = pending s fd \/
      (fd ∈ omap (registered s ev) (clients s) /\ pending' fd = pending s fd ++ [(ev, msg)])) ->
    (st = SUCCESS -> forall fd, fd ∈ omap (registered s ev) (clients s) ->
      pending' fd = pending s fd ++ [(ev, msg)] \/ full (pending s fd)) ->
    spec_step s (Generate b ev msg) (Status st) (Dispatcher (clients s) (registered s) pending' (opened s))
| spec_receive i c prio fd m rest :
    clients s !! i = Some c -> fd_of_prio c prio = Some fd -> pending s fd = m :: rest ->
    spec_step s (Receive i prio) (Message (msg_buffer m))
      (Dispatcher (clients s) (registered s) ((pending s) ⟦fd <~ rest⟧) (opened s))
| spec_receive_none i c prio fd :
    clients s !! i = Some c -> fd_of_prio c prio = Some fd -> pending s fd = [] ->
    spec_step s (Receive i prio) (Status EVENT_DISP_STATUS_SOCKET_ERROR) s
| spec_no_client o i :
    clients s !! i = None -> o = CloseClient i \/ (exists p evs, o = Register i p evs) \/ (exists evs, o = Unregister i evs) \/
      (exists p, o = Receive i p) ->
    spec_step s o NoClient s.

Inductive spec_run : dispatcher -> list client_op -> list answer -> dispatcher -> Prop :=
| spec_run_nil s : spec_run s [] [] s
| spec_run_cons s o a s1 ops ans s2 :
    spec_step s o a s1 -> spec_run s1 ops ans s2 -> spec_run s (o :: ops) (a :: ans) s2.
End Spec.

(** ** The clients' program *)

Section Clients.
Context {W : Type} {OS : EventSockets W}.

Definition on_client (cl : list event_disp_fds) (i : nat) (k : event_disp_fds -> comp (disp W) (answer * list event_disp_fds)) :
    comp (disp W) (answer * list event_disp_fds) :=
  match cl !! i with None => mret (NoClient, cl) | Some c => k c end.

Definition client_step (o : client_op) (cl : list event_disp_fds) : comp (disp W) (answer * list event_disp_fds) :=
  match o with
  | OpenClient =>
      '(st, fds) ← event_disp_api_open (Some no_fds);
      match st, fds with
      | SUCCESS, Some c => mret (Opened c, cl ++ [c])
      | _, _ => mret (Status st, cl)
      end
  | CloseClient i => on_client cl i (fun c => st ← event_disp_api_close (Some c); mret (Status st, delete i cl))
  | Register i prio evs => on_client cl i (fun c =>
      st ← event_disp_api_register_events (Some c) prio (Some evs) (Z.of_nat (length evs)); mret (Status st, cl))
  | Unregister i evs => on_client cl i (fun c =>
      st ← event_disp_api_unregister_events (Some c) (Some evs) (Z.of_nat (length evs)); mret (Status st, cl))
  | Generate b ev msg =>
      '(st, _) ← (if (b : bool) then event_disp_api_generate_event_blocking else event_disp_api_generate_event)
                   ev (Some msg) (Z.of_nat (length msg));
      mret (Status st, cl)
  | Receive i prio => on_client cl i (fun c =>
      fd ← access (fd_of_prio c prio);
      '(st, buf) ← event_disp_api_get_event fd (Some (replicate (Z.to_nat sizeof_event_disp_msg) 0));
      match st, buf with
      | SUCCESS, Some b => mret (Message b, cl)
      | _, _ => mret (Status st, cl)
      end)
  end.

Fixpoint client_run (ops : list client_op) (cl : list event_disp_fds) : comp (disp W) (list answer * list event_disp_fds) :=
  match ops with
  | [] => mret ([], cl)
  | o :: ops => '(a, cl) ← client_step o cl; '(ans, cl) ← client_run ops cl; mret (a :: ans, cl)
  end.

Context {LAWS : EventSocketsLaws W}.
Implicit Types (d : disp W) (s : dispatcher).

(** ** Simulation *)

Definition bytes_of (l : list (Z * bytes)) : list bytes := (fun m => msg_bytes m.1 m.2) <$> l.
Definition spec_full (l : list (Z * bytes)) : Prop := es_full (bytes_of l).

Record refines s d : Prop := {
  rf_rep : disp_rep (clients s) (registered s) (fun fd => bytes_of (pending s fd)) (opened s) d;
  rf_msgs fd m : fd ∈ descs (clients s) -> m ∈ pending s fd -> event_ok m.1 /\ data_ok m.2 }.

Lemma rep_ib cl reg ib ib' n d :
  (forall fd, fd ∈ descs cl -> ib' fd = ib fd) -> disp_rep cl reg ib n d -> disp_rep cl reg ib' n d.
Proof. intros Hib [? ? ? ? ? ? ? Hs ? ?]. split; try done. by eapply socks_ib. Qed.

Lemma fd_of_prio_some c prio :
  prio ∈ [HIGH_PRIO; MED_PRIO; LOW_PRIO] -> exists fd, fd_of_prio c prio = Some fd /\ fd ∈ fds_list c.
Proof.
  rewrite !elem_of_cons, elem_of_nil. unfold fds_list. setoid_rewrite elem_of_cons. setoid_rewrite elem_of_cons.
  setoid_rewrite elem_of_cons. intros [->|[->|[->|[]]]]; eexists; (split; [reflexivity|auto]).
Qed.

Lemma open_simulates s d :
  refines s d -> exists a s' d', client_step OpenClient (clients s) d = Some ((a, clients s'), d') /\
    spec_step spec_full s OpenClient a s' /\ refines s' d'.
Proof.
  intros [H Hm]. destruct (open_spec _ _ _ _ _ H) as (st & fds & d' & E & [(-> & Hn & Hnd & Hpos & H')|[(-> & Hn & H')|(-> & Hn & H')]]);
    cbn [client_step]; rewrite (bind_eq _ _ _ _ _ E).
  - eexists _, (Dispatcher _ _ _ _), _. split; [reflexivity|]. split; [by apply spec_open|]. split; cbn [clients registered pending opened].
    + eapply rep_ib, H'. intros fd _. unfold ib_open. by case_decide.
    + intros fd m Hfd. case_decide as Hc; [by intros ?%elem_of_nil|]. apply Hm. rewrite descs_app in Hfd.
      apply elem_of_app in Hfd as [?|(x & Hx & ?)%elem_of_descs]; [done|]. apply list_elem_of_singleton in Hx as ->. done.
  - exists (Status EVENT_DISP_STATUS_SOCKET_ERROR), s, d'. split; [done|]. split; [by constructor|by split].
  - exists (Status EVENT_DISP_STATUS_MAX_CONNETIONS), s, d'. split; [done|]. split; [by constructor|by split].
Qed.

Lemma generate_simulates s d b ev msg :
  refines s d -> event_ok ev -> data_ok msg ->
  exists a s' d', client_step (Generate b ev msg) (clients s) d = Some ((a, clients s'), d') /\
    spec_step spec_full s (Generate b ev msg) a s' /\ refines s' d'.
Proof.
  intros [H Hm] He Hd. set (mode := if b then EVENT_SEND_BLOCKING_MODE else EVENT_SEND_NON_BLOCKING_MODE).
  destruct (generate_spec _ _ _ _ _ ev msg mode H He Hd) as (st & d' & ib' & E & H' & [Hdel Hall] & _).
  set (R := omap (registered s ev) (clients s)) in *.
  set (pending' fd := if decide (ib' fd = bytes_of (pending s fd)) then pending s fd else pending s fd ++ [(ev, msg)]).
  assert (Hsnoc : forall fd, bytes_of (pending s fd ++ [(ev, msg)]) = bytes_of (pending s fd) ++ [msg_bytes ev msg])
    by (intros fd; unfold bytes_of; by rewrite fmap_app).
  assert (Hne : forall l : list bytes, l ++ [msg_bytes ev msg] <> l).
  { intros l Hl. apply (f_equal length) in Hl. rewrite length_app in Hl. cbn in Hl. lia. }
  assert (Hib : forall fd, bytes_of (pending' fd) = ib' fd).
  { intros fd. unfold pending'. case_decide as Hc; [done|]. destruct (Hdel fd) as [?|[_ ->]]; [done|]. apply Hsnoc. }
  exists (Status st), (Dispatcher (clients s) (registered s) pending' (opened s)), d'. split; [|split].
  - cbn [client_step clients]. assert (E' : (if b then event_disp_api_generate_event_blocking else event_disp_api_generate_event)
      ev (Some msg) (Z.of_nat (length msg)) d = Some ((st, Some msg), d')) by (by destruct b). by rewrite (bind_eq _ _ _ _ _ E').
  - constructor; fold R.
    + intros fd. unfold pending'. case_decide; [by left|]. destruct (Hdel fd) as [?|[? _]]; [done|by right].
    + intros Hst fd Hfd. destruct (Hall Hst fd Hfd) as [Hf|Hf]; [left|by right]. unfold pending'.
      rewrite decide_False; [done|]. rewrite Hf. apply Hne.
  - split; cbn [clients registered pending opened].
    + eapply rep_ib, H'. intros fd _. apply Hib.
    + intros fd m Hfd. unfold pending'. case_decide; [by apply Hm|]. intros [Hx|Hx%list_elem_of_singleton]%elem_of_app; [by apply (Hm fd)|].
      by subst m.
Qed.

Lemma receive_simulates s d i prio :
  refines s d -> prio ∈ [HIGH_PRIO; MED_PRIO; LOW_PRIO] ->
  exists a s' d', client_step (Receive i prio) (clients s) d = Some ((a, clients s'), d') /\
    spec_step spec_full s (Receive i prio) a s' /\ refines s' d'.
Proof.
  intros [H Hm] Hp. cbn [client_step]. unfold on_client. destruct (clients s !! i) as [c|] eqn:Hc.
  2:{ exists NoClient, s, d. split; [done|]. split; [|by split]. eapply spec_no_client; [done|]. eauto. }
  destruct (fd_of_prio_some c prio Hp) as (fd & Hfd & Hin).
  assert (HD : fd ∈ descs (clients s)) by (apply elem_of_descs; exists c; split; [by eapply list_elem_of_lookup_2|done]).
  assert (Ha : access (fd_of_prio c prio) d = Some (fd, d)) by (unfold access; by rewrite Hfd). rewrite (bind_eq _ _ _ _ _ Ha).
  set (buf := replicate _ 0). destruct (pending s fd) as [|m rest] eqn:Hpd.
  - destruct (get_event_empty _ _ _ _ _ fd buf H HD) as (d' & E & H'); [by rewrite Hpd|]. rewrite (bind_eq _ _ _ _ _ E).
    eexists _, s, d'. split; [done|]. split; [by eapply spec_receive_none|by split].
  - destruct (Hm fd m HD) as [He Hd]; [rewrite Hpd; by left|].
    destruct (get_event_spec _ _ _ _ _ fd m.1 m.2 (bytes_of rest) buf H HD) as (d' & E & H' & _); [by rewrite Hpd|done|done|done|].
    rewrite (bind_eq _ _ _ _ _ E). eexists _, (Dispatcher (clients s) (registered s) ((pending s) ⟦fd <~ rest⟧) (opened s)), d'.
    split; [done|]. split; [by eapply spec_receive|]. split; cbn [clients registered pending opened].
    + eapply rep_ib, H'. intros x _. unfold upd. by case_decide.
    + intros x y Hx. unfold upd. case_decide as Hd'; [|by apply Hm]. subst x. intros Hy. apply (Hm fd); [done|]. rewrite Hpd. by right.
Qed.

Lemma step_simulates o s d :
  refines s d -> client_op_ok o ->
  exists a s' d', client_step o (clients s) d = Some ((a, clients s'), d') /\ spec_step spec_full s o a s' /\ refines s' d'.
Proof.
  intros H Ho. destruct o as [|i|i prio evs|i evs|b ev msg|i prio].
  - by apply open_simulates.
  - destruct H as [H Hm]. cbn [client_step]. unfold on_client. destruct (clients s !! i) as [c|] eqn:Hc.
    2:{ exists NoClient, s, d. split; [done|]. split; [|by split]. eapply spec_no_client; [done|]. eauto. }
    pose proof (eq_sym (take_drop_middle _ _ _ Hc)) as Hcl. destruct (api_close_spec _ _ _ _ _ _ _ _ H Hcl) as (d' & E & H').
    rewrite (bind_eq _ _ _ _ _ E). eexists _, (Dispatcher (delete i (clients s)) (registered s) (pending s) (opened s)), d'.
    split; [done|]. split; [by eapply spec_close|]. rewrite <- delete_take_drop in H'. split; [done|]. cbn [clients pending].
    intros fd m Hfd. apply Hm. rewrite elem_of_descs in *. destruct Hfd as (x & Hx & Hfd). exists x. split; [|done].
    rewrite Hcl. rewrite delete_take_drop in Hx. apply elem_of_app in Hx. rewrite elem_of_app, elem_of_cons. naive_solver.
  - destruct H as [H Hm], Ho as [Hp He]. cbn [client_step]. unfold on_client. destruct (clients s !! i) as [c|] eqn:Hc.
    2:{ exists NoClient, s, d. split; [done|]. split; [|by split]. eapply spec_no_client; [done|]. eauto. }
    destruct (fd_of_prio_some c prio Hp) as (fd & Hfd & _).
    destruct (register_spec _ _ _ _ _ c prio fd evs H ltac:(by eapply list_elem_of_lookup_2) Hfd He) as (d' & E & H').
    rewrite (bind_eq _ _ _ _ _ E). eexists _, (Dispatcher _ _ _ _), d'. split; [reflexivity|]. split; [by eapply spec_register|by split].
  - destruct H as [H Hm]. cbn [client_step]. unfold on_client. destruct (clients s !! i) as [c|] eqn:Hc.
    2:{ exists NoClient, s, d. split; [done|]. split; [|by split]. eapply spec_no_client; [done|]. eauto. }
    destruct (unregister_spec _ _ _ _ _ c evs H ltac:(by eapply list_elem_of_lookup_2) Ho) as (d' & E & H').
    rewrite (bind_eq _ _ _ _ _ E). eexists _, (Dispatcher _ _ _ _), d'. split; [reflexivity|]. split; [by eapply spec_unregister|by split].
  - destruct Ho. by apply generate_simulates.
  - by apply receive_simulates.
Qed.

Lemma run_simulates ops : forall s d,
  refines s d -> Forall client_op_ok ops ->
  exists ans s' d', client_run ops (clients s) d = Some ((ans, clients s'), d') /\ spec_run spec_full s ops ans s' /\ refines s' d'.
Proof.
  induction ops as [|o ops IH]; intros s d H Hops.
  - exists [], s, d. split; [done|]. split; [constructor|done].
  - apply Forall_cons in Hops as [Ho Hops]. destruct (step_simulates o s d H Ho) as (a & s1 & d1 & E1 & Hs1 & H1).
    destruct (IH s1 d1 H1 Hops) as (ans & s2 & d2 & E2 & Hs2 & H2). exists (a :: ans), s2, d2. split.
    + cbn [client_run]. rewrite (bind_eq _ _ _ _ _ E1). cbn beta iota. by rewrite (bind_eq _ _ _ _ _ E2).
    + split; [by econstructor|done].
Qed.

Lemma dispatcher_init_spec d0 d : event_disp_api_init d0 = Some (SUCCESS, d) -> refines dispatcher0 d.
Proof.
  unfold event_disp_api_init. crun. destruct (event_disp_init d0); [done|]. crun.
  destruct (es_mutex_init (system (reset_db d0))) as [b w] eqn:E. crun. destruct b; crun; [|done]. intros [= <-].
  split; [|by intros ? ? ?%elem_of_nil]. split; try done.
  - intros e row Hrow. change (replicate EVENT_DISP_MAX_EVENTS (replicate EVENT_DISP_MAX_CON (-1)) !! e = Some row) in Hrow.
    rewrite lookup_replicate in Hrow. destruct Hrow as [-> _]. split; [done|]. by rewrite live_replicate.
  - cbn. unfold EVENT_DISP_MAX_CON. lia.
  - split; try done; [apply NoDup_nil_2|]. by intros ? ?%elem_of_nil.
Qed.

(** ** A full dispatcher *)

Lemma close_socket_open fd d :
  exists st d', event_disp_close_socket fd d = Some (st, d') /\
    open_fds (system d') = (if decide (fd < 0) then open_fds (system d) else open_fds (system d) ∖ {[fd]}) /\
    event_disp_fds_db d' = (if decide (fd < 0) then event_disp_fds_db d else clear_first fd (event_disp_fds_db d)) /\
    event_disp_con d' = event_disp_con d.
Proof.
  unfold event_disp_close_socket. case_decide; [by exists EVENT_DISP_STATUS_PARAM_INVALID, d|].
  destruct (es_close fd (system d)) as [b w] eqn:E. crun. eexists _, _. split; [done|]. cbn. split; [|done].
  destruct (es_unlink_law (sun_path fd) w) as (-> & _ & _). by destruct (es_close_law _ _ _ _ E) as (-> & _).
Qed.

(** The descriptors in a list are closed, the others are not touched. *)
Lemma close_members_open l : forall d,
  exists d', for_each (fun fd => if decide (fd <> -1) then event_disp_close_socket fd;; mret tt else mret tt) l d = Some (tt, d') /\
    (forall fd, fd ∈ l -> 0 <= fd -> fd ∉ open_fds (system d')) /\
    (forall fd, fd ∉ l -> fd ∈ open_fds (system d') <-> fd ∈ open_fds (system d)) /\
    (open_fds (system d') ⊆ open_fds (system d)).
Proof.
  induction l as [|x l IH]; intros d.
  { exists d. split; [done|]. split; [by intros ? ?%elem_of_nil|]. split; done. }
  cbn [for_each].
  assert (Hx : exists d1, (if decide (x <> -1) then event_disp_close_socket x;; mret tt else mret tt) d = Some (tt, d1) /\
    (0 <= x -> x ∉ open_fds (system d1)) /\ (forall fd, fd <> x -> fd ∈ open_fds (system d1) <-> fd ∈ open_fds (system d)) /\
    open_fds (system d1) ⊆ open_fds (system d)).
  { case_decide as Hx; [|exists d; split; [done|]; split; [lia|done]]. destruct (close_socket_open x d) as (st & d1 & E & Ho & _).
    exists d1. split; [by rewrite (bind_eq _ _ _ _ _ E)|]. rewrite Ho. case_decide.
    - split; [lia|done].
    - split; [intros _; by rewrite elem_of_difference, elem_of_singleton; intros [_ ?]|].
      split; [intros fd Hne; rewrite elem_of_difference, elem_of_singleton; tauto|]. intros fd. rewrite elem_of_difference. tauto. }
  destruct Hx as (d1 & E1 & Hx & Ho & Hsub). rewrite (bind_eq _ _ _ _ _ E1). destruct (IH d1) as (d2 & E2 & Hc & Hk & Hs).
  exists d2. split; [done|]. split; [|split; [|by transitivity (open_fds (system d1))]].
  - intros fd [->|Hin]%elem_of_cons H0; [|auto]. intros Hop. apply Hs in Hop. by apply Hx.
  - intros fd [Hne Hn]%not_elem_of_cons. rewrite Hk by done. by apply Ho.
Qed.

Lemma open_full_spec d fds :
  event_disp_init d = true -> mutex_held d = false -> event_disp_con d = Z.of_nat EVENT_DISP_MAX_CON ->
  exists d', event_disp_api_open (Some fds) d = Some ((EVENT_DISP_STATUS_MAX_CONNETIONS, Some fds), d') /\
    (forall fd, fd ∈ fds_list fds -> 0 <= fd -> fd ∉ open_fds (system d')) /\
    (forall fd, fd ∉ fds_list fds -> fd ∈ open_fds (system d') <-> fd ∈ open_fds (system d)).
Proof.
  intros Hi Hf Hc. unfold event_disp_api_open. crun. rewrite Hi. cbv zeta. crun.
  destruct (lock_spec d Hf) as (w & Hlock & Ho & Hl & Hin). crun. set (d1 := set_held (set_system d w) true) in *.
  change (event_disp_con d1) with (event_disp_con d). rewrite Hc, decide_True by lia. rewrite decide_True by done.
  destruct (close_members_open (fds_list fds) d1) as (d2 & E2 & Hcl & Hk & _). unfold close_members. rewrite (bind_eq _ _ _ _ _ E2).
  destruct (unlock_spec d2) as (w2 & Hun & Ho2 & _). rewrite (unlock_after _ _ _ _ _ Hun). eexists. split; [done|].
  cbn [system set_held set_system]. rewrite Ho2. split; [done|]. intros fd Hfd. rewrite Hk by done. cbn. by rewrite Ho.
Qed.

(** ** The end of the dispatcher *)

Lemma clear_first_at fd i rest :
  fd <> -1 -> clear_first fd (replicate i (-1) ++ fd :: rest) = replicate (S i) (-1) ++ rest.
Proof.
  intros Hne. induction i as [|i IH]; cbn [replicate app clear_first]; [by rewrite decide_True|].
  rewrite decide_False by done. by rewrite IH.
Qed.

Lemma close_all_spec n : forall i rest D ib d,
  event_disp_fds_db d = replicate i (-1) ++ rest -> length rest = n -> socks D ib d ->
  exists d', close_all n i SUCCESS d = Some (SUCCESS, d') /\ only_sockets d d' /\
    open_fds (system d') = open_fds (system d) ∖ list_to_set D.
Proof.
  induction n as [|n IH]; intros i rest D ib d Hfds Hlen H.
  - destruct rest; [|done]. exists d. split; [done|]. split; [apply only_sockets_refl|].
    pose proof (sk_live _ _ _ H) as Hl. rewrite Hfds, app_nil_r, live_replicate in Hl. apply Permutation_nil_l in Hl as <-. set_solver.
  - destruct rest as [|fd rest]; [done|]. injection Hlen as Hlen. cbn [close_all]. crun.
    assert (Ha : access (event_disp_fds_db d !! i) d = Some (fd, d)).
    { unfold access. by rewrite Hfds, lookup_app_r, length_replicate, Nat.sub_diag by (rewrite length_replicate; lia). }
    rewrite (bind_eq _ _ _ _ _ Ha).
    assert (Hll : live (event_disp_fds_db d) = live (fd :: rest)).
    { rewrite Hfds. unfold live. rewrite filter_app. fold (live (replicate i (-1))). by rewrite live_replicate. }
    pose proof (sk_live _ _ _ H) as Hl. rewrite Hll, live_cons in Hl.
    destruct (decide (fd = -1)) as [->|Hne].
    + rewrite decide_False by lia. apply (IH (S i) rest D ib d); [|done|done]. rewrite Hfds, replicate_S_end, <- (assoc_L (++)). done.
    + assert (Hin : fd ∈ D) by (rewrite <- Hl; by left).
      assert (H0 : 0 <= fd) by (apply (proj1 (Forall_forall _ _) (sk_pos _ _ _ H) _ Hin)). rewrite decide_True by lia.
      apply (socks_perm _ (fd :: live rest)) in H; [|done].
      destruct (close_socket_spec _ _ _ _ H) as (d1 & E1 & Ho1 & H1).
      destruct (close_socket_open fd d) as (st & d1' & E1' & Hop & Hdb & _). rewrite E1 in E1'. injection E1' as <- <-.
      rewrite decide_False in Hop by lia. rewrite decide_False in Hdb by lia. rewrite (bind_eq _ _ _ _ _ E1). rewrite decide_True by done.
      rewrite Hfds, clear_first_at in Hdb by done. destruct (IH (S i) rest _ _ d1 Hdb Hlen H1) as (d2 & E2 & Ho2 & Hop2).
      exists d2. split; [done|]. split; [by eapply only_sockets_trans|]. rewrite Hop2, Hop.
      apply set_eq. intros x. rewrite !elem_of_difference, !elem_of_list_to_set, elem_of_singleton, <- Hl, elem_of_cons. naive_solver.
Qed.

Lemma dispatcher_deinit_spec s d :
  refines s d ->
  exists d', event_disp_api_deinit d = Some (SUCCESS, d') /\ event_disp_init d' = false /\
    open_fds (system d') = open_fds (system d) ∖ list_to_set (descs (clients s)).
Proof.
  intros [H _]. unfold event_disp_api_deinit. crun. rewrite (dr_init _ _ _ _ _ H). crun.
  pose proof (dr_socks _ _ _ _ _ H) as Hs.
  destruct (close_all_spec EVENT_DISP_MAX_SOCK 0 (event_disp_fds_db d) _ _ d eq_refl (sk_length _ _ _ Hs) Hs) as (d1 & E & _ & Ho).
  rewrite (bind_eq _ _ _ _ _ E). crun. destruct (es_mutex_law es_mutex_destroy (system (reset_db d1))) as (Hb & Hop & _); [rewrite !elem_of_cons; auto|].
  destruct (es_mutex_destroy (system (reset_db d1))) as [b w] eqn:Em. cbn in Hb, Hop. subst b. crun.
  eexists. split; [done|]. split; [done|]. cbn. by rewrite Hop, Ho.
Qed.

(** The number of clients opened so far is the number of calls that gave one. *)
Definition is_opened (a : answer) : bool := match a with Opened _ => true | _ => false end.

Lemma spec_run_opened full s ops ans s' :
  spec_run full s ops ans s' -> opened s' = (opened s + length (filterb is_opened ans))%nat.
Proof.
  induction 1 as [s|s o a s1 ops ans s2 Hs _ IH]; [unfold filterb; cbn; lia|]. rewrite IH, filterb_cons.
  inversion Hs; subst; cbn [is_opened opened length]; lia.
Qed.

Lemma spec_run_length full s ops ans s' : spec_run full s ops ans s' -> length ans = length ops.
Proof. induction 1; [done|]. cbn [length]. by f_equal. Qed.

(** ** Claims *)



(** C17. Connections run out: the dispatcher counts the clients that were opened and
    not those that are open.  After ten successful openings, however many clients
    were closed since, every opening fails, and it closes the descriptors its
    caller's structure holds, although nothing was written there; other
    descriptors stay as they were. *)
Theorem event_disp_connections_exhausted ops d0 d ans cl d1 fds :
  event_disp_api_init d0 = Some (SUCCESS, d) -> Forall client_op_ok ops ->
  client_run ops [] d = Some ((ans, cl), d1) ->
  length (filterb is_opened ans) = EVENT_DISP_MAX_CON ->
  exists d2, event_disp_api_open (Some fds) d1 = Some ((EVENT_DISP_STATUS_MAX_CONNETIONS, Some fds), d2) /\
    (forall fd, fd ∈ fds_list fds -> 0 <= fd -> fd ∉ open_fds (system d2)) /\
    (forall fd, fd ∉ fds_list fds -> fd ∈ open_fds (system d2) <-> fd ∈ open_fds (system d1)).
Proof.
  intros Hi Hops Hrun Hten. destruct (run_simulates ops _ d (dispatcher_init_spec _ _ Hi) Hops) as (ans' & s & d1' & E & Hs & [H _]).
  cbn [clients dispatcher0] in E. rewrite Hrun in E. injection E as -> -> ->.
  apply open_full_spec; [apply H|apply H|]. rewrite (dr_con _ _ _ _ _ H), (spec_run_opened _ _ _ _ _ Hs), Hten. done.
Qed.

(** C18. Ending the dispatcher closes every socket of its clients and no other: after
    any such sequence the call ends with success, the library is no longer
    initialised, and the descriptors left open are those that belong to no open
    client. *)
Theorem event_disp_deinit_closes ops d0 d ans cl d1 :
  event_disp_api_init d0 = Some (SUCCESS, d) -> Forall client_op_ok ops ->
  client_run ops [] d = Some ((ans, cl), d1) ->
  exists d2, event_disp_api_deinit d1 = Some (SUCCESS, d2) /\ event_disp_init d2 = false /\
    open_fds (system d2) = open_fds (system d1) ∖ list_to_set (descs cl).
Proof.
  intros Hi Hops Hrun. destruct (run_simulates ops _ d (dispatcher_init_spec _ _ Hi) Hops) as (ans' & s & d1' & E & _ & H).
  cbn [clients dispatcher0] in E. rewrite Hrun in E. injection E as -> -> ->. by apply dispatcher_deinit_spec.
Qed.
End Clients.

(** ** A network in memory *)

(** Sockets are numbers; each holds at most ten datagrams. *)
Record net := Net { n_open : gset N; n_paths : gmap string Z; n_inbox : gmap Z (list bytes) }.

Definition net_inbox (w : net) (fd : Z) : list bytes := default [] (n_inbox w !! fd).
Definition net_has_room (w : net) (fd : Z) : bool := bool_decide (length (net_inbox w fd) < 10)%nat.

Definition net_socket (w : net) : Z * net :=
  let n := fresh (n_open w) in
  (Z.of_N n, Net ({[n]} ∪ n_open w) (n_paths w) (<[Z.of_N n := []]> (n_inbox w))).
Definition net_close (fd : Z) (w : net) : bool * net :=
  (bool_decide (Z.to_N fd ∈ n_open w), Net (if decide (0 <= fd) then n_open w ∖ {[Z.to_N fd]} else n_open w) (n_paths w) (n_inbox w)).
Definition net_sendto (fd : Z) (data : bytes) (p : string) (w : net) : send_result * net :=
  match n_paths w !! p with
  | None => (SendFailed, w)
  | Some x =>
      if net_has_room w x
      then (Sent, Net (n_open w) (n_paths w) (<[x := net_inbox w x ++ [data]]> (n_inbox w)))
      else (WouldBlock, w)
  end.
Definition net_recv (fd n : Z) (w : net) : option bytes * net :=
  match net_inbox w fd with
  | [] => (None, w)
  | m :: rest => (Some (take (Z.to_nat n) m), Net (n_open w) (n_paths w) (<[fd := rest]> (n_inbox w)))
  end.

#[export] Instance net_sockets : EventSockets net := {
  es_socket := net_socket;
  es_bind fd p w := (true, Net (n_open w) (<[p := fd]> (n_paths w)) (n_inbox w));
  es_unlink p w := Net (n_open w) (delete p (n_paths w)) (n_inbox w);
  es_close := net_close;
  es_nonblock _ w := (true, w);
  es_sendto := net_sendto;
  es_recv := net_recv;
  es_getpid := 42;
  es_mutex_init w := (true, w);
  es_mutex_destroy w := (true, w);
  es_mutex_lock w := (true, w);
  es_mutex_unlock w := (true, w) }.

Definition net_open_fds (w : net) : gset Z := set_map Z.of_N (n_open w).

Lemma elem_of_net_open fd w : fd ∈ net_open_fds w <-> exists n, fd = Z.of_N n /\ n ∈ n_open w.
Proof. unfold net_open_fds. by rewrite elem_of_map. Qed.

Lemma net_inbox_insert w o p x y l :
  net_inbox (Net o p (<[x := l]> (n_inbox w))) y = if decide (y = x) then l else net_inbox w y.
Proof. unfold net_inbox. cbn [n_inbox]. case_decide; [by subst; rewrite lookup_insert_eq|by rewrite lookup_insert_ne by done]. Qed.

#[export] Program Instance net_laws : EventSocketsLaws net := {
  open_fds := net_open_fds;
  listens w p := n_paths w !! p;
  inbox := net_inbox;
  es_full l := (10 <= length l)%nat }.
Next Obligation.
  intros w fd w' [= <- <-]. right. split; [lia|]. set (n := fresh (n_open w)).
  assert (Hn : n ∉ n_open w) by apply is_fresh. split.
  { rewrite elem_of_net_open. intros (m & Heq & Hm). by apply N2Z.inj in Heq as ->. }
  split; [unfold net_open_fds; cbn; by rewrite set_map_union_L, set_map_singleton_L|]. split; [done|].
  split; [rewrite net_inbox_insert; by rewrite decide_True|]. intros x Hx. rewrite net_inbox_insert. by rewrite decide_False.
Qed.
Next Obligation.
  intros fd p w ok w' [= <- <-]. split; [done|]. split; [done|]. cbn [n_paths].
  split; [|by rewrite lookup_insert_eq]. intros q Hq. by rewrite lookup_insert_ne.
Qed.
Next Obligation. intros p w. split; [done|]. split; [done|]. intros q Hq. cbn. by rewrite lookup_delete_ne. Qed.
Next Obligation.
  intros fd w ok w' [= <- <-]. split; [|split; [|done]].
  - apply set_eq. intros x. rewrite elem_of_difference, elem_of_singleton, !elem_of_net_open. cbn. case_decide.
    + setoid_rewrite elem_of_difference. setoid_rewrite elem_of_singleton. split.
      * intros (n & -> & Hn & Hne). split; [eauto|]. intros Heq. apply Hne. lia.
      * intros [(n & -> & Hn) Hne]. exists n. split_and!; [done|done|]. intros ->. apply Hne. lia.
    + split; [intros (n & -> & Hn); split; [eauto|lia]|by intros [? _]].
  - rewrite elem_of_net_open. intros (n & -> & Hn). rewrite bool_decide_true; [done|]. by rewrite N2Z.id.
Qed.
Next Obligation. by intros fd w ok w' [= <- <-]. Qed.
Next Obligation.
  intros fd data p w r w'. cbn. unfold net_sendto. destruct (n_paths w !! p) as [x|] eqn:Hp; [|by intros [= <- <-]].
  unfold net_has_room. case_bool_decide as Hroom; intros [= <- <-]; (split; [done|]); (split; [done|]).
  - exists x. split; [done|]. split; [rewrite net_inbox_insert; by rewrite decide_True|].
    intros y Hy. rewrite net_inbox_insert. by rewrite decide_False.
  - split; [done|]. intros y [= <-]. lia.
Qed.
Next Obligation.
  intros fd n w r w'. cbn. unfold net_recv. destruct (net_inbox w fd) as [|m rest] eqn:Hm; intros [= <- <-].
  - done.
  - split; [done|]. split; [done|]. split; [intros y Hy; rewrite net_inbox_insert; by rewrite decide_False|].
    exists m. rewrite net_inbox_insert. by rewrite decide_True.
Qed.
Next Obligation.
  intros f w Hf. cbn in Hf. rewrite !elem_of_cons, elem_of_nil in Hf. destruct Hf as [->|[->|[->|[->|[]]]]]; done.
Qed.

(** ** Witnesses *)

(** The static variables before the first call, and after initialisation. *)
Definition static0 : disp net :=
  Disp (replicate EVENT_DISP_MAX_EVENTS (replicate EVENT_DISP_MAX_CON 0)) (replicate EVENT_DISP_MAX_SOCK 0) 0
    (replicate EVENT_DISP_MAX_EVENTS 0) (replicate EVENT_DISP_MAX_EVENTS 0) 0 0 false false (Net ∅ ∅ ∅).
Definition after {A} (c : comp (disp net) A) (d : disp net) : disp net :=
  match c d with Some (_, d) => d | None => d end.
Definition started : disp net := after event_disp_api_init static0.

Definition two_clients : list client_op :=
  [OpenClient; OpenClient; Register 0 HIGH_PRIO [3; 5]; Register 1 LOW_PRIO [5]; Register 0 MED_PRIO [5];
   Generate false 5 [7; 8]; Receive 0 MED_PRIO; Receive 1 LOW_PRIO; Receive 0 HIGH_PRIO; CloseClient 0].
Definition ten_clients : list client_op := replicate 10 OpenClient.

Ltac ops_ok :=
  repeat match goal with
  | |- Forall _ (_ :: _) => constructor
  | |- Forall _ [] => constructor
  | |- client_op_ok _ => cbn [client_op_ok]
  | |- events_ok _ => split; [vm_decide|split; [|vm_compute; intuition discriminate]]
  | |- _ /\ _ => split
  | |- event_ok _ => vm_compute; intuition discriminate
  | |- data_ok _ => vm_compute; discriminate
  | |- True => exact I
  | |- _ ∈ _ => vm_decide
  end.

Example two_clients_answers :
  (match client_run two_clients [] started with Some ((ans, _), _) => ans | None => [] end)
  = [Opened (Fds 0 1 2); Opened (Fds 3 4 5); Status SUCCESS; Status SUCCESS; Status SUCCESS; Status SUCCESS;
     Message (msg_buffer (5, [7; 8])); Message (msg_buffer (5, [7; 8])); Status EVENT_DISP_STATUS_SOCKET_ERROR; Status SUCCESS].
Proof. vm_compute. reflexivity. Qed.


Definition one_state : disp net := after (client_run [OpenClient] []) started.
Definition ten_state : disp net := after (client_run ten_clients []) started.
Definition ten_answers : list answer :=
  match client_run ten_clients [] started with Some ((ans, _), _) => ans | None => [] end.
Definition ten_open : list event_disp_fds :=
  match client_run ten_clients [] started with Some ((_, cl), _) => cl | None => [] end.

Lemma net_serves : sockets_serve (W := net).
Proof.
  split; [intros w; cbn; lia|]. split; [done|]. intros fd data p x w _ Hp. cbn in *. unfold net_sendto. rewrite Hp.
  by destruct (net_has_room w x).
Qed.


Lemma ten_clients_ok : Forall client_op_ok ten_clients.
Proof. unfold ten_clients. cbn [replicate]. ops_ok. Qed.

Lemma event_disp_connections_exhausted_witness :
  exists d2, event_disp_api_open (Some (Fds 0 1 2)) ten_state = Some ((EVENT_DISP_STATUS_MAX_CONNETIONS, Some (Fds 0 1 2)), d2) /\
    (forall fd, fd ∈ fds_list (Fds 0 1 2) -> 0 <= fd -> fd ∉ open_fds (system d2)) /\
    (forall fd, fd ∉ fds_list (Fds 0 1 2) -> fd ∈ open_fds (system d2) <-> fd ∈ open_fds (system ten_state)).
Proof.
  apply (event_disp_connections_exhausted ten_clients static0 started ten_answers ten_open ten_state (Fds 0 1 2)).
  - vm_compute. reflexivity.
  - exact ten_clients_ok.
  - vm_compute. reflexivity.
  - vm_compute. reflexivity.
Defined.

Lemma event_disp_deinit_closes_witness :
  exists d2, event_disp_api_deinit ten_state = Some (SUCCESS, d2) /\ event_disp_init d2 = false /\
    open_fds (system d2) = open_fds (system ten_state) ∖ list_to_set (descs ten_open).
Proof.
  apply (event_disp_deinit_closes ten_clients static0 started ten_answers ten_open ten_state).
  - vm_compute. reflexivity.
  - exact ten_clients_ok.
  - vm_compute. reflexivity.
Defined.
