(* ===== verification/EventDispSafe.v ===== *)
(** * The event dispatcher against any caller

    Whatever descriptors, priorities, events and structures its callers give it,
    in any order and whatever the system answers, every call returns, with the
    mutex free and the tables in shape: no row, table or buffer is left and no
    thread waits for itself. *)

From S2P Require Import Prelude Bytes Comp EventDisp EventDispSpec EventDispOps EventDispProps.

Local Open Scope Z_scope.
Local Open Scope list_scope.

(** A call with the memory behind its pointers. *)
Inductive api_call :=
| CallInit
| CallDeinit
| CallOpen (fds : option event_disp_fds)
| CallClose (fds : option event_disp_fds)
| CallRegister (fds : option event_disp_fds) (prio : Z) (events : option (list Z)) (num : Z)
| CallUnregister (fds : option event_disp_fds) (events : option (list Z)) (num : Z)
| CallGenerate (ev : Z) (data : option bytes) (size mode no_copy : Z)
| CallGetEvent (fd : Z) (buf : option bytes)
| CallGetUserBuf (fd : Z) (buf : option bytes) (size : Z)
| CallConnections (con : bool)
| CallGenerations (ev : Z) (gen_num : bool)
| CallIsInit.

(** The buffers are as large as the caller says, and those without copy or for a
    message are large enough for what the dispatcher writes and reads in them. *)
Definition call_ok (c : api_call) : Prop :=
  match c with
  | CallRegister _ _ (Some evs) num | CallUnregister _ (Some evs) num => num <= Z.of_nat (length evs)
  | CallGenerate _ data size _ no_copy =>
      0 <= size /\ match data with
                   | Some b => size <= Z.of_nat (length b) /\ (no_copy = EVENT_SEND_NO_COPY -> size <> 0 -> 2 <= Z.of_nat (length b))
                   | None => True
                   end
  | CallGetEvent _ (Some b) => sizeof_event_disp_msg <= Z.of_nat (length b)
  | CallGetUserBuf _ (Some b) size => 0 <= size <= Z.of_nat (length b) /\ size < 2 ^ 31 /\ sizeof_event <= Z.of_nat (length b)
  | _ => True
  end.

Section Safe.
Context {W : Type} {OS : EventSockets W}.

Definition call (c : api_call) : comp (disp W) unit :=
  match c with
  | CallInit => event_disp_api_init;; mret tt
  | CallDeinit => event_disp_api_deinit;; mret tt
  | CallOpen fds => event_disp_api_open fds;; mret tt
  | CallClose fds => event_disp_api_close fds;; mret tt
  | CallRegister fds prio evs num => event_disp_api_register_events fds prio evs num;; mret tt
  | CallUnregister fds evs num => event_disp_api_unregister_events fds evs num;; mret tt
  | CallGenerate ev data size mode nc => event_disp_api_generate_event_mode ev data size mode nc;; mret tt
  | CallGetEvent fd buf => event_disp_api_get_event fd buf;; mret tt
  | CallGetUserBuf fd buf size => event_disp_api_get_event_to_user_buf fd buf size;; mret tt
  | CallConnections con => event_disp_api_get_connections_number con;; mret tt
  | CallGenerations ev g => event_disp_api_get_event_generation_number ev g;; mret tt
  | CallIsInit => event_disp_api_is_init;; mret tt
  end.

(** The tables have the sizes they are declared with; the count is in range. *)
Record tables_ok (d : disp W) : Prop := {
  tb_db : length (event_disp_db d) = EVENT_DISP_MAX_EVENTS;
  tb_rows : Forall (fun row => length row = EVENT_DISP_MAX_CON) (event_disp_db d);
  tb_fds : length (event_disp_fds_db d) = EVENT_DISP_MAX_SOCK;
  tb_gen : length (event_disp_gen_counter d) = EVENT_DISP_MAX_EVENTS;
  tb_rcv : length (event_disp_rcv_counter d) = EVENT_DISP_MAX_EVENTS;
  tb_con : 0 <= event_disp_con d <= Z.of_nat EVENT_DISP_MAX_CON }.

(** Tables in shape and the mutex held or not. *)
Definition inv (held : bool) (d : disp W) : Prop := tables_ok d /\ mutex_held d = held.

Context {LAWS : EventSocketsLaws W}.
Abbreviation keeps h c := (triple (inv h) c (fun _ => inv h)).

Lemma keeps_os {A} h (f : W -> A * W) : keeps h (os f).
Proof. intros d [[] H]. unfold os. destruct (f (system d)) as [a w]. eexists _, _. split; [done|]. by split. Qed.
Lemma keeps_os_ h (f : W -> W) : keeps h (os_ f).
Proof. intros d [[] H]. eexists _, _. split; [done|]. by split. Qed.
Lemma access_bind {A B} (o : option A) a (k : A -> comp (disp W) B) P Q :
  o = Some a -> triple P (k a) Q -> triple P (access o ≫= k) Q.
Proof. intros -> H d Hd. by apply H. Qed.
(** A read of the state followed by an access that the invariant allows. *)
Lemma lookup_bind {A B X} h (f : disp W -> X) (g : X -> option A) (k : X -> A -> comp (disp W) B) Q :
  (forall d, inv h d -> is_Some (g (f d))) -> (forall x a, triple (inv h) (k x a) Q) ->
  triple (inv h) (gets f ≫= fun x => access (g x) ≫= k x) Q.
Proof.
  intros Hg Hk d H. change ((gets f ≫= ?k) d) with (k (f d) d). cbv beta. destruct (Hg d H) as [a Ha].
  by apply (access_bind _ a _ _ _ Ha (Hk (f d) a)).
Qed.

Lemma lock_triple : triple (inv false) mutex_lock (fun ok => inv ok).
Proof.
  intros d [[] H]. destruct (lock_spec d H) as (w & E & _). eexists _, _. split; [exact E|]. by split.
Qed.
Lemma unlock_triple : triple (inv true) mutex_unlock (fun _ => inv false).
Proof. intros d [[] H]. destruct (unlock_spec d) as (w & E & _). eexists _, _. split; [exact E|]. by split. Qed.

(** A call that fails to lock ends; one that locks goes on with the mutex held. *)
Lemma locked_triple {A} (bad good : comp (disp W) A) :
  keeps false bad -> triple (inv true) good (fun _ => inv false) ->
  keeps false (ok ← mutex_lock; if negb ok then bad else good).
Proof.
  intros H1 H2. eapply triple_bind; [apply lock_triple|]. intros []; cbn [negb]; done.
Qed.

#[local] Hint Resolve preserves_ret preserves_gets keeps_os keeps_os_ : triples.

Ltac kstep :=
  first
    [ solve [eauto with triples] | apply preserves_ret | apply preserves_gets | apply keeps_os | apply keeps_os_
    | eapply preserves_bind; [|intros ?]
    | match goal with
      | |- triple _ (if ?b then _ else _) _ => destruct b
      | |- triple _ (match ?x with _ => _ end) _ => destruct x
      end
    ].
Ltac keep := repeat kstep.

Lemma keeps_close_socket h fd : keeps h (event_disp_close_socket fd).
Proof.
  unfold event_disp_close_socket. keep. apply preserves_modify. intros d [[] H]. split; [|done].
  split; try done. cbn. by rewrite clear_first_length.
Qed.
Lemma keeps_open_socket h : keeps h event_disp_open_socket.
Proof.
  unfold event_disp_open_socket. keep. apply preserves_modify. intros d [[] H]. split; [|done].
  split; try done. cbn. by rewrite put_first_length.
Qed.
#[local] Hint Resolve keeps_close_socket keeps_open_socket : triples.

Lemma keeps_close_members h fds : keeps h (close_members fds).
Proof. unfold close_members. apply triple_for_each. intros fd _. keep. Qed.
#[local] Hint Resolve keeps_close_members : triples.

Lemma keeps_reset h : keeps h (modify reset_db).
Proof.
  apply preserves_modify. intros d [_ H]. split; [|done]. split; cbn [reset_db event_disp_db event_disp_fds_db event_disp_gen_counter event_disp_rcv_counter event_disp_con];
    rewrite ?length_replicate; try done. by apply Forall_replicate.
Qed.
#[local] Hint Resolve keeps_reset : triples.

(** The loop of the deinitialisation stays inside the table. *)
Lemma keeps_close_all n : forall i err, (i + n <= EVENT_DISP_MAX_SOCK)%nat -> keeps false (close_all n i err).
Proof.
  induction n as [|n IH]; intros i err Hi; cbn [close_all]; [apply preserves_ret|].
  apply lookup_bind; [intros d H; apply lookup_lt_is_Some; rewrite (tb_fds _ (proj1 H)); lia|]. intros _ fd.
  case_decide; [|apply IH; lia]. eapply preserves_bind; [apply keeps_close_socket|]. intros st. apply IH. lia.
Qed.

Lemma keeps_set_init h v : keeps h (modify (fun d => set_init d v)).
Proof. apply preserves_modify. intros d [[] H]. by split. Qed.
#[local] Hint Resolve keeps_set_init : triples.

Lemma keeps_init : keeps false event_disp_api_init.
Proof. unfold event_disp_api_init. keep. apply preserves_modify. intros d [[] H]. by split. Qed.

Lemma keeps_deinit : keeps false event_disp_api_deinit.
Proof.
  unfold event_disp_api_deinit. eapply preserves_bind; [apply preserves_gets|]. intros []; cbn [negb]; [|apply preserves_ret].
  eapply preserves_bind; [apply keeps_close_all; unfold EVENT_DISP_MAX_SOCK; lia|]. intros err. keep.
Qed.

(** The bail path of the opening, with and without the mutex. *)
Lemma bail_triple (err : event_disp_status) fds (locked : bool) :
  triple (inv locked) ((if decide (err <> EVENT_DISP_STATUS_SUCCESS) then close_members fds else mret tt);;
    (if locked then mutex_unlock;; mret tt else mret tt);; mret (err, Some fds)) (fun _ => inv false).
Proof.
  eapply preserves_bind; [case_decide; [apply keeps_close_members|apply preserves_ret]|]. intros _. destruct locked.
  - apply (triple_bind _ _ _ (fun _ => inv false)); [|intros; apply preserves_ret].
    apply (triple_bind _ _ _ (fun _ => inv false)); [apply unlock_triple|intros; apply preserves_ret].
  - keep.
Qed.

Lemma open_sockets_triple :
  triple (fun d => inv true d /\ event_disp_con d < Z.of_nat EVENT_DISP_MAX_CON) open_sockets (fun _ => inv true).
Proof.
  assert (Hs : triple (fun d => inv true d /\ event_disp_con d < Z.of_nat EVENT_DISP_MAX_CON) event_disp_open_socket
    (fun _ d => inv true d /\ event_disp_con d < Z.of_nat EVENT_DISP_MAX_CON)).
  { intros d [H Hc]. destruct (keeps_open_socket true d H) as (a & d' & E & H'). exists a, d'. split; [done|]. split; [done|].
    revert E. unfold event_disp_open_socket. destruct (es_socket (system d)) as [fd w] eqn:E1. crun.
    case_decide; [intros [= <- <-]; done|]. crun.
    destruct (es_bind fd (sun_path fd) (system (set_system (set_system d w) (es_unlink (sun_path fd) (system (set_system d w)))))) as [b w2] eqn:E2.
    crun. destruct b; crun; [by intros [= <- <-]|].
    destruct (es_close fd (system (set_system (set_system (set_system d w) (es_unlink (sun_path fd) (system (set_system d w)))) w2))) as [b w3] eqn:E3.
    crun. by intros [= <- <-]. }
  unfold open_sockets. eapply triple_bind; [exact Hs|]. intros [st h]. case_decide; [intros d [H' _]; by apply preserves_ret|].
  eapply triple_bind; [exact Hs|]. intros [st2 m]. case_decide; [intros d [H' _]; by apply preserves_ret|].
  eapply triple_bind; [exact Hs|]. intros [st3 l]. case_decide; [intros d [H' _]; by apply preserves_ret|].
  intros d [[[] Hh] Hc]. eexists _, _. split; [reflexivity|]. split; [|done]. split; try done. cbn.
  unfold EVENT_DISP_MAX_CON in *. rewrite wrap_small by lia. lia.
Qed.

Lemma keeps_open fds : keeps false (event_disp_api_open fds).
Proof.
  unfold event_disp_api_open. eapply preserves_bind; [apply preserves_gets|]. intros inited. cbv zeta.
  destruct fds as [fds|]; [|apply preserves_ret]. destruct inited; cbn [negb]; [|apply (bail_triple _ _ false)].
  apply locked_triple; [apply (bail_triple _ _ false)|].
  intros d H. change ((gets event_disp_con ≫= ?k) d) with (k (event_disp_con d) d). cbv beta.
  case_decide as Hc; [by apply (bail_triple _ _ true)|].
  eapply (triple_bind _ _ _ (fun _ => inv true)); [apply open_sockets_triple| |split; [exact H|lia]].
  intros [st f]. apply (bail_triple _ _ true).
Qed.

Lemma inv_set_db h d db :
  inv h d -> length db = length (event_disp_db d) -> Forall (fun row => length row = EVENT_DISP_MAX_CON) db -> inv h (set_db d db).
Proof. intros [[] H] Hl Hr. split; [|done]. split; try done. cbn. by rewrite Hl. Qed.

Lemma keeps_alter_event h f ev : (forall row, length (f row) = length row) -> keeps h (alter_event f ev).
Proof.
  intros Hf. unfold alter_event. case_decide; [|apply preserves_ret]. apply preserves_modify. intros d H'. apply inv_set_db; [done| |].
  - apply length_alter.
  - pose proof (tb_rows _ (proj1 H')) as Hr. rewrite Forall_lookup in *. intros i row. intros Hi.
    destruct (decide (i = Z.to_nat ev)) as [->|Hne].
    + rewrite list_lookup_alter_eq in Hi. apply fmap_Some in Hi as (row0 & H0 & ->). rewrite Hf. by eapply Hr.
    + rewrite list_lookup_alter_ne in Hi by done. by eapply Hr.
Qed.

Lemma keeps_alter_events h f evs : (forall row, length (f row) = length row) -> keeps h (for_each (alter_event f) evs).
Proof. intros Hf. apply triple_for_each. intros ev _. by apply keeps_alter_event. Qed.

Lemma keeps_close fds : keeps false (event_disp_api_close fds).
Proof.
  unfold event_disp_api_close. eapply preserves_bind; [apply preserves_gets|]. intros []; cbn [negb]; [|apply preserves_ret].
  destruct fds as [fds|]; [|apply preserves_ret]. apply locked_triple; [apply preserves_ret|].
  eapply preserves_bind.
  { apply preserves_modify. intros d H. apply inv_set_db; [done|apply length_fmap|]. apply Forall_fmap.
    eapply Forall_impl; [apply (tb_rows _ (proj1 H))|]. intros row Hrow. unfold compose. by rewrite remove_fds_length. }
  intros _. do 3 (eapply preserves_bind; [apply keeps_close_socket|intros ?]).
  apply (triple_bind _ _ _ (fun _ => inv false)); [apply unlock_triple|intros; apply preserves_ret].
Qed.

(** The loop over the events given, under the mutex. *)
Lemma events_triple f evs num :
  (forall row, length (f row) = length row) -> num <= Z.of_nat (length evs) ->
  triple (inv true) (es ← read_events evs num; for_each (alter_event f) es;; ok ← mutex_unlock;
    mret (if (ok : bool) then EVENT_DISP_STATUS_SUCCESS else EVENT_DISP_STATUS_MUTEX_ERROR)) (fun _ => inv false).
Proof.
  intros Hf Hn. eapply preserves_bind; [unfold read_events; apply preserves_access; rewrite decide_True by done; eauto|].
  intros es. eapply preserves_bind; [by apply keeps_alter_events|]. intros _.
  apply (triple_bind _ _ _ (fun _ => inv false)); [apply unlock_triple|intros; apply preserves_ret].
Qed.

Lemma check_registration_inv inited fds evs num f l :
  check_registration inited fds evs num = inr (f, l) -> fds = Some f /\ evs = Some l.
Proof. unfold check_registration. destruct inited, fds, evs; cbn; try done. case_decide; [done|]. by intros [= <- <-]. Qed.

Lemma keeps_unregister fds evs num : call_ok (CallUnregister fds evs num) -> keeps false (event_disp_api_unregister_events fds evs num).
Proof.
  intros Hok. unfold event_disp_api_unregister_events. eapply preserves_bind; [apply preserves_gets|]. intros inited.
  destruct (check_registration inited fds evs num) as [err|[f l]] eqn:Hc; [apply preserves_ret|].
  apply check_registration_inv in Hc as [-> ->]. apply locked_triple; [apply preserves_ret|].
  apply events_triple; [apply remove_fds_length|exact Hok].
Qed.

Lemma keeps_register fds prio evs num : call_ok (CallRegister fds prio evs num) -> keeps false (event_disp_api_register_events fds prio evs num).
Proof.
  intros Hok. unfold event_disp_api_register_events. eapply preserves_bind; [apply preserves_gets|]. intros inited.
  destruct (check_registration inited fds evs num) as [err|[f l]] eqn:Hc; [apply preserves_ret|].
  apply check_registration_inv in Hc as [-> ->]. eapply preserves_bind; [by apply keeps_unregister|]. intros st.
  case_decide; [apply preserves_ret|]. destruct (fd_of_prio f prio) as [fd|]; [|apply preserves_ret]. case_decide; [apply preserves_ret|].
  apply locked_triple; [apply preserves_ret|]. apply events_triple; [apply put_first_length|exact Hok].
Qed.

Lemma keeps_send_loop row data mode : forall send_err fd0, keeps true (send_loop row data mode send_err fd0).
Proof. induction row as [|reg row IH]; intros send_err fd0; cbn [send_loop]; keep; apply IH. Qed.

Lemma prepare_message_ok ev data size no_copy :
  0 <= size -> (no_copy = EVENT_SEND_WITH_COPY -> size <= EVENT_DISP_MAX_BUFF_LEN) ->
  match data with
  | Some b => size <= Z.of_nat (length b) /\ (no_copy = EVENT_SEND_NO_COPY -> size <> 0 -> 2 <= Z.of_nat (length b))
  | None => True
  end -> is_Some (prepare_message ev data size no_copy).
Proof.
  intros H0 Hmax Hb. unfold prepare_message, EVENT_DISP_MAX_BUFF_LEN in *.
  assert (Hl : length (le32 ev ++ replicate (Z.to_nat 1500) 0) = 1504%nat) by (rewrite length_app, length_replicate; done).
  destruct (decide (no_copy = EVENT_SEND_NO_COPY)) as [Hn|Hn].
  - destruct data as [b|]; [|eauto]. destruct Hb as [Hsz Hb]. case_decide; [|eauto].
    rewrite write_bytes_eq by (cbn [length le16]; auto with lia). cbn [mbind option_bind].
    rewrite read_bytes_eq; [eauto|lia|lia|]. rewrite !length_app, length_take, length_drop. cbn [length le16]. lia.
  - destruct (decide (no_copy = EVENT_SEND_WITH_COPY)) as [Hc|Hc]; [|eauto]. specialize (Hmax Hc).
    destruct data as [b|]; [destruct Hb as [Hsz _]; case_decide|].
    + rewrite read_bytes_eq by lia. cbn [mbind option_bind]. set (data := take _ _).
      assert (Hd : length data = Z.to_nat size) by (unfold data; rewrite length_take, length_drop; lia).
      rewrite write_bytes_eq by (unfold sizeof_event; lia). cbn [mbind option_bind].
      rewrite read_bytes_eq; [eauto|lia|unfold sizeof_event; lia|].
      rewrite !length_app, length_take, length_drop, Hl, Hd. unfold sizeof_event. lia.
    + cbn [mbind option_bind]. rewrite read_bytes_eq; [eauto|lia|unfold sizeof_event; lia|rewrite Hl; unfold sizeof_event; lia].
    + cbn [mbind option_bind]. rewrite read_bytes_eq; [eauto|lia|unfold sizeof_event; lia|rewrite Hl; unfold sizeof_event; lia].
Qed.

Lemma keeps_counters h d v1 t1 v2 t2 :
  inv h d -> length v1 = length (event_disp_gen_counter d) -> length v2 = length (event_disp_rcv_counter d) ->
  inv h (set_gen d v1 t1) /\ inv h (set_rcv d v2 t2).
Proof. intros [[] H] H1 H2. repeat split; try done; cbn; by rewrite ?H1, ?H2 || apply tb_con0. Qed.

Lemma keeps_generate ev data size mode nc :
  call_ok (CallGenerate ev data size mode nc) -> keeps false (event_disp_api_generate_event_mode ev data size mode nc).
Proof.
  intros [H0 Hb]. unfold event_disp_api_generate_event_mode. eapply preserves_bind; [apply preserves_gets|]. intros []; cbn [negb]; [|apply preserves_ret].
  case_decide as Hsz; [apply preserves_ret|]. case_decide as Hev; [apply preserves_ret|]. apply locked_triple; [apply preserves_ret|].
  eapply preserves_bind.
  { apply preserves_access, prepare_message_ok; [done| |done]. intros ->. destruct (decide (size <= EVENT_DISP_MAX_BUFF_LEN)); [done|].
    exfalso. apply Hsz. split; [done|lia]. }
  intros [b msg]. apply lookup_bind; [intros d H; apply lookup_lt_is_Some; rewrite (tb_db _ (proj1 H)); lia|]. intros _ row.
  eapply preserves_bind; [apply keeps_send_loop|]. intros [[err se] sock].
  eapply preserves_bind.
  { destruct (decide (err = EVENT_DISP_STATUS_SUCCESS)); [|apply preserves_ret]. apply preserves_modify. intros d Hd. by apply (keeps_counters _ _ _ _ (event_disp_rcv_counter d) 0); rewrite ?length_alter. }
  intros _. eapply preserves_bind; [keep|]. intros _.
  apply (triple_bind _ _ _ (fun _ => inv false)); [apply unlock_triple|intros; apply preserves_ret].
Qed.

Lemma keeps_count_received h ev : keeps h (count_received ev).
Proof.
  apply preserves_modify. intros d Hd. case_decide; by apply (keeps_counters _ _ (event_disp_gen_counter d) 0); rewrite ?length_alter.
Qed.
#[local] Hint Resolve keeps_count_received : triples.

(** A receipt into a buffer that is large enough stays inside it. *)
Lemma recv_keeps {A} fd n (k : option bytes -> comp (disp W) A) :
  0 <= n -> (forall r, (forall data, r = Some data -> Z.of_nat (length data) <= n) -> keeps false (k r)) ->
  keeps false (os (es_recv fd n) ≫= k).
Proof.
  intros Hn Hk d H. destruct (es_recv fd n (system d)) as [r w] eqn:E. rewrite (bind_eq _ _ _ _ _ (os_eq _ _ _ _ E)).
  apply Hk; [|destruct H as [[] ?]; by split]. intros data ->. destruct (es_recv_law _ _ _ _ _ E) as (_ & _ & _ & m & _ & ->).
  rewrite length_take. lia.
Qed.

Lemma written_event b data :
  sizeof_event <= Z.of_nat (length b) -> Z.of_nat (length data) <= Z.of_nat (length b) ->
  exists b', write_bytes b 0 data = Some b' /\ is_Some (msg_event b').
Proof.
  unfold sizeof_event. intros Hb Hd. rewrite write_bytes_eq by lia. eexists. split; [done|]. unfold msg_event. rewrite read_bytes_eq; [cbn; eauto|lia|done|].
  unfold sizeof_event. rewrite !length_app, length_take, length_drop. lia.
Qed.

Lemma keeps_get_event fd buf : call_ok (CallGetEvent fd buf) -> keeps false (event_disp_api_get_event fd buf).
Proof.
  intros Hok. unfold event_disp_api_get_event. destruct buf as [b|]; [|apply preserves_ret]. case_decide; [apply preserves_ret|].
  cbn [call_ok] in Hok. unfold sizeof_event_disp_msg, sizeof_event, EVENT_DISP_MAX_BUFF_LEN in *.
  apply recv_keeps; [lia|]. intros [data|] Hd; [|apply preserves_ret]. specialize (Hd data eq_refl).
  destruct (written_event b data) as (b' & -> & ev & Hev); [unfold sizeof_event; lia|lia|].
  apply (access_bind _ b' _ _ _ eq_refl), (access_bind _ ev _ _ _ Hev). case_decide; [apply preserves_ret|].
  eapply preserves_bind; [apply keeps_count_received|intros; apply preserves_ret].
Qed.

Lemma keeps_get_user_buf fd buf size :
  call_ok (CallGetUserBuf fd buf size) -> keeps false (event_disp_api_get_event_to_user_buf fd buf size).
Proof.
  intros Hok. unfold event_disp_api_get_event_to_user_buf. destruct buf as [b|]; [|apply preserves_ret]. case_decide; [apply preserves_ret|].
  destruct Hok as (Hsz & Hmax & Hb). rewrite wrap_small by lia.
  apply recv_keeps; [lia|]. intros [data|] Hd; [|apply preserves_ret]. specialize (Hd data eq_refl).
  destruct (written_event b data) as (b' & -> & ev & Hev); [done|lia|].
  apply (access_bind _ b' _ _ _ eq_refl), (access_bind _ ev _ _ _ Hev).
  eapply preserves_bind; [apply keeps_count_received|intros; apply preserves_ret].
Qed.

Lemma keeps_disp_call c : call_ok c -> keeps false (call c).
Proof.
  intros Hok. destruct c; cbn [call]; (eapply preserves_bind; [|intros; apply preserves_ret]).
  - apply keeps_init.
  - apply keeps_deinit.
  - apply keeps_open.
  - apply keeps_close.
  - by apply keeps_register.
  - by apply keeps_unregister.
  - by apply keeps_generate.
  - by apply keeps_get_event.
  - by apply keeps_get_user_buf.
  - unfold event_disp_api_get_connections_number. keep.
  - unfold event_disp_api_get_event_generation_number. eapply preserves_bind; [apply preserves_gets|]. intros []; cbn [negb]; [|apply preserves_ret].
    destruct gen_num; cbn [negb]; [|apply preserves_ret]. case_decide; [apply preserves_ret|].
    apply lookup_bind; [|intros; apply preserves_ret]. intros d Hd. apply lookup_lt_is_Some. rewrite (tb_gen _ (proj1 Hd)). lia.
  - apply preserves_gets.
Qed.

End Safe.

(** ** Witness *)

(** Wrong descriptors, priorities and events, before and after initialisation. *)
Definition careless_calls : list api_call :=
  [CallRegister (Some (Fds 7 7 7)) 99 (Some [3]) 1; CallInit; CallInit; CallOpen (Some (Fds 0 0 0)); CallOpen None;
   CallRegister (Some (Fds 0 1 2)) HIGH_PRIO (Some [9; 9; 9]) 3; CallRegister (Some (Fds 0 1 2)) 99 (Some [4000]) 1;
   CallRegister (Some (Fds 900 901 (-1))) LOW_PRIO (Some [9]) (-4); CallGenerate 9 (Some [1; 2; 3]) 3 EVENT_SEND_BLOCKING_MODE 0;
   CallGenerate 9 (Some [1; 2; 3]) 3 7 EVENT_SEND_NO_COPY; CallGetEvent 55 (Some (replicate 1504 0));
   CallGetUserBuf 0 (Some [1; 2; 3; 4]) 4; CallClose (Some (Fds 5 5 0)); CallConnections true;
   CallGenerations 5000 true; CallDeinit; CallDeinit; CallIsInit].

Lemma static0_inv : inv false static0.
Proof. repeat split; try reflexivity; [by apply Forall_replicate|unfold EVENT_DISP_MAX_CON; cbn; lia..]. Qed.

