(* ===== verification/CtrlLearn.v ===== *)
(** * Controlled learning ([lib_ctrl_learn.c])

    The switch reports MAC addresses that it learned or that aged; a client may
    deny each of them; the approved ones are configured in the hardware and entered
    in the database.  Clients also add, delete, flush and read addresses.

    The state is the static variables of the file with the database.  The hardware
    layer, the switch's interface (OES) and the heap are a class of calls; callbacks
    are functions on what lies outside the library.  A call has no result when it
    waits for the lock its own thread holds, follows a null pointer or leaves an
    array.  Log output is left out. *)

From S2P Require Import Prelude Bytes Comp Qlist Storage FdbFilter UcDb.

Local Open Scope Z_scope.
Local Open Scope list_scope.

Definition CTRL_LEARN_FDB_NOTIFY_SIZE_MAX : nat := 670.
Definition MAX_EVENT_INFO_SIZE : nat := CTRL_LEARN_FDB_NOTIFY_SIZE_MAX.
Definition VID_MAX : Z := 4094.
Definition FDB_GROUP_ADDRESS_MASK : Z := 1.
Definition CTRL_LEARN_NOTIFY_DECISION_APPROVE : Z := 0.
Definition CTRL_LEARN_NOTIFY_DECISION_DENY : Z := 1.
Definition FDB_UC_STATIC : Z := 0.
Definition FDB_UC_AGEABLE : Z := 3.
Definition FDB_ENTRY_TYPE_MAX : Z := FDB_UC_AGEABLE.
(** Values of [errno.h]. *)
Definition EEXIST : Z := 17.
Definition EXFULL : Z := 54.
Definition EOPNOTSUPP : Z := 95.

(** ** Data *)

Inductive oes_access_cmd :=
| OES_ACCESS_CMD_ADD
| OES_ACCESS_CMD_DELETE
| OES_ACCESS_CMD_GET
| OES_ACCESS_CMD_GET_FIRST
| OES_ACCESS_CMD_GET_NEXT
| OES_ACCESS_CMD_OTHER.

Inductive oes_fdb_event_type :=
| OES_FDB_EVENT_LEARN
| OES_FDB_EVENT_AGE
| OES_FDB_EVENT_FLUSH_ALL
| OES_FDB_EVENT_FLUSH_VID
| OES_FDB_EVENT_FLUSH_PORT
| OES_FDB_EVENT_FLUSH_PORT_VID
| OES_FDB_EVENT_OTHER.

Inductive oes_status :=
| OES_STATUS_SUCCESS
| OES_STATUS_ERROR
| OES_STATUS_CMD_UNSUPPORTED
| OES_STATUS_PARAM_ERROR
| OES_STATUS_PARAM_EXCEEDS_RANGE
| OES_STATUS_NO_MEMORY
| OES_STATUS_OES_NOT_INITIALIZED
| OES_STATUS_ENTRY_NOT_FOUND
| OES_STATUS_ENTRY_ALREADY_EXISTS
| OES_STATUS_NO_RESOURCES
| OES_STATUS_OTHER.

Inductive cookie_op := COOKIE_OP_INIT | COOKIE_OP_DEINIT.

#[export] Instance oes_access_cmd_eq_dec : EqDecision oes_access_cmd.
Proof. solve_decision. Defined.
#[export] Instance oes_fdb_event_type_eq_dec : EqDecision oes_fdb_event_type.
Proof. solve_decision. Defined.
#[export] Instance oes_status_eq_dec : EqDecision oes_status.
Proof. solve_decision. Defined.
#[export] Instance mac_addr_params_eq_dec : EqDecision mac_addr_params.
Proof. solve_decision. Defined.

(** The union of an event: the member written last. *)
Inductive fdb_event_data :=
| FdbEntry (e : mac_addr_params)
| FdbPort (port : Z)
| FdbVid (v : Z)
| FdbPortVid (port v : Z).

Record oes_event_fdb := OesEvent { fbd_event_type : oes_fdb_event_type; event_data : fdb_event_data }.

Record ctrl_learn_fdb_notify_record := NotifyRecord {
  event_type : oes_fdb_event_type; record_event : oes_event_fdb; decision : Z; record_entry_type : Z; record_cookie : ptr }.

Record ctrl_learn_fdb_notify_data := NotifyData {
  records_num : Z; records_arr : list ctrl_learn_fdb_notify_record }.

Record fdb_uc_mac_addr_params := MacAddr { addr_params : mac_addr_params; addr_entry_type : Z; addr_cookie : ptr }.

Record ctrl_learn_notify_params := NotifyParams { interval_units : Z; size_threshold : Z }.

(** A structure cleared with [memset]. *)
Definition mac_addr0 : fdb_uc_mac_addr_params := MacAddr params0 0 NULL.

Definition oes_status_to_errno (status : oes_status) : Z :=
  match status with
  | OES_STATUS_SUCCESS => 0
  | OES_STATUS_ERROR => - EPERM
  | OES_STATUS_CMD_UNSUPPORTED => - EOPNOTSUPP
  | OES_STATUS_PARAM_ERROR | OES_STATUS_PARAM_EXCEEDS_RANGE => - EINVAL
  | OES_STATUS_NO_MEMORY | OES_STATUS_OES_NOT_INITIALIZED => - EPERM
  | OES_STATUS_ENTRY_NOT_FOUND => - ENOENT
  | OES_STATUS_ENTRY_ALREADY_EXISTS => - EEXIST
  | OES_STATUS_NO_RESOURCES => - EXFULL
  | OES_STATUS_OTHER => - EPERM
  end.

(** ** What lies outside *)

(** The values of the switch's constants, how its event structure reads as an
    entry, its flush calls, the hardware layer, the heap, and what memory holds
    before it is written. *)
Class LearnEnv (W : Type) := {
  OES_FDB_STATIC : Z;
  OES_FDB_DYNAMIC : Z;
  oes_status_value : oes_status -> Z;
  fdb_entry_of : fdb_event_data -> mac_addr_params;
  oes_api_fdb_uc_flush_set : Z -> W -> oes_status * W;
  oes_api_fdb_uc_flush_port_set : Z -> Z -> W -> oes_status * W;
  oes_api_fdb_uc_flush_vid_set : Z -> Z -> W -> oes_status * W;
  oes_api_fdb_uc_flush_port_vid_set : Z -> Z -> Z -> W -> oes_status * W;
  ctrl_learn_hal_fdb_uc_mac_addr_set :
    oes_access_cmd -> Z -> list fdb_uc_mac_addr_params -> W -> (Z * list fdb_uc_mac_addr_params * Z) * W;
  ctrl_learn_hal_fdb_notify_params_set : Z -> ctrl_learn_notify_params -> W -> Z * W;
  sys_malloc : W -> bool * W;
  sys_free : W -> W;
  uninit_addr : W -> nat -> fdb_uc_mac_addr_params;
  uninit_record : W -> nat -> ctrl_learn_fdb_notify_record }.

(** The callbacks: on notifications with the cookie of their originator, and on the
    cookie of a record. *)
Definition ctrl_learn_notification_func (W : Type) : Type :=
  ctrl_learn_fdb_notify_data -> ptr -> W -> (Z * ctrl_learn_fdb_notify_data) * W.
Definition ctrl_learn_mac_addr_cookie_init_deinit_func (W : Type) : Type := cookie_op -> ptr -> W -> (Z * ptr) * W.

(** The static variables of the file. *)
Record learn (M P A W : Type) := Learn {
  db : fdb M P A;
  ctrl_learn_br_id : Z;
  is_ctrl_learn_initialized : bool;
  is_ctrl_learn_start : bool;
  ctrl_learn_stop_signal : bool;
  muliple_fdb_notif_enabled : Z;
  quit_ctrl_learn_thread_fd : Z * Z;
  simulate_oes_event_fd : Z * Z;
  ctrl_learn_notification_cb : option (ctrl_learn_notification_func W);
  ctrl_learn_init_deinit_cb : option (ctrl_learn_mac_addr_cookie_init_deinit_func W);
  event_info_sim : list oes_event_fdb;
  fdb_lock_held : bool;
  world : W }.
Arguments Learn {M P A W} _ _ _ _ _ _ _ _ _ _ _ _ _.
Arguments db {M P A W} _.
Arguments ctrl_learn_br_id {M P A W} _.
Arguments is_ctrl_learn_initialized {M P A W} _.
Arguments is_ctrl_learn_start {M P A W} _.
Arguments ctrl_learn_stop_signal {M P A W} _.
Arguments muliple_fdb_notif_enabled {M P A W} _.
Arguments quit_ctrl_learn_thread_fd {M P A W} _.
Arguments simulate_oes_event_fd {M P A W} _.
Arguments ctrl_learn_notification_cb {M P A W} _.
Arguments ctrl_learn_init_deinit_cb {M P A W} _.
Arguments event_info_sim {M P A W} _.
Arguments fdb_lock_held {M P A W} _.
Arguments world {M P A W} _.

(** ** Arrays *)

(** Writing one element of an array, and its first [n] elements. *)
Definition write_at {X} (i : nat) (f : X -> X) (l : list X) : option (list X) :=
  if decide (i < length l)%nat then Some (alter f i l) else None.
Definition first_of {X} (n : Z) (l : list X) : option (list X) :=
  if decide (n <= Z.of_nat (length l)) then Some (take (Z.to_nat n) l) else None.
Definition on_first {X} (n : Z) (f : list X -> list X) (l : list X) : option (list X) :=
  l1 ← first_of n l; Some (f l1 ++ drop (Z.to_nat n) l).

Section CtrlLearn.
Context {M P A W : Type} {OM : OrderedMap M} {OP : ObjectPool P A} {EL : EntryLayout} {LE : LearnEnv W}.
Abbreviation fdb := (fdb M P A).
Abbreviation learn := (learn M P A W).
Abbreviation L := (comp learn).
Abbreviation addr := fdb_uc_mac_addr_params.
Abbreviation record := ctrl_learn_fdb_notify_record.
Abbreviation notify_data := ctrl_learn_fdb_notify_data.

Definition set_db (l : learn) (s : fdb) : learn :=
  Learn s (ctrl_learn_br_id l) (is_ctrl_learn_initialized l) (is_ctrl_learn_start l) (ctrl_learn_stop_signal l)
    (muliple_fdb_notif_enabled l) (quit_ctrl_learn_thread_fd l) (simulate_oes_event_fd l) (ctrl_learn_notification_cb l)
    (ctrl_learn_init_deinit_cb l) (event_info_sim l) (fdb_lock_held l) (world l).
Definition set_flags (l : learn) (inited start stop : bool) : learn :=
  Learn (db l) (ctrl_learn_br_id l) inited start stop
    (muliple_fdb_notif_enabled l) (quit_ctrl_learn_thread_fd l) (simulate_oes_event_fd l) (ctrl_learn_notification_cb l)
    (ctrl_learn_init_deinit_cb l) (event_info_sim l) (fdb_lock_held l) (world l).
Definition set_config (l : learn) (br_id multiple : Z) : learn :=
  Learn (db l) br_id (is_ctrl_learn_initialized l) (is_ctrl_learn_start l) (ctrl_learn_stop_signal l)
    multiple (quit_ctrl_learn_thread_fd l) (simulate_oes_event_fd l) (ctrl_learn_notification_cb l)
    (ctrl_learn_init_deinit_cb l) (event_info_sim l) (fdb_lock_held l) (world l).
Definition set_pipes (l : learn) (quit sim : Z * Z) : learn :=
  Learn (db l) (ctrl_learn_br_id l) (is_ctrl_learn_initialized l) (is_ctrl_learn_start l) (ctrl_learn_stop_signal l)
    (muliple_fdb_notif_enabled l) quit sim (ctrl_learn_notification_cb l)
    (ctrl_learn_init_deinit_cb l) (event_info_sim l) (fdb_lock_held l) (world l).
Definition set_callbacks (l : learn) (n : option (ctrl_learn_notification_func W))
    (c : option (ctrl_learn_mac_addr_cookie_init_deinit_func W)) : learn :=
  Learn (db l) (ctrl_learn_br_id l) (is_ctrl_learn_initialized l) (is_ctrl_learn_start l) (ctrl_learn_stop_signal l)
    (muliple_fdb_notif_enabled l) (quit_ctrl_learn_thread_fd l) (simulate_oes_event_fd l) n
    c (event_info_sim l) (fdb_lock_held l) (world l).
Definition set_sim (l : learn) (evs : list oes_event_fdb) : learn :=
  Learn (db l) (ctrl_learn_br_id l) (is_ctrl_learn_initialized l) (is_ctrl_learn_start l) (ctrl_learn_stop_signal l)
    (muliple_fdb_notif_enabled l) (quit_ctrl_learn_thread_fd l) (simulate_oes_event_fd l) (ctrl_learn_notification_cb l)
    (ctrl_learn_init_deinit_cb l) evs (fdb_lock_held l) (world l).
Definition set_lock (l : learn) (held : bool) : learn :=
  Learn (db l) (ctrl_learn_br_id l) (is_ctrl_learn_initialized l) (is_ctrl_learn_start l) (ctrl_learn_stop_signal l)
    (muliple_fdb_notif_enabled l) (quit_ctrl_learn_thread_fd l) (simulate_oes_event_fd l) (ctrl_learn_notification_cb l)
    (ctrl_learn_init_deinit_cb l) (event_info_sim l) held (world l).
Definition set_world (l : learn) (w : W) : learn :=
  Learn (db l) (ctrl_learn_br_id l) (is_ctrl_learn_initialized l) (is_ctrl_learn_start l) (ctrl_learn_stop_signal l)
    (muliple_fdb_notif_enabled l) (quit_ctrl_learn_thread_fd l) (simulate_oes_event_fd l) (ctrl_learn_notification_cb l)
    (ctrl_learn_init_deinit_cb l) (event_info_sim l) (fdb_lock_held l) w.

(** A call outside, a read of the database, a change of the database. *)
Definition ext {X} (f : W -> X * W) : L X := fun l => let '(x, w) := f (world l) in Some (x, set_world l w).
Definition ask {X} (f : fdb -> option X) : L X := s ← gets db; access (f s).
Definition in_db (f : fdb -> option (Z * fdb)) : L Z := fun l =>
  match f (db l) with Some (err, s) => Some (err, set_db l s) | None => None end.

Definition cl_spinlock_acquire : L unit :=
  held ← gets fdb_lock_held;
  if (held : bool) then access None else modify (fun l => set_lock l true).
Definition cl_spinlock_release : L unit := modify (fun l => set_lock l false).

(** ** Callbacks *)

(** The callback on a cookie of the caller: its error and the cookie then. *)
Definition init_cookie (c : ptr) : L (Z * ptr) :=
  cb ← gets ctrl_learn_init_deinit_cb;
  match cb with Some f => ext (f COOKIE_OP_INIT c) | None => mret (0, c) end.

(** The callback on the cookie of a record, before the record is deleted; its error
    is logged and overwritten. *)
Definition deinit_record (a : ptr) : L unit :=
  cb ← gets ctrl_learn_init_deinit_cb;
  match cb with
  | None => mret tt
  | Some f =>
      rec ← gets (fun l => data (db l) a);
      '(_, c) ← ext (f COOKIE_OP_DEINIT (cookie rec));
      modify (fun l => set_db l (UcDb.set_data (db l) a (EntryData (mac_params rec) c (type rec))))
  end.

(** ** Flushing *)

(** The loop over records that deletes those that are not static: [mac_record] is
    the record at hand, [tmp_record] the variable that gets the one after it. *)
Fixpoint flush_loop (fuel : nat) (next : ptr -> fdb -> Z * ptr) (mac_record tmp_record : ptr) (err : Z) : L Z :=
  if decide (mac_record = NULL) then mret err
  else
    match fuel with
    | O => access None
    | S fuel =>
        '(err, p) ← gets (fun l => next mac_record (db l));
        let tmp_record := if decide (err = 0) then p else tmp_record in
        rec ← gets (fun l => data (db l) mac_record);
        err ← (if decide (type rec <> FDB_UC_STATIC) then
                 deinit_record mac_record;; in_db (fdb_uc_db_delete_record mac_record)
               else mret err);
        flush_loop fuel next tmp_record tmp_record err
    end.

(** No more records than the map counts. *)
Definition flush_from (next : ptr -> fdb -> Z * ptr) (a : ptr) : L Z :=
  n ← gets (fun l => om_count (fdb_map (db l)));
  flush_loop (S (Z.to_nat n)) next a NULL 0.

Definition ctrl_learn_flush_db_by_filter (key_filter : fdb_uc_key_filter) : L Z :=
  cl_spinlock_acquire;;
  '(err, list_cookie, a) ← ask (fdb_uc_db_get_first_record_by_filter (Some key_filter));
  if decide (err <> 0) then cl_spinlock_release;; mret err
  else
    err ← flush_from (fdb_uc_db_get_next_record_by_filter (Some key_filter) list_cookie) a;
    cl_spinlock_release;; mret err.

Definition ctrl_learn_handle_flush_all : L Z :=
  cl_spinlock_acquire;;
  '(err, a) ← gets (fun l => fdb_uc_db_get_first_record (db l));
  if decide (err <> 0) then cl_spinlock_release;; mret err
  else
    err ← flush_from fdb_uc_db_next_record a;
    cl_spinlock_release;; mret err.

(** ** Notifications *)

(** The structure on the stack before it is written. *)
Definition uninit_records : L (list record) :=
  w ← gets world; mret (uninit_record w <$> seq 0 CTRL_LEARN_FDB_NOTIFY_SIZE_MAX).

Definition set_decision (d : Z) (r : record) : record :=
  NotifyRecord (event_type r) (record_event r) d (record_entry_type r) (record_cookie r).

(** The records of an array get the decision to approve. *)
Definition approve_first (n : Z) (arr : list record) : L (list record) :=
  access (on_first n (fmap (set_decision CTRL_LEARN_NOTIFY_DECISION_APPROVE)) arr).

Fixpoint deny_rest (num_approved processed_approved : Z) (recs : list record) : list record :=
  match recs with
  | [] => []
  | r :: recs =>
      if decide (event_type r = OES_FDB_EVENT_LEARN) then
        (if decide (processed_approved >= num_approved) then set_decision CTRL_LEARN_NOTIFY_DECISION_DENY r else r)
          :: deny_rest num_approved (u32 (processed_approved + 1)) recs
      else r :: deny_rest num_approved processed_approved recs
  end.

Definition update_approved_list (nd : notify_data) : L (Z * notify_data) :=
  '(err, cnt) ← gets (fun l => fdb_uc_db_get_free_pool_count (db l));
  if decide (err <> 0) then mret (err, nd)
  else if decide (cnt < records_num nd) then
    arr ← access (on_first (records_num nd) (deny_rest cnt 0) (records_arr nd));
    mret (err, NotifyData (records_num nd) arr)
  else mret (err, nd).

(** The records that are approved, in order; the count is read as an [int]. *)
Definition approved_records (nd : notify_data) : L (list record) :=
  recs ← access (first_of (int32 (records_num nd)) (records_arr nd));
  mret (filterb (fun r => bool_decide (decision r = CTRL_LEARN_NOTIFY_DECISION_APPROVE)) recs).

(** ** Events of the switch *)

(** A record gets the members the code writes; the others stay. *)
Definition fill_record (t : oes_fdb_event_type) (e : mac_addr_params) (entry_type : Z) (r : record) : record :=
  NotifyRecord t (OesEvent t (FdbEntry e)) (decision r) entry_type (record_cookie r).

(** What the loop over the events has gathered. *)
Record gathered := Gathered {
  notif_records : list record; lst_idx : nat; access_cmd : oes_access_cmd; is_learned_or_aged_event : bool; gather_err : Z }.

Definition gather_record (t : oes_fdb_event_type) (cmd : oes_access_cmd) (e : mac_addr_params) (g : gathered) : L gathered :=
  arr ← access (write_at (lst_idx g) (fill_record t e FDB_UC_AGEABLE) (notif_records g));
  mret (Gathered arr (S (lst_idx g)) cmd true (gather_err g)).

Definition gather_flush (flush : L Z) (g : gathered) : L gathered :=
  err ← flush;
  mret (Gathered (notif_records g) (lst_idx g) (access_cmd g) (is_learned_or_aged_event g) err).

Definition gather_event (ev : oes_event_fdb) (g : gathered) : L gathered :=
  let e := fdb_entry_of (event_data ev) in
  match fbd_event_type ev with
  | OES_FDB_EVENT_LEARN => gather_record OES_FDB_EVENT_LEARN OES_ACCESS_CMD_ADD e g
  | OES_FDB_EVENT_AGE => gather_record OES_FDB_EVENT_AGE OES_ACCESS_CMD_DELETE e g
  | OES_FDB_EVENT_FLUSH_ALL => gather_flush ctrl_learn_handle_flush_all g
  | OES_FDB_EVENT_FLUSH_VID => gather_flush (ctrl_learn_flush_db_by_filter (KeyFilter true (vid e) false 0)) g
  | OES_FDB_EVENT_FLUSH_PORT => gather_flush (ctrl_learn_flush_db_by_filter (KeyFilter false 0 true (log_port e))) g
  | OES_FDB_EVENT_FLUSH_PORT_VID =>
      gather_flush (ctrl_learn_flush_db_by_filter (KeyFilter true (vid e) true (log_port e))) g
  | OES_FDB_EVENT_OTHER => mret g
  end.

Fixpoint gather_events (evs : list oes_event_fdb) (g : gathered) : L gathered :=
  match evs with [] => mret g | ev :: evs => g ← gather_event ev g; gather_events evs g end.

(** An approved record as the hardware layer gets it; the type stays zero for other
    kinds of entries. *)
Definition approved_entry (r : record) : addr :=
  let e := fdb_entry_of (event_data (record_event r)) in
  MacAddr e
    (if decide (entry_type e = OES_FDB_STATIC) then FDB_UC_STATIC
     else if decide (entry_type e = OES_FDB_DYNAMIC) then FDB_UC_AGEABLE else 0) NULL.

(** The hardware is configured with the approved entries: its error, the error kept
    for the end, the entries that failed, and the entries the next loop runs over.
    The layer writes in the array and its count; the array is cleared to its end. *)
Definition configure_hw (cmd : oes_access_cmd) (approved : list addr) (err : Z) : L (Z * Z * list addr * list addr) :=
  match approved with
  | [] => mret (err, 0, [], [])
  | _ =>
      br ← gets ctrl_learn_br_id;
      '(err, entries, cnt) ← ext (ctrl_learn_hal_fdb_uc_mac_addr_set cmd br approved);
      todo ← access (first_of (u16 cnt) (entries ++ replicate (MAX_EVENT_INFO_SIZE - length approved) mac_addr0));
      mret (err, if decide (err = - EXFULL \/ err = - ENOENT) then 0 else err, if decide (err <> 0) then todo else [], todo)
  end.

(** One approved entry is entered in the database. *)
Definition learn_entry (p : addr) : L Z :=
  '(_, c) ← init_cookie NULL;
  cl_spinlock_acquire;;
  err ← in_db (fdb_uc_db_add_record (Some (EntryData (addr_params p) c
    (if decide (entry_type (addr_params p) = OES_FDB_STATIC) then FDB_UC_STATIC else FDB_UC_AGEABLE))));
  cl_spinlock_release;;
  mret err.

(** One aged entry is deleted. *)
Definition age_entry (p : addr) : L Z :=
  cl_spinlock_acquire;;
  '(err, a) ← ask (fdb_uc_db_get_record_by_key (FDB_UC_CONVERT_MAC_VLAN_TO_KEY (mac_addr (addr_params p)) (vid (addr_params p))));
  err ← (if decide (a <> NULL) then deinit_record a;; in_db (fdb_uc_db_delete_record a) else mret err);
  cl_spinlock_release;;
  mret err.

(** The loop over the approved entries passes over those that failed. *)
Fixpoint update_db (cmd : oes_access_cmd) (failed todo : list addr) (err : Z) : L Z :=
  match todo with
  | [] => mret err
  | p :: todo =>
      if existsb (fun q => bool_decide (addr_params p = addr_params q)) failed then update_db cmd failed todo err
      else
        err ← match cmd with
              | OES_ACCESS_CMD_ADD => learn_entry p
              | OES_ACCESS_CMD_DELETE => age_entry p
              | _ => mret err
              end;
        update_db cmd failed todo err
  end.

Definition ctrl_learn_handle_oes_event (event_info : list oes_event_fdb) (event_num : Z) : L Z :=
  evs ← access (first_of event_num event_info);
  arr ← uninit_records;
  g ← gather_events evs (Gathered arr 0 OES_ACCESS_CMD_ADD false 0);
  let n := Z.of_nat (lst_idx g) in
  arr ← approve_first n (notif_records g);
  '(err, nd) ← update_approved_list (NotifyData n arr);
  let err := if decide (err <> 0) then - EPERM else err in
  cb ← gets ctrl_learn_notification_cb;
  '(err, nd) ← match cb with
               | Some f => ext (f (NotifyData n (records_arr nd)) NULL)
               | None => mret (err, nd)
               end;
  recs ← approved_records nd;
  if is_learned_or_aged_event g then
    '(err, mac_addr_set_err, failed, todo) ← configure_hw (access_cmd g) (approved_entry <$> recs) err;
    err ← update_db (access_cmd g) failed todo err;
    mret (if decide (mac_addr_set_err <> 0) then mac_addr_set_err else err)
  else mret err.

(** Test events: entries of a client become events for the thread. *)
Definition simulated_event (cmd : oes_access_cmd) (p : addr) : oes_event_fdb :=
  OesEvent (if decide (cmd = OES_ACCESS_CMD_ADD) then OES_FDB_EVENT_LEARN else OES_FDB_EVENT_AGE) (FdbEntry (addr_params p)).

(** The tests on the entries a client gives. *)
Definition unicast_ok (cmd : oes_access_cmd) (p : addr) : bool :=
  bool_decide (Z.land (nth 0 (mac_addr (addr_params p)) 0) FDB_GROUP_ADDRESS_MASK = 0) &&
  (bool_decide (cmd = OES_ACCESS_CMD_DELETE) || bool_decide (addr_entry_type p <= FDB_ENTRY_TYPE_MAX)).
End CtrlLearn.
