(* ===== verification/CtrlLearnApi.v ===== *)
(** * The interface of controlled learning ([lib_ctrl_learn.c])

    The calls of clients: adding and deleting addresses, flushing, reading the
    database, registering callbacks. *)

From S2P Require Import Prelude Bytes Comp Qlist Storage FdbFilter UcDb CtrlLearn.

Local Open Scope Z_scope.
Local Open Scope list_scope.

Section Api.
Context {M P A W : Type} {OM : OrderedMap M} {OP : ObjectPool P A} {EL : EntryLayout} {LE : LearnEnv W}.
Abbreviation fdb := (fdb M P A).
Abbreviation learn := (learn M P A W).
Abbreviation L := (comp learn).
Abbreviation addr := fdb_uc_mac_addr_params.
Abbreviation record := ctrl_learn_fdb_notify_record.
Abbreviation notify_data := ctrl_learn_fdb_notify_data.

Definition with_lock {X} (fdb_lock : Z) (c : L X) : L X :=
  (if decide (fdb_lock = 1) then cl_spinlock_acquire else mret tt);;
  x ← c;
  (if decide (fdb_lock = 1) then cl_spinlock_release else mret tt);;
  mret x.

Definition key_of (e : mac_addr_params) : Z := FDB_UC_CONVERT_MAC_VLAN_TO_KEY (mac_addr e) (vid e).

(** ** Adding and deleting *)

(** Which entries change something, with the cookie of the last known record seen:
    the array of notifications, how many it holds, and that cookie. *)
Fixpoint collect (cmd : oes_access_cmd) (entries : list addr) (arr : list record) (lst_idx : nat) (mac_entry_cookie : ptr)
    : L (list record * nat) :=
  match entries with
  | [] => mret (arr, lst_idx)
  | e :: entries =>
      '(err, a) ← ask (fdb_uc_db_get_record_by_key (key_of (addr_params e)));
      rec ← gets (fun l => data (db l) a);
      no_cb ← gets (fun l => bool_decide (ctrl_learn_notification_cb l = None));
      let note t c :=
        arr ← access (write_at lst_idx (fun r => NotifyRecord t (OesEvent t (FdbEntry (addr_params e)))
          (if (no_cb : bool) then CTRL_LEARN_NOTIFY_DECISION_APPROVE else decision r) (addr_entry_type e) c) arr);
        collect cmd entries arr (S lst_idx) c in
      if decide (err <> 0 /\ err <> - ENOENT) then collect cmd entries arr lst_idx mac_entry_cookie
      else
        match cmd with
        | OES_ACCESS_CMD_ADD =>
            if decide (a <> NULL) then
              if decide (entry_type (mac_params rec) = entry_type (addr_params e) /\
                         log_port (mac_params rec) = log_port (addr_params e) /\ type rec = addr_entry_type e)
              then collect cmd entries arr lst_idx mac_entry_cookie
              else note OES_FDB_EVENT_LEARN (cookie rec)
            else note OES_FDB_EVENT_LEARN mac_entry_cookie
        | _ =>
            if decide (a = NULL) then collect cmd entries arr lst_idx mac_entry_cookie
            else note OES_FDB_EVENT_AGE mac_entry_cookie
        end
  end.

(** The approved entries for the hardware layer, in memory from the heap: the
    OES type and the cookie of each are not written. *)
Fixpoint approved_addrs (uninit : nat -> addr) (i : nat) (recs : list record) : list addr :=
  match recs with
  | [] => []
  | r :: recs =>
      let e := fdb_entry_of (event_data (record_event r)) in
      MacAddr (MacParams (mac_addr e) (vid e) (log_port e) (entry_type (addr_params (uninit i)))) (record_entry_type r)
        (addr_cookie (uninit i)) :: approved_addrs uninit (S i) recs
  end.

Definition is_failed (r : record) (q : addr) : bool :=
  let e := fdb_entry_of (event_data (record_event r)) in
  bool_decide (vid e = vid (addr_params q)) && bool_decide (log_port e = log_port (addr_params q)) &&
  bool_decide (record_entry_type r = addr_entry_type q) && bool_decide (mac_addr e = mac_addr (addr_params q)).

(** One record is added: a record that was known keeps its cookie. *)
Definition set_add (fdb_lock : Z) (r : record) : L Z :=
  let e := fdb_entry_of (event_data (record_event r)) in
  let oes_type := if decide (record_entry_type r = FDB_UC_STATIC) then OES_FDB_STATIC else OES_FDB_DYNAMIC in
  '(err, c) ← (if decide (record_cookie r <> NULL) then mret (0, record_cookie r) else init_cookie NULL);
  if decide (err <> 0) then mret err
  else with_lock fdb_lock (in_db (fdb_uc_db_add_record
    (Some (EntryData (MacParams (mac_addr e) (vid e) (log_port e) oes_type) c (record_entry_type r))))).

(** One record is deleted: the error, and whether the call ends there. *)
Definition set_delete (fdb_lock : Z) (r : record) : L (Z * bool) :=
  with_lock fdb_lock (
    '(err, a) ← ask (fdb_uc_db_get_record_by_key (key_of (fdb_entry_of (event_data (record_event r)))));
    if decide (a <> NULL) then
      deinit_record a;;
      err ← in_db (fdb_uc_db_delete_record a);
      mret (err, bool_decide (err <> 0))
    else mret (err, false)).

(** The loop over the records enters those approved that did not fail. *)
Fixpoint set_db_loop (cmd : oes_access_cmd) (fdb_lock : Z) (failed : list addr) (recs : list record) (err : Z) : L Z :=
  match recs with
  | [] => mret err
  | r :: recs =>
      if decide (decision r <> CTRL_LEARN_NOTIFY_DECISION_APPROVE) then set_db_loop cmd fdb_lock failed recs err
      else if existsb (is_failed r) failed then set_db_loop cmd fdb_lock failed recs err
      else
        match cmd with
        | OES_ACCESS_CMD_ADD =>
            err ← set_add fdb_lock r;
            if decide (err <> 0) then mret err else set_db_loop cmd fdb_lock failed recs err
        | _ =>
            '(err, stop) ← set_delete fdb_lock r;
            if (stop : bool) then mret err else set_db_loop cmd fdb_lock failed recs err
        end
  end.

Definition free_block : L unit := modify (fun l => set_world l (sys_free (world l))).

(** From the hardware on: the error, the client's array, and its count. *)
Definition set_approved (cmd : oes_access_cmd) (fdb_lock num_macs : Z) (nd : notify_data) (mac_entry : list addr)
    : L (Z * list addr * Z) :=
  recs ← access (first_of (int32 (records_num nd)) (records_arr nd));
  w ← gets world;
  let approved := approved_addrs (uninit_addr w) 0
    (filterb (fun r => bool_decide (decision r = CTRL_LEARN_NOTIFY_DECISION_APPROVE)) recs) in
  if decide (num_macs < Z.of_nat (length approved)) then access None
  else
    match approved with
    | [] => err ← set_db_loop cmd fdb_lock [] recs 0; mret (err, mac_entry, 0)
    | _ =>
        br ← gets ctrl_learn_br_id;
        '(hal_err, entries, cnt) ← ext (ctrl_learn_hal_fdb_uc_mac_addr_set cmd br approved);
        if decide (hal_err = 0) then err ← set_db_loop cmd fdb_lock [] recs 0; mret (err, mac_entry, 0)
        else
          ok ← ext sys_malloc;
          if negb ok then mret (hal_err, mac_entry, 0)
          else
            failed ← access (first_of (u16 cnt) entries);
            mac_entry ← access (on_first (u16 cnt) (fun _ => failed) mac_entry);
            set_db_loop cmd fdb_lock failed recs hal_err;;
            free_block;;
            mret (hal_err, mac_entry, u16 cnt)
    end.

(** From the look at the database on. *)
Definition set_notify (cmd : oes_access_cmd) (fdb_lock num_macs : Z) (entries mac_entry : list addr) (originator : ptr)
    : L (Z * list addr * Z) :=
  arr ← uninit_records;
  '(arr, lst_idx) ← collect cmd entries arr 0 NULL;
  let n := Z.of_nat lst_idx in
  arr ← approve_first n arr;
  '(err, nd) ← update_approved_list (NotifyData n arr);
  if decide (err <> 0) then mret (- EPERM, mac_entry, 0)
  else
    cb ← gets ctrl_learn_notification_cb;
    '(err, nd) ← match cb with Some f => ext (f nd originator) | None => mret (0, nd) end;
    if decide (err <> 0) then mret (- ENOMEM, mac_entry, 0)
    else
      ok ← ext sys_malloc;
      if negb ok then mret (- ENOMEM, mac_entry, 0)
      else
        r ← set_approved cmd fdb_lock num_macs nd mac_entry;
        free_block;;
        mret r.

(** The status, what the client's array becomes, and its count. *)
Definition ctrl_learn_api_fdb_uc_mac_addr_set (cmd : oes_access_cmd) (mac_entry : option (list addr)) (mac_cnt : option Z)
    (originator_cookie : ptr) (fdb_lock : Z) : L (Z * option (list addr) * option Z) :=
  started ← gets is_ctrl_learn_start;
  if negb started then mret (0, mac_entry, mac_cnt)
  else
    match mac_entry, mac_cnt with
    | None, _ | _, None => mret (- EINVAL, mac_entry, mac_cnt)
    | Some arr, Some num_macs =>
        if decide (num_macs = 0) then mret (- EINVAL, mac_entry, Some 0)
        else
          match cmd with
          | OES_ACCESS_CMD_ADD | OES_ACCESS_CMD_DELETE =>
              entries ← access (first_of num_macs arr);
              if negb (forallb (unicast_ok cmd) entries) then mret (- EINVAL, mac_entry, Some 0)
              else
                ok1 ← ext sys_malloc;
                if negb ok1 then mret (- ENOMEM, mac_entry, Some 0)
                else
                  ok2 ← ext sys_malloc;
                  '(err, arr, cnt) ← (if negb ok2 then mret (- ENOMEM, arr, 0)
                                      else r ← set_notify cmd fdb_lock num_macs entries arr originator_cookie; free_block;; mret r);
                  free_block;;
                  mret (err, Some arr, Some cnt)
          | _ => mret (- EINVAL, mac_entry, Some 0)
          end
    end.

(** ** Flushing *)

(** The notification of a flush: what the callback makes of a record whose other
    members are not written, and whether there was a callback. *)
Definition notify_flush (t : oes_fdb_event_type) (d : option fdb_event_data) (originator : ptr) : L (Z * option Z) :=
  cb ← gets ctrl_learn_notification_cb;
  match cb with
  | None => mret (0, None)
  | Some f =>
      arr ← uninit_records;
      arr ← access (write_at 0 (fun r => NotifyRecord t
        (match d with Some d => OesEvent (fbd_event_type (record_event r)) d | None => record_event r end)
        (decision r) (record_entry_type r) (record_cookie r)) arr);
      '(err, nd) ← ext (f (NotifyData 1 arr) originator);
      r ← access (records_arr nd !! 0%nat);
      mret (err, Some (decision r))
  end.

Definition denied (d : option Z) : bool :=
  match d with Some d => bool_decide (d <> CTRL_LEARN_NOTIFY_DECISION_APPROVE) | None => false end.

Definition ctrl_learn_api_fdb_uc_flush_set (originator_cookie : ptr) : L Z :=
  started ← gets is_ctrl_learn_start;
  if negb started then mret 0
  else
    '(err, d) ← notify_flush OES_FDB_EVENT_FLUSH_ALL None originator_cookie;
    if denied d then mret 0
    else
      br ← gets ctrl_learn_br_id;
      ext (oes_api_fdb_uc_flush_set br);;
      mret err.

Definition ctrl_learn_api_fdb_uc_flush_port_set (port : Z) (originator_cookie : ptr) : L Z :=
  started ← gets is_ctrl_learn_start;
  if negb started then mret 0
  else
    '(err, d) ← notify_flush OES_FDB_EVENT_FLUSH_PORT (Some (FdbPort port)) originator_cookie;
    if decide (err <> 0) then mret err
    else if denied d then mret 0
    else
      br ← gets ctrl_learn_br_id;
      st ← ext (oes_api_fdb_uc_flush_port_set br port);
      mret (if decide (st <> OES_STATUS_SUCCESS) then oes_status_to_errno st else err).

Definition ctrl_learn_api_fdb_uc_flush_vid_set (v : Z) (originator_cookie : ptr) : L Z :=
  started ← gets is_ctrl_learn_start;
  if negb started then mret 0
  else
    '(err, d) ← notify_flush OES_FDB_EVENT_FLUSH_VID (Some (FdbVid v)) originator_cookie;
    if denied d then mret 0
    else
      br ← gets ctrl_learn_br_id;
      st ← ext (oes_api_fdb_uc_flush_vid_set br v);
      mret (if decide (st <> OES_STATUS_SUCCESS) then oes_status_to_errno st else err).

Definition ctrl_learn_api_fdb_uc_flush_port_vid_set (v port : Z) (originator_cookie : ptr) : L Z :=
  started ← gets is_ctrl_learn_start;
  if negb started then mret 0
  else
    '(err, d) ← notify_flush OES_FDB_EVENT_FLUSH_PORT_VID (Some (FdbPortVid port v)) originator_cookie;
    if denied d then mret 0
    else
      br ← gets ctrl_learn_br_id;
      st ← ext (oes_api_fdb_uc_flush_port_vid_set br v port);
      mret (if decide (st <> OES_STATUS_SUCCESS) then oes_status_to_errno st else err).

(** ** Reading *)

(** The record at [a] is copied to a place of the client's array. *)
Definition copy_record (a : ptr) (record_cnt : nat) (mac_list : list addr) : L (list addr) :=
  rec ← gets (fun l => data (db l) a);
  access (write_at record_cnt (fun _ => MacAddr (mac_params rec) (type rec) (cookie rec)) mac_list).

Definition filtered (f : fdb_uc_key_filter) : bool := filter_by_log_port f || filter_by_vid f.

(** The record after [a], by the filter or in the order of keys. *)
Definition next_record (f : fdb_uc_key_filter) (list_cookie a : ptr) (s : fdb) : Z * ptr :=
  if filtered f then fdb_uc_db_get_next_record_by_filter (Some f) list_cookie a s else fdb_uc_db_next_record a s.

(** The loop that copies records: at most [data_cnt] of them. *)
Fixpoint copy_loop (fuel : nat) (f : fdb_uc_key_filter) (list_cookie a : ptr) (mac_list : list addr) (record_cnt : nat) (data_cnt : Z)
    : L (Z * list addr * Z) :=
  if decide (a = NULL) then mret (0, mac_list, Z.of_nat record_cnt)
  else
    match fuel with
    | O => access None
    | S fuel =>
        mac_list ← copy_record a record_cnt mac_list;
        let record_cnt := S record_cnt in
        if decide (Z.of_nat record_cnt >= data_cnt) then mret (0, mac_list, Z.of_nat record_cnt)
        else
          '(err, a) ← gets (fun l => next_record f list_cookie a (db l));
          if decide (err <> 0) then mret (err, mac_list, Z.of_nat record_cnt)
          else copy_loop fuel f list_cookie a mac_list record_cnt data_cnt
    end.

(** The record a read starts with: its error, the end of the filter's list, and the
    record. *)
Definition first_record (f : fdb_uc_key_filter) : L (Z * ptr * ptr) :=
  if filtered f then ask (fdb_uc_db_get_first_record_by_filter (Some f))
  else '(err, a) ← gets (fun l => fdb_uc_db_get_first_record (db l)); mret (err, NULL, a).

Definition record_after (f : fdb_uc_key_filter) (a : ptr) : L (Z * ptr * ptr) :=
  if filtered f then
    '(err, list_cookie, _) ← ask (fdb_uc_db_get_first_record_by_filter (Some f));
    if decide (err <> 0) then mret (err, list_cookie, NULL)
    else '(err, p) ← gets (fun l => fdb_uc_db_get_next_record_by_filter (Some f) list_cookie a (db l)); mret (err, list_cookie, p)
  else '(err, p) ← gets (fun l => fdb_uc_db_next_record a (db l)); mret (err, NULL, p).

(** The copy of the records from the one found on, or no entry. *)
Definition copy_from (f : fdb_uc_key_filter) (r : Z * ptr * ptr) (mac_list : list addr) (data_cnt : Z) : L (Z * list addr * Z) :=
  let '(err, list_cookie, a) := r in
  if decide (err <> 0) then mret (err, mac_list, 0)
  else if decide (a = NULL) then mret (- ENOENT, mac_list, 0)
  else copy_loop (Z.to_nat data_cnt) f list_cookie a mac_list 0 data_cnt.

Definition read_records (cmd : oes_access_cmd) (f : fdb_uc_key_filter) (mac_list : list addr) (data_cnt : Z)
    : L (Z * list addr * Z) :=
  match cmd with
  | OES_ACCESS_CMD_GET =>
      e ← access (mac_list !! 0%nat);
      '(err, a) ← ask (fdb_uc_db_get_record_by_key (key_of (addr_params e)));
      if decide (err <> 0) then mret (err, mac_list, 0)
      else mac_list ← copy_record a 0 mac_list; mret (0, mac_list, 1)
  | OES_ACCESS_CMD_GET_FIRST => r ← first_record f; copy_from f r mac_list data_cnt
  | OES_ACCESS_CMD_GET_NEXT =>
      e ← access (mac_list !! 0%nat);
      '(err, a) ← ask (fdb_uc_db_get_record_by_key (key_of (addr_params e)));
      if decide (err <> 0) then mret (err, mac_list, 0)
      else r ← record_after f a; copy_from f r mac_list data_cnt
  | _ => mret (oes_status_value OES_STATUS_CMD_UNSUPPORTED, mac_list, 0)
  end.

(** The status, what the client's array becomes, and its count.  The count is
    written in the end on all paths but one, also through a null pointer. *)
Definition ctrl_learn_api_uc_mac_addr_get (cmd : oes_access_cmd) (key_filter : option fdb_uc_key_filter) (mac_list : list addr)
    (data_cnt : option Z) (fdb_lock : Z) : L (Z * list addr * Z) :=
  inited ← gets is_ctrl_learn_initialized;
  cnt ← access data_cnt;
  if negb inited then mret (- EPERM, mac_list, 0)
  else if decide (cnt = 0) then mret (- EINVAL, mac_list, 0)
  else
    f ← access key_filter;
    if filter_by_vid f && bool_decide (VID_MAX < filter_vid f) then mret (- EINVAL, mac_list, cnt)
    else with_lock fdb_lock (read_records cmd f mac_list cnt).

(** ** Callbacks and access *)

Definition ctrl_learn_register_notification (params : option ctrl_learn_notify_params)
    (notification_cb : option (ctrl_learn_notification_func W)) : L Z :=
  started ← gets is_ctrl_learn_start;
  if negb started then mret (- EPERM)
  else
    br ← gets ctrl_learn_br_id;
    err ← match params with Some p => ext (ctrl_learn_hal_fdb_notify_params_set br p) | None => mret 0 end;
    if decide (err <> 0) then mret err
    else modify (fun l => set_callbacks l notification_cb (ctrl_learn_init_deinit_cb l));; mret err.

Definition ctrl_learn_unregister_notification_cb : L Z :=
  modify (fun l => set_callbacks l None (ctrl_learn_init_deinit_cb l));; mret 0.

Definition ctrl_learn_register_init_deinit_mac_addr_cookie_cb
    (init_deinit_cb : option (ctrl_learn_mac_addr_cookie_init_deinit_func W)) : L Z :=
  modify (fun l => set_callbacks l (ctrl_learn_notification_cb l) init_deinit_cb);; mret 0.

Definition ctrl_learn_unregister_init_deinit_mac_addr_cookie_cb : L Z :=
  modify (fun l => set_callbacks l (ctrl_learn_notification_cb l) None);; mret 0.

(** The function to compare cookies is not used. *)
Definition ctrl_learn_register_coockie_cmp_func : L Z := mret 0.

(** The client's function runs with the lock held; it may call this library. *)
Definition ctrl_learn_api_get_uc_db_access (cb : L Z) : L Z :=
  cl_spinlock_acquire;;
  err ← cb;
  cl_spinlock_release;;
  mret err.
End Api.

(** The hardware layer of [hal_stub]: every entry succeeds. *)
Definition stub_fdb_uc_mac_addr_set {W : Type} (access_cmd : oes_access_cmd) (br_id : Z)
    (mac_entry : list fdb_uc_mac_addr_params) (w : W) : (Z * list fdb_uc_mac_addr_params * Z) * W :=
  ((0, mac_entry, Z.of_nat (length mac_entry)), w).
Definition stub_fdb_notify_params_set {W : Type} (br_id : Z) (params : ctrl_learn_notify_params) (w : W) : Z * W := (0, w).
