(* ===== verification/CtrlLearnThread.v ===== *)
(** * The life of controlled learning ([lib_ctrl_learn.c])

    Starting and ending the library, its thread, and test events.  The thread is
    its start and one turn of its loop; a turn runs as a whole between calls of
    clients. *)

From S2P Require Import Prelude Bytes Comp Qlist Storage FdbFilter UcDb CtrlLearn.

Local Open Scope Z_scope.
Local Open Scope list_scope.

(** System calls and calls of the switch; [false] is a failure, descriptors that
    are not there are none.  A wait yields the descriptors that are ready. *)
Class LearnSystem (W : Type) := {
  sys_event_init : W -> bool * W;
  sys_event_signal : W -> unit * W;
  sys_event_wait : W -> bool * W;
  sys_event_destroy : W -> unit * W;
  sys_pipe : W -> option (Z * Z) * W;
  sys_close : Z -> W -> unit * W;
  sys_write : Z -> W -> bool * W;
  sys_read : Z -> W -> unit * W;
  sys_thread_init : W -> bool * W;
  sys_thread_destroy : W -> unit * W;
  sys_select : Z -> list Z -> W -> option (list Z) * W;
  oes_api_event_fd_create : Z -> Z -> W -> (oes_status * Z * Z) * W;
  oes_api_event_fd_destroy : Z -> Z -> W -> (oes_status * Z * Z) * W;
  oes_api_event_register_set : oes_access_cmd -> Z -> Z -> Z -> W -> (oes_status * Z) * W;
  oes_api_fdb_learn_mode_set : Z -> bool -> W -> oes_status * W;
  oes_api_event_recv : Z -> Z -> W -> (oes_status * list oes_event_fdb * Z) * W }.

Section Thread.
Context {M P A W : Type} {OM : OrderedMap M} {OP : ObjectPool P A} {EL : EntryLayout} {LE : LearnEnv W} {LS : LearnSystem W}.
Abbreviation learn := (learn M P A W).
Abbreviation L := (comp learn).
Abbreviation addr := fdb_uc_mac_addr_params.

(** ** Initialisation *)

(** Where the code sets the library initialised, also when the thread was not made. *)
Definition init_out : L Z :=
  modify (fun l => set_flags l true (is_ctrl_learn_start l) (ctrl_learn_stop_signal l));; mret 0.

Definition close_pipes : L unit :=
  quit ← gets quit_ctrl_learn_thread_fd; sim ← gets simulate_oes_event_fd;
  ext (sys_close quit.1);; ext (sys_close quit.2);; ext (sys_close sim.1);; ext (sys_close sim.2).

Definition ctrl_learn_init (br_id enable_multiple_fdb_notif : Z) : L Z :=
  modify (fun l => set_config l br_id (muliple_fdb_notif_enabled l));;
  ok ← ext sys_event_init;
  if negb ok then mret (- ENOMEM)
  else
    err ← in_db fdb_uc_db_init;
    if decide (err <> 0) then mret (- EPERM)
    else
      quit ← ext sys_pipe;
      match quit with
      | None => mret (- EPERM)
      | Some quit =>
          modify (fun l => set_pipes l quit (simulate_oes_event_fd l));;
          sim ← ext sys_pipe;
          match sim with
          | None => mret (- EPERM)
          | Some sim =>
              modify (fun l => set_lock (set_pipes l quit sim) false);;
              ok ← ext sys_thread_init;
              if negb ok then close_pipes;; init_out
              else modify (fun l => set_config l br_id enable_multiple_fdb_notif);; init_out
          end
      end.

Definition ctrl_learn_start : L Z := ext sys_event_signal;; mret 0.

Definition ctrl_learn_stop : L Z :=
  inited ← gets is_ctrl_learn_initialized;
  if negb inited then mret 0
  else
    modify (fun l => set_flags l (is_ctrl_learn_initialized l) (is_ctrl_learn_start l) true);;
    started ← gets is_ctrl_learn_start;
    if negb started then ext sys_event_signal;; mret 0
    else
      quit ← gets quit_ctrl_learn_thread_fd;
      ok ← ext (sys_write quit.2);
      if negb ok then mret (- EPERM)
      else
        modify (fun l => set_flags l (is_ctrl_learn_initialized l) false (ctrl_learn_stop_signal l));;
        mret 0.

(** The lock is waited for before it is destroyed. *)
Definition cl_spinlock_destroy : L unit := cl_spinlock_acquire;; cl_spinlock_release.

Definition ctrl_learn_deinit : L Z :=
  inited ← gets is_ctrl_learn_initialized;
  if negb inited then mret 0
  else
    stopped ← gets ctrl_learn_stop_signal;
    err ← (if (stopped : bool) then mret 0 else ctrl_learn_stop);
    if decide (err <> 0) then mret err
    else
      ext sys_thread_destroy;;
      ext sys_event_destroy;;
      close_pipes;;
      cl_spinlock_destroy;;
      err ← in_db fdb_uc_db_deinit;
      mret (if decide (err <> 0) then - EPERM else 0).

(** ** The thread *)

(** Before the loop: the descriptor of events and its extension, when all is well. *)
Definition thread_start : L (option (Z * Z)) :=
  ok ← ext sys_event_wait;
  stop ← gets ctrl_learn_stop_signal;
  if negb ok || stop then mret None
  else
    br ← gets ctrl_learn_br_id;
    '(st, fd, vs_ext) ← ext (oes_api_event_fd_create 0 0);
    if decide (st <> OES_STATUS_SUCCESS) then mret None
    else
      '(st, vs_ext) ← ext (oes_api_event_register_set OES_ACCESS_CMD_ADD br fd vs_ext);
      if decide (st <> OES_STATUS_SUCCESS) then mret None
      else
        st ← ext (oes_api_fdb_learn_mode_set br true);
        if decide (st <> OES_STATUS_SUCCESS) then mret None
        else
          modify (fun l => set_flags l (is_ctrl_learn_initialized l) true (ctrl_learn_stop_signal l));;
          mret (Some (fd, vs_ext)).

(** The descriptor above all that are waited for. *)
Definition max_fd (fd quit sim : Z) : Z :=
  if decide (fd >= quit /\ fd >= sim) then fd + 1
  else if decide (quit >= fd /\ quit >= sim) then quit + 1
  else sim + 1.

(** The thread is told to end. *)
Definition thread_quit (fd vs_ext : Z) : L unit :=
  quit ← gets quit_ctrl_learn_thread_fd; br ← gets ctrl_learn_br_id;
  ext (sys_read quit.1);;
  '(st, vs_ext) ← ext (oes_api_event_register_set OES_ACCESS_CMD_DELETE br fd vs_ext);
  if decide (st <> OES_STATUS_SUCCESS) then mret tt
  else
    '(st, _, _) ← ext (oes_api_event_fd_destroy fd vs_ext);
    if decide (st <> OES_STATUS_SUCCESS) then mret tt
    else ext (oes_api_fdb_learn_mode_set br false);; mret tt.

(** One turn of the loop: whether it goes on. *)
Definition thread_turn (fd vs_ext : Z) : L bool :=
  quit ← gets quit_ctrl_learn_thread_fd; sim ← gets simulate_oes_event_fd;
  ready ← ext (sys_select (max_fd fd quit.1 sim.1) [quit.1; sim.1; fd]);
  match ready with
  | None => mret false
  | Some fds =>
      if decide (quit.1 ∈ fds) then thread_quit fd vs_ext;; mret false
      else if decide (fd ∈ fds) then
        '(st, event_info, event_recv_vs_ext) ← ext (oes_api_event_recv fd vs_ext);
        if decide (st <> OES_STATUS_SUCCESS) then mret false
        else
          multiple ← gets muliple_fdb_notif_enabled;
          ctrl_learn_handle_oes_event event_info (if decide (multiple = 1) then int32 event_recv_vs_ext else 1);;
          mret true
      else if decide (sim.1 ∈ fds) then
        ext (sys_read sim.1);;
        evs ← gets event_info_sim;
        ctrl_learn_handle_oes_event evs (Z.of_nat (length evs));;
        mret true
      else mret true
  end.

(** ** Test events *)

(** The events entered are the first of the static array, which has no more places
    than the thread takes at once; the code does not compare the count. *)
Definition ctrl_learn_simulate_oes_event (cmd : oes_access_cmd) (mac_entry : option (list addr)) (mac_cnt : Z) : L Z :=
  match mac_entry with
  | None => mret (- EINVAL)
  | Some arr =>
      if decide (mac_cnt = 0) then mret (- EINVAL)
      else
        match cmd with
        | OES_ACCESS_CMD_ADD | OES_ACCESS_CMD_DELETE =>
            entries ← access (first_of mac_cnt arr);
            if negb (forallb (unicast_ok cmd) entries) then mret (- EINVAL)
            else if decide (mac_cnt > Z.of_nat MAX_EVENT_INFO_SIZE) then access None
            else
              modify (fun l => set_sim l (simulated_event cmd <$> entries));;
              sim ← gets simulate_oes_event_fd;
              ok ← ext (sys_write sim.2);
              mret (if (ok : bool) then 0 else - EPERM)
        | _ => mret (- EINVAL)
        end
  end.
End Thread.
