(* ===== verification/CtrlLearnSpec.v ===== *)
(** * Controlled learning over the database

    What the callers of the database in [CtrlLearn.v] need of it: the known
    addresses without their cookies, the steps that add, delete and flush, and the
    order in which flushing visits the records. *)

From stdpp Require Import sorting.
From S2P Require Import Prelude Bytes Comp Qlist Storage FdbFilter FdbLists FdbFilterSpec FdbFilterOps.
From S2P Require Import UcDb UcDbSpec UcDbProps CtrlLearn.

Local Open Scope Z_scope.
Local Open Scope list_scope.

(** ** Known addresses *)

(** What a record says of its address: all but the cookie. *)
Abbreviation known := (gmap Z (mac_addr_params * Z)).
Definition known_of (r : entry_data) : mac_addr_params * Z := (mac_params r, type r).
Definition view (m : records) : known := known_of <$> m.

Definition mac_key (e : mac_addr_params) : Z := FDB_UC_CONVERT_MAC_VLAN_TO_KEY (mac_addr e) (vid e).

(** Addresses within the bounds of the database, on ports of a list. *)
Definition address_ok (ports : list Z) (e : mac_addr_params) : Prop := mac_ok (mac_addr e) /\ params_ok e /\ log_port e ∈ ports.

Definition room_for (k : Z) (v : known) : Prop := is_Some (v !! k) \/ Z.of_nat (size v) < MAX_FDB_ENTRIES.
#[export] Instance room_for_dec k v : Decision (room_for k v).
Proof. unfold room_for. apply _. Defined.

Definition add_known (e : mac_addr_params) (t : Z) (v : known) : known :=
  if decide (room_for (mac_key e) v) then <[mac_key e := (e, t)]> v else v.

(** What flushing the records that match leaves: the others and the static ones. *)
Definition flushed (matches : mac_addr_params -> Prop) `{!forall e, Decision (matches e)} (v : known) : known :=
  filter (fun kr => ~ matches kr.2.1 \/ kr.2.2 = FDB_UC_STATIC) v.

(** ** What is assumed of the outside *)

(** An event's entry is read back as it was written.  As its header says, the
    hardware layer leaves the entries and their count as they are when it succeeds,
    and otherwise puts the entries that failed first and their number in the count. *)
Class LearnEnvLaws (W : Type) {LE : LearnEnv W} := {
  fdb_entry_law e : fdb_entry_of (FdbEntry e) = e;
  hal_law cmd br entries w err entries' cnt w' :
    ctrl_learn_hal_fdb_uc_mac_addr_set cmd br entries w = ((err, entries', cnt), w') ->
    length entries' = length entries /\ 0 <= cnt <= Z.of_nat (length entries) /\
    (err = 0 -> entries' = entries /\ cnt = Z.of_nat (length entries)) /\
    (err <> 0 -> forall p, p ∈ take (Z.to_nat cnt) entries' -> p ∈ entries) }.

(** A callback that does what it is for: it changes decisions. *)
Definition decides_only {W} (f : ctrl_learn_notification_func W) : Prop :=
  forall nd c w err nd' w', f nd c w = ((err, nd'), w') ->
    records_num nd' = records_num nd /\
    Forall2 (fun r r' => r' = set_decision (decision r') r) (records_arr nd) (records_arr nd').

(** ** Items in the order of keys *)

Section Items.
Implicit Types (E : gmap Z ptr).

Definition by_key (x y : Z * ptr) : Prop := x.1 <= y.1.
#[local] Instance by_key_dec x y : Decision (by_key x y).
Proof. unfold by_key. apply _. Defined.
#[local] Instance by_key_trans : Transitive by_key.
Proof. intros x y z. unfold by_key. lia. Qed.
#[local] Instance by_key_total : Total by_key.
Proof. intros x y. unfold by_key. lia. Qed.

(** The items from the least of [R] on. *)
Definition items_from E (R : list (Z * ptr)) : Prop :=
  StronglySorted by_key R /\ NoDup R.*1 /\ (forall k a, (k, a) ∈ R -> E !! k = Some a) /\
  (forall x R', R = x :: R' -> forall k a, E !! k = Some a -> x.1 <= k -> (k, a) ∈ R).

Lemma items_from_all E : exists R, items_from E R /\ R ≡ₚ map_to_list E.
Proof.
  exists (merge_sort by_key (map_to_list E)). pose proof (merge_sort_Permutation by_key (map_to_list E)) as HP. split; [|done].
  split; [exact (StronglySorted_merge_sort by_key _)|]. split; [rewrite HP; apply NoDup_fst_map_to_list|].
  split; intros; [apply elem_of_map_to_list; by rewrite <- HP|]. rewrite HP. by apply elem_of_map_to_list.
Qed.

Lemma items_from_cons E k a R :
  items_from E ((k, a) :: R) -> items_from E R /\ items_from (delete k E) R /\ forall k' b, (k', b) ∈ R -> k < k'.
Proof.
  intros (Hs & Hnd & Hin & Hall). apply StronglySorted_inv in Hs as [Hs Hle]. cbn [fmap list_fmap fst] in Hnd.
  apply NoDup_cons in Hnd as [Hk Hnd].
  assert (Hlt : forall k' b, (k', b) ∈ R -> k < k').
  { intros k' b Hb. rewrite Forall_forall in Hle. pose proof (Hle _ Hb) as Hkb. unfold by_key in Hkb. cbn in Hkb.
    assert (k <> k'); [|lia]. intros <-. apply Hk. by apply (list_elem_of_fmap_2' fst _ _ _ Hb). }
  assert (Hrest : forall x R', R = x :: R' -> forall k' b, E !! k' = Some b -> x.1 <= k' -> (k', b) ∈ R).
  { intros x R' -> k' b Hb Hx. pose proof (Hlt x.1 x.2 ltac:(destruct x; by left)) as Hkx.
    destruct (proj1 (elem_of_cons _ _ _) (Hall _ _ eq_refl k' b Hb ltac:(cbn; lia))) as [[= -> _]|?]; [lia|done]. }
  split; [|split; [|done]].
  - split; [done|]. split; [done|]. split; [|done]. intros k' b Hb. apply Hin. by right.
  - split; [done|]. split; [done|]. split.
    + intros k' b Hb. pose proof (Hlt _ _ Hb). rewrite lookup_delete_ne by lia. apply Hin. by right.
    + intros x R' HR k' b [_ Hb]%lookup_delete_Some. by apply (Hrest x R').
Qed.
End Items.

Section Spec.
Context {M P A W : Type} {OM : OrderedMap M} {OML : OrderedMapLaws M} {OP : ObjectPool P A} {OPL : ObjectPoolLaws P A}
  {EL : EntryLayout} {LE : LearnEnv W}.
Context (vend : nat -> ptr) (U1 U2 : gset ptr).
Context (Hlay : layout vend U1 U2) (Hnull : NULL ∉ U1) (Hcap1 : Z.of_nat (size U1) = MAX_FDB_ENTRIES)
  (Hcap : Z.of_nat (size U2) = MAX_FILTER_ENTRIES).
Context (ports : list Z) (Hports : Z.of_nat (length ports) <= MAX_PORT_ENTRIES).
Abbreviation fdb := (fdb M P A).
Abbreviation learn := (learn M P A W).
Abbreviation L := (comp learn).
Abbreviation rep := (fdb_rep vend U1 U2).
Implicit Types (s : fdb) (l : learn) (v : known) (E g : gmap Z ptr) (O : gset ptr) (m : records) (e : mac_addr_params).

Definition db_is s v : Prop := exists E O m, rep s E O m /\ ports_in ports m /\ view m = v.

(** ** One address *)

Lemma view_lookup m k : view m !! k = known_of <$> m !! k.
Proof. apply lookup_fmap. Qed.

Lemma view_size m : size (view m) = size m.
Proof. apply map_size_fmap. Qed.

Lemma view_insert m k r : view (<[k := r]> m) = <[k := known_of r]> (view m).
Proof. apply fmap_insert. Qed.

Lemma view_delete m k : view (delete k m) = delete k (view m).
Proof. apply fmap_delete. Qed.

Lemma db_is_inited s v : db_is s v -> fdb_initiated s = true.
Proof. intros (E & O & m & H & _). apply H. Qed.

Lemma db_add_spec s v e t c :
  db_is s v -> address_ok ports e ->
  exists s', fdb_uc_db_add_record (Some (EntryData e c t)) s
      = Some (if decide (room_for (mac_key e) v) then 0 else - ENOMEM, s') /\ db_is s' (add_known e t v).
Proof.
  intros (E & O & m & H & Hp & <-) (Hm & Hpar & Hport). set (r := EntryData e c t).
  destruct (step_spec vend U1 U2 Hlay Hnull Hcap1 Hcap ports Hports (Add r) s E O m H Hp) as (s' & E' & O' & Hs & H' & Hp').
  { by split. }
  cbn [step spec_step] in *. change (record_key r) with (mac_key e) in *.
  destruct (fdb_uc_db_add_record (Some r) s) as [[err s1]|]; [|done]. cbn [mbind option_bind] in Hs.
  assert (Hroom : room_for (mac_key e) (view m) <-> is_Some (m !! mac_key e) \/ Z.of_nat (size m) < MAX_FDB_ENTRIES).
  { unfold room_for. by rewrite view_lookup, fmap_is_Some, view_size. }
  unfold add_known. destruct (decide (is_Some (m !! mac_key e) \/ _)) as [Hd|Hd]; cbn [fst snd] in *; injection Hs as -> ->; exists s';
    (split; [by destruct (decide (room_for _ _)); tauto|]); eexists E', O', _; (split; [exact H'|]); (split; [exact Hp'|]).
  - rewrite decide_True by tauto. apply view_insert.
  - by rewrite decide_False by tauto.
Qed.

Lemma db_get_spec s v k :
  db_is s v ->
  exists a, fdb_uc_db_get_record_by_key k s = Some (match v !! k with Some _ => 0 | None => - ENOENT end, a) /\
    match v !! k with Some x => a <> NULL /\ known_of (data s a) = x | None => a = NULL end.
Proof.
  intros (E & O & m & H & Hp & <-). rewrite (get_record_spec vend U1 U2 _ _ _ _ _ H), view_lookup.
  destruct (E !! k) as [a|] eqn:Hk.
  - destruct (rep_lookup vend U1 U2 Hlay Hnull Hcap1 Hcap _ _ _ _ _ _ H Hk) as (-> & _ & _ & Hn). by exists a.
  - rewrite (fr_records _ _ _ _ _ _ _ H), Hk. by exists NULL.
Qed.

(** ** Flushing *)

Definition set_cookie s (a : ptr) (c : ptr) : fdb :=
  UcDb.set_data s a (EntryData (mac_params (data s a)) c (type (data s a))).

Lemma linked_ext (C : lid -> list ptr) O par par' : (forall b, par' b = par b) -> linked C O par -> linked C O par'.
Proof. intros Hp Hl x b. rewrite (Hl x b), Hp. done. Qed.

(** Another cookie changes nothing but the cookie. *)
Lemma rep_cookie s E O m k a c :
  rep s E O m -> E !! k = Some a -> let s' := set_cookie s a c in
  rep s' E O (<[k := data s' a]> m) /\ (forall b, known_of (data s' b) = known_of (data s b)) /\
  (forall g C F, filters_at vend U1 U2 s g C F -> filters_at vend U1 U2 s' g C F).
Proof.
  intros H Hk s'.
  assert (Hkn : forall b, known_of (data s' b) = known_of (data s b)).
  { intros b. unfold s', set_cookie. cbn. unfold upd. by case_decide; subst. }
  assert (Hpar : forall b, mac_params (data s' b) = mac_params (data s b)) by (intros b; by injection (Hkn b)).
  assert (Hf : forall g C F, filters_at vend U1 U2 s g C F -> filters_at vend U1 U2 s' g C F).
  { intros g C F Hf. eapply filters_ext; [..|exact Hf]; try done. apply (fa_rings _ _ _ _ _ _ _ (proj1 Hf)). }
  split; [|done]. pose proof (rep_inj vend U1 U2 _ _ _ _ H) as Hinj.
  assert (Ho : forall b, b <> a -> data s' b = data s b) by (intros b Hb; unfold s'; cbn; by rewrite upd_ne).
  destruct H. constructor; try done.
  - intros k'. destruct (decide (k' = k)) as [->|Hne]; [by rewrite lookup_insert_eq, Hk|].
    rewrite lookup_insert_ne, fr_records by done. destruct (E !! k') as [b|] eqn:Hb; [|done].
    change (Some (data s b) = Some (data s' b)). rewrite Ho; [done|]. intros ->. apply Hne. by eapply Hinj.
  - intros k' b Hb. unfold record_key, record_ok. rewrite Hpar. by apply fr_keys.
  - destruct fr_filters as (g & C & F & Hg & Hl). exists g, C, F. split; [by apply Hf|].
    eapply linked_ext, Hl. intros b. apply Hpar.
Qed.

Lemma view_cookie s E O m k a c :
  rep s E O m -> E !! k = Some a -> view (<[k := data (set_cookie s a c) a]> m) = view m.
Proof.
  intros H Hk. destruct (rep_cookie _ _ _ _ k a c H Hk) as (_ & Hkn & _).
  rewrite view_insert. apply insert_id. rewrite view_lookup, (fr_records _ _ _ _ _ _ _ H), Hk.
  cbn [fmap option_fmap option_map]. by rewrite Hkn.
Qed.

Lemma deinit_record_run l a :
  exists s' w', deinit_record a l = Some (tt, set_world (set_db l s') w') /\ (s' = db l \/ exists c, s' = set_cookie (db l) a c).
Proof.
  unfold deinit_record. cbv [mbind comp_bind gets]. destruct (ctrl_learn_init_deinit_cb l) as [f|].
  - unfold ext. destruct (f COOKIE_OP_DEINIT (cookie (data (db l) a)) (world l)) as [[e c] w].
    exists (set_cookie (db l) a c), w. split; [by destruct l|]. right. by exists c.
  - exists (db l), (world l). split; [by destruct l|by left].
Qed.

Lemma ports_in_view m m' :
  ports_in ports m -> (forall k x, view m' !! k = Some x -> view m !! k = Some x) -> ports_in ports m'.
Proof.
  intros Hp Hsub k r Hr. pose proof (Hsub k (known_of r)) as Hv. rewrite !view_lookup, Hr in Hv. specialize (Hv eq_refl).
  destruct (m !! k) as [r0|] eqn:Hr0; [|done]. injection Hv as Hv _. rewrite <- Hv. by apply (Hp k).
Qed.

(** A record found by its key is deleted, after the callback on its cookie. *)
Lemma delete_by_key_spec l v k :
  db_is (db l) v ->
  exists a, fdb_uc_db_get_record_by_key k (db l) = Some (if decide (is_Some (v !! k)) then 0 else - ENOENT, a) /\
    (v !! k = None -> a = NULL) /\
    (is_Some (v !! k) -> a <> NULL /\
      exists s' w', (deinit_record a;; in_db (fdb_uc_db_delete_record a)) l = Some (0, set_world (set_db l s') w') /\
        db_is s' (delete k v)).
Proof.
  intros (E & O & m & H & Hp & <-). rewrite (get_record_spec vend U1 U2 _ _ _ _ _ H).
  assert (Hv : view m !! k = known_of ∘ data (db l) <$> E !! k).
  { rewrite view_lookup, (fr_records _ _ _ _ _ _ _ H). by destruct (E !! k). }
  rewrite Hv. destruct (E !! k) as [a|] eqn:Hk; cbn [fmap option_fmap option_map].
  2: { exists NULL. split; [done|]. split; [done|]. by intros []. }
  exists a. split; [done|]. split; [done|]. intros _.
  destruct (rep_lookup vend U1 U2 Hlay Hnull Hcap1 Hcap _ _ _ _ _ _ H Hk) as (_ & _ & _ & Hn). split; [done|].
  destruct (deinit_record_run l a) as (s1 & w1 & E1 & Hs1).
  assert (H1 : exists m1, rep s1 E O m1 /\ view m1 = view m).
  { destruct Hs1 as [->|[c ->]]; [by exists m|]. exists (<[k := data (set_cookie (db l) a c) a]> m).
    split; [by apply rep_cookie|by apply (view_cookie _ _ _ _ _ _ _ H)]. }
  destruct H1 as (m1 & H1 & Hv1).
  destruct (delete_record_spec vend U1 U2 Hlay Hnull Hcap1 Hcap _ _ _ _ _ _ H1 Hk) as (s2 & Hd & H2).
  exists s2, w1. split.
  { cbv [mbind comp_bind]. rewrite E1. unfold in_db. change (db (set_world (set_db l s1) w1)) with s1. rewrite Hd. by destruct l. }
  exists (delete k E), (O ∖ {[a]}), (delete k m1). split; [done|]. rewrite view_delete, Hv1. split; [|done].
  apply (ports_in_view m); [done|]. intros k' x. rewrite view_delete, Hv1. by intros [_ ?]%lookup_delete_Some.
Qed.

(** What flushing needs of a traversal: [T] holds of the database and of the records
    still to visit. *)
Record traversal (next : ptr -> fdb -> Z * ptr) (T : fdb -> gmap Z ptr -> gset ptr -> records -> list (Z * ptr) -> Prop) : Prop := {
  tr_rep s E O m R : T s E O m R -> rep s E O m;
  tr_next s E O m k a R : T s E O m ((k, a) :: R) -> E !! k = Some a /\ next a s = (0, default NULL (snd <$> head R));
  tr_skip s E O m x R : T s E O m (x :: R) -> T s E O m R;
  tr_cookie s E O m k a R c : T s E O m ((k, a) :: R) ->
    T (set_cookie s a c) E O (<[k := data (set_cookie s a c) a]> m) ((k, a) :: R);
  tr_delete s E O m k a R : T s E O m ((k, a) :: R) ->
    exists s', fdb_uc_db_delete_record a s = Some (0, s') /\ T s' (delete k E) (O ∖ {[a]}) (delete k m) R }.

Section Flush.
Context (next : ptr -> fdb -> Z * ptr) (T : fdb -> gmap Z ptr -> gset ptr -> records -> list (Z * ptr) -> Prop).
Context (HT : traversal next T).

(** The callback before a record is deleted. *)
Lemma deinit_record_spec l E O m k a R :
  T (db l) E O m ((k, a) :: R) ->
  exists s' w' m', deinit_record a l = Some (tt, set_world (set_db l s') w') /\ T s' E O m' ((k, a) :: R) /\ view m' = view m.
Proof.
  intros H. pose proof (proj1 (tr_next _ _ HT _ _ _ _ _ _ _ H)) as Hk.
  destruct (deinit_record_run l a) as (s' & w' & E1 & [->|[c ->]]); [by exists (db l), w', m|].
  exists (set_cookie (db l) a c), w', (<[k := data (set_cookie (db l) a c) a]> m). split; [done|]. split; [by apply (tr_cookie _ _ HT)|].
  by apply (view_cookie _ _ _ _ _ _ _ (tr_rep _ _ HT _ _ _ _ _ H)).
Qed.

Definition kept (R : list (Z * ptr)) v : known := filter (fun kr => kr.1 ∉ R.*1 \/ kr.2.2 = FDB_UC_STATIC) v.

Lemma kept_nil v : kept [] v = v.
Proof. apply map_filter_id. intros k x _. left. cbn. apply not_elem_of_nil. Qed.

Lemma kept_static k a R v x : v !! k = Some x -> x.2 = FDB_UC_STATIC -> kept R v = kept ((k, a) :: R) v.
Proof.
  intros Hk Hx. apply map_filter_ext. intros k' x' Hx'. cbn. rewrite not_elem_of_cons.
  destruct (decide (k' = k)) as [->|]; [|tauto]. split; intros _; right; congruence.
Qed.

Lemma kept_delete k a R v x : v !! k = Some x -> x.2 <> FDB_UC_STATIC -> kept R (delete k v) = kept ((k, a) :: R) v.
Proof.
  intros Hk Hx. apply map_eq. intros k'. apply option_eq. intros x'. unfold kept. rewrite !map_lookup_filter_Some, lookup_delete_Some. cbn.
  rewrite not_elem_of_cons. split; [naive_solver|]. intros [Hx' Hor].
  assert (k <> k') by (intros <-; naive_solver). naive_solver.
Qed.

Lemma flush_loop_spec R : forall fuel l E O m tmp err,
  T (db l) E O m R -> (length R < fuel)%nat ->
  exists s' w' E' O' m', flush_loop fuel next (default NULL (snd <$> head R)) tmp err l
      = Some (match R with [] => err | _ => 0 end, set_world (set_db l s') w') /\
    T s' E' O' m' [] /\ view m' = kept R (view m).
Proof.
  induction R as [|[k a] R IH]; intros fuel l E O m tmp err H Hf.
  - exists (db l), (world l), E, O, m. rewrite kept_nil. destruct fuel; (split; [by destruct l|done]).
  - destruct fuel as [|fuel]; [lia|]. cbn [length] in Hf. destruct (tr_next _ _ HT _ _ _ _ _ _ _ H) as [Hk Hnx].
    pose proof (tr_rep _ _ HT _ _ _ _ _ H) as Hrep.
    assert (Hn : a <> NULL) by (destruct (rep_lookup vend U1 U2 Hlay Hnull Hcap1 Hcap _ _ _ _ _ _ Hrep Hk) as (_ & _ & _ & ?); done).
    assert (Hv : view m !! k = Some (known_of (data (db l) a))) by (by rewrite view_lookup, (fr_records _ _ _ _ _ _ _ Hrep), Hk).
    cbn [flush_loop head fmap option_fmap option_map snd default from_option id]. rewrite decide_False by done.
    cbv [mbind comp_bind gets]. rewrite Hnx. cbn beta iota. rewrite (decide_True (P := 0 = 0)) by done.
    destruct (decide (type (data (db l) a) <> FDB_UC_STATIC)) as [Hst|Hst].
    + destruct (deinit_record_spec l E O m k a R H) as (s1 & w1 & m1 & -> & H1 & Hv1).
      destruct (tr_delete _ _ HT _ _ _ _ _ _ _ H1) as (s2 & Hdel & H2). unfold in_db.
      change (db (set_world (set_db l s1) w1)) with s1. rewrite Hdel. cbn beta iota.
      set (l2 := set_db (set_world (set_db l s1) w1) s2).
      destruct (IH fuel l2 _ _ _ (default NULL (snd <$> head R)) 0 H2 ltac:(lia)) as (s' & w' & E' & O' & m' & E1 & H' & Hv').
      exists s', w', E', O', m'. split; [|split; [done|]].
      * etransitivity; [exact E1|]. by destruct R.
      * rewrite Hv', view_delete, Hv1. by apply (kept_delete _ _ _ _ (known_of (data (db l) a))).
    + cbn. destruct (IH fuel l E O m (default NULL (snd <$> head R)) 0 (tr_skip _ _ HT _ _ _ _ _ _ H) ltac:(lia))
        as (s' & w' & E' & O' & m' & E1 & H' & Hv').
      exists s', w', E', O', m'. split; [|split; [done|]].
      * etransitivity; [exact E1|]. by destruct R.
      * rewrite Hv'. apply (kept_static _ _ _ _ (known_of (data (db l) a))); [done|]. cbn.
        destruct (decide (type (data (db l) a) = FDB_UC_STATIC)); tauto.
Qed.
End Flush.

(** *** In the order of keys *)

Lemma next_of_items s E O m k a R :
  rep s E O m -> items_from E ((k, a) :: R) -> fdb_uc_db_next_record a s = (0, default NULL (snd <$> head R)).
Proof.
  intros H HR. pose proof HR as (_ & _ & Hin & Hall). pose proof (Hin k a (ltac:(by left))) as Hk.
  destruct (items_from_cons _ _ _ _ HR) as (_ & _ & Hlt).
  destruct (rep_lookup vend U1 U2 Hlay Hnull Hcap1 Hcap _ _ _ _ _ _ H Hk) as (_ & _ & _ & Hn).
  unfold fdb_uc_db_next_record. rewrite (fr_init _ _ _ _ _ _ _ H). cbn [negb]. rewrite decide_False by done.
  destruct (map_next_law _ _ _ _ (fr_map _ _ _ _ _ _ _ H) Hk) as [[-> Hno]|(k' & Hk' & Hkk & Hleast)].
  - rewrite decide_True by done. destruct R as [|[k2 b] R]; [done|]. exfalso.
    apply (Hno k2 b); [apply Hin; right; by left|]. apply (Hlt k2 b). by left.
  - destruct (map_item_law _ _ _ _ (fr_map _ _ _ _ _ _ _ H) Hk') as [He _]. rewrite decide_False by done.
    assert (Hin' : (k', om_next a (fdb_map s)) ∈ R).
    { destruct (proj1 (elem_of_cons _ _ _) (Hall _ _ eq_refl k' _ Hk' ltac:(cbn; lia))) as [[= -> _]|?]; [lia|done]. }
    destruct R as [|[k2 b] R]; [by apply elem_of_nil in Hin'|]. cbn. f_equal.
    assert (Hb : E !! k2 = Some b) by (apply Hin; right; by left).
    pose proof (Hleast k2 b Hb (Hlt k2 b (ltac:(by left)))) as Hle.
    destruct (items_from_cons _ _ _ _ (proj1 (items_from_cons _ _ _ _ HR))) as (_ & _ & Hlt').
    apply elem_of_cons in Hin' as [[= -> ->]|Hin']; [done|]. pose proof (Hlt' _ _ Hin'). lia.
Qed.

Lemma first_of_items s E O m R :
  rep s E O m -> items_from E R -> R ≡ₚ map_to_list E -> fdb_uc_db_get_first_record s = (0, default NULL (snd <$> head R)).
Proof.
  intros H HR HP. unfold fdb_uc_db_get_first_record. rewrite (fr_init _ _ _ _ _ _ _ H). cbn [negb].
  assert (Hall : forall k a, E !! k = Some a <-> (k, a) ∈ R) by (intros; by rewrite HP, elem_of_map_to_list).
  destruct (map_head_law _ _ (fr_map _ _ _ _ _ _ _ H)) as [[-> Hno]|(k & Hk & _ & Hleast)].
  - rewrite decide_False by (intros []; done). destruct R as [|[k b] R]; [done|]. exfalso.
    apply (Hno k b); [|done]. apply Hall. by left.
  - destruct (map_item_law _ _ _ _ (fr_map _ _ _ _ _ _ _ H) Hk) as [He _]. rewrite decide_True by done.
    pose proof (proj1 (Hall _ _) Hk) as Hin. destruct R as [|[k2 b] R]; [by apply elem_of_nil in Hin|]. cbn. f_equal.
    destruct (items_from_cons _ _ _ _ HR) as (_ & _ & Hlt).
    pose proof (Hleast k2 b (proj2 (Hall _ _) (ltac:(by left))) I) as Hle.
    apply elem_of_cons in Hin as [[= -> ->]|Hin]; [done|]. pose proof (Hlt _ _ Hin). lia.
Qed.

Lemma ordered_traversal :
  traversal fdb_uc_db_next_record (fun s E O m R => rep s E O m /\ items_from E R).
Proof.
  split.
  - by intros s E O m R [H _].
  - intros s E O m k a R [H HR]. split; [apply HR; by left|by eapply next_of_items].
  - intros s E O m [k a] R [H HR]. split; [done|by destruct (items_from_cons _ _ _ _ HR) as (? & ? & _)].
  - intros s E O m k a R c [H HR]. split; [|done]. apply rep_cookie; [done|]. apply HR. by left.
  - intros s E O m k a R [H HR]. assert (Hk : E !! k = Some a) by (apply HR; by left).
    destruct (delete_record_spec vend U1 U2 Hlay Hnull Hcap1 Hcap _ _ _ _ _ _ H Hk) as (s' & Hd & H').
    exists s'. split; [done|]. split; [done|by destruct (items_from_cons _ _ _ _ HR) as (? & ? & _)].
Qed.

(** *** By a filter *)

Definition items_listed (f : fdb_uc_key_filter) (list_cookie : ptr) s E O (R : list (Z * ptr)) : Prop :=
  Forall (fun x => E !! x.1 = Some x.2) R /\
  exists g C F done, filters_at vend U1 U2 s g C F /\ linked C O (params s) /\ C (filter_list f) = done ++ R.*2 /\
    (R <> [] -> addr vend (endp g (filter_list f)) = list_cookie).

Lemma endp_subseteq g g' x : g' ⊆ g -> active g' x -> endp g' x = endp g x.
Proof. destruct x as [v|k]; [done|]. intros Hg [f Hf]. cbn. by rewrite Hf, (lookup_weaken _ _ _ _ Hf Hg). Qed.

Lemma filter_traversal f list_cookie :
  filter_ok f ->
  traversal (fdb_uc_db_get_next_record_by_filter (Some f) list_cookie)
    (fun s E O m R => rep s E O m /\ items_listed f list_cookie s E O R).
Proof.
  intros Hf. split.
  - by intros s E O m R [H _].
  - intros s E O m k a R (H & HE & g & C & F & dn & Hfa & Hl & HC & He). apply Forall_cons in HE as [Hk HE]. split; [done|].
    unfold fdb_uc_db_get_next_record_by_filter. rewrite <- He by done.
    rewrite (next_entry_spec vend U1 U2 Hlay Hnull Hcap s g C F f dn a R.*2 Hfa Hf HC). by destruct R.
  - intros s E O m x R (H & HE & g & C & F & dn & Hfa & Hl & HC & He). split; [done|]. apply Forall_cons in HE as [_ HE].
    split; [done|]. exists g, C, F, (dn ++ [x.2]). split_and!; [done|done|by rewrite <- (assoc_L (++))|]. intros _. by apply He.
  - intros s E O m k a R c (H & HE & g & C & F & dn & Hfa & Hl & HC & He). pose proof HE as [Hk _]%Forall_cons.
    destruct (rep_cookie _ _ _ _ k a c H Hk) as (H' & Hkn & Hf'). split; [done|]. split; [done|].
    exists g, C, F, dn. split; [by apply Hf'|]. split; [|done]. eapply linked_ext, Hl. intros b. unfold params. by injection (Hkn b).
  - intros s E O m k a R (H & HE & g & C & F & dn & Hfa & Hl & HC & He). apply Forall_cons in HE as [Hk HE].
    destruct (delete_record_lists vend U1 U2 Hlay Hnull Hcap1 Hcap _ _ _ _ _ _ _ _ _ H Hk Hfa Hl)
      as (s' & g' & C' & F' & Hd & H' & Hda & Hfa' & Hl' & Hg & Hw). exists s'. split; [done|]. split; [done|].
    pose proof (lists_nodup vend U1 U2 _ _ _ _ (filter_list f) Hfa) as Hnd. rewrite HC in Hnd. cbn [fmap list_fmap snd] in Hnd.
    assert (Hfilt : forall X : list ptr, a ∉ X -> filter (fun b => b <> a) X = X).
    { induction X as [|x X IH]; [done|]. intros [? ?]%not_elem_of_cons. rewrite filter_cons_True by done. by rewrite IH. }
    assert (HC' : C' (filter_list f) = dn ++ R.*2).
    { rewrite <- (Hfilt (C' _)) by (by intros [[_ ?%not_elem_of_singleton]%elem_of_difference _]%Hl').
      rewrite Hw, HC, filter_app. cbn [fmap list_fmap snd]. rewrite filter_cons_False by naive_solver.
      rewrite <- Permutation_middle in Hnd. apply NoDup_cons in Hnd as [Hn _]. apply not_elem_of_app in Hn as [? ?]. by rewrite !Hfilt. }
    split.
    + rewrite Forall_forall in *. intros x Hx. rewrite lookup_delete_ne; [by apply HE|]. intros Hkx. cbn in Hkx, Hk.
      rewrite <- Permutation_middle in Hnd. apply NoDup_cons in Hnd as [Hn _]. apply Hn. apply elem_of_app. right.
      apply list_elem_of_fmap. exists x. split; [|done]. pose proof (HE _ Hx) as Hx'. cbn in Hx'. congruence.
    + exists g', C', F', dn. split_and!; [done|done|done|]. intros HR. rewrite <- He by done. f_equal. apply endp_subseteq; [done|].
      apply (lo_active _ _ _ _ (fa_ok _ _ _ _ _ _ _ (proj1 Hfa'))). rewrite HC'. by destruct dn, R.
Qed.

(** *** The two flushes *)

Lemma flush_from_spec next T l E O m R :
  traversal next T -> T (db l) E O m R -> NoDup R.*2 -> Forall (fun x => E !! x.1 = Some x.2) R -> ports_in ports m ->
  exists s' w', flush_from next (default NULL (snd <$> head R)) l = Some (0, set_world (set_db l s') w') /\
    db_is s' (kept R (view m)).
Proof.
  intros HT H Hnd HE Hp. pose proof (tr_rep _ _ HT _ _ _ _ _ H) as Hrep.
  assert (Hlen : (length R <= size E)%nat).
  { rewrite <- (length_fmap snd), <- (size_list_to_set (C:=gset Z) R.*2) by done.
    rewrite <- (items_size E O (rep_inj vend U1 U2 _ _ _ _ Hrep) (fr_items _ _ _ _ _ _ _ Hrep)).
    apply subseteq_size. intros a. rewrite elem_of_list_to_set, list_elem_of_fmap. intros ([k b] & -> & Hx).
    rewrite Forall_forall in HE. apply (fr_items _ _ _ _ _ _ _ Hrep). exists k. by apply (HE _ Hx). }
  destruct (rep_size vend U1 U2 _ _ _ _ Hrep) as [_ HsE].
  pose proof (rep_bound vend U1 U2 Hcap1 _ _ _ _ Hrep) as Hb. unfold MAX_FDB_ENTRIES in Hb.
  unfold flush_from. cbv [mbind comp_bind gets].
  rewrite (map_count_law _ _ (fr_map _ _ _ _ _ _ _ Hrep)), Nat2Z.id by lia.
  destruct (flush_loop_spec next T HT R (S (size E)) l E O m NULL 0 H ltac:(lia)) as (s' & w' & E' & O' & m' & E1 & H' & Hv).
  exists s', w'. split; [rewrite E1; by destruct R|]. exists E', O', m'. split; [by apply (tr_rep _ _ HT _ _ _ _ _ H')|].
  split; [|done]. apply (ports_in_view m); [done|]. intros k x. rewrite Hv. unfold kept. rewrite map_lookup_filter_Some. tauto.
Qed.

Lemma kept_flushed (matches : mac_addr_params -> Prop) `{!forall e, Decision (matches e)} R v :
  (forall k x, v !! k = Some x -> k ∈ R.*1 <-> matches x.1) -> kept R v = flushed matches v.
Proof. intros Hm. apply map_filter_ext. intros k x Hk. cbn. by rewrite (Hm k x Hk). Qed.

Lemma lock_run l : fdb_lock_held l = false -> cl_spinlock_acquire l = Some (tt, set_lock l true).
Proof. intros Hl. unfold cl_spinlock_acquire. cbv [mbind comp_bind gets]. by rewrite Hl. Qed.

Lemma unlock_run l s w :
  fdb_lock_held l = false -> cl_spinlock_release (set_world (set_db (set_lock l true) s) w) = Some (tt, set_world (set_db l s) w).
Proof. intros Hl. destruct l. cbn in Hl. by subst. Qed.

Lemma flush_all_spec l v :
  db_is (db l) v -> fdb_lock_held l = false ->
  exists s' w', ctrl_learn_handle_flush_all l = Some (0, set_world (set_db l s') w') /\ db_is s' (flushed (fun _ => True) v).
Proof.
  intros (E & O & m & H & Hp & <-) Hl. unfold ctrl_learn_handle_flush_all. destruct (items_from_all E) as (R & HR & HP).
  cbv [mbind comp_bind gets]. rewrite (lock_run _ Hl). cbn beta iota. cbn [db set_lock].
  rewrite (first_of_items _ _ _ _ _ H HR HP). rewrite decide_False by lia.
  assert (Hin : forall k a, (k, a) ∈ R <-> E !! k = Some a) by (intros; by rewrite HP, elem_of_map_to_list).
  destruct (flush_from_spec fdb_uc_db_next_record _ (set_lock l true) E O m R ordered_traversal) as (s' & w' & -> & Hs'); [done| | |done|].
  - rewrite HP. apply NoDup_fmap_2_strong; [|apply NoDup_map_to_list]. intros [k a] [k' b] Ha Hb Hab. cbn in Hab. subst b.
    apply elem_of_map_to_list in Ha, Hb. by rewrite (rep_inj vend U1 U2 _ _ _ _ H _ _ _ Ha Hb).
  - apply Forall_forall. intros [k a] Hx. by apply Hin.
  - cbn beta iota. rewrite unlock_run by done. exists s', w'. split; [done|].
    assert (Heq : kept R (view m) = flushed (fun _ => True) (view m)); [|by rewrite <- Heq].
    apply kept_flushed. intros k x Hx. split; [done|]. intros _. rewrite view_lookup, (fr_records _ _ _ _ _ _ _ H) in Hx.
    destruct (E !! k) as [a|] eqn:Ha; [|done]. by apply (list_elem_of_fmap_2' fst _ (k, a)); [apply Hin|].
Qed.

#[export] Instance filter_matches_dec f e : Decision (filter_matches f e).
Proof. unfold filter_matches. apply _. Defined.

(** The records a filter selects, from the first on. *)
Lemma filter_first_spec f s E O m :
  rep s E O m -> filter_ok f ->
  exists R ck, fdb_uc_db_get_first_record_by_filter (Some f) s = Some (0, ck, default NULL (snd <$> head R)) /\
    (rep s E O m /\ items_listed f ck s E O R) /\ NoDup R.*2 /\
    forall k x, view m !! k = Some x -> k ∈ R.*1 <-> filter_matches f x.1.
Proof.
  intros H Hf. destruct (fr_filters _ _ _ _ _ _ _ H) as (g & C & F & Hfa & Hli).
  assert (Hkeys : exists R, R.*2 = C (filter_list f) /\ Forall (fun x => E !! x.1 = Some x.2) R).
  { assert (Ha : Forall (fun a => exists k, E !! k = Some a) (C (filter_list f))).
    { apply Forall_forall. intros a [Ha _]%Hli. by apply (fr_items _ _ _ _ _ _ _ H). }
    induction Ha as [|a X [k Hk] _ (R & HR & HE)]; [by exists []|]. exists ((k, a) :: R). split; [cbn; by rewrite HR|]. by constructor. }
  destruct Hkeys as (R & HR & HE). set (ck := match R with [] => NULL | _ :: _ => addr vend (endp g (filter_list f)) end).
  exists R, ck. split; [|split; [|split]].
  - unfold fdb_uc_db_get_first_record_by_filter.
    rewrite (first_entry_spec vend U1 U2 s g C F f Hfa Hf) by (rewrite Hcap1; unfold MAX_FDB_ENTRIES; lia).
    unfold ck. rewrite <- HR. by destruct R as [|[k a] R].
  - split; [done|]. split; [done|]. exists g, C, F, []. split_and!; [done|done|by rewrite HR|]. unfold ck. by destruct R.
  - rewrite HR. by apply (lists_nodup vend U1 U2 s g C F).
  - intros k x Hx. rewrite view_lookup, (fr_records _ _ _ _ _ _ _ H) in Hx.
    destruct (E !! k) as [a|] eqn:Ha; [|done]. injection Hx as <-. cbn.
    destruct (fr_keys _ _ _ _ _ _ _ H _ _ Ha) as [_ [_ Hok]]. rewrite Forall_forall in HE.
    rewrite <- (filter_list_matches U2 f _ Hf Hok). rewrite list_elem_of_fmap. split.
    + intros ([k' b] & -> & Hx). pose proof (HE _ Hx) as Hb. cbn in Hb, Ha. assert (b = a) as -> by congruence.
      enough (Hin : a ∈ C (filter_list f)) by (apply Hli in Hin as [_ ?]; done). rewrite <- HR. by apply (list_elem_of_fmap_2' snd _ (k', a)).
    + intros Hi. assert (Hin : a ∈ C (filter_list f)) by (apply Hli; split; [apply (fr_items _ _ _ _ _ _ _ H); eauto|done]).
      rewrite <- HR in Hin. apply list_elem_of_fmap in Hin as ([k' b] & -> & Hx). exists (k', b). split; [|done].
      pose proof (HE _ Hx) as Hb. by apply (rep_inj vend U1 U2 _ _ _ _ H _ _ b).
Qed.

Lemma flush_filter_spec f l v :
  db_is (db l) v -> fdb_lock_held l = false -> filter_ok f ->
  exists s' w', ctrl_learn_flush_db_by_filter f l = Some (0, set_world (set_db l s') w') /\ db_is s' (flushed (filter_matches f) v).
Proof.
  intros (E & O & m & H & Hp & <-) Hl Hf. unfold ctrl_learn_flush_db_by_filter.
  destruct (filter_first_spec f _ _ _ _ H Hf) as (R & ck & E1 & HT & Hnd & Hm).
  cbv [mbind comp_bind gets]. rewrite (lock_run _ Hl). cbn beta iota. unfold ask. cbv [mbind comp_bind gets]. cbn [db set_lock].
  rewrite E1. cbv [access]. cbn beta iota. rewrite decide_False by lia.
  destruct (flush_from_spec _ _ (set_lock l true) E O m R (filter_traversal f ck Hf)) as (s' & w' & -> & Hs'); [done|done|apply HT|done|].
  cbn beta iota. rewrite unlock_run by done. exists s', w'. split; [done|].
  assert (Heq : kept R (view m) = flushed (filter_matches f) (view m)); [|by rewrite <- Heq]. by apply kept_flushed.
Qed.
End Spec.
