(* ===== verification/CtrlLearnNotify.v ===== *)
(** * Decisions on notifications in controlled learning

    Addresses of any kind are noted in records; the code approves all of them, takes
    back those for which there is no room, and asks the client's callback.  What
    the records say of the addresses stays, and the decisions choose among them. *)

From S2P Require Import Prelude Bytes Comp Qlist Storage FdbFilter FdbLists FdbFilterSpec FdbFilterOps.
From S2P Require Import UcDb UcDbSpec UcDbProps CtrlLearn CtrlLearnSpec.

Local Open Scope Z_scope.
Local Open Scope list_scope.

(** ** The decisions *)

(** The elements at the places that are chosen. *)
Fixpoint chosen {X} (ds : list bool) (xs : list X) : list X :=
  match ds, xs with
  | d :: ds, x :: xs => if (d : bool) then x :: chosen ds xs else chosen ds xs
  | _, _ => []
  end.

(** As long as there is room for the addresses learned; those aged need none. *)
Fixpoint capacity (free processed : Z) (ts : list oes_fdb_event_type) : list bool :=
  match ts with
  | [] => []
  | t :: ts =>
      if decide (t = OES_FDB_EVENT_LEARN) then bool_decide (processed < free) :: capacity free (processed + 1) ts
      else true :: capacity free processed ts
  end.

Definition approves (r : ctrl_learn_fdb_notify_record) : bool := bool_decide (decision r = CTRL_LEARN_NOTIFY_DECISION_APPROVE).

Lemma chosen_sublist {X} (ds : list bool) (xs : list X) : chosen ds xs `sublist_of` xs.
Proof.
  revert xs. induction ds as [|d ds IH]; intros [|x xs]; cbn; [constructor|apply sublist_nil_l|constructor|].
  destruct d; by constructor.
Qed.

Lemma chosen_records (rs : list ctrl_learn_fdb_notify_record) : filterb approves rs = chosen (approves <$> rs) rs.
Proof. induction rs as [|r rs IH]; [done|]. rewrite filterb_cons. cbn. by destruct (approves r); rewrite IH. Qed.

Lemma capacity_all free ts : forall processed, processed + Z.of_nat (length ts) <= free -> capacity free processed ts = replicate (length ts) true.
Proof.
  induction ts as [|t ts IH]; intros processed Hf; [done|]. cbn [length] in Hf. cbn [capacity length replicate].
  case_decide; rewrite IH by lia; [|done]. by rewrite bool_decide_true by lia.
Qed.

(** Of addresses learned, the first are approved. *)
Lemma capacity_learned {X} free ts (xs : list X) : forall processed,
  length ts = length xs -> Forall (fun t => t = OES_FDB_EVENT_LEARN) ts -> 0 <= processed ->
  chosen (capacity free processed ts) xs = take (Z.to_nat (free - processed)) xs.
Proof.
  revert xs. induction ts as [|t ts IH]; intros [|x xs] processed Hl Ht H0; try done; [by rewrite take_nil|].
  apply Forall_cons in Ht as [-> Ht]. injection Hl as Hl. cbn [capacity]. rewrite decide_True by done. cbn [chosen].
  rewrite IH by (done || lia). destruct (decide (processed < free)).
  - rewrite bool_decide_true by done. replace (Z.to_nat (free - processed)) with (S (Z.to_nat (free - (processed + 1)))) by lia. done.
  - rewrite bool_decide_false by done. by replace (Z.to_nat (free - (processed + 1))) with 0%nat by lia;
      replace (Z.to_nat (free - processed)) with 0%nat by lia.
Qed.

Lemma take_S_alter {X} (f : X -> X) i x (arr : list X) : arr !! i = Some x -> take (S i) (alter f i arr) = take i arr ++ [f x].
Proof.
  intros Hx. pose proof (lookup_lt_Some _ _ _ Hx). rewrite (take_S_r _ _ (f x)); [|by rewrite list_lookup_alter_eq, Hx].
  by rewrite take_alter_ge by lia.
Qed.

Lemma first_of_run {X} (n : nat) (xs : list X) : (n <= length xs)%nat -> first_of (Z.of_nat n) xs = Some (take n xs).
Proof. intros Hn. unfold first_of. by rewrite decide_True, Nat2Z.id by lia. Qed.

(** The result of a computation in the goal, up to conversion. *)
Ltac run_by E :=
  match type of E with ?x = ?r =>
    match goal with |- context [match ?y with Some _ => _ | None => None end] =>
      unify x y; replace y with r by (symmetry; exact E)
    end
  end; cbn beta iota.

Section Noted.
Context {M P A W : Type} {OM : OrderedMap M} {OML : OrderedMapLaws M} {OP : ObjectPool P A} {OPL : ObjectPoolLaws P A}
  {EL : EntryLayout} {LE : LearnEnv W}.
Abbreviation learn := (learn M P A W).
Abbreviation L := (comp learn).
Implicit Types (l : learn) (v : known).

(** A call that has a result, of which the database and the outside are new. *)
Lemma then_run {X Y} (c : L X) (k : X -> L Y) l x s w :
  c l = Some (x, set_world (set_db l s) w) -> (c ≫= k) l = k x (set_world (set_db l s) w).
Proof. intros E. cbv [mbind comp_bind]. by rewrite E. Qed.

(** What a record notes of an item, whatever is decided. *)
Context {X : Type} (noted : X -> ctrl_learn_fdb_notify_record -> Prop) (kind : X -> oes_fdb_event_type).
Context (noted_decision : forall x r d, noted x r -> noted x (set_decision d r))
  (noted_kind : forall x r, noted x r -> event_type r = kind x).
Implicit Types (b : list X).

Lemma deny_rest_notes free b rs : forall processed,
  Forall2 noted b rs -> Forall (fun r => approves r = true) rs -> 0 <= processed -> processed + Z.of_nat (length rs) < 2 ^ 32 ->
  Forall2 noted b (deny_rest free processed rs) /\ approves <$> deny_rest free processed rs = capacity free processed (kind <$> b).
Proof.
  intros processed H. revert processed. induction H as [|x r b rs Hx _ IH]; intros processed Ha H0 Hb; [done|].
  apply Forall_cons in Ha as [Hr Ha]. cbn [length] in Hb. cbn [deny_rest fmap list_fmap capacity]. rewrite (noted_kind _ _ Hx).
  destruct (decide (kind x = OES_FDB_EVENT_LEARN)) as [E|E].
  - rewrite wrap_small by lia. destruct (IH (processed + 1) Ha ltac:(lia) ltac:(lia)) as [H1 H2]. split.
    + constructor; [|done]. case_decide; auto.
    + cbn [fmap list_fmap]. rewrite H2. f_equal. case_decide; [by rewrite bool_decide_false by lia|].
      by rewrite bool_decide_true by lia.
  - destruct (IH processed Ha ltac:(lia) ltac:(lia)) as [H1 H2]. split; [by constructor|]. cbn [fmap list_fmap]. by rewrite H2, Hr.
Qed.

Lemma decides_notes b rs rs' :
  Forall2 noted b rs -> Forall2 (fun r r' => r' = set_decision (decision r') r) rs rs' -> Forall2 noted b rs'.
Proof.
  intros H. revert rs'. induction H as [|x r b rs Hx _ IH]; intros rs' H'; inversion H' as [|? r' ? ? Hr Hrs]; subst; constructor; [|auto].
  rewrite Hr. by apply noted_decision.
Qed.

(** The callback, if there is one, changes decisions only. *)
Lemma notify_spec l nd b originator :
  (forall f, ctrl_learn_notification_cb l = Some f -> decides_only f) ->
  length (records_arr nd) = MAX_EVENT_INFO_SIZE -> records_num nd = Z.of_nat (length b) -> (length b <= MAX_EVENT_INFO_SIZE)%nat ->
  Forall2 noted b (take (length b) (records_arr nd)) ->
  exists err nd' w rs, match ctrl_learn_notification_cb l with Some f => ext (f nd originator) | None => mret (0, nd) end l
      = Some ((err, nd'), set_world l w) /\
    first_of (int32 (records_num nd')) (records_arr nd') = Some rs /\ Forall2 noted b rs /\
    (ctrl_learn_notification_cb l = None -> err = 0 /\ rs = take (length b) (records_arr nd)).
Proof.
  intros Hcb Hl Hn Hlen Hnotes.
  assert (Hfirst : forall nd', records_num nd' = Z.of_nat (length b) -> length (records_arr nd') = MAX_EVENT_INFO_SIZE ->
    first_of (int32 (records_num nd')) (records_arr nd') = Some (take (length b) (records_arr nd'))).
  { intros nd' -> Hl'. unfold MAX_EVENT_INFO_SIZE, CTRL_LEARN_FDB_NOTIFY_SIZE_MAX in *.
    rewrite int32_small by lia. apply first_of_run. lia. }
  destruct (ctrl_learn_notification_cb l) as [f|] eqn:Hf.
  - unfold ext. destruct (f nd originator (world l)) as [[err nd'] w] eqn:E. destruct (Hcb f eq_refl _ _ _ _ _ _ E) as [Hn' Hrec].
    assert (Hl' : length (records_arr nd') = MAX_EVENT_INFO_SIZE) by (rewrite <- Hl; symmetry; by eapply Forall2_length).
    exists err, nd', w, (take (length b) (records_arr nd')). split; [done|]. split; [apply Hfirst; congruence|]. split; [|done].
    eapply decides_notes; [exact Hnotes|]. by apply Forall2_take.
  - exists 0, nd, (world l), (take (length b) (records_arr nd)). split; [by destruct l|]. by rewrite Hfirst.
Qed.
Context (vend : nat -> ptr) (U1 U2 : gset ptr).
Context (Hcap1 : Z.of_nat (size U1) = MAX_FDB_ENTRIES) (ports : list Z).
Abbreviation db_is := (db_is vend U1 U2 ports).

Lemma db_free_spec s v :
  db_is s v -> fdb_uc_db_get_free_pool_count s = (0, MAX_FDB_ENTRIES - Z.of_nat (size v)) /\ Z.of_nat (size v) <= MAX_FDB_ENTRIES.
Proof.
  intros (E & O & m & H & _ & <-). rewrite view_size. unfold fdb_uc_db_get_free_pool_count. rewrite (fr_init _ _ _ _ _ _ _ H). cbn [negb].
  destruct (fr_pool _ _ _ _ _ _ _ H) as (F & Hp & HU). pose proof (rep_free vend U1 U2 Hcap1 _ _ _ _ _ H Hp HU) as HF.
  rewrite (pool_count_law _ _ _ Hp), HF, wrap_small; [split; [done|lia]|]. unfold MAX_FDB_ENTRIES in *. lia.
Qed.

(** All are approved, and then as many as there is room for. *)
Lemma decide_spec l v b arr0 :
  db_is (db l) v -> length arr0 = MAX_EVENT_INFO_SIZE -> Forall2 noted b (take (length b) arr0) ->
  (length b <= MAX_EVENT_INFO_SIZE)%nat -> let n := Z.of_nat (length b) in
  exists arr, (arr ← approve_first n arr0; update_approved_list (NotifyData n arr)) l = Some ((0, NotifyData n arr), l) /\
    length arr = MAX_EVENT_INFO_SIZE /\ Forall2 noted b (take (length b) arr) /\
    approves <$> take (length b) arr = capacity (MAX_FDB_ENTRIES - Z.of_nat (size v)) 0 (kind <$> b).
Proof.
  intros Hd Hl Hn Hlen n. destruct (db_free_spec _ _ Hd) as [Hfree Hsz].
  unfold approve_first, on_first, n. rewrite first_of_run by lia. cbv [mbind comp_bind option_bind access]. rewrite Nat2Z.id.
  set (rs := set_decision CTRL_LEARN_NOTIFY_DECISION_APPROVE <$> take (length b) arr0).
  assert (Hrs : length rs = length b) by (unfold rs; rewrite length_fmap, length_take; lia).
  assert (Hnotes : Forall2 noted b rs).
  { unfold rs. apply Forall2_fmap_r. eapply Forall2_impl; [exact Hn|]. intros x r Hr. by apply noted_decision. }
  assert (Happ : Forall (fun r => approves r = true) rs) by (unfold rs; apply Forall_fmap, Forall_true; by intros r).
  unfold update_approved_list. cbv [mbind comp_bind gets access records_num records_arr]. rewrite Hfree.
  rewrite decide_False by lia.
  assert (Htake : forall xs, length xs = length b -> take (length b) (xs ++ drop (length b) arr0) = xs).
  { intros xs HX. by rewrite take_app_length'. }
  assert (Hlen' : forall xs : list ctrl_learn_fdb_notify_record, length xs = length b ->
    length (xs ++ drop (length b) arr0) = MAX_EVENT_INFO_SIZE).
  { intros xs HX. rewrite length_app, length_drop. lia. }
  case_decide as Hcnt.
  - unfold on_first. rewrite first_of_run by (rewrite Hlen'; done). cbv [mbind option_bind]. rewrite Nat2Z.id, (Htake rs Hrs).
    destruct (deny_rest_notes (MAX_FDB_ENTRIES - Z.of_nat (size v)) b rs 0 Hnotes Happ) as [H1 H2];
      [lia|unfold MAX_EVENT_INFO_SIZE, CTRL_LEARN_FDB_NOTIFY_SIZE_MAX in *; lia|].
    set (ds := deny_rest _ 0 rs) in *. assert (Hds : length ds = length b) by (symmetry; by eapply Forall2_length).
    rewrite drop_app_length' by done. exists (ds ++ drop (length b) arr0). rewrite Htake, Hlen' by done. done.
  - exists (rs ++ drop (length b) arr0). rewrite Htake, Hlen' by done. split_and!; [done..|].
    rewrite capacity_all by (rewrite length_fmap; lia). rewrite length_fmap, <- Hrs.
    clear -Happ. induction Happ as [|r rs Hr _ IH]; [done|]. cbn. by rewrite Hr, IH.
Qed.

End Noted.
