(* ===== verification/CtrlLearnEvents.v ===== *)
(** * Events of the switch

    What handling a batch of events does to the known addresses: the flushes in
    order, then the approved addresses, all with the command of the last one. *)

From S2P Require Import Prelude Bytes Comp Qlist Storage FdbFilter FdbLists FdbFilterSpec FdbFilterOps.
From S2P Require Import UcDb UcDbSpec UcDbProps CtrlLearn CtrlLearnSpec CtrlLearnNotify.

Local Open Scope Z_scope.
Local Open Scope list_scope.

(** ** The batch *)

Section Batch.
Context {W : Type} {LE : LearnEnv W}.

Definition event_entry (ev : oes_event_fdb) : mac_addr_params := fdb_entry_of (event_data ev).

(** The addresses learned or aged, in order. *)
Definition noted_of (ev : oes_event_fdb) : option (oes_fdb_event_type * mac_addr_params) :=
  match fbd_event_type ev with
  | OES_FDB_EVENT_LEARN => Some (OES_FDB_EVENT_LEARN, event_entry ev)
  | OES_FDB_EVENT_AGE => Some (OES_FDB_EVENT_AGE, event_entry ev)
  | _ => None
  end.
Definition batch_of (evs : list oes_event_fdb) : list (oes_fdb_event_type * mac_addr_params) := omap noted_of evs.

(** The command of the last one. *)
Definition cmd_of (t : oes_fdb_event_type) : oes_access_cmd :=
  if decide (t = OES_FDB_EVENT_LEARN) then OES_ACCESS_CMD_ADD else OES_ACCESS_CMD_DELETE.
Definition batch_cmd (b : list (oes_fdb_event_type * mac_addr_params)) : oes_access_cmd :=
  match last b with Some x => cmd_of x.1 | None => OES_ACCESS_CMD_ADD end.

(** What a flush event leaves. *)
Definition flush_event (ev : oes_event_fdb) (v : known) : known :=
  let e := event_entry ev in
  match fbd_event_type ev with
  | OES_FDB_EVENT_FLUSH_ALL => flushed (fun _ => True) v
  | OES_FDB_EVENT_FLUSH_VID => flushed (filter_matches (KeyFilter true (vid e) false 0)) v
  | OES_FDB_EVENT_FLUSH_PORT => flushed (filter_matches (KeyFilter false 0 true (log_port e))) v
  | OES_FDB_EVENT_FLUSH_PORT_VID => flushed (filter_matches (KeyFilter true (vid e) true (log_port e))) v
  | _ => v
  end.
Definition flush_events (evs : list oes_event_fdb) (v : known) : known := foldl (fun v ev => flush_event ev v) v evs.

(** Events within the bounds of the database. *)
Definition event_ok (ports : list Z) (ev : oes_event_fdb) : Prop :=
  let e := event_entry ev in
  match fbd_event_type ev with
  | OES_FDB_EVENT_LEARN | OES_FDB_EVENT_AGE => address_ok ports e
  | OES_FDB_EVENT_FLUSH_VID => vid_ok (vid e)
  | OES_FDB_EVENT_FLUSH_PORT => port_ok (log_port e)
  | OES_FDB_EVENT_FLUSH_PORT_VID => vid_ok (vid e) /\ port_ok (log_port e)
  | _ => True
  end.

(** ** The updates *)

Definition learned_type (e : mac_addr_params) : Z := if decide (entry_type e = OES_FDB_STATIC) then FDB_UC_STATIC else FDB_UC_AGEABLE.

Definition spec_update (cmd : oes_access_cmd) (e : mac_addr_params) (v : known) : Z * known :=
  match cmd with
  | OES_ACCESS_CMD_ADD => (if decide (room_for (mac_key e) v) then 0 else - ENOMEM, add_known e (learned_type e) v)
  | _ => (if decide (is_Some (v !! mac_key e)) then 0 else - ENOENT, delete (mac_key e) v)
  end.

(** The last status, and what is known then. *)
Fixpoint spec_updates (cmd : oes_access_cmd) (es : list mac_addr_params) (err : Z) (v : known) : Z * known :=
  match es with
  | [] => (err, v)
  | e :: es => let '(err, v) := spec_update cmd e v in spec_updates cmd es err v
  end.

(** A record of the notification for an address. *)
Definition notes (x : oes_fdb_event_type * mac_addr_params) (r : ctrl_learn_fdb_notify_record) : Prop :=
  event_type r = x.1 /\ record_event r = OesEvent x.1 (FdbEntry x.2).

Lemma notes_decision x r d : notes x r -> notes x (set_decision d r).
Proof. done. Qed.

Lemma notes_kind x r : notes x r -> event_type r = x.1.
Proof. by intros [? _]. Qed.
End Batch.

(** ** Handling *)

Section Handle.
Context {M P A W : Type} {OM : OrderedMap M} {OML : OrderedMapLaws M} {OP : ObjectPool P A} {OPL : ObjectPoolLaws P A}
  {EL : EntryLayout} {LE : LearnEnv W} {LEL : LearnEnvLaws W}.
Context (vend : nat -> ptr) (U1 U2 : gset ptr).
Context (Hlay : layout vend U1 U2) (Hnull : NULL ∉ U1) (Hcap1 : Z.of_nat (size U1) = MAX_FDB_ENTRIES)
  (Hcap : Z.of_nat (size U2) = MAX_FILTER_ENTRIES).
Context (ports : list Z) (Hports : Z.of_nat (length ports) <= MAX_PORT_ENTRIES).
Abbreviation learn := (learn M P A W).
Abbreviation L := (comp learn).
Abbreviation db_is := (db_is vend U1 U2 ports).
Implicit Types (l : learn) (v : known) (e : mac_addr_params).

(** The first records note the batch so far. *)
Record gather_ok (b : list (oes_fdb_event_type * mac_addr_params)) (g : gathered) : Prop := {
  ga_length : length (notif_records g) = MAX_EVENT_INFO_SIZE;
  ga_idx : lst_idx g = length b;
  ga_notes : Forall2 notes b (take (length b) (notif_records g));
  ga_cmd : access_cmd g = batch_cmd b;
  ga_event : is_learned_or_aged_event g = bool_decide (b <> []) }.

Lemma gather_record_spec t e g b l :
  gather_ok b g -> (length b < MAX_EVENT_INFO_SIZE)%nat ->
  exists g', gather_record t (cmd_of t) e g l = Some (g', l) /\ gather_ok (b ++ [(t, e)]) g'.
Proof.
  intros [Hl Hi Hn Hc He] Hlt. unfold gather_record, write_at. rewrite Hl, Hi, decide_True by done.
  eexists. split; [done|]. destruct (lookup_lt_is_Some_2 (notif_records g) (length b)) as [r Hr]; [lia|].
  split; cbn [notif_records lst_idx access_cmd is_learned_or_aged_event].
  - by rewrite length_alter.
  - rewrite length_app. cbn. lia.
  - rewrite length_app, Nat.add_1_r, (take_S_alter _ _ _ _ Hr). apply Forall2_app; [done|]. by repeat constructor.
  - unfold batch_cmd. by rewrite last_snoc.
  - by destruct b.
Qed.

Lemma gather_flush_spec (flush : L Z) g b l v v' :
  gather_ok b g -> (exists s' w', flush l = Some (0, set_world (set_db l s') w') /\ db_is s' v') ->
  exists g' s' w', gather_flush flush g l = Some (g', set_world (set_db l s') w') /\ db_is s' v' /\ gather_ok b g'.
Proof.
  intros [Hl Hi Hn Hc He] (s' & w' & E & Hs). unfold gather_flush. rewrite (then_run _ _ _ _ _ _ E).
  by eexists _, s', w'.
Qed.

Lemma gather_event_spec ev g b l v :
  gather_ok b g -> db_is (db l) v -> fdb_lock_held l = false -> event_ok ports ev ->
  (length (b ++ batch_of [ev]) <= MAX_EVENT_INFO_SIZE)%nat ->
  exists g' s' w', gather_event ev g l = Some (g', set_world (set_db l s') w') /\ db_is s' (flush_event ev v) /\
    gather_ok (b ++ batch_of [ev]) g'.
Proof.
  intros Hg Hd Hl Hok Hlen. unfold gather_event, batch_of, event_ok, flush_event, event_entry, noted_of in *. cbn [omap list_omap] in *.
  assert (Hsame : l = set_world (set_db l (db l)) (world l)) by (by destruct l).
  assert (Hrec : forall t, (length (b ++ [(t, fdb_entry_of (event_data ev))]) <= MAX_EVENT_INFO_SIZE)%nat ->
    exists g' s' w', gather_record t (cmd_of t) (fdb_entry_of (event_data ev)) g l = Some (g', set_world (set_db l s') w') /\ db_is s' v /\
    gather_ok (b ++ [(t, event_entry ev)]) g').
  { intros t Ht. rewrite length_app in Ht. cbn in Ht. destruct (gather_record_spec t (event_entry ev) g b l Hg) as (g' & E & Hg'); [lia|].
    exists g', (db l), (world l). by rewrite <- Hsame. }
  destruct (fbd_event_type ev); [by apply Hrec|by apply Hrec|..]; rewrite app_nil_r in *.
  - by apply (gather_flush_spec _ _ _ _ v), flush_all_spec.
  - apply (gather_flush_spec _ _ _ _ v), flush_filter_spec; try done.
  - apply (gather_flush_spec _ _ _ _ v), flush_filter_spec; try done.
  - destruct Hok. apply (gather_flush_spec _ _ _ _ v), flush_filter_spec; try done.
  - exists g, (db l), (world l). by rewrite <- Hsame.
Qed.

Lemma gather_events_spec evs : forall g b l v,
  gather_ok b g -> db_is (db l) v -> fdb_lock_held l = false -> Forall (event_ok ports) evs ->
  (length (b ++ batch_of evs) <= MAX_EVENT_INFO_SIZE)%nat ->
  exists g' s' w', gather_events evs g l = Some (g', set_world (set_db l s') w') /\ db_is s' (flush_events evs v) /\
    gather_ok (b ++ batch_of evs) g'.
Proof.
  induction evs as [|ev evs IH]; intros g b l v Hg Hd Hl Hok Hlen.
  - exists g, (db l), (world l). rewrite app_nil_r. by destruct l.
  - apply Forall_cons in Hok as [Hev Hok]. cbn [gather_events].
    assert (Hsplit : batch_of (ev :: evs) = batch_of [ev] ++ batch_of evs) by (unfold batch_of; cbn; by destruct (noted_of ev)).
    rewrite Hsplit, (assoc_L (++)) in Hlen |- *.
    destruct (gather_event_spec ev g b l v Hg Hd Hl Hev) as (g1 & s1 & w1 & E1 & Hd1 & Hg1); [rewrite length_app in Hlen; lia|].
    rewrite (then_run _ _ _ _ _ _ E1).
    destruct (IH g1 _ (set_world (set_db l s1) w1) _ Hg1 Hd1 Hl Hok Hlen) as (g2 & s2 & w2 & E2 & Hd2 & Hg2).
    exists g2, s2, w2. split; [rewrite E2; by destruct l|done].
Qed.

(** The entries approved, for the hardware. *)
Definition hw_entry e : fdb_uc_mac_addr_params :=
  MacAddr e (if decide (entry_type e = OES_FDB_STATIC) then FDB_UC_STATIC
             else if decide (entry_type e = OES_FDB_DYNAMIC) then FDB_UC_AGEABLE else 0) NULL.

Lemma approved_entries b rs :
  Forall2 notes b rs -> approved_entry <$> filterb approves rs = hw_entry <$> chosen (approves <$> rs) b.*2.
Proof.
  induction 1 as [|x r b rs [Ht He] _ IH]; [done|]. rewrite filterb_cons. cbn [fmap list_fmap chosen].
  destruct (approves r); [|done]. cbn [fmap list_fmap]. rewrite IH. f_equal. unfold approved_entry, hw_entry. rewrite He. cbn [event_data].
  by rewrite fdb_entry_law.
Qed.

(** *** The database *)

Lemma init_cookie_run l c : exists err c' w', init_cookie c l = Some ((err, c'), set_world l w').
Proof.
  unfold init_cookie. cbv [mbind comp_bind gets]. destruct (ctrl_learn_init_deinit_cb l) as [f|].
  - unfold ext. destruct (f COOKIE_OP_INIT c (world l)) as [[e c'] w]. by exists e, c', w.
  - exists 0, c, (world l). by destruct l.
Qed.

Lemma learn_entry_spec l v p :
  db_is (db l) v -> fdb_lock_held l = false -> address_ok ports (addr_params p) ->
  exists s' w', learn_entry p l = Some ((spec_update OES_ACCESS_CMD_ADD (addr_params p) v).1, set_world (set_db l s') w') /\
    db_is s' (spec_update OES_ACCESS_CMD_ADD (addr_params p) v).2.
Proof.
  intros Hd Hl Hok. unfold learn_entry. destruct (init_cookie_run l NULL) as (e1 & c & w1 & E1).
  cbv [mbind comp_bind]. rewrite E1. cbn beta iota. rewrite (lock_run (set_world l w1) Hl). cbn beta iota.
  destruct (db_add_spec vend U1 U2 Hlay Hnull Hcap1 Hcap ports Hports (db l) v (addr_params p) (learned_type (addr_params p)) c Hd Hok)
    as (s' & E2 & Hd').
  unfold in_db. change (db (set_lock (set_world l w1) true)) with (db l). fold (learned_type (addr_params p)). rewrite E2. cbn beta iota.
  exists s', w1. split; [|done]. cbn [spec_update fst]. destruct l. cbn in Hl. by subst.
Qed.

Lemma age_entry_spec l v p :
  db_is (db l) v -> fdb_lock_held l = false ->
  exists s' w', age_entry p l = Some ((spec_update OES_ACCESS_CMD_DELETE (addr_params p) v).1, set_world (set_db l s') w') /\
    db_is s' (spec_update OES_ACCESS_CMD_DELETE (addr_params p) v).2.
Proof.
  intros Hd Hl. unfold age_entry. fold (mac_key (addr_params p)). set (k := mac_key (addr_params p)).
  cbv [mbind comp_bind]. rewrite (lock_run l Hl). cbn beta iota.
  destruct (delete_by_key_spec vend U1 U2 Hlay Hnull Hcap1 Hcap ports (set_lock l true) v k Hd) as (a & Hg & Hnone & Hsome).
  unfold ask. cbv [mbind comp_bind gets access]. rewrite Hg. cbn beta iota. cbn [spec_update fst snd]. fold k.
  destruct (v !! k) as [x|] eqn:Hk.
  - destruct (Hsome (ltac:(eauto))) as (Hn & s' & w' & E2 & Hd'). rewrite (decide_True (P := a <> NULL)) by done.
    cbv [mbind comp_bind] in E2. rewrite E2. cbn beta iota. exists s', w'. rewrite unlock_run by done. rewrite decide_True by eauto.
    split; [done|]. done.
  - rewrite (Hnone eq_refl). rewrite (decide_False (P := NULL <> NULL)) by lia. exists (db l), (world l).
    rewrite (decide_False (P := is_Some None)) by (by intros []). rewrite delete_id by done. split; [|done]. destruct l. cbn in Hl. by subst.
Qed.

Lemma update_db_spec cmd todo : forall l v err,
  cmd = OES_ACCESS_CMD_ADD \/ cmd = OES_ACCESS_CMD_DELETE ->
  db_is (db l) v -> fdb_lock_held l = false -> Forall (fun p => address_ok ports (addr_params p)) todo ->
  exists s' w', update_db cmd [] todo err l = Some ((spec_updates cmd (addr_params <$> todo) err v).1, set_world (set_db l s') w') /\
    db_is s' (spec_updates cmd (addr_params <$> todo) err v).2.
Proof.
  induction todo as [|p todo IH]; intros l v err Hcmd Hd Hl Hok.
  - exists (db l), (world l). by destruct l.
  - apply Forall_cons in Hok as [Hp Hok]. cbn [update_db existsb fmap list_fmap spec_updates].
    assert (Hstep : exists s1 w1, match cmd with OES_ACCESS_CMD_ADD => learn_entry p | OES_ACCESS_CMD_DELETE => age_entry p | _ => mret err end l
        = Some ((spec_update cmd (addr_params p) v).1, set_world (set_db l s1) w1) /\ db_is s1 (spec_update cmd (addr_params p) v).2).
    { destruct Hcmd as [->| ->]; [by apply learn_entry_spec|by apply age_entry_spec]. }
    destruct Hstep as (s1 & w1 & E1 & Hd1). rewrite (then_run _ _ _ _ _ _ E1). destruct (spec_update cmd (addr_params p) v) as [err1 v1].
    destruct (IH (set_world (set_db l s1) w1) v1 err1 Hcmd Hd1 Hl Hok) as (s2 & w2 & E2 & Hd2). exists s2, w2.
    split; [|done]. cbn [fst]. rewrite E2. by destruct l.
Qed.

(** Entries that failed are passed over. *)
Lemma update_db_failed cmd failed todo err l :
  (forall p, p ∈ todo -> p ∈ failed) -> update_db cmd failed todo err l = Some (err, l).
Proof.
  induction todo as [|p todo IH]; intros Hin; [done|]. cbn [update_db].
  assert (Hex : existsb (fun q => bool_decide (addr_params p = addr_params q)) failed = true).
  { apply existsb_exists. exists p. split; [apply list_elem_of_In, Hin; by left|by apply bool_decide_true]. }
  rewrite Hex. apply IH. intros q Hq. apply Hin. by right.
Qed.

(** *** The whole batch *)

(** The answer of the hardware layer. *)
Definition hal_answer (cmd : oes_access_cmd) (br : Z) (es : list mac_addr_params) (w : W) : Z :=
  (ctrl_learn_hal_fdb_uc_mac_addr_set cmd br (hw_entry <$> es) w).1.1.1.

Lemma configure_spec cmd es err l :
  (length es <= MAX_EVENT_INFO_SIZE)%nat ->
  let answer := hal_answer cmd (ctrl_learn_br_id l) es (world l) in
  exists keep failed w, configure_hw cmd (hw_entry <$> es) err l
      = Some ((if decide (es = []) then (err, 0, [], []) else (answer, keep, failed, if decide (answer = 0) then hw_entry <$> es else failed)),
              set_world l w) /\
    (answer = 0 -> keep = 0 /\ failed = []) /\ (keep = 0 \/ keep = answer).
Proof.
  intros Hlen answer. unfold configure_hw. destruct es as [|e es].
  { exists 0, [], (world l). split; [by destruct l|]. by auto. }
  set (entries := hw_entry <$> e :: es). assert (Hle : length entries = length (e :: es)) by apply length_fmap.
  change (match entries with [] => _ | _ :: _ => ?c end) with c. cbv [mbind comp_bind gets]. unfold ext.
  unfold answer, hal_answer. fold entries.
  destruct (ctrl_learn_hal_fdb_uc_mac_addr_set cmd (ctrl_learn_br_id l) entries (world l)) as [[[err' entries'] cnt] w'] eqn:Eh.
  destruct (hal_law _ _ _ _ _ _ _ _ Eh) as (Hl' & Hc & Hok & Hf). cbn [fst].
  unfold MAX_EVENT_INFO_SIZE, CTRL_LEARN_FDB_NOTIFY_SIZE_MAX in *.
  unfold first_of. rewrite wrap_small by lia. rewrite decide_True by (rewrite length_app, Hl'; lia). cbv [access].
  set (todo := take _ _). set (keep := if decide (err' = - EXFULL \/ _) then 0 else err').
  exists keep, (if decide (err' <> 0) then todo else []), w'. rewrite (decide_False (P := e :: es = [])) by done.
  destruct (decide (err' = 0)) as [->|Hne].
  - destruct (Hok eq_refl) as [-> ->]. split; [|split; [done|by left]]. unfold todo. rewrite Nat2Z.id, take_app_length. done.
  - rewrite (decide_True (P := err' <> 0)) by done. split; [done|]. split; [done|]. unfold keep. case_decide; auto.
Qed.

Lemma batch_chosen evs ds :
  Forall (event_ok ports) evs -> Forall (address_ok ports) (chosen ds (batch_of evs).*2).
Proof.
  intros Hok. assert (Hb : Forall (address_ok ports) (batch_of evs).*2).
  { unfold batch_of. induction Hok as [|ev evs Hev _ IH]; [constructor|]. cbn. unfold noted_of, event_ok in *.
    destruct (fbd_event_type ev); cbn; try done; by constructor. }
  rewrite Forall_forall in *. intros e He. apply Hb. eapply elem_of_sublist; [exact He|apply chosen_sublist].
Qed.

(** What handling a batch does: after the flushes, if the hardware takes all
    approved addresses, they are all treated with the command of the last event;
    otherwise none is. *)
Lemma handle_spec l v evs info num :
  db_is (db l) v -> fdb_lock_held l = false -> first_of num info = Some evs -> Forall (event_ok ports) evs ->
  (length (batch_of evs) <= MAX_EVENT_INFO_SIZE)%nat ->
  (forall f, ctrl_learn_notification_cb l = Some f -> decides_only f) ->
  let b := batch_of evs in let v1 := flush_events evs v in
  exists ds err0 err w0 s' w', length ds = length b /\
    (ctrl_learn_notification_cb l = None -> ds = capacity (MAX_FDB_ENTRIES - Z.of_nat (size v1)) 0 b.*1 /\ err0 = 0) /\
    let es := chosen ds b.*2 in let answer := hal_answer (batch_cmd b) (ctrl_learn_br_id l) es w0 in
    ctrl_learn_handle_oes_event info num l = Some (err, set_world (set_db l s') w') /\
    if decide (es = [] \/ answer = 0)
    then err = (spec_updates (batch_cmd b) es (if decide (es = []) then err0 else 0) v1).1 /\
         db_is s' (spec_updates (batch_cmd b) es (if decide (es = []) then err0 else 0) v1).2
    else err = answer /\ db_is s' v1.
Proof.
  intros Hd Hl Hinfo Hok Hlen Hcb b v1. unfold ctrl_learn_handle_oes_event. rewrite Hinfo.
  cbv [access]. cbn [mbind comp_bind]. cbv [mbind comp_bind].
  set (arr0 := uninit_record (world l) <$> seq 0 CTRL_LEARN_FDB_NOTIFY_SIZE_MAX).
  assert (Hu : uninit_records l = Some (arr0, l)) by done. rewrite Hu. cbn beta iota.
  assert (Hg0 : gather_ok [] (Gathered arr0 0 OES_ACCESS_CMD_ADD false 0)).
  { split; [|done..]. cbn [notif_records]. unfold arr0. by rewrite length_fmap, length_seq. }
  destruct (gather_events_spec evs _ [] l v Hg0 Hd Hl Hok Hlen) as (g & s1 & w1 & E1 & Hd1 & Hg). rewrite E1. cbn beta iota zeta.
  cbn [app] in Hg. fold b in Hg. fold v1 in Hd1. set (l1 := set_world (set_db l s1) w1).
  pose proof (ga_length _ _ Hg) as Hgl. pose proof (ga_notes _ _ Hg) as Hgn.
  destruct (decide_spec notes fst notes_decision notes_kind vend U1 U2 Hcap1 ports l1 v1 b (notif_records g) Hd1 Hgl Hgn Hlen)
    as (arr & E2 & Harr & Hnotes & Hds). cbv zeta in E2.
  rewrite (ga_idx _ _ Hg). cbv [mbind comp_bind] in E2.
  destruct (approve_first (Z.of_nat (length b)) (notif_records g) l1) as [[a1 l1']|]; [|done]. rewrite E2. cbn beta iota.
  rewrite (decide_False (P := 0 <> 0)) by lia. cbv [gets]. cbn beta iota. cbn [records_arr].
  destruct (notify_spec notes notes_decision l1 (NotifyData (Z.of_nat (length b)) arr) b NULL Hcb Harr eq_refl Hlen Hnotes)
    as (err0 & nd' & w2 & rs & E3 & E4 & Hrs & Hnone).
  change (ctrl_learn_notification_cb l1) with (ctrl_learn_notification_cb l) in *. run_by E3.
  unfold approved_records. cbv [mbind comp_bind access]. rewrite E4. cbv [mret comp_ret]. cbn beta iota.
  change (filterb _ rs) with (filterb approves rs). rewrite (approved_entries b rs Hrs). set (ds := approves <$> rs).
  set (es := chosen ds b.*2). set (l2 := set_world l1 w2).
  assert (Hes : (length es <= MAX_EVENT_INFO_SIZE)%nat).
  { pose proof (sublist_length _ _ (chosen_sublist ds b.*2)) as Hle. fold es in Hle. rewrite (length_fmap snd b) in Hle. unfold b in *. lia. }
  assert (Hlds : length ds = length b) by (unfold ds; rewrite length_fmap; symmetry; by eapply Forall2_length).
  assert (Hcap' : ctrl_learn_notification_cb l = None -> ds = capacity (MAX_FDB_ENTRIES - Z.of_nat (size v1)) 0 b.*1 /\ err0 = 0).
  { intros Hn. destruct (Hnone Hn) as [-> ->]. by rewrite <- Hds. }
  rewrite (ga_event _ _ Hg), (ga_cmd _ _ Hg).
  destruct (configure_spec (batch_cmd b) es err0 l2 Hes) as (keep & failed & w3 & E5 & Hkeep & Hkeep').
  change (ctrl_learn_br_id l2) with (ctrl_learn_br_id l) in *. change (world l2) with w2 in *.
  set (answer := hal_answer (batch_cmd b) (ctrl_learn_br_id l) es w2) in *.
  assert (Hb0 : b = [] -> es = []) by (intros Hb; unfold es; rewrite Hb; by destruct ds).
  assert (Hcmd : batch_cmd b = OES_ACCESS_CMD_ADD \/ batch_cmd b = OES_ACCESS_CMD_DELETE).
  { unfold batch_cmd, cmd_of. destruct (last b) as [x|]; [destruct (decide (x.1 = OES_FDB_EVENT_LEARN)); [by left|by right]|by left]. }
  exists ds, err0.
  destruct (decide (es = [])) as [Hn|Hn].
  - destruct (decide (b = [])) as [Hb|Hb].
    + rewrite bool_decide_false by tauto. exists err0, w2, s1, w2. split; [done|]. split; [done|]. cbv zeta. fold es.
      rewrite (decide_True (P := es = [] \/ _)) by (by left). rewrite Hn. by destruct l.
    + rewrite bool_decide_true by done. rewrite E5. cbn beta iota. cbn [update_db]. exists err0, w2, s1, w3.
      split; [done|]. split; [done|]. cbv zeta. fold es.
      rewrite (decide_True (P := es = [] \/ _)) by (by left). rewrite Hn. by destruct l.
  - rewrite bool_decide_true by (intros Hb; by apply Hn, Hb0). rewrite E5. cbn beta iota.
    destruct (decide (answer = 0)) as [Ha|Ha].
    + destruct (Hkeep Ha) as [-> ->]. rewrite Ha.
      destruct (update_db_spec (batch_cmd b) (hw_entry <$> es) (set_world l2 w3) v1 0 Hcmd Hd1 Hl) as (s' & w' & E6 & Hd').
      { apply Forall_fmap. eapply Forall_impl; [by apply (batch_chosen evs ds)|]. done. }
      rewrite E6. cbn beta iota.
      assert (Hid : addr_params <$> (hw_entry <$> es) = es) by (rewrite <- list_fmap_compose; apply list_fmap_id).
      rewrite Hid in *. eexists _, w2, s', w'. split; [done|]. split; [done|]. cbv zeta. fold es answer.
      rewrite (decide_True (P := es = [] \/ answer = 0)), (decide_False (P := es = [])) by auto. split; [|done].
      rewrite (decide_False (P := 0 <> 0)) by lia. by destruct l.
    + exists answer, w2, s1, w3. split; [done|]. split; [done|]. cbv zeta. fold es answer.
      rewrite (decide_False (P := es = [] \/ answer = 0)) by tauto. split; [|done].
      rewrite (update_db_failed (batch_cmd b) failed failed answer) by done. cbn beta iota.
      assert (Hke : (if decide (keep <> 0) then keep else answer) = answer) by (case_decide; [|done]; by destruct Hkeep').
      rewrite Hke. by destruct l.
Qed.
End Handle.
