(* ===== verification/CtrlLearnProps.v ===== *)
(** * Properties of handling events in controlled learning

    A batch of events is the flushes in order and then one command for all the
    addresses that are approved: what is known after it, when the hardware takes
    the addresses, when it does not, when learned and aged addresses are mixed; and
    what a flush leaves.  The witnesses run the code on the demonstration database. *)

From S2P Require Import Prelude Bytes Comp Qlist RbMap Storage FdbFilter FdbLists FdbFilterSpec FdbFilterOps.
From S2P Require Import UcDb UcDbSpec UcDbInit FdbStorage UcDbProps CtrlLearn CtrlLearnSpec CtrlLearnNotify CtrlLearnEvents.
From S2P Require Pool.

Local Open Scope Z_scope.
Local Open Scope list_scope.

Section Props.
Context {M P A W : Type} {OM : OrderedMap M} {OML : OrderedMapLaws M} {OP : ObjectPool P A} {OPL : ObjectPoolLaws P A}
  {EL : EntryLayout} {LE : LearnEnv W} {LL : LearnEnvLaws W}.
Implicit Types (s : fdb M P A) (l : learn M P A W) (v : known).

(** A database that was initialised, with known addresses on given ports. *)
Definition holds (ports : list Z) s v : Prop :=
  Z.of_nat (length ports) <= MAX_PORT_ENTRIES /\
  exists vend U1 U2, layout vend U1 U2 /\ NULL ∉ U1 /\ Z.of_nat (size U1) = MAX_FDB_ENTRIES /\
    Z.of_nat (size U2) = MAX_FILTER_ENTRIES /\ db_is vend U1 U2 ports s v.

(** The library at rest: nobody is in the database. *)
Definition knows (ports : list Z) l v : Prop := holds ports (db l) v /\ fdb_lock_held l = false.

(** What has been entered since initialisation. *)
Lemma holds_after ops ports s0 s :
  static_ok s0 -> fdb_uc_db_init s0 = Some (0, s) -> Z.of_nat (length ports) <= MAX_PORT_ENTRIES -> Forall (op_ok ports) ops ->
  exists s', run ops s = Some (fst (spec_run ops ∅), s') /\ holds ports s' (view (records_after ops)).
Proof.
  intros Hs Hi Hports Hops. destruct (init_spec s0 Hs) as (err & s1 & Hrun & Hok). rewrite Hrun in Hi. injection Hi as -> ->.
  destruct (Hok eq_refl) as (U1 & U2 & Hlay & Hnull & Hc1 & Hc2 & H).
  assert (Hgo : forall m E O s, fdb_rep (vend_of s0) U1 U2 s E O m -> ports_in ports m ->
    exists s', run ops s = Some (fst (spec_run ops m), s') /\ holds ports s' (view (snd (spec_run ops m)))).
  { clear s Hrun H Hok. induction Hops as [|o ops Ho _ IH]; intros m E O s H Hin.
    - exists s. split; [done|]. split; [done|]. exists (vend_of s0), U1, U2. split_and!; [done..|]. by exists E, O, m.
    - destruct (step_spec (vend_of s0) U1 U2 Hlay Hnull Hc1 Hc2 ports Hports o s E O m H Hin Ho) as (s1 & E1 & O1 & Hst & H1 & Hin1).
      destruct (IH _ _ _ _ H1 Hin1) as (s2 & Hr & H2). exists s2. cbn [run spec_run]. rewrite Hst.
      destruct (spec_step o m) as [x m1]. cbn [fst snd mbind option_bind] in *. rewrite Hr.
      destruct (spec_run ops m1) as [xs m2]. done. }
  apply (Hgo ∅ _ _ s H). by intros k r ?%lookup_empty_Some.
Qed.

(** Handling a batch, when the hardware always or never answers that all is well. *)
Lemma handle_known ports l v evs :
  knows ports l v -> Forall (event_ok ports) evs -> (length (batch_of evs) <= MAX_EVENT_INFO_SIZE)%nat ->
  (forall f, ctrl_learn_notification_cb l = Some f -> decides_only f) ->
  let b := batch_of evs in let v1 := flush_events evs v in
  exists ds err0 err w0 s' w', length ds = length b /\
    (ctrl_learn_notification_cb l = None -> ds = capacity (MAX_FDB_ENTRIES - Z.of_nat (size v1)) 0 b.*1 /\ err0 = 0) /\
    let es := chosen ds b.*2 in let answer := hal_answer (batch_cmd b) (ctrl_learn_br_id l) es w0 in
    ctrl_learn_handle_oes_event evs (Z.of_nat (length evs)) l = Some (err, set_world (set_db l s') w') /\
    if decide (es = [] \/ answer = 0)
    then err = (spec_updates (batch_cmd b) es (if decide (es = []) then err0 else 0) v1).1 /\
         knows ports (set_world (set_db l s') w') (spec_updates (batch_cmd b) es (if decide (es = []) then err0 else 0) v1).2
    else err = answer /\ knows ports (set_world (set_db l s') w') v1.
Proof.
  intros [(Hp & vend & U1 & U2 & Hlay & Hnull & Hc1 & Hc2 & Hd) Hl] Hok Hlen Hcb b v1.
  assert (Hfirst : first_of (Z.of_nat (length evs)) evs = Some evs).
  { unfold first_of. rewrite decide_True by lia. by rewrite Nat2Z.id, firstn_all. }
  destruct (handle_spec vend U1 U2 Hlay Hnull Hc1 Hc2 ports Hp l v evs evs _ Hd Hl Hfirst Hok Hlen Hcb)
    as (ds & err0 & err & w0 & s' & w' & Hds & Hnone & Hrun & Hrest).
  exists ds, err0, err, w0, s', w'. split; [done|]. split; [done|]. cbv zeta in *. split; [done|].
  assert (Hh : forall v', db_is vend U1 U2 ports s' v' -> knows ports (set_world (set_db l s') w') v').
  { intros v' Hv'. split; [|done]. split; [done|]. by exists vend, U1, U2. }
  fold b v1 in Hrest |- *. destruct (decide (chosen ds b.*2 = [] \/ _)); destruct Hrest; split; auto.
Qed.

(** ** Batches of one kind *)

Lemma spec_updates_err cmd es err err' v : es <> [] -> spec_updates cmd es err v = spec_updates cmd es err' v.
Proof. by destruct es. Qed.

Definition enter v (e : mac_addr_params) : known := <[mac_key e := (e, learned_type e)]> v.
Definition forget v (e : mac_addr_params) : known := delete (mac_key e) v.

Lemma spec_updates_delete es err v : (spec_updates OES_ACCESS_CMD_DELETE es err v).2 = foldl forget v es.
Proof. revert err v. induction es as [|e es IH]; intros err v; [done|]. cbn [spec_updates spec_update foldl]. by rewrite IH. Qed.

(** Addresses for which there is room are all entered. *)
Lemma spec_updates_add es : forall v,
  Z.of_nat (size v) + Z.of_nat (length es) <= MAX_FDB_ENTRIES ->
  spec_updates OES_ACCESS_CMD_ADD es 0 v = (0, foldl enter v es).
Proof.
  induction es as [|e es IH]; intros v Hsz; [done|]. cbn [length] in Hsz. cbn [spec_updates spec_update foldl]. unfold add_known.
  assert (Hroom : room_for (mac_key e) v) by (right; lia). rewrite !decide_True by done.
  fold (enter v e). apply IH. unfold enter. destruct (v !! mac_key e) as [x|] eqn:Hk.
  - rewrite map_size_insert_Some by (by eexists). lia.
  - rewrite map_size_insert_None by done. lia.
Qed.

(** ** Claims *)

(** The hardware layer answers [e] to whatever it is given. *)
Definition hal_answers l (e : Z) : Prop := forall cmd es w, hal_answer cmd (ctrl_learn_br_id l) es w = e.

(** C7. Handling a batch of events refines the updates of a map of known addresses:
    if the hardware takes the addresses and the client's callback only decides, the
    call ends without an access out of bounds, the flushes of the batch come first,
    in order, and then all approved addresses are treated with one command, that of
    the batch's last learning or ageing; the status is that of the last update.
    Without a callback the addresses aged are approved, and those learned as long as
    there is room.  The lock is free in the end. *)
Theorem handle_batch_refines ports l v evs :
  knows ports l v -> Forall (event_ok ports) evs -> (length (batch_of evs) <= MAX_EVENT_INFO_SIZE)%nat ->
  (forall f, ctrl_learn_notification_cb l = Some f -> decides_only f) -> hal_answers l 0 ->
  let b := batch_of evs in let v1 := flush_events evs v in
  exists (ds : list bool) (err0 : Z) l', length ds = length b /\
    (ctrl_learn_notification_cb l = None -> ds = capacity (MAX_FDB_ENTRIES - Z.of_nat (size v1)) 0 b.*1 /\ err0 = 0) /\
    let '(err, v') := spec_updates (batch_cmd b) (chosen ds b.*2) err0 v1 in
    ctrl_learn_handle_oes_event evs (Z.of_nat (length evs)) l = Some (err, l') /\ knows ports l' v'.
Proof.
  intros Hk Hok Hlen Hcb Hhal b v1.
  destruct (handle_known ports l v evs Hk Hok Hlen Hcb) as (ds & err0 & err & w0 & s' & w' & Hds & Hnone & Hrun & Hrest).
  exists ds, err0, (set_world (set_db l s') w'). split; [done|]. split; [done|]. cbv zeta in *. fold b v1 in Hrun, Hrest |- *.
  rewrite decide_True in Hrest by (by right).
  assert (He : spec_updates (batch_cmd b) (chosen ds b.*2) (if decide (chosen ds b.*2 = []) then err0 else 0) v1
    = spec_updates (batch_cmd b) (chosen ds b.*2) err0 v1) by (case_decide; [done|by apply spec_updates_err]).
  rewrite He in Hrest. destruct (spec_updates _ _ err0 v1) as [e v'], Hrest as [-> Hrest]. done.
Qed.

(** C11. Learning does not exceed the database: without a callback, a batch whose
    addresses are all learned is handled without error: the first of them, as many
    as there is room for, are entered, each with the type of its event, whether they
    were known or not; the others are left to the switch. *)
Theorem learned_batch_fits ports l v evs :
  knows ports l v -> Forall (event_ok ports) evs -> (length (batch_of evs) <= MAX_EVENT_INFO_SIZE)%nat ->
  ctrl_learn_notification_cb l = None -> hal_answers l 0 ->
  Forall (fun x => x.1 = OES_FDB_EVENT_LEARN) (batch_of evs) ->
  let v1 := flush_events evs v in
  exists l', ctrl_learn_handle_oes_event evs (Z.of_nat (length evs)) l = Some (0, l') /\
    knows ports l' (foldl enter v1 (take (Z.to_nat (MAX_FDB_ENTRIES - Z.of_nat (size v1))) (batch_of evs).*2)).
Proof.
  intros Hk Hok Hlen Hcb Hhal Hlearn v1.
  destruct (handle_known ports l v evs Hk Hok Hlen) as (ds & err0 & err & w0 & s' & w' & Hds & Hnone & Hrun & Hrest); [by rewrite Hcb|].
  destruct (Hnone Hcb) as [-> ->]. fold v1 in Hds, Hrun, Hrest. set (b := batch_of evs) in *. cbv zeta in Hrest.
  rewrite (decide_True (P := _ \/ _)) in Hrest by (by right).
  rewrite capacity_learned in Hrest; [|by rewrite !length_fmap|by apply Forall_fmap|lia]. rewrite Z.sub_0_r in Hrest.
  assert (Hcmd : batch_cmd b = OES_ACCESS_CMD_ADD).
  { unfold batch_cmd. destruct (last b) as [x|] eqn:Hx; [|done]. rewrite Forall_forall in Hlearn.
    unfold cmd_of. rewrite decide_True; [done|]. apply Hlearn. rewrite last_lookup in Hx. by eapply list_elem_of_lookup_2. }
  rewrite Hcmd in Hrest. set (es := take _ b.*2) in *. replace (if decide (es = []) then 0 else 0) with 0 in Hrest by by case_decide.
  assert (Hadd : spec_updates OES_ACCESS_CMD_ADD es 0 v1 = (0, foldl enter v1 es)).
  { destruct (decide (es = [])) as [->|Hne]; [done|]. apply spec_updates_add. unfold es in *. rewrite length_take.
    destruct (decide (Z.of_nat (size v1) <= MAX_FDB_ENTRIES)); [lia|]. exfalso. apply Hne.
    by replace (Z.to_nat (MAX_FDB_ENTRIES - Z.of_nat (size v1))) with 0%nat by lia. }
  rewrite Hadd in Hrest. destruct Hrest as [-> Hrest]. by eexists.
Qed.

(** A batch has one command: when its last learning or ageing is an ageing, the
    addresses that were learned in it are taken for aged too.  None of the addresses
    of the batch is known in the end, and an address that was known before and is
    learned again, on another port for example, is deleted. *)
Theorem mixed_batch_forgets ports l v evs e :
  knows ports l v -> Forall (event_ok ports) evs -> (length (batch_of evs) <= MAX_EVENT_INFO_SIZE)%nat ->
  ctrl_learn_notification_cb l = None -> hal_answers l 0 ->
  last (batch_of evs) = Some (OES_FDB_EVENT_AGE, e) ->
  let v1 := flush_events evs v in
  let approved := chosen (capacity (MAX_FDB_ENTRIES - Z.of_nat (size v1)) 0 (batch_of evs).*1) (batch_of evs).*2 in
  exists err l', ctrl_learn_handle_oes_event evs (Z.of_nat (length evs)) l = Some (err, l') /\
    knows ports l' (foldl forget v1 approved).
Proof.
  intros Hk Hok Hlen Hcb Hhal Hlast v1 approved.
  destruct (handle_known ports l v evs Hk Hok Hlen) as (ds & err0 & err & w0 & s' & w' & Hds & Hnone & Hrun & Hrest); [by rewrite Hcb|].
  destruct (Hnone Hcb) as [-> ->]. fold v1 approved in Hrun, Hrest. cbv zeta in Hrest.
  rewrite (decide_True (P := _ \/ _)) in Hrest by (by right). eexists _, _. split; [exact Hrun|].
  assert (Hcmd : batch_cmd (batch_of evs) = OES_ACCESS_CMD_DELETE) by (unfold batch_cmd; by rewrite Hlast).
  rewrite Hcmd, spec_updates_delete in Hrest. apply Hrest.
Qed.

(** When the hardware layer reports an error for some of the addresses, the
    database is left as the flushes made it: not only the addresses that failed are
    missing, none of the others is entered or deleted either.  The call returns the
    error of the layer. *)
Theorem hal_error_discards_batch ports l v evs e :
  knows ports l v -> Forall (event_ok ports) evs -> (length (batch_of evs) <= MAX_EVENT_INFO_SIZE)%nat ->
  ctrl_learn_notification_cb l = None -> hal_answers l e -> e <> 0 ->
  let v1 := flush_events evs v in
  batch_of evs <> [] -> Z.of_nat (size v1) < MAX_FDB_ENTRIES ->
  exists l', ctrl_learn_handle_oes_event evs (Z.of_nat (length evs)) l = Some (e, l') /\ knows ports l' v1.
Proof.
  intros Hk Hok Hlen Hcb Hhal He v1 Hne Hroom.
  destruct (handle_known ports l v evs Hk Hok Hlen) as (ds & err0 & err & w0 & s' & w' & Hds & Hnone & Hrun & Hrest); [by rewrite Hcb|].
  destruct (Hnone Hcb) as [-> ->]. fold v1 in Hrun, Hrest, Hds. cbv zeta in Hrest. rewrite Hhal in Hrest.
  assert (Hes : chosen (capacity (MAX_FDB_ENTRIES - Z.of_nat (size v1)) 0 (batch_of evs).*1) (batch_of evs).*2 <> []).
  { clear -Hne Hroom. destruct (batch_of evs) as [|[t a] b]; [done|]. cbn [fmap list_fmap fst snd capacity]. case_decide; [rewrite bool_decide_true by lia|]; by cbn. }
  rewrite decide_False in Hrest by tauto. destruct Hrest as [-> Hrest]. by eexists.
Qed.

(** C10. Flushing by a VLAN, a port or both deletes exactly the addresses that match
    and are not static, and flushing all the addresses that are not static, whatever
    the callback on the cookies does; the other addresses stay as they are, the loop
    ends, and the lock is free again. *)
Theorem flush_exact ports l v f :
  knows ports l v -> filter_ok f ->
  (exists l', ctrl_learn_flush_db_by_filter f l = Some (0, l') /\ knows ports l' (flushed (filter_matches f) v)) /\
  (exists l', ctrl_learn_handle_flush_all l = Some (0, l') /\ knows ports l' (filter (fun kr => kr.2.2 = FDB_UC_STATIC) v)).
Proof.
  intros [(Hp & vend & U1 & U2 & Hlay & Hnull & Hc1 & Hc2 & Hd) Hl] Hf.
  assert (Hh : forall s' w' v', db_is vend U1 U2 ports s' v' -> knows ports (set_world (set_db l s') w') v').
  { intros s' w' v' Hv'. split; [|done]. split; [done|]. by exists vend, U1, U2. }
  split.
  - destruct (flush_filter_spec vend U1 U2 Hlay Hnull Hc1 Hc2 ports f l v Hd Hl Hf) as (s' & w' & E & H'). eexists. by split; [|apply Hh].
  - destruct (flush_all_spec vend U1 U2 Hlay Hnull Hc1 Hc2 ports l v Hd Hl) as (s' & w' & E & H'). eexists. split; [done|]. apply Hh.
    assert (Heq : flushed (fun _ => True) v = filter (fun kr => kr.2.2 = FDB_UC_STATIC) v); [|by rewrite <- Heq].
    apply map_filter_ext. intros k x _. cbn. tauto.
Qed.
End Props.

(** ** A library to run *)

#[local] Existing Instances Pool.bump_allocator Pool.bump_laws.

(** The hardware layer answers with the number of the bridge and reports the first
    entry when that is an error; on bridge 0 it is the layer of [hal_stub]. *)
#[export] Instance demo_env : LearnEnv unit := {
  OES_FDB_STATIC := 0;
  OES_FDB_DYNAMIC := 1;
  oes_status_value st := match st with OES_STATUS_SUCCESS => 0 | OES_STATUS_CMD_UNSUPPORTED => 2 | _ => 1 end;
  fdb_entry_of d := match d with FdbEntry e => e | _ => params0 end;
  oes_api_fdb_uc_flush_set _ w := (OES_STATUS_SUCCESS, w);
  oes_api_fdb_uc_flush_port_set _ _ w := (OES_STATUS_SUCCESS, w);
  oes_api_fdb_uc_flush_vid_set _ _ w := (OES_STATUS_SUCCESS, w);
  oes_api_fdb_uc_flush_port_vid_set _ _ _ w := (OES_STATUS_SUCCESS, w);
  ctrl_learn_hal_fdb_uc_mac_addr_set _ br es w := ((br, es, if decide (br = 0) then Z.of_nat (length es) else Z.of_nat (length es `min` 1)), w);
  ctrl_learn_hal_fdb_notify_params_set _ _ w := (0, w);
  sys_malloc w := (true, w);
  sys_free w := w;
  uninit_addr _ _ := mac_addr0;
  uninit_record _ _ := NotifyRecord OES_FDB_EVENT_OTHER (OesEvent OES_FDB_EVENT_OTHER (FdbEntry params0)) 0 0 NULL }.

#[export] Instance demo_env_laws : LearnEnvLaws unit.
Proof.
  split; [done|]. intros cmd br es w err es' cnt w' [= <- <- <- <-]. split; [done|]. split; [case_decide; lia|].
  split; [by intros ->; rewrite decide_True|]. intros _ p Hp%elem_of_take. destruct Hp as (i & Hi & _). by eapply list_elem_of_lookup_2.
Defined.

Definition demo_addr (o v port : Z) : mac_addr_params := MacParams [2; 0; 0; 0; 0; o] v port 1.
Definition demo_known : list fdb_op :=
  [Add (EntryData (demo_addr 1 10 7) 77 FDB_UC_AGEABLE); Add (EntryData (demo_addr 2 20 9) 0 FDB_UC_STATIC);
   Add (EntryData (demo_addr 3 10 9) 0 FDB_UC_AGEABLE)].

Definition demo_fdb2 : fdb qmap (pool_mem (A := Pool.bump)) Pool.bump :=
  default demo_fdb1 (snd <$> run demo_known demo_fdb1).

(** The library with three addresses, the first with a cookie and the second static. *)
Definition demo_learn (answer : Z) : learn qmap (pool_mem (A := Pool.bump)) Pool.bump unit :=
  Learn demo_fdb2 answer true true false 1 (3, 4) (5, 6) None None [] false tt.
Definition demo_view : known := view (records_after demo_known).

Lemma demo_address o v port : 0 <= o < 256 -> 0 <= v < 4096 -> port = 7 \/ port = 9 -> address_ok [7; 9] (demo_addr o v port).
Proof.
  intros Ho Hv Hp. split; [split; [done|repeat constructor; lia]|]. split; [split; [exact Hv|cbn; unfold port_ok; lia]|].
  cbn. destruct Hp as [->| ->]; [by left|by right; left].
Defined.

Lemma demo_knows answer : knows [7; 9] (demo_learn answer) demo_view.
Proof.
  destruct (holds_after demo_known [7; 9] demo_fdb demo_fdb1 demo_static demo_init ltac:(done)) as (s' & Hr & H).
  { assert (Hop : forall o v port c t, 0 <= o < 256 -> 0 <= v < 4096 -> port = 7 \/ port = 9 ->
      op_ok [7; 9] (Add (EntryData (demo_addr o v port) c t))).
    { intros o v port c t Ho Hv Hp. destruct (demo_address o v port Ho Hv Hp) as (H1 & H2 & H3). by split. }
    repeat (apply Forall_cons; split); try apply Forall_nil_2; apply Hop; lia. }
  split; [|done]. unfold demo_learn, demo_fdb2. rewrite Hr. exact H.
Defined.

Definition learn_event (e : mac_addr_params) : oes_event_fdb := OesEvent OES_FDB_EVENT_LEARN (FdbEntry e).
Definition age_event (e : mac_addr_params) : oes_event_fdb := OesEvent OES_FDB_EVENT_AGE (FdbEntry e).

Ltac events_ok := repeat (apply Forall_cons; split); try apply Forall_nil_2; (apply demo_address; lia) || by vm_compute.
Ltac batch_fits := by apply Nat.leb_le; vm_compute.

(** All of VLAN 10 is flushed, an address learned and one aged. *)
Lemma handle_batch_refines_witness :
  let evs := [OesEvent OES_FDB_EVENT_FLUSH_VID (FdbEntry (demo_addr 0 10 0)); age_event (demo_addr 2 20 9); learn_event (demo_addr 4 10 7)] in
  exists l', ctrl_learn_handle_oes_event evs 3 (demo_learn 0) = Some (0, l') /\
    knows [7; 9] l' {[mac_key (demo_addr 2 20 9) := (demo_addr 2 20 9, FDB_UC_AGEABLE); mac_key (demo_addr 4 10 7) := (demo_addr 4 10 7, FDB_UC_AGEABLE)]}.
Proof.
  intros evs. assert (Hok : Forall (event_ok [7; 9]) evs) by events_ok.
  destruct (handle_batch_refines [7; 9] (demo_learn 0) demo_view evs (demo_knows 0) Hok) as (ds & err0 & l' & Hds & Hnone & H);
    [batch_fits|done|done|].
  destruct (Hnone eq_refl) as [-> ->]. exists l'. clear -H.
  assert (E : spec_updates (batch_cmd (batch_of evs)) (chosen (capacity (MAX_FDB_ENTRIES - Z.of_nat (size (flush_events evs demo_view))) 0
    (batch_of evs).*1) (batch_of evs).*2) 0 (flush_events evs demo_view)
    = (0, {[mac_key (demo_addr 2 20 9) := (demo_addr 2 20 9, FDB_UC_AGEABLE); mac_key (demo_addr 4 10 7) := (demo_addr 4 10 7, FDB_UC_AGEABLE)]}))
    by (vm_compute; reflexivity).
  rewrite E in H. exact H.
Defined.

(** A known address is learned on another port, and a new one. *)
Lemma learned_batch_fits_witness :
  let evs := [learn_event (demo_addr 1 10 9); learn_event (demo_addr 4 10 7)] in
  exists l', ctrl_learn_handle_oes_event evs 2 (demo_learn 0) = Some (0, l') /\
    knows [7; 9] l' (<[mac_key (demo_addr 4 10 7) := (demo_addr 4 10 7, FDB_UC_AGEABLE)]>
      (<[mac_key (demo_addr 1 10 7) := (demo_addr 1 10 9, FDB_UC_AGEABLE)]> demo_view)).
Proof.
  intros evs. assert (Hok : Forall (event_ok [7; 9]) evs) by events_ok.
  destruct (learned_batch_fits [7; 9] (demo_learn 0) demo_view evs (demo_knows 0) Hok) as (l' & Hrun & H);
    [batch_fits|done|done|by repeat constructor|].
  exists l'. split; [exact Hrun|]. clear -H.
  assert (E : (batch_of evs).*2 = [demo_addr 1 10 9; demo_addr 4 10 7]) by (vm_compute; reflexivity).
  rewrite E in H. assert (E' : Z.of_nat (size (flush_events evs demo_view)) = 3) by (vm_compute; reflexivity).
  rewrite E', firstn_all2 in H by (cbn; unfold MAX_FDB_ENTRIES; lia). exact H.
Defined.

(** One address ages after another, known before, is learned on another port. *)
Lemma mixed_batch_forgets_witness :
  let evs := [learn_event (demo_addr 1 10 9); age_event (demo_addr 3 10 9)] in
  exists err l', ctrl_learn_handle_oes_event evs 2 (demo_learn 0) = Some (err, l') /\
    knows [7; 9] l' {[mac_key (demo_addr 2 20 9) := (demo_addr 2 20 9, FDB_UC_STATIC)]}.
Proof.
  intros evs. assert (Hok : Forall (event_ok [7; 9]) evs) by events_ok.
  destruct (mixed_batch_forgets [7; 9] (demo_learn 0) demo_view evs (demo_addr 3 10 9) (demo_knows 0) Hok) as (err & l' & Hrun & H);
    [batch_fits|done|done|done|].
  exists err, l'. split; [exact Hrun|]. clear -H.
  assert (E : foldl forget (flush_events evs demo_view)
    (chosen (capacity (MAX_FDB_ENTRIES - Z.of_nat (size (flush_events evs demo_view))) 0 (batch_of evs).*1) (batch_of evs).*2)
    = {[mac_key (demo_addr 2 20 9) := (demo_addr 2 20 9, FDB_UC_STATIC)]}) by (vm_compute; reflexivity).
  rewrite E in H. exact H.
Defined.

(** The layer reports only the first of two addresses. *)
Lemma hal_error_discards_batch_witness :
  let evs := [learn_event (demo_addr 4 10 7); learn_event (demo_addr 5 10 7)] in
  exists l', ctrl_learn_handle_oes_event evs 2 (demo_learn (- EXFULL)) = Some (- EXFULL, l') /\ knows [7; 9] l' demo_view.
Proof.
  intros evs. assert (Hok : Forall (event_ok [7; 9]) evs) by events_ok.
  destruct (hal_error_discards_batch [7; 9] (demo_learn (- EXFULL)) demo_view evs (- EXFULL) (demo_knows _) Hok) as (l' & Hrun & H);
    [batch_fits|done|done|done|done|by vm_compute|].
  exists l'. split; [exact Hrun|exact H].
Defined.

Lemma flush_exact_witness :
  (exists l', ctrl_learn_flush_db_by_filter (KeyFilter true 10 true 9) (demo_learn 0) = Some (0, l') /\
    knows [7; 9] l' (delete (mac_key (demo_addr 3 10 9)) demo_view)) /\
  (exists l', ctrl_learn_handle_flush_all (demo_learn 0) = Some (0, l') /\
    knows [7; 9] l' {[mac_key (demo_addr 2 20 9) := (demo_addr 2 20 9, FDB_UC_STATIC)]}).
Proof.
  destruct (flush_exact [7; 9] (demo_learn 0) demo_view (KeyFilter true 10 true 9) (demo_knows 0)) as [(l1 & R1 & H1) (l2 & R2 & H2)].
  { split; by vm_compute. }
  split.
  - exists l1. split; [exact R1|]. clear -H1.
    assert (E : flushed (filter_matches (KeyFilter true 10 true 9)) demo_view = delete (mac_key (demo_addr 3 10 9)) demo_view)
      by (vm_compute; reflexivity).
    rewrite E in H1. exact H1.
  - exists l2. split; [exact R2|]. clear -H2.
    assert (E : filter (fun kr => kr.2.2 = FDB_UC_STATIC) demo_view = {[mac_key (demo_addr 2 20 9) := (demo_addr 2 20 9, FDB_UC_STATIC)]})
      by (vm_compute; reflexivity).
    rewrite E in H2. exact H2.
Defined.
