(* ===== verification/CtrlLearnSet.v ===== *)
(** * Setting addresses

    What the call that adds and deletes addresses does to the known addresses:
    which entries change something, the decisions on them, and the updates of those
    approved that the hardware took. *)

From S2P Require Import Prelude Bytes Comp Qlist Storage FdbFilter FdbLists FdbFilterSpec FdbFilterOps.
From S2P Require Import UcDb UcDbSpec UcDbProps CtrlLearn CtrlLearnApi CtrlLearnSpec CtrlLearnNotify CtrlLearnEvents.

Local Open Scope Z_scope.
Local Open Scope list_scope.

(** ** What the call promises *)

Section Promise.
Context {W : Type} {LE : LearnEnv W}.
Implicit Types (v : known) (p : fdb_uc_mac_addr_params) (x : mac_addr_params * Z) (r : ctrl_learn_fdb_notify_record).

(** A known address is as an entry says. *)
Definition same_as x p : Prop :=
  entry_type x.1 = entry_type (addr_params p) /\ log_port x.1 = log_port (addr_params p) /\ x.2 = addr_entry_type p.
#[export] Instance same_as_dec x p : Decision (same_as x p).
Proof. unfold same_as. apply _. Defined.

Definition changes (cmd : oes_access_cmd) v p : bool :=
  match v !! mac_key (addr_params p), cmd with
  | Some x, OES_ACCESS_CMD_ADD => negb (bool_decide (same_as x p))
  | None, OES_ACCESS_CMD_ADD => true
  | Some _, _ => true
  | None, _ => false
  end.

Definition set_kind (cmd : oes_access_cmd) : oes_fdb_event_type :=
  match cmd with OES_ACCESS_CMD_ADD => OES_FDB_EVENT_LEARN | _ => OES_FDB_EVENT_AGE end.

(** The address as it is entered: the type of the switch follows that of the entry. *)
Definition set_params p : mac_addr_params :=
  let e := addr_params p in
  MacParams (mac_addr e) (vid e) (log_port e) (if decide (addr_entry_type p = FDB_UC_STATIC) then OES_FDB_STATIC else OES_FDB_DYNAMIC).

Definition set_update (cmd : oes_access_cmd) p v : Z * known :=
  let k := mac_key (addr_params p) in
  match cmd with
  | OES_ACCESS_CMD_ADD => (if decide (room_for k v) then 0 else - ENOMEM, add_known (set_params p) (addr_entry_type p) v)
  | _ => (if decide (is_Some (v !! k)) then 0 else - ENOENT, delete k v)
  end.

(** Adding ends with the first that does not fit. *)
Fixpoint set_updates (cmd : oes_access_cmd) (ps : list fdb_uc_mac_addr_params) (err : Z) v : Z * known :=
  match ps with
  | [] => (err, v)
  | p :: ps =>
      let '(err, v) := set_update cmd p v in
      if decide (cmd = OES_ACCESS_CMD_ADD /\ err <> 0) then (err, v) else set_updates cmd ps err v
  end.

Definition set_notes (cmd : oes_access_cmd) p r : Prop :=
  event_type r = set_kind cmd /\ record_event r = OesEvent (set_kind cmd) (FdbEntry (addr_params p)) /\
  record_entry_type r = addr_entry_type p.

Lemma set_notes_decision cmd p r d : set_notes cmd p r -> set_notes cmd p (set_decision d r).
Proof. done. Qed.

Lemma set_notes_kind cmd p r : set_notes cmd p r -> event_type r = set_kind cmd.
Proof. by intros [? _]. Qed.

(** An entry is among those that failed. *)
Definition fails (failed : list fdb_uc_mac_addr_params) p : bool :=
  existsb (fun q =>
    bool_decide (vid (addr_params p) = vid (addr_params q)) && bool_decide (log_port (addr_params p) = log_port (addr_params q)) &&
    bool_decide (addr_entry_type p = addr_entry_type q) && bool_decide (mac_addr (addr_params p) = mac_addr (addr_params q))) failed.

(** An entry for the hardware or for the client is that of an address. *)
Definition stands_for p q : Prop :=
  mac_addr (addr_params q) = mac_addr (addr_params p) /\ vid (addr_params q) = vid (addr_params p) /\
  log_port (addr_params q) = log_port (addr_params p) /\ addr_entry_type q = addr_entry_type p.

Lemma fails_stands failed p : fails failed p = true <-> exists q, q ∈ failed /\ stands_for p q.
Proof.
  unfold fails, stands_for. rewrite existsb_exists. setoid_rewrite list_elem_of_In. setoid_rewrite andb_true_iff.
  setoid_rewrite andb_true_iff. setoid_rewrite andb_true_iff. setoid_rewrite bool_decide_eq_true. naive_solver.
Qed.

(** The client's callback on new cookies succeeds. *)
Definition cookies_ok (cb : option (ctrl_learn_mac_addr_cookie_init_deinit_func W)) : Prop :=
  forall f, cb = Some f -> forall c w, (f COOKIE_OP_INIT c w).1.1 = 0.
End Promise.

Section Set_.
Context {M P A W : Type} {OM : OrderedMap M} {OML : OrderedMapLaws M} {OP : ObjectPool P A} {OPL : ObjectPoolLaws P A}
  {EL : EntryLayout} {LE : LearnEnv W} {LEL : LearnEnvLaws W}.
Context (vend : nat -> ptr) (U1 U2 : gset ptr).
Context (Hlay : layout vend U1 U2) (Hnull : NULL ∉ U1) (Hcap1 : Z.of_nat (size U1) = MAX_FDB_ENTRIES)
  (Hcap : Z.of_nat (size U2) = MAX_FILTER_ENTRIES).
Context (ports : list Z) (Hports : Z.of_nat (length ports) <= MAX_PORT_ENTRIES).
Abbreviation learn := (learn M P A W).
Abbreviation L := (comp learn).
Abbreviation db_is := (db_is vend U1 U2 ports).
Implicit Types (l : learn) (v : known) (p : fdb_uc_mac_addr_params) (r : ctrl_learn_fdb_notify_record).

Lemma is_failed_notes cmd failed p r : set_notes cmd p r -> existsb (is_failed r) failed = fails failed p.
Proof.
  intros (_ & He & Ht). unfold fails, is_failed. rewrite He, Ht. cbn [event_data]. by rewrite fdb_entry_law.
Qed.

(** ** What changes *)

Lemma collect_spec cmd entries : forall b arr c l v,
  cmd = OES_ACCESS_CMD_ADD \/ cmd = OES_ACCESS_CMD_DELETE -> db_is (db l) v ->
  length arr = MAX_EVENT_INFO_SIZE -> Forall2 (set_notes cmd) b (take (length b) arr) ->
  let b' := b ++ filterb (changes cmd v) entries in (length b' <= MAX_EVENT_INFO_SIZE)%nat ->
  exists arr', collect cmd entries arr (length b) c l = Some ((arr', length b'), l) /\
    length arr' = MAX_EVENT_INFO_SIZE /\ Forall2 (set_notes cmd) b' (take (length b') arr').
Proof.
  induction entries as [|e entries IH]; intros b arr c l v Hcmd Hd Hl Hn b' Hlen.
  { exists arr. unfold b'. cbn. by rewrite app_nil_r. }
  cbn [collect]. unfold ask. cbv [mbind comp_bind gets access].
  destruct (db_get_spec vend U1 U2 Hlay Hnull Hcap1 Hcap ports (db l) v (mac_key (addr_params e)) Hd) as (a & Hg & Ha).
  change (key_of (addr_params e)) with (mac_key (addr_params e)). rewrite Hg. cbn beta iota.
  assert (Herr : ~ (match v !! mac_key (addr_params e) with Some _ => 0 | None => - ENOENT end <> 0 /\
    match v !! mac_key (addr_params e) with Some _ => 0 | None => - ENOENT end <> - ENOENT)) by (destruct (v !! _); tauto).
  rewrite (decide_False _ _ Herr).
  assert (Hskip : changes cmd v e = false ->
    exists arr', collect cmd entries arr (length b) c l = Some ((arr', length b'), l) /\
      length arr' = MAX_EVENT_INFO_SIZE /\ Forall2 (set_notes cmd) b' (take (length b') arr')).
  { intros Hch. unfold b' in *. rewrite filterb_cons, Hch in *. by apply (IH b arr c l v). }
  assert (Hnote : forall d c', changes cmd v e = true ->
    exists arr', match (match write_at (length b) (fun r => NotifyRecord (set_kind cmd) (OesEvent (set_kind cmd) (FdbEntry (addr_params e)))
          (d r) (addr_entry_type e) c') arr with Some x => Some (x, l) | None => None end) with
        | Some (arr, l) => collect cmd entries arr (S (length b)) c' l | None => None end = Some ((arr', length b'), l) /\
      length arr' = MAX_EVENT_INFO_SIZE /\ Forall2 (set_notes cmd) b' (take (length b') arr')).
  { intros d c' Hch. unfold b' in *. rewrite filterb_cons, Hch in *. rewrite length_app in Hlen. cbn [length] in Hlen.
    unfold write_at. rewrite decide_True by lia. destruct (lookup_lt_is_Some_2 arr (length b)) as [r0 Hr0]; [lia|].
    change (b ++ e :: filterb (changes cmd v) entries) with (b ++ [e] ++ filterb (changes cmd v) entries). rewrite (assoc_L (++)).
    replace (S (length b)) with (length (b ++ [e])) by (rewrite length_app; cbn; lia).
    apply IH; [done|done|by rewrite length_alter| |rewrite !length_app; cbn; lia].
    rewrite length_app, Nat.add_1_r, (take_S_alter _ _ _ _ Hr0). apply Forall2_app; [done|]. by repeat constructor. }
  clear IH. unfold changes in Hskip, Hnote.
  destruct Hcmd as [->| ->]; destruct (v !! mac_key (addr_params e)) as [x|] eqn:Hx.
  - destruct Ha as [Hn0 Hx0]. rewrite (decide_True (P := a <> NULL)) by done. rewrite <- Hx0 in Hskip, Hnote. unfold same_as in *. cbn [known_of fst snd] in *.
    case_decide as Hsame; [apply Hskip; by rewrite bool_decide_true|apply Hnote; by rewrite bool_decide_false].
  - rewrite Ha, decide_False by (intros []; done). by apply Hnote.
  - destruct Ha as [Hn0 Hx0]. rewrite (decide_False (P := a = NULL)) by done. by apply Hnote.
  - rewrite (decide_True (P := a = NULL)) by done. by apply Hskip.
Qed.

(** ** The updates *)

(** The lock, when the call is to take it. *)
Lemma with_lock_run {X} lock (c : L X) l x s' w' :
  fdb_lock_held l = false ->
  (forall held, c (set_lock l held) = Some (x, set_world (set_db (set_lock l held) s') w')) ->
  with_lock lock c l = Some (x, set_world (set_db l s') w').
Proof.
  intros Hl Hc. unfold with_lock. cbv [mbind comp_bind]. case_decide.
  - rewrite (lock_run l Hl). cbn beta iota. rewrite Hc. cbn beta iota. by rewrite unlock_run.
  - cbv [mret comp_ret]. cbn beta iota. pose proof (Hc false) as Hf. replace (set_lock l false) with l in Hf by (destruct l; cbn in *; by subst).
    by rewrite Hf.
Qed.

Lemma set_add_spec lock l v p r :
  db_is (db l) v -> fdb_lock_held l = false -> set_notes OES_ACCESS_CMD_ADD p r -> address_ok ports (addr_params p) ->
  exists err s' w', set_add lock r l = Some (err, set_world (set_db l s') w') /\
    ((err = (set_update OES_ACCESS_CMD_ADD p v).1 /\ db_is s' (set_update OES_ACCESS_CMD_ADD p v).2) \/
     (~ cookies_ok (ctrl_learn_init_deinit_cb l) /\ err <> 0 /\ db_is s' v)).
Proof.
  intros Hd Hl (_ & He & Ht) Hok. unfold set_add. rewrite He, Ht. cbn [event_data]. rewrite fdb_entry_law.
  assert (Hcookie : exists err c w, (if decide (record_cookie r <> NULL) then mret (0, record_cookie r) else init_cookie NULL) l
      = Some ((err, c), set_world l w) /\ (cookies_ok (ctrl_learn_init_deinit_cb l) -> err = 0)).
  { case_decide; [exists 0, (record_cookie r), (world l); by destruct l|]. unfold init_cookie. cbv [mbind comp_bind gets].
    destruct (ctrl_learn_init_deinit_cb l) as [f|]; [|exists 0, NULL, (world l); by destruct l].
    unfold ext. destruct (f COOKIE_OP_INIT NULL (world l)) as [[err c] w] eqn:Ef. exists err, c, w. split; [done|].
    intros Hc. pose proof (Hc f eq_refl NULL (world l)) as H0. by rewrite Ef in H0. }
  destruct Hcookie as (err & c & w & E1 & H1). cbv [mbind comp_bind]. rewrite E1. cbn beta iota.
  destruct (decide (err <> 0)) as [Hne|Hne].
  { exists err, (db l), w. split; [by destruct l|]. right. split; [|done]. intros Hc. by apply Hne, H1. }
  assert (Hok' : address_ok ports (set_params p)) by exact Hok.
  destruct (db_add_spec vend U1 U2 Hlay Hnull Hcap1 Hcap ports Hports (db l) v (set_params p) (addr_entry_type p) c Hd Hok') as (s' & E2 & Hd').
  change (mac_key (set_params p)) with (mac_key (addr_params p)) in *.
  exists (if decide (room_for (mac_key (addr_params p)) v) then 0 else - ENOMEM), s', w.
  split; [|left; by split].
  rewrite (with_lock_run lock _ (set_world l w) (if decide (room_for (mac_key (addr_params p)) v) then 0 else - ENOMEM) s' w Hl); [by destruct l|].
  intros held. unfold in_db. change (db (set_lock (set_world l w) held)) with (db l). unfold set_params in E2.
  rewrite E2. by destruct l.
Qed.

Lemma set_delete_spec lock l v p r :
  db_is (db l) v -> fdb_lock_held l = false -> set_notes OES_ACCESS_CMD_DELETE p r ->
  exists s' w', set_delete lock r l = Some (((set_update OES_ACCESS_CMD_DELETE p v).1, false), set_world (set_db l s') w') /\
    db_is s' (set_update OES_ACCESS_CMD_DELETE p v).2.
Proof.
  intros Hd Hl (_ & He & Ht). unfold set_delete. rewrite He. cbn [event_data]. rewrite fdb_entry_law.
  change (key_of (addr_params p)) with (mac_key (addr_params p)). cbn [set_update fst snd]. set (k := mac_key (addr_params p)).
  assert (Hin : exists s' w', forall held, (
      '(err, a) ← ask (fdb_uc_db_get_record_by_key k);
      if decide (a <> NULL) then
        deinit_record a;; err ← in_db (fdb_uc_db_delete_record a); mret (err, bool_decide (err <> 0))
      else mret (err, false)) (set_lock l held)
    = Some ((if decide (is_Some (v !! k)) then 0 else - ENOENT, false), set_world (set_db (set_lock l held) s') w') /\
      db_is s' (delete k v)).
  2: { destruct Hin as (s' & w' & Hin). exists s', w'. split; [|apply (Hin false)]. apply with_lock_run; [done|]. intros held. apply Hin. }
  unfold ask. destruct (delete_by_key_spec vend U1 U2 Hlay Hnull Hcap1 Hcap ports l v k Hd) as (a & Hg & Hnone & Hsome).
  destruct (decide (is_Some (v !! k))) as [Hk|Hk].
  - destruct (Hsome Hk) as (Hn & s' & w' & E2 & Hd'). exists s', w'. intros held. split; [|done].
    cbv [mbind comp_bind gets access]. change (db (set_lock l held)) with (db l). rewrite Hg. cbn beta iota.
    rewrite (decide_True (P := a <> NULL)) by done.
    assert (E2' : (deinit_record a;; in_db (fdb_uc_db_delete_record a)) (set_lock l held)
      = Some (0, set_world (set_db (set_lock l held) s') w')).
    { revert E2. unfold deinit_record, in_db. cbv [mbind comp_bind gets ext modify mret comp_ret].
      change (ctrl_learn_init_deinit_cb (set_lock l held)) with (ctrl_learn_init_deinit_cb l).
      change (db (set_lock l held)) with (db l). change (world (set_lock l held)) with (world l).
      destruct (ctrl_learn_init_deinit_cb l) as [f|].
      - destruct (f COOKIE_OP_DEINIT _ _) as [[e1 c1] w1]. cbn beta iota.
        change (db (set_world (set_lock l held) w1)) with (db l). change (db (set_world l w1)) with (db l). cbn [db set_db].
        destruct (fdb_uc_db_delete_record a _) as [[e2 s2]|]; [|done]. destruct l. cbn. intros [= -> -> ->]. done.
      - cbn beta iota. change (db (set_lock l held)) with (db l). destruct (fdb_uc_db_delete_record a (db l)) as [[e2 s2]|]; [|done]. destruct l. cbn. intros [= -> -> ->]. done. }
    cbv [mbind comp_bind] in E2'. destruct (deinit_record a (set_lock l held)) as [[u l1]|]; [|done]. rewrite E2'. done.
  - exists (db l), (world l). intros held. rewrite delete_id by (by apply eq_None_not_Some). split; [|done].
    cbv [mbind comp_bind gets access]. change (db (set_lock l held)) with (db l). rewrite Hg. cbn beta iota.
    rewrite Hnone by (by apply eq_None_not_Some). rewrite (decide_False (P := NULL <> NULL)) by lia. by destruct l.
Qed.

(** The loop treats the entries approved that did not fail; only a callback on
    cookies that fails ends it early. *)
Lemma set_db_loop_spec cmd lock failed ps recs : forall l v err,
  cmd = OES_ACCESS_CMD_ADD \/ cmd = OES_ACCESS_CMD_DELETE ->
  Forall2 (set_notes cmd) ps recs -> Forall (fun p => address_ok ports (addr_params p)) ps ->
  db_is (db l) v -> fdb_lock_held l = false ->
  exists err' v' s' w', set_db_loop cmd lock failed recs err l = Some (err', set_world (set_db l s') w') /\ db_is s' v' /\
    (cookies_ok (ctrl_learn_init_deinit_cb l) ->
      (err', v') = set_updates cmd (filterb (fun p => negb (fails failed p)) (chosen (approves <$> recs) ps)) err v).
Proof.
  intros l v err Hcmd H. revert l v err. induction H as [|p r ps recs Hr Hrs IH]; intros l v err Hok Hd Hl.
  { exists err, v, (db l), (world l). split; [by destruct l|done]. }
  apply Forall_cons in Hok as [Hp Hok]. cbn [set_db_loop fmap list_fmap chosen].
  change (decision r <> CTRL_LEARN_NOTIFY_DECISION_APPROVE) with (~ decision r = CTRL_LEARN_NOTIFY_DECISION_APPROVE).
  unfold approves at 1. destruct (decide (decision r = CTRL_LEARN_NOTIFY_DECISION_APPROVE)) as [Ha|Ha].
  2: { rewrite decide_True, bool_decide_false by done. by apply IH. }
  rewrite decide_False, bool_decide_true by tauto. rewrite (is_failed_notes cmd failed p r Hr), filterb_cons.
  destruct (fails failed p); cbn [negb]; [by apply IH|].
  destruct Hcmd as [->| ->]; cbn [set_updates].
  - destruct (set_add_spec lock l v p r Hd Hl Hr Hp) as (err1 & s1 & w1 & E1 & H1). rewrite (then_run _ _ _ _ _ _ E1).
    destruct (decide (err1 <> 0)) as [Hne|Hne].
    + destruct H1 as [[He H1]|(Hc & _ & H1)].
      * exists err1, (set_update OES_ACCESS_CMD_ADD p v).2, s1, w1. split; [done|]. split; [done|]. intros _.
        destruct (set_update OES_ACCESS_CMD_ADD p v) as [err2 v2]. cbn [fst snd] in *. subst err2. by rewrite decide_True.
      * exists err1, v, s1, w1. split; [done|]. split; [done|]. by intros ?.
    + destruct H1 as [[He H1]|(_ & ? & _)]; [|done].
      destruct (IH (set_world (set_db l s1) w1) (set_update OES_ACCESS_CMD_ADD p v).2 err1 Hok H1 Hl)
        as (err' & v' & s' & w' & E2 & H2 & H3).
      exists err', v', s', w'. split; [rewrite E2; by destruct l|]. split; [done|]. intros Hc. rewrite (H3 Hc).
      destruct (set_update OES_ACCESS_CMD_ADD p v) as [err2 v2]. cbn [fst snd] in *. subst err2. by rewrite decide_False by tauto.
  - destruct (set_delete_spec lock l v p r Hd Hl Hr) as (s1 & w1 & E1 & H1). rewrite (then_run _ _ _ _ _ _ E1). cbn iota.
    destruct (IH (set_world (set_db l s1) w1) (set_update OES_ACCESS_CMD_DELETE p v).2
      (set_update OES_ACCESS_CMD_DELETE p v).1 Hok H1 Hl) as (err' & v' & s' & w' & E2 & H2 & H3).
    exists err', v', s', w'. split; [cbn [fst]; rewrite E2; by destruct l|]. split; [done|]. intros Hc. rewrite (H3 Hc).
    destruct (set_update OES_ACCESS_CMD_DELETE p v) as [err2 v2]. cbn [fst snd]. by rewrite decide_False by (intros []; done).
Qed.

(** ** From the hardware on *)

Definition hal_always (br e : Z) : Prop := forall cmd es w, (ctrl_learn_hal_fdb_uc_mac_addr_set cmd br es w).1.1.1 = e.
Definition heap_ok : Prop := forall w, (sys_malloc w).1 = true.

Lemma approved_addrs_spec uninit cmd ps recs : forall i,
  Forall2 (set_notes cmd) ps recs ->
  Forall2 stands_for (chosen (approves <$> recs) ps) (approved_addrs uninit i (filterb approves recs)).
Proof.
  intros i H. revert i. induction H as [|p r ps recs (Hk & He & Ht) _ IH]; intros i; [constructor|].
  rewrite filterb_cons. cbn [fmap list_fmap chosen]. destruct (approves r); [|done]. cbn [approved_addrs].
  constructor; [|done]. rewrite He, Ht. cbn [event_data]. rewrite fdb_entry_law. done.
Qed.

(** What the call makes of the approved addresses [todo]: the hardware's error, the
    entries that failed, which are those it reports, and the updates of the others. *)
Definition set_outcome (cmd : oes_access_cmd) (br : Z) v (todo mac_entry : list fdb_uc_mac_addr_params)
    (res : Z * list fdb_uc_mac_addr_params * Z) v' : Prop :=
  exists hal_err failed,
    (todo = [] -> hal_err = 0) /\ (forall e, hal_always br e -> todo <> [] -> hal_err = e) /\ (hal_err = 0 -> failed = []) /\
    (forall q, q ∈ failed -> exists p, p ∈ todo /\ stands_for p q) /\
    (hal_err <> 0 -> exists es es' cnt w w', Forall2 stands_for todo es /\
      ctrl_learn_hal_fdb_uc_mac_addr_set cmd br es w = ((hal_err, es', cnt), w') /\ failed = take (Z.to_nat cnt) es') /\
    let '(err, v1) := set_updates cmd (filterb (fun p => negb (fails failed p)) todo) hal_err v in
    res = (if decide (hal_err = 0) then err else hal_err, failed ++ drop (length failed) mac_entry, Z.of_nat (length failed)) /\ v' = v1.

Lemma set_approved_spec cmd lock nd mac_entry ps recs l v :
  cmd = OES_ACCESS_CMD_ADD \/ cmd = OES_ACCESS_CMD_DELETE ->
  first_of (int32 (records_num nd)) (records_arr nd) = Some recs -> Forall2 (set_notes cmd) ps recs ->
  (length ps <= length mac_entry)%nat -> Z.of_nat (length mac_entry) < 2 ^ 16 -> Forall (fun p => address_ok ports (addr_params p)) ps ->
  db_is (db l) v -> fdb_lock_held l = false ->
  exists res v' s' w', set_approved cmd lock (Z.of_nat (length mac_entry)) nd mac_entry l = Some (res, set_world (set_db l s') w') /\
    db_is s' v' /\
    (cookies_ok (ctrl_learn_init_deinit_cb l) -> heap_ok ->
      set_outcome cmd (ctrl_learn_br_id l) v (chosen (approves <$> recs) ps) mac_entry res v').
Proof.
  intros Hcmd Hrecs Hn Hlen Hlen' Hok Hd Hl. unfold set_approved. cbv [mbind comp_bind access gets]. rewrite Hrecs. cbn beta iota zeta.
  change (filterb _ recs) with (filterb approves recs).
  pose proof (approved_addrs_spec (uninit_addr (world l)) cmd ps recs 0%nat Hn) as Happ.
  set (approved := approved_addrs _ 0 _) in *. set (todo := chosen (approves <$> recs) ps) in *.
  assert (Hla : (length approved <= length mac_entry)%nat).
  { rewrite <- (Forall2_length _ _ _ Happ). pose proof (sublist_length _ _ (chosen_sublist (approves <$> recs) ps)) as Hsub.
    fold todo in Hsub. lia. }
  rewrite (decide_False (P := Z.of_nat (length mac_entry) < _)) by lia.
  assert (Hloop : forall failed err w, exists err' v' s' w', set_db_loop cmd lock failed recs err (set_world l w)
      = Some (err', set_world (set_db l s') w') /\ db_is s' v' /\
      (cookies_ok (ctrl_learn_init_deinit_cb l) -> (err', v') = set_updates cmd (filterb (fun p => negb (fails failed p)) todo) err v)).
  { intros failed err w. apply (set_db_loop_spec cmd lock failed ps recs (set_world l w) v err Hcmd Hn Hok Hd Hl). }
  assert (Hnofail : forall xs, filterb (fun p => negb (fails [] p)) xs = xs).
  { induction xs as [|x xs IH]; [done|]. rewrite filterb_cons. change (negb (fails [] x)) with true. cbn iota. by rewrite IH. }
  assert (Hgood : forall w, exists res v' s' w',
      (err ← set_db_loop cmd lock [] recs 0; mret (err, mac_entry, 0)) (set_world l w) = Some (res, set_world (set_db l s') w') /\
      db_is s' v' /\ (cookies_ok (ctrl_learn_init_deinit_cb l) -> forall hal, hal = 0 ->
        let '(err, v1) := set_updates cmd (filterb (fun p => negb (fails [] p)) todo) hal v in
        res = (if decide (hal = 0) then err else hal, mac_entry, 0) /\ v' = v1)).
  { intros w. destruct (Hloop [] 0 w) as (err' & v' & s' & w' & E & H1 & H2). exists (err', mac_entry, 0), v', s', w'.
    split; [by rewrite (then_run _ _ _ _ _ _ E)|]. split; [done|]. intros Hc hal ->. rewrite <- (H2 Hc). by rewrite decide_True. }
  destruct approved as [|q approved'] eqn:Eapp.
  - destruct (Hgood (world l)) as (res & v' & s' & w' & E & H1 & H2). exists res, v', s', w'.
    split; [rewrite <- E; by destruct l|]. split; [done|]. intros Hc _. exists 0, [].
    assert (Ht : todo = []) by by inversion Happ. split_and!; [done| |done| |done|by apply (H2 Hc)].
    + by intros e _ ?.
    + intros q Hq. by apply elem_of_nil in Hq.
  - clear Eapp approved. assert (Hne : todo <> []) by (intros Ht; rewrite Ht in Happ; inversion Happ).
    cbn iota. set (approved := q :: approved') in *. cbv [ext]. destruct (ctrl_learn_hal_fdb_uc_mac_addr_set cmd (ctrl_learn_br_id l) approved (world l)) as [[[hal_err es'] cnt] w1] eqn:Eh.
    destruct (hal_law _ _ _ _ _ _ _ _ Eh) as (Hl' & Hc & Hgd & Hbad).
    assert (Halways : forall e, hal_always (ctrl_learn_br_id l) e -> todo <> [] -> hal_err = e).
    { intros e He _. pose proof (He cmd approved (world l)) as H0. by rewrite Eh in H0. }
    destruct (decide (hal_err = 0)) as [->|Hz].
    + destruct (Hgood w1) as (res & v' & s' & w' & E & H1 & H2). exists res, v', s', w'. split; [exact E|]. split; [done|].
      intros Hc' _. exists 0, []. split_and!; [done|done|done| |done|by apply (H2 Hc')]. intros p Hp. by apply elem_of_nil in Hp.
    + change (world (set_world l w1)) with w1. destruct (sys_malloc w1) as [ok w2] eqn:Em. destruct ok; cbn [negb].
      2: { exists (hal_err, mac_entry, 0), v, (db l), w2. split; [by destruct l|]. split; [done|]. intros _ Hh. pose proof (Hh w1) as H0.
           by rewrite Em in H0. }
      set (failed := take (Z.to_nat cnt) es').
      assert (Hcnt : u16 cnt = cnt) by (apply wrap_small; lia). rewrite Hcnt. unfold first_of at 1. rewrite decide_True by lia.
      fold failed. unfold on_first, first_of. rewrite decide_True by lia. cbv [mbind option_bind]. cbn beta iota.
      destruct (Hloop failed hal_err w2) as (err' & v' & s' & w' & E & H1 & H2).
      exists (hal_err, failed ++ drop (Z.to_nat cnt) mac_entry, cnt), v', s', (sys_free w'). split; [|split; [done|]].
      * change (set_world (set_world l w1) w2) with (set_world l w2). rewrite E. by destruct l.
      * intros Hc' _. assert (Hlf : length failed = Z.to_nat cnt) by (unfold failed; rewrite length_take; lia).
        exists hal_err, failed. split; [done|]. split; [done|]. split; [done|]. split.
        { intros p Hp. apply (Hbad Hz) in Hp. apply list_elem_of_lookup in Hp as [i Hi].
          destruct (Forall2_lookup_r _ _ _ _ _ Happ Hi) as (x & Hx & Hst). exists x. split; [by eapply list_elem_of_lookup_2|done]. }
        split. { intros _. exists approved, es', cnt, (world l), w1. done. }
        rewrite <- (H2 Hc'), decide_False by done. rewrite Hlf, Z2Nat.id by lia. done.
Qed.

(** ** The whole call *)

Definition never_fails (cb : option (ctrl_learn_notification_func W)) : Prop :=
  forall f, cb = Some f -> forall nd c w, (f nd c w).1.1 = 0.

(** What the call makes of its entries: those that change something, less those
    that are not approved, go to the hardware. *)
Definition set_result (cmd : oes_access_cmd) l v (entries : list fdb_uc_mac_addr_params)
    (res : Z * list fdb_uc_mac_addr_params * Z) v' : Prop :=
  let ps := filterb (changes cmd v) entries in
  exists ds, length ds = length ps /\
    (ctrl_learn_notification_cb l = None -> ds = capacity (MAX_FDB_ENTRIES - Z.of_nat (size v)) 0 (replicate (length ps) (set_kind cmd))) /\
    set_outcome cmd (ctrl_learn_br_id l) v (chosen ds ps) entries res v'.

Lemma set_notify_spec cmd lock entries originator l v :
  cmd = OES_ACCESS_CMD_ADD \/ cmd = OES_ACCESS_CMD_DELETE ->
  (length entries <= MAX_EVENT_INFO_SIZE)%nat -> Forall (fun p => address_ok ports (addr_params p)) entries ->
  db_is (db l) v -> fdb_lock_held l = false ->
  (forall f, ctrl_learn_notification_cb l = Some f -> decides_only f) ->
  exists res v' s' w', set_notify cmd lock (Z.of_nat (length entries)) entries entries originator l
      = Some (res, set_world (set_db l s') w') /\ db_is s' v' /\
    (cookies_ok (ctrl_learn_init_deinit_cb l) -> heap_ok -> never_fails (ctrl_learn_notification_cb l) ->
      set_result cmd l v entries res v').
Proof.
  intros Hcmd Hlen Hok Hd Hl Hcb. unfold set_notify, set_result. set (ps := filterb (changes cmd v) entries).
  assert (Hps : (length ps <= length entries)%nat /\ Forall (fun p => address_ok ports (addr_params p)) ps).
  { unfold ps. clear -Hok. induction Hok as [|p entries Hp _ [IH1 IH2]]; [done|]. rewrite filterb_cons.
    destruct (changes cmd v p); cbn; split; (lia || done || by constructor). }
  destruct Hps as [Hpl Hpok]. unfold MAX_EVENT_INFO_SIZE, CTRL_LEARN_FDB_NOTIFY_SIZE_MAX in Hlen.
  set (arr0 := uninit_record (world l) <$> seq 0 CTRL_LEARN_FDB_NOTIFY_SIZE_MAX).
  assert (Hu : uninit_records l = Some (arr0, l)) by done. cbv [mbind comp_bind]. rewrite Hu. cbn beta iota.
  destruct (collect_spec cmd entries [] arr0 NULL l v Hcmd Hd) as (arr1 & E1 & Hl1 & Hn1).
  { unfold arr0. by rewrite length_fmap, length_seq. }
  { constructor. }
  { change ([] ++ filterb (changes cmd v) entries) with ps. unfold MAX_EVENT_INFO_SIZE, CTRL_LEARN_FDB_NOTIFY_SIZE_MAX. lia. }
  change (length []) with 0%nat in E1. change ([] ++ filterb (changes cmd v) entries) with ps in *. rewrite E1. cbn beta iota zeta.
  assert (Hpm : (length ps <= MAX_EVENT_INFO_SIZE)%nat) by (unfold MAX_EVENT_INFO_SIZE, CTRL_LEARN_FDB_NOTIFY_SIZE_MAX; lia).
  destruct (decide_spec (set_notes cmd) (fun _ => set_kind cmd) (set_notes_decision cmd) (set_notes_kind cmd) vend U1 U2 Hcap1 ports l v ps arr1
    Hd Hl1 Hn1 Hpm) as (arr & E2 & Harr & Hnotes & Hds).
  cbv [mbind comp_bind] in E2. destruct (approve_first (Z.of_nat (length ps)) arr1 l) as [[a1 l1']|]; [|done]. rewrite E2. cbn beta iota.
  rewrite (decide_False (P := 0 <> 0)) by lia. cbv [gets]. cbn beta iota.
  destruct (notify_spec (set_notes cmd) (set_notes_decision cmd) l (NotifyData (Z.of_nat (length ps)) arr) ps originator Hcb Harr eq_refl Hpm Hnotes)
    as (err0 & nd' & w2 & recs & E3 & E4 & Hrs & Hnone).
  run_by E3.
  assert (Herr0 : never_fails (ctrl_learn_notification_cb l) -> err0 = 0).
  { intros Hnf. destruct (ctrl_learn_notification_cb l) as [f|] eqn:Hf; [|by destruct (Hnone eq_refl)].
    pose proof (Hnf f eq_refl (NotifyData (Z.of_nat (length ps)) arr) originator (world l)) as H0.
    unfold ext in E3. destruct (f _ originator (world l)) as [[e' n'] w']. injection E3 as -> -> _. done. }
  destruct (decide (err0 <> 0)) as [Hne|_].
  { exists (- ENOMEM, entries, 0), v, (db l), w2. split; [by destruct l|]. split; [done|]. intros _ _ Hnf. by destruct Hne; apply Herr0. }
  cbv [ext]. change (world (set_world l w2)) with w2. destruct (sys_malloc w2) as [ok w3] eqn:Em. destruct ok; cbn [negb].
  2: { exists (- ENOMEM, entries, 0), v, (db l), w3. split; [by destruct l|]. split; [done|]. intros _ Hh. pose proof (Hh w2) as H0. by rewrite Em in H0. }
  change (set_world (set_world l w2) w3) with (set_world l w3).
  destruct (set_approved_spec cmd lock nd' entries ps recs (set_world l w3) v Hcmd E4 Hrs) as (res & v' & s' & w' & E5 & H1 & H2);
    [done|lia|done|done|done|].
  rewrite E5. cbn beta iota. exists res, v', s', (sys_free w'). split; [by destruct l|]. split; [done|]. intros Hc Hh _.
  exists (approves <$> recs). split; [rewrite length_fmap; symmetry; by eapply Forall2_length|]. split; [|by apply H2].
  intros Hn. destruct (Hnone Hn) as [_ ->]. cbn [records_arr]. rewrite Hds. f_equal. clear. induction ps as [|p ps IH]; [done|]. cbn. by rewrite IH.
Qed.

Lemma mac_addr_set_spec cmd lock entries originator l v :
  cmd = OES_ACCESS_CMD_ADD \/ cmd = OES_ACCESS_CMD_DELETE -> is_ctrl_learn_start l = true ->
  (0 < length entries <= MAX_EVENT_INFO_SIZE)%nat -> Forall (fun p => address_ok ports (addr_params p)) entries ->
  db_is (db l) v -> fdb_lock_held l = false ->
  (forall f, ctrl_learn_notification_cb l = Some f -> decides_only f) ->
  exists err out cnt v' s' w',
    ctrl_learn_api_fdb_uc_mac_addr_set cmd (Some entries) (Some (Z.of_nat (length entries))) originator lock l
      = Some ((err, Some out, Some cnt), set_world (set_db l s') w') /\ db_is s' v' /\
    (cookies_ok (ctrl_learn_init_deinit_cb l) -> heap_ok -> never_fails (ctrl_learn_notification_cb l) ->
      forallb (unicast_ok cmd) entries = true -> set_result cmd l v entries (err, out, cnt) v').
Proof.
  intros Hcmd Hst [Hpos Hlen] Hok Hd Hl Hcb. unfold ctrl_learn_api_fdb_uc_mac_addr_set. cbv [mbind comp_bind gets access].
  rewrite Hst. cbn [negb]. cbn beta iota. rewrite (decide_False (P := Z.of_nat (length entries) = 0)) by lia.
  assert (Hfirst : first_of (Z.of_nat (length entries)) entries = Some entries) by (by rewrite first_of_run, firstn_all).
  assert (Hgoal : exists err out cnt v' s' w',
    (if negb (forallb (unicast_ok cmd) entries) then mret (- EINVAL, Some entries, Some 0)
     else ok1 ← ext sys_malloc;
       if negb ok1 then mret (- ENOMEM, Some entries, Some 0)
       else ok2 ← ext sys_malloc;
         '(err, arr, cnt) ← (if negb ok2 then mret (- ENOMEM, entries, 0)
            else r ← set_notify cmd lock (Z.of_nat (length entries)) entries entries originator; free_block;; mret r);
         free_block;; mret (err, Some arr, Some cnt)) l = Some ((err, Some out, Some cnt), set_world (set_db l s') w') /\ db_is s' v' /\
    (cookies_ok (ctrl_learn_init_deinit_cb l) -> heap_ok -> never_fails (ctrl_learn_notification_cb l) ->
      forallb (unicast_ok cmd) entries = true -> set_result cmd l v entries (err, out, cnt) v')).
  { destruct (forallb (unicast_ok cmd) entries); cbn [negb].
    2: { exists (- EINVAL), entries, 0, v, (db l), (world l). split; [by destruct l|done]. }
    cbv [mbind comp_bind ext]. destruct (sys_malloc (world l)) as [ok1 w1] eqn:E1. destruct ok1; cbn [negb].
    2: { exists (- ENOMEM), entries, 0, v, (db l), w1. split; [by destruct l|]. split; [done|]. intros _ Hh. pose proof (Hh (world l)) as H0. by rewrite E1 in H0. }
    change (world (set_world l w1)) with w1. destruct (sys_malloc w1) as [ok2 w2] eqn:E2. destruct ok2; cbn [negb].
    2: { exists (- ENOMEM), entries, 0, v, (db l), (sys_free w2). split; [by destruct l|]. split; [done|].
         intros _ Hh. pose proof (Hh w1) as H0. by rewrite E2 in H0. }
    change (set_world (set_world l w1) w2) with (set_world l w2).
    destruct (set_notify_spec cmd lock entries originator (set_world l w2) v Hcmd Hlen Hok Hd Hl Hcb) as ([[err out] cnt] & v' & s' & w' & E & H1 & H2).
    rewrite E. cbv [free_block modify mret comp_ret]. cbn beta iota. exists err, out, cnt, v', s', (sys_free (sys_free w')).
    split; [by destruct l|]. split; [done|]. intros Hc Hh Hn _. by apply H2. }
  destruct Hgoal as (err & out & cnt & v' & s' & w' & E & H1 & H2). exists err, out, cnt, v', s', w'. split; [|split; [done|auto]].
  destruct Hcmd as [->| ->]; rewrite Hfirst; exact E.
Qed.
End Set_.
