(* ===== verification/CtrlLearnRead.v ===== *)
(** * Reading addresses

    What the call that reads the database gives: one address, or those that follow
    one another in the order of keys or in the list of a filter, as many as the
    client has places for. *)

From stdpp Require Import sorting.
From S2P Require Import Prelude Bytes Comp Qlist Storage FdbFilter FdbLists FdbFilterSpec FdbFilterOps.
From S2P Require Import UcDb UcDbSpec UcDbProps CtrlLearn CtrlLearnApi CtrlLearnSpec CtrlLearnNotify.

Local Open Scope Z_scope.
Local Open Scope list_scope.

(** What an entry the client gets says of its address. *)
Definition shown (p : fdb_uc_mac_addr_params) : mac_addr_params * Z := (addr_params p, addr_entry_type p).

Section Read.
Context {M P A W : Type} {OM : OrderedMap M} {OML : OrderedMapLaws M} {OP : ObjectPool P A} {OPL : ObjectPoolLaws P A}
  {EL : EntryLayout} {LE : LearnEnv W}.
Context (vend : nat -> ptr) (U1 U2 : gset ptr).
Context (Hlay : layout vend U1 U2) (Hnull : NULL ∉ U1) (Hcap1 : Z.of_nat (size U1) = MAX_FDB_ENTRIES)
  (Hcap : Z.of_nat (size U2) = MAX_FILTER_ENTRIES).
Context (ports : list Z).
Abbreviation fdb := (fdb M P A).
Abbreviation learn := (learn M P A W).
Abbreviation L := (comp learn).
Abbreviation addr := fdb_uc_mac_addr_params.
Abbreviation rep := (fdb_rep vend U1 U2).
Abbreviation db_is := (db_is vend U1 U2 ports).
Implicit Types (s : fdb) (l : learn) (v : known) (E g : gmap Z ptr) (O : gset ptr) (m : records) (f : fdb_uc_key_filter).

Definition copy_of s (a : ptr) : addr := MacAddr (mac_params (data s a)) (type (data s a)) (cookie (data s a)).

(** The array after [n] records were copied to its start. *)
Definition copied (out arr : list addr) : list addr := out ++ drop (length out) arr.

Lemma copied_snoc out arr x : (length out < length arr)%nat -> alter (fun _ => x) (length out) (copied out arr) = copied (out ++ [x]) arr.
Proof.
  revert arr. induction out as [|z out IH]; intros [|y arr] Hl; cbn [length] in Hl; [lia|done|lia|].
  specialize (IH arr ltac:(lia)). unfold copied in *. cbn. by rewrite IH.
Qed.

Section Copy.
Context (f : fdb_uc_key_filter) (ck : ptr) (T : fdb -> gmap Z ptr -> gset ptr -> records -> list (Z * ptr) -> Prop).
Context (HT : traversal vend U1 U2 (next_record f ck) T).

Lemma copy_loop_spec R : forall fuel l E O m out arr cnt,
  T (db l) E O m R -> (length out < cnt <= length arr)%nat -> (cnt <= length out + fuel)%nat ->
  let out' := out ++ take (cnt - length out) (copy_of (db l) <$> R.*2) in
  copy_loop fuel f ck (default NULL (snd <$> head R)) (copied out arr) (length out) (Z.of_nat cnt) l
    = Some ((0, copied out' arr, Z.of_nat (length out')), l).
Proof.
  induction R as [|[k a] R IH]; intros fuel l E O m out arr cnt H Hlen Hf out'.
  - unfold out'. cbn. rewrite take_nil, app_nil_r. by destruct fuel.
  - destruct fuel as [|fuel]; [lia|]. destruct (tr_next _ _ _ _ _ HT _ _ _ _ _ _ _ H) as [Hk Hnx].
    pose proof (tr_rep _ _ _ _ _ HT _ _ _ _ _ H) as Hrep.
    assert (Hn : a <> NULL) by (destruct (rep_lookup vend U1 U2 Hlay Hnull Hcap1 Hcap _ _ _ _ _ _ Hrep Hk) as (_ & _ & _ & ?); done).
    cbn [copy_loop head fmap option_fmap option_map snd default from_option id]. rewrite decide_False by done.
    unfold copy_record, write_at. cbv [mbind comp_bind gets access].
    rewrite decide_True by (unfold copied; rewrite length_app, length_drop; lia). cbn beta iota.
    rewrite copied_snoc by lia. fold (copy_of (db l) a). set (out1 := out ++ [copy_of (db l) a]).
    assert (Hl1 : S (length out) = length out1) by (unfold out1; rewrite length_app; cbn; lia). rewrite Hl1.
    assert (Hout : out' = out1 ++ take (cnt - length out1) (copy_of (db l) <$> R.*2)).
    { unfold out', out1. cbn [fmap list_fmap snd]. rewrite <- (assoc_L (++)). f_equal.
      replace (cnt - length out)%nat with (S (cnt - length (out ++ [copy_of (db l) a]))) by (rewrite length_app; cbn; lia). done. }
    rewrite Hout. destruct (decide (Z.of_nat (length out1) >= Z.of_nat cnt)) as [Hge|Hlt].
    + replace (cnt - length out1)%nat with 0%nat by lia. cbn [take]. by rewrite app_nil_r.
    + rewrite Hnx. cbn beta iota. rewrite (decide_False (P := 0 <> 0)) by lia.
      apply (IH fuel l E O m out1 arr cnt); [by apply (tr_skip _ _ _ _ _ HT _ _ _ _ (k, a))|lia|lia].
Qed.

Lemma copy_from_spec l E O m R arr cnt :
  T (db l) E O m R -> (0 < cnt <= length arr)%nat ->
  let out := take cnt (copy_of (db l) <$> R.*2) in
  copy_from f (0, ck, default NULL (snd <$> head R)) arr (Z.of_nat cnt) l
    = Some (if decide (R = []) then (- ENOENT, arr, 0) else (0, copied out arr, Z.of_nat (length out)), l).
Proof.
  intros H Hlen out. unfold copy_from. rewrite (decide_False (P := 0 <> 0)) by lia. destruct R as [|[k a] R]; [done|].
  destruct (tr_next _ _ _ _ _ HT _ _ _ _ _ _ _ H) as [Hk _]. pose proof (tr_rep _ _ _ _ _ HT _ _ _ _ _ H) as Hrep.
  destruct (rep_lookup vend U1 U2 Hlay Hnull Hcap1 Hcap _ _ _ _ _ _ Hrep Hk) as (_ & _ & _ & Hn).
  rewrite (decide_False (P := default NULL _ = NULL)) by done. rewrite (decide_False (P := _ :: _ = [])) by done.
  rewrite Nat2Z.id. pose proof (copy_loop_spec _ cnt l E O m [] arr cnt H) as Hc. cbn [length app] in Hc. rewrite Nat.sub_0_r in Hc.
  apply Hc; lia.
Qed.
End Copy.

Lemma traversal_ext (next next' : ptr -> fdb -> Z * ptr) (T : fdb -> gmap Z ptr -> gset ptr -> records -> list (Z * ptr) -> Prop) :
  (forall a s, next a s = next' a s) -> traversal vend U1 U2 next T -> traversal vend U1 U2 next' T.
Proof.
  intros He [H1 H2 H3 H4 H5]. split; try done. intros s E O m k a R H. rewrite <- He. by apply (H2 s E O m).
Qed.

(** What is copied shows the known addresses. *)
Lemma shown_copies s E O m R :
  rep s E O m -> Forall (fun x => E !! x.1 = Some x.2) R ->
  Some ∘ shown <$> (copy_of s <$> R.*2) = (fun k => view m !! k) <$> R.*1.
Proof.
  intros H HE. induction HE as [|[k a] R Hk _ IH]; [done|]. cbn [fmap list_fmap fst snd] in *. f_equal; [|exact IH].
  by rewrite view_lookup, (fr_records _ _ _ _ _ _ _ H), Hk.
Qed.

(** What a read gives: nothing when there are no such keys, otherwise the first. *)
Definition read_result v (ks : list Z) (arr : list addr) (cnt : nat) (res : Z * list addr * Z) : Prop :=
  if decide (ks = []) then res = (- ENOENT, arr, 0)
  else exists out, res = (0, copied out arr, Z.of_nat (length out)) /\ Some ∘ shown <$> out = (fun k => v !! k) <$> take cnt ks.

(** The keys listed: a read starts with the first, or after the key of the first
    entry the client gives. *)
Definition pages f s v (ks : list Z) : Prop :=
  (forall arr cnt, (0 < cnt <= length arr)%nat ->
    exists res, read_result v ks arr cnt res /\
      forall l, db l = s -> read_records OES_ACCESS_CMD_GET_FIRST f arr (Z.of_nat cnt) l = Some (res, l)) /\
  (forall e arr cnt ks1 ks2, (0 < cnt <= length (e :: arr))%nat -> ks = ks1 ++ mac_key (addr_params e) :: ks2 ->
    exists res, read_result v ks2 (e :: arr) cnt res /\
      forall l, db l = s -> read_records OES_ACCESS_CMD_GET_NEXT f (e :: arr) (Z.of_nat cnt) l = Some (res, l)).

Section Pages.
Context (f : fdb_uc_key_filter) (ck : ptr) (T : fdb -> gmap Z ptr -> gset ptr -> records -> list (Z * ptr) -> Prop).
Context (HT : traversal vend U1 U2 (next_record f ck) T).

Lemma tr_suffix s E O m R1 R2 : T s E O m (R1 ++ R2) -> T s E O m R2.
Proof. induction R1 as [|x R1 IH]; intros H; [done|]. by apply IH, (tr_skip _ _ _ _ _ HT _ _ _ _ x). Qed.

Lemma tr_entries s E O m R : T s E O m R -> Forall (fun x => E !! x.1 = Some x.2) R.
Proof.
  induction R as [|[k a] R IH]; intros H; [constructor|]. constructor; [by apply (tr_next _ _ _ _ _ HT _ _ _ _ _ _ _ H)|].
  by apply IH, (tr_skip _ _ _ _ _ HT _ _ _ _ (k, a)).
Qed.

Lemma copy_result s E O m R arr cnt :
  T s E O m R -> (0 < cnt <= length arr)%nat ->
  exists res, read_result (view m) R.*1 arr cnt res /\
    forall l, db l = s -> copy_from f (0, ck, default NULL (snd <$> head R)) arr (Z.of_nat cnt) l = Some (res, l).
Proof.
  intros H Hlen. set (out := take cnt (copy_of s <$> R.*2)).
  exists (if decide (R = []) then (- ENOENT, arr, 0) else (0, copied out arr, Z.of_nat (length out))).
  split; [|intros l Hl; unfold out; subst s; by apply (copy_from_spec f ck T HT l E O m)]. unfold out. unfold read_result. destruct R as [|[k a] R]; [done|].
  rewrite (decide_False (P := (_ :: _).*1 = [])), (decide_False (P := _ :: _ = [])) by done. eexists. split; [done|].
  rewrite fmap_take, (shown_copies s E O m); [by rewrite fmap_take|by apply (tr_rep _ _ _ _ _ HT _ _ _ _ _ H)|by eapply tr_entries].
Qed.

Lemma pages_spec s E O m R :
  T s E O m R -> (forall l, db l = s -> first_record f l = Some ((0, ck, default NULL (snd <$> head R)), l)) ->
  (forall l a p, db l = s -> next_record f ck a s = (0, p) -> record_after f a l = Some ((0, ck, p), l)) ->
  pages f s (view m) R.*1.
Proof.
  intros H Hfirst Hafter. pose proof (tr_rep _ _ _ _ _ HT _ _ _ _ _ H) as Hrep. split.
  - intros arr cnt Hlen. destruct (copy_result s E O m R arr cnt H Hlen) as (res & H1 & E1). exists res. split; [done|]. intros l Hl.
    cbn [read_records]. cbv [mbind comp_bind]. rewrite (Hfirst l Hl). by apply E1.
  - intros e arr cnt ks1 ks2 Hlen Hks. apply fmap_app_inv in Hks as (R1 & R2' & -> & Hks & ->).
    destruct R2' as [|[k a] R2]; [done|]. injection Hks as Hk ->. apply tr_suffix in H.
    pose proof (tr_skip _ _ _ _ _ HT _ _ _ _ (k, a) _ H) as H2. destruct (tr_next _ _ _ _ _ HT _ _ _ _ _ _ _ H) as [HE Hnx].
    destruct (copy_result s E O m R2 (e :: arr) cnt H2 Hlen) as (res & H1 & E1). exists res. split; [done|]. intros l <-.
    cbn [read_records]. unfold ask. cbv [mbind comp_bind access gets]. cbn [lookup list_lookup]. cbn beta iota.
    change (key_of (addr_params e)) with (mac_key (addr_params e)). rewrite Hk, (get_record_spec vend U1 U2 _ _ _ _ _ Hrep), HE.
    cbn beta iota. rewrite (decide_False (P := 0 <> 0)) by lia. rewrite (Hafter l a _ eq_refl Hnx). by apply E1.
Qed.
End Pages.

Definition listed f v (ks : list Z) : Prop :=
  NoDup ks /\ (forall k, k ∈ ks <-> exists x, v !! k = Some x /\ (filtered f = true -> filter_matches f x.1)) /\
  (filtered f = false -> StronglySorted Z.lt ks).

Lemma items_keys E R : items_from E R -> StronglySorted Z.lt R.*1.
Proof.
  induction R as [|[k a] R IH]; intros HR; [constructor|]. destruct (items_from_cons _ _ _ _ HR) as (HR' & _ & Hlt).
  cbn. constructor; [by apply IH|]. apply Forall_forall. intros k' Hk'. apply list_elem_of_fmap in Hk' as ([k2 b] & -> & Hx). by apply (Hlt k2 b).
Qed.

(** All addresses in the order of keys, or those a filter selects. *)
Lemma read_pages f s v :
  db_is s v -> (filtered f = true -> filter_ok f) -> exists ks, listed f v ks /\ pages f s v ks.
Proof.
  intros (E & O & m & H & _ & <-) Hok. unfold listed. destruct (filtered f) eqn:Hf.
  - destruct (filter_first_spec vend U1 U2 Hcap1 ports f _ _ _ _ H (Hok eq_refl)) as (R & ck & E1 & HT & Hnd & Hm).
    assert (Hnext : forall a s, fdb_uc_db_get_next_record_by_filter (Some f) ck a s = next_record f ck a s) by (intros a s0; unfold next_record; by rewrite Hf).
    pose proof (traversal_ext _ _ _ Hnext (filter_traversal vend U1 U2 Hlay Hnull Hcap1 Hcap f ck (Hok eq_refl))) as Htr.
    pose proof (tr_entries f ck _ Htr _ _ _ _ _ HT) as HE. exists R.*1. split; [split; [|split; [|done]]|].
    + clear -HE Hnd. induction HE as [|[k a] R Hk HE IH]; [constructor|]. cbn in *. apply NoDup_cons in Hnd as [Ha Hnd].
      constructor; [|by apply IH]. intros ([k' b] & -> & Hx)%list_elem_of_fmap. apply Ha. rewrite Forall_forall in HE.
      pose proof (HE _ Hx) as Hb. cbn in Hb, Hk. assert (a = b) as -> by congruence. by apply (list_elem_of_fmap_2' snd _ (k', b)).
    + intros k. split.
      * intros Hk. pose proof Hk as ([k' a] & -> & Hx)%list_elem_of_fmap. rewrite Forall_forall in HE. pose proof (HE _ Hx) as Ha.
        cbn [fst snd] in *. exists (known_of (data s a)). assert (Hv : view m !! k' = Some (known_of (data s a))).
        { by rewrite view_lookup, (fr_records _ _ _ _ _ _ _ H), Ha. }
        split; [done|]. intros _. by apply (Hm k' _ Hv).
      * intros (x & Hx & Hmx). apply (Hm k x Hx). by apply Hmx.
    + apply (pages_spec f ck _ Htr s E O); [done| |].
      * intros l <-. unfold first_record. rewrite Hf. unfold ask. cbv [mbind comp_bind gets access]. by rewrite E1.
      * intros l a p <- Hp. rewrite <- Hnext in Hp. unfold record_after. rewrite Hf. unfold ask. cbv [mbind comp_bind gets access]. rewrite E1. cbn beta iota.
        rewrite (decide_False (P := 0 <> 0)) by lia. by rewrite Hp.
  - destruct (items_from_all E) as (R & HR & HP).
    assert (Hnext : forall a s, fdb_uc_db_next_record a s = next_record f NULL a s) by (intros a s0; unfold next_record; by rewrite Hf).
    pose proof (traversal_ext _ _ _ Hnext (ordered_traversal vend U1 U2 Hlay Hnull Hcap1 Hcap ports)) as Htr.
    exists R.*1. split; [split; [apply HR|split; [|intros _; by apply (items_keys E)]]|].
    + intros k. rewrite view_lookup, (fr_records _ _ _ _ _ _ _ H), list_elem_of_fmap. split.
      * intros ([k' a] & -> & Hx). assert (Ha : E !! k' = Some a) by (by apply HR). cbn. rewrite Ha. by eexists.
      * destruct (E !! k) as [a|] eqn:Ha; [|by intros (? & ? & _)]. intros _. exists (k, a). split; [done|]. by rewrite HP, elem_of_map_to_list.
    + apply (pages_spec f NULL _ Htr s E O); [done| |].
      * intros l <-. unfold first_record. rewrite Hf. cbv [mbind comp_bind gets mret comp_ret]. by rewrite (first_of_items vend U1 U2 ports _ _ _ _ _ H HR HP).
      * intros l a p <- Hp. rewrite <- Hnext in Hp. unfold record_after. rewrite Hf. cbv [mbind comp_bind gets mret comp_ret]. by rewrite Hp.
Qed.

(** One address. *)
Lemma read_one f s v e arr cnt :
  db_is s v -> let k := mac_key (addr_params e) in
  exists res, match v !! k with
    | Some x => exists out, res = (0, out :: arr, 1) /\ shown out = x
    | None => res = (- ENOENT, e :: arr, 0)
    end /\ forall l, db l = s -> read_records OES_ACCESS_CMD_GET f (e :: arr) cnt l = Some (res, l).
Proof.
  intros Hd k. destruct (db_get_spec vend U1 U2 Hlay Hnull Hcap1 Hcap ports s v k Hd) as (a & Hg & Ha).
  exists (match v !! k with Some _ => (0, copy_of s a :: arr, 1) | None => (- ENOENT, e :: arr, 0) end). split.
  { destruct (v !! k) as [x|]; [|done]. eexists. split; [done|]. apply Ha. }
  intros l <-. cbn [read_records]. unfold ask. cbv [mbind comp_bind gets access]. cbn [lookup list_lookup]. cbn beta iota.
  change (key_of (addr_params e)) with k. rewrite Hg. destruct (v !! k) as [x|].
  - cbn beta iota. by rewrite (decide_False (P := 0 <> 0)) by lia.
  - cbn beta iota. by rewrite decide_True by (unfold ENOENT; lia).
Qed.

(** ** The whole call *)

Lemma with_lock_read {X} lock (c : L X) l x :
  fdb_lock_held l = false -> (forall held, c (set_lock l held) = Some (x, set_lock l held)) -> with_lock lock c l = Some (x, l).
Proof.
  intros Hl Hc. unfold with_lock. cbv [mbind comp_bind]. assert (Hs : set_lock l false = l) by (destruct l; cbn in *; by subst). case_decide.
  - rewrite (lock_run l Hl). cbn beta iota. rewrite Hc. cbn beta iota. by destruct l; cbn in *; subst.
  - cbv [mret comp_ret]. cbn beta iota. pose proof (Hc false) as Hf. rewrite Hs in Hf. by rewrite Hf.
Qed.

Lemma mac_addr_get_run cmd f arr cnt lock l res :
  is_ctrl_learn_initialized l = true -> fdb_lock_held l = false -> (0 < cnt)%nat -> (filter_by_vid f = true -> filter_vid f <= VID_MAX) ->
  (forall l', db l' = db l -> read_records cmd f arr (Z.of_nat cnt) l' = Some (res, l')) ->
  ctrl_learn_api_uc_mac_addr_get cmd (Some f) arr (Some (Z.of_nat cnt)) lock l = Some (res, l).
Proof.
  intros Hi Hl Hc Hv Hr. unfold ctrl_learn_api_uc_mac_addr_get. cbv [mbind comp_bind gets access]. rewrite Hi. cbn [negb]. cbn beta iota.
  rewrite (decide_False (P := Z.of_nat cnt = 0)) by lia.
  assert (Hvid : filter_by_vid f && bool_decide (VID_MAX < filter_vid f) = false).
  { destruct (filter_by_vid f); [|done]. cbn. apply bool_decide_false. specialize (Hv eq_refl). lia. }
  rewrite Hvid. apply with_lock_read; [done|]. intros held. by apply Hr.
Qed.
End Read.
