(* ===== verification/CtrlLearnApiProps.v ===== *)
(** * Properties of the interface of controlled learning

    The call that sets addresses refines updates of a map, also when the hardware
    fails for some of them; reading page by page gives every address once; and the
    cookie of an address that is modified goes to the new addresses that follow it
    in the same call. *)

From S2P Require Import Prelude Bytes Comp Qlist RbMap Storage FdbFilter FdbLists FdbFilterSpec FdbFilterOps.
From S2P Require Import UcDb UcDbSpec UcDbInit FdbStorage UcDbProps CtrlLearn CtrlLearnApi CtrlLearnSpec CtrlLearnNotify CtrlLearnEvents.
From S2P Require Import CtrlLearnProps CtrlLearnSet CtrlLearnRead.
From S2P Require Pool.

Local Open Scope Z_scope.
Local Open Scope list_scope.

Section Props.
Context {M P A W : Type} {OM : OrderedMap M} {OML : OrderedMapLaws M} {OP : ObjectPool P A} {OPL : ObjectPoolLaws P A}
  {EL : EntryLayout} {LE : LearnEnv W} {LL : LearnEnvLaws W}.
Implicit Types (s : fdb M P A) (l : learn M P A W) (v : known) (p : fdb_uc_mac_addr_params).

(** Entries a client may set. *)
Definition entries_ok (ports : list Z) (cmd : oes_access_cmd) (entries : list fdb_uc_mac_addr_params) : Prop :=
  (0 < length entries <= MAX_EVENT_INFO_SIZE)%nat /\ Forall (fun p => address_ok ports (addr_params p)) entries /\
  forallb (unicast_ok cmd) entries = true.

(** The client's callbacks succeed, the first only decides, and the heap has room. *)
Definition client_ok l : Prop :=
  (forall f, ctrl_learn_notification_cb l = Some f -> decides_only f) /\ never_fails (ctrl_learn_notification_cb l) /\
  cookies_ok (ctrl_learn_init_deinit_cb l) /\ heap_ok (W := W).

Lemma set_known ports cmd entries originator lock l v :
  knows ports l v -> cmd = OES_ACCESS_CMD_ADD \/ cmd = OES_ACCESS_CMD_DELETE -> is_ctrl_learn_start l = true ->
  entries_ok ports cmd entries -> client_ok l ->
  exists err out cnt v' l',
    ctrl_learn_api_fdb_uc_mac_addr_set cmd (Some entries) (Some (Z.of_nat (length entries))) originator lock l
      = Some ((err, Some out, Some cnt), l') /\ knows ports l' v' /\ set_result cmd l v entries (err, out, cnt) v'.
Proof.
  intros [(Hp & vend & U1 & U2 & Hlay & Hnull & Hc1 & Hc2 & Hd) Hl] Hcmd Hst (Hlen & Hok & Hu) (Hcb & Hnf & Hck & Hh).
  destruct (mac_addr_set_spec vend U1 U2 Hlay Hnull Hc1 Hc2 ports Hp cmd lock entries originator l v Hcmd Hst Hlen Hok Hd Hl Hcb)
    as (err & out & cnt & v' & s' & w' & E & H1 & H2).
  exists err, out, cnt, v', (set_world (set_db l s') w'). split; [exact E|]. split; [|by apply H2].
  split; [|exact Hl]. split; [exact Hp|]. by exists vend, U1, U2.
Qed.

(** ** Claims *)

(** C8. Setting addresses refines updates of a map of known addresses: when the
    hardware takes them all, the entries that change something are offered to the
    client's callback, and those approved are added or deleted in order, adding
    until one does not fit; entries to be added that are known as they are, and
    entries to be deleted that are not known, are left out.  The client's array
    stays, the count of failures is zero, the lock is free in the end. *)
Theorem set_addresses_refines ports cmd entries originator lock l v :
  knows ports l v -> cmd = OES_ACCESS_CMD_ADD \/ cmd = OES_ACCESS_CMD_DELETE -> is_ctrl_learn_start l = true ->
  entries_ok ports cmd entries -> client_ok l -> hal_always (ctrl_learn_br_id l) 0 ->
  let ps := filterb (changes cmd v) entries in
  exists (ds : list bool) l', length ds = length ps /\
    (ctrl_learn_notification_cb l = None -> ds = capacity (MAX_FDB_ENTRIES - Z.of_nat (size v)) 0 (replicate (length ps) (set_kind cmd))) /\
    let '(err, v') := set_updates cmd (chosen ds ps) 0 v in
    ctrl_learn_api_fdb_uc_mac_addr_set cmd (Some entries) (Some (Z.of_nat (length entries))) originator lock l
      = Some ((err, Some entries, Some 0), l') /\ knows ports l' v'.
Proof.
  intros Hk Hcmd Hst Hok Hcl Hhal ps.
  destruct (set_known ports cmd entries originator lock l v Hk Hcmd Hst Hok Hcl)
    as (err & out & cnt & v' & l' & E & H & ds & Hds & Hnone & hal_err & failed & H0 & Ha & Hf & _ & _ & Hres).
  fold ps in Hds, Hnone, Ha, H0, Hres. exists ds, l'. split; [done|]. split; [done|].
  assert (hal_err = 0) as ->. { destruct (decide (chosen ds ps = [])) as [Hn|Hn]; [by apply H0|by apply Ha]. }
  rewrite (Hf eq_refl) in Hres. assert (Hid : filterb (fun p => negb (fails [] p)) (chosen ds ps) = chosen ds ps).
  { clear. induction (chosen ds ps) as [|x xs IH]; [done|]. rewrite filterb_cons. change (negb (fails [] x)) with true. cbn iota. by rewrite IH. }
  rewrite Hid in Hres. destruct (set_updates cmd (chosen ds ps) 0 v) as [err1 v1].
  rewrite decide_True in Hres by done. destruct Hres as [[= -> -> ->] ->]. done.
Qed.

(** C40. When the hardware fails for the addresses to be set, the addresses that
    change something and fit are handed to it, and what it reports is what counts:
    the client gets the entries reported as failed, each one of those asked for, at
    the start of its array, their number and the error; the addresses that are not
    among them are added or deleted nevertheless. *)
Theorem set_addresses_hal_error ports cmd entries originator lock l v e :
  knows ports l v -> cmd = OES_ACCESS_CMD_ADD \/ cmd = OES_ACCESS_CMD_DELETE -> is_ctrl_learn_start l = true ->
  entries_ok ports cmd entries -> client_ok l -> ctrl_learn_notification_cb l = None ->
  hal_always (ctrl_learn_br_id l) e -> e <> 0 ->
  let ps := filterb (changes cmd v) entries in
  let approved := chosen (capacity (MAX_FDB_ENTRIES - Z.of_nat (size v)) 0 (replicate (length ps) (set_kind cmd))) ps in
  approved <> [] ->
  exists es es' cnt w w' l', Forall2 stands_for approved es /\
    ctrl_learn_hal_fdb_uc_mac_addr_set cmd (ctrl_learn_br_id l) es w = ((e, es', cnt), w') /\
    let failed := take (Z.to_nat cnt) es' in
    (forall q, q ∈ failed -> exists p, p ∈ approved /\ stands_for p q) /\
    ctrl_learn_api_fdb_uc_mac_addr_set cmd (Some entries) (Some (Z.of_nat (length entries))) originator lock l
      = Some ((e, Some (failed ++ drop (length failed) entries), Some (Z.of_nat (length failed))), l') /\
    knows ports l' (set_updates cmd (filterb (fun p => negb (fails failed p)) approved) e v).2.
Proof.
  intros Hk Hcmd Hst Hok Hcl Hcb Hhal He ps approved Hne.
  destruct (set_known ports cmd entries originator lock l v Hk Hcmd Hst Hok Hcl)
    as (err & out & cnt & v' & l' & E & H & ds & Hds & Hnone & hal_err & failed & H0 & Ha & Hf & Hst' & Hrep & Hres).
  rewrite (Hnone Hcb) in *. fold ps approved in Ha, Hst', Hrep, Hres. assert (hal_err = e) as -> by by apply Ha.
  destruct (Hrep He) as (es & es' & n & w & w' & Hes & Hhw & ->). exists es, es', n, w, w', l'.
  split; [done|]. split; [done|]. intros failed. fold failed in Hst', Hres. split; [done|]. destruct (set_updates cmd _ e v) as [err1 v1]. rewrite decide_False in Hres by done.
  destruct Hres as [[= -> -> ->] ->]. done.
Qed.

(** C9. Reading page by page gives every address once: there is one sequence of the
    keys of the addresses that match the filter, in ascending order without a
    filter, such that a first read gives the first addresses of it and a further
    read, from an address of it, those that follow, as many as the client has room
    for, each as it is known; when there are none the status is -ENOENT.  Reading
    one address gives what is known of it.  The state stays as it is. *)
Theorem read_pages_complete ports l v f lock :
  knows ports l v -> is_ctrl_learn_initialized l = true ->
  (filter_by_vid f = true -> filter_vid f <= VID_MAX) -> (filtered f = true -> filter_ok f) ->
  (exists ks, listed f v ks /\
    (forall arr cnt, (0 < cnt <= length arr)%nat ->
      exists res, ctrl_learn_api_uc_mac_addr_get OES_ACCESS_CMD_GET_FIRST (Some f) arr (Some (Z.of_nat cnt)) lock l = Some (res, l) /\
        read_result v ks arr cnt res) /\
    (forall e arr cnt ks1 ks2, (0 < cnt <= length (e :: arr))%nat -> ks = ks1 ++ mac_key (addr_params e) :: ks2 ->
      exists res, ctrl_learn_api_uc_mac_addr_get OES_ACCESS_CMD_GET_NEXT (Some f) (e :: arr) (Some (Z.of_nat cnt)) lock l = Some (res, l) /\
        read_result v ks2 (e :: arr) cnt res)) /\
  (forall e arr cnt, (0 < cnt)%nat ->
    exists res, ctrl_learn_api_uc_mac_addr_get OES_ACCESS_CMD_GET (Some f) (e :: arr) (Some (Z.of_nat cnt)) lock l = Some (res, l) /\
      match v !! mac_key (addr_params e) with
      | Some x => exists out, res = (0, out :: arr, 1) /\ shown out = x
      | None => res = (- ENOENT, e :: arr, 0)
      end).
Proof.
  intros [(Hp & vend & U1 & U2 & Hlay & Hnull & Hc1 & Hc2 & Hd) Hl] Hi Hvid Hf. split.
  - destruct (read_pages vend U1 U2 Hlay Hnull Hc1 Hc2 ports f (db l) v Hd Hf) as (ks & Hks & Hpages).
    exists ks. split; [done|]. split.
    + intros arr cnt Hlen. destruct (proj1 Hpages arr cnt Hlen) as (res & H1 & E1). exists res. split; [|done].
      apply mac_addr_get_run; (done || lia).
    + intros e arr cnt ks1 ks2 Hlen Heq. destruct (proj2 Hpages e arr cnt ks1 ks2 Hlen Heq) as (res & H1 & E1). exists res. split; [|done].
      apply mac_addr_get_run; (done || lia).
  - intros e arr cnt Hcnt.
    destruct (read_one vend U1 U2 Hlay Hnull Hc1 Hc2 ports f (db l) v e arr (Z.of_nat cnt) Hd) as (res & H1 & E1). exists res. split; [|done].
    by apply mac_addr_get_run.
Qed.

(** In a call that adds addresses, a new address that follows a modified one gets
    the modified one's cookie: if that is not null, the client's callback is not
    asked for a cookie, and two records in the database share one cookie. *)
Theorem set_addresses_shares_cookie ports l v e1 e2 a arr0 :
  knows ports l v -> fdb_uc_db_get_record_by_key (mac_key (addr_params e1)) (db l) = Some (0, a) ->
  changes OES_ACCESS_CMD_ADD v e1 = true -> v !! mac_key (addr_params e2) = None -> (1 < length arr0)%nat ->
  let c := cookie (data (db l) a) in
  exists arr r, collect OES_ACCESS_CMD_ADD [e1; e2] arr0 0 NULL l = Some ((arr, 2%nat), l) /\
    arr !! 1%nat = Some r /\ record_event r = OesEvent OES_FDB_EVENT_LEARN (FdbEntry (addr_params e2)) /\ record_cookie r = c /\
    (c <> NULL -> set_add 0 r l = in_db (fdb_uc_db_add_record (Some (EntryData (set_params e2) c (addr_entry_type e2)))) l).
Proof.
  intros [(Hp & vend & U1 & U2 & Hlay & Hnull & Hc1 & Hc2 & Hd) Hl] Hg Hch Hnew Hlen c.
  pose proof (db_get_spec vend U1 U2 Hlay Hnull Hc1 Hc2 ports (db l) v) as Hget.
  destruct (Hget (mac_key (addr_params e1)) Hd) as (a' & Hg' & Ha). rewrite Hg in Hg'.
  destruct (v !! mac_key (addr_params e1)) as [x|] eqn:Hx; [|by injection Hg' as ? _]. injection Hg' as <-. destruct Ha as [Hn Hk].
  destruct (Hget (mac_key (addr_params e2)) Hd) as (a2 & Hg2 & Ha2). rewrite Hnew in Hg2, Ha2. subst a2.
  cbn [collect]. unfold ask. cbv [mbind comp_bind gets access].
  change (key_of (addr_params e1)) with (mac_key (addr_params e1)). change (key_of (addr_params e2)) with (mac_key (addr_params e2)).
  rewrite Hg. cbn beta iota. rewrite (decide_False (P := 0 <> 0 /\ _)) by tauto. rewrite (decide_True (P := a <> NULL)) by done.
  unfold changes in Hch. rewrite Hx in Hch. apply negb_true_iff, bool_decide_eq_false in Hch. rewrite <- Hk in Hch.
  rewrite decide_False by exact Hch. unfold write_at. rewrite (decide_True (P := (0 < length arr0)%nat)) by lia. cbn beta iota.
  rewrite Hg2. cbn beta iota. rewrite (decide_False (P := - ENOENT <> 0 /\ _)) by tauto. rewrite (decide_False (P := NULL <> NULL)) by tauto.
  rewrite decide_True by (rewrite length_alter; lia). cbn beta iota. fold c.
  destruct arr0 as [|r0 [|r1 arr0]]; cbn [length] in Hlen; [lia|lia|]. eexists _, _. split; [reflexivity|]. split; [reflexivity|].
  split; [done|]. split; [done|]. intros Hc. unfold set_add. cbn [record_event record_cookie record_entry_type event_data].
  rewrite fdb_entry_law. rewrite (decide_True (P := c <> NULL)) by done. cbv [mbind comp_bind mret comp_ret]. cbn beta iota.
  rewrite (decide_False (P := 0 <> 0)) by lia. unfold with_lock. cbv [mbind comp_bind mret comp_ret].
  rewrite (decide_False (P := 0 = 1)) by lia. fold (set_params e2). by destruct (in_db _ l) as [[err l']|].
Qed.
End Props.

(** ** Witnesses *)

#[local] Existing Instances Pool.bump_allocator Pool.bump_laws.

(** A known address on another port, one that is known as it is, and a new one. *)
Definition demo_entries : list fdb_uc_mac_addr_params :=
  [MacAddr (demo_addr 1 10 9) FDB_UC_AGEABLE 0; MacAddr (demo_addr 2 20 9) FDB_UC_STATIC 0; MacAddr (demo_addr 4 10 7) FDB_UC_AGEABLE 0].
Definition demo_set_view : known :=
  <[mac_key (demo_addr 4 10 7) := (demo_addr 4 10 7, FDB_UC_AGEABLE)]> (<[mac_key (demo_addr 1 10 7) := (demo_addr 1 10 9, FDB_UC_AGEABLE)]> demo_view).

Lemma demo_entries_ok : entries_ok [7; 9] OES_ACCESS_CMD_ADD demo_entries.
Proof.
  split; [split; apply Nat.leb_le; reflexivity|]. split; [|reflexivity].
  repeat (apply Forall_cons; split); try apply Forall_nil_2; apply demo_address; lia.
Defined.

Lemma demo_client answer : client_ok (demo_learn answer).
Proof. split; [done|]. split; [done|]. split; [done|]. by intros []. Defined.

Lemma set_addresses_refines_witness :
  exists l', ctrl_learn_api_fdb_uc_mac_addr_set OES_ACCESS_CMD_ADD (Some demo_entries) (Some 3) NULL 1 (demo_learn 0)
      = Some ((0, Some demo_entries, Some 0), l') /\ knows [7; 9] l' demo_set_view.
Proof.
  destruct (set_addresses_refines [7; 9] OES_ACCESS_CMD_ADD demo_entries NULL 1 (demo_learn 0) demo_view (demo_knows 0) (or_introl eq_refl) eq_refl
    demo_entries_ok (demo_client 0)) as (ds & l' & _ & Hds & H); [done|].
  rewrite (Hds eq_refl) in H. exists l'. clear -H.
  assert (E : set_updates OES_ACCESS_CMD_ADD (chosen (capacity (MAX_FDB_ENTRIES - Z.of_nat (size demo_view)) 0
    (replicate (length (filterb (changes OES_ACCESS_CMD_ADD demo_view) demo_entries)) (set_kind OES_ACCESS_CMD_ADD)))
    (filterb (changes OES_ACCESS_CMD_ADD demo_view) demo_entries)) 0 demo_view = (0, demo_set_view)) by (vm_compute; reflexivity).
  rewrite E in H. exact H.
Defined.

(** The layer reports the first of the two entries: it is the client's, one failure
    is counted, and only the other address is added. *)
Lemma set_addresses_hal_error_witness :
  exists q l', stands_for (MacAddr (demo_addr 1 10 9) FDB_UC_AGEABLE 0) q /\
    ctrl_learn_api_fdb_uc_mac_addr_set OES_ACCESS_CMD_ADD (Some demo_entries) (Some 3) NULL 1 (demo_learn (- EXFULL))
      = Some ((- EXFULL, Some (q :: drop 1 demo_entries), Some 1), l') /\
    knows [7; 9] l' (<[mac_key (demo_addr 4 10 7) := (demo_addr 4 10 7, FDB_UC_AGEABLE)]> demo_view).
Proof.
  assert (E : chosen (capacity (MAX_FDB_ENTRIES - Z.of_nat (size demo_view)) 0
    (replicate (length (filterb (changes OES_ACCESS_CMD_ADD demo_view) demo_entries)) (set_kind OES_ACCESS_CMD_ADD)))
    (filterb (changes OES_ACCESS_CMD_ADD demo_view) demo_entries)
    = [MacAddr (demo_addr 1 10 9) FDB_UC_AGEABLE 0; MacAddr (demo_addr 4 10 7) FDB_UC_AGEABLE 0]) by (vm_compute; reflexivity).
  destruct (set_addresses_hal_error [7; 9] OES_ACCESS_CMD_ADD demo_entries NULL 1 (demo_learn (- EXFULL)) demo_view (- EXFULL) (demo_knows _)
    (or_introl eq_refl) eq_refl demo_entries_ok (demo_client _)) as (es & es' & cnt & w & w' & l' & Hes & Hhw & _ & Hrun & H);
    [reflexivity|by intros cmd es w|discriminate|rewrite E; discriminate|].
  rewrite E in Hes, H. destruct es as [|q [|q2 [|q3 es]]]; try (apply Forall2_length in Hes; discriminate Hes).
  pose proof (proj1 (proj1 (Forall2_cons _ _ _ _ _) Hes)) as Hq.
  injection Hhw as <- <- _. exists q, l'. split; [exact Hq|]. split; [exact Hrun|].
  assert (Hup : (set_updates OES_ACCESS_CMD_ADD (filterb (fun p => negb (fails [q] p))
      [MacAddr (demo_addr 1 10 9) FDB_UC_AGEABLE 0; MacAddr (demo_addr 4 10 7) FDB_UC_AGEABLE 0]) (- EXFULL) demo_view).2
    = <[mac_key (demo_addr 4 10 7) := (demo_addr 4 10 7, FDB_UC_AGEABLE)]> demo_view).
  { clear -Hq. destruct Hq as (H1 & H2 & H3 & H4). destruct q as [[m vi po t] ty c].
    cbn [mac_addr vid log_port addr_params addr_entry_type] in H1, H2, H3, H4. subst. vm_compute. reflexivity. }
  rewrite <- Hup. exact H.
Defined.

(** Without a filter, the first page of two addresses, and what is known of one. *)
Lemma read_pages_complete_witness :
  let f := KeyFilter false 0 false 0 in let arr := [mac_addr0; mac_addr0] in
  (exists ks res, listed f demo_view ks /\ read_result demo_view ks arr 2 res /\
    ctrl_learn_api_uc_mac_addr_get OES_ACCESS_CMD_GET_FIRST (Some f) arr (Some 2) 1 (demo_learn 0) = Some (res, demo_learn 0)) /\
  exists out, ctrl_learn_api_uc_mac_addr_get OES_ACCESS_CMD_GET (Some f) [MacAddr (demo_addr 1 10 0) 0 0] (Some 1) 0 (demo_learn 0)
    = Some ((0, [out], 1), demo_learn 0) /\ shown out = (demo_addr 1 10 7, FDB_UC_AGEABLE).
Proof.
  intros f arr. split.
  - destruct (read_pages_complete [7; 9] (demo_learn 0) demo_view f 1 (demo_knows 0) eq_refl) as [(ks & Hks & Hfirst & _) _]; [done|done|].
    destruct (Hfirst arr 2%nat) as (res & E & H); [cbn; lia|]. exists ks, res. split; [exact Hks|]. split; [exact H|exact E].
  - destruct (read_pages_complete [7; 9] (demo_learn 0) demo_view f 0 (demo_knows 0) eq_refl) as [_ Hone]; [done|done|].
    destruct (Hone (MacAddr (demo_addr 1 10 0) 0 0) [] 1%nat) as (res & E & H); [lia|].
    assert (Ev : demo_view !! mac_key (demo_addr 1 10 0) = Some (demo_addr 1 10 7, FDB_UC_AGEABLE)) by (vm_compute; reflexivity).
    cbn [addr_params] in H. rewrite Ev in H. destruct H as (out & -> & Hout). exists out. split; [exact E|exact Hout].
Defined.

Definition demo_record_at : ptr :=
  default NULL (snd <$> fdb_uc_db_get_record_by_key (mac_key (demo_addr 1 10 7)) demo_fdb2).

(** The new address gets the cookie 77 of the one moved to port 9. *)
Lemma set_addresses_shares_cookie_witness :
  let e1 := MacAddr (demo_addr 1 10 9) FDB_UC_AGEABLE 0 in let e2 := MacAddr (demo_addr 4 10 7) FDB_UC_AGEABLE 0 in
  exists arr r, collect OES_ACCESS_CMD_ADD [e1; e2] [uninit_record tt 0; uninit_record tt 1] 0 NULL (demo_learn 0)
      = Some ((arr, 2%nat), demo_learn 0) /\
    arr !! 1%nat = Some r /\ record_event r = OesEvent OES_FDB_EVENT_LEARN (FdbEntry (demo_addr 4 10 7)) /\ record_cookie r = 77.
Proof.
  intros e1 e2.
  assert (Ec : fdb_uc_db_get_record_by_key (mac_key (demo_addr 1 10 9)) demo_fdb2 = Some (0, demo_record_at) /\ cookie (data demo_fdb2 demo_record_at) = 77)
    by (vm_compute; split; reflexivity).
  destruct (set_addresses_shares_cookie [7; 9] (demo_learn 0) demo_view e1 e2 demo_record_at [uninit_record tt 0; uninit_record tt 1] (demo_knows 0)
    (proj1 Ec)) as (arr & r & E & Hr & He & Hc & _); [vm_compute; reflexivity|vm_compute; reflexivity|cbn; lia|].
  exists arr, r. split; [exact E|]. split; [exact Hr|]. split; [exact He|]. etransitivity; [exact Hc|exact (proj2 Ec)].
Defined.
