(* ===== verification/CtrlLearnSafe.v ===== *)
(** * Safety of controlled learning

    From a successful initialisation on, as long as the switch reports what it
    documents and clients keep to what the library needs of them, every call has a
    result and leaves the database whole and the lock free. *)

From S2P Require Import Prelude Bytes Comp Qlist RbMap Storage FdbFilter FdbLists FdbFilterSpec FdbFilterOps.
From S2P Require Import UcDb UcDbSpec UcDbInit FdbStorage UcDbProps CtrlLearn CtrlLearnApi CtrlLearnThread.
From S2P Require Import CtrlLearnSpec CtrlLearnNotify CtrlLearnEvents CtrlLearnProps CtrlLearnSet CtrlLearnRead.
From S2P Require Pool.

Local Open Scope Z_scope.
Local Open Scope list_scope.

(** What the switch reports: as many events as it says, in an array of 670, within
    the bounds of the database. *)
Definition reports_ok {W} `{LS : LearnSystem W} `{LE : LearnEnv W} (ports : list Z) : Prop :=
  forall fd vs w st evs n w', oes_api_event_recv fd vs w = ((st, evs, n), w') ->
    length evs = MAX_EVENT_INFO_SIZE /\ 0 <= int32 n <= Z.of_nat MAX_EVENT_INFO_SIZE /\ Forall (event_ok ports) evs.

Section Safe.
Context {M P A W : Type} {OM : OrderedMap M} {OML : OrderedMapLaws M} {OP : ObjectPool P A} {OPL : ObjectPoolLaws P A}
  {EL : EntryLayout} {LE : LearnEnv W} {LL : LearnEnvLaws W} {LS : LearnSystem W}.
Context (ports : list Z) (Hreports : reports_ok ports).
Abbreviation learn := (learn M P A W).
Abbreviation L := (comp learn).
Implicit Types (s : fdb M P A) (l : learn) (v : known).

(** A turn of the thread, or a call of a client. *)
Inductive learn_call :=
| Turn (fd vs_ext : Z)
| Simulate (cmd : oes_access_cmd) (entries : list fdb_uc_mac_addr_params)
| SetAddresses (cmd : oes_access_cmd) (entries : list fdb_uc_mac_addr_params) (originator : ptr) (fdb_lock : Z)
| GetAddresses (cmd : oes_access_cmd) (f : fdb_uc_key_filter) (arr : list fdb_uc_mac_addr_params) (cnt fdb_lock : Z)
| FlushAll (originator : ptr)
| FlushPort (port : Z) (originator : ptr)
| FlushVid (v : Z) (originator : ptr)
| FlushPortVid (v port : Z) (originator : ptr)
| RegisterNotification (params : option ctrl_learn_notify_params) (cb : option (ctrl_learn_notification_func W))
| UnregisterNotification
| RegisterCookie (cb : option (ctrl_learn_mac_addr_cookie_init_deinit_func W))
| UnregisterCookie.

Definition run_call (c : learn_call) : L unit :=
  match c with
  | Turn fd vs_ext => thread_turn fd vs_ext;; mret tt
  | Simulate cmd es => ctrl_learn_simulate_oes_event cmd (Some es) (Z.of_nat (length es));; mret tt
  | SetAddresses cmd es originator lock =>
      ctrl_learn_api_fdb_uc_mac_addr_set cmd (Some es) (Some (Z.of_nat (length es))) originator lock;; mret tt
  | GetAddresses cmd f arr cnt lock => ctrl_learn_api_uc_mac_addr_get cmd (Some f) arr (Some cnt) lock;; mret tt
  | FlushAll originator => ctrl_learn_api_fdb_uc_flush_set originator;; mret tt
  | FlushPort port originator => ctrl_learn_api_fdb_uc_flush_port_set port originator;; mret tt
  | FlushVid v originator => ctrl_learn_api_fdb_uc_flush_vid_set v originator;; mret tt
  | FlushPortVid v port originator => ctrl_learn_api_fdb_uc_flush_port_vid_set v port originator;; mret tt
  | RegisterNotification params cb => ctrl_learn_register_notification params cb;; mret tt
  | UnregisterNotification => ctrl_learn_unregister_notification_cb;; mret tt
  | RegisterCookie cb => ctrl_learn_register_init_deinit_mac_addr_cookie_cb cb;; mret tt
  | UnregisterCookie => ctrl_learn_unregister_init_deinit_mac_addr_cookie_cb;; mret tt
  end.

(** The arrays have the places their counts say, no more than 670 entries are given
    at once, and the addresses are within the bounds of the database; an address to
    read from by a filter is left out. *)
Definition call_ok (c : learn_call) : Prop :=
  match c with
  | Simulate _ es | SetAddresses _ es _ _ =>
      (length es <= MAX_EVENT_INFO_SIZE)%nat /\ Forall (fun p => address_ok ports (addr_params p)) es
  | GetAddresses cmd f arr cnt _ =>
      0 <= cnt <= Z.of_nat (length arr) /\ (filtered f = true -> filter_ok f) /\
      (cmd = OES_ACCESS_CMD_GET_NEXT -> filtered f = false)
  | RegisterNotification _ (Some cb) => decides_only cb
  | _ => True
  end.

Record good l : Prop := {
  good_knows : exists v, knows ports l v;
  good_decides f : ctrl_learn_notification_cb l = Some f -> decides_only f;
  good_sim : Forall (event_ok ports) (event_info_sim l);
  good_sim_length : (length (event_info_sim l) <= MAX_EVENT_INFO_SIZE)%nat }.

Abbreviation keeps c := (triple good c (fun _ => good)).

Lemma good_change l s' w' v : good l -> knows ports (set_world (set_db l s') w') v -> good (set_world (set_db l s') w').
Proof. intros [_ H1 H2 H3] Hk. split; [by exists v|exact H1|exact H2|exact H3]. Qed.

Lemma keeps_ext {X} (f : W -> X * W) : keeps (ext f).
Proof.
  intros l [(v & Hk) H1 H2 H3]. unfold ext. destruct (f (world l)) as [x w]. exists x, (set_world l w). split; [done|].
  split; [|exact H1|exact H2|exact H3]. by exists v.
Qed.

(** A computation that has a result and changes only the database and the outside. *)
Lemma keeps_run {X} (c : L X) :
  (forall l v, good l -> knows ports l v ->
    exists x s' w' v', c l = Some (x, set_world (set_db l s') w') /\ knows ports (set_world (set_db l s') w') v') ->
  keeps c.
Proof.
  intros H l Hg. destruct (good_knows _ Hg) as [v Hk]. destruct (H l v Hg Hk) as (x & s' & w' & v' & E & Hk').
  exists x, (set_world (set_db l s') w'). split; [done|]. by eapply good_change.
Qed.

Lemma keeps_handle info num evs :
  first_of num info = Some evs -> Forall (event_ok ports) evs -> (length evs <= MAX_EVENT_INFO_SIZE)%nat ->
  keeps (ctrl_learn_handle_oes_event info num).
Proof using LL OPL OML.
  intros Hinfo Hok Hlen. apply keeps_run. intros l v Hg [(Hp & vend & U1 & U2 & Hlay & Hnull & Hc1 & Hc2 & Hd) Hl].
  assert (Hb : (length (batch_of evs) <= MAX_EVENT_INFO_SIZE)%nat).
  { etransitivity; [|exact Hlen]. unfold batch_of. clear. induction evs as [|ev evs IH]; [done|]. cbn. destruct (noted_of ev); cbn; lia. }
  destruct (handle_spec vend U1 U2 Hlay Hnull Hc1 Hc2 ports Hp l v evs info num Hd Hl Hinfo Hok Hb (good_decides _ Hg))
    as (ds & err0 & err & w0 & s' & w' & _ & _ & E & H).
  assert (Hd' : exists v', db_is vend U1 U2 ports s' v').
  { destruct (decide _) in H; destruct H as [_ H]; eexists; exact H. }
  destruct Hd' as [v' Hd']. exists err, s', w', v'. split; [exact E|]. split; [|exact Hl]. split; [exact Hp|]. by exists vend, U1, U2.
Qed.

Lemma keeps_ext_bind {X Y} (f : W -> X * W) (k : X -> L Y) :
  (forall x w w', f w = (x, w') -> keeps (k x)) -> keeps (ext f ≫= k).
Proof.
  intros Hk l Hg. destruct (f (world l)) as [x w] eqn:E. destruct (keeps_ext f l Hg) as (x' & l' & E' & Hg').
  unfold ext in E'. rewrite E in E'. injection E' as <- <-. cbv [mbind comp_bind ext]. rewrite E. by apply (Hk x _ _ E).
Qed.

Lemma keeps_gets_bind {X Y} (f : learn -> X) (k : X -> L Y) : (forall l, good l -> keeps (k (f l))) -> keeps (gets f ≫= k).
Proof. intros Hk l Hg. by apply (Hk l Hg). Qed.

Lemma keeps_if {X} (b : bool) (c1 c2 : L X) : keeps c1 -> keeps c2 -> keeps (if b then c1 else c2).
Proof. by destruct b. Qed.

Lemma keeps_decide {X} (Q : Prop) `{Decision Q} (c1 c2 : L X) : (Q -> keeps c1) -> (~ Q -> keeps c2) -> keeps (if decide Q then c1 else c2).
Proof. intros H1 H2. case_decide; auto. Qed.

(** Steps through calls of the outside and tests. *)
Ltac keep :=
  repeat first
    [ apply preserves_ret | apply keeps_ext | apply preserves_gets
    | apply preserves_bind; [|intros ?]
    | apply keeps_if | apply keeps_decide; intros ?
    | progress cbn beta iota
    | match goal with |- triple good (let '(_, _) := ?x in _) _ => destruct x end
    | match goal with |- triple good (match ?x with _ => _ end) _ => destruct x eqn:? end ].

(** *** The thread *)

Lemma keeps_turn fd vs_ext : keeps (thread_turn fd vs_ext).
Proof using LL OPL OML Hreports.
  unfold thread_turn. apply preserves_bind; [apply preserves_gets|intros quit]. apply preserves_bind; [apply preserves_gets|intros sim].
  apply preserves_bind; [apply keeps_ext|intros [fds|]]; [|keep].
  apply keeps_decide; intros _; [unfold thread_quit; keep|]. apply keeps_decide; intros _.
  - apply keeps_ext_bind. intros [[st evs] n] w w' E. destruct (Hreports _ _ _ _ _ _ _ E) as (Hl & Hn & Hok).
    apply keeps_decide; intros _; [keep|]. apply preserves_bind; [apply preserves_gets|intros multiple].
    apply preserves_bind; [|intros ?; keep]. set (num := if decide (multiple = 1) then int32 n else 1).
    assert (Hnum : 0 <= num <= Z.of_nat MAX_EVENT_INFO_SIZE) by (unfold num; case_decide; [done|by vm_compute]).
    apply (keeps_handle evs num (take (Z.to_nat num) evs)).
    + unfold first_of. by rewrite decide_True by lia.
    + by apply Forall_take.
    + rewrite length_take. lia.
  - apply keeps_decide; intros _; [|keep]. apply preserves_bind; [apply keeps_ext|intros _]. apply keeps_gets_bind. intros l Hg.
    apply preserves_bind; [|intros ?; keep]. apply (keeps_handle _ _ (event_info_sim l)).
    + by rewrite first_of_run, firstn_all.
    + apply (good_sim _ Hg).
    + apply (good_sim_length _ Hg).
Qed.

Lemma keeps_simulate cmd es :
  (length es <= MAX_EVENT_INFO_SIZE)%nat -> Forall (fun p => address_ok ports (addr_params p)) es ->
  keeps (ctrl_learn_simulate_oes_event cmd (Some es) (Z.of_nat (length es))).
Proof using LL.
  intros Hlen Hok. unfold ctrl_learn_simulate_oes_event. apply keeps_decide; intros _; [keep|].
  assert (Hsim : Forall (event_ok ports) (simulated_event cmd <$> es)).
  { apply Forall_fmap. eapply Forall_impl; [exact Hok|]. intros p Hp. unfold event_ok, event_entry, simulated_event. cbn [compose fbd_event_type event_data].
    cbn beta. cbn [fbd_event_type event_data]. rewrite fdb_entry_law. case_decide; exact Hp. }
  assert (Hgo : keeps (entries ← access (first_of (Z.of_nat (length es)) es);
    if negb (forallb (unicast_ok cmd) entries) then mret (- EINVAL)
    else if decide (Z.of_nat (length es) > Z.of_nat MAX_EVENT_INFO_SIZE) then access None
    else modify (fun l => set_sim l (simulated_event cmd <$> entries));; sim ← gets simulate_oes_event_fd;
         ok ← ext (sys_write sim.2); mret (if (ok : bool) then 0 else - EPERM))).
  { rewrite first_of_run, firstn_all by done. cbv [access]. apply (triple_bind _ _ _ (fun xs l => good l /\ xs = es)).
    { intros l Hg. by exists es, l. }
    intros xs. apply triple_pure. intros ->. apply keeps_if; [keep|]. rewrite decide_False by lia.
    apply preserves_bind; [|intros _; keep]. apply preserves_modify. intros l [(v & Hk) H1 H2 H3].
    split; [by exists v|exact H1|exact Hsim|]. cbn [event_info_sim set_sim]. by rewrite length_fmap. }
  destruct cmd; (exact Hgo || keep).
Qed.

(** *** Clients *)

Lemma keeps_set cmd es originator lock :
  (length es <= MAX_EVENT_INFO_SIZE)%nat -> Forall (fun p => address_ok ports (addr_params p)) es ->
  keeps (ctrl_learn_api_fdb_uc_mac_addr_set cmd (Some es) (Some (Z.of_nat (length es))) originator lock).
Proof using LL OPL OML.
  intros Hlen Hok. apply keeps_run. intros l v Hg Hk. pose proof Hk as [(Hp & vend & U1 & U2 & Hlay & Hnull & Hc1 & Hc2 & Hd) Hl].
  assert (Hsame : forall X (x : X), Some (x, l) = Some (x, set_world (set_db l (db l)) (world l))) by (by destruct l).
  assert (Hk' : knows ports (set_world (set_db l (db l)) (world l)) v) by (by destruct l).
  destruct (is_ctrl_learn_start l) eqn:Hst.
  2: { unfold ctrl_learn_api_fdb_uc_mac_addr_set. cbv [mbind comp_bind gets]. rewrite Hst. eexists _, (db l), (world l), v. split; [apply Hsame|done]. }
  destruct (decide (length es = 0%nat)) as [Hz|Hz].
  { unfold ctrl_learn_api_fdb_uc_mac_addr_set. cbv [mbind comp_bind gets]. rewrite Hst, Hz. cbn [negb]. cbn iota.
    rewrite (decide_True (P := Z.of_nat 0 = 0)) by done. eexists _, (db l), (world l), v. split; [apply Hsame|done]. }
  assert (Hc : (cmd = OES_ACCESS_CMD_ADD \/ cmd = OES_ACCESS_CMD_DELETE) \/ (cmd <> OES_ACCESS_CMD_ADD /\ cmd <> OES_ACCESS_CMD_DELETE)).
  { destruct (decide (cmd = OES_ACCESS_CMD_ADD)), (decide (cmd = OES_ACCESS_CMD_DELETE)); auto. }
  destruct Hc as [Hcmd|[Hn1 Hn2]].
  - assert (Hpos : (0 < length es <= MAX_EVENT_INFO_SIZE)%nat) by lia.
    destruct (mac_addr_set_spec vend U1 U2 Hlay Hnull Hc1 Hc2 ports Hp cmd lock es originator l v Hcmd Hst Hpos Hok Hd Hl (good_decides _ Hg))
      as (err & out & cnt & v' & s' & w' & E & H1 & _).
    exists (err, Some out, Some cnt), s', w', v'. split; [exact E|]. split; [|exact Hl]. split; [exact Hp|]. by exists vend, U1, U2.
  - unfold ctrl_learn_api_fdb_uc_mac_addr_set. cbv [mbind comp_bind gets]. rewrite Hst. cbn [negb]. cbn iota.
    rewrite (decide_False (P := Z.of_nat (length es) = 0)) by lia.
    destruct cmd; try done; (eexists _, (db l), (world l), v; split; [apply Hsame|done]).
Qed.

Lemma keeps_get cmd f arr cnt lock :
  0 <= cnt <= Z.of_nat (length arr) -> (filtered f = true -> filter_ok f) -> (cmd = OES_ACCESS_CMD_GET_NEXT -> filtered f = false) ->
  keeps (ctrl_learn_api_uc_mac_addr_get cmd (Some f) arr (Some cnt) lock).
Proof using OPL OML.
  intros Hcnt Hf Hnext. apply keeps_run. intros l v Hg Hk. pose proof Hk as [(Hp & vend & U1 & U2 & Hlay & Hnull & Hc1 & Hc2 & Hd) Hl].
  assert (Hk' : knows ports (set_world (set_db l (db l)) (world l)) v) by (by destruct l).
  assert (Hres : exists res, ctrl_learn_api_uc_mac_addr_get cmd (Some f) arr (Some cnt) lock l = Some (res, l)).
  2: { destruct Hres as [res E]. exists res, (db l), (world l), v. split; [rewrite E; by destruct l|done]. }
  destruct (is_ctrl_learn_initialized l) eqn:Hi.
  2: { unfold ctrl_learn_api_uc_mac_addr_get. cbv [mbind comp_bind gets access]. rewrite Hi. by eexists. }
  destruct (decide (cnt = 0)) as [->|Hpos].
  { unfold ctrl_learn_api_uc_mac_addr_get. cbv [mbind comp_bind gets access]. rewrite Hi. cbn [negb]. cbn iota.
    rewrite (decide_True (P := 0 = 0)) by done. by eexists. }
  destruct (filter_by_vid f && bool_decide (VID_MAX < filter_vid f)) eqn:Hvid.
  { unfold ctrl_learn_api_uc_mac_addr_get. cbv [mbind comp_bind gets access]. rewrite Hi. cbn [negb]. cbn iota.
    rewrite (decide_False (P := cnt = 0)) by done. rewrite Hvid. by eexists. }
  assert (Hv : filter_by_vid f = true -> filter_vid f <= VID_MAX).
  { intros Hb. rewrite Hb in Hvid. cbn in Hvid. apply bool_decide_eq_false in Hvid. lia. }
  rewrite <- (Z2Nat.id cnt) by lia.
  assert (Hread : exists res, forall l', db l' = db l -> read_records cmd f arr (Z.of_nat (Z.to_nat cnt)) l' = Some (res, l')).
  2: { destruct Hread as [res E]. exists res. apply mac_addr_get_run; try done. lia. }
  destruct arr as [|e arr]; [cbn in Hcnt; lia|].
  destruct (read_pages vend U1 U2 Hlay Hnull Hc1 Hc2 ports f (db l) v Hd Hf) as (ks & Hks & Hfirst & Hpages).
  destruct cmd; try (eexists; intros l' _; done).
  - destruct (read_one vend U1 U2 Hlay Hnull Hc1 Hc2 ports f (db l) v e arr (Z.of_nat (Z.to_nat cnt)) Hd) as (res & _ & E). by exists res.
  - destruct (Hfirst (e :: arr) (Z.to_nat cnt)) as (res & _ & E); [lia|]. by exists res.
  - destruct (v !! mac_key (addr_params e)) as [x|] eqn:Hx.
    + destruct (list_elem_of_split ks (mac_key (addr_params e))) as (ks1 & ks2 & Hsplit).
      { apply Hks. exists x. split; [done|]. rewrite Hnext by done. done. }
      destruct (Hpages e arr (Z.to_nat cnt) ks1 ks2 ltac:(lia) Hsplit) as (res & _ & E). by exists res.
    + destruct (db_get_spec vend U1 U2 Hlay Hnull Hc1 Hc2 ports (db l) v (mac_key (addr_params e)) Hd) as (a & Hget & _).
      rewrite Hx in Hget. exists (- ENOENT, e :: arr, 0). intros l' Hl'. cbn [read_records]. unfold ask. cbv [mbind comp_bind gets access].
      cbn [lookup list_lookup]. cbn beta iota. change (key_of (addr_params e)) with (mac_key (addr_params e)). rewrite Hl', Hget. cbn beta iota.
      by rewrite decide_True by (unfold ENOENT; lia).
Qed.

Lemma keeps_notify_flush t d originator : keeps (notify_flush t d originator).
Proof.
  intros l Hg. unfold notify_flush. cbv [mbind comp_bind gets]. destruct (ctrl_learn_notification_cb l) as [f|] eqn:Hf; [|by exists (0, None), l].
  unfold uninit_records. cbv [mbind comp_bind gets mret comp_ret access]. unfold write_at. rewrite length_fmap, length_seq.
  rewrite decide_True by (apply Nat.ltb_lt; reflexivity). set (arr := alter _ 0%nat _).
  assert (Harr : (0 < length arr)%nat) by (unfold arr; rewrite length_alter, length_fmap, length_seq; apply Nat.ltb_lt; reflexivity).
  clearbody arr. unfold ext. destruct (f (NotifyData 1 arr) originator (world l)) as [[err nd] w] eqn:E.
  destruct (good_decides _ Hg f Hf _ _ _ _ _ _ E) as [_ Hrec]. cbn [records_arr] in Hrec.
  destruct (records_arr nd) as [|r rs]; [by destruct arr; [cbn in Harr; lia|inversion Hrec]|].
  cbn [lookup list_lookup]. eexists _, _. split; [done|]. destruct Hg as [[v Hk] H1 H2 H3]. split; [by exists v|exact H1|exact H2|exact H3].
Qed.

Lemma keeps_flushes originator port (w : Z) :
  keeps (ctrl_learn_api_fdb_uc_flush_set originator) /\ keeps (ctrl_learn_api_fdb_uc_flush_port_set port originator) /\
  keeps (ctrl_learn_api_fdb_uc_flush_vid_set w originator) /\ keeps (ctrl_learn_api_fdb_uc_flush_port_vid_set w port originator).
Proof.
  unfold ctrl_learn_api_fdb_uc_flush_set, ctrl_learn_api_fdb_uc_flush_port_set, ctrl_learn_api_fdb_uc_flush_vid_set, ctrl_learn_api_fdb_uc_flush_port_vid_set.
  split_and!; (apply preserves_bind; [apply preserves_gets|intros started]); (apply keeps_if; [keep|]);
    (apply preserves_bind; [apply keeps_notify_flush|intros [err d]]); keep.
Qed.

Lemma keeps_callbacks n c :
  (forall f, n = Some f -> decides_only f) -> forall l, good l -> good (set_callbacks l n c).
Proof. intros Hn l [(v & Hk) H1 H2 H3]. split; [by exists v|exact Hn|exact H2|exact H3]. Qed.

Lemma keeps_learn_call c : call_ok c -> keeps (run_call c).
Proof using LL OPL OML Hreports.
  intros Hc. destruct c; cbn [run_call call_ok] in *; (apply preserves_bind; [|intros ?; apply preserves_ret]).
  - apply keeps_turn.
  - destruct Hc. by apply keeps_simulate.
  - destruct Hc. by apply keeps_set.
  - destruct Hc as (? & ? & ?). by apply keeps_get.
  - apply (keeps_flushes originator 0 0).
  - apply (keeps_flushes originator port 0).
  - apply (keeps_flushes originator 0 v).
  - apply (keeps_flushes originator port v).
  - unfold ctrl_learn_register_notification. apply preserves_bind; [apply preserves_gets|intros started]. apply keeps_if; [keep|].
    apply preserves_bind; [apply preserves_gets|intros br]. apply preserves_bind; [destruct params; keep|intros err]. apply keeps_decide; intros _; [keep|].
    apply preserves_bind; [|intros ?; keep]. apply preserves_modify. intros l Hg. apply keeps_callbacks; [|done]. by intros f ->.
  - apply preserves_bind; [|intros ?; keep]. apply preserves_modify. intros l Hg. by apply keeps_callbacks.
  - apply preserves_bind; [|intros ?; keep]. apply preserves_modify. intros l Hg. apply keeps_callbacks; [|done]. apply (good_decides _ Hg).
  - apply preserves_bind; [|intros ?; keep]. apply preserves_modify. intros l Hg. apply keeps_callbacks; [|done]. apply (good_decides _ Hg).
Qed.

(** *** Initialisation *)

(** A result of 0 means that the database is there and empty. *)
Lemma init_good br_id multiple l0 l :
  static_ok (db l0) -> Z.of_nat (length ports) <= MAX_PORT_ENTRIES ->
  (forall f, ctrl_learn_notification_cb l0 = Some f -> decides_only f) -> event_info_sim l0 = [] ->
  ctrl_learn_init br_id multiple l0 = Some (0, l) -> good l /\ knows ports l ∅.
Proof.
  intros Hs Hp Hcb Hsim. unfold ctrl_learn_init, init_out, close_pipes, in_db. cbv [mbind comp_bind modify gets ext mret comp_ret].
  destruct (sys_event_init _) as [[] w1]; cbn [negb]; cbn beta iota; [|discriminate]. cbn [db set_world set_config].
  destruct (fdb_uc_db_init (db l0)) as [[err s]|] eqn:Ei; [|discriminate].
  destruct (decide (err <> 0)) as [He|He]; cbn beta iota; [discriminate|]. assert (err = 0) as -> by (destruct (decide (err = 0)); tauto).
  destruct (holds_after [] ports _ _ Hs Ei Hp (Forall_nil_2 _)) as (s1 & [= <-] & Hh).
  assert (Hgood : forall l', db l' = s -> fdb_lock_held l' = false -> event_info_sim l' = event_info_sim l0 ->
    ctrl_learn_notification_cb l' = ctrl_learn_notification_cb l0 -> good l' /\ knows ports l' ∅).
  { intros l' <- Hl Hsim' Hcb'. rewrite Hsim in Hsim'. assert (Hk : knows ports l' ∅) by (by split). split; [|done].
    split; [by exists ∅|by rewrite Hcb'|rewrite Hsim'; constructor|rewrite Hsim'; apply Nat.leb_le; reflexivity]. }
  destruct (sys_pipe _) as [[quit|] w2]; cbn beta iota; [|discriminate].
  destruct (sys_pipe _) as [[sim|] w3]; cbn beta iota; [|discriminate].
  destruct (sys_thread_init _) as [[] w4]; cbn [negb]; cbn beta iota.
  - intros [= <-]. by apply Hgood.
  - do 4 (match goal with |- context [sys_close ?a ?w] => destruct (sys_close a w); cbn beta iota end).
    intros [= <-]. by apply Hgood.
Qed.

(** ** Claims *)

End Safe.

(** ** Witness *)

#[local] Existing Instances Pool.bump_allocator Pool.bump_laws.

(** A switch that reports an address learned, and always has an event. *)
Definition demo_report : list oes_event_fdb :=
  learn_event (demo_addr 4 10 7) :: replicate 669 (OesEvent OES_FDB_EVENT_OTHER (FdbEntry params0)).

#[export] Instance demo_system : LearnSystem unit := {
  sys_event_init w := (true, w); sys_event_signal w := (tt, w); sys_event_wait w := (true, w); sys_event_destroy w := (tt, w);
  sys_pipe w := (Some (3, 4), w); sys_close _ w := (tt, w); sys_write _ w := (true, w); sys_read _ w := (tt, w);
  sys_thread_init w := (true, w); sys_thread_destroy w := (tt, w);
  sys_select _ fds w := (Some (drop 2 fds), w);
  oes_api_event_fd_create _ _ w := ((OES_STATUS_SUCCESS, 7, 0), w);
  oes_api_event_fd_destroy _ _ w := ((OES_STATUS_SUCCESS, 7, 0), w);
  oes_api_event_register_set _ _ _ _ w := ((OES_STATUS_SUCCESS, 0), w);
  oes_api_fdb_learn_mode_set _ _ w := (OES_STATUS_SUCCESS, w);
  oes_api_event_recv _ _ w := ((OES_STATUS_SUCCESS, demo_report, 1), w) }.

Lemma demo_reports : reports_ok (W := unit) [7; 9].
Proof.
  intros fd vs w st evs n w' [= <- <- <- <-]. split; [reflexivity|]. split; [by vm_compute|].
  apply Forall_cons. split; [apply demo_address; lia|]. apply Forall_replicate. exact I.
Defined.

Definition demo_learn0 : learn qmap (pool_mem (A := Pool.bump)) Pool.bump unit :=
  Learn demo_fdb 0 false true false 0 (0, 0) (0, 0) None None [] false tt.
Definition demo_learn1 : learn qmap (pool_mem (A := Pool.bump)) Pool.bump unit :=
  Learn demo_fdb1 0 true true false 1 (3, 4) (3, 4) None None [] false tt.

Definition demo_calls : list (learn_call (W := unit)) :=
  [SetAddresses OES_ACCESS_CMD_ADD [MacAddr (demo_addr 1 10 9) FDB_UC_STATIC 0] NULL 1; Turn 7 0;
   GetAddresses OES_ACCESS_CMD_GET_FIRST (KeyFilter true 10 false 0) [mac_addr0; mac_addr0] 2 0; FlushAll NULL].

